(* ===== verification/_CoqProject ===== *)
-Q . S2P
Prelude.v
Decimal.v
Bits.v
Buf.v
Text.v
Shlex.v
Codec.v
Calendar.v
Digest.v
Json.v
JsonText.v
Perm.v
Search.v
Lev.v
Edit.v
EditPayload.v
NormText.v
Dictionary.v
NormVerify.v
Endian.v
Wav.v
Dictation.v
Admission.v
Mailbox.v
MailboxFile.v
MailboxCalls.v
Http.v
ImageDims.v
Shellwords.v
Sse.v
Swarm.v
JsonValue.v
ExecProtocol.v
ExecControl.v
ExecRun.v
ExecDelta.v
ExecState.v
ToolCalls.v
StreamDecode.v
Context.v
Checkpoint.v
Transcript.v
WorkingView.v
Errors.v
Effects.v
Turn.v
TurnFrames.v
TurnInv.v
TurnSafe.v
TurnLoops.v
EngineEvents.v
Engine.v
EngineInv.v
EngineHeeds.v
EngineCalls.v
EngineSafe.v
