(* ===== verification/Prelude.v ===== *)
(** * tny: a verification library

    tny (src/src) is a coding-agent harness in C11 and C++: a turn engine, tools
    behind a permission engine, sessions, jobs and teams of agents, and the
    small decoders, scanners and state machines all of these stand on. This
    library models the parts of it that decide something (what may run, what is
    read, what is written, what is accepted) and proves what each promises.

    ** How the code is modelled

    - A byte is a [Z] in [0..255]; a C string is the list of its bytes without
      the terminating NUL, so a read at the end yields 0, and a span with a
      length is the list of its bytes. Reads that the code must guard go through
      a checked lookup whose [None] is a read out of bounds ([ImageDims]).
    - Machine integers are [Z] with their wrap-around written out ([u32], [u64],
      [s32] in this file) where it can matter; counts that index lists are
      [nat].
    - Loops are structural where they consume a list, and otherwise recurse on
      fuel; every property whose loop has fuel shows that the fuel given in the
      definition is enough (the result is the specified one, not merely correct
      if there is one).
    - Allocation, files, clocks, processes and services are arguments: a
      function from the number of the attempt to whether it succeeds, or a
      record of outcomes per call. Theorems quantify over them, so a failure at
      any point is covered.
    - Third-party code is a parameter: yyjson as a reader of texts
      ([JsonText.JsonReader], with an implementation for the texts the program
      writes itself), picohttpparser as a function of the received head.

    ** The files

    Ground: [Prelude] (bytes, C strings, machine integers, automation),
    [Decimal], [Bits], [Endian], [Search] and [Lev] (edit distance).

    - [Buf] — [buf_t] of util/util.c over an abstract [realloc]: a refinement of
      list append with a sticky failure flag. The other files use list append.
    - [Text] — UTF-8 validation against the scalar values it encodes, wildcard
      matching against its textbook meaning, paths.
    - [Codec], [Calendar], [Digest] — base64 and form encoding round trips, ISO
      8601 timestamps against the civil calendar, SHA-1 and SHA-256 against FIPS
      180-4.
    - [Json], [JsonText] — lookups on parsed values, the escaper, JWT payloads,
      and reading back the compact text the program writes by hand.
    - [Shlex] (core/shlex.c), [Shellwords] (core/shellwords.c) — the two
      scanners of command lines, both against one POSIX word grammar, and what
      the terminal tool may conclude a command has read (core/tools_shell.c).
    - [Perm] (core/perm.c) — rules, session grants and the verdict: what is
      allowed, asked or denied, including commands that only read.
    - [Edit], [EditPayload] (core/edit.c) — exact replacement: a file is either
      replaced by the specified content or left alone, whatever the file system
      and the interrupt do; diagnostics; payload formats.
    - [NormText], [NormVerify], [Dictionary] (core/dictation_verify.c,
      core/dictation_dictionary.c) — which rewrites of a transcript are
      acceptable: token equality, spoken numbers, the banded edit distance,
      corrections, user words.
    - [Wav], [Dictation] (core/dictation.c) — recordings, and the session from
      microphone to text: no transcript is lost, no resource touched twice.
    - [Admission] (core/admission.c, util/admission_host.c) — the shared ledger
      that limits launches across processes: safety over every sequence of
      requests, first-come grants, and its file.
    - [Mailbox], [MailboxFile], [MailboxCalls] (core/team_mailbox.c) — messages
      between the members of a team: the requests and their transaction, the
      file, and what every sequence of requests keeps, delivers and never loses.
    - [JsonValue], [ExecProtocol], [ExecControl], [ExecRun], [ExecDelta],
      [ExecState] (core/execution_protocol.c, core/execution_control.c,
      core/execution.c, core/execution_state.c) — the execution server that runs
      code beside its owner: which values and messages are admitted, the control
      messages, the alternation of requests and answers to the end of a run, the
      three-way merge of session changes, and the all-or-nothing exchange of
      state.
    - [Swarm] (core/swarm_manifest.c) — the strict reader of swarm definitions
      and the launch order of their participants.
    - [Http] (net/http1.c), [Sse] (net/sse.cpp) — request text, response heads,
      chunked bodies and event streams under any fragmentation.
    - [Context], [Checkpoint] (core/config.h, core/checkpoint.cpp) — the resolved
      context of a run and its restart snapshots: the private one gives the
      context back, the public one holds no private value, and a session is
      recovered only under the authority resolved anew.
    - [ToolCalls], [StreamDecode] (backends/openai/toolcalls.cpp and
      stream_decode.cpp) — provider streams of both protocols: how the pieces of
      tool calls, reasoning details and texts are put together, that a streamed
      response gives what the same response gives as a whole, and that nothing
      a provider sends breaks the decoder.
    - [Errors] (backends/openai/errors.c) — failures of a provider: what is worth
      a retry and when, and the line for the user, which quotes nothing of the
      provider's unless asked to.
    - [Transcript], [WorkingView] (core/session.c) — the messages of a session:
      their edits, the view sent to a provider, in which every call has exactly
      one result, compaction at a turn, results shortened only where the whole
      can be read back, stored results and search.
    - [Effects] — programs with effects: a state monad with weakest
      preconditions, and updates of one field of a record.
    - [Turn], [TurnFrames], [TurnInv], [TurnSafe], [TurnLoops]
      (backends/openai/openai.c) — the turn of the native backend, from the
      prompt over requests, streams, tool batches, permissions, retries,
      steers and cancellation to its end. [Turn] is the program, every entry the
      runtime may call, in the order and with the early returns of the code; the
      provider, the extensions, the user, the tools, the disk and the memory are
      a record of functions ([host]) whose answers may depend on everything
      asked before, and a trace records what the turn emits and asks. An
      allocation failure is seen where the code looks for one. [TurnFrames]
      states what may follow in a trace, and which programs leave the turn as
      it is; [TurnInv] is the invariant with the rules of a triple over it;
      [TurnSafe] carries it through every operation; [TurnLoops] shows that the
      rounds given to the two loops are enough.
    - [EngineEvents], [Engine], [EngineInv], [EngineHeeds], [EngineCalls],
      [EngineSafe] (core/runtime.c, core/events.h, core/owned_event.cpp) — the
      engine between frontends, backends and extensions: [EngineEvents] is what
      it passes on, events with what their copies take, the actions of
      extensions and the JSON they are told; [Engine] is the program, every
      function a frontend may call. An operation of a backend is a tree of
      events it reports, controls it asks for and looks at the outside ([prog]),
      so that it may do them in any order; extensions, session, clock, poll and
      memory are functions of a host, as in [Turn], and a trace records what
      the frontend and the backend are told. The hooks answer permissions, a
      backend then asks for controls, and those run the hooks: the nesting is
      given 260 levels, and every level has run one hook more on a queue of at
      most 258. [EngineInv] states what steps within a call leave as it is,
      [EngineHeeds] carries that through controls and hooks, [EngineCalls] has
      the invariant between calls, and [EngineSafe] what is promised to the
      frontend and to extensions.
    - [ImageDims] (core/image_dimensions.c) — PNG, JPEG and WebP headers.

    Names are those of the source wherever Rocq allows it; a definition with no
    counterpart is a loop or branch of the function it is named after in the
    manifest.

    ** Interfaces

    [Perm] is proved against [Shlex]'s grammar rather than its loop;
    [NormVerify] against [Lev]'s alignments and [Dictionary]'s invariant;
    [ExecRun], [ExecControl] and [ExecState] against [ExecProtocol]'s meaning of
    a wholesome value; [Admission] and [Mailbox] against [JsonText.JsonReader], which the reader in
    [JsonText] discharges; [Dictation] uses the rewrite lifecycle of
    [NormVerify] and the recordings of [Wav]. [Turn] composes [Sse],
    [StreamDecode], [ToolCalls], [Errors], [Transcript] and [WorkingView]; its
    proofs use of them only that the working view is well paired. Its own
    interfaces are the classes of [TurnInv]: predicates that survive what lies in
    between, a change of place, or a shortage of memory.

    ** Not modelled

    Process supervision, sockets, TLS, terminals, provider protocols and file
    discovery are operating-system behaviour around the parts above and enter
    as arguments or not at all. Of the execution server the snapshot it starts
    from and the handlers behind its callbacks are left out, and of sessions
    everything but the transcript: opening, saving, locking and listing. Of the
    turn of the native backend the text of a request around the conversation,
    what is learned from a turn and the restart of a checkpointed turn are left
    out; an event callback does not call back into the backend, as
    core/backend.h demands. The engine is modelled over any backend, with its
    own event and permission types ([Turn] has those of the turn it models);
    that [Turn] is one of its backends is not stated. Its destruction and the
    images it passes on are left out. Jobs, the loading of settings, the TOML
    reader and the terminal intercept are not modelled: they are mostly effects,
    and what they decide is decided by the parts above. *)
From stdpp Require Export base list numbers strings option.
From Stdlib Require Export ZArith Lia.

Open Scope Z_scope.

(** ** Bytes and C strings

    A byte is a [Z] in [0 .. 255]; a C string is the list of its bytes without
    the terminating NUL, so reading at the end of the list yields 0, which is
    what the code reads there. *)

Abbreviation bytes := (list Z).

Fixpoint bytes_of (s : string) : bytes :=
  match s with
  | EmptyString => []
  | String c r => Z.of_N (Ascii.N_of_ascii c) :: bytes_of r
  end.

(** [B"git"] is the literal list of bytes of "git", [C";"] the byte of ';'. *)
Declare Scope tny_scope.
Notation "'B' s" :=
  (ltac:(let v := eval vm_compute in (bytes_of s%string) in exact v))
  (at level 1, s at level 0, only parsing) : tny_scope.
Notation "'C' c" :=
  (ltac:(let v := eval vm_compute in (hd 0 (bytes_of c%string)) in exact v))
  (at level 1, c at level 0, only parsing) : tny_scope.
Open Scope tny_scope.

(** Characters a string literal cannot spell. *)
Abbreviation NUL := 0 (only parsing).
Abbreviation TAB := 9 (only parsing).
Abbreviation LF := 10 (only parsing).
Abbreviation VT := 11 (only parsing).
Abbreviation FF := 12 (only parsing).
Abbreviation CR := 13 (only parsing).
Abbreviation DQUOTE := 34 (only parsing).
Abbreviation BACKSLASH := 92 (only parsing).

Definition is_byte (c : Z) : Prop := 0 <= c <= 255.

(** A string that C's [str*] functions see whole: bytes, none of them NUL. *)
Definition cstring (s : bytes) : Prop := Forall (fun c => 1 <= c <= 255) s.

(** [s[i]], with the terminator at the end. *)
Definition char_at (s : bytes) (i : nat) : Z := nth i s NUL.

(** [*p] for a pointer into a string, the string being what is left of it. *)
Definition cur (p : bytes) : Z := hd NUL p.

Definition str_eq (a b : bytes) : bool := bool_decide (a = b).

(** [NULL]-terminated tables of strings searched with [strcmp]. *)
Definition str_in (a : bytes) (table : list bytes) : bool :=
  existsb (fun w => str_eq a w) table.

Definition mem_byte (c : Z) (s : bytes) : bool := existsb (Z.eqb c) s.

(** [strncmp(s, prefix, strlen(prefix)) == 0], also [memcmp] of a prefix. *)
Fixpoint has_prefix (pre s : bytes) : bool :=
  match pre, s with
  | [], _ => true
  | _ :: _, [] => false
  | a :: pre', b :: s' => (a =? b) && has_prefix pre' s'
  end.

(** [strstr(s, needle) != NULL] *)
Fixpoint contains (needle s : bytes) : bool :=
  str_eq (take (length needle) s) needle || match s with [] => false | _ :: s => contains needle s end.

(** ** Machine integers *)

Definition SIZE_MAX : Z := 18446744073709551615.
Definition UINT32_MAX : Z := 4294967295.
Definition u32 (x : Z) : Z := x mod 4294967296.
Definition u64 (x : Z) : Z := x mod 18446744073709551616.

(** ** Character classes of <ctype.h> in the C locale *)

Definition is_digit (c : Z) : bool := (C"0" <=? c) && (c <=? C"9").
Definition is_upper (c : Z) : bool := (C"A" <=? c) && (c <=? C"Z").
Definition is_lower (c : Z) : bool := (C"a" <=? c) && (c <=? C"z").
Definition is_alpha (c : Z) : bool := is_upper c || is_lower c.
Definition is_alnum (c : Z) : bool := is_alpha c || is_digit c.
Definition is_space (c : Z) : bool :=
  (c =? C" ") || ((TAB <=? c) && (c <=? CR)).

(** ** Tactics *)

(** [lia] also decides [/] and [mod] by constants. *)
Ltac Zify.zify_post_hook ::= Z.to_euclidean_division_equations.

(** Splits the conditionals of a definition one at a time, keeping each
    outcome, and closes the arithmetic contradictions. *)
Ltac case_if :=
  match goal with
  | |- context [if negb ?b then _ else _] => destruct b eqn:? in *; cbn [negb]
  | |- context [if ?b then _ else _] => destruct b eqn:? in *
  | H : context [if ?b then _ else _] |- _ => destruct b eqn:? in *
  end.

Ltac boolify :=
  repeat match goal with
  | H : _ && _ = true |- _ => apply andb_true_iff in H as [? ?]
  | H : _ || _ = false |- _ => apply orb_false_iff in H as [? ?]
  | H : negb _ = true |- _ => apply negb_true_iff in H
  | H : negb _ = false |- _ => apply negb_false_iff in H
  end.

(** ** Lemmas on strings *)

Lemma str_eq_true a b : str_eq a b = true <-> a = b.
Proof. apply bool_decide_eq_true. Qed.

Lemma str_eq_false a b : str_eq a b = false <-> a <> b.
Proof. apply bool_decide_eq_false. Qed.

Lemma str_eq_refl a : str_eq a a = true.
Proof. by apply str_eq_true. Qed.

Lemma str_in_true a t : str_in a t = true <-> In a t.
Proof.
  unfold str_in. rewrite existsb_exists. split.
  - intros (x & Hin & E). apply str_eq_true in E. by subst.
  - intros Hin. exists a. split; [done | apply str_eq_refl].
Qed.

Lemma mem_byte_true c s : mem_byte c s = true <-> In c s.
Proof.
  unfold mem_byte. rewrite existsb_exists. split.
  - intros (x & Hin & E). apply Z.eqb_eq in E. by subst.
  - intros Hin. exists c. split; [done | apply Z.eqb_refl].
Qed.

Lemma has_prefix_true pre s : has_prefix pre s = true <-> exists t, s = pre ++ t.
Proof.
  revert s. induction pre as [|a pre IH]; intros s; simpl.
  - split; [by exists s | done].
  - destruct s as [|b s]; [split; [done | by intros [t ?]]|].
    rewrite andb_true_iff, IH, Z.eqb_eq. split.
    + intros [-> [t ->]]. by exists t.
    + intros [t [= -> ->]]. eauto.
Qed.

Lemma has_prefix_app pre t : has_prefix pre (pre ++ t) = true.
Proof. apply has_prefix_true. by exists t. Qed.

Lemma has_prefix_length pre s : has_prefix pre s = true -> (length pre <= length s)%nat.
Proof. intros [t ->]%has_prefix_true. rewrite length_app. lia. Qed.

Lemma u32_small x : 0 <= x <= UINT32_MAX -> u32 x = x.
Proof. unfold u32, UINT32_MAX. intros. apply Z.mod_small. lia. Qed.

Lemma u64_small x : 0 <= x <= SIZE_MAX -> u64 x = x.
Proof. unfold u64, SIZE_MAX. intros. apply Z.mod_small. lia. Qed.

Lemma u32_range x : 0 <= u32 x <= UINT32_MAX.
Proof. unfold u32, UINT32_MAX. pose proof (Z.mod_pos_bound x 4294967296). lia. Qed.

(** ** Generic lemmas on lists *)

Lemma drop_cons_nth {A} (d : A) n (l : list A) :
  (n < length l)%nat -> drop n l = nth n l d :: drop (S n) l.
Proof.
  revert l. induction n as [|n IH]; intros [|a l] H; simpl in *; try lia; [done|].
  rewrite IH by lia. done.
Qed.

Lemma take_app_exact {A} (l k : list A) : take (length l) (l ++ k) = l.
Proof. rewrite take_app_le by done. by rewrite firstn_all. Qed.

Lemma drop_app_exact {A} (l k : list A) : drop (length l) (l ++ k) = k.
Proof. rewrite drop_app_ge by done. by rewrite Nat.sub_diag. Qed.

Lemma filter_none_of {A} (p : A -> bool) l : Forall (fun x => p x = false) l -> List.filter p l = [].
Proof. induction 1 as [|x l Hx _ IH]; [done|]. cbn. by rewrite Hx. Qed.

Lemma filter_all {A} (p : A -> bool) l : Forall (fun x => p x = true) l -> List.filter p l = l.
Proof. induction 1 as [|x l Hx _ IH]; [done|]. cbn. by rewrite Hx, IH. Qed.

(** A loop that stores one value per index. *)
Lemma fold_store {A} (g : nat -> A) (a b : list A) k :
  fold_left (fun w i => <[i := g i]> w) (seq (length a) (length b)) (a ++ b ++ k) =
  a ++ map g (seq (length a) (length b)) ++ k.
Proof.
  revert a. induction b as [|x b IH]; intros a; [done|]. cbn [length seq fold_left map].
  rewrite insert_app_r_alt, Nat.sub_diag by done. cbn [app insert list_insert].
  specialize (IH (a ++ [g (length a)])). rewrite length_app in IH. cbn [length] in IH.
  rewrite Nat.add_1_r, <- !app_assoc in IH. exact IH.
Qed.

Lemma fold_store_fill {A} (g : nat -> A) (x : A) n len :
  (n <= len)%nat ->
  fold_left (fun w i => <[i := g i]> w) (seq 0 n) (replicate len x) =
  map g (seq 0 n) ++ replicate (len - n) x.
Proof.
  intros H. pose proof (fold_store g [] (replicate n x) (replicate (len - n) x)) as E.
  cbn [length app] in E. rewrite length_replicate, <- replicate_add in E.
  by replace (n + (len - n))%nat with len in E by lia.
Qed.

Create HintDb tny.
Create Rewrite HintDb tny.
#[export] Hint Resolve str_eq_refl has_prefix_app : tny.
#[export] Hint Rewrite @length_app @length_take @length_drop @take_app_exact
  @drop_app_exact : tny.
