(* ===== verification/Decimal.v ===== *)
(** Decimal numerals as [%u] and [%llu] print them. *)
From S2P Require Import Prelude.

Open Scope Z_scope.

(** Decimal digits, most significant first. *)
Fixpoint digits_of (fuel : nat) (n : Z) : bytes :=
  match fuel with
  | O => []
  | S fuel => (if n <? 10 then [] else digits_of fuel (n / 10)) ++ [C"0" + n mod 10]
  end.
Definition dec (n : Z) : bytes := digits_of 20 n.

(** [%d] *)
Definition int_text (n : Z) : bytes := if n <? 0 then C"-" :: dec (- n) else dec n.

Definition digits_value (ds : bytes) (v : Z) : Z := fold_left (fun v c => v * 10 + (c - C"0")) ds v.

Lemma digits_of_spec fuel n :
  0 <= n < 10 ^ Z.of_nat fuel -> (0 < fuel)%nat ->
  Forall (fun c => is_digit c = true) (digits_of fuel n) /\
  (1 <= length (digits_of fuel n) <= fuel)%nat /\
  digits_value (digits_of fuel n) 0 = n /\
  (0 < n -> cur (digits_of fuel n) <> C"0") /\
  forall k, (0 < k)%nat -> n < 10 ^ Z.of_nat k -> (length (digits_of fuel n) <= k)%nat.
Proof.
  revert n. induction fuel as [|fuel IH]; intros n Hn Hf; [lia|]. cbn [digits_of].
  rewrite Nat2Z.inj_succ, Z.pow_succ_r in Hn by lia.
  assert (Hd : is_digit (C"0" + n mod 10) = true) by (unfold is_digit; lia).
  destruct (Z.ltb_spec n 10).
  - cbn. split_and!; [by repeat constructor|lia|lia|lia|lia|intros; lia].
  - assert (0 < fuel)%nat by (destruct fuel; [simpl in Hn; lia|lia]).
    destruct (IH (n / 10)) as (H1 & H2 & H3 & H4 & H5); [lia|done|].
    split; [apply Forall_app; split; [done|by repeat constructor]|].
    split; [rewrite length_app; cbn; lia|].
    split; [unfold digits_value in *; rewrite fold_left_app, H3; cbn; lia|].
    split.
    + intros _. destruct (digits_of fuel (n / 10)); [simpl in H2; lia|]. apply H4. lia.
    + intros k Hk Hlt. rewrite length_app. cbn. destruct k as [|k]; [lia|].
      rewrite Nat2Z.inj_succ, Z.pow_succ_r in Hlt by lia.
      destruct k; [simpl in Hlt; lia|]. specialize (H5 (S k) ltac:(lia) ltac:(lia)). lia.
Qed.

(** What a numeral below 10^20 is: its own digits, without a leading zero. *)
Lemma dec_spec n :
  0 <= n < 10 ^ 20 ->
  Forall (fun c => is_digit c = true) (dec n) /\ (1 <= length (dec n) <= 20)%nat /\
  digits_value (dec n) 0 = n /\ (0 < n -> cur (dec n) <> C"0").
Proof. intros H. destruct (digits_of_spec 20 n) as (H1 & H2 & H3 & H4 & _); [done|lia|done]. Qed.

Lemma is_digit_range c : is_digit c = true <-> 48 <= c <= 57.
Proof. unfold is_digit. lia. Qed.

Lemma digits_value_app ds c v : digits_value (ds ++ [c]) v = digits_value ds v * 10 + (c - C"0").
Proof. unfold digits_value. by rewrite fold_left_app. Qed.

(** A numeral lies between its leading digit's power and the next power. *)
Lemma digits_value_bounds ds v :
  Forall (fun c => is_digit c = true) ds -> 0 <= v ->
  v * 10 ^ Z.of_nat (length ds) <= digits_value ds v < (v + 1) * 10 ^ Z.of_nat (length ds).
Proof.
  intros H. revert v. induction H as [|c ds Hc Hds IH]; intros v Hv; cbn [length]; [cbn; lia|].
  apply is_digit_range in Hc. rewrite Nat2Z.inj_succ, Z.pow_succ_r by lia.
  assert (0 < 10 ^ Z.of_nat (length ds)) by (apply Z.pow_pos_nonneg; lia).
  change (digits_value (c :: ds) v) with (digits_value ds (v * 10 + (c - C"0"))).
  specialize (IH (v * 10 + (c - C"0")) ltac:(lia)). nia.
Qed.

Lemma digits_value_pos ds :
  Forall (fun c => is_digit c = true) ds -> ds <> [] -> cur ds <> C"0" -> 1 <= digits_value ds 0.
Proof.
  intros H Hne Hc. destruct ds as [|c ds]; [done|]. apply list.Forall_cons in H as [Hd H]. apply is_digit_range in Hd.
  cbn [cur hd] in Hc. change (digits_value (c :: ds) 0) with (digits_value ds (0 * 10 + (c - C"0"))).
  pose proof (digits_value_bounds ds (0 * 10 + (c - C"0")) H ltac:(lia)).
  assert (0 < 10 ^ Z.of_nat (length ds)) by (apply Z.pow_pos_nonneg; lia). nia.
Qed.

(** Digits without a leading zero are the numeral of their value. *)
Lemma digits_of_value fuel ds :
  Forall (fun c => is_digit c = true) ds -> ds <> [] -> cur ds <> C"0" -> (length ds <= fuel)%nat ->
  digits_of fuel (digits_value ds 0) = ds.
Proof.
  revert fuel. induction ds as [|c ds IH] using rev_ind; intros fuel H Hne Hc Hl; [done|].
  apply Forall_app in H as [Hds Hd]. apply list.Forall_cons in Hd as [Hd _]. apply is_digit_range in Hd.
  rewrite length_app in Hl. cbn [length] in Hl. destruct fuel as [|fuel]; [lia|]. cbn [digits_of].
  rewrite digits_value_app. destruct ds as [|c0 ds].
  - cbn [app digits_value fold_left] in *. destruct (Z.ltb_spec (0 * 10 + (c - C"0")) 10); [|lia].
    cbn [app]. f_equal. lia.
  - cbn [app cur hd] in Hc. pose proof (digits_value_pos (c0 :: ds) Hds ltac:(done) Hc) as Hpos.
    set (v := digits_value (c0 :: ds) 0) in *. destruct (Z.ltb_spec (v * 10 + (c - C"0")) 10); [lia|].
    replace ((v * 10 + (c - C"0")) / 10) with v by lia. replace ((v * 10 + (c - C"0")) mod 10) with (c - C"0") by lia.
    unfold v. rewrite IH by (done || lia). do 2 f_equal. lia.
Qed.

(** Every string is digits followed by something that is not one. *)
Lemma split_digits p : exists ds q, p = ds ++ q /\ Forall (fun c => is_digit c = true) ds /\ is_digit (cur q) = false.
Proof.
  induction p as [|c p (ds & q & -> & H & Hq)]; [by exists [], []|].
  destruct (is_digit c) eqn:E; [exists (c :: ds), q; split_and!; try done; by constructor|by exists [], (c :: ds ++ q)].
Qed.

(** How long numerals are. *)
Lemma dec_width n k : (1 <= k <= 20)%nat -> 0 <= n < 10 ^ Z.of_nat k -> (length (dec n) <= k)%nat.
Proof.
  intros Hk Hn. enough (forall fuel k n, (1 <= k)%nat -> 0 <= n < 10 ^ Z.of_nat k -> (length (digits_of fuel n) <= k)%nat) as H
    by (apply H; [lia|done]).
  clear. induction fuel as [|fuel IH]; intros k n Hk Hn; cbn [digits_of length]; [lia|]. rewrite length_app. cbn [length].
  destruct (Z.ltb_spec n 10); [cbn; lia|]. destruct k as [|[|k]]; [lia|change (10 ^ Z.of_nat 1) with 10 in Hn; lia|].
  enough (length (digits_of fuel (n / 10)) <= S k)%nat by lia. apply IH; [lia|].
  rewrite (Nat2Z.inj_succ (S k)), Z.pow_succ_r in Hn by lia. split; [apply Z.div_pos; lia|]. apply Z.div_lt_upper_bound; lia.
Qed.

Lemma dec_width64 n : 0 <= n <= SIZE_MAX -> (length (dec n) <= 20)%nat.
Proof. unfold SIZE_MAX. intros H. apply dec_width; [lia|]. change (10 ^ Z.of_nat 20) with 100000000000000000000. lia. Qed.
