(* ===== verification/Bits.v ===== *)
(** Bit-level lemmas shared by the byte decoders: a field shifted into place
    and or-ed is an addition, and any decidable fact of one byte is settled by
    looking at all 256 of them. *)
From S2P Require Import Prelude.

Open Scope Z_scope.

(** Every byte at once, for [vm_compute]. *)
Definition all_bytes : list Z := seqZ 0 256.

Lemma byte_cases (P : Z -> bool) :
  forallb P all_bytes = true -> forall c, is_byte c -> P c = true.
Proof.
  intros H c Hc. rewrite forallb_forall in H. apply H.
  apply list_elem_of_In, elem_of_seqZ. unfold is_byte in Hc. lia.
Qed.

(** Proves [forall c, is_byte c -> b = true] for a computable [b]. *)
Ltac by_all_bytes :=
  let c := fresh "c" in let H := fresh "H" in
  intros c H;
  match goal with
  | |- ?b = true =>
    match eval pattern c in b with
    | ?g _ => exact (byte_cases g ltac:(vm_compute; reflexivity) c H)
    end
  end.

Lemma lor_shiftl_add a b n :
  0 <= n -> 0 <= b < 2 ^ n -> Z.lor (Z.shiftl a n) b = a * 2 ^ n + b.
Proof.
  intros Hn Hb. rewrite <- Z.shiftl_mul_pow2 by done.
  rewrite <- Z.add_lor_land.
  replace (Z.land (Z.shiftl a n) b) with 0; [lia|].
  symmetry. apply Z.bits_inj'. intros i Hi.
  rewrite Z.land_spec, Z.bits_0. destruct (Z.lt_ge_cases i n) as [Hlt|Hge].
  - by rewrite Z.shiftl_spec_low.
  - rewrite <- (Z.mod_small b (2 ^ n)), Z.mod_pow2_bits_high by lia.
    apply andb_false_r.
Qed.

Lemma lor_shiftl_add' a b n :
  0 <= n -> 0 <= b < 2 ^ n -> Z.lor b (Z.shiftl a n) = b + a * 2 ^ n.
Proof. intros. rewrite Z.lor_comm, lor_shiftl_add by done. lia. Qed.

Lemma land_mask x n : 0 <= n -> Z.land x (2 ^ n - 1) = x mod 2 ^ n.
Proof. intros. by rewrite Z.sub_1_r, <- Z.ones_equiv, Z.land_ones. Qed.

(** The masks the code spells as literals. *)
Lemma land_63 x : Z.land x 63 = x mod 64.
Proof. apply (land_mask x 6). lia. Qed.
Lemma land_15 x : Z.land x 15 = x mod 16.
Proof. apply (land_mask x 4). lia. Qed.
Lemma land_1 x : Z.land x 1 = x mod 2.
Proof. apply (land_mask x 1). lia. Qed.
Lemma land_255 x : Z.land x 255 = x mod 256.
Proof. apply (land_mask x 8). lia. Qed.
Lemma land_3fff x : Z.land x 16383 = x mod 16384.
Proof. apply (land_mask x 14). lia. Qed.
