(* ===== verification/Buf.v ===== *)
(** The growable byte buffer of src/src/util/util.c ([buf_t]): reservation with
    doubling, append, consume, detach and the sticky out-of-memory flag, over
    an abstract [realloc]. Every other component appends to buffers only
    through these operations, and is modelled with plain list append, which
    [buf_append_spec] justifies. *)
From S2P Require Import Prelude.

Open Scope Z_scope.

(** [buf_t]. [data] is the whole allocation ([[]] when the pointer is NULL),
    so [cap] is its length and bytes past [len] are whatever they are. *)
Record buf_t := mk_buf { data : bytes; len : Z; cap : Z; oom : bool }.

(** [realloc] of the C library: NULL, or a block of the new size that starts
    with the old contents. *)
Class Allocator := { realloc : bytes -> Z -> option bytes }.

Class AllocatorLaws (A : Allocator) := {
  realloc_length d n d' :
    0 <= n -> realloc d n = Some d' -> Z.of_nat (length d') = n;
  realloc_prefix d n d' :
    Z.of_nat (length d) <= n -> realloc d n = Some d' ->
    exists t, d' = d ++ t }.

(** [memcpy(data + at, src, n)], [None] when it would write out of bounds. *)
Definition write_at (d : bytes) (pos : Z) (src : bytes) : option bytes :=
  let i := Z.to_nat pos in
  if (0 <=? pos) && (pos + Z.of_nat (length src) <=? Z.of_nat (length d))
  then Some (take i d ++ src ++ drop (i + length src) d)
  else None.

(** The doubling loop of [buf_reserve]; 65 rounds exceed what a 64-bit
    capacity allows (see [grow_cap_enough]). *)
Fixpoint grow_cap (fuel : nat) (c need : Z) : option Z :=
  match fuel with
  | O => None
  | S fuel =>
    if c <? need
    then if SIZE_MAX / 2 <? c then Some need else grow_cap fuel (c * 2) need
    else Some c
  end.

Definition buf_init : buf_t := mk_buf [] 0 0 false.
Definition buf_free (_ : buf_t) : buf_t := buf_init.

Section Operations.
Context `{Allocator}.

Definition set_oom (b : buf_t) : buf_t := mk_buf (data b) (len b) (cap b) true.

(** The outer [option] is memory safety: [None] would be an access outside the
    allocation (or a loop that does not end). *)
Definition buf_reserve (b : buf_t) (extra : Z) : option buf_t :=
  if oom b then Some b
  else if u64 (SIZE_MAX - len b - 1) <? extra then Some (set_oom b)
  else
    let need := len b + extra + 1 in
    if need <=? cap b then Some b
    else
      c ← grow_cap 65 (if cap b =? 0 then 64 else cap b) need;
      match realloc (data b) c with
      | None => Some (set_oom b)
      | Some next => Some (mk_buf next (len b) c false)
      end.

Definition buf_append (b : buf_t) (src : bytes) : option buf_t :=
  if oom b then Some b
  else if bool_decide (src = []) then
    b ← buf_reserve b 0;
    if oom b then Some b
    else d ← write_at (data b) (len b) [NUL];
         Some (mk_buf d (len b) (cap b) false)
  else
    b ← buf_reserve b (Z.of_nat (length src));
    if oom b || bool_decide (data b = []) then Some (set_oom b)
    else
      d ← write_at (data b) (len b) src;
      let n := len b + Z.of_nat (length src) in
      d ← write_at d n [NUL];
      Some (mk_buf d n (cap b) false).

(** [buf_appends(b, s)]; [None] as the argument is the NULL pointer. *)
Definition buf_appends (b : buf_t) (s : option bytes) : option buf_t :=
  match s with
  | None => Some (set_oom b)
  | Some s => buf_append b s
  end.

(** [buf_appendf]: what [vsnprintf] formats is an argument, [None] for a
    negative return. *)
Definition buf_appendf (b : buf_t) (formatted : option bytes) : option buf_t :=
  match formatted with
  | None => Some b
  | Some s =>
    b ← buf_reserve b (Z.of_nat (length s));
    if oom b then Some b
    else d ← write_at (data b) (len b) (s ++ [NUL]);
         Some (mk_buf d (len b + Z.of_nat (length s)) (cap b) false)
  end.

Definition buf_clear (b : buf_t) : option buf_t :=
  if bool_decide (data b = []) then Some (mk_buf (data b) 0 (cap b) (oom b))
  else d ← write_at (data b) 0 [NUL]; Some (mk_buf d 0 (cap b) (oom b)).

(** [memmove] of the tail to the front, then the terminator. *)
Definition buf_consume (b : buf_t) (n : Z) : option buf_t :=
  if len b <=? n then buf_clear b
  else
    let rest := take (Z.to_nat (len b - n)) (drop (Z.to_nat n) (data b)) in
    d ← write_at (data b) 0 rest;
    d ← write_at d (len b - n) [NUL];
    Some (mk_buf d (len b - n) (cap b) (oom b)).

(** The detached pointer ([None]: NULL) and the buffer left behind. *)
Definition buf_detach (b : buf_t) : option (option bytes * buf_t) :=
  if oom b then Some (None, buf_init)
  else if bool_decide (data b = []) then
    b ← buf_reserve b 0;
    if oom b then Some (None, buf_init)
    else d ← write_at (data b) 0 [NUL]; Some (Some d, buf_init)
  else Some (Some (data b), buf_init).

Definition buf_oom (b : buf_t) : bool := oom b.

End Operations.

(** ** The contract *)

(** What a client sees: the first [len] bytes. *)
Definition contents (b : buf_t) : bytes := take (Z.to_nat (len b)) (data b).

(** Well-formed: [cap] is the size of the allocation, and the bytes in use
    plus a terminator fit it, unless nothing was allocated yet. *)
Definition buf_wf (b : buf_t) : Prop :=
  cap b = Z.of_nat (length (data b)) /\ cap b <= SIZE_MAX /\ 0 <= len b /\
  (if cap b =? 0 then len b = 0 else len b < cap b).

(** The terminator [data[len] = 0] that every operation but a bare
    reservation keeps. *)
Definition terminated (b : buf_t) : Prop :=
  data b = [] \/ nth (Z.to_nat (len b)) (data b) 1 = NUL.

Lemma grow_cap_bounds fuel c need r :
  0 < c -> c <= SIZE_MAX -> need <= SIZE_MAX ->
  grow_cap fuel c need = Some r -> need <= r /\ c <= r /\ r <= SIZE_MAX.
Proof.
  revert c. induction fuel as [|fuel IH]; intros c Hc Hm Hn; simpl; [done|].
  case_if; [case_if|].
  - intros [= <-]. unfold SIZE_MAX in *.
    lia.
  - intros E. apply IH in E; unfold SIZE_MAX in *.
    all: lia.
  - intros [= <-]. lia.
Qed.

(** 65 rounds of doubling leave the 64-bit range, so the loop ends before. *)
Lemma grow_cap_enough fuel c need :
  0 < c -> SIZE_MAX < c * 2 ^ Z.of_nat fuel -> need <= SIZE_MAX ->
  is_Some (grow_cap (S fuel) c need).
Proof.
  revert c. induction fuel as [|fuel IH]; intros c Hc Hf Hn.
  - simpl in *. unfold SIZE_MAX in *. case_if; [case_if|]; eauto; lia.
  - cbn [grow_cap]. case_if; [|eauto]. case_if; [eauto|].
    apply IH; [lia| |done]. rewrite Nat2Z.inj_succ, Z.pow_succ_r in Hf by lia. lia.
Qed.

Lemma write_at_length d p s d' : write_at d p s = Some d' -> length d' = length d.
Proof.
  unfold write_at. case_if; [|done]. intros [= <-].
  autorewrite with tny. lia.
Qed.

Lemma write_at_ok d p s :
  0 <= p -> p + Z.of_nat (length s) <= Z.of_nat (length d) ->
  write_at d p s = Some (take (Z.to_nat p) d ++ s ++ drop (Z.to_nat p + length s) d).
Proof. intros. unfold write_at. case_if; [done|lia]. Qed.

Section Contract.
Context `{AllocatorLaws}.

Lemma buf_init_wf : buf_wf buf_init.
Proof. unfold buf_wf, SIZE_MAX. simpl. lia. Qed.

(** Reservation keeps the contents, makes room for [extra] bytes and the
    terminator, or raises the flag. *)
Lemma buf_reserve_spec b extra :
  buf_wf b -> 0 <= extra ->
  exists b', buf_reserve b extra = Some b' /\ buf_wf b' /\
    contents b' = contents b /\ len b' = len b /\
    (oom b' = false -> oom b = false /\ len b + extra < cap b').
Proof.
  intros Hwf He. unfold buf_reserve.
  destruct (oom b) eqn:Ho; [eexists; split_and!; eauto; congruence|].
  destruct Hwf as (Hc & Hm & Hl & Hlc).
  assert (Hu : u64 (SIZE_MAX - len b - 1) = SIZE_MAX - len b - 1).
  { apply u64_small. case_if; unfold SIZE_MAX in *; lia. }
  rewrite Hu. case_if.
  { eexists; split_and!; eauto; [unfold buf_wf; simpl; auto|done]. }
  case_if; [eexists; split_and!; eauto; [unfold buf_wf; auto|lia]|].
  set (c0 := if cap b =? 0 then 64 else cap b).
  assert (0 < c0 <= SIZE_MAX /\ cap b <= c0) as [? ?]
    by (subst c0; unfold SIZE_MAX in *; case_if; lia).
  clearbody c0.
  destruct (grow_cap_enough 64 c0 (len b + extra + 1)) as [c Hg];
    [lia | change (2 ^ Z.of_nat 64) with (SIZE_MAX + 1); unfold SIZE_MAX in *; lia | lia |].
  rewrite Hg. simpl. apply grow_cap_bounds in Hg as (? & ? & ?); try lia.
  destruct (realloc (data b) c) as [d|] eqn:Hr.
  2: { eexists; split_and!; eauto; [unfold buf_wf; simpl; auto|done]. }
  pose proof (realloc_length (data b) c d ltac:(lia) Hr) as Hlen.
  destruct (realloc_prefix (data b) c d ltac:(lia) Hr) as [t ->].
  eexists; split_and!; eauto; simpl; [|unfold contents; simpl|lia].
  - unfold buf_wf; simpl. destruct (c =? 0) eqn:?; lia.
  - rewrite take_app_le; [done|]. case_if; lia.
Qed.

(** Writing [s] and then the terminator at [len], once there is room. *)
Lemma store_ok b s :
  buf_wf b -> len b + Z.of_nat (length s) < cap b ->
  exists d1 d2, let n := len b + Z.of_nat (length s) in
    write_at (data b) (len b) s = Some d1 /\ write_at d1 n [NUL] = Some d2 /\
    let b' := mk_buf d2 n (cap b) false in
    buf_wf b' /\ contents b' = contents b ++ s /\ terminated b'.
Proof.
  intros (Hc & Hm & Hl & Hlc) Hr. eexists _, _. simpl.
  split; [apply write_at_ok; lia|].
  split; [apply write_at_ok; repeat (autorewrite with tny; simpl); lia|].
  split_and!.
  - unfold buf_wf; simpl. repeat (autorewrite with tny; simpl). case_if; lia.
  - unfold contents; simpl.
    rewrite take_app_le by (repeat (autorewrite with tny; simpl); lia).
    rewrite take_take, Nat.min_id, app_assoc, take_app_le by (autorewrite with tny; lia).
    apply take_ge. autorewrite with tny. lia.
  - right. simpl. rewrite app_nth2 by (repeat (autorewrite with tny; simpl); lia).
    repeat (autorewrite with tny; simpl).
    by replace (_ - _)%nat with 0%nat by lia.
Qed.

(** Append is memory safe, keeps well-formedness, and either the bytes arrive
    after the old contents with a terminator behind them, or the flag is up
    and the contents are untouched. *)
Lemma buf_append_contract b s :
  buf_wf b ->
  exists b', buf_append b s = Some b' /\ buf_wf b' /\
    ((oom b' = false /\ oom b = false /\ contents b' = contents b ++ s /\ terminated b') \/
     (oom b' = true /\ contents b' = contents b)).
Proof.
  intros Hwf. unfold buf_append.
  destruct (oom b) eqn:Ho; [eexists; split_and!; eauto|].
  destruct (buf_reserve_spec b (Z.of_nat (length s))) as (b1 & E & W & Cn & L & O);
    [done | lia |].
  case_bool_decide as Hs; [subst s; change (Z.of_nat (length [])) with 0 in E|];
    rewrite E; cbn [mbind option_bind]; (destruct (oom b1) eqn:Ho1; simpl).
  1,3: eexists; split_and!; eauto.
  - destruct (O eq_refl) as [_ Hr]. rewrite <- L in Hr.
    destruct (store_ok b1 [] W Hr) as (d1 & d2 & E1 & E2 & W2 & C2 & T2).
    rewrite Z.add_0_r in E2, W2, C2, T2.
    rewrite write_at_ok in E1 by (destruct W; simpl in *; lia).
    cbn [app length] in E1. rewrite Nat.add_0_r, take_drop in E1.
    injection E1 as <-. rewrite E2. simpl. eexists; split_and!; eauto.
    left. split_and!; auto. by rewrite C2, Cn.
  - destruct (O eq_refl) as [_ Hr]. rewrite <- L in Hr.
    rewrite bool_decide_eq_false_2
      by (destruct W as (Hc & _ & Hl & _); intros Hn; rewrite Hn in Hc; simpl in Hc; lia).
    destruct (store_ok b1 s W Hr) as (d1 & d2 & E1 & E2 & W2 & C2 & T2).
    rewrite E1; cbn [mbind option_bind]; rewrite E2; simpl.
    eexists; split_and!; eauto. left. split_and!; auto. by rewrite C2, Cn.
Qed.
(** Clearing and consuming drop a prefix of the contents, in place. *)
Lemma buf_clear_spec b :
  buf_wf b -> exists b', buf_clear b = Some b' /\ buf_wf b' /\ contents b' = [] /\
    terminated b' /\ oom b' = oom b.
Proof.
  intros (Hc & Hm & Hl & Hlc). unfold buf_clear. case_bool_decide as Hd.
  - eexists; split_and!; eauto; [unfold buf_wf; simpl|by left].
    rewrite Hd in Hc. simpl in Hc. split_and!; auto; [by rewrite Hd|lia|case_if; lia].
  - assert (0 < cap b) by (destruct (data b); simpl in *; [done|lia]).
    rewrite write_at_ok by (simpl; lia). simpl. eexists; split_and!; eauto.
    + unfold buf_wf; simpl. autorewrite with tny. case_if; lia.
    + by right.
Qed.

Lemma buf_consume_contract b n :
  buf_wf b -> 0 <= n ->
  exists b', buf_consume b n = Some b' /\ buf_wf b' /\
    contents b' = drop (Z.to_nat n) (contents b) /\ terminated b' /\ oom b' = oom b.
Proof.
  intros Hwf Hn. pose proof Hwf as (Hc & Hm & Hl & Hlc).
  unfold buf_consume. case_if.
  { destruct (buf_clear_spec b Hwf) as (b' & E & W & Cn & T & O).
    eexists; split_and!; eauto. rewrite Cn. unfold contents.
    rewrite drop_ge; [done|]. autorewrite with tny. lia. }
  set (rest := take _ (drop _ _)).
  assert (Hr : Z.of_nat (length rest) = len b - n).
  { subst rest. autorewrite with tny. case_if; lia. }
  rewrite write_at_ok by (case_if; lia). cbn [mbind option_bind].
  rewrite write_at_ok by (repeat (autorewrite with tny; simpl); case_if; lia).
  cbn [mbind option_bind]. eexists; split_and!; eauto.
  - unfold buf_wf; simpl. repeat (autorewrite with tny; simpl). case_if; lia.
  - unfold contents; simpl.
    rewrite take_app_le, take_take, Nat.min_id
      by (repeat (autorewrite with tny; simpl); case_if; lia).
    rewrite take_app_le, take_ge by lia.
    subst rest. rewrite skipn_firstn_comm. do 2 f_equal. lia.
  - right. simpl. rewrite app_nth2 by (repeat (autorewrite with tny; simpl); case_if; lia).
    repeat (autorewrite with tny; simpl).
    replace (_ - _)%nat with 0%nat; [done|]. case_if; lia.
Qed.

(** Formatting appends what [vsnprintf] produced and its terminator. *)
Lemma buf_appendf_spec b s :
  buf_wf b ->
  exists b', buf_appendf b (Some s) = Some b' /\ buf_wf b' /\
    ((oom b' = false /\ contents b' = contents b ++ s) \/
     (oom b' = true /\ contents b' = contents b)).
Proof.
  intros Hwf. unfold buf_appendf.
  destruct (buf_reserve_spec b (Z.of_nat (length s))) as (b1 & E & W & Cn & L & O);
    [done | lia |].
  rewrite E. cbn [mbind option_bind]. destruct (oom b1) eqn:Ho1.
  { eexists; split_and!; eauto. }
  destruct (O eq_refl) as [_ Hr]. rewrite <- L in Hr.
  destruct W as (Hc & Hm & Hl & Hlc).
  rewrite write_at_ok by (repeat (autorewrite with tny; simpl); lia).
  cbn [mbind option_bind]. eexists; split_and!; eauto.
  - unfold buf_wf; simpl. repeat (autorewrite with tny; simpl). case_if; lia.
  - left. split; [done|]. rewrite <- Cn. unfold contents; simpl.
    rewrite <- (app_assoc s), app_assoc, take_app_le by (autorewrite with tny; lia).
    apply take_ge. autorewrite with tny. lia.
Qed.

End Contract.

(** ** A concrete allocator

    Always succeeds and fills new bytes with 0xAA, so that nothing can rely
    on fresh memory being zero. *)
#[export] Instance pattern_alloc : Allocator :=
  { realloc d n := Some (take (Z.to_nat n) d ++ replicate (Z.to_nat n - length d) 170) }.

#[export] Instance pattern_alloc_laws : AllocatorLaws pattern_alloc.
Proof.
  constructor; simpl; intros d n d' Hn [= <-].
  - autorewrite with tny. rewrite length_replicate. lia.
  - rewrite take_ge by lia. eauto.
Qed.

(** ** Properties *)

(** [buf_append] never touches memory outside the allocation and never
    loops; it keeps the buffer well-formed, and either appends exactly the
    given bytes behind the old contents and terminates them with a NUL, or
    raises the sticky out-of-memory flag and leaves the contents alone. *)
Theorem buf_append_refines_app `{AllocatorLaws} b s (Hwf : buf_wf b) :
  exists b', buf_append b s = Some b' /\ buf_wf b' /\
    ((oom b' = false /\ oom b = false /\ contents b' = contents b ++ s /\ terminated b') \/
     (oom b' = true /\ contents b' = contents b)).
Proof. by apply buf_append_contract. Qed.

Example buf_append_refines_app_witness :
  exists b1 b2, buf_append buf_init B"abc" = Some b1 /\ buf_append b1 B"de" = Some b2 /\
    contents b2 = B"abcde".
Proof.
  destruct (buf_append_refines_app buf_init B"abc" ltac:(unfold buf_wf, SIZE_MAX; simpl; lia))
    as (b1 & E1 & W1 & _).
  exists b1. vm_compute in E1. injection E1 as <-. eexists. by vm_compute.
Defined.

(** [buf_consume] drops exactly the first [n] bytes (all of them when
    there are fewer), in place, keeping the terminator and the flag. *)
Theorem buf_consume_drops `{AllocatorLaws} b n (Hwf : buf_wf b) (Hn : 0 <= n) :
  exists b', buf_consume b n = Some b' /\ buf_wf b' /\
    contents b' = drop (Z.to_nat n) (contents b) /\ terminated b' /\ oom b' = oom b.
Proof. by apply buf_consume_contract. Qed.

Example buf_consume_drops_witness :
  exists b', buf_consume (mk_buf (B"hello" ++ [0; 170]) 5 7 false) 2 = Some b' /\
    contents b' = B"llo".
Proof.
  destruct (buf_consume_drops (mk_buf (B"hello" ++ [0; 170]) 5 7 false) 2
    ltac:(unfold buf_wf, SIZE_MAX; simpl; lia) ltac:(lia)) as (b' & E & _ & Cn & _).
  by exists b'.
Defined.
