(* ===== verification/Text.v ===== *)
(** String, UTF-8, wildcard and path functions of src/src/util/util.c. *)
From S2P Require Import Prelude Bits.

Open Scope Z_scope.

(** ** Prefixes, suffixes, white space *)

Definition str_starts (s prefix : bytes) : bool := has_prefix prefix s.

Definition str_ends (s suffix : bytes) : bool :=
  (length suffix <=? length s)%nat &&
  str_eq (drop (length s - length suffix) s) suffix.

(** [isspace] bytes skipped at the front; the tail is then cut where only
    [isspace] bytes follow. *)
Fixpoint skip_space (s : bytes) : bytes :=
  match s with
  | c :: r => if is_space c then skip_space r else s
  | [] => []
  end.

Definition str_trim (s : bytes) : bytes :=
  rev (skip_space (rev (skip_space s))).

Fixpoint str_ws_prefix (s : bytes) : nat :=
  match s with
  | c :: r =>
    if negb (c =? C" ") && negb (c =? TAB) && negb (c =? LF) && negb (c =? VT) &&
       negb (c =? FF) && negb (c =? CR)
    then O else S (str_ws_prefix r)
  | [] => O
  end.

(** ** UTF-8 *)

(** The lead byte: continuation bytes needed, least code point of that
    length, payload bits. *)
Definition utf8_lead (c : Z) : option (nat * Z * Z) :=
  if Z.land c 0xe0 =? 0xc0 then Some (1%nat, 0x80, Z.land c 0x1f)
  else if Z.land c 0xf0 =? 0xe0 then Some (2%nat, 0x800, Z.land c 0x0f)
  else if Z.land c 0xf8 =? 0xf0 then Some (3%nat, 0x10000, Z.land c 0x07)
  else None.

(** The continuation loop: [need] bytes of the form 10xxxxxx. *)
Fixpoint utf8_cont (need : nat) (c : Z) (s : bytes) : option (Z * bytes) :=
  match need, s with
  | O, _ => Some (c, s)
  | S need, d :: r =>
    if negb (Z.land d 0xc0 =? 0x80) then None
    else utf8_cont need (Z.lor (Z.shiftl c 6) (Z.land d 0x3f)) r
  | S _, [] => None
  end.

(** One round of the outer loop: the rest after one valid character. *)
Definition utf8_next (s : bytes) : option bytes :=
  match s with
  | [] => None
  | c :: r =>
    if c =? 0 then None
    else if c <? 0x80 then Some r
    else
      '(need, mn, c) ← utf8_lead c;
      if (length r <? need)%nat then None
      else
        '(c, r) ← utf8_cont need c r;
        if (c <? mn) || (0x10ffff <? c) || ((0xd800 <=? c) && (c <=? 0xdfff))
        then None else Some r
  end.

Fixpoint utf8_scan (fuel : nat) (s : bytes) : bool :=
  match s, fuel with
  | [], _ => true
  | _ :: _, O => false
  | _ :: _, S fuel =>
    match utf8_next s with Some r => utf8_scan fuel r | None => false end
  end.

(** [None] is the NULL pointer, valid only with length 0. *)
Definition utf8_valid_bytes (data : option bytes) (len : nat) : bool :=
  match data with
  | None => (len =? 0)%nat
  | Some d => utf8_scan len (take len d)
  end.

(** ** Wildcards *)

(** The backtracking loop: [star] holds the pattern after the last '*' and
    the text position it is being tried from. The result is [None] only when
    the fuel runs out. *)
Fixpoint glob_loop (fuel : nat) (p s : bytes) (star : option (bytes * bytes)) : option bool :=
  match fuel with
  | O => None
  | S fuel =>
    match s with
    | [] => Some (forallb (Z.eqb C"*") p)
    | c :: s' =>
      if cur p =? C"*" then glob_loop fuel (tl p) s (Some (tl p, s))
      else if (cur p =? C"?") || (cur p =? c) then glob_loop fuel (tl p) s' star
      else match star with
           | Some (sp, ss) => glob_loop fuel sp (tl ss) (Some (sp, tl ss))
           | None => Some false
           end
    end
  end.

Definition glob_fuel (p s : bytes) : nat :=
  S ((length p + 2) * (length s + 2) * (length s + 2)).

Definition glob_match (p s : bytes) : bool :=
  default false (glob_loop (glob_fuel p s) p s None).

(** ** Paths *)

Definition path_join (a b : bytes) : bytes :=
  a ++ (if (0 <? length a)%nat && negb (List.last a NUL =? C"/") then B"/" else [])
    ++ (if cur b =? C"/" then tl b else b).

(** The loop that drops trailing slashes, never the first byte. *)
Fixpoint strip_slashes (fuel : nat) (root : bytes) : bytes :=
  match fuel with
  | O => root
  | S fuel =>
    if (1 <? length root)%nat && (List.last root NUL =? C"/")
    then strip_slashes fuel (removelast root) else root
  end.

Definition path_is_within (root p : bytes) : bool :=
  let root := strip_slashes (length root) root in
  if negb (has_prefix root p) then false
  else
    let next := char_at p (length root) in
    (next =? NUL) || (next =? C"/").

(** ** Specifications *)

(** Unicode scalar values other than NUL, which C text cannot carry. *)
Definition scalar (cp : Z) : Prop :=
  1 <= cp <= 0x10ffff /\ ~ (0xd800 <= cp <= 0xdfff).

(** RFC 3629 encoding of one scalar value. *)
Definition utf8_encode (cp : Z) : bytes :=
  if cp <? 0x80 then [cp]
  else if cp <? 0x800 then [0xc0 + cp / 64; 0x80 + cp mod 64]
  else if cp <? 0x10000 then
    [0xe0 + cp / 4096; 0x80 + cp / 64 mod 64; 0x80 + cp mod 64]
  else
    [0xf0 + cp / 262144; 0x80 + cp / 4096 mod 64; 0x80 + cp / 64 mod 64;
     0x80 + cp mod 64].

(** Matching of '*' (any run) and '?' (one byte), by the book. *)
Fixpoint wild (p s : bytes) : Prop :=
  match p with
  | [] => s = []
  | a :: p' =>
    if a =? C"*" then exists k, (k <= length s)%nat /\ wild p' (drop k s)
    else match s with
         | [] => False
         | c :: s' => (a = C"?" \/ a = c) /\ wild p' s'
         end
  end.

(** ** UTF-8 lemmas *)

Lemma cont_byte d :
  is_byte d -> (Z.land d 0xc0 =? 0x80) = ((0x80 <=? d) && (d <=? 0xbf)).
Proof. intros H. apply eqb_prop. revert d H. by_all_bytes. Qed.

Lemma lead_byte c :
  is_byte c -> 0x80 <= c ->
  utf8_lead c =
    if c <? 0xc0 then None
    else if c <? 0xe0 then Some (1%nat, 0x80, c - 0xc0)
    else if c <? 0xf0 then Some (2%nat, 0x800, c - 0xe0)
    else if c <? 0xf8 then Some (3%nat, 0x10000, c - 0xf0) else None.
Proof.
  intros H Hc.
  enough ((c <? 0x80) || bool_decide (utf8_lead c =
    if c <? 0xc0 then None
    else if c <? 0xe0 then Some (1%nat, 0x80, c - 0xc0)
    else if c <? 0xf0 then Some (2%nat, 0x800, c - 0xe0)
    else if c <? 0xf8 then Some (3%nat, 0x10000, c - 0xf0) else None) = true) as E.
  { apply orb_true_iff in E as [E|E]; [lia|by apply bool_decide_eq_true in E]. }
  clear Hc. revert c H. by_all_bytes.
Qed.

(** A continuation byte adds its six low bits. *)
Lemma utf8_cont_step c d :
  0x80 <= d <= 0xbf -> Z.lor (Z.shiftl c 6) (Z.land d 0x3f) = c * 64 + (d - 0x80).
Proof. intros H. rewrite land_63, lor_shiftl_add by lia. lia. Qed.

Definition cont (d : Z) : Prop := 0x80 <= d <= 0xbf.

Lemma utf8_cont_app ds c r :
  Forall cont ds ->
  utf8_cont (length ds) c (ds ++ r) =
    Some (fold_left (fun c d => c * 64 + (d - 0x80)) ds c, r).
Proof.
  intros H. revert c. induction H as [|d ds Hd H IH]; intros c; [done|].
  unfold cont in Hd. cbn [length app utf8_cont fold_left].
  rewrite cont_byte by (unfold is_byte; lia).
  case_if; [|lia]. rewrite utf8_cont_step by lia. apply IH.
Qed.

Lemma utf8_cont_inv need c s c' r :
  Forall is_byte s -> utf8_cont need c s = Some (c', r) ->
  exists ds, length ds = need /\ Forall cont ds /\ s = ds ++ r /\
    c' = fold_left (fun c d => c * 64 + (d - 0x80)) ds c.
Proof.
  revert c s. induction need as [|need IH]; intros c s Hs.
  - simpl. intros [= <- <-]. exists []. auto.
  - destruct s as [|d s]; [done|]. inv Hs. cbn [utf8_cont].
    rewrite cont_byte by done. case_if; [|done].
    rewrite utf8_cont_step by lia. intros E. apply IH in E; [|done].
    destruct E as (ds & <- & Hd & -> & ->). exists (d :: ds).
    split_and!; auto. constructor; [unfold cont; lia|done].
Qed.

(** The character a valid round reads is one scalar value, encoded. *)
Lemma utf8_next_sound s r :
  Forall is_byte s -> utf8_next s = Some r ->
  exists cp, scalar cp /\ s = utf8_encode cp ++ r.
Proof.
  intros Hs. destruct s as [|c s]; [done|]. inv Hs. simpl.
  case_if; [done|]. case_if.
  { intros [= <-]. exists c. unfold is_byte in *.
    split; [unfold scalar; lia|]. unfold utf8_encode. case_if; [done|lia]. }
  rewrite lead_byte by (unfold is_byte in *; lia).
  repeat case_if; try done; cbn [mbind option_bind];
    match goal with |- context [utf8_cont ?n ?b s] =>
      destruct (utf8_cont n b s) as [[cp r']|] eqn:E; cbn [mbind option_bind] end;
    repeat case_if; try done; intros [= <-];
    apply utf8_cont_inv in E as (ds & Hl & Hd & -> & Hcp); try done;
    (exists cp; split; [unfold scalar; lia|]).
  all: repeat (destruct ds as [|? ds]; try done); simpl in Hcp;
    repeat match goal with H : Forall cont (_ :: _) |- _ => inv H end;
    unfold cont in *; unfold utf8_encode; repeat case_if; try lia; simpl;
    repeat f_equal; lia.
Qed.

Lemma utf8_next_lead c ds r need mn v cp :
  is_byte c -> 0x80 <= c -> utf8_lead c = Some (need, mn, v) ->
  length ds = need -> Forall cont ds ->
  cp = fold_left (fun c d => c * 64 + (d - 0x80)) ds v ->
  mn <= cp -> scalar cp -> utf8_next (c :: ds ++ r) = Some r.
Proof.
  intros Hc H80 Hl <- Hd -> Hm [Hs1 Hs2]. simpl.
  case_if; [lia|]. case_if; [lia|]. rewrite Hl. cbn [mbind option_bind].
  case_if; [apply Nat.ltb_lt in Heqb1; autorewrite with tny in Heqb1; lia|].
  rewrite utf8_cont_app by done. cbn [mbind option_bind].
  case_if; [lia|done].
Qed.

Lemma utf8_next_complete cp r :
  scalar cp -> utf8_next (utf8_encode cp ++ r) = Some r.
Proof.
  intros Hs. pose proof Hs as [H1 H2]. unfold utf8_encode.
  case_if; [simpl; repeat case_if; lia || done|].
  repeat case_if;
    (eapply (utf8_next_lead _ _ r); cycle 2;
     [rewrite lead_byte by (unfold is_byte; lia); repeat case_if; try lia; reflexivity
     |reflexivity
     |repeat constructor; unfold cont; lia
     |reflexivity
     |simpl; lia
     |simpl
     |unfold is_byte; lia
     |lia]).
  all: match goal with |- scalar ?x => replace x with cp by lia; exact Hs end.
Qed.

Lemma utf8_encode_nonempty cp : utf8_encode cp <> [].
Proof. unfold utf8_encode. repeat case_if; done. Qed.

Lemma utf8_scan_sound fuel s :
  Forall is_byte s -> utf8_scan fuel s = true ->
  exists cps, Forall scalar cps /\ s = concat (map utf8_encode cps).
Proof.
  revert s. induction fuel as [|fuel IH]; intros s Hs.
  - destruct s; [|done]. intros _. by exists [].
  - destruct s as [|c s]; [intros _; by exists []|]. cbn [utf8_scan].
    destruct (utf8_next (c :: s)) as [r|] eqn:E; [|done]. intros Hr.
    destruct (utf8_next_sound _ _ Hs E) as (cp & Hcp & Eq).
    rewrite Eq in Hs. apply Forall_app in Hs as [_ Hs].
    destruct (IH r Hs Hr) as (cps & Hcps & ->).
    exists (cp :: cps). by split; [constructor|].
Qed.

Lemma utf8_scan_complete cps fuel :
  Forall scalar cps -> (length (concat (map utf8_encode cps)) <= fuel)%nat ->
  utf8_scan fuel (concat (map utf8_encode cps)) = true.
Proof.
  intros H. revert fuel. induction H as [|cp cps Hcp H IH]; intros fuel Hf; [by destruct fuel|].
  cbn [map concat] in *. pose proof (utf8_encode_nonempty cp).
  pose proof (utf8_next_complete cp (concat (map utf8_encode cps)) Hcp) as E.
  destruct (utf8_encode cp) as [|c e]; [done|]. cbn [app] in *.
  destruct fuel as [|fuel]; simpl in Hf; [lia|]. cbn [utf8_scan]. rewrite E.
  apply IH. autorewrite with tny in Hf. lia.
Qed.

(** ** Wildcard lemmas *)

(** A run of pattern bytes without '*' against as many text bytes. *)
Definition lit_match : bytes -> bytes -> Prop :=
  Forall2 (fun a c => a <> C"*" /\ (a = C"?" \/ a = c)).

Lemma lit_match_length mid seg : lit_match mid seg -> length mid = length seg.
Proof. induction 1; simpl; lia. Qed.

Lemma wild_star p s :
  wild (C"*" :: p) s <-> exists k, (k <= length s)%nat /\ wild p (drop k s).
Proof. done. Qed.

Lemma wild_lit a p c s :
  a <> C"*" -> wild (a :: p) (c :: s) <-> (a = C"?" \/ a = c) /\ wild p s.
Proof. intros Ha. cbn [wild]. case_if; [lia|done]. Qed.

Lemma wild_star_drop p s k : wild (C"*" :: p) (drop k s) -> wild (C"*" :: p) s.
Proof.
  rewrite !wild_star. intros (j & Hj & H). rewrite drop_drop in H.
  autorewrite with tny in Hj. destruct (decide (k <= length s)%nat).
  - exists (k + j)%nat. split; [lia|done].
  - rewrite drop_ge in H by lia. exists (length s). split; [done|].
    by rewrite drop_ge.
Qed.

Lemma wild_star_unfold p s :
  wild (C"*" :: p) s <-> wild p s \/ wild (C"*" :: p) (tl s).
Proof.
  split.
  - rewrite wild_star. intros ([|k] & Hk & H); [by left|]. right.
    destruct s as [|c s]; simpl in Hk; [lia|]. apply wild_star. exists k. split; [simpl; lia|done].
  - intros [H|H].
    + apply wild_star. exists 0%nat. split; [lia|done].
    + apply (wild_star_drop p s 1). by destruct s.
Qed.

(** A '*'-free head consumes exactly its own length. *)
Lemma wild_lit_split mid seg p t :
  lit_match mid seg -> wild (mid ++ p) t ->
  (length mid <= length t)%nat /\ wild p (drop (length mid) t).
Proof.
  intros H. revert t. induction H as [|a c mid seg [Ha _] H IH]; intros t Ht; [by split; [simpl; lia|]|].
  cbn [app] in Ht. destruct t as [|d t].
  - cbn [wild] in Ht. by destruct (Z.eqb_spec a C"*").
  - apply wild_lit in Ht as [_ Ht]; [|done]. apply IH in Ht as [? ?].
    simpl. split; [lia|done].
Qed.

(** Why retrying only the last '*' is enough: had an earlier choice led to a
    match, the current '*' would absorb the difference. *)
Lemma wild_greedy mid seg p s :
  lit_match mid seg ->
  wild (C"*" :: mid ++ C"*" :: p) (tl (seg ++ s)) -> wild (C"*" :: p) s.
Proof.
  intros Hm (k & _ & H)%wild_star. apply wild_lit_split with (seg := seg) in H as [_ H]; [|done].
  apply lit_match_length in Hm. rewrite drop_drop, Hm in H.
  replace (drop (k + length seg) (tl (seg ++ s))) with (drop (S k) s) in H.
  - by apply wild_star_drop in H.
  - rewrite <- (drop_app_exact seg s) at 1. rewrite drop_drop.
    destruct (seg ++ s) as [|x l]; simpl; [by rewrite !drop_nil|].
    replace (length seg + S k)%nat with (S (k + length seg)) by lia. done.
Qed.

Lemma wild_nil p : wild p [] <-> forallb (Z.eqb C"*") p = true.
Proof.
  induction p as [|a p IH]; [done|]. cbn [wild forallb].
  rewrite andb_true_iff, Z.eqb_eq, <- IH. case_if.
  - split; [intros ([|k] & Hk & H); simpl in *; [split; [lia|done]|lia]|].
    intros [_ H]. exists 0%nat. split; [lia|done].
  - split; [done|lia].
Qed.

(** What the loop still has to decide, and the invariant on the position it
    is in: since the last '*' the pattern matched literally. *)
Definition glob_goal (p s : bytes) (star : option (bytes * bytes)) : Prop :=
  wild p s \/ match star with
              | Some (sp, ss) => wild (C"*" :: sp) (tl ss)
              | None => False
              end.

Definition glob_inv (p s : bytes) (star : option (bytes * bytes)) : Prop :=
  match star with
  | None => True
  | Some (sp, ss) => exists mid seg, sp = mid ++ p /\ ss = seg ++ s /\ lit_match mid seg
  end.

(** Decreases in every round, with [n] a bound on the text still in play. *)
Definition glob_measure (n : nat) (p s : bytes) (star : option (bytes * bytes)) : nat :=
  match star with
  | None => length p * (S n * S n) + n * S n + n
  | Some (sp, ss) => length sp * (S n * S n) + length ss * S n + length s
  end.

Definition glob_bound (n : nat) (s : bytes) (star : option (bytes * bytes)) : Prop :=
  (length s <= n)%nat /\ match star with Some (_, ss) => (length ss <= n)%nat | None => True end.

Lemma glob_end p star :
  glob_inv p [] star ->
  forallb (Z.eqb C"*") p = true <-> glob_goal p [] star.
Proof.
  unfold glob_goal. rewrite <- wild_nil. destruct star as [[sp ss]|]; [|tauto].
  intros (mid & seg & -> & -> & Hm). split; [tauto|]. intros [H|H]; [done|].
  apply wild_star in H as (k & _ & H). pose proof (lit_match_length _ _ Hm) as Hl.
  apply wild_lit_split with (seg := seg) in H as [Hk H]; [|done].
  rewrite app_nil_r in *. destruct seg as [|c seg].
  - by destruct mid; [simpl in H; rewrite drop_nil in H|].
  - autorewrite with tny in Hk. simpl in *. lia.
Qed.

(** The three kinds of round. Each keeps the invariant and the bound, lowers
    the measure and leaves the question unchanged. *)
Definition glob_advance n p s star p' s' star' : Prop :=
  glob_inv p' s' star' /\ glob_bound n s' star' /\
  (glob_measure n p' s' star' < glob_measure n p s star)%nat /\
  (glob_goal p' s' star' <-> glob_goal p s star).

Lemma glob_round_star n p s star :
  glob_inv (C"*" :: p) s star -> glob_bound n s star ->
  glob_advance n (C"*" :: p) s star p s (Some (p, s)).
Proof.
  intros Hi [Hb1 Hb2]. split_and!.
  - exists [], []. split_and!; auto; constructor.
  - by split.
  - destruct star as [[sp ss]|]; unfold glob_measure; simpl length; [|nia].
    destruct Hi as (mid & seg & -> & -> & _). autorewrite with tny in *. simpl. nia.
  - unfold glob_goal at 1. rewrite <- wild_star_unfold. unfold glob_goal.
    split; [by left|]. intros [H|H]; [done|].
    destruct star as [[sp ss]|]; [|done]. destruct Hi as (mid & seg & -> & -> & Hm).
    by eapply wild_greedy.
Qed.

Lemma glob_round_lit n a p c s star :
  a <> C"*" -> (a = C"?" \/ a = c) ->
  glob_inv (a :: p) (c :: s) star -> glob_bound n (c :: s) star ->
  glob_advance n (a :: p) (c :: s) star p s star.
Proof.
  intros Ha Hac Hi [Hb1 Hb2]. simpl in Hb1. split_and!.
  - destruct star as [[sp ss]|]; [|done]. destruct Hi as (mid & seg & -> & -> & Hl).
    exists (mid ++ [a]), (seg ++ [c]). rewrite <- !app_assoc. split_and!; auto.
    apply Forall2_app; [done|]. by constructor; [|constructor].
  - split; [lia|done].
  - destruct star as [[sp ss]|]; unfold glob_measure; simpl length; nia.
  - unfold glob_goal. rewrite wild_lit by done. tauto.
Qed.

Lemma glob_round_back n p c s sp ss :
  ~ wild p (c :: s) -> glob_inv p (c :: s) (Some (sp, ss)) ->
  glob_bound n (c :: s) (Some (sp, ss)) ->
  glob_advance n p (c :: s) (Some (sp, ss)) sp (tl ss) (Some (sp, tl ss)).
Proof.
  intros Hno Hi [Hb1 Hb2]. pose proof Hi as (mid & seg & _ & Hss & _).
  assert (S (length (tl ss)) = length ss)
    by (destruct ss; [by destruct seg|done]).
  split_and!.
  - exists [], []. split_and!; auto; constructor.
  - split; lia.
  - unfold glob_measure. nia.
  - unfold glob_goal. rewrite (wild_star_unfold sp (tl ss)). tauto.
Qed.

Lemma glob_loop_correct fuel n p s star :
  cstring s -> (forall sp ss, star = Some (sp, ss) -> cstring ss) ->
  glob_inv p s star -> glob_bound n s star ->
  (glob_measure n p s star < fuel)%nat ->
  exists b, glob_loop fuel p s star = Some b /\ (b = true <-> glob_goal p s star).
Proof.
  revert p s star. induction fuel as [|fuel IH]; intros p s star Hs Hss Hi Hb Hf; [lia|].
  assert (Hgo : forall p' s' star', cstring s' ->
    (forall sp ss, star' = Some (sp, ss) -> cstring ss) ->
    glob_advance n p s star p' s' star' ->
    exists b, glob_loop fuel p' s' star' = Some b /\ (b = true <-> glob_goal p s star)).
  { intros p' s' star' H1 H2 (H3 & H4 & H5 & H6).
    destruct (IH p' s' star') as (b & E & Hiff); auto; [lia|].
    exists b. by rewrite Hiff. }
  cbn [glob_loop]. destruct s as [|c s]; [eexists; split; [done|by apply glob_end]|].
  destruct (Z.eqb_spec (cur p) C"*") as [Hst|Hst].
  { destruct p as [|a p]; [done|]. simpl in Hst. subst a.
    apply Hgo; [done|by intros ? ? [= <- <-]|by apply glob_round_star]. }
  destruct ((cur p =? C"?") || (cur p =? c)) eqn:Hm.
  { inv Hs. unfold cur in *. destruct p as [|a p]; cbn [hd] in *; [lia|].
    apply Hgo; [done|done|apply glob_round_lit; auto; lia]. }
  assert (Hno : ~ wild p (c :: s)).
  { unfold cur in *. destruct p as [|a p]; cbn [hd] in *; [done|].
    rewrite wild_lit by done. lia. }
  destruct star as [[sp ss]|]; [|eexists; split; [done|]; unfold glob_goal; intuition done].
  assert (cstring (tl ss)) by (specialize (Hss _ _ eq_refl); destruct ss; [done|by inv Hss]).
  apply Hgo; [done|by intros ? ? [= <- <-]|by apply glob_round_back].
Qed.

Lemma glob_fuel_enough p s :
  (glob_measure (length s) p s None < glob_fuel p s)%nat.
Proof. unfold glob_measure, glob_fuel. nia. Qed.

(** ** Path lemmas *)

Lemma strip_slashes_prefix fuel root :
  exists k, root = strip_slashes fuel root ++ replicate k C"/".
Proof.
  revert root. induction fuel as [|fuel IH]; intros root; cbn [strip_slashes].
  { exists 0%nat. by rewrite app_nil_r. }
  case_if; [|exists 0%nat; by rewrite app_nil_r].
  boolify. destruct (IH (removelast root)) as [k Hk].
  exists (S k). rewrite replicate_S_end, app_assoc, <- Hk.
  assert (root <> []) by (by intros ->).
  rewrite (app_removelast_last NUL) at 1 by done. by f_equal; f_equal; apply Z.eqb_eq.
Qed.

(** The loop runs until nothing is left to strip. *)
Lemma strip_slashes_done fuel root :
  (length root <= fuel)%nat ->
  let r := strip_slashes fuel root in
  (length r <= 1)%nat \/ List.last r NUL <> C"/".
Proof.
  revert root. induction fuel as [|fuel IH]; intros root Hl; cbn [strip_slashes].
  { left. lia. }
  case_if.
  - apply IH. boolify. apply Nat.ltb_lt in H.
    assert (root <> []) by (by intros ->).
    pose proof (f_equal length (app_removelast_last NUL H1)) as E.
    autorewrite with tny in E. simpl in E. lia.
  - apply andb_false_iff in Heqb as [H|H]; [left; apply Nat.ltb_ge in H; lia|right; lia].
Qed.

(** ** Properties *)

(** [utf8_valid_bytes] accepts a byte sequence exactly when it is the
    UTF-8 encoding of some sequence of Unicode scalar values other than NUL:
    no overlong forms, surrogates, truncated or stray continuation bytes. *)
Theorem utf8_valid_iff (s : bytes) (Hs : Forall is_byte s) :
  utf8_valid_bytes (Some s) (length s) = true <->
  exists cps, Forall scalar cps /\ s = concat (map utf8_encode cps).
Proof.
  unfold utf8_valid_bytes. rewrite firstn_all. split.
  - by apply utf8_scan_sound.
  - intros (cps & Hcps & ->). by apply utf8_scan_complete.
Qed.

Example utf8_valid_iff_witness :
  exists cps, Forall scalar cps /\ [0xe2; 0x82; 0xac; 0x41] = concat (map utf8_encode cps).
Proof.
  apply (utf8_valid_iff [0xe2; 0x82; 0xac; 0x41]);
    [repeat constructor; unfold is_byte; lia | by vm_compute].
Defined.

(** [glob_match] terminates and agrees with the textbook meaning of '*'
    and '?': retrying only the most recent '*' loses no match. *)
Theorem glob_match_correct (p s : bytes) (Hs : cstring s) :
  is_Some (glob_loop (glob_fuel p s) p s None) /\ (glob_match p s = true <-> wild p s).
Proof.
  destruct (glob_loop_correct (glob_fuel p s) (length s) p s None) as (b & E & H);
    [done | done | done | split; [done|done] | apply glob_fuel_enough |].
  unfold glob_match. rewrite E. split; [eauto|]. unfold glob_goal in H.
  simpl. tauto.
Qed.

Example glob_match_correct_witness :
  wild B"git *us*t" B"git status --short t" /\ ~ wild B"git ?" B"git".
Proof.
  split.
  - apply (glob_match_correct B"git *us*t" B"git status --short t");
      [repeat constructor; lia | by vm_compute].
  - intros H. apply (glob_match_correct B"git ?" B"git") in H;
      [by vm_compute in H | repeat constructor; lia].
Defined.

(** Containment of a path, for the permission rules. *)
Lemma path_within_spec (root p : bytes) (Hp : cstring p) :
  let r := strip_slashes (length root) root in
  (exists k, root = r ++ replicate k C"/") /\
  ((length r <= 1)%nat \/ List.last r NUL <> C"/") /\
  (path_is_within root p = true <-> p = r \/ exists t, p = r ++ C"/" :: t).
Proof.
  set (r := strip_slashes (length root) root). simpl.
  split; [apply strip_slashes_prefix|]. split; [by apply strip_slashes_done|].
  unfold path_is_within. fold r. split.
  - case_if; [|done]. apply has_prefix_true in Heqb as [t ->].
    unfold char_at. rewrite app_nth2, Nat.sub_diag by lia. intros H.
    apply Forall_app in Hp as [_ Ht].
    destruct t as [|c t]; [left; by rewrite app_nil_r|]. inv Ht. simpl in H.
    right. exists t. do 2 f_equal. lia.
  - intros [->|[t ->]].
    + rewrite <- (app_nil_r r) at 2. rewrite has_prefix_app. simpl.
      unfold char_at. rewrite nth_overflow by done. done.
    + rewrite has_prefix_app. simpl. unfold char_at.
      by rewrite app_nth2, Nat.sub_diag by lia.
Qed.

(** [path_is_within root p] holds exactly for [root] itself, with its
    trailing slashes dropped down to one byte, and for that prefix followed by
    a slash: a sibling that merely shares the prefix is outside. *)
Theorem path_is_within_iff (root p : bytes) (Hp : cstring p) :
  let r := strip_slashes (length root) root in
  (exists k, root = r ++ replicate k C"/") /\
  ((length r <= 1)%nat \/ List.last r NUL <> C"/") /\
  (path_is_within root p = true <-> p = r \/ exists t, p = r ++ C"/" :: t).
Proof. exact (path_within_spec root p Hp). Qed.

Example path_is_within_iff_witness :
  path_is_within B"/home/u//" B"/home/u/x" = true /\
  path_is_within B"/home/u" B"/home/user" = false.
Proof.
  split.
  - apply (path_is_within_iff B"/home/u//" B"/home/u/x" ltac:(repeat constructor; lia)).
    right. exists B"x". by vm_compute.
  - destruct (path_is_within B"/home/u" B"/home/user") eqn:E; [|done].
    apply (path_is_within_iff B"/home/u" B"/home/user" ltac:(repeat constructor; lia)) in E.
    destruct E as [E|[t E]]; vm_compute in E; discriminate E.
Defined.
