(* ===== verification/Shlex.v ===== *)
(** The shell-line classifier of src/src/core/shlex.c: one pass over a command
    line that decides whether it is a single simple command, and if so what
    its program, its subcommand and its dangerous options are. *)
From S2P Require Import Prelude.

Open Scope Z_scope.

Definition SHLEX_TOK_MAX : nat := 256.

Record shlex_cmd := mk_cmd {
  argv0 : bytes; verb : bytes;
  meta : bool; env_prefix : bool; unterminated : bool; truncated : bool;
  dangerous_opt : bool }.

(** [memset(out, 0, sizeof *out)] *)
Definition cmd0 : shlex_cmd := mk_cmd [] [] false false false false false.

Definition set_meta (o : shlex_cmd) :=
  mk_cmd (argv0 o) (verb o) true (env_prefix o) (unterminated o) (truncated o) (dangerous_opt o).
Definition set_env (o : shlex_cmd) :=
  mk_cmd (argv0 o) (verb o) (meta o) true (unterminated o) (truncated o) (dangerous_opt o).
Definition set_unterminated (o : shlex_cmd) :=
  mk_cmd (argv0 o) (verb o) (meta o) (env_prefix o) true (truncated o) (dangerous_opt o).
Definition set_truncated (o : shlex_cmd) :=
  mk_cmd (argv0 o) (verb o) (meta o) (env_prefix o) (unterminated o) true (dangerous_opt o).
Definition set_argv0 (w : bytes) (o : shlex_cmd) :=
  mk_cmd w (verb o) (meta o) (env_prefix o) (unterminated o) (truncated o) (dangerous_opt o).
Definition set_verb (w : bytes) (o : shlex_cmd) :=
  mk_cmd (argv0 o) w (meta o) (env_prefix o) (unterminated o) (truncated o) (dangerous_opt o).
Definition set_dangerous (o : shlex_cmd) :=
  mk_cmd (argv0 o) (verb o) (meta o) (env_prefix o) (unterminated o) (truncated o) true.

(** Characters that make the line more than one simple command. *)
Definition meta_char (ch : Z) (in_word : bool) : bool :=
  mem_byte ch B";&|()<>`$" || (ch =? LF) || (ch =? CR) ||
  negb in_word && ((ch =? C"#") || (ch =? C"{")).

(** [NAME=VALUE] *)
Definition name_start (c : Z) : bool := (c =? C"_") || is_upper c || is_lower c.

Fixpoint assignment_tail (q : bytes) : bool :=
  match q with
  | [] => false
  | c :: q =>
    if c =? C"=" then true
    else if (c =? C"_") || is_digit c || is_upper c || is_lower c
    then assignment_tail q else false
  end.

Definition is_assignment (w : bytes) : bool :=
  name_start (cur w) && assignment_tail (tl w).

(** [strstr(hay, needle) != NULL] *)
Fixpoint has_sub (needle hay : bytes) : bool :=
  has_prefix needle hay || match hay with [] => false | _ :: h => has_sub needle h end.

Fixpoint until_eq (q : bytes) : bytes :=
  match q with
  | [] => []
  | c :: q => if c =? C"=" then [] else c :: until_eq q
  end.

Definition bad_options : list bytes :=
  [B"-delete"; B"-ok"; B"-okdir"; B"-fprintf"; B"-fls"; B"-fprint"; B"-fprint0";
   B"--pre"; B"--pre-glob"; B"--hostname-bin"; B"--output"].

Definition dangerous_option (tok : bytes) : bool :=
  if negb (cur tok =? C"-") then false
  else
    let name := take (SHLEX_TOK_MAX - 1) (until_eq tok) in
    has_sub B"exec" name || str_in name bad_options.

Definition take_word (out : shlex_cmd) (tok : bytes) (index : nat) (over : bool) : shlex_cmd :=
  if over then set_truncated out
  else if (index =? 0)%nat then
    if is_assignment tok then set_env out else set_argv0 tok out
  else
    let out := if dangerous_option tok then set_dangerous out else out in
    if (cur (verb out) =? NUL) && negb (cur tok =? C"-") then set_verb tok out else out.

(** [if (tl + 1 < sizeof tok) tok[tl++] = c; else over = true;] *)
Definition push (t : bytes * bool) (c : Z) : bytes * bool :=
  let '(tok, over) := t in
  if (length tok + 1 <? SHLEX_TOK_MAX)%nat then (tok ++ [c], over) else (tok, true).

(** Inside single quotes: what follows the closing quote, [None] when there is
    none, and the token so far. *)
Fixpoint scan_single (s : bytes) (t : bytes * bool) : option bytes * (bytes * bool) :=
  match s with
  | [] => (None, t)
  | c :: s => if c =? C"'" then (Some s, t) else scan_single s (push t c)
  end.

Inductive dq_result := DqClosed (rest : bytes) | DqOpen | DqMeta.

Definition dq_escapable (c : Z) : bool :=
  (c =? DQUOTE) || (c =? BACKSLASH) || (c =? C"$") || (c =? C"`").

(** Inside double quotes; an expansion there is reported as [DqMeta]. *)
Fixpoint scan_double (s : bytes) (t : bytes * bool) : dq_result * (bytes * bool) :=
  match s with
  | [] => (DqOpen, t)
  | c :: s1 =>
    if c =? DQUOTE then (DqClosed s1, t)
    else if (c =? C"$") || (c =? C"`") then (DqMeta, t)
    else
      match s1 with
      | nx :: s2 =>
        if (c =? BACKSLASH) && dq_escapable nx then scan_double s2 (push t nx)
        else scan_double s1 (push t c)
      | [] => scan_double s1 (push t c)
      end
  end.

(** The main loop over [cmd + i]; every round consumes a byte, so the length
    of the line plus one is enough fuel ([shlex_loop_fuel]). *)
Fixpoint shlex_loop (fuel : nat) (p : bytes) (out : shlex_cmd)
    (tok : bytes) (in_tok over : bool) (index : nat) : shlex_cmd :=
  match fuel with
  | O => set_unterminated out
  | S fuel =>
    let ch := cur p in
    if (ch =? NUL) || (ch =? C" ") || (ch =? TAB) then
      let out := if in_tok then take_word out tok index over else out in
      let index := if in_tok then S index else index in
      let tok := if in_tok then [] else tok in
      let over := if in_tok then false else over in
      if in_tok && env_prefix out then out
      else if ch =? NUL then out
      else shlex_loop fuel (tl p) out tok false over index
    else if meta_char ch in_tok then set_meta out
    else if ch =? C"'" then
      match scan_single (tl p) (tok, over) with
      | (None, _) => set_unterminated out
      | (Some r, (tok, over)) => shlex_loop fuel r out tok true over index
      end
    else if ch =? DQUOTE then
      match scan_double (tl p) (tok, over) with
      | (DqMeta, _) => set_meta out
      | (DqOpen, _) => set_unterminated out
      | (DqClosed r, (tok, over)) => shlex_loop fuel r out tok true over index
      end
    else if ch =? BACKSLASH then
      if char_at p 1 =? NUL then set_unterminated out
      else if char_at p 1 =? LF then set_meta out
      else let '(tok, over) := push (tok, over) (char_at p 1) in
           shlex_loop fuel (drop 2 p) out tok true over index
    else
      let '(tok, over) := push (tok, over) ch in
      shlex_loop fuel (tl p) out tok true over index
  end.

Definition shlex_parse (cmd : option bytes) : shlex_cmd :=
  match cmd with
  | None => cmd0
  | Some cmd => shlex_loop (S (length cmd)) cmd cmd0 [] false false 0
  end.

Definition shlex_is_simple (c : shlex_cmd) : bool :=
  if meta c || env_prefix c || unterminated c || truncated c then false
  else negb (cur (argv0 c) =? NUL).

Definition bin_dirs : list bytes :=
  [B"/bin/"; B"/usr/bin/"; B"/usr/local/bin/"; B"/sbin/"; B"/usr/sbin/";
   B"/opt/homebrew/bin/"].

(** [strrchr(s, '/')] as the offset of the last slash. *)
Fixpoint last_slash (s : bytes) : option nat :=
  match s with
  | [] => None
  | c :: r =>
    match last_slash r with
    | Some i => Some (S i)
    | None => if c =? C"/" then Some O else None
    end
  end.

Definition shlex_program (c : shlex_cmd) : option bytes :=
  if cur (argv0 c) =? NUL then None
  else match last_slash (argv0 c) with
       | None => Some (argv0 c)
       | Some slash =>
         if existsb (fun d => has_prefix d (argv0 c) && (slash + 1 =? length d)%nat) bin_dirs
         then Some (drop (S slash) (argv0 c)) else None
       end.

(** ** Specification: the words of a simple command *)

Definition blank (c : Z) : Prop := c = C" " \/ c = TAB.

(** The quoting rules of POSIX (2.2 and 2.3), for a line that a shell splits
    into words and does nothing else with. *)
Module Posix.

(** Characters that end, chain, redirect or substitute when unquoted, and
    those that do so at the start of a word; a carriage return, an ordinary
    character of the shell's, is taken for a line end. *)
Definition active (c : Z) (in_word : bool) : Prop :=
  In c [C";"; C"&"; C"|"; C"("; C")"; C"<"; C">"; C"`"; C"$"; LF; CR] \/
  in_word = false /\ (c = C"#" \/ c = C"{").

(** [dq q v]: the text [q] between double quotes denotes [v]. A backslash
    quotes the characters that stay special there, joins lines, and is itself
    elsewhere. *)
Inductive dq : bytes -> bytes -> Prop :=
| dq_nil : dq [] []
| dq_esc c q v : In c [DQUOTE; BACKSLASH; C"$"; C"`"] -> dq q v ->
    dq (BACKSLASH :: c :: q) (c :: v)
| dq_join q v : dq q v -> dq (BACKSLASH :: LF :: q) v
| dq_bs c q v : ~ In c [DQUOTE; BACKSLASH; C"$"; C"`"; LF] -> dq (c :: q) v ->
    dq (BACKSLASH :: c :: q) (BACKSLASH :: v)
| dq_char c q v : ~ In c [DQUOTE; BACKSLASH; C"$"; C"`"] -> dq q v -> dq (c :: q) (c :: v).

(** [words cw s ws]: [s] splits into [ws], the first index being the word
    already begun, if any. *)
Inductive words : option bytes -> bytes -> list bytes -> Prop :=
| words_end : words None [] []
| words_last w : words (Some w) [] [w]
| words_blank c s ws : blank c -> words None s ws -> words None (c :: s) ws
| words_next w c s ws : blank c -> words None s ws -> words (Some w) (c :: s) (w :: ws)
| words_char cw c s ws :
    ~ blank c -> ~ active c (bool_decide (is_Some cw)) ->
    ~ In c [C"'"; DQUOTE; BACKSLASH] ->
    words (Some (default [] cw ++ [c])) s ws -> words cw (c :: s) ws
| words_single cw q s ws :
    ~ In C"'" q -> words (Some (default [] cw ++ q)) s ws ->
    words cw (C"'" :: q ++ C"'" :: s) ws
| words_double cw q v s ws :
    dq q v -> words (Some (default [] cw ++ v)) s ws ->
    words cw (DQUOTE :: q ++ DQUOTE :: s) ws
| words_escape cw c s ws :
    c <> LF -> words (Some (default [] cw ++ [c])) s ws ->
    words cw (BACKSLASH :: c :: s) ws.

End Posix.

(** No line continuation anywhere in the line. *)
Definition one_line (s : bytes) : Prop := forall a b, s <> a ++ BACKSLASH :: LF :: b.

(** The same grammar the way the scanner reads it; it differs inside double
    quotes, where the scanner keeps a line continuation ([posix_lex]). *)

(** [dq q v]: the text [q] between double quotes denotes the bytes [v], and
    no expansion survives in it. *)
Inductive dq : bytes -> bytes -> Prop :=
| dq_nil : dq [] []
| dq_esc c q v : dq_escapable c = true -> dq q v -> dq (BACKSLASH :: c :: q) (c :: v)
| dq_bs c q v : dq_escapable c = false -> dq (c :: q) v ->
    dq (BACKSLASH :: c :: q) (BACKSLASH :: v)
| dq_char c q v : dq_escapable c = false -> dq q v -> dq (c :: q) (c :: v).

Inductive lex : option bytes -> bytes -> list bytes -> Prop :=
| lex_end : lex None [] []
| lex_end_word w : lex (Some w) [] [w]
| lex_blank c s ws : blank c -> lex None s ws -> lex None (c :: s) ws
| lex_blank_word w c s ws : blank c -> lex None s ws -> lex (Some w) (c :: s) (w :: ws)
| lex_char cw c s ws :
    ~ blank c -> meta_char c (bool_decide (is_Some cw)) = false ->
    c <> C"'" -> c <> DQUOTE -> c <> BACKSLASH ->
    lex (Some (default [] cw ++ [c])) s ws -> lex cw (c :: s) ws
| lex_single cw q s ws :
    ~ In C"'" q -> lex (Some (default [] cw ++ q)) s ws ->
    lex cw (C"'" :: q ++ C"'" :: s) ws
| lex_double cw q v s ws :
    dq q v -> lex (Some (default [] cw ++ v)) s ws ->
    lex cw (DQUOTE :: q ++ DQUOTE :: s) ws
| lex_escape cw c s ws :
    c <> LF -> lex (Some (default [] cw ++ [c])) s ws ->
    lex cw (BACKSLASH :: c :: s) ws.

(** Handing over a list of complete words, from position [index] on. *)
Fixpoint take_words (out : shlex_cmd) (index : nat) (ws : list bytes) : shlex_cmd :=
  match ws with
  | [] => out
  | w :: ws => take_words (take_word out w index false) (S index) ws
  end.

Definition fits (w : bytes) : Prop := (length w < SHLEX_TOK_MAX)%nat.

(** ** Scanning lemmas *)

Lemma push_fold q tok :
  fits (tok ++ q) -> fold_left push q (tok, false) = (tok ++ q, false).
Proof.
  revert tok. induction q as [|c q IH]; intros tok Hf; [by rewrite app_nil_r|].
  cbn [fold_left]. unfold push at 2. unfold fits in Hf. autorewrite with tny in Hf. simpl in Hf.
  rewrite (proj2 (Nat.ltb_lt _ _)) by lia. rewrite IH; rewrite <- app_assoc; [done|].
  unfold fits. autorewrite with tny. simpl. lia.
Qed.

(** A token that was never cut short is what was pushed, and it fits. *)
Lemma push_fold_inv q tok over tok' :
  fits tok -> fold_left push q (tok, over) = (tok', false) ->
  over = false /\ tok' = tok ++ q /\ fits tok'.
Proof.
  revert tok over. induction q as [|c q IH]; intros tok over Hf; cbn [fold_left].
  { intros [= <- ->]. by rewrite app_nil_r. }
  unfold push at 2. case_if.
  - apply Nat.ltb_lt in Heqb. intros E. apply IH in E as (-> & -> & H).
    + by rewrite <- app_assoc in *.
    + unfold fits. autorewrite with tny. simpl. lia.
  - intros E. by apply IH in E as (? & _).
Qed.

Lemma push_fits t c : fits (fst t) -> fits (fst (push t c)).
Proof.
  destruct t as [tok over]. simpl. case_if; simpl; [|done].
  apply Nat.ltb_lt in Heqb. unfold fits. autorewrite with tny. simpl. lia.
Qed.

Lemma push_all_fits q t : fits (fst t) -> fits (fst (fold_left push q t)).
Proof. revert t. induction q; intros t H; simpl; [done|]. by apply IHq, push_fits. Qed.

Lemma scan_single_closed s t r t' :
  scan_single s t = (Some r, t') <->
  exists q, ~ In C"'" q /\ s = q ++ C"'" :: r /\ t' = fold_left push q t.
Proof.
  revert t. induction s as [|c s IH]; intros t; cbn [scan_single].
  { split; [done|]. by intros ([] & _ & ? & _). }
  destruct (Z.eqb_spec c C"'") as [->|Hc].
  - split.
    + intros [= <- <-]. exists []. split_and!; [intros []|done..].
    + intros ([|d q] & Hq & E & ->); [by simplify_eq/=|].
      simplify_eq/=. exfalso. apply Hq. by left.
  - rewrite IH. split.
    + intros (q & Hq & -> & ->). exists (c :: q). split_and!; [|done..].
      intros [?|?]; [lia|done].
    + intros ([|d q] & Hq & E & ->); simplify_eq/=.
      exists q. split_and!; [|done..]. intros ?. apply Hq. by right.
Qed.

Lemma scan_double_closed s t r t' :
  scan_double s t = (DqClosed r, t') ->
  exists q v, dq q v /\ s = q ++ DQUOTE :: r /\ t' = fold_left push v t.
Proof.
  remember (length s) as n eqn:Hn. revert s t Hn.
  induction n as [n IH] using lt_wf_ind. intros [|c s] t ->; [done|].
  cbn [scan_double].
  destruct (Z.eqb_spec c DQUOTE) as [->|Hq].
  { intros [= <- <-]. exists [], []. by split_and!; [constructor|..]. }
  case_if; [done|].
  destruct s as [|nx s2]; [done|].
  case_if; intros E.
  - boolify. apply Z.eqb_eq in H. subst c.
    eapply (IH (length s2)) in E as (q & v & Hd & -> & ->); [|simpl; lia|done].
    exists (BACKSLASH :: nx :: q), (nx :: v). by split_and!; [constructor|..].
  - eapply (IH (length (nx :: s2))) in E as (q & v & Hd & Eq & ->); [|simpl; lia|done].
    exists (c :: q), (c :: v). rewrite Eq. split_and!; [|done..].
    destruct (Z.eqb_spec c BACKSLASH) as [->|Hb].
    + simpl in Heqb0. destruct q as [|d q]; simplify_eq/=.
      by apply dq_bs.
    + apply dq_char; [|done]. unfold dq_escapable. lia.
Qed.

Lemma scan_double_bs nx s t :
  scan_double (BACKSLASH :: nx :: s) t =
    if dq_escapable nx then scan_double s (push t nx)
    else scan_double (nx :: s) (push t BACKSLASH).
Proof. done. Qed.

Lemma scan_double_complete q v r t :
  dq q v -> scan_double (q ++ DQUOTE :: r) t = (DqClosed r, fold_left push v t).
Proof.
  intros H. revert t. induction H as [|c q v Hc H IH|c q v Hc H IH|c q v Hc H IH]; intros t.
  - done.
  - cbn [app fold_left]. by rewrite scan_double_bs, Hc.
  - cbn [app fold_left] in *. by rewrite scan_double_bs, Hc.
  - cbn [app]. unfold dq_escapable in Hc. boolify.
    cbn [scan_double fold_left]. rewrite H0, H2, H1. cbn [orb].
    destruct (q ++ DQUOTE :: r) eqn:E; [by destruct q|]. rewrite H3. cbn [andb].
    apply IH.
Qed.

(** ** The loop *)

Lemma take_word_truncated out tok index over :
  truncated out = true -> truncated (take_word out tok index over) = true.
Proof. intros H. unfold take_word. by repeat case_if. Qed.

Lemma take_word_env out tok index :
  env_prefix (take_word out tok index false) =
    env_prefix out || (index =? 0)%nat && is_assignment tok.
Proof.
  unfold take_word. destruct (index =? 0)%nat, (is_assignment tok); simpl;
    repeat case_if; simpl; by rewrite ?orb_true_r, ?orb_false_r.
Qed.

Lemma loop_truncated fuel p out tok in_tok over index :
  truncated out = true -> truncated (shlex_loop fuel p out tok in_tok over index) = true.
Proof.
  revert p out tok in_tok over index. induction fuel as [|fuel IH]; intros p out tok in_tok over index H; [done|].
  cbn [shlex_loop].
  repeat case_match; simplify_eq; auto using take_word_truncated.
Qed.

Lemma lex_extends w s ws : lex (Some w) s ws -> exists w' ws', ws = (w ++ w') :: ws'.
Proof.
  intros H. remember (Some w) as cw eqn:E. revert w E.
  induction H; intros w0 E; simplify_eq/=;
    try (eexists [], _; by rewrite app_nil_r);
    destruct (IHlex _ eq_refl) as (w' & ws' & ->); rewrite <- app_assoc; eauto.
Qed.

Definition partial (in_tok : bool) (tok : bytes) : option bytes :=
  if in_tok then Some tok else None.

Lemma partial_default in_tok tok :
  (in_tok = false -> tok = []) -> default [] (partial in_tok tok) = tok.
Proof. destruct in_tok; [done|]. intros H. by rewrite H. Qed.

Definition clean (o : shlex_cmd) : Prop :=
  meta o = false /\ env_prefix o = false /\ unterminated o = false /\ truncated o = false.

(** The head of a C string is never the terminator. *)
Lemma cur_nonzero c p : cstring (c :: p) -> cur (c :: p) =? NUL = false.
Proof. intros H. inv H. simpl. lia. Qed.

Lemma blank_test c : (c =? C" ") || (c =? TAB) = true <-> blank c.
Proof. unfold blank. lia. Qed.

(** Every line the loop lets through is in the grammar, and the result is
    what its words give. *)
Definition sound (fuel : nat) : Prop := forall p out tok in_tok over index r,
  cstring p -> (length p < fuel)%nat -> (in_tok = false -> tok = [] /\ over = false) ->
  fits tok -> shlex_loop fuel p out tok in_tok over index = r -> clean r ->
  over = false /\ exists ws, lex (partial in_tok tok) p ws /\ Forall fits ws /\
    r = take_words out index ws.

(** A round that adds the bytes [v], read from [pre], to the current word. *)
Lemma sound_extend fuel pre v p' out tok in_tok over index r :
  sound fuel -> cstring (pre ++ p') -> (0 < length pre)%nat ->
  (length (pre ++ p') < S fuel)%nat -> (in_tok = false -> tok = [] /\ over = false) ->
  fits tok -> clean r ->
  (let t := fold_left push v (tok, over) in
   shlex_loop fuel p' out (fst t) true (snd t) index = r) ->
  (forall ws, lex (Some (default [] (partial in_tok tok) ++ v)) p' ws ->
     lex (partial in_tok tok) (pre ++ p') ws) ->
  over = false /\ exists ws, lex (partial in_tok tok) (pre ++ p') ws /\ Forall fits ws /\
    r = take_words out index ws.
Proof.
  intros IH Hp Hpre Hf Hin Hfit Hc Hr Hlex. apply Forall_app in Hp as [_ Hp].
  autorewrite with tny in Hf. cbv zeta in Hr.
  destruct (IH p' out _ true _ index r Hp ltac:(lia) ltac:(done) (push_all_fits v (tok, over) Hfit) Hr Hc)
    as (Ho & ws & Hl & Hw & ->).
  destruct (fold_left push v (tok, over)) as [tok' o'] eqn:E. simpl in *. subst o'.
  apply push_fold_inv in E as (-> & -> & _); [|done].
  split; [done|]. exists ws. split_and!; [|done..]. apply Hlex.
  rewrite partial_default by (intros; by apply Hin). done.
Qed.

(** A blank completes the word. *)
Lemma sound_blank fuel c p out tok in_tok over index r :
  sound fuel -> cstring (c :: p) -> blank c -> (length (c :: p) < S fuel)%nat ->
  (in_tok = false -> tok = [] /\ over = false) -> fits tok -> clean r ->
  shlex_loop (S fuel) (c :: p) out tok in_tok over index = r ->
  over = false /\ exists ws, lex (partial in_tok tok) (c :: p) ws /\ Forall fits ws /\
    r = take_words out index ws.
Proof.
  intros IH Hp Hb Hf Hin Hfit Hc Hr. cbn [shlex_loop] in Hr.
  rewrite cur_nonzero in Hr by done. cbn [orb cur hd tl] in Hr.
  rewrite (proj2 (blank_test c) Hb) in Hr. apply Forall_inv_tail in Hp.
  assert (Hf' : (length p < fuel)%nat) by (simpl in Hf; lia).
  assert (Hnil : fits []) by (unfold fits, SHLEX_TOK_MAX; simpl; lia).
  destruct in_tok; cbn [andb] in Hr.
  - destruct over.
    { exfalso. destruct Hc as (_ & _ & _ & Ht).
      assert (truncated r = true); [|congruence]. subst r. simpl.
      case_if; [done|]. by apply loop_truncated. }
    destruct (env_prefix _) eqn:He; [subst r; destruct Hc as (_ & ? & _); congruence|].
    destruct (IH p _ [] false false _ r Hp Hf' ltac:(done) Hnil Hr Hc) as (_ & ws & Hl & Hw & ->).
    split; [done|]. exists (tok :: ws). by split_and!; [constructor|constructor|].
  - destruct (Hin eq_refl) as [-> ->].
    destruct (IH p _ [] false false _ r Hp Hf' ltac:(done) Hnil Hr Hc) as (_ & ws & Hl & Hw & ->).
    split; [done|]. exists ws. by split_and!; [constructor|..].
Qed.

Lemma sound_end fuel out tok in_tok over index r :
  (in_tok = false -> tok = [] /\ over = false) -> fits tok -> clean r ->
  shlex_loop (S fuel) [] out tok in_tok over index = r ->
  over = false /\ exists ws, lex (partial in_tok tok) [] ws /\ Forall fits ws /\
    r = take_words out index ws.
Proof.
  intros Hin Hfit Hc Hr. cbn in Hr. destruct in_tok; cbn [andb] in Hr.
  - assert (r = take_word out tok index over) as -> by (by destruct (env_prefix _)).
    destruct over; [by destruct Hc as (_ & _ & _ & ?)|].
    split; [done|]. exists [tok]. by split_and!; [constructor|constructor|].
  - destruct (Hin eq_refl) as [-> ->]. subst r.
    split; [done|]. exists []. by split_and!; [constructor|..].
Qed.

Lemma loop_sound fuel : sound fuel.
Proof.
  induction fuel as [|fuel IH]; intros p out tok in_tok over index r Hp Hf Hin Hfit Hr Hc; [lia|].
  destruct p as [|c p]; [by eapply sound_end|].
  destruct ((c =? C" ") || (c =? TAB)) eqn:Hb.
  { apply blank_test in Hb. by eapply sound_blank. }
  cbn [shlex_loop] in Hr. rewrite cur_nonzero in Hr by done.
  cbn [orb cur hd tl] in Hr. rewrite Hb in Hr.
  destruct (meta_char c in_tok) eqn:Hm; [subst r; by destruct Hc|].
  destruct (Z.eqb_spec c C"'") as [->|Hsq].
  { destruct (scan_single p (tok, over)) as [[p'|] [tok' o']] eqn:E;
      [|subst r; by destruct Hc as (_ & _ & ? & _)].
    apply scan_single_closed in E as (q & Hq & -> & E).
    change (C"'" :: q ++ C"'" :: p') with ((C"'" :: q) ++ [C"'"] ++ p') in *.
    rewrite app_assoc in *. eapply (sound_extend fuel _ q); try done; [simpl; lia|by rewrite <- E|].
    intros ws. rewrite <- app_assoc. by apply lex_single. }
  destruct (Z.eqb_spec c DQUOTE) as [->|Hdq].
  { destruct (scan_double p (tok, over)) as [[p'| |] [tok' o']] eqn:E;
      [|subst r; by destruct Hc as (? & _ & ? & _)..].
    apply scan_double_closed in E as (q & v & Hq & -> & E).
    change (DQUOTE :: q ++ DQUOTE :: p') with ((DQUOTE :: q) ++ [DQUOTE] ++ p') in *.
    rewrite app_assoc in *. eapply (sound_extend fuel _ v); try done; [simpl; lia|by rewrite <- E|].
    intros ws. rewrite <- app_assoc. by apply lex_double. }
  destruct (Z.eqb_spec c BACKSLASH) as [->|Hbs].
  { destruct p as [|d p]; [subst r; by destruct Hc as (_ & _ & ? & _)|].
    change (char_at (BACKSLASH :: d :: p) 1) with d in Hr.
    destruct (d =? NUL); [subst r; by destruct Hc as (_ & _ & ? & _)|].
    destruct (Z.eqb_spec d LF) as [->|Hd]; [subst r; by destruct Hc|].
    destruct (push (tok, over) d) as [tok' o'] eqn:E.
    eapply (sound_extend fuel [BACKSLASH; d] [d]); try done; [simpl; lia|by cbn [fold_left]; rewrite E|].
    intros ws. by apply lex_escape. }
  destruct (push (tok, over) c) as [tok' o'] eqn:E.
  eapply (sound_extend fuel [c] [c]); try done; [simpl; lia|by cbn [fold_left]; rewrite E|].
  intros ws. apply lex_char; try done; [|by destruct in_tok].
  rewrite <- blank_test. by rewrite Hb.
Qed.

(** ** Completeness *)

Lemma take_words_env out index ws :
  env_prefix out = true -> env_prefix (take_words out index ws) = true.
Proof.
  revert out index. induction ws as [|w ws IH]; intros out index H; [done|].
  apply IH. by rewrite take_word_env, H.
Qed.

Lemma push_fitting w c w' :
  fits (w ++ c :: w') -> push (w, false) c = (w ++ [c], false).
Proof.
  unfold fits. autorewrite with tny. simpl. intros H. by rewrite (proj2 (Nat.ltb_lt _ _)) by lia.
Qed.

(** The first word a partial word grows into fits, so the part does. *)
Lemma lex_part_fits w s ws : lex (Some w) s ws -> Forall fits ws -> fits w.
Proof.
  intros (w' & ws' & ->)%lex_extends H. apply Forall_inv in H.
  unfold fits in *. autorewrite with tny in H. lia.
Qed.

Lemma loop_complete cw p ws :
  lex cw p ws -> forall fuel out index,
  cstring p -> (length p < fuel)%nat -> Forall fits ws ->
  env_prefix (take_words out index ws) = false ->
  shlex_loop fuel p out (default [] cw) (bool_decide (is_Some cw)) false index =
    take_words out index ws.
Proof.
  induction 1 as [|w|c s ws Hb Hl IH|w c s ws Hb Hl IH|cw c s ws Hb Hm Hq1 Hq2 Hq3 Hl IH
    |cw q s ws Hq Hl IH|cw q v s ws Hq Hl IH|cw c s ws Hc Hl IH];
    intros [|fuel] out index Hp Hf Hw He; try (simpl in Hf; lia).
  - done.
  - cbn. by destruct (env_prefix _).
  - cbn [shlex_loop]. rewrite cur_nonzero by done. cbn [orb cur hd tl].
    rewrite (proj2 (blank_test c) Hb). apply Forall_inv_tail in Hp.
    apply (IH fuel out index); auto. simpl in Hf. lia.
  - cbn [shlex_loop]. rewrite cur_nonzero by done. cbn [orb cur hd tl].
    rewrite (proj2 (blank_test c) Hb). apply Forall_inv_tail in Hp, Hw.
    cbn [take_words] in *. change (bool_decide (is_Some (Some w))) with true.
    change (default [] (Some w)) with w. cbn [andb].
    destruct (env_prefix (take_word out w index false)) eqn:E.
    { by rewrite take_words_env in He. }
    apply (IH fuel _ (S index)); auto. simpl in Hf. lia.
  - cbn [shlex_loop]. rewrite cur_nonzero by done. cbn [orb cur hd tl].
    rewrite <- blank_test in Hb. apply not_true_is_false in Hb. rewrite Hb, Hm.
    do 3 (rewrite (proj2 (Z.eqb_neq _ _)) by done). apply Forall_inv_tail in Hp.
    rewrite (push_fitting _ c []) by (by eapply lex_part_fits).
    apply (IH fuel out index); auto. simpl in Hf. lia.
  - pose proof (lex_part_fits _ _ _ Hl Hw). cbn [shlex_loop]. cbn [cur hd tl].
    replace (meta_char C"'" _) with false by by destruct cw. cbn [Z.eqb Pos.eqb orb].
    rewrite (proj2 (scan_single_closed _ _ s (default [] cw ++ q, false)))
      by (exists q; rewrite push_fold by done; done).
    inv Hp. apply Forall_app in H3 as [_ H3]. inv H3.
    apply (IH fuel out index); auto. simpl in Hf. autorewrite with tny in Hf. simpl in Hf. lia.
  - pose proof (lex_part_fits _ _ _ Hl Hw). cbn [shlex_loop]. cbn [cur hd tl].
    replace (meta_char DQUOTE _) with false by by destruct cw. cbn [Z.eqb Pos.eqb orb].
    rewrite (scan_double_complete q v s) by done. rewrite push_fold by done.
    inv Hp. apply Forall_app in H3 as [_ H3]. inv H3.
    apply (IH fuel out index); auto. simpl in Hf. autorewrite with tny in Hf. simpl in Hf. lia.
  - pose proof (lex_part_fits _ _ _ Hl Hw). cbn [shlex_loop]. cbn [cur hd tl].
    replace (meta_char BACKSLASH _) with false by by destruct cw. cbn [Z.eqb Pos.eqb orb].
    change (char_at (BACKSLASH :: c :: s) 1) with c.
    inv Hp. inv H3. rewrite (proj2 (Z.eqb_neq c NUL)), (proj2 (Z.eqb_neq c LF)) by lia.
    rewrite (push_fitting _ c []) by done. change (drop 2 (BACKSLASH :: c :: s)) with s.
    apply (IH fuel out index); auto. simpl in Hf. lia.
Qed.

(** Words of C strings are C strings. *)
Lemma dq_cstring q v : dq q v -> cstring q -> cstring v.
Proof.
  induction 1 as [|c q v Hc H IH|c q v Hc H IH|c q v Hc H IH]; intros Hs; [done|..];
    apply Forall_cons_iff in Hs as [H1 Hs]; [apply Forall_cons_iff in Hs as [? Hs]|..];
    constructor; try done; by apply IH.
Qed.

Lemma lex_cstring cw p ws :
  lex cw p ws -> cstring p -> cstring (default [] cw) -> Forall cstring ws.
Proof.
  induction 1 as [|w|c s ws Hb Hl IH|w c s ws Hb Hl IH|cw c s ws Hb Hm Hq1 Hq2 Hq3 Hl IH
    |cw q s ws Hq Hl IH|cw q v s ws Hq Hl IH|cw c s ws Hc Hl IH]; intros Hp Hcw;
    try (inv Hp); auto.
  - constructor; [done|]. apply IH; [done|constructor].
  - apply IH; [done|]. apply Forall_app. split; [done|by constructor].
  - apply Forall_app in H2 as [? H2]. inv H2. apply IH; [done|]. by apply Forall_app.
  - apply Forall_app in H2 as [? H2]. inv H2. apply IH; [done|].
    apply Forall_app. split; [done|]. by eapply dq_cstring.
  - inv H2. apply IH; [done|]. apply Forall_app. split; [done|by constructor].
Qed.

(** What the words after the program contribute. *)
Definition first_verb (ws : list bytes) : bytes :=
  default [] (List.find (fun w => negb (cur w =? C"-") && negb (cur w =? NUL)) ws).

Lemma cstring_cur w : cstring w -> cur w = NUL -> w = [].
Proof. intros H E. destruct w; [done|]. inv H. simpl in E. lia. Qed.

Lemma take_words_args w v d i ws :
  Forall cstring ws -> cstring v ->
  take_words (mk_cmd w v false false false false d) (S i) ws =
    mk_cmd w (if cur v =? NUL then first_verb ws else v) false false false false
      (d || existsb dangerous_option ws).
Proof.
  intros H. revert v d i. induction H as [|x ws Hx H IH]; intros v d i Hv.
  - simpl. rewrite orb_false_r. case_if; [|done].
    apply Z.eqb_eq in Heqb. by rewrite (cstring_cur v).
  - cbn [take_words]. unfold take_word. cbn [Nat.eqb].
    replace (if dangerous_option x then _ else _)
      with (mk_cmd w v false false false false (d || dangerous_option x))
      by (by destruct (dangerous_option x); rewrite ?orb_true_r, ?orb_false_r).
    cbn [verb existsb]. unfold first_verb. cbn [List.find].
    destruct (cur v =? NUL) eqn:E1; cbn [andb].
    + destruct (cur x =? C"-") eqn:E2; cbn [negb andb].
      * rewrite IH by done. rewrite E1, <- orb_assoc. done.
      * unfold set_verb. cbn. rewrite IH by done.
        destruct (cur x =? NUL); simpl; by rewrite <- orb_assoc.
    + rewrite IH by done. by rewrite E1, <- orb_assoc.
Qed.

(** The last slash splits a string into a directory and a base name. *)
Lemma last_slash_None s : last_slash s = None <-> ~ In C"/" s.
Proof.
  induction s as [|c s IH]; [by split; [intros _ []|]|]. cbn [last_slash In].
  destruct (last_slash s) as [i|]; [|destruct (Z.eqb_spec c C"/")]; split; try done.
  - intros H. exfalso. apply H. right. destruct (in_dec Z.eq_dec C"/" s) as [|n]; [done|].
    by apply IH in n.
  - intros H. exfalso. apply H. by left.
  - intros _ [?|?]; [done|]. by apply IH.
Qed.

Lemma last_slash_Some s i :
  last_slash s = Some i -> s = take (S i) s ++ drop (S i) s /\
    nth i s NUL = C"/" /\ (S i <= length s)%nat /\ ~ In C"/" (drop (S i) s).
Proof.
  revert i. induction s as [|c s IH]; intros i; [done|]. cbn [last_slash].
  destruct (last_slash s) as [j|] eqn:E.
  - intros [= <-]. destruct (IH j eq_refl) as (E1 & E2 & E3 & E4).
    split; [by rewrite take_drop|]. simpl in *. split_and!; [done|lia|done].
  - case_if; [|done]. intros [= <-]. apply last_slash_None in E. simpl.
    rewrite drop_0. split_and!; [done|lia|lia|done].
Qed.

Lemma last_slash_app d t :
  List.last d NUL = C"/" -> ~ In C"/" t -> last_slash (d ++ t) = Some (length d - 1)%nat.
Proof.
  intros Hd Ht. induction d as [|c d IH]; [done|]. cbn [app last_slash].
  destruct d as [|c' d].
  - simpl in *. apply last_slash_None in Ht. rewrite Ht. subst c. done.
  - rewrite IH by done. f_equal. simpl. lia.
Qed.

Lemma bin_dirs_slash d : In d bin_dirs -> List.last d NUL = C"/".
Proof. intros H. by repeat (destruct H as [<-|H]; [done|]). Qed.

Lemma bin_dirs_app d t :
  In d bin_dirs -> ~ In C"/" t -> last_slash (d ++ t) = Some (length d - 1)%nat /\ (1 <= length d)%nat.
Proof.
  intros Hd Ht. pose proof (bin_dirs_slash d Hd). split; [by apply last_slash_app|].
  destruct d; [done|simpl; lia].
Qed.

(** The directory test of the code, for the offset [i] of the last slash. *)
Lemma dir_test s i :
  last_slash s = Some i ->
  existsb (fun d => has_prefix d s && (i + 1 =? length d)%nat) bin_dirs = true <->
  exists d, In d bin_dirs /\ s = d ++ drop (S i) s.
Proof.
  intros Hl. rewrite existsb_exists. destruct (last_slash_Some _ _ Hl) as (_ & _ & _ & Hn). split.
  - intros (d & Hd & H). boolify. apply has_prefix_true in H as [t ->].
    apply Nat.eqb_eq in H0. exists d. split; [done|].
    replace (S i) with (length d) by lia. by rewrite drop_app_exact.
  - intros (d & Hd & E). exists d. split; [done|]. rewrite E at 1. rewrite has_prefix_app.
    destruct (bin_dirs_app d (drop (S i) s) Hd Hn) as [Hl' ?].
    rewrite <- E, Hl in Hl'. injection Hl' as ->. apply Nat.eqb_eq. lia.
Qed.

(** Whatever the line, the copies into [argv0] and [verb] stay within their
    [SHLEX_TOK_MAX]-byte arrays, terminators included. *)
Definition bounded (o : shlex_cmd) : Prop := fits (argv0 o) /\ fits (verb o).

Lemma take_word_bounded out tok index over :
  bounded out -> fits tok -> bounded (take_word out tok index over).
Proof. intros [H1 H2] Ht. unfold take_word. repeat case_if; by split. Qed.

Lemma scan_single_fits s t : fits (fst t) -> fits (fst (snd (scan_single s t))).
Proof.
  revert t. induction s as [|c s IH]; intros t H; [done|]. cbn [scan_single].
  case_if; [done|]. by apply IH, push_fits.
Qed.

Lemma scan_double_fits s t : fits (fst t) -> fits (fst (snd (scan_double s t))).
Proof.
  remember (length s) as n eqn:Hn. revert s t Hn.
  induction n as [n IH] using lt_wf_ind. intros [|c s] t -> H; [done|]. cbn [scan_double].
  repeat case_if; try done. destruct s as [|nx s]; [by apply push_fits|].
  case_if.
  - apply (IH (length s)); [simpl; lia|done|]. by apply push_fits.
  - apply (IH (length (nx :: s))); [simpl; lia|done|]. by apply push_fits.
Qed.

Lemma loop_bounded fuel p out tok in_tok over index :
  bounded out -> fits tok -> bounded (shlex_loop fuel p out tok in_tok over index).
Proof.
  revert p out tok in_tok over index.
  induction fuel as [|fuel IH]; intros p out tok in_tok over index Ho Ht; [done|].
  assert (Hn : fits []) by (unfold fits, SHLEX_TOK_MAX; simpl; lia).
  pose proof (take_word_bounded out tok index over Ho Ht).
  pose proof (scan_single_fits (tl p) (tok, over) Ht).
  pose proof (scan_double_fits (tl p) (tok, over) Ht).
  pose proof (push_fits (tok, over) (cur p) Ht).
  pose proof (push_fits (tok, over) (char_at p 1) Ht).
  cbn [shlex_loop]. repeat case_match; simplify_eq/=; auto;
    repeat match goal with E : _ = (_, _) |- _ => rewrite E in *; clear E end; simpl in *; auto.
Qed.

(** ** Properties *)

(** ** The scanner's grammar is the shell's *)

Lemma meta_active c in_word : meta_char c in_word = false <-> ~ Posix.active c in_word.
Proof.
  unfold meta_char, Posix.active. rewrite !orb_false_iff.
  assert (mem_byte c B";&|()<>`$" = false <-> ~ In c B";&|()<>`$") as ->
    by (rewrite <- mem_byte_true; by destruct (mem_byte _ _)).
  cbn [In]. destruct in_word; cbn; rewrite ?orb_false_iff, ?Z.eqb_neq; intuition congruence.
Qed.

Lemma escapable_in c : dq_escapable c = true <-> In c [DQUOTE; BACKSLASH; C"$"; C"`"].
Proof. unfold dq_escapable. cbn [In]. rewrite !orb_true_iff, !Z.eqb_eq. intuition congruence. Qed.

Lemma not_escapable_in c : dq_escapable c = false <-> ~ In c [DQUOTE; BACKSLASH; C"$"; C"`"].
Proof. rewrite <- escapable_in. by destruct (dq_escapable c). Qed.

Lemma one_line_app a s : one_line (a ++ s) -> one_line a /\ one_line s.
Proof.
  intros H. split; intros x y E.
  - apply (H x (y ++ s)). rewrite E, <- app_assoc. done.
  - apply (H (a ++ x) y). by rewrite E, <- app_assoc.
Qed.

Lemma one_line_cons c s : one_line (c :: s) -> one_line s.
Proof. intros H. by apply (one_line_app [c]) in H as [_ ?]. Qed.

Lemma posix_dq q v : one_line q -> Posix.dq q v <-> dq q v.
Proof.
  intros Hq. split; induction 1 as [|c q v Hc _ IH|q v _ IH|c q v Hc _ IH|c q v Hc _ IH]
    || induction 1 as [|c q v Hc _ IH|c q v Hc _ IH|c q v Hc _ IH];
    try constructor; rewrite ?escapable_in, ?not_escapable_in in *; eauto using one_line_cons.
  - by destruct (Hq [] q).
  - cbn [In] in *. intuition.
  - cbn [In] in *. destruct (decide (c = LF)) as [->|]; [by destruct (Hq [] q)|]. intuition.
Qed.

Lemma posix_lex cw s ws : one_line s -> Posix.words cw s ws <-> lex cw s ws.
Proof.
  intros Hs. split.
  - induction 1 as [|w|c s ws Hb _ IH|w c s ws Hb _ IH|cw c s ws Hb Ha Hq _ IH
      |cw q s ws Hq _ IH|cw q v s ws Hq _ IH|cw c s ws Hc _ IH];
      try (constructor; eauto using one_line_cons; fail).
    + cbn [In] in Hq. apply lex_char; [done|by apply meta_active|intuition..|].
      eauto using one_line_cons.
    + apply one_line_cons, one_line_app in Hs as [H1 H2].
      constructor; [done|]. eauto using one_line_cons.
    + apply one_line_cons, one_line_app in Hs as [H1 H2].
      eapply lex_double; [by apply posix_dq|]. eauto using one_line_cons.
  - induction 1 as [|w|c s ws Hb _ IH|w c s ws Hb _ IH|cw c s ws Hb Hm Hq1 Hq2 Hq3 _ IH
      |cw q s ws Hq _ IH|cw q v s ws Hq _ IH|cw c s ws Hc _ IH];
      try (constructor; eauto using one_line_cons; fail).
    + apply Posix.words_char; [done|by apply meta_active|cbn [In]; intuition congruence|].
      eauto using one_line_cons.
    + apply one_line_cons, one_line_app in Hs as [H1 H2].
      constructor; [done|]. eauto using one_line_cons.
    + apply one_line_cons, one_line_app in Hs as [H1 H2].
      eapply Posix.words_double; [by apply posix_dq|]. eauto using one_line_cons.
Qed.

(** The words of one simple command. *)
Definition simple_words (cmd w : bytes) (ws : list bytes) : Prop :=
  lex None cmd (w :: ws) /\ Forall fits (w :: ws) /\ w <> [] /\ is_assignment w = false.

(** The parse of a list of words that starts with no assignment. *)
Lemma take_words_simple w ws :
  Forall cstring (w :: ws) -> is_assignment w = false ->
  take_words cmd0 0 (w :: ws) =
    mk_cmd w (first_verb ws) false false false false (existsb dangerous_option ws).
Proof.
  intros [Hw Hws]%Forall_cons_iff Ha. cbn [take_words]. unfold take_word at 1. rewrite Ha.
  unfold set_argv0, cmd0. cbn. by rewrite take_words_args by (done || constructor).
Qed.

Lemma lex_words_cstring cmd ws : lex None cmd ws -> cstring cmd -> Forall cstring ws.
Proof. intros Hl Hc. eapply lex_cstring; [done..|constructor]. Qed.

Lemma parse_words cmd w ws :
  cstring cmd -> simple_words cmd w ws ->
  shlex_parse (Some cmd) =
    mk_cmd w (first_verb ws) false false false false (existsb dangerous_option ws).
Proof.
  intros Hc (Hl & Hf & Hne & Ha). pose proof (lex_words_cstring _ _ Hl Hc) as Hcs.
  pose proof (take_words_simple w ws Hcs Ha) as E. rewrite <- E. unfold shlex_parse.
  apply (loop_complete None cmd (w :: ws)); try done; [lia|by rewrite E].
Qed.

Lemma simple_parse_words cmd :
  cstring cmd -> shlex_is_simple (shlex_parse (Some cmd)) = true ->
  exists w ws, simple_words cmd w ws.
Proof.
  intros Hc Hs. unfold shlex_is_simple in Hs. set (r := shlex_parse (Some cmd)) in *.
  destruct (meta r || env_prefix r || unterminated r || truncated r) eqn:Hcl; [done|]. boolify.
  destruct (loop_sound (S (length cmd)) cmd cmd0 [] false false 0%nat r) as (_ & ws & Hl & Hw & Er);
    [done|lia|done|unfold fits, SHLEX_TOK_MAX; simpl; lia|done|by split_and!|].
  destruct ws as [|w ws]; [by rewrite Er in Hs|].
  pose proof (lex_words_cstring _ _ Hl Hc) as Hcs.
  assert (Ha : is_assignment w = false).
  { destruct (is_assignment w) eqn:Ha; [|done]. rewrite Er in H2. cbn [take_words] in H2.
    by rewrite take_words_env in H2 by (by rewrite take_word_env, Ha). }
  exists w, ws. split_and!; auto. rewrite Er, take_words_simple in Hs by done. by intros ->.
Qed.

(** What a simple line is, for the readers of the parse. *)
Lemma simple_line cmd :
  cstring cmd ->
  (shlex_is_simple (shlex_parse (Some cmd)) = true <-> exists w ws, simple_words cmd w ws).
Proof.
  intros Hc. split; [by apply simple_parse_words|]. intros (w & ws & H).
  rewrite (parse_words cmd w ws) by done. destruct H as (Hl & _ & Hne & _).
  pose proof (lex_words_cstring _ _ Hl Hc) as [Hcw _]%Forall_cons_iff.
  unfold shlex_is_simple. cbn. destruct (cur w =? NUL) eqn:E; [|done].
  apply Z.eqb_eq in E. by rewrite (cstring_cur w) in Hne.
Qed.

(** C18: a line without a line continuation is accepted as one simple command
    exactly when the POSIX rules, a carriage return taken for a line end, split
    all of it into words (so no separator,
    redirection, substitution, comment or group survives unquoted), the words
    fit the token buffer, and the first word is neither empty nor an
    assignment; the reported program word, subcommand and dangerous-option flag
    are then those of that word list. *)
Theorem shlex_simple_iff (cmd : bytes) (Hc : cstring cmd) (Hl : one_line cmd) :
  (shlex_is_simple (shlex_parse (Some cmd)) = true <->
   exists w ws, Posix.words None cmd (w :: ws) /\ Forall fits (w :: ws) /\
     w <> [] /\ is_assignment w = false) /\
  (forall w ws, Posix.words None cmd (w :: ws) -> Forall fits (w :: ws) ->
     w <> [] -> is_assignment w = false ->
     shlex_parse (Some cmd) =
       mk_cmd w (first_verb ws) false false false false (existsb dangerous_option ws)).
Proof.
  split.
  - rewrite simple_line by done. unfold simple_words. by setoid_rewrite posix_lex.
  - intros w ws Hw ? ? ?. apply posix_lex in Hw; [|done]. by apply parse_words; [|split_and!].
Qed.

(** A line with no newline has no continuation. *)
Lemma one_line_no_lf s : mem_byte LF s = false -> one_line s.
Proof.
  intros H a b ->. apply not_true_iff_false in H. apply H, mem_byte_true.
  rewrite in_app_iff. right. right. by left.
Qed.

Example shlex_simple_iff_witness :
  exists w ws, Posix.words None B"git log 'a;b' --output=x" (w :: ws).
Proof.
  destruct (proj1 (proj1 (shlex_simple_iff B"git log 'a;b' --output=x"
    ltac:(repeat constructor; lia) ltac:(apply one_line_no_lf; reflexivity)))
    eq_refl) as (w & ws & Hl & _).
  by exists w, ws.
Defined.

(** Inside double quotes the scanner keeps a line continuation that the shell
    removes: the shell's word is [-delete], a dangerous option; the scanner
    sees none. *)
Definition continued : bytes :=
  B"find . " ++ [DQUOTE] ++ B"-del" ++ [BACKSLASH; LF] ++ B"ete" ++ [DQUOTE].

Example quoted_continuation :
  Posix.words None continued [B"find"; B"."; B"-delete"] /\
  dangerous_option B"-delete" = true /\
  shlex_is_simple (shlex_parse (Some continued)) = true /\
  dangerous_opt (shlex_parse (Some continued)) = false.
Proof.
  split_and!; try (vm_compute; reflexivity).
  do 4 (apply Posix.words_char; [unfold blank; lia|unfold Posix.active; cbn; intuition congruence
    |cbn; intuition congruence|]).
  apply Posix.words_next; [by left|].
  apply Posix.words_char; [unfold blank; lia|unfold Posix.active; cbn; intuition congruence
    |cbn; intuition congruence|].
  apply Posix.words_next; [by left|].
  apply (Posix.words_double None (B"-del" ++ [BACKSLASH; LF] ++ B"ete") B"-delete" []).
  - do 4 (apply Posix.dq_char; [cbn; intuition congruence|]). apply Posix.dq_join.
    do 3 (apply Posix.dq_char; [cbn; intuition congruence|]). constructor.
  - constructor.
Qed.

(** For every command line, NULL included, the word and subcommand copied
    out leave room for their terminator in the [SHLEX_TOK_MAX]-byte arrays. *)
Theorem shlex_parse_bounded (cmd : option bytes) :
  (length (argv0 (shlex_parse cmd)) < SHLEX_TOK_MAX)%nat /\
  (length (verb (shlex_parse cmd)) < SHLEX_TOK_MAX)%nat.
Proof.
  assert (H : bounded (shlex_parse cmd)); [|done].
  assert (fits []) by (unfold fits, SHLEX_TOK_MAX; simpl; lia).
  destruct cmd; [by apply loop_bounded|by split].
Qed.

(** The reported program, likewise. *)
Lemma program_name (c : shlex_cmd) (name : bytes) (Hc : cstring (argv0 c)) :
  shlex_program c = Some name <->
  argv0 c <> [] /\ ~ In C"/" name /\
  (argv0 c = name \/ exists d, In d bin_dirs /\ argv0 c = d ++ name).
Proof.
  unfold shlex_program.
  destruct (Z.eqb_spec (cur (argv0 c)) NUL) as [E|E].
  { apply cstring_cur in E; [|done]. rewrite E. by split; [|intros (? & _)]. }
  assert (argv0 c <> []) by (by intros Hn; rewrite Hn in E).
  destruct (last_slash (argv0 c)) as [i|] eqn:Hl.
  - pose proof (dir_test _ _ Hl) as Ht.
    destruct (last_slash_Some _ _ Hl) as (_ & E2 & E3 & E4). split.
    + case_if; [|done]. intros [= <-]. split_and!; auto. right. by apply Ht.
    + intros (_ & Hn & [<-|(d & Hd & Eq)]).
      { exfalso. apply Hn. rewrite <- E2. apply nth_In. lia. }
      destruct (bin_dirs_app d name Hd Hn) as [Hl' ?].
      rewrite <- Eq, Hl in Hl'. injection Hl' as Hi.
      assert (name = drop (S i) (argv0 c)) as ->
        by (rewrite Eq; replace (S i) with (length d) by lia; by rewrite drop_app_exact).
      by rewrite (proj2 Ht) by eauto.
  - apply last_slash_None in Hl. split; [by intros [= <-]; auto|].
    intros (_ & Hn & [->|(d & Hd & Eq)]); [done|].
    destruct (bin_dirs_app d name Hd Hn) as [Hl' _].
    rewrite <- Eq in Hl'. apply last_slash_None in Hl. congruence.
Qed.

(** A program name is reported exactly for a bare word and for a file
    directly inside one of the system bin directories; the name itself holds
    no slash. *)
Theorem shlex_program_iff (c : shlex_cmd) (name : bytes) (Hc : cstring (argv0 c)) :
  shlex_program c = Some name <->
  argv0 c <> [] /\ ~ In C"/" name /\
  (argv0 c = name \/ exists d, In d bin_dirs /\ argv0 c = d ++ name).
Proof. exact (program_name c name Hc). Qed.

Example shlex_program_iff_witness :
  shlex_program (shlex_parse (Some B"/usr/bin/git status")) = Some B"git" /\
  shlex_program (shlex_parse (Some B"./git status")) = None.
Proof.
  split.
  - apply (shlex_program_iff (shlex_parse (Some B"/usr/bin/git status")) B"git").
    + vm_compute. repeat constructor; discriminate.
    + vm_compute. split; [discriminate|]. split; [intuition discriminate|].
      right. exists B"/usr/bin/". split; [by right; left|done].
  - by vm_compute.
Defined.
