(* ===== verification/Codec.v ===== *)
(** Base64, base64url, form encoding and the calendar conversion of
    src/src/util/util.c. *)
From S2P Require Import Prelude Bits.

Open Scope Z_scope.

(** ** Base64 *)

Definition B64 : bytes :=
  B"ABCDEFGHIJKLMNOPQRSTUVWXYZabcdefghijklmnopqrstuvwxyz0123456789+/".

Definition b64_char (d : Z) : Z := nth (Z.to_nat d) B64 NUL.

(** One round of the encoder on up to three bytes: four characters, '=' for
    the ones past the end. *)
Definition b64_quad (a : Z) (b c : option Z) : bytes :=
  let v := Z.shiftl a 16 in
  let v := match b with Some b => Z.lor v (Z.shiftl b 8) | None => v end in
  let v := match c with Some c => Z.lor v c | None => v end in
  [b64_char (Z.land (Z.shiftr v 18) 63);
   b64_char (Z.land (Z.shiftr v 12) 63);
   match b with Some _ => b64_char (Z.land (Z.shiftr v 6) 63) | None => C"=" end;
   match c with Some _ => b64_char (Z.land v 63) | None => C"=" end].

Fixpoint b64_encode (s : bytes) : bytes :=
  match s with
  | [] => []
  | [a] => b64_quad a None None
  | [a; b] => b64_quad a (Some b) None
  | a :: b :: c :: s => b64_quad a (Some b) (Some c) ++ b64_encode s
  end.

Definition b64_val (c : Z) : Z :=
  if (C"A" <=? c) && (c <=? C"Z") then c - C"A"
  else if (C"a" <=? c) && (c <=? C"z") then c - C"a" + 26
  else if (C"0" <=? c) && (c <=? C"9") then c - C"0" + 52
  else if c =? C"+" then 62
  else if c =? C"/" then 63
  else -1.

(** The decoding loop; [out] holds the bytes written so far, [v] is a
    uint32_t that is never cleared. [None] is the early [return 0]. *)
Fixpoint b64_loop (s : bytes) (v bits : Z) (out : bytes) (outcap : nat) : option bytes :=
  match s with
  | [] => Some out
  | c :: s =>
    if c =? C"=" then Some out
    else
      let d := b64_val c in
      if d <? 0 then b64_loop s v bits out outcap
      else
        let v := u32 (Z.lor (Z.shiftl v 6) d) in
        let bits := bits + 6 in
        if 8 <=? bits then
          let bits := bits - 8 in
          if (outcap <=? length out)%nat then None
          else b64_loop s v bits (out ++ [Z.land (Z.shiftr v bits) 255]) outcap
        else b64_loop s v bits out outcap
  end.

(** The bytes reported to the caller; an overflow reports none. *)
Definition b64_decode (s : bytes) (outcap : nat) : bytes :=
  default [] (b64_loop s 0 0 [] outcap).

(** Standard to URL alphabet, stopping at the padding. *)
Fixpoint url_alphabet (s : bytes) : bytes :=
  match s with
  | [] => []
  | c :: s =>
    if c =? C"+" then C"-" :: url_alphabet s
    else if c =? C"/" then C"_" :: url_alphabet s
    else if c =? C"=" then []
    else c :: url_alphabet s
  end.

Definition b64url_encode (s : bytes) : bytes := url_alphabet (b64_encode s).

(** ** application/x-www-form-urlencoded *)

Definition form_safe (c : Z) : bool :=
  is_upper c || is_lower c || is_digit c ||
  (c =? C"-") || (c =? C".") || (c =? C"_") || (c =? C"~").

(** One digit of [%02X] and [%02x]. *)
Definition hex_upper (d : Z) : Z := if d <? 10 then C"0" + d else C"A" + (d - 10).
Definition hex_lower (d : Z) : Z := if d <? 10 then C"0" + d else C"a" + (d - 10).

(** ["%016llx"] *)
Definition hex16 (h : Z) : bytes := map (fun i => hex_lower (Z.land (Z.shiftr h (60 - 4 * Z.of_nat i)) 15)) (seq 0 16).

Definition form_byte (c : Z) : bytes :=
  if form_safe c then [c] else [C"%"; hex_upper (c / 16); hex_upper (c mod 16)].

(** What the buffer holds after the call. *)
Definition url_form_append (b key val : bytes) : bytes :=
  b ++ (if (0 <? length b)%nat then B"&" else []) ++ key ++ B"=" ++
    concat (map form_byte val).

(** ** Lemmas *)

Lemma b64_val_char d : 0 <= d < 64 -> b64_val (b64_char d) = d /\ b64_char d <> C"=".
Proof.
  intros Hd.
  enough ((64 <=? d) || (b64_val (b64_char d) =? d) && negb (b64_char d =? C"=") = true) by lia.
  assert (is_byte d) as H by (unfold is_byte; lia). clear Hd. revert d H. by_all_bytes.
Qed.

(** One character that carries a digit. *)
Lemma b64_loop_digit d s v bits out cap :
  0 <= d < 64 -> 0 <= v ->
  b64_loop (b64_char d :: s) v bits out cap =
    let v := u32 (v * 64 + d) in
    if 8 <=? bits + 6 then
      if (cap <=? length out)%nat then None
      else b64_loop s v (bits - 2) (out ++ [v / 2 ^ (bits - 2) mod 256]) cap
    else b64_loop s v (bits + 6) out cap.
Proof.
  intros Hd Hv. destruct (b64_val_char d Hd) as [E1 E2]. cbn [b64_loop].
  rewrite (proj2 (Z.eqb_neq _ _) E2), E1, (proj2 (Z.ltb_ge d 0)) by lia.
  rewrite lor_shiftl_add by lia. change (2 ^ 6) with 64. cbv zeta.
  case_if; [|done]. replace (bits + 6 - 8) with (bits - 2) by lia.
  rewrite land_255, Z.shiftr_div_pow2 by lia. done.
Qed.

(** The digits of three bytes, as the encoder packs them. *)
Lemma pack24 a b c :
  is_byte a -> is_byte b -> is_byte c ->
  Z.lor (Z.lor (Z.shiftl a 16) (Z.shiftl b 8)) c = a * 65536 + b * 256 + c.
Proof.
  unfold is_byte. intros. rewrite (lor_shiftl_add a _ 16)
    by (rewrite ?Z.shiftl_mul_pow2 by lia; lia).
  replace (a * 2 ^ 16 + Z.shiftl b 8) with (Z.shiftl (a * 256 + b) 8)
    by (rewrite !Z.shiftl_mul_pow2 by lia; lia).
  rewrite lor_shiftl_add by lia. lia.
Qed.

Lemma pack24_2 a b :
  is_byte a -> is_byte b -> Z.lor (Z.shiftl a 16) (Z.shiftl b 8) = a * 65536 + b * 256.
Proof.
  intros Ha Hb. rewrite <- (Z.lor_0_r (Z.lor _ _)), pack24 by (done || unfold is_byte; lia). lia.
Qed.

Lemma digit6 v k : 0 <= k -> Z.land (Z.shiftr v k) 63 = v / 2 ^ k mod 64.
Proof. intros. by rewrite land_63, Z.shiftr_div_pow2. Qed.

Lemma u32_nonneg x : 0 <= u32 x.
Proof. apply u32_range. Qed.

(** Two digits deliver a byte, whatever older bits [v] still holds: the six
    of the first and the top [6 - r] bits of the second. *)
Lemma low_bits v d : 0 <= d < 64 -> u32 (v * 64 + d) mod 64 = d.
Proof. unfold u32. lia. Qed.

Lemma two_digits v d0 d1 :
  0 <= d0 < 64 -> 0 <= d1 < 64 ->
  u32 (u32 (v * 64 + d0) * 64 + d1) mod 4096 = d0 * 64 + d1.
Proof. unfold u32. lia. Qed.

(** The first digit of a group stores nothing, the other three a byte each. *)
Lemma digit_first d s v out cap :
  0 <= d < 64 -> 0 <= v ->
  b64_loop (b64_char d :: s) v 0 out cap = b64_loop s (u32 (v * 64 + d)) 6 out cap.
Proof. intros. by rewrite b64_loop_digit. Qed.

Lemma digit_next d s v bits out cap :
  0 <= d < 64 -> 0 <= v -> 2 <= bits -> (length out < cap)%nat ->
  b64_loop (b64_char d :: s) v bits out cap =
    let v := u32 (v * 64 + d) in
    b64_loop s v (bits - 2) (out ++ [v / 2 ^ (bits - 2) mod 256]) cap.
Proof.
  intros. rewrite b64_loop_digit by done. cbv zeta.
  rewrite (proj2 (Z.leb_le _ _)) by lia. by rewrite (proj2 (Nat.leb_gt _ _)) by lia.
Qed.

Lemma quad_digits a b c :
  is_byte a -> is_byte b -> is_byte c ->
  let V := a * 65536 + b * 256 + c in
  let d0 := V / 2 ^ 18 mod 64 in let d1 := V / 2 ^ 12 mod 64 in
  let d2 := V / 2 ^ 6 mod 64 in let d3 := V mod 64 in
  (d0 * 64 + d1) / 16 = a /\ (d1 * 64 + d2) / 4 mod 256 = b /\ (d2 * 64 + d3) mod 256 = c /\
  0 <= d0 < 64 /\ 0 <= d1 < 64 /\ 0 <= d2 < 64 /\ 0 <= d3 < 64.
Proof. unfold is_byte. intros. lia. Qed.

(** A whole group of digits. *)
Lemma decode_digits d0 d1 d2 d3 s v out cap :
  0 <= d0 < 64 -> 0 <= d1 < 64 -> 0 <= d2 < 64 -> 0 <= d3 < 64 ->
  0 <= v -> (length out + 3 <= cap)%nat ->
  exists v', 0 <= v' /\
    b64_loop (b64_char d0 :: b64_char d1 :: b64_char d2 :: b64_char d3 :: s) v 0 out cap =
      b64_loop s v' 0
        (out ++ [(d0 * 64 + d1) / 16; (d1 * 64 + d2) / 4 mod 256; (d2 * 64 + d3) mod 256]) cap.
Proof.
  intros H0 H1 H2 H3 Hv Hcap. rewrite digit_first by done.
  pose proof (two_digits v d0 d1 H0 H1) as T1.
  set (v1 := u32 (v * 64 + d0)) in *.
  rewrite digit_next by (apply u32_nonneg || lia). cbv zeta.
  pose proof (two_digits v1 d1 d2 H1 H2) as T2.
  set (v2 := u32 (v1 * 64 + d1)) in *.
  rewrite digit_next by (apply u32_nonneg || (autorewrite with tny; simpl; lia)). cbv zeta.
  pose proof (two_digits v2 d2 d3 H2 H3) as T3.
  set (v3 := u32 (v2 * 64 + d2)) in *.
  rewrite digit_next by (apply u32_nonneg || (autorewrite with tny; simpl; lia)). cbv zeta.
  exists (u32 (v3 * 64 + d3)). split; [apply u32_nonneg|].
  change (6 - 2 - 2 - 2) with 0. change (6 - 2 - 2) with 2. change (6 - 2) with 4.
  rewrite <- !app_assoc. cbn [app]. clearbody v1 v2 v3.
  assert (v2 / 2 ^ 4 mod 256 = (d0 * 64 + d1) / 16) as -> by lia.
  assert (v3 / 2 ^ 2 mod 256 = (d1 * 64 + d2) / 4 mod 256) as -> by lia.
  assert (u32 (v3 * 64 + d3) / 2 ^ 0 mod 256 = (d2 * 64 + d3) mod 256) as -> by lia.
  done.
Qed.

Lemma decode_quad a b c s v out cap :
  is_byte a -> is_byte b -> is_byte c -> 0 <= v -> (length out + 3 <= cap)%nat ->
  exists v', 0 <= v' /\
    b64_loop (b64_quad a (Some b) (Some c) ++ s) v 0 out cap =
      b64_loop s v' 0 (out ++ [a; b; c]) cap.
Proof.
  intros Ha Hb Hc Hv Hcap. unfold b64_quad. rewrite pack24 by done.
  rewrite !digit6, land_63 by lia. cbn [app].
  destruct (quad_digits a b c Ha Hb Hc) as (E0 & E1 & E2 & H0 & H1 & H2 & H3).
  destruct (decode_digits _ _ _ _ s v out cap H0 H1 H2 H3 Hv Hcap) as (v' & ? & E).
  exists v'. split; [done|]. by rewrite E, E0, E1, E2.
Qed.

(** The last group, padded with '=': its digits alone deliver its bytes. *)
Lemma decode_digits2 d0 d1 s v out cap :
  0 <= d0 < 64 -> 0 <= d1 < 64 -> 0 <= v -> (length out + 1 <= cap)%nat ->
  exists v', 0 <= v' /\
    b64_loop (b64_char d0 :: b64_char d1 :: s) v 0 out cap =
      b64_loop s v' 4 (out ++ [(d0 * 64 + d1) / 16]) cap.
Proof.
  intros H0 H1 Hv Hcap. rewrite digit_first by done.
  pose proof (two_digits v d0 d1 H0 H1) as T1. set (v1 := u32 (v * 64 + d0)) in *.
  rewrite digit_next by (apply u32_nonneg || lia). cbv zeta.
  exists (u32 (v1 * 64 + d1)). split; [apply u32_nonneg|].
  change (6 - 2) with 4. do 3 f_equal. lia.
Qed.

Lemma decode_digits3 d0 d1 d2 s v out cap :
  0 <= d0 < 64 -> 0 <= d1 < 64 -> 0 <= d2 < 64 -> 0 <= v -> (length out + 2 <= cap)%nat ->
  exists v', 0 <= v' /\
    b64_loop (b64_char d0 :: b64_char d1 :: b64_char d2 :: s) v 0 out cap =
      b64_loop s v' 2 (out ++ [(d0 * 64 + d1) / 16; (d1 * 64 + d2) / 4 mod 256]) cap.
Proof.
  intros H0 H1 H2 Hv Hcap. rewrite digit_first by done.
  pose proof (two_digits v d0 d1 H0 H1) as T1. set (v1 := u32 (v * 64 + d0)) in *.
  rewrite digit_next by (apply u32_nonneg || lia). cbv zeta.
  pose proof (two_digits v1 d1 d2 H1 H2) as T2. set (v2 := u32 (v1 * 64 + d1)) in *.
  rewrite digit_next by (apply u32_nonneg || (autorewrite with tny; simpl; lia)). cbv zeta.
  exists (u32 (v2 * 64 + d2)). split; [apply u32_nonneg|].
  change (6 - 2 - 2) with 2. change (6 - 2) with 4. rewrite <- !app_assoc. cbn [app].
  assert (v2 / 2 ^ 4 mod 256 = (d0 * 64 + d1) / 16) as -> by lia.
  assert (u32 (v2 * 64 + d2) / 2 ^ 2 mod 256 = (d1 * 64 + d2) / 4 mod 256) as -> by lia.
  done.
Qed.

Lemma b64_ind (P : bytes -> Prop) :
  P [] -> (forall a, P [a]) -> (forall a b, P [a; b]) ->
  (forall a b c s, P s -> P (a :: b :: c :: s)) -> forall s, P s.
Proof.
  intros P0 P1 P2 P3. fix IH 1. intros [|a [|b [|c s]]];
    [exact P0 | apply P1 | apply P2 | apply P3, IH].
Qed.

(** The digits of a group of one and of two bytes. *)
Lemma quad1_digits a :
  is_byte a -> exists d0 d1, 0 <= d0 < 64 /\ 0 <= d1 < 64 /\ (d0 * 64 + d1) / 16 = a /\
    b64_quad a None None = [b64_char d0; b64_char d1; C"="; C"="].
Proof.
  unfold is_byte. intros Ha. unfold b64_quad. rewrite !digit6 by lia.
  eexists _, _. split_and!; [..|done]; rewrite ?Z.shiftl_mul_pow2 by lia; lia.
Qed.

Lemma quad2_digits a b :
  is_byte a -> is_byte b ->
  exists d0 d1 d2, 0 <= d0 < 64 /\ 0 <= d1 < 64 /\ 0 <= d2 < 64 /\
    (d0 * 64 + d1) / 16 = a /\ (d1 * 64 + d2) / 4 mod 256 = b /\
    b64_quad a (Some b) None = [b64_char d0; b64_char d1; b64_char d2; C"="].
Proof.
  intros Ha Hb. unfold b64_quad. rewrite pack24_2 by done. rewrite !digit6 by lia.
  unfold is_byte in *. eexists _, _, _. split_and!; [..|done]; lia.
Qed.

Lemma b64_loop_encode s v out cap :
  Forall is_byte s -> 0 <= v -> (length out + length s <= cap)%nat ->
  b64_loop (b64_encode s) v 0 out cap = Some (out ++ s).
Proof.
  revert v out. induction s as [|a|a b|a b c s IH] using b64_ind; intros v out Hs Hv Hcap;
    cbn [b64_encode length] in *; rewrite ?Forall_cons_iff in Hs.
  - by rewrite app_nil_r.
  - destruct (quad1_digits a) as (d0 & d1 & ? & ? & E & ->); [naive_solver|].
    edestruct (decode_digits2 d0 d1) as (v' & ? & ->); [..|by rewrite E]; lia || done.
  - destruct (quad2_digits a b) as (d0 & d1 & d2 & ? & ? & ? & E1 & E2 & ->); [naive_solver..|].
    edestruct (decode_digits3 d0 d1 d2) as (v' & ? & ->); [..|by rewrite E1, E2]; lia || done.
  - destruct Hs as (Ha & Hb & Hc & Hs).
    destruct (decode_quad a b c (b64_encode s) v out cap) as (v' & ? & ->); [done..|lia|].
    rewrite IH; [by rewrite <- app_assoc|done..|]. autorewrite with tny. simpl. lia.
Qed.

(** Decoding what the encoder produced gives the bytes back, for every
    length (so for both kinds of padding), whenever the destination has room. *)
Theorem b64_roundtrip s cap :
  Forall is_byte s -> (length s <= cap)%nat -> b64_decode (b64_encode s) cap = s.
Proof. intros. unfold b64_decode. by rewrite b64_loop_encode. Qed.

Example b64_roundtrip_witness :
  b64_encode (B"hi" ++ [0; 255]) = B"aGkA/w==" /\
  b64_decode (b64_encode (B"hi" ++ [0; 255])) 4 = B"hi" ++ [0; 255].
Proof.
  split; [vm_compute; reflexivity|].
  apply b64_roundtrip; [repeat constructor; unfold is_byte; simpl; lia | simpl; lia].
Defined.

(** ** URL-safe base64 *)

(** The characters the encoder emits besides the padding. *)
Definition b64_digit_char (c : Z) : Prop := exists d, 0 <= d < 64 /\ c = b64_char d.

Lemma b64_encode_shape s :
  Forall is_byte s ->
  exists body pad, b64_encode s = body ++ pad /\ Forall b64_digit_char body /\
    (pad = [] \/ pad = B"=" \/ pad = B"==").
Proof.
  assert (D : forall d, 0 <= d < 64 -> b64_digit_char (b64_char d)) by (intros d ?; by exists d).
  induction s as [|a|a b|a b c s IH] using b64_ind; intros Hs; cbn [b64_encode];
    rewrite ?Forall_cons_iff in Hs.
  - exists [], []. auto.
  - destruct (quad1_digits a) as (d0 & d1 & ? & ? & _ & ->); [naive_solver|].
    exists [b64_char d0; b64_char d1], B"==". auto 10 using Forall_cons, Forall_nil.
  - destruct (quad2_digits a b) as (d0 & d1 & d2 & ? & ? & ? & _ & _ & ->); [naive_solver..|].
    exists [b64_char d0; b64_char d1; b64_char d2], B"=". auto 10 using Forall_cons, Forall_nil.
  - destruct Hs as (Ha & Hb & Hc & Hs). destruct (IH Hs) as (body & pad & -> & Hbody & Hpad).
    unfold b64_quad. rewrite pack24, !digit6, land_63 by (done || lia).
    destruct (quad_digits a b c Ha Hb Hc) as (_ & _ & _ & H0 & H1 & H2 & H3).
    eexists (_ :: _ :: _ :: _ :: body), pad. split; [done|]. auto 10 using Forall_cons.
Qed.

(** The inverse translation of a consumer that knows only the standard
    alphabet, one character. *)
Definition url_to_std (c : Z) : Z :=
  if c =? C"-" then C"+" else if c =? C"_" then C"/" else c.

Lemma url_alphabet_step d :
  0 <= d < 64 ->
  exists c, (forall s, url_alphabet (b64_char d :: s) = c :: url_alphabet s) /\
    url_to_std c = b64_char d /\ c <> C"." /\ c <> NUL /\ c <> C"=".
Proof.
  intros Hd. set (c := b64_char d).
  exists (if c =? C"+" then C"-" else if c =? C"/" then C"_" else c).
  assert (E : (64 <=? d) || (let c := b64_char d in
    negb (c =? C"-") && negb (c =? C"_") && negb (c =? C".") && negb (c =? NUL) &&
    negb (c =? C"=")) = true).
  { assert (is_byte d) as H by (unfold is_byte; lia). clear Hd c. revert d H. by_all_bytes. }
  cbv zeta in E. fold c in E. apply orb_true_iff in E as [?|E]; [lia|]. boolify.
  split_and!; [intros s; cbn [url_alphabet]; fold c|unfold url_to_std|..];
    repeat case_if; try (done || lia).
Qed.

Lemma url_alphabet_body body pad :
  Forall b64_digit_char body -> pad = [] \/ pad = B"=" \/ pad = B"==" ->
  map url_to_std (url_alphabet (body ++ pad)) = body /\
  Forall (fun c => c <> C"." /\ c <> NUL /\ c <> C"=") (url_alphabet (body ++ pad)).
Proof.
  intros Hb Hpad. induction Hb as [|c body (d & Hd & ->) Hb [IH1 IH2]].
  - destruct Hpad as [->|[->| ->]]; split; try done; constructor.
  - destruct (url_alphabet_step d Hd) as (c & E & Ec & Hc). cbn [app]. rewrite E.
    cbn [map]. rewrite Ec, IH1. auto.
Qed.

Lemma b64_loop_stop body pad v bits out cap :
  pad = [] \/ pad = B"=" \/ pad = B"==" ->
  b64_loop (body ++ pad) v bits out cap = b64_loop body v bits out cap.
Proof.
  intros Hpad. revert v bits out. induction body as [|c body IH]; intros v bits out.
  - by destruct Hpad as [->|[->| ->]].
  - cbn [app b64_loop]. cbv zeta. repeat (case_if; try done).
Qed.

(** Dropping the padding and changing the alphabet loses nothing. *)
Lemma b64url_decodes s cap :
  Forall is_byte s -> (length s <= cap)%nat ->
  b64_decode (map url_to_std (b64url_encode s)) cap = s.
Proof.
  intros Hs Hcap. destruct (b64_encode_shape s Hs) as (body & pad & E & Hb & Hpad).
  unfold b64url_encode. rewrite E. destruct (url_alphabet_body body pad Hb Hpad) as [-> _].
  unfold b64_decode. rewrite <- (b64_loop_stop body pad) by done.
  rewrite <- E. by rewrite b64_loop_encode.
Qed.

Lemma b64url_chars s :
  Forall is_byte s -> Forall (fun c => c <> C"." /\ c <> NUL /\ c <> C"=") (b64url_encode s).
Proof.
  intros Hs. destruct (b64_encode_shape s Hs) as (body & pad & E & Hb & Hpad).
  unfold b64url_encode. rewrite E. by apply url_alphabet_body.
Qed.

Lemma b64_encode_length s : (length s <= length (b64_encode s))%nat.
Proof. induction s using b64_ind; cbn in *; lia. Qed.

(** The unpadded text is at most two characters shorter. *)
Lemma b64url_length s : Forall is_byte s -> (length s <= length (b64url_encode s) + 2)%nat.
Proof.
  intros Hs. pose proof (b64_encode_length s) as L.
  destruct (b64_encode_shape s Hs) as (body & pad & E & Hb & Hpad).
  unfold b64url_encode. rewrite E in *. destruct (url_alphabet_body body pad Hb Hpad) as [E' _].
  apply (f_equal length) in E'. rewrite length_map in E'. rewrite E'.
  rewrite length_app in L. destruct Hpad as [->|[->| ->]]; cbn in L; lia.
Qed.

(** ** Form bodies against a reference decoder *)

(** Percent-decoding as the receiver of a form does it. *)
Definition hex_value (c : Z) : option Z :=
  if is_digit c then Some (c - C"0")
  else if (C"A" <=? c) && (c <=? C"F") then Some (c - C"A" + 10)
  else if (C"a" <=? c) && (c <=? C"f") then Some (c - C"a" + 10)
  else None.

Fixpoint percent_decode (s : bytes) : bytes :=
  match s with
  | [] => []
  | c :: t =>
    if c =? C"+" then C" " :: percent_decode t
    else match t with
         | h :: l :: t' =>
           match hex_value h, hex_value l with
           | Some x, Some y =>
             if c =? C"%" then (x * 16 + y) :: percent_decode t' else c :: percent_decode t
           | _, _ => c :: percent_decode t
           end
         | _ => c :: percent_decode t
         end
  end.

(** Pairs are separated by '&', a key ends at its first '='. *)
Fixpoint split_at (sep : Z) (s : bytes) : bytes * option bytes :=
  match s with
  | [] => ([], None)
  | c :: s =>
    if c =? sep then ([], Some s)
    else let '(a, r) := split_at sep s in (c :: a, r)
  end.

Fixpoint form_parse (fuel : nat) (s : bytes) : list (bytes * bytes) :=
  match fuel with
  | O => []
  | S fuel =>
    let '(field, rest) := split_at C"&" s in
    let '(k, v) := split_at C"=" field in
    (k, percent_decode (default [] v)) ::
      match rest with Some rest => form_parse fuel rest | None => [] end
  end.

(** Keys are written as they are, so callers use plain ones. *)
Definition plain_key (k : bytes) : Prop := Forall (fun c => form_safe c = true) k.

Definition form_body (pairs : list (bytes * bytes)) : bytes :=
  fold_left (fun b '(k, v) => url_form_append b k v) pairs [].

Lemma percent_decode_safe c t :
  is_byte c -> form_safe c = true -> percent_decode (c :: t) = c :: percent_decode t.
Proof.
  intros Hc Hs.
  assert (c <> C"+" /\ c <> C"%") as [H1 H2] by (split; intros ->; done).
  apply Z.eqb_neq in H1, H2. cbn [percent_decode]. rewrite H1, H2.
  destruct t as [|? [|? ?]]; [done..|]. by repeat case_match.
Qed.

Lemma hex_value_upper c :
  is_byte c ->
  hex_value (hex_upper (c / 16)) = Some (c / 16) /\
  hex_value (hex_upper (c mod 16)) = Some (c mod 16).
Proof.
  intros Hc. enough (bool_decide (hex_value (hex_upper (c / 16)) = Some (c / 16) /\
    hex_value (hex_upper (c mod 16)) = Some (c mod 16)) = true) by by eapply bool_decide_eq_true.
  revert c Hc. by_all_bytes.
Qed.

Lemma percent_decode_byte c t :
  is_byte c -> percent_decode (form_byte c ++ t) = c :: percent_decode t.
Proof.
  intros Hc. unfold form_byte. case_if; [by apply percent_decode_safe|].
  destruct (hex_value_upper c Hc) as [E1 E2]. cbn [app percent_decode].
  rewrite E1, E2. change (C"%" =? C"+") with false. rewrite Z.eqb_refl. f_equal. lia.
Qed.

Lemma percent_decode_bytes v :
  Forall is_byte v -> percent_decode (concat (map form_byte v)) = v.
Proof.
  induction 1 as [|c v Hc _ IH]; [done|]. cbn [map concat].
  by rewrite percent_decode_byte, IH.
Qed.

(** Neither separator survives in an escaped value. *)
Lemma form_byte_no_sep c :
  is_byte c -> forallb (fun x => negb (x =? C"&") && negb (x =? C"=")) (form_byte c) = true.
Proof. revert c. by_all_bytes. Qed.

Lemma form_value_no_sep v :
  Forall is_byte v -> Forall (fun x => x <> C"&" /\ x <> C"=") (concat (map form_byte v)).
Proof.
  induction 1 as [|c v Hc _ IH]; [constructor|]. cbn [map concat]. apply Forall_app. split; [|done].
  pose proof (form_byte_no_sep c Hc) as H. rewrite forallb_forall in H.
  apply Forall_forall. intros x Hx%H. boolify. lia.
Qed.

Lemma split_at_none sep s : Forall (fun x => x <> sep) s -> split_at sep s = (s, None).
Proof.
  induction 1 as [|c s Hc _ IH]; [done|]. cbn. apply Z.eqb_neq in Hc. by rewrite Hc, IH.
Qed.

Lemma split_at_some sep s t :
  Forall (fun x => x <> sep) s -> split_at sep (s ++ sep :: t) = (s, Some t).
Proof.
  induction 1 as [|c s Hc _ IH]; [by simpl; rewrite Z.eqb_refl|].
  cbn. apply Z.eqb_neq in Hc. by rewrite Hc, IH.
Qed.

Lemma plain_key_no_sep k :
  plain_key k -> Forall (fun x => x <> C"&" /\ x <> C"=") k.
Proof. apply Forall_impl. intros c H. split; intros ->; done. Qed.

(** One field of the body. *)
Definition form_field (p : bytes * bytes) : bytes :=
  p.1 ++ C"=" :: concat (map form_byte p.2).

Definition good_pair (p : bytes * bytes) : Prop := plain_key p.1 /\ Forall is_byte p.2.

Lemma form_field_no_amp p : good_pair p -> Forall (fun x => x <> C"&") (form_field p).
Proof.
  intros [Hk Hv]. unfold form_field. apply Forall_app. split.
  - eapply Forall_impl; [|by apply plain_key_no_sep]. naive_solver.
  - constructor; [done|]. eapply Forall_impl; [|by apply form_value_no_sep]. naive_solver.
Qed.

Lemma form_field_split p :
  good_pair p ->
  split_at C"=" (form_field p) = (p.1, Some (concat (map form_byte p.2))).
Proof.
  intros [Hk Hv]. apply split_at_some.
  eapply Forall_impl; [|by apply plain_key_no_sep]. naive_solver.
Qed.

(** What the accumulated body is: the fields joined by '&'. *)
Fixpoint join_amp (fs : list bytes) : bytes :=
  match fs with
  | [] => []
  | [f] => f
  | f :: fs => f ++ C"&" :: join_amp fs
  end.

Lemma form_body_fold b pairs :
  b <> [] ->
  fold_left (fun b '(k, v) => url_form_append b k v) pairs b =
  join_amp (b :: map form_field pairs).
Proof.
  revert b. induction pairs as [|[k v] pairs IH]; intros b Hb; [done|].
  cbn [fold_left]. unfold url_form_append at 2.
  destruct (0 <? length b)%nat eqn:E; [|destruct b; simpl in E; done].
  rewrite IH by (destruct b; done).
  change (map form_field ((k, v) :: pairs)) with (form_field (k, v) :: map form_field pairs).
  change (join_amp (b :: form_field (k, v) :: map form_field pairs))
    with (b ++ C"&" :: join_amp (form_field (k, v) :: map form_field pairs)).
  unfold form_field at 2. generalize (map form_field pairs) as fs.
  intros [|f fs]; cbn [join_amp fst snd app];
    repeat (rewrite <- ?app_assoc; cbn [app]); done.
Qed.

Lemma form_body_join pairs : form_body pairs = join_amp (map form_field pairs).
Proof.
  unfold form_body. destruct pairs as [|[k v] pairs]; [done|]. cbn [fold_left].
  rewrite form_body_fold by (unfold url_form_append; by destruct k). done.
Qed.

Lemma form_parse_join pairs fuel :
  pairs <> [] -> Forall good_pair pairs -> (length pairs <= fuel)%nat ->
  form_parse fuel (join_amp (map form_field pairs)) = pairs.
Proof.
  revert fuel. induction pairs as [|[k v] pairs IH]; intros [|fuel] Hne Hp Hf;
    try (done || (simpl in Hf; lia)).
  rewrite Forall_cons_iff in Hp. destruct Hp as [Hp Hps]. cbn [form_parse].
  destruct pairs as [|q pairs].
  - cbn [map join_amp]. rewrite split_at_none by by apply form_field_no_amp.
    rewrite form_field_split by done. cbn. by rewrite percent_decode_bytes by apply Hp.
  - cbn [map]. change (join_amp (form_field (k, v) :: form_field q :: map form_field pairs))
      with (form_field (k, v) ++ C"&" :: join_amp (map form_field (q :: pairs))).
    rewrite split_at_some by by apply form_field_no_amp.
    rewrite form_field_split by done. cbn.
    rewrite percent_decode_bytes by apply Hp. f_equal. apply IH; [done..|]. simpl in *. lia.
Qed.

(** the body built by one [url_form_append] per pair is read back, by a
    standard form decoder, as exactly those pairs: no value, whatever bytes it
    holds, can add, split or alter a field. *)
Theorem url_form_roundtrip pairs :
  pairs <> [] -> Forall good_pair pairs ->
  form_parse (length pairs) (form_body pairs) = pairs.
Proof. intros. rewrite form_body_join. by apply form_parse_join. Qed.

Example url_form_roundtrip_witness :
  let ps := [(B"grant_type", B"refresh&x=1"); (B"code", B"a b%+" ++ [255])] in
  form_body ps = B"grant_type=refresh%26x%3D1&code=a%20b%25%2B%FF" /\
  form_parse 2 (form_body ps) = ps.
Proof.
  intros ps. split; [vm_compute; reflexivity|].
  apply (url_form_roundtrip ps); [discriminate|].
  repeat constructor; vm_compute; congruence.
Defined.
