(* ===== verification/Calendar.v ===== *)
(** [iso8601_to_epoch] of src/src/util/util.c: the scan of the timestamp, and
    the day count of the civil calendar. *)
From S2P Require Import Prelude.

Open Scope Z_scope.

(** ** The scanner *)

(** Signed [int] arithmetic: a value that does not fit is undefined behaviour,
    shown as [None]. *)
Definition INT_MAX : Z := 2147483647.
Definition in_int (x : Z) : bool := (- INT_MAX - 1 <=? x) && (x <=? INT_MAX).
Definition int_op (x : Z) : option Z := if in_int x then Some x else None.

Fixpoint scan_space (s : bytes) : bytes :=
  match s with
  | c :: t => if is_space c then scan_space t else s
  | [] => []
  end.

Fixpoint scan_digits (acc : Z) (s : bytes) : Z * bytes :=
  match s with
  | c :: t => if is_digit c then scan_digits (acc * 10 + (c - C"0")) t else (acc, s)
  | [] => (acc, [])
  end.

(** [%d] of sscanf: white space, a sign, at least one digit. *)
Definition scan_int (s : bytes) : option (Z * bytes) :=
  let s := scan_space s in
  let '(neg, s) := match s with
                   | c :: t => if c =? C"-" then (true, t)
                               else if c =? C"+" then (false, t) else (false, s)
                   | [] => (false, [])
                   end in
  if is_digit (cur s) then
    let '(n, s) := scan_digits 0 s in Some (if neg then - n else n, s)
  else None.

(** A literal character of the format. *)
Definition scan_lit (c : Z) (s : bytes) : option bytes :=
  match s with
  | x :: t => if x =? c then Some t else None
  | [] => None
  end.

(** [sscanf(s, "%d-%d-%dT%d:%d:%d", ...)]: the six numbers if all were
    converted. *)
Definition scan_timestamp (s : bytes) : option (Z * Z * Z * Z * Z * Z) :=
  '(y, s) ← scan_int s; s ← scan_lit (C"-") s;
  '(mo, s) ← scan_int s; s ← scan_lit (C"-") s;
  '(d, s) ← scan_int s; s ← scan_lit (C"T") s;
  '(h, s) ← scan_int s; s ← scan_lit (C":") s;
  '(mi, s) ← scan_int s; s ← scan_lit (C":") s;
  '(sec, _) ← scan_int s;
  Some (y, mo, d, h, mi, sec).

(** ** The day count *)

(** The body after the scan: [int] operations are checked, [int64_t] ones
    cannot overflow on [int] inputs; [/] truncates. *)
Definition civil_epoch (y mo d h mi sec : Z) : option Z :=
  yy ← int_op (y - (if mo <? 2 then 1 else 0));
  let era := Z.quot (if 0 <=? yy then yy else yy - 399) 400 in
  let yoe := yy - era * 400 in
  m ← int_op (mo + (if 2 <? mo then -3 else 9));
  m ← int_op (153 * m);
  m ← int_op (m + 2);
  doy ← int_op (Z.quot m 5 + d);
  doy ← int_op (doy - 1);
  let doe := yoe * 365 + Z.quot yoe 4 - Z.quot yoe 100 + doy in
  let days := era * 146097 + doe - 719468 in
  hs ← int_op (h * 3600);
  ms ← int_op (mi * 60);
  Some (days * 86400 + hs + ms + sec).

(** [None] is undefined behaviour: a number that does not fit an [int], in the
    text or on the way. *)
Definition iso8601_to_epoch (s : option bytes) : option Z :=
  match s with
  | None => Some (-1)
  | Some s =>
    match scan_timestamp s with
    | None => Some (-1)
    | Some (y, mo, d, h, mi, sec) =>
      if forallb in_int [y; mo; d; h; mi; sec] then civil_epoch y mo d h mi sec else None
    end
  end.

(** ** The reference calendar *)

(** Leap days in the years before [y]; days in the months before [mo]. *)
Definition leaps_before (y : Z) : Z := (y - 1) / 4 - (y - 1) / 100 + (y - 1) / 400.
Definition leap (y : Z) : bool :=
  (y mod 4 =? 0) && (negb (y mod 100 =? 0) || (y mod 400 =? 0)).
Definition month_days (y mo : Z) : Z :=
  if mo =? 2 then (if leap y then 29 else 28)
  else if (mo =? 4) || (mo =? 6) || (mo =? 9) || (mo =? 11) then 30 else 31.
Definition days_in_months (y : Z) (mo : nat) : Z :=
  foldr Z.add 0 (map (fun k => month_days y (Z.of_nat k)) (seq 1 (mo - 1))).

(** Days from 1970-01-01 to the given day. *)
Definition days_from_civil (y mo d : Z) : Z :=
  365 * (y - 1970) + (leaps_before y - leaps_before 1970) +
  days_in_months y (Z.to_nat mo) + (d - 1).

Definition epoch_of (y mo d h mi sec : Z) : Z :=
  days_from_civil y mo d * 86400 + h * 3600 + mi * 60 + sec.

(** The text of a timestamp. *)
Definition dec2 (n : Z) : bytes := [C"0" + n / 10; C"0" + n mod 10].
Definition dec4 (n : Z) : bytes := dec2 (n / 100) ++ dec2 (n mod 100).
Definition iso_text (y mo d h mi sec : Z) (rest : bytes) : bytes :=
  dec4 y ++ C"-" :: dec2 mo ++ C"-" :: dec2 d ++ C"T" :: dec2 h ++ C":" ::
  dec2 mi ++ C":" :: dec2 sec ++ rest.

(** The fields of a date and time of years 0 to 9999. *)
Definition valid_time (y mo d h mi sec : Z) : Prop :=
  0 <= y <= 9999 /\ 1 <= mo <= 12 /\ 1 <= d <= month_days y mo /\
  0 <= h <= 23 /\ 0 <= mi <= 59 /\ 0 <= sec <= 60.

(** ** Lemmas *)

Lemma digit_char n : 0 <= n <= 9 -> is_digit (C"0" + n) = true /\ is_space (C"0" + n) = false.
Proof. unfold is_digit, is_space. lia. Qed.

Lemma scan_digits_dec2 acc n s :
  0 <= n <= 99 -> scan_digits acc (dec2 n ++ s) = scan_digits (acc * 100 + n) s.
Proof.
  intros Hn. unfold dec2. cbn [app scan_digits].
  rewrite (proj1 (digit_char (n / 10) ltac:(lia))), (proj1 (digit_char (n mod 10) ltac:(lia))).
  f_equal. lia.
Qed.

(** A scan that ends at a separator. *)
Lemma scan_digits_stop acc s : is_digit (cur s) = false -> scan_digits acc s = (acc, s).
Proof. destruct s as [|c s]; [done|]. cbn. by intros ->. Qed.

Lemma scan_int_start n s :
  0 <= n <= 99 ->
  scan_int (dec2 n ++ s) = let '(v, s) := scan_digits 0 (dec2 n ++ s) in Some (v, s).
Proof.
  intros Hn. destruct (digit_char (n / 10) ltac:(lia)) as [Hd Hs].
  assert (scan_space (dec2 n ++ s) = dec2 n ++ s) as E by (cbn; by rewrite Hs).
  unfold scan_int. rewrite E. cbv zeta. unfold dec2 at 1. cbn [app].
  rewrite (proj2 (Z.eqb_neq _ (C"-"))), (proj2 (Z.eqb_neq _ (C"+"))) by lia.
  change (cur (dec2 n ++ s)) with (C"0" + n / 10). by rewrite Hd.
Qed.

Lemma scan_int_dec2 n s :
  0 <= n <= 99 -> is_digit (cur s) = false -> scan_int (dec2 n ++ s) = Some (n, s).
Proof.
  intros. rewrite scan_int_start, scan_digits_dec2, scan_digits_stop by done. done.
Qed.

Lemma scan_int_dec4 n s :
  0 <= n <= 9999 -> is_digit (cur s) = false -> scan_int (dec4 n ++ s) = Some (n, s).
Proof.
  intros. unfold dec4. rewrite <- app_assoc, scan_int_start, !scan_digits_dec2 by lia.
  rewrite scan_digits_stop by done. do 2 f_equal. lia.
Qed.

Lemma scan_lit_eq c s : scan_lit c (c :: s) = Some s.
Proof. cbn. by rewrite Z.eqb_refl. Qed.

Lemma scan_timestamp_text y mo d h mi sec rest :
  valid_time y mo d h mi sec -> is_digit (cur rest) = false ->
  scan_timestamp (iso_text y mo d h mi sec rest) = Some (y, mo, d, h, mi, sec).
Proof.
  intros (Hy & Hmo & Hd & Hh & Hmi & Hs) Hr.
  assert (d <= 31) by (unfold month_days in Hd; repeat case_if; lia).
  unfold scan_timestamp, iso_text.
  rewrite scan_int_dec4 by done. cbn [mbind option_bind]. rewrite scan_lit_eq.
  do 4 (cbn [mbind option_bind]; rewrite scan_int_dec2 by (lia || done);
        cbn [mbind option_bind]; rewrite scan_lit_eq).
  cbn [mbind option_bind]. by rewrite scan_int_dec2 by (lia || done).
Qed.

Lemma int_op_ok x : - INT_MAX - 1 <= x <= INT_MAX -> int_op x = Some x.
Proof.
  intros. unfold int_op, in_int.
  by rewrite (proj2 (Z.leb_le _ _)), (proj2 (Z.leb_le _ _)) by lia.
Qed.

(** The year of the algorithm starts in March: its day number [doy], and the
    days of the years before it. *)
Lemma era_days yy :
  let era := Z.quot (if 0 <=? yy then yy else yy - 399) 400 in
  let yoe := yy - era * 400 in
  yoe * 365 + Z.quot yoe 4 - Z.quot yoe 100 + era * 146097 =
  yy * 365 + yy / 4 - yy / 100 + yy / 400.
Proof. cbv zeta. case_if; lia. Qed.

Lemma civil_epoch_spec y mo d h mi sec :
  -1000000 <= y <= 1000000 -> 1 <= mo <= 12 -> 1 <= d <= 31 -> 0 <= h <= 23 ->
  0 <= mi <= 59 ->
  let yy := y - (if mo <? 2 then 1 else 0) in
  let doy := Z.quot (153 * (mo + (if 2 <? mo then -3 else 9)) + 2) 5 + d - 1 in
  civil_epoch y mo d h mi sec =
    Some ((yy * 365 + yy / 4 - yy / 100 + yy / 400 + doy - 719468) * 86400 +
          h * 3600 + mi * 60 + sec).
Proof.
  intros Hy Hmo Hd Hh Hmi yy doy. unfold civil_epoch.
  rewrite (int_op_ok (y - _)) by (unfold INT_MAX; case_if; lia). cbn [mbind option_bind].
  fold yy. pose proof (era_days yy) as E. cbv zeta in E |- *.
  set (era := Z.quot _ 400) in *. clearbody era.
  rewrite (int_op_ok (mo + _)) by (unfold INT_MAX; case_if; lia). cbn [mbind option_bind].
  assert (0 <= mo + (if 2 <? mo then -3 else 9) <= 11) as Hm by (case_if; lia).
  subst doy. set (m := mo + _) in *. clearbody m.
  rewrite (int_op_ok (153 * m)) by (unfold INT_MAX; lia). cbn [mbind option_bind].
  rewrite (int_op_ok (153 * m + 2)) by (unfold INT_MAX; lia). cbn [mbind option_bind].
  rewrite (int_op_ok (Z.quot _ 5 + d)) by (unfold INT_MAX; lia). cbn [mbind option_bind].
  rewrite !int_op_ok by (unfold INT_MAX; lia). cbn [mbind option_bind].
  do 2 f_equal. lia.
Qed.

Ltac month_case :=
  unfold days_in_months; cbn [seq map foldr Nat.sub]; unfold month_days, leap;
  repeat match goal with
  | |- context [Z.of_nat ?n] =>
    let v := eval vm_compute in (Z.of_nat n) in change (Z.of_nat n) with v
  end;
  cbn [Z.eqb Z.ltb Z.compare Pos.eqb Pos.compare Pos.compare_cont orb];
  repeat case_if; lia.

(** The two counts agree, the months one by one; a day of February is counted
    in the year that follows. *)
Lemma march_year_days y mo d :
  1 <= mo <= 12 ->
  let yy := y - (if mo <? 2 then 1 else 0) in
  let doy := Z.quot (153 * (mo + (if 2 <? mo then -3 else 9)) + 2) 5 + d - 1 in
  yy * 365 + yy / 4 - yy / 100 + yy / 400 + doy - 719468 =
  days_from_civil (if mo =? 2 then y + 1 else y) mo d.
Proof.
  intros Hmo yy doy. subst yy doy. unfold days_from_civil, leaps_before.
  assert (exists k, mo = Z.of_nat k /\ In k (seq 1 12)) as (k & -> & Hk)
    by (exists (Z.to_nat mo); rewrite in_seq; lia).
  rewrite Nat2Z.id. clear Hmo.
  repeat (destruct Hk as [<-|Hk]; [month_case|]). destruct Hk.
Qed.

(** On the text of any date and time of years 0 to 9999, for months other
    than February, [iso8601_to_epoch] gives the seconds of the proleptic
    Gregorian calendar since 1970, whatever follows the seconds; in February
    it gives the same day of the February a year later. No [int] operation
    overflows on the way. *)
Theorem iso8601_to_epoch_spec y mo d h mi sec rest :
  valid_time y mo d h mi sec -> is_digit (cur rest) = false ->
  iso8601_to_epoch (Some (iso_text y mo d h mi sec rest)) =
    Some (epoch_of (if mo =? 2 then y + 1 else y) mo d h mi sec).
Proof.
  intros Hv Hr. unfold iso8601_to_epoch. rewrite scan_timestamp_text by done.
  destruct Hv as (Hy & Hmo & Hd & Hh & Hmi & Hs).
  assert (d <= 31) by (unfold month_days in Hd; repeat case_if; lia).
  rewrite (proj2 (forallb_forall in_int _))
    by (intros x Hx; unfold in_int, INT_MAX; simpl in Hx; lia).
  rewrite civil_epoch_spec by lia. by rewrite march_year_days by done.
Qed.

Example iso8601_to_epoch_spec_witness :
  iso_text 2024 3 1 12 30 5 B"Z" = B"2024-03-01T12:30:05Z" /\
  iso8601_to_epoch (Some (iso_text 2024 3 1 12 30 5 B"Z")) = Some 1709296205.
Proof.
  split; [vm_compute; reflexivity|].
  rewrite (iso8601_to_epoch_spec 2024 3 1 12 30 5 B"Z");
    [vm_compute; reflexivity | repeat split; vm_compute; congruence | reflexivity].
Defined.

(** Midnight of 28 February 2024 is 366 days too late. *)
Example february_is_a_year_late :
  iso8601_to_epoch (Some B"2024-02-28T00:00:00Z") = Some (epoch_of 2024 2 28 0 0 0 + 366 * 86400).
Proof. vm_compute. reflexivity. Qed.
