(* ===== verification/Digest.v ===== *)
(** The digests of src/src/util/util.c ([sha256], [sha1], [fnv1a]), as the C
    code computes them on its message and word arrays, against the definitions
    of FIPS 180-4. *)
From S2P Require Import Prelude Bits.

Open Scope Z_scope.

(** ** Shared pieces *)

(** The buffer length [total]; no addition overflows for a string in memory. *)
Definition sha_total (n : nat) : nat := ((n + 8) / 64 + 1) * 64.

(** [msg]: calloc, memcpy of the input, the marker bit and the 64-bit length
    stored backwards from the last byte. *)
Definition sha_message (s : bytes) : bytes :=
  let n := length s in
  let ml := u64 (Z.of_nat n * 8) in
  let total := sha_total n in
  let msg := s ++ drop n (replicate total NUL) in
  let msg := <[n := 128]> msg in
  fold_left (fun msg i =>
      <[(total - 1 - i)%nat := Z.land (Z.shiftr ml (8 * Z.of_nat i)) 255]> msg)
    (seq 0 8) msg.

(** The big-endian word at [msg + p]. *)
Definition be_word (msg : bytes) (p : nat) : Z :=
  Z.lor (Z.lor (Z.lor (Z.shiftl (nth p msg 0) 24) (Z.shiftl (nth (p + 1) msg 0) 16))
               (Z.shiftl (nth (p + 2) msg 0) 8))
        (nth (p + 3) msg 0).

Definition load_block (len : nat) (msg : bytes) (off : nat) : list Z :=
  fold_left (fun w i => <[i := be_word msg (off + 4 * i)]> w) (seq 0 16) (replicate len 0).

Definition store_words (h : list Z) : bytes :=
  concat (map (fun x => [Z.land (Z.shiftr x 24) 255; Z.land (Z.shiftr x 16) 255;
                         Z.land (Z.shiftr x 8) 255; Z.land x 255]) h).

Definition add32 (x y : Z) : Z := u32 (x + y).

(** ** SHA-256 *)

Definition ror (x : Z) (c : Z) : Z := Z.lor (Z.shiftr x c) (u32 (Z.shiftl x (32 - c))).

Definition K256 : list Z :=
  [1116352408; 1899447441; 3049323471; 3921009573; 961987163; 1508970993;
   2453635748; 2870763221; 3624381080; 310598401; 607225278; 1426881987;
   1925078388; 2162078206; 2614888103; 3248222580; 3835390401; 4022224774;
   264347078; 604807628; 770255983; 1249150122; 1555081692; 1996064986;
   2554220882; 2821834349; 2952996808; 3210313671; 3336571891; 3584528711;
   113926993; 338241895; 666307205; 773529912; 1294757372; 1396182291;
   1695183700; 1986661051; 2177026350; 2456956037; 2730485921; 2820302411;
   3259730800; 3345764771; 3516065817; 3600352804; 4094571909; 275423344;
   430227734; 506948616; 659060556; 883997877; 958139571; 1322822218;
   1537002063; 1747873779; 1955562222; 2024104815; 2227730452; 2361852424;
   2428436474; 2756734187; 3204031479; 3329325298].

Definition H256 : list Z := [1779033703; 3144134277; 1013904242; 2773480762;
  1359893119; 2600822924; 528734635; 1541459225].

Definition sched256 (w : list Z) (i : nat) : list Z :=
  let w15 := nth (i - 15) w 0 in
  let w2 := nth (i - 2) w 0 in
  let s0 := Z.lxor (Z.lxor (ror w15 7) (ror w15 18)) (Z.shiftr w15 3) in
  let s1 := Z.lxor (Z.lxor (ror w2 17) (ror w2 19)) (Z.shiftr w2 10) in
  <[i := u32 (nth (i - 16) w 0 + s0 + nth (i - 7) w 0 + s1)]> w.

(** The eight variables [a .. h] of the round loop. *)
Record regs256 := Regs256 { ra : Z; rb : Z; rc : Z; rd : Z; re : Z; rf : Z; rg : Z; rh : Z }.

Definition round256 (w : list Z) (r : regs256) (i : nat) : regs256 :=
  let '(Regs256 a b c d e f g hh) := r in
  let S1 := Z.lxor (Z.lxor (ror e 6) (ror e 11)) (ror e 25) in
  let ch := Z.lxor (Z.land e f) (Z.land (u32 (Z.lnot e)) g) in
  let t1 := u32 (hh + S1 + ch + nth i K256 0 + nth i w 0) in
  let S0 := Z.lxor (Z.lxor (ror a 2) (ror a 13)) (ror a 22) in
  let maj := Z.lxor (Z.lxor (Z.land a b) (Z.land a c)) (Z.land b c) in
  let t2 := u32 (S0 + maj) in
  Regs256 (u32 (t1 + t2)) a b c (u32 (d + t1)) e f g.

Definition block256 (msg : bytes) (h : list Z) (off : nat) : list Z :=
  let w := fold_left sched256 (seq 16 48) (load_block 64 msg off) in
  let r := Regs256 (nth 0 h 0) (nth 1 h 0) (nth 2 h 0) (nth 3 h 0)
                   (nth 4 h 0) (nth 5 h 0) (nth 6 h 0) (nth 7 h 0) in
  let r := fold_left (round256 w) (seq 0 64) r in
  [u32 (nth 0 h 0 + ra r); u32 (nth 1 h 0 + rb r); u32 (nth 2 h 0 + rc r);
   u32 (nth 3 h 0 + rd r); u32 (nth 4 h 0 + re r); u32 (nth 5 h 0 + rf r);
   u32 (nth 6 h 0 + rg r); u32 (nth 7 h 0 + rh r)].

(** The offsets [0, 64, ...] below [total]. *)
Definition offsets (total : nat) : list nat := map (fun k => k * 64)%nat (seq 0 (total / 64)).

(** [None] is the [return false] of a failed calloc. *)
Definition sha256 (calloc_ok : bool) (s : bytes) : option bytes :=
  if calloc_ok then
    let msg := sha_message s in
    Some (store_words (fold_left (block256 msg) (offsets (sha_total (length s))) H256))
  else None.

(** ** SHA-1 *)

Definition rol (x : Z) (c : Z) : Z := Z.lor (u32 (Z.shiftl x c)) (Z.shiftr x (32 - c)).

Definition H1 : list Z := [1732584193; 4023233417; 2562383102; 271733878; 3285377520].

Definition sched1 (w : list Z) (i : nat) : list Z :=
  <[i := rol (Z.lxor (Z.lxor (Z.lxor (nth (i - 3) w 0) (nth (i - 8) w 0))
                             (nth (i - 14) w 0)) (nth (i - 16) w 0)) 1]> w.

Record regs1 := Regs1 { sa : Z; sb : Z; sc : Z; sd : Z; se : Z }.

Definition round1 (w : list Z) (r : regs1) (i : nat) : regs1 :=
  let '(Regs1 a b c d e) := r in
  let '(f, k) :=
    if (i <? 20)%nat then (Z.lor (Z.land b c) (Z.land (u32 (Z.lnot b)) d), 1518500249)
    else if (i <? 40)%nat then (Z.lxor (Z.lxor b c) d, 1859775393)
    else if (i <? 60)%nat then
      (Z.lor (Z.lor (Z.land b c) (Z.land b d)) (Z.land c d), 2400959708)
    else (Z.lxor (Z.lxor b c) d, 3395469782) in
  let t := u32 (rol a 5 + f + e + k + nth i w 0) in
  Regs1 t a (rol b 30) c d.

Definition block1 (msg : bytes) (h : list Z) (off : nat) : list Z :=
  let w := fold_left sched1 (seq 16 64) (load_block 80 msg off) in
  let r := Regs1 (nth 0 h 0) (nth 1 h 0) (nth 2 h 0) (nth 3 h 0) (nth 4 h 0) in
  let r := fold_left (round1 w) (seq 0 80) r in
  [u32 (nth 0 h 0 + sa r); u32 (nth 1 h 0 + sb r); u32 (nth 2 h 0 + sc r);
   u32 (nth 3 h 0 + sd r); u32 (nth 4 h 0 + se r)].

Definition sha1 (calloc_ok : bool) (s : bytes) : option bytes :=
  if calloc_ok then
    let msg := sha_message s in
    Some (store_words (fold_left (block1 msg) (offsets (sha_total (length s))) H1))
  else None.

(** ** FNV-1a *)

Definition fnv1a (s : bytes) : Z :=
  fold_left (fun h b => u64 (Z.lxor h b * 1099511628211)) s 14695981039346656037.

(** ** FIPS 180-4 *)

Module Fips.

(** Padding: the message, a one bit, the fewest zero bits that make the whole
    a multiple of 512 with the length in 64 bits. *)
Definition zeros (n : nat) : nat := Z.to_nat ((55 - Z.of_nat n) mod 64).

Fixpoint big_endian (k : nat) (x : Z) : bytes :=
  match k with
  | O => []
  | S k => big_endian k (x / 256) ++ [x mod 256]
  end.

Definition pad (m : bytes) : bytes :=
  m ++ [128] ++ replicate (zeros (length m)) 0 ++ big_endian 8 (8 * Z.of_nat (length m)).

(** The padded message as blocks of sixteen words. *)
Fixpoint words (s : bytes) : list Z :=
  match s with
  | a :: b :: c :: d :: s => (a * 16777216 + b * 65536 + c * 256 + d) :: words s
  | _ => []
  end.

Fixpoint blocks (n : nat) (ws : list Z) : list (list Z) :=
  match n with
  | O => []
  | S n => take 16 ws :: blocks n (drop 16 ws)
  end.

Definition parse (m : bytes) : list (list Z) :=
  blocks (length (pad m) / 64) (words (pad m)).

Definition Ch (x y z : Z) : Z := Z.lxor (Z.land x y) (Z.land (u32 (Z.lnot x)) z).
Definition Maj (x y z : Z) : Z := Z.lxor (Z.lxor (Z.land x y) (Z.land x z)) (Z.land y z).
Definition Parity (x y z : Z) : Z := Z.lxor (Z.lxor x y) z.
Definition ROTR (n x : Z) : Z := Z.lor (Z.shiftr x n) (u32 (Z.shiftl x (32 - n))).
Definition ROTL (n x : Z) : Z := Z.lor (u32 (Z.shiftl x n)) (Z.shiftr x (32 - n)).

Fixpoint sum (xs : list Z) : Z :=
  match xs with [] => 0 | [x] => x | x :: xs => add32 x (sum xs) end.

Definition S0 (x : Z) := Parity (ROTR 2 x) (ROTR 13 x) (ROTR 22 x).
Definition S1 (x : Z) := Parity (ROTR 6 x) (ROTR 11 x) (ROTR 25 x).
Definition s0 (x : Z) := Parity (ROTR 7 x) (ROTR 18 x) (Z.shiftr x 3).
Definition s1 (x : Z) := Parity (ROTR 17 x) (ROTR 19 x) (Z.shiftr x 10).

(** The message schedule, one word after the other; [ago k] is the word [k]
    places before the next. *)
Fixpoint extend (next : (nat -> Z) -> Z) (n : nat) (ws : list Z) : list Z :=
  match n with
  | O => ws
  | S n => extend next n (ws ++ [next (fun k => nth (length ws - k) ws 0)])
  end.

Definition W256 := extend (fun ago => sum [s1 (ago 2%nat); ago 7%nat; s0 (ago 15%nat); ago 16%nat]) 48.
Definition W1 := extend (fun ago =>
  ROTL 1 (Z.lxor (Z.lxor (Z.lxor (ago 3%nat) (ago 8%nat)) (ago 14%nat)) (ago 16%nat))) 64.

Definition step256 (r : regs256) (kw : Z * Z) : regs256 :=
  let T1 := sum [rh r; S1 (re r); Ch (re r) (rf r) (rg r); kw.1; kw.2] in
  let T2 := sum [S0 (ra r); Maj (ra r) (rb r) (rc r)] in
  Regs256 (add32 T1 T2) (ra r) (rb r) (rc r) (add32 (rd r) T1) (re r) (rf r) (rg r).

Definition compress256 (h : list Z) (block : list Z) : list Z :=
  match h with
  | [a; b; c; d; e; f; g; hh] =>
    let r := foldl step256 (Regs256 a b c d e f g hh) (zip K256 (W256 block)) in
    [add32 (ra r) a; add32 (rb r) b; add32 (rc r) c; add32 (rd r) d;
     add32 (re r) e; add32 (rf r) f; add32 (rg r) g; add32 (rh r) hh]
  | _ => h
  end.

Definition digest (h : list Z) : bytes := concat (map (big_endian 4) h).

Definition sha256 (m : bytes) : bytes := digest (foldl compress256 H256 (parse m)).

(** SHA-1 chooses function and constant by the round. *)
Definition f1 (t : nat) : Z -> Z -> Z -> Z :=
  if (t <? 20)%nat then Ch else if (t <? 40)%nat then Parity
  else if (t <? 60)%nat then Maj else Parity.
Definition K1 (t : nat) : Z :=
  if (t <? 20)%nat then 1518500249 else if (t <? 40)%nat then 1859775393
  else if (t <? 60)%nat then 2400959708 else 3395469782.

Definition step1 (r : regs1) (tw : nat * Z) : regs1 :=
  let T := sum [ROTL 5 (sa r); f1 tw.1 (sb r) (sc r) (sd r); se r; K1 tw.1; tw.2] in
  Regs1 T (sa r) (ROTL 30 (sb r)) (sc r) (sd r).

Definition compress1 (h : list Z) (block : list Z) : list Z :=
  match h with
  | [a; b; c; d; e] =>
    let r := foldl step1 (Regs1 a b c d e) (zip (seq 0 80) (W1 block)) in
    [add32 (sa r) a; add32 (sb r) b; add32 (sc r) c; add32 (sd r) d; add32 (se r) e]
  | _ => h
  end.

Definition sha1 (m : bytes) : bytes := digest (foldl compress1 H1 (parse m)).

End Fips.

(** ** Lemmas: the arrays *)

(** A loop whose next word depends on the sixteen before it. *)
Lemma fold_extend (F : (nat -> Z) -> Z) m ws r :
  (forall g g', (forall k, (1 <= k <= 16)%nat -> g k = g' k) -> F g = F g') ->
  (16 <= length ws)%nat ->
  fold_left (fun w i => <[i := F (fun k => nth (i - k) w 0)]> w) (seq (length ws) m)
    (ws ++ replicate m 0 ++ r) = Fips.extend F m ws ++ r.
Proof.
  intros HF. revert ws. induction m as [|m IH]; intros ws Hlen; [done|].
  cbn [seq fold_left replicate Fips.extend].
  rewrite insert_app_r_alt, Nat.sub_diag by done. cbn [app insert list_insert].
  rewrite (HF _ (fun k => nth (length ws - k) ws 0)) by (intros k Hk; apply app_nth1; lia).
  set (x := F _). specialize (IH (ws ++ [x])). autorewrite with tny in IH. cbn [length] in IH.
  rewrite <- !app_assoc, Nat.add_1_r in IH. apply IH. lia.
Qed.

Lemma fold_left_ext_in {R X} (f g : R -> X -> R) l a :
  (forall a b, In b l -> f a b = g a b) -> fold_left f l a = fold_left g l a.
Proof.
  revert a. induction l as [|b l IH]; intros a H; [done|]. cbn.
  rewrite H by (left; done). apply IH. intros. apply H. by right.
Qed.

Lemma fold_schedule (F : (nat -> Z) -> Z) step m ws :
  (forall g g', (forall k, (1 <= k <= 16)%nat -> g k = g' k) -> F g = F g') ->
  (forall w i, step w i = <[i := F (fun k => nth (i - k) w 0)]> w) ->
  length ws = 16%nat ->
  fold_left step (seq 16 m) (ws ++ replicate m 0) = Fips.extend F m ws.
Proof.
  intros HF Hstep Hlen. pose proof (fold_extend F m ws [] HF) as E.
  rewrite Hlen, !app_nil_r in E. rewrite <- E by lia.
  apply fold_left_ext_in. intros. apply Hstep.
Qed.

Lemma foldl_zip {R X Y : Type} (f : R -> X * Y -> R) (r : R) l1 l2 b c :
  length l1 = length l2 ->
  foldl f r (zip l1 l2) =
  fold_left (fun r i => f r (nth i l1 b, nth i l2 c)) (seq 0 (length l1)) r.
Proof.
  revert l2 r. induction l1 as [|x l1 IH]; intros [|y l2] r H; try done.
  cbn [zip zip_with foldl length seq fold_left nth]. rewrite IH by (simpl in H; lia).
  rewrite <- seq_shift. generalize (f r (x, y)) as r'. generalize (seq 0 (length l1)) as ks.
  clear. intros ks. induction ks as [|i ks IH]; intros r'; [done|]. cbn. apply IH.
Qed.

(** ** Lemmas: the message *)

Lemma big_endian_length k x : length (Fips.big_endian k x) = k.
Proof.
  revert x. induction k as [|k IH]; intros x; [done|]. cbn. rewrite length_app, IH. simpl. lia.
Qed.

Lemma store_length_bytes ml (a : bytes) :
  fold_left (fun msg i =>
      <[(length a + 8 - 1 - i)%nat := Z.land (Z.shiftr ml (8 * Z.of_nat i)) 255]> msg)
    (seq 0 8) (a ++ replicate 8 0) = a ++ Fips.big_endian 8 ml.
Proof.
  cbn [seq fold_left].
  repeat (rewrite insert_app_r_alt by lia).
  replace (length a + 8 - 1 - 0 - length a)%nat with 7%nat by lia.
  replace (length a + 8 - 1 - 1 - length a)%nat with 6%nat by lia.
  replace (length a + 8 - 1 - 2 - length a)%nat with 5%nat by lia.
  replace (length a + 8 - 1 - 3 - length a)%nat with 4%nat by lia.
  replace (length a + 8 - 1 - 4 - length a)%nat with 3%nat by lia.
  replace (length a + 8 - 1 - 5 - length a)%nat with 2%nat by lia.
  replace (length a + 8 - 1 - 6 - length a)%nat with 1%nat by lia.
  replace (length a + 8 - 1 - 7 - length a)%nat with 0%nat by lia.
  cbn [replicate insert list_insert]. f_equal. unfold Fips.big_endian.
  rewrite !Z.div_div by lia. cbn [app].
  rewrite !land_255, !Z.shiftr_div_pow2 by lia.
  repeat f_equal. by rewrite Z.div_1_r.
Qed.

Lemma sha_total_zeros n : sha_total n = (n + 1 + Fips.zeros n + 8)%nat.
Proof.
  unfold sha_total, Fips.zeros.
  assert ((55 - Z.of_nat n) mod 64 = 63 - (Z.of_nat n + 8) mod 64) as -> by lia.
  pose proof (Nat.div_mod_eq (n + 8) 64). pose proof (Nat.mod_upper_bound (n + 8) 64).
  assert ((Z.of_nat n + 8) mod 64 = Z.of_nat ((n + 8) mod 64)) as ->
    by (rewrite Nat2Z.inj_mod; f_equal; lia).
  lia.
Qed.

(** The C message is the padded message of the standard. *)
Lemma sha_message_pad s :
  8 * Z.of_nat (length s) <= SIZE_MAX -> sha_message s = Fips.pad s.
Proof.
  intros Hn. unfold sha_message, Fips.pad. rewrite u64_small by lia.
  replace (Z.of_nat (length s) * 8) with (8 * Z.of_nat (length s)) by lia.
  set (ml := 8 * _). pose proof (sha_total_zeros (length s)) as E.
  set (n := length s) in *. rewrite drop_replicate.
  replace (sha_total n - n)%nat with (1 + (Fips.zeros n + 8))%nat by lia.
  rewrite replicate_add. cbn [replicate app].
  rewrite insert_app_r_alt, Nat.sub_diag by done. cbn [insert list_insert].
  rewrite replicate_add, E.
  pose proof (store_length_bytes ml (s ++ 128 :: replicate (Fips.zeros n) 0)) as L.
  autorewrite with tny in L. cbn [length] in L. rewrite length_replicate in L. fold n in L.
  replace (n + S (Fips.zeros n))%nat with (n + 1 + Fips.zeros n)%nat in L by lia.
  rewrite <- !app_assoc in L. cbn [app] in L. exact L.
Qed.

Lemma pad_length s : length (Fips.pad s) = sha_total (length s).
Proof.
  unfold Fips.pad. rewrite sha_total_zeros. autorewrite with tny.
  rewrite length_replicate, big_endian_length. simpl. lia.
Qed.

Lemma big_endian_bytes k x : Forall is_byte (Fips.big_endian k x).
Proof.
  revert x. induction k as [|k IH]; intros x; cbn; [constructor|].
  apply Forall_app. split; [apply IH|]. repeat constructor; unfold is_byte; lia.
Qed.

Lemma pad_bytes s : Forall is_byte s -> Forall is_byte (Fips.pad s).
Proof.
  intros Hs. unfold Fips.pad. rewrite !Forall_app. split_and!; [done|..].
  - repeat constructor; unfold is_byte; lia.
  - apply Forall_replicate. unfold is_byte. lia.
  - apply big_endian_bytes.
Qed.

(** ** Lemmas: words and blocks *)

Lemma be_word_value a b c d s :
  is_byte a -> is_byte b -> is_byte c -> is_byte d ->
  be_word (a :: b :: c :: d :: s) 0 = a * 16777216 + b * 65536 + c * 256 + d.
Proof.
  unfold is_byte. intros. unfold be_word. cbn [nth Nat.add].
  rewrite (lor_shiftl_add a _ 24) by (rewrite ?Z.shiftl_mul_pow2 by lia; lia).
  replace (a * 2 ^ 24 + Z.shiftl b 16) with (Z.shiftl (a * 256 + b) 16)
    by (rewrite !Z.shiftl_mul_pow2 by lia; lia).
  rewrite (lor_shiftl_add _ _ 16) by (rewrite ?Z.shiftl_mul_pow2 by lia; lia).
  replace ((a * 256 + b) * 2 ^ 16 + Z.shiftl c 8) with (Z.shiftl (a * 65536 + b * 256 + c) 8)
    by (rewrite !Z.shiftl_mul_pow2 by lia; lia).
  rewrite lor_shiftl_add by lia. lia.
Qed.

Lemma be_word_skip a s p : be_word (a :: s) (S p) = be_word s p.
Proof. done. Qed.

(** The words of a whole number of words. *)
Lemma words_be k s :
  Forall is_byte s -> length s = (4 * k)%nat ->
  Fips.words s = map (fun i => be_word s (4 * i)) (seq 0 k).
Proof.
  revert s. induction k as [|k IH]; intros s Hs Hlen; [by destruct s|].
  destruct s as [|a [|b [|c [|d s]]]]; simpl in Hlen; try lia.
  rewrite !Forall_cons_iff in Hs. destruct Hs as (? & ? & ? & ? & Hs).
  cbn [Fips.words seq map]. rewrite be_word_value by done. f_equal.
  rewrite IH by (done || lia). rewrite <- seq_shift, map_map. apply map_ext. intros i.
  by replace (4 * S i)%nat with (S (S (S (S (4 * i))))) by lia.
Qed.

Lemma blocks_map n ws :
  Fips.blocks n ws = map (fun k => take 16 (drop (16 * k) ws)) (seq 0 n).
Proof.
  revert ws. induction n as [|n IH]; intros ws; [done|]. cbn [Fips.blocks seq map]. f_equal.
  rewrite IH, <- seq_shift, map_map. apply map_ext. intros k. rewrite drop_drop. do 2 f_equal. lia.
Qed.

(** The words one iteration of the block loop loads. *)
Definition block_words (msg : bytes) (off : nat) : list Z :=
  map (fun i => be_word msg (off + 4 * i)) (seq 0 16).

Lemma map_seq_slice (f : nat -> Z) n k :
  (16 * k + 16 <= n)%nat ->
  take 16 (drop (16 * k) (map f (seq 0 n))) = map (fun i => f (16 * k + i)%nat) (seq 0 16).
Proof.
  intros H. rewrite skipn_map, firstn_map, skipn_seq, take_seq.
  replace (16 `min` (n - 16 * k))%nat with 16%nat by lia.
  pose proof (fmap_add_seq (16 * k) 0 16) as E. rewrite Nat.add_0_r in E.
  rewrite Nat.add_0_l, <- E. apply map_map.
Qed.

Lemma parse_blocks s :
  Forall is_byte s ->
  Fips.parse s = map (block_words (Fips.pad s)) (offsets (sha_total (length s))).
Proof.
  intros Hs. unfold Fips.parse, offsets. rewrite pad_length, blocks_map, map_map.
  set (n := (sha_total (length s) / 64)%nat).
  assert (sha_total (length s) = (4 * (16 * n))%nat) as E
    by (unfold n, sha_total; rewrite Nat.div_mul by done; lia).
  rewrite (words_be (16 * n)) by (rewrite ?pad_length; by auto using pad_bytes).
  apply map_ext_in. intros k [_ Hk]%in_seq. rewrite map_seq_slice by lia.
  apply map_ext. intros i. f_equal. lia.
Qed.

Lemma load_block_words len msg off :
  (16 <= len)%nat ->
  load_block len msg off = block_words msg off ++ replicate (len - 16) 0.
Proof. intros. unfold load_block. by rewrite fold_store_fill. Qed.

Lemma block_words_length msg off : length (block_words msg off) = 16%nat.
Proof. unfold block_words. by rewrite length_map, length_seq. Qed.

(** ** Lemmas: 32-bit sums *)

Lemma sum2 a b : Fips.sum [a; b] = u32 (a + b).
Proof. done. Qed.
Lemma sum4 a b c d : Fips.sum [a; b; c; d] = u32 (a + b + c + d).
Proof. cbn. unfold add32, u32. lia. Qed.
Lemma sum5 a b c d e : Fips.sum [a; b; c; d; e] = u32 (a + b + c + d + e).
Proof. cbn. unfold add32, u32. lia. Qed.

(** ** SHA-256 *)

Lemma extend_length F m ws : length (Fips.extend F m ws) = (length ws + m)%nat.
Proof.
  revert ws. induction m as [|m IH]; intros ws; cbn; [lia|].
  rewrite IH. autorewrite with tny. simpl. lia.
Qed.

Lemma schedule256 ws :
  length ws = 16%nat ->
  fold_left sched256 (seq 16 48) (ws ++ replicate 48 0) = Fips.W256 ws.
Proof.
  apply fold_schedule.
  - intros g g' Hg. by rewrite !Hg by lia.
  - intros w i. unfold sched256. rewrite sum4. do 2 f_equal.
    unfold Fips.s0, Fips.s1, Fips.Parity, Fips.ROTR, ror. lia.
Qed.

Lemma round256_step w r i :
  round256 w r i = Fips.step256 r (nth i K256 0, nth i w 0).
Proof.
  destruct r as [a b c d e f g h]. unfold round256, Fips.step256. cbn [fst snd ra rb rc rd re rf rg rh].
  rewrite sum2, sum5. done.
Qed.

Lemma block256_compress msg h off :
  length h = 8%nat -> block256 msg h off = Fips.compress256 h (block_words msg off).
Proof.
  intros Hh. destruct h as [|a [|b [|c [|d [|e [|f [|g [|hh [|]]]]]]]]]; try done.
  unfold block256, Fips.compress256. rewrite load_block_words by lia.
  rewrite schedule256 by apply block_words_length. cbv zeta. cbn [nth].
  set (W := Fips.W256 _).
  rewrite (foldl_zip _ _ _ W 0 0)
    by (unfold W, Fips.W256; by rewrite extend_length, block_words_length).
  change (length K256) with 64%nat.
  rewrite (fold_left_ext_in (round256 W) (fun r i => Fips.step256 r (nth i K256 0, nth i W 0)))
    by (intros; apply round256_step).
  set (r := fold_left _ _ _). unfold add32.
  repeat (apply (f_equal2 cons); [f_equal; apply Z.add_comm|]). done.
Qed.

Lemma compress256_length h b : length h = 8%nat -> length (Fips.compress256 h b) = 8%nat.
Proof. intros Hh. by destruct h as [|a [|b0 [|c [|d [|e [|f [|g [|hh [|]]]]]]]]]. Qed.

Lemma fold_blocks (spec : list Z -> list Z -> list Z) (code : list Z -> nat -> list Z) msg n h offs :
  (forall h off, length h = n -> code h off = spec h (block_words msg off)) ->
  (forall h b, length h = n -> length (spec h b) = n) ->
  length h = n ->
  fold_left code offs h = foldl spec h (map (block_words msg) offs).
Proof.
  intros Hcode Hlen. revert h. induction offs as [|o offs IH]; intros h Hh; [done|].
  cbn. rewrite Hcode by done. apply IH. by apply Hlen.
Qed.

Lemma store_words_digest h : store_words h = Fips.digest h.
Proof.
  unfold store_words, Fips.digest. f_equal. apply map_ext. intros x.
  unfold Fips.big_endian. rewrite !Z.div_div by lia. cbn [app].
  rewrite !land_255, !Z.shiftr_div_pow2 by lia. done.
Qed.

(** C33: on every input FIPS 180-4 defines, [sha256] computes the SHA-256 of the
    standard: the in-place message buffer is its padding, the 64-word array its
    message schedule, the eight variables its compression; it fails exactly when
    the buffer cannot be allocated. *)
Theorem sha256_fips ok s :
  Forall is_byte s -> 8 * Z.of_nat (length s) <= SIZE_MAX ->
  sha256 ok s = if ok then Some (Fips.sha256 s) else None.
Proof.
  intros Hs Hlen. unfold sha256, Fips.sha256. destruct ok; [|done].
  rewrite sha_message_pad, store_words_digest by done. do 2 f_equal.
  rewrite parse_blocks by done.
  eapply fold_blocks; [apply block256_compress|apply compress256_length|done].
Qed.

Example sha256_fips_witness :
  sha256 true B"abc" = Some (Fips.sha256 B"abc") /\
  take 4 (Fips.sha256 B"abc") = [186; 120; 22; 191].
Proof.
  split; [|vm_compute; reflexivity].
  apply (sha256_fips true B"abc"); [repeat constructor; vm_compute; congruence|].
  vm_compute. congruence.
Defined.

(** ** SHA-1 *)

(** The code writes the choice and majority functions with or. *)
Lemma choice_or b c d :
  Z.lor (Z.land b c) (Z.land (u32 (Z.lnot b)) d) = Fips.Ch b c d.
Proof.
  unfold Fips.Ch. apply Z.bits_inj'. intros n Hn.
  rewrite Z.lor_spec, Z.lxor_spec, !Z.land_spec.
  unfold u32. change 4294967296 with (2 ^ 32). destruct (Z.lt_ge_cases n 32).
  - rewrite Z.mod_pow2_bits_low, Z.lnot_spec by lia.
    by destruct (Z.testbit b n), (Z.testbit c n), (Z.testbit d n).
  - rewrite Z.mod_pow2_bits_high by lia.
    by destruct (Z.testbit b n), (Z.testbit c n), (Z.testbit d n).
Qed.

Lemma majority_or b c d :
  Z.lor (Z.lor (Z.land b c) (Z.land b d)) (Z.land c d) = Fips.Maj b c d.
Proof.
  unfold Fips.Maj. apply Z.bits_inj'. intros n Hn.
  rewrite !Z.lor_spec, !Z.lxor_spec, !Z.land_spec.
  by destruct (Z.testbit b n), (Z.testbit c n), (Z.testbit d n).
Qed.

Lemma schedule1 ws :
  length ws = 16%nat ->
  fold_left sched1 (seq 16 64) (ws ++ replicate 64 0) = Fips.W1 ws.
Proof.
  apply fold_schedule.
  - intros g g' Hg. by rewrite !Hg by lia.
  - intros w i. unfold sched1. done.
Qed.

Lemma round1_step w r i : round1 w r i = Fips.step1 r (i, nth i w 0).
Proof.
  destruct r as [a b c d e]. unfold round1, Fips.step1, Fips.f1, Fips.K1.
  cbn [fst snd sa sb sc sd se].
  repeat case_if; rewrite sum5, ?choice_or, ?majority_or; done.
Qed.

Lemma block1_compress msg h off :
  length h = 5%nat -> block1 msg h off = Fips.compress1 h (block_words msg off).
Proof.
  intros Hh. destruct h as [|a [|b [|c [|d [|e [|]]]]]]; try done.
  unfold block1, Fips.compress1. rewrite load_block_words by lia.
  rewrite schedule1 by apply block_words_length. cbv zeta. cbn [nth].
  set (W := Fips.W1 _).
  rewrite (foldl_zip _ _ _ W 0%nat 0)
    by (unfold W, Fips.W1; by rewrite extend_length, block_words_length).
  rewrite length_seq.
  rewrite (fold_left_ext_in (round1 W) (fun r i => Fips.step1 r (nth i (seq 0 80) 0%nat, nth i W 0)))
    by (intros ? ? [_ ?]%in_seq; rewrite seq_nth by lia; apply round1_step).
  set (r := fold_left _ _ _). unfold add32.
  repeat (apply (f_equal2 cons); [f_equal; apply Z.add_comm|]). done.
Qed.

Lemma compress1_length h b : length h = 5%nat -> length (Fips.compress1 h b) = 5%nat.
Proof. intros Hh. by destruct h as [|a [|b0 [|c [|d [|e [|]]]]]]. Qed.

(** likewise [sha1] computes the SHA-1 of the standard; the choice and
    majority functions written with [|] and the branches on the round number
    are its f and K. *)
Theorem sha1_fips ok s :
  Forall is_byte s -> 8 * Z.of_nat (length s) <= SIZE_MAX ->
  sha1 ok s = if ok then Some (Fips.sha1 s) else None.
Proof.
  intros Hs Hlen. unfold sha1, Fips.sha1. destruct ok; [|done].
  rewrite sha_message_pad, store_words_digest by done. do 2 f_equal.
  rewrite parse_blocks by done.
  eapply fold_blocks; [apply block1_compress|apply compress1_length|done].
Qed.

Example sha1_fips_witness :
  sha1 true B"abc" = Some (Fips.sha1 B"abc") /\
  take 4 (Fips.sha1 B"abc") = [169; 153; 62; 54].
Proof.
  split; [|vm_compute; reflexivity].
  apply (sha1_fips true B"abc"); [repeat constructor; vm_compute; congruence|].
  vm_compute. congruence.
Defined.

