(* ===== verification/Json.v ===== *)
(** JSON values as the readers of src/src/json/json.c see them, its lookups
    and numeric conversion, the string escaper and the JWT payload decoder. *)
From S2P Require Import Prelude Bits Codec.

Open Scope Z_scope.

(** ** Values

    What yyjson parses to: object members stay in document order and may
    repeat; a string may hold NUL bytes; an unsigned or signed 64-bit number
    or a finite double [m * 2 ^ e]. *)
Inductive jnum :=
  | JUint (n : Z)
  | JSint (n : Z)
  | JReal (m e : Z).

Inductive jval :=
  | JNull
  | JBool (b : bool)
  | JNum (n : jnum)
  | JStr (s : bytes)
  | JArr (vs : list jval)
  | JObj (members : list (bytes * jval)).

Fixpoint assoc (key : bytes) (ms : list (bytes * jval)) : option jval :=
  match ms with
  | [] => None
  | (k, v) :: ms => if str_eq k key then Some v else assoc key ms
  end.

(** A string handed out as a [char *]: C functions stop at its first NUL. *)
Fixpoint c_str (s : bytes) : bytes :=
  match s with
  | [] => []
  | c :: s => if c =? NUL then [] else c :: c_str s
  end.

(** ** Lookups; [None] is NULL *)

(** The first member with the key. *)
Definition jget (obj : option jval) (key : bytes) : option jval :=
  match obj with
  | Some (JObj ms) => assoc key ms
  | _ => None
  end.

(** The string with its length; the length is 0 when there is none. *)
Definition jget_strn (obj : option jval) (key : bytes) : option bytes * Z :=
  match jget obj key with
  | Some (JStr s) => (Some s, Z.of_nat (length s))
  | _ => (None, 0)
  end.

Definition jget_str (obj : option jval) (key : bytes) : option bytes :=
  c_str <$> fst (jget_strn obj key).

Definition INT64_MAX : Z := 9223372036854775807.

(** [-0x1p63 <= m * 2^e < 0x1p63], exactly. *)
Definition real_in_int64 (m e : Z) : bool :=
  if 0 <=? e then (- INT64_MAX - 1 <=? m * 2 ^ e) && (m * 2 ^ e <=? INT64_MAX)
  else ((- INT64_MAX - 1) * 2 ^ (- e) <=? m) && (m <? (INT64_MAX + 1) * 2 ^ (- e)).

(** Conversion of a double to an integer truncates. *)
Definition real_trunc (m e : Z) : Z :=
  if 0 <=? e then m * 2 ^ e else Z.quot m (2 ^ (- e)).

Definition jget_int (obj : option jval) (key : bytes) (dflt : Z) : Z :=
  match jget obj key with
  | Some (JNum (JSint n)) => n
  | Some (JNum (JUint n)) => if n <=? INT64_MAX then n else dflt
  | Some (JNum (JReal m e)) => if real_in_int64 m e then real_trunc m e else dflt
  | _ => dflt
  end.

Definition jget_bool (obj : option jval) (key : bytes) (dflt : bool) : bool :=
  match jget obj key with
  | Some (JBool b) => b
  | _ => dflt
  end.

(** ** Escaping *)

(** [%04x] of a byte below 0x20. *)
Definition unicode_escape (c : Z) : bytes :=
  B"\u00" ++ [hex_lower (c / 16); hex_lower (c mod 16)].

Definition escape_char (c : Z) : bytes :=
  if c =? DQUOTE then [BACKSLASH; DQUOTE]
  else if c =? BACKSLASH then [BACKSLASH; BACKSLASH]
  else if c =? LF then B"\n"
  else if c =? CR then B"\r"
  else if c =? TAB then B"\t"
  else if c <? 0x20 then unicode_escape c
  else [c].

(** What is appended; [None] (a NULL string) only raises the sticky flag. *)
Definition jescape (b : bytes) (s : option bytes) : option bytes :=
  match s with
  | None => None
  | Some s => Some (b ++ [DQUOTE] ++ concat (map escape_char s) ++ [DQUOTE])
  end.

(** ** JWT payloads *)

(** [strchr] and what follows the hit. *)
Fixpoint after_char (c : Z) (s : bytes) : option bytes :=
  match s with
  | [] => None
  | x :: s => if x =? c then Some s else after_char c s
  end.

Fixpoint until_char (c : Z) (s : bytes) : bytes :=
  match s with
  | [] => []
  | x :: s => if x =? c then [] else x :: until_char c s
  end.

(** The segment between the first two dots, decoded into a buffer of [n + 4]
    bytes; [jparse] is yyjson. [copy_ok] and [raw_ok] are the outcomes of the
    two allocations. *)
Definition jwt_payload_doc {doc} (jparse : bytes -> option doc)
    (copy_ok raw_ok : bool) (jwt : option bytes) : option doc :=
  jwt ← jwt;
  start ← after_char (C".") jwt;
  let seg := until_char (C".") start in
  if copy_ok && raw_ok then
    let std := map (fun c => if c =? C"-" then C"+" else if c =? C"_" then C"/" else c) seg in
    let raw := b64_decode std (length seg + 4) in
    if (0 <? length raw)%nat then jparse raw else None
  else None.

(** ** A reference reader of string literals (RFC 8259) *)

Definition hex4 (a b c d : Z) : option Z :=
  a ← hex_value a; b ← hex_value b; c ← hex_value c; d ← hex_value d;
  Some (a * 4096 + b * 256 + c * 16 + d).

(** After the backslash: the character and the rest. Code points from 0x80
    up need UTF-8, which no escape of the writer uses. *)
Definition read_escape (s : bytes) : option (Z * bytes) :=
  match s with
  | [] => None
  | c :: s =>
    if c =? C"u" then
      match s with
      | h1 :: h2 :: h3 :: h4 :: s =>
        cp ← hex4 h1 h2 h3 h4; if cp <? 0x80 then Some (cp, s) else None
      | _ => None
      end
    else if c =? C"n" then Some (LF, s)
    else if c =? C"r" then Some (CR, s)
    else if c =? C"t" then Some (TAB, s)
    else if c =? C"b" then Some (8, s)
    else if c =? C"f" then Some (FF, s)
    else if (c =? DQUOTE) || (c =? BACKSLASH) || (c =? C"/") then Some (c, s)
    else None
  end.

(** The body up to the closing quote; unescaped control characters are
    invalid. *)
Fixpoint read_body (fuel : nat) (s : bytes) : option (bytes * bytes) :=
  match fuel, s with
  | O, _ | _, [] => None
  | S fuel, c :: s =>
    if c =? DQUOTE then Some ([], s)
    else if c =? BACKSLASH then
      '(c, s) ← read_escape s; '(v, r) ← read_body fuel s; Some (c :: v, r)
    else if c <? 0x20 then None
    else '(v, r) ← read_body fuel s; Some (c :: v, r)
  end.

Definition read_string (s : bytes) : option (bytes * bytes) :=
  match s with
  | c :: s => if c =? DQUOTE then read_body (S (length s)) s else None
  | [] => None
  end.

(** ** Lemmas *)

Lemma c_str_idem s : c_str (c_str s) = c_str s.
Proof. induction s as [|c s IH]; cbn [c_str]; [done|]. destruct (c =? NUL) eqn:E; cbn [c_str]; [done|]. by rewrite E, IH. Qed.

Lemma unicode_escape_value c :
  is_byte c -> c < 0x20 -> hex4 (C"0") (C"0") (hex_lower (c / 16)) (hex_lower (c mod 16)) = Some c.
Proof.
  intros Hc Hlt. enough ((0x20 <=? c) || bool_decide
    (hex4 (C"0") (C"0") (hex_lower (c / 16)) (hex_lower (c mod 16)) = Some c) = true) as E.
  { apply orb_true_iff in E as [E|E]; [lia|by apply bool_decide_eq_true in E]. }
  clear Hlt. revert c Hc. by_all_bytes.
Qed.

Lemma read_escape_char c s fuel :
  is_byte c ->
  read_body (S fuel) (escape_char c ++ s) =
    '(v, r) ← read_body fuel s; Some (c :: v, r).
Proof.
  intros Hc. unfold escape_char.
  repeat case_if; try (assert (c = DQUOTE) as -> by lia; done);
    try (assert (c = BACKSLASH) as -> by lia; done);
    try (assert (c = LF) as -> by lia; done);
    try (assert (c = CR) as -> by lia; done);
    try (assert (c = TAB) as -> by lia; done).
  - unfold unicode_escape. cbn [app read_body read_escape].
    change (BACKSLASH =? DQUOTE) with false. change (BACKSLASH =? BACKSLASH) with true.
    rewrite Z.eqb_refl. rewrite unicode_escape_value by (done || lia).
    cbn [mbind option_bind]. case_if; [done|lia].
  - cbn [app read_body]. repeat case_if; done || lia.
Qed.

Lemma read_body_more fuel fuel' s r :
  read_body fuel s = Some r -> (fuel <= fuel')%nat -> read_body fuel' s = Some r.
Proof.
  revert fuel' s r. induction fuel as [|fuel IH]; intros [|fuel'] s r H Hle; try (done || lia).
  cbn [read_body] in *. destruct s as [|c s]; [done|].
  case_if; [done|]. case_if.
  - destruct (read_escape s) as [[c' s']|]; [|done]. cbn [mbind option_bind] in *.
    destruct (read_body fuel s') as [[v r']|] eqn:E; [|done].
    by rewrite (IH fuel' _ _ E) by lia.
  - case_if; [done|]. destruct (read_body fuel s) as [[v r']|] eqn:E; [|done].
    by rewrite (IH fuel' _ _ E) by lia.
Qed.

Lemma read_escaped s r :
  Forall is_byte s ->
  read_body (S (length s)) (concat (map escape_char s) ++ [DQUOTE] ++ r) = Some (s, r).
Proof.
  induction 1 as [|c s Hc _ IH]; [done|]. cbn [map concat length].
  rewrite <- app_assoc, read_escape_char, IH by done. done.
Qed.

Lemma escape_char_length c : (1 <= length (escape_char c))%nat.
Proof. unfold escape_char. repeat case_if; cbn; lia. Qed.

Lemma escaped_length s : (length s <= length (concat (map escape_char s)))%nat.
Proof.
  induction s as [|c s IH]; [done|]. cbn [map concat]. rewrite length_app.
  pose proof (escape_char_length c). cbn. lia.
Qed.

(** A JSON reader gets back exactly the bytes [jescape] was given, and
    stops right after the closing quote: no content can end the literal
    early. *)
Theorem jescape_roundtrip b s rest :
  Forall is_byte s ->
  exists lit, jescape b (Some s) = Some (b ++ lit) /\
    read_string (lit ++ rest) = Some (s, rest).
Proof.
  intros Hs. eexists. split; [reflexivity|].
  cbn [app read_string]. rewrite Z.eqb_refl, <- app_assoc.
  eapply read_body_more; [by apply read_escaped|].
  rewrite !length_app. pose proof (escaped_length s). cbn. lia.
Qed.

Example jescape_roundtrip_witness :
  let s := [DQUOTE; BACKSLASH; LF; 1; C"a"] in
  jescape [] (Some s) = Some ([DQUOTE; BACKSLASH; DQUOTE; BACKSLASH; BACKSLASH] ++ B"\n\u0001a" ++ [DQUOTE]) /\
  exists lit, jescape [] (Some s) = Some ([] ++ lit) /\ read_string (lit ++ B",") = Some (s, B",").
Proof.
  intros s. split; [vm_compute; reflexivity|].
  apply (jescape_roundtrip [] s B","). repeat constructor; vm_compute; congruence.
Defined.

Lemma after_char_app c h s : Forall (fun x => x <> c) h -> after_char c (h ++ c :: s) = Some s.
Proof.
  induction 1 as [|x h Hx _ IH]; cbn; [by rewrite Z.eqb_refl|].
  by rewrite (proj2 (Z.eqb_neq _ _) Hx).
Qed.

Lemma until_char_app c s r :
  Forall (fun x => x <> c) s -> r = [] \/ cur r = c -> until_char c (s ++ r) = s.
Proof.
  intros Hs Hr. induction Hs as [|x s Hx _ IH]; cbn.
  - destruct r as [|y r]; [done|]. destruct Hr as [|Hr]; [done|]. cbn in *. subst.
    by rewrite Z.eqb_refl.
  - by rewrite (proj2 (Z.eqb_neq _ _) Hx), IH.
Qed.

(** for a token whose second segment is the base64url text of a payload,
    whatever the header and with or without a signature, the document is the
    parse of exactly that payload: the work buffer of [n + 4] bytes is large
    enough and the alphabet translation loses nothing. *)
Theorem jwt_payload_roundtrip {doc} (jparse : bytes -> option doc) header payload sig :
  Forall (fun c => c <> C".") header -> Forall is_byte payload -> payload <> [] ->
  sig = [] \/ cur sig = C"." ->
  jwt_payload_doc jparse true true (Some (header ++ B"." ++ b64url_encode payload ++ sig)) =
    jparse payload.
Proof.
  intros Hh Hp Hne Hsig. unfold jwt_payload_doc. cbn [mbind option_bind app].
  rewrite after_char_app by done. cbn [mbind option_bind andb]. cbv zeta.
  rewrite until_char_app; [|eapply Forall_impl; [|by apply b64url_chars]; naive_solver|done].
  change (map _ (b64url_encode payload)) with (map url_to_std (b64url_encode payload)).
  rewrite b64url_decodes by (done || (pose proof (b64url_length payload Hp); lia)).
  by destruct payload.
Qed.

Example jwt_payload_roundtrip_witness :
  let payload := B"{}" ++ [255; 254; 251; 240] in
  b64url_encode payload = B"e33__vvw" /\
  jwt_payload_doc Some true true (Some (B"h" ++ B"." ++ b64url_encode payload ++ B".sig")) =
    Some payload.
Proof.
  intros payload. split; [vm_compute; reflexivity|].
  apply (jwt_payload_roundtrip Some B"h" payload B".sig");
    [repeat constructor; discriminate | repeat constructor; vm_compute; congruence
    | discriminate | right; reflexivity].
Defined.

(** The value a caller of [jget_int] can rely on. *)
Definition in_int64 (n : Z) : Prop := - INT64_MAX - 1 <= n <= INT64_MAX.

(** Numbers as yyjson delivers them. *)
Definition jnum_wf (n : jnum) : Prop :=
  match n with
  | JUint n => 0 <= n <= SIZE_MAX
  | JSint n => in_int64 n
  | JReal _ _ => True
  end.

(** [q] is [m * 2^e] rounded toward zero. *)
Definition truncates (m e q : Z) : Prop :=
  if 0 <=? e then q = m * 2 ^ e
  else Z.abs q * 2 ^ (- e) <= Z.abs m < (Z.abs q + 1) * 2 ^ (- e) /\ 0 <= q * m.

Lemma real_trunc_spec m e : truncates m e (real_trunc m e).
Proof.
  unfold truncates, real_trunc. case_if; [done|].
  assert (0 < 2 ^ (- e)) by (apply Z.pow_pos_nonneg; lia). set (d := 2 ^ (- e)) in *. clearbody d.
  pose proof (Z.quot_rem m d). pose proof (Z.rem_bound_abs m d).
  destruct (Z.le_ge_cases 0 m).
  - pose proof (Z.quot_pos m d). pose proof (Z.rem_nonneg m d). split; nia.
  - pose proof (Z.quot_opp_l m d). pose proof (Z.quot_pos (- m) d).
    pose proof (Z.rem_nonpos m d). split; nia.
Qed.

Lemma real_in_int64_trunc m e : real_in_int64 m e = true -> in_int64 (real_trunc m e).
Proof.
  pose proof (real_trunc_spec m e) as T. unfold truncates in T.
  unfold real_in_int64, in_int64. destruct (0 <=? e) eqn:E.
  - rewrite T. lia.
  - assert (0 < 2 ^ (- e)) by (apply Z.pow_pos_nonneg; lia).
    set (d := 2 ^ (- e)) in *. clearbody d. unfold INT64_MAX. intros. nia.
Qed.

(** [jget_int] never leaves the range of [int64_t], and on a number it
    gives the number itself, a real truncated toward zero, when that fits, and
    the default otherwise; every other case is the default. *)
Theorem jget_int_spec obj key dflt :
  in_int64 dflt ->
  (forall n, jget obj key = Some (JNum n) -> jnum_wf n) ->
  in_int64 (jget_int obj key dflt) /\
  match jget obj key with
  | Some (JNum (JSint n)) => jget_int obj key dflt = n
  | Some (JNum (JUint n)) =>
    jget_int obj key dflt = n /\ in_int64 n \/ jget_int obj key dflt = dflt /\ ~ in_int64 n
  | Some (JNum (JReal m e)) =>
    truncates m e (jget_int obj key dflt) \/
    jget_int obj key dflt = dflt /\ real_in_int64 m e = false
  | _ => jget_int obj key dflt = dflt
  end.
Proof.
  intros Hd Hwf. unfold jget_int.
  destruct (jget obj key) as [[| |n| | |]|] eqn:E; try by split.
  specialize (Hwf n eq_refl). destruct n as [n|n|m e]; cbn in Hwf.
  - unfold in_int64 in *. case_if; lia.
  - done.
  - destruct (real_in_int64 m e) eqn:R; [|auto].
    split; [by apply real_in_int64_trunc|]. left. apply real_trunc_spec.
Qed.

Example jget_int_spec_witness :
  let o := Some (JObj [(B"n", JNum (JReal (-7) (-1)))]) in
  jget_int o B"n" 0 = -3 /\ in_int64 (jget_int o B"n" 0).
Proof.
  intros o. split; [vm_compute; reflexivity|].
  apply (jget_int_spec o B"n" 0).
  - split; vm_compute; congruence.
  - intros n H. vm_compute in H. injection H as <-. exact I.
Defined.
