(* ===== verification/JsonText.v ===== *)
(** Compact JSON text, and what components that write it by hand rely on when
    they read it back through yyjson: an interface, and a reader that
    implements it. *)
From S2P Require Import Prelude Decimal Text Json.

Open Scope Z_scope.

(** ** Compact text of a value *)

(** A byte that stands for itself inside a string literal. *)
Definition plain_char (c : Z) : bool := (32 <=? c) && (c <=? 126) && negb (c =? DQUOTE) && negb (c =? BACKSLASH).

Definition quote (s : bytes) : bytes := DQUOTE :: s ++ [DQUOTE].

(** A string literal as [jescape] writes it. *)
Definition literal (s : bytes) : bytes := DQUOTE :: concat (map escape_char s) ++ [DQUOTE].

(** A text that a JSON document may hold: bytes of valid UTF-8, and no NUL. *)
Definition json_text (s : bytes) : bool :=
  forallb (fun c => (0 <=? c) && (c <=? 255)) s && utf8_valid_bytes (Some s) (length s).

Fixpoint commas (xs : list bytes) : bytes :=
  match xs with
  | [] => []
  | [x] => x
  | x :: xs => x ++ C"," :: commas xs
  end.

Fixpoint render (v : jval) : bytes :=
  match v with
  | JNull => B"null"
  | JBool b => if b then B"true" else B"false"
  | JNum (JUint n) => dec n
  | JNum (JSint n) => C"-" :: dec (- n)
  | JStr s => literal s
  | JArr vs => C"[" :: commas (map render vs) ++ [C"]"]
  | JObj ms => C"{" :: commas (map (fun '(k, v) => quote k ++ C":" :: render v) ms) ++ [C"}"]
  | _ => []
  end.

(** The values the writers produce: integers, texts, constants, and containers of them
    with plain keys. *)
Fixpoint plain (v : jval) : bool :=
  match v with
  | JNull | JBool _ => true
  | JNum (JUint n) => (0 <=? n) && (n <=? SIZE_MAX)
  | JNum (JSint n) => (- SIZE_MAX <=? n) && (n <? 0)
  | JStr s => json_text s
  | JArr vs => forallb plain vs
  | JObj ms => forallb (fun '(k, v) => forallb plain_char k && plain v) ms
  | _ => false
  end.

(** The interface: reading back a container written compactly, with any
    final line feeds, gives the container; and a literal is only accepted when
    it holds a text. *)
Class JsonReader (jparse : bytes -> option jval) : Prop := {
  jparse_render v n : plain v = true -> jparse (render v ++ replicate n LF) = Some v;
  jparse_literal s v : Forall is_byte s -> jparse (literal s) = Some v -> json_text s = true }.

(** ** A reader *)

(** A key. *)
Fixpoint scan_str (s : bytes) : option (bytes * bytes) :=
  match s with
  | [] => None
  | c :: s =>
    if c =? DQUOTE then Some ([], s)
    else if plain_char c then '(x, r) ← scan_str s; Some (c :: x, r) else None
  end.

Fixpoint scan_digits (s : bytes) (n : Z) : Z * bytes :=
  match s with
  | c :: t => if is_digit c then scan_digits t (n * 10 + (c - C"0")) else (n, s)
  | [] => (n, s)
  end.

Definition parse_keyword (s : bytes) : option (jval * bytes) :=
  if bool_decide (take 4 s = B"true") then Some (JBool true, drop 4 s)
  else if bool_decide (take 5 s = B"false") then Some (JBool false, drop 5 s)
  else if bool_decide (take 4 s = B"null") then Some (JNull, drop 4 s) else None.

Fixpoint parse_val (fuel : nat) (s : bytes) : option (jval * bytes) :=
  match fuel with
  | O => None
  | S fuel =>
    let t := tl s in
    if cur s =? DQUOTE then
      '(x, r) ← read_body (S (length t)) t;
      if json_text x then Some (JStr x, r) else None
    else if cur s =? C"[" then
      if cur t =? C"]" then Some (JArr [], tl t)
      else '(vs, r) ← parse_elems fuel t; Some (JArr vs, r)
    else if cur s =? C"{" then
      if cur t =? C"}" then Some (JObj [], tl t)
      else '(ms, r) ← parse_members fuel t; Some (JObj ms, r)
    else if cur s =? C"-" then let '(n, r) := scan_digits t 0 in Some (JNum (JSint (- n)), r)
    else if is_digit (cur s) then let '(n, r) := scan_digits s 0 in Some (JNum (JUint n), r)
    else parse_keyword s
  end
with parse_elems (fuel : nat) (s : bytes) : option (list jval * bytes) :=
  match fuel with
  | O => None
  | S fuel =>
    '(v, r) ← parse_val fuel s;
    if cur r =? C"," then '(vs, r) ← parse_elems fuel (tl r); Some (v :: vs, r)
    else if cur r =? C"]" then Some ([v], tl r) else None
  end
with parse_members (fuel : nat) (s : bytes) : option (list (bytes * jval) * bytes) :=
  match fuel with
  | O => None
  | S fuel =>
    if negb (cur s =? DQUOTE) then None
    else
      '(k, r) ← scan_str (tl s);
      if negb (cur r =? C":") then None
      else
        '(v, r) ← parse_val fuel (tl r);
        if cur r =? C"," then '(ms, r) ← parse_members fuel (tl r); Some ((k, v) :: ms, r)
        else if cur r =? C"}" then Some ([(k, v)], tl r) else None
  end.

(** Only white space may follow. *)
Definition read_json (s : bytes) : option jval :=
  '(v, r) ← parse_val (S (2 * length s)) s;
  if forallb is_space r then Some v else None.

(** ** Reading back what was written *)

Lemma scan_str_plain s r :
  forallb plain_char s = true -> scan_str (s ++ DQUOTE :: r) = Some (s, r).
Proof.
  induction s as [|c s IH]; cbn [forallb app scan_str]; [done|].
  intros [Hc Hs]%andb_true_iff. rewrite Hc, (IH Hs). unfold plain_char in Hc.
  by rewrite (proj2 (Z.eqb_neq c DQUOTE)) by lia.
Qed.

Lemma json_text_bytes s : json_text s = true -> Forall is_byte s.
Proof.
  unfold json_text. intros [H _]%andb_true_iff. apply Forall_forall. intros c Hc. rewrite forallb_forall in H.
  specialize (H c Hc). unfold is_byte. lia.
Qed.

Lemma read_literal s r : Forall is_byte s ->
  read_body (S (length (concat (map escape_char s) ++ DQUOTE :: r))) (concat (map escape_char s) ++ DQUOTE :: r) = Some (s, r).
Proof.
  intros Hs. eapply read_body_more; [by apply read_escaped|]. rewrite length_app. pose proof (escaped_length s). cbn. lia.
Qed.

Lemma plain_escape c : plain_char c = true -> escape_char c = [c].
Proof. unfold plain_char, escape_char. intros H. by repeat case_if; try lia. Qed.

Lemma literal_plain s : forallb plain_char s = true -> literal s = quote s.
Proof.
  intros H. unfold literal, quote. do 2 f_equal. induction s as [|c s IH]; [done|]. cbn [forallb map concat] in *.
  apply andb_true_iff in H as [Hc Hs]. by rewrite plain_escape, IH.
Qed.

Lemma plain_text s : forallb plain_char s = true -> json_text s = true.
Proof.
  intros H. unfold json_text, utf8_valid_bytes. rewrite firstn_all. apply andb_true_iff. split.
  - rewrite forallb_forall in *. intros c Hc. specialize (H c Hc). unfold plain_char in H. lia.
  - induction s as [|c s IH]; [done|]. cbn [forallb length utf8_scan utf8_next] in *.
    apply andb_true_iff in H as [Hc Hs]. unfold plain_char in Hc.
    rewrite (proj2 (Z.eqb_neq c 0)), (proj2 (Z.ltb_lt c 0x80)) by lia. by apply IH.
Qed.

Lemma jescape_literal b s : jescape b (Some s) = Some (b ++ literal s).
Proof. done. Qed.

(** What may follow a value: nothing that would extend a numeral. *)
Definition ends (r : bytes) : Prop := is_digit (cur r) = false.

Lemma scan_digits_value ds r n :
  Forall (fun c => is_digit c = true) ds -> ends r ->
  scan_digits (ds ++ r) n = (digits_value ds n, r).
Proof.
  intros H Hr. revert n. induction H as [|c ds Hc _ IH]; intros n; cbn [app scan_digits].
  - destruct r as [|c r]; [done|]. unfold ends in Hr. cbn in Hr. cbn [scan_digits]. by rewrite Hr.
  - by rewrite Hc, IH.
Qed.

Lemma digit_start c : is_digit c = true ->
  (c =? DQUOTE) = false /\ (c =? C"[") = false /\ (c =? C"{") = false /\ (c =? C"-") = false.
Proof. unfold is_digit. rewrite !Z.eqb_neq. lia. Qed.

(** The first byte of a value closes no container. *)
Lemma render_start v r : plain v = true ->
  exists c t, render v ++ r = c :: t /\ (c =? C"]") = false /\ (c =? C"}") = false.
Proof.
  destruct v as [|[]|[n|n|]| | |]; try done; intros H; try (by eexists _, _).
  cbn [plain] in H. unfold SIZE_MAX in H.
  destruct (dec_spec n) as (Hd & Hl & _); [change (10 ^ 20) with 100000000000000000000; lia|].
  cbn [render]. destruct (dec n) as [|c t]; [simpl in Hl; lia|]. apply Forall_inv in Hd.
  exists c, (t ++ r). unfold is_digit in Hd. rewrite !Z.eqb_neq. split; [done|lia].
Qed.

(** Flattens concatenations to the right. *)
Ltac norm_app := repeat (rewrite <- app_assoc || rewrite <- app_comm_cons).

Abbreviation member_text := (fun '(k, v) => quote k ++ C":" :: render v).
Abbreviation plain_member := (fun '(k, v) => forallb plain_char k && plain v).

Lemma commas_cons x y ys : commas (x :: y :: ys) = x ++ C"," :: commas (y :: ys).
Proof. done. Qed.

Lemma parse_render_fuel fuel :
  (forall v r, plain v = true -> ends r -> (2 * length (render v) < fuel)%nat ->
     parse_val fuel (render v ++ r) = Some (v, r)) /\
  (forall v vs r, forallb plain (v :: vs) = true ->
     (2 * length (commas (map render (v :: vs))) + 1 < fuel)%nat ->
     parse_elems fuel (commas (map render (v :: vs)) ++ C"]" :: r) = Some (v :: vs, r)) /\
  (forall m ms r, forallb plain_member (m :: ms) = true ->
     (2 * length (commas (map member_text (m :: ms))) + 1 < fuel)%nat ->
     parse_members fuel (commas (map member_text (m :: ms)) ++ C"}" :: r) = Some (m :: ms, r)).
Proof.
  induction fuel as [|fuel (IHv & IHe & IHm)]; [split_and!; intros; lia|]. split; [|split].
  - intros v r Hp He Hf. destruct v as [|[]|[n|n|]| s |vs|ms]; try done; cbn [render plain] in *.
    + unfold SIZE_MAX in Hp.
      destruct (dec_spec n) as (Hd & Hl & Hv & _); [change (10 ^ 20) with 100000000000000000000; lia|].
      destruct (dec n) as [|c t] eqn:En; [simpl in Hl; lia|].
      pose proof (Forall_inv Hd) as Hc. destruct (digit_start c Hc) as (N1 & N2 & N3 & N4).
      cbn [parse_val app cur hd]. rewrite N1, N2, N3, N4, Hc.
      change (c :: t ++ r) with ((c :: t) ++ r). by rewrite scan_digits_value, Hv.
    + unfold SIZE_MAX in Hp.
      destruct (dec_spec (- n)) as (Hd & Hl & Hv & _); [change (10 ^ 20) with 100000000000000000000; lia|].
      cbn [parse_val app cur hd tl]. rewrite scan_digits_value, Hv by done. do 4 f_equal. lia.
    + unfold literal. cbn [parse_val app cur hd tl]. rewrite <- app_assoc. cbn [app].
      change (34 =? 34) with true. cbv iota. rewrite read_literal by by apply json_text_bytes.
      cbn [mbind option_bind]. by rewrite Hp.
    + cbn [parse_val app cur hd tl]. rewrite <- app_assoc. destruct vs as [|v vs]; [done|].
      cbn [length] in Hf. rewrite length_app in Hf. cbn [length] in Hf.
      change ([C"]"] ++ r) with (C"]" :: r). rewrite IHe by (done || lia).
      assert (exists c t, commas (map render (v :: vs)) ++ C"]" :: r = c :: t /\ (c =? C"]") = false) as (c & t & E & Ec).
      { cbn [forallb] in Hp. apply andb_true_iff in Hp as [Hv _]. destruct vs as [|w vs].
        - destruct (render_start v (C"]" :: r) Hv) as (c & t & E & Ec & _). by exists c, t.
        - cbn [map]. rewrite commas_cons, <- app_assoc.
          destruct (render_start v ((C"," :: commas (map render (w :: vs))) ++ C"]" :: r) Hv) as (c & t & E & Ec & _).
          by exists c, t. }
      rewrite E. cbn [cur hd]. by rewrite Ec.
    + cbn [parse_val app cur hd tl]. rewrite <- app_assoc. destruct ms as [|[k v] ms]; [done|].
      cbn [length] in Hf. rewrite length_app in Hf. cbn [length] in Hf.
      change ([C"}"] ++ r) with (C"}" :: r). rewrite IHm by (done || lia). cbn [map]. by destruct ms.
  - intros v vs r Hp Hf. cbn [forallb] in Hp. apply andb_true_iff in Hp as [Hv Hvs].
    destruct vs as [|w vs]; cbn [map parse_elems] in *; [cbn [commas] in *|rewrite commas_cons in *].
    + by rewrite (IHv v (C"]" :: r)) by (done || lia).
    + rewrite length_app in Hf. cbn [length] in Hf. rewrite <- app_assoc.
      rewrite IHv by (done || lia). cbn [mbind option_bind app cur hd tl].
      by rewrite IHe by (done || lia).
  - intros [k v] ms r Hp Hf. cbn [forallb] in Hp. apply andb_true_iff in Hp as [Hkv Hms].
    apply andb_true_iff in Hkv as [Hk Hv]. destruct ms as [|m2 ms].
    + cbn [map commas] in *. unfold quote in *. cbn [app length] in Hf.
      rewrite !length_app in Hf. cbn [length] in Hf. cbn [parse_members app cur hd tl].
      rewrite <- !app_assoc. cbn [app negb].
      change (DQUOTE =? DQUOTE) with true. cbn [negb].
      rewrite scan_str_plain by done. cbn [mbind option_bind cur hd tl].
      change (C":" =? C":") with true. cbn [negb].
      by rewrite (IHv v (C"}" :: r)) by (done || lia).
    + specialize (IHm m2 ms r Hms).
      change (commas (map member_text ((k, v) :: m2 :: ms)))
        with (member_text (k, v) ++ C"," :: commas (map member_text (m2 :: ms))) in Hf |- *.
      set (T := commas (map member_text (m2 :: ms))) in *. clearbody T.
      unfold quote in *. cbn [app length] in Hf. rewrite !length_app in Hf. cbn [length] in Hf.
      rewrite ?length_app in Hf. cbn [length] in Hf. cbn [parse_members app cur hd tl].
      rewrite <- !app_assoc. cbn [app]. rewrite <- ?app_assoc. cbn [app].
      change (DQUOTE =? DQUOTE) with true. cbn [negb].
      rewrite scan_str_plain by done. cbn [mbind option_bind cur hd tl].
      change (C":" =? C":") with true. cbn [negb]. rewrite <- ?app_assoc. cbn [app].
      rewrite IHv by (done || lia). cbn [mbind option_bind cur hd tl].
      by rewrite IHm by lia.
Qed.

#[export] Instance read_json_reader : JsonReader read_json.
Proof.
  split.
  - intros v n Hp. unfold read_json. rewrite (proj1 (parse_render_fuel _)).
    + cbn [mbind option_bind]. induction n as [|n IH]; [done|]. exact IH.
    + done.
    + by destruct n.
    + rewrite length_app. lia.
  - intros s v Hs. unfold read_json, literal. cbn [parse_val app cur hd tl]. change (DQUOTE =? DQUOTE) with true. cbv iota.
    rewrite read_literal by done. cbn [mbind option_bind]. by destruct (json_text s).
Qed.
