(* ===== verification/Perm.v ===== *)
(** The permission engine of src/src/core/perm.c: safe tools, rule lookup,
    session grants and the verdict. *)
From S2P Require Import Prelude Text Shlex Json.

Open Scope Z_scope.

(** ** Context *)

Inductive tny_perm_mode := TNY_MODE_ASK | TNY_MODE_AUTO | TNY_MODE_YOLO.

Inductive perm_verdict := PERM_ALLOW | PERM_DENY | PERM_PROMPT.

#[export] Instance tny_perm_mode_eq_dec : EqDecision tny_perm_mode.
Proof. solve_decision. Defined.
#[export] Instance perm_verdict_eq_dec : EqDecision perm_verdict.
Proof. solve_decision. Defined.

(** The fields of [tny_ctx] the engine reads; [settings] is the root of the
    parsed document. *)
Record tny_ctx := mk_ctx {
  cwd : bytes; extra_dirs : list bytes; perm_mode : tny_perm_mode;
  workspace_read_only : bool; settings : option jval }.

Record perm_engine := mk_engine { ctx : tny_ctx; grants : list bytes }.

(** ** Tables *)

Definition SAFE_TOOLS : list bytes :=
  [B"list_files"; B"glob_files"; B"grep_files"; B"read_file"; B"read_image";
   B"file_info"; B"semantic_search"; B"read_tool_result"; B"mcp_search_tools";
   B"mcp_select_tool"; B"mcp_features"; B"skill"; B"search_transcript";
   B"ask_user_question"].

Definition perm_tool_is_safe (tool : bytes) : bool := str_in tool SAFE_TOOLS.

Definition perm_path_allowed (c : tny_ctx) (abs_path : bytes) : bool :=
  if path_is_within (cwd c) abs_path then true
  else existsb (fun d => path_is_within d abs_path) (extra_dirs c).

Definition perm_new (calloc_ok : bool) (c : tny_ctx) : option perm_engine :=
  if calloc_ok then Some (mk_engine c []) else None.

Definition perm_grant_count (p : perm_engine) : Z := Z.of_nat (length (grants p)).

Definition rule_category (tool : bytes) : bytes :=
  if str_eq tool B"terminal" || str_eq tool B"run_command" then B"bash"
  else if str_eq tool B"write_file" || str_eq tool B"edit_file" ||
          str_eq tool B"delete_file" || str_eq tool B"rename_file" ||
          str_eq tool B"copy_file" || str_eq tool B"create_folder" then B"edit"
  else tool.

Definition multi_verb (prog : bytes) : bool :=
  str_in prog [B"git"; B"npm"; B"cargo"; B"make"; B"docker"; B"gh"].

(** ** Session grants *)

(** The program of a line that is one simple command. *)
Definition simple_program (c : shlex_cmd) : option bytes :=
  if shlex_is_simple c then shlex_program c else None.

Definition grant_key_bash (b : bytes) (detail : bytes) : bytes :=
  let c := shlex_parse (Some detail) in
  match simple_program c with
  | None => b ++ B"bash!" ++ detail
  | Some prog =>
    if negb (cur (verb c) =? NUL) && multi_verb prog
    then b ++ B"bash:" ++ prog ++ B" " ++ verb c
    else b ++ B"bash:" ++ prog
  end.

(** The key; [key_ok] false is a buffer that ran out of memory. *)
Definition grant_key (key_ok : bool) (tool : bytes) (detail : option bytes) : option bytes :=
  let b :=
    match detail with
    | Some d =>
      if str_eq (rule_category tool) B"bash" then grant_key_bash [] d
      else if negb (cur d =? NUL) then tool ++ B":" ++ d
      else tool
    | None => tool
    end in
  if key_ok then Some b else None.

Definition perm_grant (key_ok grow_ok : bool) (p : perm_engine) (tool : bytes)
    (detail : option bytes) : perm_engine :=
  match grant_key key_ok tool detail with
  | None => p
  | Some key =>
    if existsb (fun g => str_eq g key) (grants p) then p
    else if grow_ok then mk_engine (ctx p) (grants p ++ [key]) else p
  end.

Definition grant_hit (key_ok : bool) (p : perm_engine) (tool : bytes)
    (detail : option bytes) : bool :=
  match grant_key key_ok tool detail with
  | None => false
  | Some key => existsb (fun g => str_eq g key) (grants p)
  end.

(** ** Rules *)

(** The encoding of a rule's action: 1 allow, 0 deny, 2 ask. *)
Definition action_verdict (act : bytes) : Z :=
  if str_eq act B"allow" then 1 else if str_eq act B"deny" then 0 else 2.

(** The loop over a category's patterns. *)
Fixpoint rules_loop (members : list (bytes * jval)) (detail : bytes) (verdict : Z) : Z :=
  match members with
  | [] => verdict
  | (k, v) :: ms =>
    match v with
    | JStr act =>
      if glob_match (c_str k) detail
      then rules_loop ms detail (action_verdict (c_str act))
      else rules_loop ms detail verdict
    | _ => rules_loop ms detail verdict
    end
  end.

Definition rules_lookup (perm : option jval) (tool : bytes) (detail : option bytes) : Z :=
  match perm with
  | None => -1
  | Some _ =>
    let verdict :=
      match jget_str perm B"*" with
      | Some star => action_verdict star
      | None => -1
      end in
    match jget perm (rule_category tool), detail with
    | Some (JObj members), Some d => rules_loop members d verdict
    | Some (JStr act), _ => action_verdict (c_str act)
    | _, _ => verdict
    end
  end.

(** ** Read-only commands *)

Definition safe_prog : list bytes :=
  [B"ls"; B"cat"; B"head"; B"tail"; B"wc"; B"grep"; B"rg"; B"find"].
Definition safe_git : list bytes := [B"status"; B"log"; B"diff"; B"show"].

Definition read_command (detail : option bytes) : bool :=
  match detail with
  | None => false
  | Some d =>
    let c := shlex_parse (Some d) in
    match (if shlex_is_simple c && negb (dangerous_opt c) then shlex_program c else None) with
    | None => false
    | Some prog =>
      if str_in prog safe_prog then true
      else if str_eq prog B"git" then str_in (verb c) safe_git
      else false
    end
  end.

(** ** The verdict *)

(** Tools that only touch the harness's own records. *)
Definition status_tools : list bytes :=
  [B"job_status"; B"job_workspace_inspect"; B"team_status"; B"team_collect";
   B"team_wait_any"; B"team_cancel"; B"team_send"; B"team_inbox"; B"team_ack";
   B"team_review_read"].

(** From the [sensitive] label on. *)
Definition perm_sensitive (key_ok : bool) (p : perm_engine) (tool : bytes)
    (detail : option bytes) : perm_verdict :=
  let c := ctx p in
  let global_rules := jget (settings c) B"permission" in
  let ws := jget (jget (settings c) B"workspaces") (cwd c) in
  let ws_rules := jget ws B"permission" in
  let v := rules_lookup ws_rules tool detail in
  let v := if v <? 0 then rules_lookup global_rules tool detail else v in
  if v =? 1 then PERM_ALLOW
  else if v =? 0 then PERM_DENY
  else if grant_hit key_ok p tool detail then PERM_ALLOW
  else if bool_decide (perm_mode c = TNY_MODE_AUTO) &&
          (let cat := rule_category tool in
           (str_eq cat B"edit" &&
              match detail with Some d => perm_path_allowed c d | None => false end) ||
           (str_eq cat B"bash" && bool_decide (is_Some detail) && read_command detail) ||
           str_in tool [B"web_fetch"; B"web_search"; B"vision"; B"open_file"; B"memory"])
  then PERM_ALLOW
  else PERM_PROMPT.

Definition perm_check (key_ok : bool) (p : perm_engine) (tool : bytes)
    (detail : option bytes) : perm_verdict :=
  let c := ctx p in
  if workspace_read_only c && negb (perm_tool_is_safe tool) &&
     negb (str_eq (rule_category tool) B"bash" && read_command detail) &&
     negb (str_in tool status_tools)
  then PERM_DENY
  else if bool_decide (perm_mode c = TNY_MODE_YOLO) then PERM_ALLOW
  else if perm_tool_is_safe tool then
    match detail with
    | Some d =>
      if (cur d =? C"/") && negb (perm_path_allowed c d)
      then perm_sensitive key_ok p tool detail else PERM_ALLOW
    | None => PERM_ALLOW
    end
  else perm_sensitive key_ok p tool detail.

(** ** Specifications *)

(** What "don't ask again" covers: one line, or every simple command with the
    rendered program (and, for multi-verb programs, subcommand). *)
Inductive scope := ExactLine (line : bytes) | Program (name : bytes).

#[export] Instance scope_eq_dec : EqDecision scope.
Proof. solve_decision. Defined.

Definition grant_scope (d : bytes) : scope :=
  let c := shlex_parse (Some d) in
  match simple_program c with
  | None => ExactLine d
  | Some prog =>
    Program (prog ++ (if negb (cur (verb c) =? NUL) && multi_verb prog
                      then B" " ++ verb c else []))
  end.


(** The verdict of the rules: the workspace's unless it has none. *)
Definition rule_verdict (c : tny_ctx) (tool : bytes) (detail : option bytes) : Z :=
  let v := rules_lookup (jget (jget (jget (settings c) B"workspaces") (cwd c)) B"permission")
             tool detail in
  if v <? 0 then rules_lookup (jget (settings c) B"permission") tool detail else v.

(** A read-only tool that stays in the workspace. *)
Definition free_call (c : tny_ctx) (tool : bytes) (detail : option bytes) : Prop :=
  In tool SAFE_TOOLS /\
  forall d, detail = Some d -> cur d = C"/" -> perm_path_allowed c d = true.

(** What automatic mode adds. *)
Definition auto_call (c : tny_ctx) (tool : bytes) (detail : option bytes) : Prop :=
  (rule_category tool = B"edit" /\ exists d, detail = Some d /\ perm_path_allowed c d = true) \/
  (rule_category tool = B"bash" /\ read_command detail = true) \/
  In tool [B"web_fetch"; B"web_search"; B"vision"; B"open_file"; B"memory"].

(** What a read-only workspace lets through at most. *)
Definition within_ceiling (tool : bytes) (detail : option bytes) : Prop :=
  In tool SAFE_TOOLS \/ In tool status_tools \/
  rule_category tool = B"bash" /\ read_command detail = true.

(** ** Lemmas *)





Lemma existsb_str key gs : existsb (fun g => str_eq g key) gs = true <-> In key gs.
Proof.
  rewrite existsb_exists. split.
  - intros (g & Hg & E%str_eq_true). by subst.
  - intros H. exists key. split; [done|apply str_eq_refl].
Qed.

Lemma grant_hit_in p tool detail key :
  grant_key true tool detail = Some key -> grant_hit true p tool detail = true <-> In key (grants p).
Proof. intros E. unfold grant_hit. rewrite E. apply existsb_str. Qed.

Lemma perm_grant_in p tool detail key g :
  grant_key true tool detail = Some key ->
  In g (grants (perm_grant true true p tool detail)) <-> In g (grants p) \/ g = key.
Proof.
  intros E. unfold perm_grant. rewrite E.
  destruct (existsb _ (grants p)) eqn:Hin.
  - apply existsb_str in Hin. split; [auto|]. intros [?| ->]; done.
  - cbn. rewrite in_app_iff. cbn. naive_solver.
Qed.

Definition scope_key (s : scope) : bytes :=
  match s with ExactLine l => B"bash!" ++ l | Program n => B"bash:" ++ n end.

Lemma grant_key_scope tool d :
  rule_category tool = B"bash" -> grant_key true tool (Some d) = Some (scope_key (grant_scope d)).
Proof.
  intros Hc. unfold grant_key. rewrite Hc, str_eq_refl.
  unfold grant_key_bash, grant_scope. destruct (simple_program _); [|done].
  case_if; cbn; [done|]. by rewrite app_nil_r.
Qed.

Lemma scope_key_inj s s' : scope_key s = scope_key s' -> s = s'.
Proof. destruct s, s'; cbn; intros E; simplify_eq; done. Qed.

(** The last matching entry of a rule table decides. *)
Lemma rules_loop_app ms ms' d v :
  rules_loop (ms ++ ms') d v = rules_loop ms' d (rules_loop ms d v).
Proof.
  revert v. induction ms as [|[k j] ms IH]; intros v; [done|]. cbn [app rules_loop].
  destruct j; try apply IH. case_if; apply IH.
Qed.

Definition entry_matches (d : bytes) (e : bytes * jval) : bool :=
  match snd e with JStr _ => glob_match (c_str (fst e)) d | _ => false end.

Lemma rules_loop_unmatched ms d v :
  Forall (fun e => entry_matches d e = false) ms -> rules_loop ms d v = v.
Proof.
  induction 1 as [|[k j] ms He _ IH]; [done|].
  unfold entry_matches in He. cbn [rules_loop fst snd] in *.
  destruct j; try done. by rewrite He.
Qed.

Lemma action_verdict_range a : 0 <= action_verdict a <= 2.
Proof. unfold action_verdict. repeat case_if; lia. Qed.

Lemma rules_loop_range ms d v : -1 <= v <= 2 -> -1 <= rules_loop ms d v <= 2.
Proof.
  revert v. induction ms as [|[k j] ms IH]; intros v Hv; [done|]. cbn [rules_loop].
  destruct j; auto. case_if; apply IH; [|done]. pose proof (action_verdict_range (c_str s)). lia.
Qed.

Lemma rules_lookup_range perm tool d : -1 <= rules_lookup perm tool d <= 2.
Proof.
  unfold rules_lookup. destruct perm as [perm|]; [|lia].
  assert (H : -1 <= match jget_str (Some perm) B"*" with
    Some star => action_verdict star | None => -1 end <= 2).
  { destruct (jget_str _ _) as [a|]; [pose proof (action_verdict_range a)|]; lia. }
  destruct (jget (Some perm) (rule_category tool)) as [[| | |s| |ms]|]; try done;
    [pose proof (action_verdict_range (c_str s)); lia|].
  destruct d; [|done]. by apply rules_loop_range.
Qed.

Lemma free_call_dec c tool detail :
  free_call c tool detail <->
  perm_tool_is_safe tool = true /\
  match detail with
  | Some d => (cur d =? C"/") && negb (perm_path_allowed c d) = false
  | None => True
  end.
Proof.
  unfold free_call, perm_tool_is_safe. rewrite str_in_true. split.
  - intros [H Hd]. split; [done|]. destruct detail as [d|]; [|done].
    destruct (Z.eqb_spec (cur d) C"/"); [|done]. by rewrite (Hd d).
  - intros [H Hd]. split; [done|]. intros d -> E. rewrite E in Hd. cbn in Hd.
    by apply negb_false_iff in Hd.
Qed.

Lemma auto_call_dec c tool detail :
  (str_eq (rule_category tool) B"edit" &&
     match detail with Some d => perm_path_allowed c d | None => false end) ||
  (str_eq (rule_category tool) B"bash" && bool_decide (is_Some detail) && read_command detail) ||
  str_in tool [B"web_fetch"; B"web_search"; B"vision"; B"open_file"; B"memory"] = true <->
  auto_call c tool detail.
Proof.
  unfold auto_call. rewrite !orb_true_iff, !andb_true_iff, !str_eq_true, str_in_true, bool_decide_eq_true.
  destruct detail as [d|].
  - assert ((exists d0, Some d = Some d0 /\ perm_path_allowed c d0 = true) <->
      perm_path_allowed c d = true) as -> by (split; [by intros (? & [= ->] & ?)|eauto]).
    assert (is_Some (Some d)) by done. tauto.
  - assert (~ exists d0, @None bytes = Some d0 /\ perm_path_allowed c d0 = true)
      by by intros (? & ? & _).
    assert (~ is_Some (@None bytes)) by by intros [? ?].
    change (read_command None) with false. assert (false <> true) by done. tauto.
Qed.

Lemma within_ceiling_dec c tool detail :
  workspace_read_only c && negb (perm_tool_is_safe tool) &&
     negb (str_eq (rule_category tool) B"bash" && read_command detail) &&
     negb (str_in tool status_tools) = false <->
  (workspace_read_only c = true -> within_ceiling tool detail).
Proof.
  unfold within_ceiling. rewrite <- str_eq_true, <- !str_in_true. fold (perm_tool_is_safe tool).
  destruct (workspace_read_only c), (perm_tool_is_safe tool), (str_eq _ _),
    (read_command detail), (str_in tool status_tools); cbn; naive_solver.
Qed.

(** The part below the early returns. *)
Lemma perm_sensitive_spec key_ok p tool detail :
  let v := rule_verdict (ctx p) tool detail in
  (perm_sensitive key_ok p tool detail = PERM_ALLOW <->
    v = 1 \/ v <> 0 /\ (grant_hit key_ok p tool detail = true \/
      perm_mode (ctx p) = TNY_MODE_AUTO /\ auto_call (ctx p) tool detail)) /\
  (perm_sensitive key_ok p tool detail = PERM_DENY <-> v = 0).
Proof.
  cbv zeta. unfold perm_sensitive. fold (rule_verdict (ctx p) tool detail).
  cbv zeta. rewrite <- auto_call_dec.
  destruct (Z.eqb_spec (rule_verdict (ctx p) tool detail) 1) as [->|Hv1];
    [split; split; naive_solver|].
  destruct (Z.eqb_spec (rule_verdict (ctx p) tool detail) 0) as [->|Hv0];
    [split; split; naive_solver|].
  destruct (grant_hit _ _ _ _); [split; split; naive_solver|].
  destruct (decide (perm_mode (ctx p) = TNY_MODE_AUTO)) as [Ha|Ha].
  - rewrite (bool_decide_true (perm_mode (ctx p) = TNY_MODE_AUTO)) by done. cbn [andb].
    destruct (_ || str_in _ _); split; split; naive_solver.
  - rewrite (bool_decide_false (perm_mode (ctx p) = TNY_MODE_AUTO)) by done. cbn [andb].
    split; split; naive_solver.
Qed.

(** ** Properties *)



(** With a quoted line continuation (see [quoted_continuation]) automatic mode
    runs [find . -delete] unasked. *)
Example continuation_is_allowed :
  read_command (Some continued) = true /\
  perm_check true (mk_engine (mk_ctx B"/w" [] TNY_MODE_AUTO false None) []) B"terminal"
    (Some continued) = PERM_ALLOW.
Proof. split; vm_compute; reflexivity. Qed.

(** C12: the whole decision. A call is allowed exactly when it is within the
    ceiling of a read-only workspace and one of these holds: the mode is yolo;
    it is a read-only tool inside the workspace; the rules allow it; the rules
    are silent or ask, and a grant covers it or automatic mode adds it. It is
    denied exactly when it breaks the ceiling, or the rules deny it and neither
    yolo nor a free call came first: so no grant, rule or mode reaches past the
    ceiling, and no grant or automatic mode past a deny rule. *)
Theorem perm_check_iff (key_ok : bool) (p : perm_engine) (tool : bytes) (detail : option bytes) :
  let c := ctx p in
  let v := rule_verdict c tool detail in
  let ceiling := workspace_read_only c = true -> within_ceiling tool detail in
  let early := perm_mode c = TNY_MODE_YOLO \/ free_call c tool detail in
  (perm_check key_ok p tool detail = PERM_ALLOW <->
     ceiling /\ (early \/ v = 1 \/ v <> 0 /\
       (grant_hit key_ok p tool detail = true \/
        perm_mode c = TNY_MODE_AUTO /\ auto_call c tool detail))) /\
  (perm_check key_ok p tool detail = PERM_DENY <-> ~ ceiling \/ ~ early /\ v = 0).
Proof.
  cbv zeta. unfold perm_check.
  rewrite <- within_ceiling_dec. rewrite free_call_dec.
  destruct (_ && negb (str_in tool status_tools)); [split; split; naive_solver|].
  case_bool_decide as Hy; [split; split; naive_solver|].
  pose proof (perm_sensitive_spec key_ok p tool detail) as Hs. cbv zeta in Hs.
  destruct (perm_tool_is_safe tool); [|split; split; naive_solver].
  destruct detail as [d|]; [|split; split; naive_solver].
  destruct (_ && negb _); split; split; naive_solver.
Qed.

(** A session grant for a shell command widens the granted commands by
    exactly its scope. For a line that is not one simple command the scope is
    that line; otherwise it is the simple commands with the same rendered
    program and, for multi-verb programs, the same subcommand. *)
Theorem perm_grant_scope (p : perm_engine) (tool tool' : bytes) (d d' : bytes)
    (Ht : rule_category tool = B"bash") (Ht' : rule_category tool' = B"bash") :
  grant_hit true (perm_grant true true p tool (Some d)) tool' (Some d') = true <->
  grant_hit true p tool' (Some d') = true \/ grant_scope d' = grant_scope d.
Proof.
  pose proof (grant_key_scope tool d Ht) as K. pose proof (grant_key_scope tool' d' Ht') as K'.
  rewrite !(grant_hit_in _ tool' (Some d') _ K'), (perm_grant_in p _ _ _ _ K).
  split; intros [H|H]; auto; right; [by apply scope_key_inj|by rewrite H].
Qed.

Example perm_grant_scope_witness :
  let e := mk_engine (mk_ctx B"/w" [] TNY_MODE_ASK false None) [] in
  grant_hit true (perm_grant true true e B"terminal" (Some B"git status -s")) B"run_command"
    (Some B"git status") = true /\
  grant_hit true (perm_grant true true e B"terminal" (Some B"git status")) B"terminal"
    (Some B"git push") <> true.
Proof.
  intros e. split.
  - apply (perm_grant_scope e B"terminal" B"run_command" B"git status -s" B"git status");
      [by vm_compute..|right; by vm_compute].
  - intros H. apply (perm_grant_scope e B"terminal" B"terminal" B"git status" B"git push") in H;
      [|by vm_compute..]. destruct H as [H|H]; by vm_compute in H.
Defined.

(** The rendered name is not injective: a program whose name holds a space is
    covered by the grant of another program's subcommand. *)
Example grant_scope_collision :
  grant_scope B"'git status'" = grant_scope B"git status" /\
  shlex_program (shlex_parse (Some B"'git status'")) = Some B"git status" /\
  shlex_program (shlex_parse (Some B"git status")) = Some B"git".
Proof. split_and!; vm_compute; reflexivity. Qed.

(** In a category's rule table the last pattern that matches the detail
    decides, whatever [*] says; entries whose action is no string do not
    count; with no match the category is decided by [*]. *)
Theorem rules_last_match (perm : jval) (tool d : bytes) (members : list (bytes * jval))
    (Hcat : jget (Some perm) (rule_category tool) = Some (JObj members)) :
  (forall pre k act post, members = pre ++ (k, JStr act) :: post ->
     glob_match (c_str k) d = true ->
     Forall (fun e => entry_matches d e = false) post ->
     rules_lookup (Some perm) tool (Some d) = action_verdict (c_str act)) /\
  (Forall (fun e => entry_matches d e = false) members ->
     rules_lookup (Some perm) tool (Some d) =
       match jget_str (Some perm) B"*" with Some star => action_verdict star | None => -1 end).
Proof.
  unfold rules_lookup. rewrite Hcat. split.
  - intros pre k act post -> Hm Hpost. rewrite rules_loop_app. cbn [rules_loop]. rewrite Hm.
    by apply rules_loop_unmatched.
  - intros Hall. by apply rules_loop_unmatched.
Qed.

Example rules_last_match_witness :
  let table := [(B"*", JStr B"deny"); (B"git *", JStr B"allow"); (B"git push*", JStr B"deny")] in
  let perm := JObj [(B"bash", JObj table); (B"*", JStr B"ask")] in
  rules_lookup (Some perm) B"terminal" (Some B"git log") = 1.
Proof.
  intros table perm.
  refine (proj1 (rules_last_match perm B"terminal" B"git log" table eq_refl)
    [(B"*", JStr B"deny")] B"git *" B"allow" [(B"git push*", JStr B"deny")] eq_refl _ _);
    [by vm_compute | repeat constructor].
Defined.
