(* ===== verification/Search.v ===== *)
(** Substring search as the C library does it, and what the first occurrence
    is. Shared by the editor and the transcript verifier. *)
From S2P Require Import Prelude.

Local Open Scope nat_scope.

(** [strstr]: what precedes the first occurrence and what follows it. *)
Fixpoint strstr (needle hay : bytes) : option (bytes * bytes) :=
  if has_prefix needle hay then Some ([], drop (length needle) hay)
  else match hay with
       | [] => None
       | c :: hay => '(pre, rest) ← strstr needle hay; Some (c :: pre, rest)
       end.

Definition occurs (old s : bytes) : Prop := exists p r, s = p ++ old ++ r.

Lemma strstr_some old s p r :
  strstr old s = Some (p, r) ->
  s = p ++ old ++ r /\ forall p' r', s = p' ++ old ++ r' -> length p <= length p'.
Proof.
  revert p r. induction s as [|c s IH]; intros p r; cbn [strstr].
  - destruct (has_prefix old []) eqn:H; [|done]. intros [= <- <-].
    apply has_prefix_true in H as [t H]. destruct old; [|done]. by split; [|cbn; lia].
  - destruct (has_prefix old (c :: s)) eqn:H.
    + intros [= <- <-]. apply has_prefix_true in H as [t H]. rewrite H, drop_app_exact.
      split; [done|cbn; lia].
    + destruct (strstr old s) as [[q r']|] eqn:E; [|done]. cbn [mbind option_bind].
      intros [= <- <-]. destruct (IH q r' eq_refl) as [-> Hmin]. split; [done|].
      intros [|c' p'] r1 E1; cbn in E1.
      * rewrite E1, has_prefix_app in H. done.
      * injection E1 as <- E1. apply Hmin in E1. cbn. lia.
Qed.

Lemma strstr_none old s : strstr old s = None -> ~ occurs old s.
Proof.
  induction s as [|c s IH]; cbn [strstr]; intros H (p & r & E).
  - destruct (has_prefix old []) eqn:H1; [done|]. destruct p; [|done]. cbn in E.
    rewrite E, has_prefix_app in H1. done.
  - destruct (has_prefix old (c :: s)) eqn:H1; [done|].
    destruct (strstr old s) as [[q r']|] eqn:E1; [done|].
    destruct p as [|c' p]; cbn in E; [by rewrite E, has_prefix_app in H1|].
    injection E as _ E. apply IH; [done|]. by exists p, r.
Qed.

Lemma removelast_length (s : bytes) : length (removelast s) = length s - 1.
Proof. induction s as [|c [|d s] IH]; cbn in *; lia. Qed.

(** The leftmost occurrence: none ends earlier. *)
Lemma strstr_leftmost old s p r :
  old <> [] -> strstr old s = Some (p, r) -> ~ occurs old (p ++ removelast old).
Proof.
  intros Hne H (x & y & E). destruct (strstr_some _ _ _ _ H) as [Hs Hmin].
  specialize (Hmin x (y ++ List.last old NUL :: r)).
  assert (s = x ++ old ++ y ++ List.last old NUL :: r) as Hs'.
  { rewrite Hs. rewrite (app_removelast_last NUL Hne) at 1.
    rewrite <- !app_assoc. cbn [app]. rewrite (app_assoc p), E, <- !app_assoc. done. }
  apply Hmin in Hs'. apply (f_equal length) in E. autorewrite with tny in E.
  rewrite removelast_length in E. destruct old; [done|]. cbn in *. lia.
Qed.

Lemma strstr_shorter old s p r :
  old <> [] -> strstr old s = Some (p, r) -> length r < length s.
Proof.
  intros Hne H%strstr_some. destruct H as [-> _]. autorewrite with tny. destruct old; [done|]. cbn. lia.
Qed.
