(* ===== verification/Lev.v ===== *)
(** Edit distance: alignments as the specification, and the recurrence on
    prefixes that the table-filling loops of src/src/core/edit.c and
    src/src/core/dictation_verify.c compute. *)
From S2P Require Import Prelude.

Local Open Scope nat_scope.

Section Distance.
Context {A : Type} `{EqDecision A}.
Implicit Types a b : list A.

(** [align a b n]: [a] becomes [b] with [n] insertions, deletions and
    substitutions, read from the left. *)
Inductive align : list A -> list A -> nat -> Prop :=
| align_nil : align [] [] 0
| align_ins y a b n : align a b n -> align a (y :: b) (S n)
| align_del x a b n : align a b n -> align (x :: a) b (S n)
| align_sub x y a b n : align a b n -> align (x :: a) (y :: b) (n + (if decide (x = y) then 0 else 1)).

(** The distance: the least number of edits. *)
Definition dist a b n : Prop := align a b n /\ forall m, align a b m -> n <= m.

Lemma align_app a b n c d m : align a b n -> align c d m -> align (a ++ c) (b ++ d) (n + m).
Proof.
  intros H Hc. induction H as [|y a b n H IH|x a b n H IH|x y a b n H IH]; cbn; [done|..].
  - by constructor.
  - by constructor.
  - replace (n + _ + m) with (n + m + (if decide (x = y) then 0 else 1)) by lia. by constructor.
Qed.

Lemma align_rev a b n : align a b n -> align (rev a) (rev b) n.
Proof.
  induction 1 as [|y a b n H IH|x a b n H IH|x y a b n H IH]; cbn; [constructor|..].
  - rewrite <- (app_nil_r (rev a)), <- Nat.add_1_r. apply align_app; [done|]. repeat constructor.
  - rewrite <- (app_nil_r (rev b)), <- Nat.add_1_r. apply align_app; [done|]. repeat constructor.
  - apply align_app; [done|]. apply (align_sub x y [] [] 0). constructor.
Qed.

Lemma align_rev_iff a b n : align (rev a) (rev b) n <-> align a b n.
Proof. split; [|apply align_rev]. intros H%align_rev. by rewrite !rev_involutive in H. Qed.

Lemma dist_unique a b n m : dist a b n -> dist a b m -> n = m.
Proof. intros [H1 H2] [H3 H4]. apply H2 in H3. apply H4 in H1. lia. Qed.

Lemma align_all_ins b : align [] b (length b).
Proof. induction b; by constructor. Qed.

Lemma align_all_del a : align a [] (length a).
Proof. induction a; by constructor. Qed.

(** The lengths differ by at most the edits. *)
Lemma align_length a b n : align a b n -> length a <= length b + n /\ length b <= length a + n.
Proof. induction 1; cbn; try case_decide; lia. Qed.

Lemma dist_nil_l b : dist [] b (length b).
Proof. split; [apply align_all_ins|]. intros m H%align_length. cbn in H. lia. Qed.

Lemma dist_nil_r a : dist a [] (length a).
Proof. split; [apply align_all_del|]. intros m H%align_length. cbn in H. lia. Qed.

(** The last step of an alignment. *)
Lemma align_snoc_inv a x b y n :
  align (a ++ [x]) (b ++ [y]) n ->
  (exists m, n = S m /\ align (a ++ [x]) b m) \/
  (exists m, n = S m /\ align a (b ++ [y]) m) \/
  (exists m, n = m + (if decide (x = y) then 0 else 1) /\ align a b m).
Proof.
  rewrite <- align_rev_iff, !rev_app_distr. cbn. intros H. inv H.
  - left. eexists. split; [done|]. rewrite <- align_rev_iff, rev_app_distr. done.
  - right; left. eexists. split; [done|]. rewrite <- align_rev_iff, rev_app_distr. done.
  - right; right. eexists. split; [done|]. by rewrite <- align_rev_iff.
Qed.

Lemma align_snoc_ins a b y n : align a b n -> align a (b ++ [y]) (n + 1).
Proof.
  intros. rewrite <- (app_nil_r a). apply align_app; [done|]. repeat constructor.
Qed.
Lemma align_snoc_del a x b n : align a b n -> align (a ++ [x]) b (n + 1).
Proof.
  intros. rewrite <- (app_nil_r b). apply align_app; [done|]. repeat constructor.
Qed.
Lemma align_snoc_sub a x b y n :
  align a b n -> align (a ++ [x]) (b ++ [y]) (n + (if decide (x = y) then 0 else 1)).
Proof. intros. apply align_app; [done|]. apply (align_sub x y [] [] 0). constructor. Qed.

(** The recurrence of the table: above, left and diagonal. *)
Lemma dist_snoc a x b y p q r :
  dist a (b ++ [y]) p -> dist (a ++ [x]) b q -> dist a b r ->
  dist (a ++ [x]) (b ++ [y])
    (Nat.min (p + 1) (Nat.min (q + 1) (r + (if decide (x = y) then 0 else 1)))).
Proof.
  intros [Hp Hp'] [Hq Hq'] [Hr Hr']. split.
  - destruct (Nat.min_spec (q + 1) (r + (if decide (x = y) then 0 else 1))) as [[_ ->]|[_ ->]];
      [destruct (Nat.min_spec (p + 1) (q + 1)) as [[_ ->]|[_ ->]]
      |destruct (Nat.min_spec (p + 1) (r + (if decide (x = y) then 0 else 1))) as [[_ ->]|[_ ->]]];
      auto using align_snoc_del, align_snoc_sub.
    + rewrite <- (app_nil_r (a ++ [x])). rewrite app_nil_r. by apply align_snoc_ins.
  - intros m H. apply align_snoc_inv in H as [(k & -> & H)|[(k & -> & H)|(k & -> & H)]].
    + apply Hq' in H. lia.
    + apply Hp' in H. lia.
    + apply Hr' in H. lia.
Qed.

(** Every pair of lists has a distance. *)
Lemma dist_exists a b : exists n, dist a b n.
Proof.
  revert b. induction a as [|x a IHa] using rev_ind; intros b; [eexists; apply dist_nil_l|].
  induction b as [|y b [q Hq]] using rev_ind; [eexists; apply dist_nil_r|].
  destruct (IHa (b ++ [y])) as [p Hp]. destruct (IHa b) as [r Hr].
  eexists. by apply dist_snoc.
Qed.

(** It is at least the difference of the lengths. *)
Lemma dist_length a b n : dist a b n -> length a <= length b + n /\ length b <= length a + n.
Proof. intros [H _]. by apply align_length. Qed.

End Distance.
