(* ===== verification/Edit.v ===== *)
(** Exact-match file editing of src/src/core/edit.c: the near-miss diagnostic,
    the match and replacement loops, and the atomic write, over a small model
    of the file system and of the caller's interrupt hook. *)
From S2P Require Import Prelude Search Lev.

Local Open Scope nat_scope.

Definition EDIT_CONTEXT_COMPARE_MAX : nat := 512.

(** ** Line distance *)

Definition minimum3 (a b c : nat) : nat :=
  let m := if a <? b then a else b in
  if m <? c then m else c.

(** One cell of the table, in the one-row array; [diagonal] is the cell above
    and to the left. *)
Definition distance_cell (ca : Z) (b : bytes) (t : list nat * nat) (j : nat) : list nat * nat :=
  let '(row, diagonal) := t in
  let above := nth j row 0 in
  let substitution := diagonal + (if (ca =? nth (j - 1) b NUL)%Z then 0 else 1) in
  (<[j := minimum3 (nth j row 0 + 1) (nth (j - 1) row 0 + 1) substitution]> row, above).

Definition distance_row (a b : bytes) (row : list nat) (i : nat) : list nat :=
  fst (fold_left (distance_cell (nth (i - 1) a NUL) b) (seq 1 (length b))
         (<[0 := i]> row, nth 0 row 0)).

Definition line_distance (a b : bytes) : nat :=
  let a := take EDIT_CONTEXT_COMPARE_MAX a in
  let b := take EDIT_CONTEXT_COMPARE_MAX b in
  nth (length b) (fold_left (distance_row a b) (seq 1 (length a)) (seq 0 (S (length b)))) 0.

(** ** The near-miss line *)

(** The text up to the next newline, and what follows it if there is one. *)
Fixpoint split_line (s : bytes) : bytes * option bytes :=
  match s with
  | [] => ([], None)
  | c :: s =>
    if (c =? LF)%Z then ([], Some s) else let '(l, r) := split_line s in (c :: l, r)
  end.

(** [if (n && p[n - 1] == '\r') n--]. *)
Definition strip_cr (l : bytes) : bytes :=
  if (0 <? length l) && (List.last l NUL =? CR)%Z then removelast l else l.

Fixpoint first_search_line (fuel : nat) (p : bytes) : option bytes :=
  match fuel with
  | O => None
  | S fuel =>
    match p with
    | [] => None
    | _ =>
      let '(l, next) := split_line p in
      let l := strip_cr l in
      if 0 <? length l then Some l
      else match next with None => None | Some p => first_search_line fuel p end
    end
  end.

(** The best line so far: distance ([None] is SIZE_MAX), text, number, how
    many lines share the distance. *)
Record best := mk_best { b_distance : option nat; b_text : bytes; b_line : nat; b_count : nat }.

Definition best_step (needle : bytes) (acc : best * nat) (line : bytes) : best * nat :=
  let '(b, line_no) := acc in
  let l := strip_cr line in
  let b :=
    if 0 <? length l then
      let d := line_distance needle l in
      if match b_distance b with None => true | Some e => d <? e end
      then mk_best (Some d) l line_no 1
      else if match b_distance b with None => false | Some e => d =? e end
      then mk_best (b_distance b) (b_text b) (b_line b) (b_count b + 1)
      else b
    else b in
  (b, line_no + 1).

(** The lines the scan over [data] visits: the pieces between newlines. *)
Fixpoint lines (fuel : nat) (s : bytes) : list bytes :=
  match fuel with
  | O => []
  | S fuel =>
    let '(l, next) := split_line s in
    l :: match next with None => [] | Some s => lines fuel s end
  end.

Definition all_lines (s : bytes) : list bytes := lines (S (length s)) s.

Inductive nearest_result := NoContext | Nearest (text : bytes) (line : nat) | NearestOom.

Definition nearest_unique_line (dup_ok : bool) (data old_text : bytes) : nearest_result :=
  match first_search_line (S (length old_text)) old_text with
  | None => NoContext
  | Some needle =>
    let b := fst (fold_left (best_step needle) (all_lines data) (mk_best None [] 0 0, 1)) in
    if negb (b_count b =? 1) then NoContext
    else if dup_ok then Nearest (b_text b) (b_line b) else NearestOom
  end.

(** ** The outside world

    Everything the operation cannot decide itself: the answers of the caller's
    interrupt hook, poll after poll (a missing hook never interrupts), the
    outcome of each call, and the allocations. Failed calls carry their
    errno. *)
Inductive write_result := Wrote (n : nat) | WriteError (errno : Z).

Definition EINTR : Z := 4.
Definition EIO : Z := 5.

Record world := mk_world {
  interrupted : nat -> bool;
  path_abs : bytes -> bytes + Z;
  file_slurp : bytes -> bytes + Z;
  stat_err : option Z;
  errno_before : Z;             (* errno when no call sets it *)
  name_fits : bool;             (* "%s.tmp.%d" in PATH_MAX bytes *)
  open_err : option Z;
  write_outcome : nat -> write_result;
  fchmod_err : option Z;
  close_err : option Z;
  rename_err : option Z;
  unlink_err : option Z;        (* of the one call that drops the temporary file *)
  dup_ok : bool;
  out_ok : bool }.

(** The destination and the private temporary file beside it: contents and
    permission bits. *)
Record file := mk_file { contents : bytes; mode : Z }.
Record fs := mk_fs { dest : option file; temp : option file; before_writes : nat }.

Section World.
Context (w : world).

(** [edit_is_interrupted], the [k]-th poll. *)
Definition edit_is_interrupted (k : nat) : bool := interrupted w k.

(** ** The atomic write *)

Inductive write_status := WDone | WFail (errno : Z) | WInterrupted (errno : Z).

(** The result of [unlink] is ignored: a file that cannot be removed stays. *)
Definition drop_temp (f : fs) : fs := match unlink_err w with Some _ => f | None => mk_fs (dest f) None (before_writes f) end.

(** [errno] after an interruption, where nothing restores it: after [unlink],
    and after [close] and [unlink]. *)
Definition unlink_errno (e : Z) : Z := default e (unlink_err w).
Definition close_errno (e : Z) : Z := unlink_errno (default e (close_err w)).
Definition set_temp (f : fs) (t : file) : fs := mk_fs (dest f) (Some t) (before_writes f).

(** The loop over partial writes; [i] numbers the calls. Every pass writes at
    least one byte, so one pass per byte and one to stop are enough. *)
Fixpoint write_loop (fuel : nat) (data : bytes) (offset : nat) (written : bytes) (i k : nat) :
    (write_status * bytes) * nat :=
  match fuel with
  | O => ((WFail EIO, written), k)
  | S fuel =>
    if offset <? length data then
      if edit_is_interrupted k then ((WInterrupted (errno_before w), written), S k)
      else
        let k := S k in
        match write_outcome w i with
        | WriteError e =>
          if (e =? EINTR)%Z
          then ((if edit_is_interrupted k then WInterrupted e else WFail e, written), S k)
          else ((WFail e, written), k)
        | Wrote O => ((WFail EIO, written), k)
        | Wrote n =>
          write_loop fuel data (offset + n) (written ++ take n (drop offset data)) (S i) k
        end
    else ((WDone, written), k)
  end.

Definition write_atomic_checked (data : bytes) (f : fs) (k : nat) : (write_status * fs) * nat :=
  match stat_err w, dest f with
  | Some e, _ => ((WFail e, f), k)
  | None, None => ((WFail (errno_before w), f), k)
  | None, Some old =>
    if negb (name_fits w) then ((WFail (errno_before w), f), k)
    else match open_err w with
    | Some e => ((WFail e, f), k)
    | None =>
      let '((st, written), k) := write_loop (S (length data)) data 0 [] 0 k in
      let f := set_temp f (mk_file written 384) in
      match st with
      | WInterrupted e => ((WInterrupted (close_errno e), drop_temp f), k)
      | WFail e => ((WFail e, drop_temp f), k)
      | WDone =>
        if edit_is_interrupted k then ((WInterrupted (close_errno (errno_before w)), drop_temp f), S k)
        else
          let k := S k in
          match fchmod_err w with
          | Some e => ((WFail e, drop_temp f), k)
          | None =>
            let f := set_temp f (mk_file written (Z.land (mode old) 511)) in
            match close_err w with
            | Some e => ((WFail e, drop_temp f), k)
            | None =>
              if edit_is_interrupted k then ((WInterrupted (unlink_errno (errno_before w)), drop_temp f), S k)
              else
                let k := S k in
                match rename_err w with
                | Some e => ((WFail e, drop_temp f), k)
                | None => ((WDone, mk_fs (temp f) None (before_writes f)), k)
                end
            end
          end
      end
    end
  end.

(** ** The edit *)

Inductive tny_edit_status :=
  | TNY_EDIT_OK | TNY_EDIT_NOT_FOUND | TNY_EDIT_AMBIGUOUS | TNY_EDIT_READ_ERROR
  | TNY_EDIT_WRITE_ERROR | TNY_EDIT_NOMEM | TNY_EDIT_INTERRUPTED | TNY_EDIT_BINARY.

Record tny_edit_result := mk_result {
  matches : nat; replaced : nat; nearest_context : option bytes; nearest_line : nat;
  error_number : Z }.

Definition result0 : tny_edit_result := mk_result 0 0 None 0 0.

(** The counting loop, polling at each match: whether it was interrupted, the
    matches so far, the polls. *)
Fixpoint count_loop (fuel : nat) (p old : bytes) (n k : nat) : bool * nat * nat :=
  match fuel with
  | O => (false, n, k)
  | S fuel =>
    match strstr old p with
    | None => (false, n, k)
    | Some (_, rest) =>
      if edit_is_interrupted k then (true, n, S k) else count_loop fuel rest old (S n) (S k)
    end
  end.

(** The replacement loop, polling at each round; [None] is an interruption. *)
Fixpoint replace_loop (fuel : nat) (p old new : bytes) (all : bool) (out : bytes) (k : nat) :
    option bytes * nat :=
  match fuel with
  | O => (Some (out ++ p), k)
  | S fuel =>
    if edit_is_interrupted k then (None, S k)
    else
      match strstr old p with
      | None => (Some (out ++ p), S k)
      | Some (pre, rest) =>
        let out := out ++ pre ++ new in
        if all then replace_loop fuel rest old new all out (S k)
        else (Some (out ++ rest), S k)
      end
  end.

Definition with_matches (r : tny_edit_result) (n : nat) : tny_edit_result :=
  mk_result n (replaced r) (nearest_context r) (nearest_line r) (error_number r).
Definition with_error (r : tny_edit_result) (e : Z) : tny_edit_result :=
  mk_result (matches r) (replaced r) (nearest_context r) (nearest_line r) e.

(** From the counted matches on. *)
Definition edit_apply (data old new : bytes) (all : bool) (f : fs) (r : tny_edit_result) (k : nat) :
    tny_edit_status * tny_edit_result * fs :=
  match replace_loop (S (length data)) data old new all [] k with
  | (None, _) => (TNY_EDIT_INTERRUPTED, r, f)
  | (Some out, k) =>
    if negb (out_ok w) then (TNY_EDIT_NOMEM, r, f)
    else
      let f := mk_fs (dest f) (temp f) (S (before_writes f)) in
      match write_atomic_checked out f k with
      | ((WInterrupted e, f), _) => (TNY_EDIT_INTERRUPTED, with_error r e, f)
      | ((WFail e, f), _) => (TNY_EDIT_WRITE_ERROR, with_error r e, f)
      | ((WDone, f), _) =>
        (TNY_EDIT_OK,
         mk_result (matches r) (if all then matches r else 1) (nearest_context r)
           (nearest_line r) (error_number r), f)
      end
  end.

Definition tny_edit_file_exact (path old new : option bytes) (all : bool) (f : fs) :
    tny_edit_status * tny_edit_result * fs :=
  match path, old, new with
  | Some path, Some old, Some new =>
    if (length path =? 0) || (length old =? 0) then (TNY_EDIT_NOT_FOUND, result0, f)
    else
      match path_abs w path with
      | inr e => (TNY_EDIT_READ_ERROR, with_error result0 e, f)
      | inl resolved =>
        match file_slurp w resolved with
        | inr e => (TNY_EDIT_READ_ERROR, with_error result0 e, f)
        | inl data =>
          if mem_byte NUL data then (TNY_EDIT_BINARY, result0, f)
          else
            match count_loop (S (length data)) data old 0 0 with
            | (true, n, _) => (TNY_EDIT_INTERRUPTED, with_matches result0 n, f)
            | (false, 0, k) =>
              let near := nearest_unique_line (dup_ok w) data old in
              if edit_is_interrupted k then (TNY_EDIT_INTERRUPTED, result0, f)
              else match near with
                   | NoContext => (TNY_EDIT_NOT_FOUND, result0, f)
                   | Nearest t l => (TNY_EDIT_NOT_FOUND, mk_result 0 0 (Some t) l 0, f)
                   | NearestOom => (TNY_EDIT_NOMEM, result0, f)
                   end
            | (false, n, k) =>
              let r := with_matches result0 n in
              if (1 <? n) && negb all then (TNY_EDIT_AMBIGUOUS, r, f)
              else edit_apply data old new all f r k
            end
        end
      end
  | _, _, _ => (TNY_EDIT_NOT_FOUND, result0, f)
  end.

End World.

(** ** Specifications *)

(** The lines that can be reported: number and text of each that is not
    blank. *)
Fixpoint candidates (line_no : nat) (ls : list bytes) : list (nat * bytes) :=
  match ls with
  | [] => []
  | l :: ls =>
    (if 0 <? length (strip_cr l) then [(line_no, strip_cr l)] else []) ++
    candidates (S line_no) ls
  end.

(** One candidate is strictly nearer than all the others. *)
Definition unique_nearest (needle : bytes) (cs : list (nat * bytes)) (c : nat * bytes) : Prop :=
  exists pre post, cs = pre ++ c :: post /\
    Forall (fun c' => line_distance needle c.2 < line_distance needle c'.2) (pre ++ post).

Fixpoint join (sep : bytes) (ps : list bytes) : bytes :=
  match ps with
  | [] => []
  | [p] => p
  | p :: ps => p ++ sep ++ join sep ps
  end.

(** The pieces between the leftmost non-overlapping occurrences: no occurrence
    of [old] ends before the one that follows a piece does, and none is in the
    last piece. *)
Fixpoint greedy (old : bytes) (ps : list bytes) : Prop :=
  match ps with
  | [] => False
  | [p] => ~ occurs old p
  | p :: ps => ~ occurs old (p ++ removelast old) /\ greedy old ps
  end.

(** ** Lemmas: the distance *)

Lemma minimum3_min a b c : minimum3 a b c = Nat.min a (Nat.min b c).
Proof.
  unfold minimum3. cbv zeta. destruct (Nat.ltb_spec a b).
  - destruct (Nat.ltb_spec a c); lia.
  - destruct (Nat.ltb_spec b c); lia.
Qed.

Lemma nth_insert_eq (row : list nat) j v : j < length row -> nth j (<[j := v]> row) 0 = v.
Proof.
  revert j. induction row as [|x row IH]; intros [|j] H; simpl in *; [lia..|done|].
  apply IH. lia.
Qed.

Lemma nth_insert_ne (row : list nat) j k v : j <> k -> nth k (<[j := v]> row) 0 = nth k row 0.
Proof.
  revert j k. induction row as [|x row IH]; intros [|j] [|k] H; try done. cbn. apply IH. lia.
Qed.

Lemma take_snoc (s : bytes) i :
  i < length s -> take (S i) s = take i s ++ [nth i s NUL].
Proof.
  revert i. induction s as [|c s IH]; intros [|i] H; simpl in *; try lia; [done|].
  by rewrite <- IH by lia.
Qed.

(** Row [i] of the table. *)
Definition row_ok (a b : bytes) (i : nat) (row : list nat) : Prop :=
  length row = S (length b) /\
  forall j, j <= length b -> dist (take i a) (take j b) (nth j row 0).

(** The row while cell [j] is next: cells before it are new. *)
Definition cells_ok (a b : bytes) (i j : nat) (t : list nat * nat) : Prop :=
  length t.1 = S (length b) /\
  (forall k, k < j -> dist (take (S i) a) (take k b) (nth k t.1 0)) /\
  (forall k, j <= k <= length b -> dist (take i a) (take k b) (nth k t.1 0)) /\
  dist (take i a) (take (j - 1) b) t.2.

Lemma distance_cell_ok a b i j t :
  i < length a -> 1 <= j <= length b ->
  cells_ok a b i j t -> cells_ok a b i (S j) (distance_cell (nth i a NUL) b t j).
Proof.
  intros Hi Hj (Hl & Hnew & Hold & Hd). destruct t as [row diagonal]. cbn in *.
  unfold distance_cell, cells_ok. cbn [fst snd]. rewrite length_insert.
  split_and!; [done| | |].
  - intros k Hk. destruct (Nat.eq_dec k j) as [->|Hne].
    + rewrite nth_insert_eq, minimum3_min by lia.
      destruct j as [|j]; [lia|]. replace (S j - 1) with j in * by lia.
      rewrite (take_snoc a i), (take_snoc b j) by lia.
      pose proof (dist_snoc (take i a) (nth i a NUL) (take j b) (nth j b NUL)
        (nth (S j) row 0) (nth j row 0) diagonal) as D.
      replace (if (nth i a NUL =? nth j b NUL)%Z then 0 else 1)
        with (if decide (nth i a NUL = nth j b NUL) then 0 else 1)
        by (destruct (Z.eqb_spec (nth i a NUL) (nth j b NUL)); case_decide; done).
      apply D; [rewrite <- take_snoc by lia; apply Hold; lia
               |rewrite <- take_snoc by lia; apply Hnew; lia|done].
    + rewrite nth_insert_ne by done. apply Hnew. lia.
  - intros k Hk. rewrite nth_insert_ne by lia. apply Hold. lia.
  - replace (S j - 1) with j by lia. apply Hold. lia.
Qed.

Lemma distance_cells_ok a b i n j t :
  i < length a -> 1 <= j -> j + n <= S (length b) -> cells_ok a b i j t ->
  cells_ok a b i (j + n) (fold_left (distance_cell (nth i a NUL) b) (seq j n) t).
Proof.
  revert j t. induction n as [|n IH]; intros j t Hi Hj Hn Ht; cbn [seq fold_left].
  - by rewrite Nat.add_0_r.
  - rewrite Nat.add_succ_r. apply (IH (S j)); try lia. apply distance_cell_ok; [lia..|done].
Qed.

Lemma distance_row_ok a b i row :
  i < length a -> row_ok a b i row -> row_ok a b (S i) (distance_row a b row (S i)).
Proof.
  intros Hi [Hl Hr]. unfold distance_row. replace (S i - 1) with i by lia.
  assert (H : cells_ok a b i (1 + length b)
    (fold_left (distance_cell (nth i a NUL) b) (seq 1 (length b)) (<[0 := S i]> row, nth 0 row 0))).
  { apply distance_cells_ok; [done|lia..|]. split_and!; cbn [fst snd].
    - by rewrite length_insert.
    - intros k Hk. assert (k = 0) as -> by lia. rewrite nth_insert_eq by lia. cbn [take].
      pose proof (dist_nil_r (take (S i) a)) as D. rewrite length_take, Nat.min_l in D by lia.
      exact D.
    - intros k Hk. rewrite nth_insert_ne by lia. apply Hr. lia.
    - apply Hr. lia. }
  destruct H as (H1 & H2 & _). split; [done|]. intros j Hj. apply H2. lia.
Qed.

Lemma distance_rows_ok a b n i row :
  i + n <= length a -> row_ok a b i row ->
  row_ok a b (i + n) (fold_left (distance_row a b) (seq (S i) n) row).
Proof.
  revert i row. induction n as [|n IH]; intros i row Hn Hr; cbn [seq fold_left].
  - by rewrite Nat.add_0_r.
  - rewrite Nat.add_succ_r. apply (IH (S i)); [lia|]. apply distance_row_ok; [lia|done].
Qed.

Lemma line_distance_dist a b :
  dist (take EDIT_CONTEXT_COMPARE_MAX a) (take EDIT_CONTEXT_COMPARE_MAX b) (line_distance a b).
Proof.
  unfold line_distance. set (a' := take _ a). set (b' := take _ b).
  pose proof (distance_rows_ok a' b' (length a') 0 (seq 0 (S (length b')))) as H.
  destruct H as [_ H]; [lia| |].
  - split; [by rewrite length_seq|]. intros j Hj. rewrite seq_nth by lia. cbn [take Nat.add].
    pose proof (dist_nil_l (take j b')) as D. rewrite length_take, Nat.min_l in D by lia. exact D.
  - specialize (H (length b') (Nat.le_refl _)). cbn [Nat.add] in H. by rewrite !firstn_all in H.
Qed.

#[local] Arguments line_distance : simpl never.

(** ** Lemmas: the near-miss line *)

Definition at_distance (needle : bytes) (d : nat) (c : nat * bytes) : bool :=
  line_distance needle c.2 =? d.

(** What the scan knows after the candidates [cs]. *)
Definition best_ok (needle : bytes) (cs : list (nat * bytes)) (b : best) : Prop :=
  match b_distance b with
  | None => cs = [] /\ b_count b = 0
  | Some d =>
    Forall (fun c => d <= line_distance needle c.2) cs /\
    exists rest, List.filter (at_distance needle d) cs = (b_line b, b_text b) :: rest /\
      b_count b = S (length rest)
  end.

Lemma filter_none needle d cs :
  Forall (fun c => d < line_distance needle c.2) cs -> List.filter (at_distance needle d) cs = [].
Proof.
  induction 1 as [|c cs Hc _ IH]; [done|]. cbn. unfold at_distance at 1.
  by rewrite (proj2 (Nat.eqb_neq _ _)) by lia.
Qed.

Lemma best_step_ok needle cs b n l :
  best_ok needle cs b ->
  snd (best_step needle (b, n) l) = S n /\
  best_ok needle (cs ++ candidates n [l]) (fst (best_step needle (b, n) l)).
Proof.
  intros H. cbn [best_step candidates fst snd]. split; [cbn; lia|].
  destruct (0 <? length (strip_cr l)) eqn:Hl; [|by rewrite !app_nil_r].
  set (t := strip_cr l). set (dt := line_distance needle t).
  unfold best_ok in H. destruct (b_distance b) as [d|] eqn:Ed.
  - destruct H as (Hall & rest & Hf & Hc). destruct (Nat.ltb_spec dt d) as [Hlt|Hge].
    + cbn. split; [apply Forall_app; split; [|by repeat constructor]|].
      * eapply Forall_impl; [|done]. cbn. lia.
      * exists []. rewrite filter_app, filter_none by (eapply Forall_impl; [|done]; cbn; lia).
        cbn. unfold at_distance. cbn. by rewrite Nat.eqb_refl.
    + destruct (Nat.eqb_spec dt d) as [Heq|Hne]; unfold best_ok; cbn [b_distance b_count b_line b_text fst];
        rewrite ?Ed; (split; [apply Forall_app; split; [done|repeat constructor; cbn; lia]|]);
        cbn [app]; rewrite filter_app, Hf; cbn [List.filter]; unfold at_distance; cbn [snd]; fold dt.
      * rewrite Heq, Nat.eqb_refl. exists (rest ++ [(n, t)]). split; [done|].
        rewrite length_app. cbn. lia.
      * rewrite (proj2 (Nat.eqb_neq _ _)) by done. exists rest. by rewrite app_nil_r.
  - destruct H as [-> _]. cbn. split; [by repeat constructor|].
    exists []. unfold at_distance. cbn. by rewrite Nat.eqb_refl.
Qed.

Lemma best_fold_ok needle ls cs b n :
  best_ok needle cs b ->
  best_ok needle (cs ++ candidates n ls) (fst (fold_left (best_step needle) ls (b, n))).
Proof.
  revert cs b n. induction ls as [|l ls IH]; intros cs b n H; cbn [fold_left].
  - by rewrite app_nil_r.
  - destruct (best_step_ok needle cs b n l H) as [Hn Hb].
    destruct (best_step needle (b, n) l) as [b' n'] eqn:E. cbn in Hn. subst n'.
    specialize (IH _ _ (S n) Hb). cbn [candidates app] in *.
    by rewrite app_nil_r, <- app_assoc in IH.
Qed.

(** Exactly one candidate at the least distance. *)
Lemma filter_empty needle d cs :
  Forall (fun c => d <= line_distance needle c.2) cs ->
  List.filter (at_distance needle d) cs = [] ->
  Forall (fun c => d < line_distance needle c.2) cs.
Proof.
  induction 1 as [|c cs Hc Hcs IH]; [by constructor|]. cbn. unfold at_distance at 1.
  destruct (Nat.eqb_spec (line_distance needle c.2) d); [done|].
  constructor; [lia|by apply IH].
Qed.

Lemma best_unique needle cs b :
  best_ok needle cs b -> b_count b = 1 -> unique_nearest needle cs (b_line b, b_text b).
Proof.
  unfold best_ok. destruct (b_distance b) as [d|]; [|intros [_ ->]; done].
  intros (Hall & rest & Hf & Hc) H1. destruct rest; [|cbn in Hc; lia].
  assert (Hin : In (b_line b, b_text b) (List.filter (at_distance needle d) cs))
    by (rewrite Hf; by left).
  apply filter_In in Hin as [Hin Hd]. apply in_split in Hin as (pre & post & ->).
  exists pre, post. split; [done|].
  rewrite filter_app in Hf. cbn [List.filter] in Hf. rewrite Hd in Hf.
  apply Nat.eqb_eq in Hd. rewrite Hd. apply filter_empty.
  - rewrite Forall_app, Forall_cons_iff in Hall. apply Forall_app. naive_solver.
  - rewrite filter_app. destruct (List.filter _ pre) as [|x xs]; [by injection Hf|].
    injection Hf as _ Hf. by destruct xs.
Qed.

Lemma unique_best needle cs b c :
  best_ok needle cs b -> unique_nearest needle cs c ->
  b_count b = 1 /\ c = (b_line b, b_text b).
Proof.
  unfold best_ok. intros H (pre & post & -> & [Hu1 Hu2]%Forall_app).
  destruct (b_distance b) as [d|]; [|destruct H as [E _]; by destruct pre].
  destruct H as (Hall & rest & Hf & Hc).
  rewrite Forall_app, Forall_cons_iff in Hall. destruct Hall as (_ & Hle & _).
  rewrite filter_app in Hf. cbn [List.filter] in Hf.
  destruct (Nat.eq_dec (line_distance needle c.2) d) as [<-|Hne].
  - rewrite !filter_none in Hf by done. unfold at_distance in Hf.
    rewrite Nat.eqb_refl in Hf. injection Hf as E <-. by rewrite Hc.
  - unfold at_distance at 2 in Hf. rewrite (proj2 (Nat.eqb_neq _ _)) in Hf by done.
    rewrite !filter_none in Hf by (eapply Forall_impl; [|done]; cbn; lia). done.
Qed.

(** The diagnostic without allocation failure. *)
Lemma nearest_spec data old t l :
  nearest_unique_line true data old = Nearest t l <->
  exists needle, first_search_line (S (length old)) old = Some needle /\
    unique_nearest needle (candidates 1 (all_lines data)) (l, t).
Proof.
  unfold nearest_unique_line. destruct (first_search_line _ old) as [needle|];
    [|by split; [|intros (? & [=] & _)]].
  pose proof (best_fold_ok needle (all_lines data) [] (mk_best None [] 0 0) 1) as H.
  cbn [app] in H. specialize (H (conj eq_refl eq_refl)).
  set (b := fst _) in *. split.
  - destruct (Nat.eqb_spec (b_count b) 1); [|done]. intros [= <- <-].
    exists needle. split; [done|]. by apply best_unique.
  - intros (? & [= <-] & Hu). destruct (unique_best _ _ _ _ H Hu) as [-> [= -> ->]]. done.
Qed.

(** ** Lemmas: occurrences *)

(** The pieces both loops walk over. *)
Fixpoint pieces (fuel : nat) (old s : bytes) : list bytes :=
  match fuel with
  | O => [s]
  | S fuel =>
    match strstr old s with
    | None => [s]
    | Some (p, r) => p :: pieces fuel old r
    end
  end.

Lemma pieces_nonempty fuel old s : pieces fuel old s <> [].
Proof. destruct fuel; cbn; [done|]. by destruct (strstr old s) as [[]|]. Qed.

Lemma join_cons sep p ps : ps <> [] -> join sep (p :: ps) = p ++ sep ++ join sep ps.
Proof. by destruct ps. Qed.

Lemma pieces_spec fuel old s :
  old <> [] -> length s < fuel ->
  join old (pieces fuel old s) = s /\ greedy old (pieces fuel old s).
Proof.
  intros Hne. revert s. induction fuel as [|fuel IH]; intros s Hf; [lia|]. cbn [pieces].
  destruct (strstr old s) as [[p r]|] eqn:E.
  - pose proof (strstr_shorter _ _ _ _ Hne E). destruct (IH r ltac:(lia)) as [Hj Hg].
    pose proof (pieces_nonempty fuel old r) as Hn.
    split; [rewrite join_cons, Hj by done; by apply strstr_some in E as [-> _]|].
    pose proof (strstr_leftmost _ _ _ _ Hne E).
    by destruct (pieces fuel old r).
  - split; [done|]. by apply strstr_none.
Qed.

(** ** Lemmas: the loops *)

(** A count or a text is only produced uninterrupted, and then it is the one
    the pieces give. *)
Lemma count_loop_result w fuel old s n k n' k' :
  count_loop w fuel s old n k = (false, n', k') -> n' = n + (length (pieces fuel old s) - 1).
Proof.
  revert s n k. induction fuel as [|fuel IH]; intros s n k; cbn [count_loop pieces].
  - intros [= <- _]. cbn. lia.
  - destruct (strstr old s) as [[p r]|]; [|intros [= <- _]; cbn; lia].
    destruct (edit_is_interrupted w k); [done|]. intros H%IH. cbn [length].
    pose proof (pieces_nonempty fuel old r). destruct (pieces fuel old r); [done|]. cbn in *. lia.
Qed.

Lemma pieces_last fuel old s x : pieces fuel old s = [x] -> s = x.
Proof.
  destruct fuel; cbn; [by intros [=]|]. destruct (strstr old s) as [[p r]|].
  - intros E. injection E as _ E. by apply pieces_nonempty in E.
  - by intros [=].
Qed.

Lemma replace_loop_result w fuel old new all s out k text k' :
  length s < fuel -> old <> [] -> all = true \/ length (pieces fuel old s) <= 2 ->
  replace_loop w fuel s old new all out k = (Some text, k') ->
  text = out ++ join new (pieces fuel old s).
Proof.
  intros Hf Hne. revert s out k Hf. induction fuel as [|fuel IH]; intros s out k Hf Ha; [lia|].
  cbn [replace_loop pieces] in *. destruct (edit_is_interrupted w k); [done|].
  destruct (strstr old s) as [[p r]|] eqn:E; [|by intros [= <- _]].
  pose proof (strstr_shorter _ _ _ _ Hne E).
  pose proof (pieces_nonempty fuel old r) as Hn. rewrite join_cons by done. cbn [length] in *.
  destruct all.
  - intros Ht%IH; [|lia|by left]. by rewrite Ht, <- !app_assoc.
  - destruct Ha as [|Ha]; [done|]. intros [= <- _].
    destruct (pieces fuel old r) as [|x [|y ps]] eqn:Ep; [done| |cbn in Ha; lia].
    apply pieces_last in Ep as ->. by rewrite <- !app_assoc.
Qed.

(** Without interruptions both loops produce something. *)
Section Quiet.
Context (w : world) (quiet : forall k, interrupted w k = false).

Lemma not_interrupted k : edit_is_interrupted w k = false.
Proof. apply quiet. Qed.

Lemma count_loop_quiet fuel old s n k : exists n' k', count_loop w fuel s old n k = (false, n', k').
Proof.
  revert s n k. induction fuel as [|fuel IH]; intros s n k; cbn [count_loop]; [by eexists _, _|].
  destruct (strstr old s) as [[p r]|]; [|by eexists _, _]. rewrite not_interrupted. apply IH.
Qed.

Lemma replace_loop_quiet fuel old new all s out k :
  exists text k', replace_loop w fuel s old new all out k = (Some text, k').
Proof.
  revert s out k. induction fuel as [|fuel IH]; intros s out k; cbn [replace_loop]; [by eexists _, _|].
  rewrite not_interrupted. destruct (strstr old s) as [[p r]|]; [|by eexists _, _].
  destruct all; [apply IH|by eexists _, _].
Qed.

(** Writes that make progress. *)
Lemma write_loop_quiet fuel data offset i k :
  (forall j, exists n, 0 < n /\ write_outcome w j = Wrote n) ->
  length data - offset < fuel ->
  exists k', write_loop w fuel data offset (take offset data) i k = ((WDone, data), k').
Proof.
  intros Hw. revert offset i k. induction fuel as [|fuel IH]; intros offset i k Hf; [lia|].
  cbn [write_loop]. destruct (Nat.ltb_spec offset (length data)).
  - rewrite not_interrupted. destruct (Hw i) as (n & Hn & ->).
    destruct n as [|n]; [lia|].
    replace (take offset data ++ take (S n) (drop offset data)) with (take (offset + S n) data)
      by (rewrite <- (firstn_skipn offset (take (offset + S n) data)), take_take, skipn_firstn_comm;
          do 2 f_equal; lia).
    apply IH. lia.
  - exists k. by rewrite firstn_all2 by lia.
Qed.

End Quiet.

(** In any world the loop only reports success once everything is written. *)
Lemma write_loop_done w fuel data offset i k written k' :
  write_loop w fuel data offset (take offset data) i k = ((WDone, written), k') -> written = data.
Proof.
  revert offset i k. induction fuel as [|fuel IH]; intros offset i k; cbn [write_loop]; [done|].
  destruct (Nat.ltb_spec offset (length data)).
  - destruct (edit_is_interrupted _ _); [done|]. destruct (write_outcome w i) as [[|n]|e]; [done| |].
    + replace (take offset data ++ take (S n) (drop offset data)) with (take (offset + S n) data)
        by (rewrite <- (firstn_skipn offset (take (offset + S n) data)), take_take, skipn_firstn_comm;
            do 2 f_equal; lia).
      apply IH.
    + repeat case_if; done.
  - intros [= <- _]. by rewrite firstn_all2 by lia.
Qed.

(** The bound on the passes is enough: with more, nothing changes. *)
Lemma write_loop_fuel w fuel fuel' data offset written i k :
  length data - offset < fuel -> fuel <= fuel' ->
  write_loop w fuel' data offset written i k = write_loop w fuel data offset written i k.
Proof.
  revert fuel' offset written i k. induction fuel as [|fuel IH]; intros [|fuel'] offset written i k H1 H2;
    try lia. cbn [write_loop]. destruct (Nat.ltb_spec offset (length data)); [|done].
  destruct (edit_is_interrupted _ _); [done|]. destruct (write_outcome w i) as [[|n]|e]; try done.
  apply IH; lia.
Qed.

Lemma drop_temp_cases w f : dest (drop_temp w f) = dest f /\ before_writes (drop_temp w f) = before_writes f /\
  (temp (drop_temp w f) = None \/ is_Some (unlink_err w)).
Proof. unfold drop_temp. destruct (unlink_err w); cbn; eauto. Qed.

(** What the atomic write leaves behind, in every world. *)
Lemma write_atomic_cases w data f k st f' k' :
  temp f = None -> write_atomic_checked w data f k = ((st, f'), k') ->
  (temp f' = None \/ is_Some (unlink_err w) /\ st <> WDone) /\ before_writes f' = before_writes f /\
  match st with
  | WDone => exists old, dest f = Some old /\ dest f' = Some (mk_file data (Z.land (mode old) 511))
  | _ => dest f' = dest f
  end.
Proof.
  intros Ht. unfold write_atomic_checked.
  destruct (stat_err w); [intros [= <- <- _]; auto|].
  destruct (dest f) as [old|] eqn:Ed; [|intros [= <- <- _]; auto].
  destruct (name_fits w); [|intros [= <- <- _]; auto].
  destruct (open_err w); [intros [= <- <- _]; auto|]. cbn [negb].
  destruct (write_loop w (S (length data)) data 0 [] 0 k) as [[s written] k1] eqn:El.
  assert (forall t s', s' <> WDone -> let f1 := drop_temp w (set_temp f t) in
    (temp f1 = None \/ is_Some (unlink_err w) /\ s' <> WDone) /\ before_writes f1 = before_writes f /\ dest f1 = Some old) as Hdrop.
  { intros t s' Hs'. destruct (drop_temp_cases w (set_temp f t)) as (E1 & E2 & E3). cbn in *. rewrite E1, E2. destruct E3; auto. }
  destruct s; [|intros [= <- <- _]; by refine (Hdrop _ _ _)..].
  apply (write_loop_done w _ data 0) in El as ->.
  destruct (edit_is_interrupted w k1); [intros [= <- <- _]; by refine (Hdrop _ _ _)|].
  destruct (fchmod_err w); [intros [= <- <- _]; by refine (Hdrop _ _ _)|].
  destruct (close_err w); [intros [= <- <- _]; by refine (Hdrop _ _ _)|].
  destruct (edit_is_interrupted w (S k1)); [intros [= <- <- _]; by refine (Hdrop _ _ _)|].
  destruct (rename_err w); [intros [= <- <- _]; by refine (Hdrop _ _ _)|].
  intros [= <- <- _]. cbn. eauto 6.
Qed.

Lemma edit_apply_cases w data old new all f r k st r' f' :
  old <> [] -> temp f = None -> all = true \/ matches r = 1 ->
  matches r = length (pieces (S (length data)) old data) - 1 ->
  edit_apply w data old new all f r k = (st, r', f') ->
  (temp f' = None \/ is_Some (unlink_err w) /\ st <> TNY_EDIT_OK) /\ matches r' = matches r /\
  match st with
  | TNY_EDIT_OK => exists m,
      dest f = Some m /\
      dest f' = Some (mk_file (join new (pieces (S (length data)) old data)) (Z.land (mode m) 511)) /\
      replaced r' = matches r /\ before_writes f' = S (before_writes f)
  | _ => dest f' = dest f
  end.
Proof.
  intros Hne Ht Ha Hm. unfold edit_apply.
  destruct (replace_loop w _ data old new all [] k) as [[text|] k1] eqn:Er;
    [|intros [= <- <- <-]; auto].
  apply replace_loop_result in Er; [|lia|done|destruct Ha; [by left|right; lia]].
  destruct (out_ok w); [|intros [= <- <- <-]; auto]. cbn [negb].
  destruct (write_atomic_checked _ _ _ _) as [[s f1] k2] eqn:Ew.
  apply write_atomic_cases in Ew as (Ht' & Hb & Hd); [|done]. cbn in Hb, Hd.
  assert (forall s', (s <> WDone -> s' <> TNY_EDIT_OK) -> temp f1 = None \/ is_Some (unlink_err w) /\ s' <> TNY_EDIT_OK) as Hs
    by (intros s' Hs'; destruct Ht' as [|[]]; auto).
  destruct s; intros [= <- <- <-]; cbn; [|split_and!; [by apply Hs|done..]..]. split_and!; [by apply Hs|done|].
  destruct Hd as (m & E1 & E2). exists m. rewrite E2, Er. split_and!; try done.
  destruct all, Ha; try done.
Qed.

(** ** Properties *)

(** The table-filling loop computes the edit distance of the two lines,
    each cut at the comparison limit: no sequence of fewer insertions,
    deletions and substitutions turns one into the other. *)
Theorem line_distance_is_least a b :
  dist (take EDIT_CONTEXT_COMPARE_MAX a) (take EDIT_CONTEXT_COMPARE_MAX b) (line_distance a b).
Proof. apply line_distance_dist. Qed.

(** when nothing matches, a line is reported exactly if it is the only
    line, among those not blank, nearest to the first line of the search text
    that is not blank; its text and number are that line's. *)
Theorem nearest_context_iff data old t l :
  nearest_unique_line true data old = Nearest t l <->
  exists needle, first_search_line (S (length old)) old = Some needle /\
    unique_nearest needle (candidates 1 (all_lines data)) (l, t).
Proof. apply nearest_spec. Qed.

(** C26: whatever the outside world does (failed calls, partial writes,
    interruptions at any poll), the temporary file is gone at the end, but for an
    edit that does not succeed and whose [unlink] fails, and the destination is
    unchanged unless the edit reports success; then its contents are the old ones
    with the leftmost non-overlapping occurrences replaced, all of them or the
    only one, and it keeps its rwx bits alone. *)
Theorem edit_commits_or_leaves (w : world) (path old new : option bytes) (all : bool) (f : fs)
    (Ht : temp f = None) :
  let '(st, r, f') := tny_edit_file_exact w path old new all f in
  (temp f' = None \/ is_Some (unlink_err w) /\ st <> TNY_EDIT_OK) /\
  match st with
  | TNY_EDIT_OK => exists p resolved o n data ps m,
      path = Some p /\ path_abs w p = inl resolved /\ file_slurp w resolved = inl data /\
      old = Some o /\ new = Some n /\ ~ In NUL data /\
      data = join o ps /\ greedy o ps /\ 2 <= length ps /\ (all = true \/ length ps = 2) /\
      dest f = Some m /\ dest f' = Some (mk_file (join n ps) (Z.land (mode m) 511)) /\
      matches r = length ps - 1 /\ replaced r = length ps - 1
  | _ => dest f' = dest f
  end.
Proof.
  destruct (tny_edit_file_exact w path old new all f) as [[st r] f'] eqn:E.
  unfold tny_edit_file_exact in E.
  destruct path as [path|], old as [o|], new as [n|]; simplify_eq; try (split; [by left|done]).
  destruct (Nat.eqb_spec (length path) 0), (Nat.eqb_spec (length o) 0); cbn [orb] in E;
    simplify_eq; try (split; [by left|done]).
  destruct (path_abs w path) as [resolved|] eqn:Ep; simplify_eq; [|split; [by left|done]].
  destruct (file_slurp w _) as [data|] eqn:Es; simplify_eq; [|split; [by left|done]].
  destruct (mem_byte NUL data) eqn:Hnul; simplify_eq; [split; [by left|done]|].
  destruct (count_loop w _ data o 0 0) as [[[] cnt] k] eqn:Ec; simplify_eq; [split; [by left|done]|].
  apply count_loop_result in Ec. cbn [Nat.add] in Ec.
  assert (Hne : o <> []) by by destruct o.
  destruct cnt as [|cnt]; [by repeat (case_match; simplify_eq); split; try left|].
  destruct ((1 <? S cnt) && negb all) eqn:Ha; simplify_eq; [split; [by left|done]|].
  apply edit_apply_cases in E as (H1 & H2 & H3); [|done..| |done].
  - split; [done|]. destruct st; try done. destruct H3 as (m & E1 & E2 & E3 & _).
    destruct (pieces_spec (S (length data)) o data Hne ltac:(lia)) as [Hj Hg].
    exists path, resolved, o, n, data, (pieces (S (length data)) o data), m. cbn in H2, E3.
    split_and!; try done; [|lia| |lia|lia].
    + intros Hin%mem_byte_true. congruence.
    + destruct all; [by left|right]. cbn [negb] in Ha. rewrite andb_true_r in Ha.
      destruct cnt; [lia|done].
  - cbn. destruct all; [by left|right]. destruct cnt; done.
Qed.

(** A world in which every call succeeds and nothing interrupts. *)
Definition calm (w : world) (data : bytes) : Prop :=
  (forall k, interrupted w k = false) /\
  (forall p, exists r, path_abs w p = inl r) /\ (forall p, file_slurp w p = inl data) /\
  stat_err w = None /\ name_fits w = true /\ open_err w = None /\
  (forall i, exists n, 0 < n /\ write_outcome w i = Wrote n) /\
  fchmod_err w = None /\ close_err w = None /\ rename_err w = None /\
  dup_ok w = true /\ out_ok w = true.

Lemma write_atomic_calm w data text f k m :
  calm w data -> dest f = Some m ->
  exists k', write_atomic_checked w text f k =
    ((WDone, mk_fs (Some (mk_file text (Z.land (mode m) 511))) None (before_writes f)), k').
Proof.
  intros (Hq & _ & _ & Hs & Hn & Ho & Hw & Hf & Hc & Hr & _) Hd. unfold write_atomic_checked.
  rewrite Hs, Hd, Hn, Ho. cbn [negb].
  destruct (write_loop_quiet w Hq (S (length text)) text 0 0 k Hw ltac:(lia)) as [k1 E].
  change (take 0 text) with (@nil Z) in E. rewrite E. rewrite !(not_interrupted w Hq), Hf, Hc, Hr. by eexists.
Qed.

(** C35: when nothing fails or interrupts, the outcome is the one the interface
    promises: NUL bytes are refused, no occurrence is "not found", several are
    ambiguous unless all are to be replaced, and otherwise the edit succeeds,
    having called the before-write hook once. Partial writes of any size do
    not matter. *)
Theorem edit_file_outcome (w : world) (path old new data : bytes) (all : bool) (m : file) (n0 : nat)
    (Hcalm : calm w data) (Hpath : path <> []) (Hold : old <> []) :
  let f := mk_fs (Some m) None n0 in
  let '(st, r, f') := tny_edit_file_exact w (Some path) (Some old) (Some new) all f in
  if mem_byte NUL data then st = TNY_EDIT_BINARY /\ f' = f
  else exists ps, data = join old ps /\ greedy old ps /\
    match length ps - 1 with
    | O => st = TNY_EDIT_NOT_FOUND /\ f' = f
    | k =>
      if (1 <? k) && negb all then st = TNY_EDIT_AMBIGUOUS /\ f' = f /\ matches r = k
      else st = TNY_EDIT_OK /\ replaced r = k /\
           f' = mk_fs (Some (mk_file (join new ps) (Z.land (mode m) 511))) None (S n0)
    end.
Proof.
  cbv zeta. pose proof Hcalm as (Hq & Hp & Hs & _ & _ & _ & _ & _ & _ & _ & Hdup & Hout).
  unfold tny_edit_file_exact. destruct (Hp path) as [rp ->]. rewrite (Hs rp).
  rewrite (proj2 (Nat.eqb_neq (length path) 0)) by by destruct path.
  rewrite (proj2 (Nat.eqb_neq (length old) 0)) by by destruct old. cbn [orb].
  destruct (mem_byte NUL data); [done|].
  destruct (count_loop_quiet w Hq (S (length data)) old data 0 0) as (cnt & k & Ec). rewrite Ec.
  apply count_loop_result in Ec. cbn [Nat.add] in Ec.
  set (ps := pieces (S (length data)) old data) in *.
  destruct (pieces_spec (S (length data)) old data Hold ltac:(lia)) as [Hj Hg]. fold ps in Hj, Hg.
  destruct cnt as [|cnt].
  - rewrite (not_interrupted w Hq), Hdup.
    destruct (nearest_unique_line true data old) eqn:En;
      try (exists ps; rewrite <- Ec; by split_and!).
    unfold nearest_unique_line in En. by repeat case_match.
  - destruct ((1 <? S cnt) && negb all) eqn:Ha; [exists ps; rewrite <- Ec, Ha; by split_and!|].
    unfold edit_apply.
    destruct (replace_loop_quiet w Hq (S (length data)) old new all data [] k) as (text & k1 & Er).
    rewrite Er. apply replace_loop_result in Er; [|lia|done|].
    2: { destruct all; [by left|right]. fold ps. cbn [negb] in Ha. rewrite andb_true_r in Ha.
         destruct cnt; [lia|done]. }
    rewrite Hout. cbn [negb app dest temp before_writes] in *. fold ps in Er.
    edestruct (write_atomic_calm w data text) as [k2 ->]; [done..|].
    exists ps. rewrite <- Ec, Ha, Er. cbn. split_and!; try done.
    destruct all; [done|]. cbn [negb] in Ha. rewrite andb_true_r in Ha. by destruct cnt.
Qed.

(** A calm world that writes at most three bytes at a time. *)
Definition calm_world (data : bytes) : world :=
  mk_world (fun _ => false) inl (fun _ => inl data) None 0 true None (fun _ => Wrote 3)
    None None None None true true.

Lemma calm_world_calm data : calm (calm_world data) data.
Proof. unfold calm. cbn. split_and!; eauto. intros _. exists 3. split; [lia|done]. Qed.

(** A world whose [rename] fails: the edit is undone. *)
Definition no_rename_world (data : bytes) : world :=
  mk_world (fun _ => false) inl (fun _ => inl data) None 0 true None (fun _ => Wrote 3)
    None None (Some 16%Z) None true true.

Example edit_commits_or_leaves_witness :
  let f := mk_fs (Some (mk_file B"a-b-c" 33261)) None 0 in
  let '(st, r, f') := tny_edit_file_exact (no_rename_world B"a-b-c") (Some B"x") (Some B"-") (Some B"+")
    true f in
  (temp f' = None \/ is_Some (unlink_err (no_rename_world B"a-b-c")) /\ st <> TNY_EDIT_OK) /\ dest f' = dest f.
Proof.
  exact (edit_commits_or_leaves (no_rename_world B"a-b-c") (Some B"x") (Some B"-") (Some B"+") true
    (mk_fs (Some (mk_file B"a-b-c" 33261)) None 0) eq_refl).
Defined.

Example edit_file_outcome_witness :
  let f := mk_fs (Some (mk_file B"a-b-c" 33261)) None 0 in
  let '(st, r, f') := tny_edit_file_exact (calm_world B"a-b-c") (Some B"x") (Some B"-b") (Some B"+")
    false f in
  exists ps, B"a-b-c" = join B"-b" ps /\ greedy B"-b" ps /\
    st = TNY_EDIT_OK /\ dest f' = Some (mk_file (join B"+" ps) 493).
Proof.
  destruct (edit_file_outcome (calm_world B"a-b-c") B"x" B"-b" B"+" B"a-b-c" false
    (mk_file B"a-b-c" 33261) 0 (calm_world_calm _) ltac:(discriminate) ltac:(discriminate))
    as (ps & Hj & Hg & H).
  exists ps. split; [exact Hj|]. split; [exact Hg|].
  destruct (length ps - 1) as [|[|k]].
  - destruct H as [H _]. vm_compute in H. discriminate H.
  - destruct H as [_ [_ H]]. split; [vm_compute; reflexivity|]. exact (f_equal dest H).
  - destruct H as [H _]. vm_compute in H. discriminate H.
Defined.
