(* ===== verification/EditPayload.v ===== *)
(** The verb contract of src/src/core/edit.c: the JSON and marker-fence
    payloads read from standard input, and the rendered outcome. *)
From S2P Require Import Prelude Search Json Edit.

Local Open Scope nat_scope.

Record tny_edit_payload := mk_payload {
  old_text : bytes; new_text : bytes; replace_all : bool }.

(** The reason a payload is refused; [err] gets the message of the code. *)
Inductive payload_error :=
  | NotAnObject | UnknownField (name : bytes) | BadFields | NulInStrings
  | EmptyOrNul | NoSearch | NoReplace | NoEnd | TrailingData | EmptySearch
  | NoInput | OutOfMemory.

(** ** JSON payloads *)

Definition json_field_known (name : bytes) : bool :=
  str_eq name B"old" || str_eq name B"new" || str_eq name B"replace_all".

(** [strlen(s) != yyjson_get_len(v)]: a NUL inside. *)
Definition has_nul (s : bytes) : bool := negb (length (c_str s) =? length s).

Definition parse_json_payload (jparse : bytes -> option jval) (dup_ok : bool) (input : bytes) :
    tny_edit_payload + payload_error :=
  match jparse input with
  | Some (JObj members as root) =>
    match find (fun m => negb (json_field_known (c_str m.1))) members with
    | Some (name, _) => inr (UnknownField (c_str name))
    | None =>
      let all_value := jget (Some root) B"replace_all" in
      match jget (Some root) B"old", jget (Some root) B"new" with
      | Some (JStr o), Some (JStr n) =>
        if (length o =? 0) || match all_value with None | Some (JBool _) => false | _ => true end
        then inr BadFields
        else if has_nul o || has_nul n then inr NulInStrings
        else if dup_ok
        then inl (mk_payload o n match all_value with Some (JBool b) => b | _ => false end)
        else inr OutOfMemory
      | _, _ => inr BadFields
      end
    end
  | _ => inr NotAnObject
  end.

(** ** Fence payloads

    Positions are offsets into the input, as in the code. *)

(** [while (end < len && input[end] != '\n') end++]. *)
Fixpoint line_end (fuel : nat) (input : bytes) (e : nat) : nat :=
  match fuel with
  | O => e
  | S fuel =>
    if (e <? length input) && negb (nth e input NUL =? LF)%Z then line_end fuel input (S e) else e
  end.

(** Start and length of the line at [position], and the next position. *)
Definition next_line (input : bytes) (position : nat) : option (nat * nat * nat) :=
  let len := length input in
  if len <=? position then None
  else
    let start := position in
    let e := line_end len input position in
    let line_len := e - start in
    let line_len :=
      if (0 <? line_len) && (nth (start + line_len - 1) input NUL =? CR)%Z
      then line_len - 1 else line_len in
    Some (start, line_len, if e <? len then e + 1 else e).

Definition slice (input : bytes) (from to : nat) : bytes := take (to - from) (drop from input).

Definition marker_line (input : bytes) (start line_len : nat) (marker name : bytes) : bool :=
  (line_len =? length marker + 1 + length name) &&
  str_eq (slice input start (start + length marker)) marker &&
  (nth (start + length marker) input NUL =? C" ")%Z &&
  str_eq (slice input (start + length marker + 1) (start + length marker + 1 + length name)) name.

Definition body_end (input : bytes) (start e : nat) : nat :=
  let e := if (start <? e) && (nth (e - 1) input NUL =? LF)%Z then e - 1 else e in
  if (start <? e) && (nth (e - 1) input NUL =? CR)%Z then e - 1 else e.

Definition only_line_endings (input : bytes) (start : nat) : bool :=
  forallb (fun c => (c =? CR)%Z || (c =? LF)%Z) (drop start input).

(** The loop that looks for a marker: where its line starts and what follows. *)
Fixpoint find_marker (fuel : nat) (input : bytes) (position : nat) (marker name : bytes) :
    option (nat * nat) :=
  match fuel with
  | O => None
  | S fuel =>
    match next_line input position with
    | None => None
    | Some (start, line_len, position) =>
      if marker_line input start line_len marker name then Some (start, position)
      else find_marker fuel input position marker name
    end
  end.

Definition parse_fence_payload (dup_ok : bool) (input marker : bytes) :
    tny_edit_payload + payload_error :=
  let fuel := S (length input) in
  if (length input =? 0) || mem_byte NUL input then inr EmptyOrNul
  else
    match next_line input 0 with
    | Some (start, line_len, position) =>
      if negb (marker_line input start line_len marker B"SEARCH") then inr NoSearch
      else
        let old_start := position in
        match find_marker fuel input position marker B"REPLACE" with
        | None => inr NoReplace
        | Some (start, position) =>
          let old_end := body_end input old_start start in
          let new_start := position in
          match find_marker fuel input position marker B"END" with
          | None => inr NoEnd
          | Some (start, position) =>
            let new_end := body_end input new_start start in
            if negb (only_line_endings input position) then inr TrailingData
            else if old_end =? old_start then inr EmptySearch
            else if dup_ok
            then inl (mk_payload (slice input old_start old_end) (slice input new_start new_end) false)
            else inr OutOfMemory
          end
        end
    | None => inr NoSearch
    end.

Definition tny_edit_parse_payload (jparse : bytes -> option jval) (dup_ok : bool)
    (input : option bytes) (json : bool) (marker : option bytes) : tny_edit_payload + payload_error :=
  match input with
  | None => inr NoInput
  | Some input =>
    if json then parse_json_payload jparse dup_ok input
    else parse_fence_payload dup_ok input
           (match marker with Some (_ :: _ as m) => m | _ => B"***" end)
  end.

(** ** Rendering *)

(** [%zu]. *)
Fixpoint decimal (fuel n : nat) : bytes :=
  match fuel with
  | O => []
  | S fuel =>
    (if n <? 10 then [] else decimal fuel (n / 10)) ++ [(C"0" + Z.of_nat (n mod 10))%Z]
  end.
Definition fmt_zu (n : nat) : bytes := decimal (S n) n.

(** What is appended to standard output and to standard error, and the exit
    code; [strerror] is the C library's. *)
Definition tny_edit_render (strerror : Z -> bytes) (out_oom : bool) (path : bytes) (json : bool)
    (status : tny_edit_status) (r : tny_edit_result) : bytes * bytes * Z :=
  match status with
  | TNY_EDIT_INTERRUPTED => ([], [], 130%Z)
  | TNY_EDIT_BINARY =>
    ([], B"tny: edit: " ++ path ++ B" contains NUL bytes; exact edits require NUL-free text" ++ [LF], 1%Z)
  | TNY_EDIT_NOT_FOUND =>
    ([], B"tny: edit: 0 matches in " ++ path ++ [LF] ++
         match nearest_context r with
         | Some c => B"tny: edit: nearest unique context is line " ++ fmt_zu (nearest_line r) ++
                     B": " ++ c ++ [LF]
         | None => []
         end, 2%Z)
  | TNY_EDIT_AMBIGUOUS =>
    ([], B"tny: edit: " ++ fmt_zu (matches r) ++ B" matches in " ++ path ++
         B"; widen SEARCH or use JSON replace_all" ++ [LF], 2%Z)
  | TNY_EDIT_OK =>
    ((if json
      then B"{" ++ [DQUOTE] ++ B"kind" ++ [DQUOTE] ++ B":" ++ [DQUOTE] ++ B"edit" ++ [DQUOTE] ++ B"," ++
           [DQUOTE] ++ B"path" ++ [DQUOTE] ++ B":" ++ default [] (jescape [] (Some path)) ++
           B"," ++ [DQUOTE] ++ B"matches" ++ [DQUOTE] ++ B":" ++ fmt_zu (matches r) ++
           B"," ++ [DQUOTE] ++ B"replaced" ++ [DQUOTE] ++ B":" ++ fmt_zu (replaced r) ++ B"}" ++ [LF]
      else B"edited " ++ path ++ B": replaced " ++ fmt_zu (replaced r) ++ B" occurrence" ++
           (if replaced r =? 1 then [] else B"s") ++ [LF]),
     [], if out_oom then 1%Z else 0%Z)
  | _ =>
    ([], B"tny: edit: cannot " ++
         (match status with TNY_EDIT_WRITE_ERROR => B"write" | _ => B"read" end) ++ B" " ++ path ++
         B": " ++ (if (error_number r =? 0)%Z then B"out of memory" else strerror (error_number r)) ++
         [LF], 1%Z)
  end.

(** ** Specifications *)

(** The lines of a text, without their newlines; always at least one. *)
Fixpoint text_lines (s : bytes) : list bytes :=
  match s with
  | [] => [[]]
  | c :: s =>
    if (c =? LF)%Z then [] :: text_lines s
    else match text_lines s with l :: ls => (c :: l) :: ls | [] => [[c]] end
  end.

(** No line of the text reads as the marker line. *)
Definition no_marker (marker name s : bytes) : Prop :=
  Forall (fun l => strip_cr l <> marker ++ B" " ++ name) (text_lines s).

(** The fence around an edit. *)
Definition fence (marker old new : bytes) : bytes :=
  marker ++ B" SEARCH" ++ [LF] ++ old ++ [LF] ++
  marker ++ B" REPLACE" ++ [LF] ++ new ++ [LF] ++
  marker ++ B" END" ++ [LF].

(** ** Lemmas: positions in a concatenation *)

Lemma nth_app_pos (pre s : bytes) i : nth (length pre + i) (pre ++ s) NUL = nth i s NUL.
Proof. rewrite app_nth2 by lia. f_equal. lia. Qed.

Lemma slice_app (pre s : bytes) n : slice (pre ++ s) (length pre) (length pre + n) = take n s.
Proof. unfold slice. rewrite drop_app_exact. f_equal. lia. Qed.

Lemma line_end_app pre l rest fuel :
  ~ In LF l -> length l < fuel ->
  line_end fuel (pre ++ l ++ LF :: rest) (length pre) = length pre + length l.
Proof.
  revert pre fuel. induction l as [|c l IH]; intros pre fuel Hl Hf;
    (destruct fuel as [|fuel]; [simpl in Hf; lia|]); cbn [line_end].
  - rewrite <- (Nat.add_0_r (length pre)) at 2. rewrite nth_app_pos. cbn.
    rewrite andb_false_r. done.
  - rewrite (proj2 (Nat.ltb_lt _ _)) by (rewrite !length_app; cbn; lia).
    rewrite <- (Nat.add_0_r (length pre)) at 1. rewrite nth_app_pos. cbn [nth app].
    rewrite (proj2 (Z.eqb_neq c LF)) by (intros ->; apply Hl; by left). cbn [andb negb].
    specialize (IH (pre ++ [c]) fuel). rewrite <- app_assoc in IH. cbn [app] in IH.
    rewrite length_app in IH. cbn [length] in IH |- *.
    rewrite Nat.add_1_r in IH. rewrite IH; [lia|intros ?; apply Hl; by right|simpl in Hf; lia].
Qed.

Lemma last_nth (l : bytes) : List.last l NUL = nth (length l - 1) l NUL.
Proof.
  induction l as [|c [|d l] IH]; [done..|].
  change (List.last (c :: d :: l) NUL) with (List.last (d :: l) NUL). rewrite IH. cbn.
  by rewrite !Nat.sub_0_r.
Qed.

Lemma strip_cr_take l : strip_cr l = take (length (strip_cr l)) l.
Proof.
  unfold strip_cr. case_if; [|by rewrite firstn_all]. boolify.
  destruct l as [|c l]; [done|]. rewrite (app_removelast_last NUL (l := c :: l)) at 3 by done.
  by rewrite take_app_exact.
Qed.

Lemma strip_cr_length l :
  length (strip_cr l) =
    if (0 <? length l) && (nth (length l - 1) l NUL =? CR)%Z then length l - 1 else length l.
Proof. unfold strip_cr. rewrite last_nth. case_if; [apply removelast_length|done]. Qed.

Lemma strip_cr_le l : length (strip_cr l) <= length l.
Proof. rewrite strip_cr_length. case_if; lia. Qed.

(** One line of the input. *)
Lemma next_line_app pre l rest :
  ~ In LF l ->
  next_line (pre ++ l ++ LF :: rest) (length pre) =
    Some (length pre, length (strip_cr l), length pre + length l + 1).
Proof.
  intros Hl. unfold next_line.
  rewrite (proj2 (Nat.leb_gt _ _)) by (rewrite !length_app; cbn; lia).
  rewrite line_end_app by (rewrite ?length_app; cbn; done || lia). cbv zeta.
  replace (length pre + length l - length pre) with (length l) by lia.
  rewrite (proj2 (Nat.ltb_lt (length pre + length l) _)) by (rewrite !length_app; cbn; lia).
  rewrite strip_cr_length. do 3 f_equal.
  destruct (Nat.ltb_spec 0 (length l)); cbn [andb]; [|done].
  replace (length pre + length l - 1) with (length pre + (length l - 1)) by lia.
  rewrite nth_app_pos, app_nth1 by lia. done.
Qed.

(** The three comparisons of [marker_line] compare the whole line. *)
Lemma take_parts (s m n : bytes) c :
  take (length m + 1 + length n) s = m ++ c :: n <->
  (length m + 1 + length n <= length s) /\ take (length m) s = m /\ nth (length m) s NUL = c /\
  take (length n) (drop (length m + 1) s) = n.
Proof.
  split.
  - intros E. assert (length m + 1 + length n <= length s) as Hl.
    { apply (f_equal length) in E. rewrite length_take, length_app in E. cbn in E. lia. }
    rewrite <- (firstn_skipn (length m + 1 + length n) s), E.
    rewrite <- !app_assoc. cbn [app]. split_and!.
    + rewrite !length_app. cbn. rewrite length_app. lia.
    + apply take_app_exact.
    + by rewrite app_nth2, Nat.sub_diag by lia.
    + change (m ++ c :: n ++ drop (length m + 1 + length n) s)
        with (m ++ [c] ++ (n ++ drop (length m + 1 + length n) s)).
      rewrite (app_assoc m), drop_app_ge by (rewrite length_app; cbn; lia).
      rewrite length_app. cbn [length]. rewrite Nat.sub_diag. apply take_app_exact.
  - intros (Hl & E1 & E2 & E3).
    rewrite <- (firstn_skipn (length m) s) at 1. rewrite E1.
    rewrite (drop_cons_nth NUL) by lia. rewrite E2.
    rewrite take_app_ge by lia. f_equal.
    replace (length m + 1 + length n - length m) with (S (length n)) by lia. cbn [take].
    f_equal. by rewrite Nat.add_1_r in E3.
Qed.

Lemma marker_line_app pre s n marker name :
  n <= length s ->
  marker_line (pre ++ s) (length pre) n marker name =
    str_eq (take n s) (marker ++ B" " ++ name).
Proof.
  intros Hn. unfold marker_line. apply eq_true_iff_eq.
  rewrite !andb_true_iff, !str_eq_true, Nat.eqb_eq, Z.eqb_eq, nth_app_pos, slice_app.
  unfold slice. rewrite <- !Nat.add_assoc, drop_app_add' by done.
  replace (length pre + (length marker + (1 + length name)) - (length pre + (length marker + 1)))
    with (length name) by lia.
  cbn [app]. split.
  - intros [[[-> E1] E2] E3]. rewrite Nat.add_assoc. apply take_parts. split_and!; done || lia.
  - intros E. assert (n = length marker + (1 + length name)) as ->.
    { apply (f_equal length) in E. rewrite length_take, length_app in E. cbn in E. lia. }
    rewrite Nat.add_assoc in E. apply take_parts in E as (_ & E1 & E2 & E3). by split_and!.
Qed.

(** ** Lemmas: the lines of a text *)

Lemma text_split t :
  (~ In LF t /\ text_lines t = [t]) \/
  exists l t', t = l ++ LF :: t' /\ ~ In LF l /\ text_lines t = l :: text_lines t'.
Proof.
  induction t as [|c t IH]; [left; split; [by intros []|done]|]. cbn [text_lines].
  destruct (Z.eqb_spec c LF) as [->|Hc].
  - right. exists [], t. split_and!; [done|by intros []|done].
  - destruct IH as [[Hn E]|(l & t' & -> & Hn & E)]; rewrite E.
    + left. split; [|done]. intros [?|?]; auto.
    + right. exists (c :: l), t'. split_and!; [done| |done]. intros [?|?]; auto.
Qed.

Lemma find_marker_app marker name pre t rest fuel :
  ~ In LF (marker ++ B" " ++ name) -> List.last (marker ++ B" " ++ name) NUL <> CR ->
  no_marker marker name t -> length t + 1 < fuel ->
  find_marker fuel (pre ++ t ++ LF :: (marker ++ B" " ++ name) ++ LF :: rest) (length pre) marker name =
    Some (length pre + length t + 1,
          length pre + length t + 1 + length (marker ++ B" " ++ name) + 1).
Proof.
  set (m := marker ++ B" " ++ name). intros Hm Hcr. revert pre t.
  assert (Hlast : forall pre rest fuel, 0 < fuel ->
    find_marker fuel (pre ++ m ++ LF :: rest) (length pre) marker name =
      Some (length pre, length pre + length m + 1)).
  { clear fuel rest. intros pre rest [|fuel] Hf; [lia|]. cbn [find_marker].
    rewrite next_line_app by done.
    rewrite marker_line_app by (rewrite length_app; pose proof (strip_cr_le m); lia).
    assert (strip_cr m = m) as E by (unfold strip_cr; case_if; [lia|done]).
    rewrite E, take_app_exact. fold m. by rewrite str_eq_refl. }
  induction fuel as [|fuel IH]; intros pre t Hno Hf; [lia|]. cbn [find_marker].
  unfold no_marker in Hno.
  destruct (text_split t) as [[Hn E]|(l & t' & -> & Hn & E)]; rewrite E in Hno;
    apply Forall_cons_iff in Hno as [Hl Hno].
  - rewrite next_line_app by done.
    rewrite marker_line_app by (rewrite length_app; pose proof (strip_cr_le t); lia).
    rewrite take_app_le, <- strip_cr_take by apply strip_cr_le.
    rewrite (proj2 (str_eq_false _ _)) by done.
    specialize (Hlast (pre ++ t ++ [LF]) rest fuel ltac:(lia)).
    rewrite !length_app in Hlast. cbn [length] in Hlast. rewrite <- !app_assoc in Hlast.
    cbn [app] in Hlast. rewrite <- Nat.add_assoc. rewrite Nat.add_assoc in Hlast.
    rewrite Nat.add_assoc. exact Hlast.
  - rewrite <- app_assoc. cbn [app]. rewrite next_line_app by done.
    rewrite marker_line_app by (rewrite length_app; pose proof (strip_cr_le l); lia).
    rewrite take_app_le, <- strip_cr_take by apply strip_cr_le.
    rewrite (proj2 (str_eq_false _ _)) by done.
    specialize (IH (pre ++ l ++ [LF]) t' Hno). rewrite !length_app in IH. cbn [length] in IH.
    rewrite <- !app_assoc in IH. cbn [app] in IH. rewrite Nat.add_assoc in IH.
    rewrite IH by (rewrite length_app in Hf; cbn in Hf; lia).
    rewrite length_app. cbn [length]. do 2 f_equal; lia.
Qed.

(** The body before the marker's line, without the newline that ends it. *)
Lemma body_end_app pre t rest :
  List.last t NUL <> CR ->
  body_end (pre ++ t ++ LF :: rest) (length pre) (length pre + length t + 1) = length pre + length t.
Proof.
  intros Hcr. unfold body_end.
  rewrite (proj2 (Nat.ltb_lt (length pre) (length pre + length t + 1))) by lia.
  replace (length pre + length t + 1 - 1) with (length pre + length t) by lia.
  rewrite nth_app_pos, app_nth2, Nat.sub_diag by lia. cbn [nth andb]. cbv zeta.
  rewrite Z.eqb_refl. destruct (Nat.ltb_spec (length pre) (length pre + length t)); [|done].
  replace (length pre + length t - 1) with (length pre + (length t - 1)) by lia.
  rewrite nth_app_pos, app_nth1, <- last_nth by lia. cbn [andb].
  by rewrite (proj2 (Z.eqb_neq _ _)).
Qed.

(** A marker the command line may choose. *)
Definition good_marker (marker : bytes) : Prop := ~ In LF marker /\ ~ In NUL marker.

Lemma marker_text_ok marker name :
  good_marker marker -> ~ In LF name -> name <> [] -> List.last name NUL <> CR ->
  ~ In LF (marker ++ B" " ++ name) /\ List.last (marker ++ B" " ++ name) NUL <> CR.
Proof.
  intros [Hm _] Hn Hne Hl. split.
  - rewrite in_app_iff. intros [?|[?|?]]; done.
  - rewrite app_assoc. destruct name as [|c name]; [done|].
    rewrite (app_removelast_last NUL (l := c :: name)) by done. rewrite app_assoc, last_last.
    rewrite (app_removelast_last NUL (l := c :: name)), last_last in Hl by done. done.
Qed.

(** The first line of a fence. *)
Lemma fence_first marker old new :
  good_marker marker -> ~ In NUL old -> ~ In NUL new ->
  let f := fence marker old new in
  (length f =? 0) = false /\ mem_byte NUL f = false /\
  next_line f 0 = Some (0, length (marker ++ B" SEARCH"), length (marker ++ B" SEARCH") + 1) /\
  marker_line f 0 (length (marker ++ B" SEARCH")) marker B"SEARCH" = true.
Proof.
  intros Hm Ho Hn f.
  destruct (marker_text_ok marker B"SEARCH" Hm) as [HS HScr]; [cbn; intuition lia|done..|].
  set (m := marker ++ B" " ++ B"SEARCH") in *. change (marker ++ B" SEARCH") with m.
  assert (Hf : exists rest, f = m ++ LF :: rest)
    by (unfold f, fence, m; eexists; rewrite <- !app_assoc; done).
  assert (E : strip_cr m = m) by (unfold strip_cr; case_if; [lia|done]).
  split_and!.
  - unfold f, fence. rewrite !length_app. cbn. by rewrite Nat.add_comm.
  - apply not_true_iff_false. rewrite mem_byte_true. unfold f, fence.
    destruct Hm as [_ Hm]. rewrite !in_app_iff. cbn. intuition lia.
  - destruct Hf as [rest ->]. pose proof (next_line_app [] m rest HS) as N.
    by rewrite E in N.
  - destruct Hf as [rest ->]. pose proof (marker_line_app [] (m ++ LF :: rest) (length m) marker B"SEARCH") as N.
    cbn [app length] in N. rewrite N by (rewrite length_app; lia).
    rewrite take_app_exact. apply str_eq_refl.
Qed.

(** Reading a fence gives back the two texts between its markers, byte for
    byte, for every marker: provided the search text is not empty, neither text
    holds a NUL, ends in a carriage return or contains the marker line that
    would close it. *)
Theorem fence_roundtrip (marker old new : bytes)
    (Hm : good_marker marker) (Hold : old <> [])
    (Hnul : ~ In NUL old /\ ~ In NUL new)
    (Hcr : List.last old NUL <> CR /\ List.last new NUL <> CR)
    (Hno : no_marker marker B"REPLACE" old /\ no_marker marker B"END" new) :
  parse_fence_payload true (fence marker old new) marker = inl (mk_payload old new false).
Proof.
  destruct (marker_text_ok marker B"REPLACE" Hm) as [HR HRcr]; [cbn; intuition lia|done..|].
  destruct (marker_text_ok marker B"END" Hm) as [HE HEcr]; [cbn; intuition lia|done..|].
  destruct Hnul as [Ho Hn], Hcr as [Hco Hcn], Hno as [Hno1 Hno2].
  destruct (fence_first marker old new Hm) as (Hne & Hz & N1 & M1); [done..|].
  unfold parse_fence_payload. rewrite Hne, Hz, N1, M1. cbn [orb negb].
  set (S1 := marker ++ B" SEARCH") in *. set (R := marker ++ B" " ++ B"REPLACE") in *.
  set (E := marker ++ B" " ++ B"END") in *.
  set (f := fence marker old new) in *. set (fuel := S (length f)).
  set (pre := S1 ++ [LF]). set (pre2 := pre ++ old ++ LF :: R ++ [LF]).
  assert (Hfuel : length old + length new + 1 < fuel)
    by (unfold fuel, f, fence; rewrite !length_app; cbn; lia).
  assert (F : f = pre ++ old ++ LF :: R ++ LF :: new ++ LF :: E ++ [LF])
    by (unfold f, fence, pre, S1, R, E; rewrite <- !app_assoc; done).
  assert (F2 : f = pre2 ++ new ++ LF :: E ++ [LF])
    by (rewrite F; unfold pre2; do 4 (rewrite <- ?app_assoc; cbn [app]); done).
  assert (L1 : length S1 + 1 = length pre) by (unfold pre; rewrite length_app; cbn; lia).
  assert (L2 : length pre + length old + 1 + length R + 1 = length pre2)
    by (unfold pre2; rewrite !length_app; cbn; rewrite length_app; cbn; lia).
  assert (M2 := find_marker_app marker B"REPLACE" pre old (new ++ LF :: E ++ [LF]) fuel
    HR HRcr Hno1 ltac:(lia)). fold R in M2. rewrite <- F, L2 in M2.
  assert (M3 := find_marker_app marker B"END" pre2 new [] fuel HE HEcr Hno2 ltac:(lia)).
  fold E in M3. rewrite <- F2 in M3. rewrite !L1, M2, M3.
  assert (B1 := body_end_app pre old (R ++ LF :: new ++ LF :: E ++ [LF]) Hco). rewrite <- F in B1.
  assert (B2 := body_end_app pre2 new (E ++ [LF]) Hcn). rewrite <- F2 in B2.
  assert (Hend : only_line_endings f (length pre2 + length new + 1 + length E + 1) = true).
  { unfold only_line_endings. rewrite skipn_all2; [done|].
    rewrite F2, !length_app. cbn. rewrite length_app. cbn. lia. }
  rewrite B1, B2, Hend. cbn [negb].
  rewrite (proj2 (Nat.eqb_neq _ _)) by (destruct old; [done|cbn; lia]).
  rewrite F at 1. rewrite slice_app, take_app_exact. by rewrite F2, slice_app, take_app_exact.
Qed.

Example fence_roundtrip_witness :
  let old := B"int x;" ++ [LF] ++ B"*** END" in
  parse_fence_payload true (fence B"***" old B"") B"***" = inl (mk_payload old B"" false).
Proof.
  intros old. apply (fence_roundtrip B"***" old B"");
    [split; cbn; intuition lia | discriminate | split; cbn; intuition lia
    | split; vm_compute; discriminate
    | split; vm_compute; repeat constructor; discriminate].
Defined.
