(* ===== verification/NormText.v ===== *)
(** Text classes, semantic tokens and number values of the transcript
    verifier (src/src/core/dictation_verify.c). A span is the list of its
    bytes. *)
From S2P Require Import Prelude Decimal Bits.

Open Scope Z_scope.

(** ** Text classes *)

(** The file has its own [is_space], narrower than the one of <ctype.h>. *)
Definition norm_space (c : Z) : bool := (c =? C" ") || (c =? TAB) || (c =? LF) || (c =? CR).
Definition is_punct (c : Z) : bool :=
  ((33 <=? c) && (c <=? 47)) || ((58 <=? c) && (c <=? 64)) ||
  ((91 <=? c) && (c <=? 96)) || ((123 <=? c) && (c <=? 126)).
Definition is_edge (c : Z) : bool :=
  negb (c =? NUL) && mem_byte c (B".,;:!?" ++ [DQUOTE] ++ B"'()[]{}").
Definition is_edge_or_space (c : Z) : bool := is_edge c || norm_space c.
Definition lower (c : Z) : Z := if (C"A" <=? c) && (c <=? C"Z") then c + 32 else c.

Fixpoint trim_front (p : Z -> bool) (t : bytes) : bytes :=
  match t with
  | c :: t' => if p c then trim_front p t' else t
  | [] => []
  end.

Definition trim_by (t : bytes) (p : Z -> bool) : bytes :=
  rev (trim_front p (rev (trim_front p t))).

Fixpoint folded_equal (a b : bytes) : bool :=
  match a, b with
  | [], [] => true
  | x :: a, y :: b => (lower x =? lower y) && folded_equal a b
  | _, _ => false
  end.

Definition bytes_equal (a b : bytes) : bool := str_eq a b.

(** ** Tokens *)

Fixpoint take_token (s : bytes) : bytes * bytes :=
  match s with
  | c :: s' => if norm_space c then ([], s) else let '(t, r) := take_token s' in (c :: t, r)
  | [] => ([], [])
  end.

(** The next token and what follows it; [None] at the end. *)
Definition next_token (s : bytes) : option (bytes * bytes) :=
  match trim_front norm_space s with
  | [] => None
  | s => Some (take_token s)
  end.

(** The loop [while (next_token(...))]; every token has a byte, so the length
    is enough fuel ([tokens_fuel]). *)
Fixpoint token_loop (fuel : nat) (s : bytes) : list bytes :=
  match fuel with
  | O => []
  | S fuel =>
    match next_token s with
    | None => []
    | Some (t, r) => t :: token_loop fuel r
    end
  end.

Definition tokens (s : bytes) : list bytes := token_loop (length s) s.
Definition token_count (s : bytes) : nat := length (tokens s).

(** One token's semantic bytes: edges trimmed when it holds a digit,
    punctuation dropped otherwise, folded to lower case. *)
Definition sem_token (tok : bytes) : bytes :=
  if existsb is_digit tok then map lower (trim_by tok is_edge)
  else map lower (List.filter (fun c => negb (is_punct c)) tok).

Definition sem_tokens (s : bytes) : list bytes :=
  List.filter (fun t => negb (length t =? 0)%nat) (map sem_token (tokens s)).

(** The builder with its allocations: [mem s] tells whether those for the
    span [s] succeed; [None] is [oom]. *)
Definition sem_build (mem : bytes -> bool) (s : bytes) : option (list bytes) :=
  if mem s then Some (sem_tokens s) else None.

(** 1, 0 and -1 of the code as [Some true], [Some false] and [None]. *)
Definition sem_equal (mem : bytes -> bool) (a b : bytes) : option bool :=
  x ← sem_build mem a; y ← sem_build mem b; Some (bool_decide (x = y)).

Definition sem_nonempty (mem : bytes -> bool) (a : bytes) : option bool :=
  x ← sem_build mem a; Some (0 <? length x)%nat.

(** ** Numbers *)

(** The scan of a numeral: [first] is the length of the first group, [i] the
    position; the value, or [None] for the early [return false]. *)
Fixpoint numeral_scan (s : bytes) (first i digits run : nat) (v : Z) : option Z :=
  match s with
  | [] => if (first <? i)%nat && negb (run =? 3)%nat then None else Some v
  | c :: s =>
    if c =? C"," then
      if (first <? i)%nat && negb (run =? 3)%nat then None
      else numeral_scan s first (S i) digits 0 v
    else if negb (is_digit c) || (15 <? S digits)%nat then None
    else numeral_scan s first (S i) (S digits) (S run) (u64 (v * 10 + (c - C"0")))
  end.

(** [memchr(s, ',')] as an offset. *)
Fixpoint index_of (c : Z) (s : bytes) : option nat :=
  match s with
  | [] => None
  | x :: s => if x =? c then Some O else S <$> index_of c s
  end.

Definition numeral_value (s : bytes) : option Z :=
  let comma := index_of (C",") s in
  let first := default (length s) comma in
  if (first =? 0)%nat then None
  else if match comma with
          | Some _ => (3 <? first)%nat || (cur s =? C"0")
          | None => (1 <? first)%nat && (cur s =? C"0")
          end then None
  else numeral_scan s first 0 0 0 0.

Definition unit_words : list bytes :=
  [B"zero"; B"one"; B"two"; B"three"; B"four"; B"five"; B"six"; B"seven"; B"eight"; B"nine";
   B"ten"; B"eleven"; B"twelve"; B"thirteen"; B"fourteen"; B"fifteen"; B"sixteen";
   B"seventeen"; B"eighteen"; B"nineteen"].
Definition tens_words : list bytes :=
  [B"twenty"; B"thirty"; B"forty"; B"fifty"; B"sixty"; B"seventy"; B"eighty"; B"ninety"].
Definition scale_words : list bytes := [B"thousand"; B"million"; B"billion"].

Fixpoint word_index (w : bytes) (words : list bytes) : Z :=
  match words with
  | [] => -1
  | x :: words =>
    if str_eq x w then 0
    else let i := word_index w words in if i <? 0 then -1 else i + 1
  end.

Definition unit_of (w : bytes) : Z := word_index w unit_words.
Definition tens_of (w : bytes) : Z :=
  let i := word_index w tens_words in if i <? 0 then -1 else 20 + 10 * i.
Definition scale_of (w : bytes) : Z :=
  let i := word_index w scale_words in if i <? 0 then -1 else i + 1.
Definition word_is (w s : bytes) : bool := str_eq w s.

(** Words are consumed from the front of the list. *)
Definition below100 (ws : list bytes) : option (Z * list bytes) :=
  match ws with
  | [] => None
  | w :: ws =>
    let u := unit_of w in
    if 0 <=? u then Some (u, ws)
    else
      let t := tens_of w in
      if t <? 0 then None
      else
        let u2 := match ws with w2 :: _ => unit_of w2 | [] => -1 end in
        if (1 <=? u2) && (u2 <=? 9) then Some (t + u2, tl ws) else Some (t, ws)
  end.

Definition below1000 (ws : list bytes) : option (Z * list bytes) :=
  match ws with
  | w :: h :: rest =>
    let u := unit_of w in
    if (1 <=? u) && (u <=? 9) && word_is h B"hundred" then
      let had_and := match rest with a :: _ => word_is a B"and" | [] => false end in
      let after := if had_and then tl rest else rest in
      match below100 after with
      | Some (tail, next) =>
        if 1 <=? tail then Some (100 * u + tail, next)
        else if had_and then None else Some (100 * u, rest)
      | None => if had_and then None else Some (100 * u, rest)
      end
    else below100 ws
  | _ => below100 ws
  end.

(** The loop over scaled groups, the scale falling each time. *)
Fixpoint words_loop (fuel : nat) (ws : list bytes) (limit total : Z) : option Z :=
  match fuel with
  | O => None
  | S fuel =>
    match below1000 ws with
    | None => None
    | Some (v, next) =>
      if v =? 0 then None
      else match next with
        | [] => Some (u64 (total + v))
        | w :: next =>
          let k := scale_of w in
          if (k <? 0) || (limit <=? k) then None
          else
            let scale := if k =? 1 then 1000 else if k =? 2 then 1000000 else 1000000000 in
            let total := u64 (total + u64 (v * scale)) in
            match next with
            | [] => Some total
            | _ => words_loop fuel next k total
            end
        end
    end
  end.

(** The scale falls at each round, so five rounds are enough. *)
Definition words_value (ws : list bytes) : option Z :=
  match ws with
  | [w] => if word_is w B"zero" then Some 0 else words_loop 5 ws 4 0
  | _ => words_loop 5 ws 4 0
  end.

Definition tny_norm_number_value (s : bytes) : option Z :=
  let core := trim_by s is_edge_or_space in
  match numeral_value core with
  | Some v => Some v
  | None =>
    if (256 <? length core)%nat then None
    else
      let folded := map (fun c => if c =? C"-" then C" " else lower c) core in
      let ws := tokens folded in
      if (64 <? length ws)%nat then None else words_value ws
  end.

Definition number_ok (span repl : bytes) : bool :=
  match numeral_value (trim_by repl is_edge_or_space) with
  | None => false
  | Some a => match tny_norm_number_value span with Some b => a =? b | None => false end
  end.

(** ** Specifications *)

(** What carries meaning whatever the case, punctuation and spacing. *)
Definition content (s : bytes) : bytes :=
  map lower (List.filter (fun c => negb (norm_space c) && negb (is_punct c)) s).

(** English cardinals below 10^12, as words. *)
Definition word (table : list bytes) (i : Z) : bytes := nth (Z.to_nat i) table [].

Definition card100 (n : Z) : list bytes :=
  if n <? 20 then [word unit_words n]
  else word tens_words (n / 10 - 2) ::
       (if n mod 10 =? 0 then [] else [word unit_words (n mod 10)]).

(** [n] hundreds, the optional "and", the rest. *)
Definition card1000 (und : bool) (n : Z) : list bytes :=
  if n <? 100 then card100 n
  else word unit_words (n / 100) :: B"hundred" ::
       (if n mod 100 =? 0 then [] else (if und then [B"and"] else []) ++ card100 (n mod 100)).

Definition group (und : bool) (n : Z) (scale : list bytes) : list bytes :=
  if n =? 0 then [] else card1000 und n ++ scale.

Definition cardinal (und : bool) (n : Z) : list bytes :=
  if n =? 0 then [B"zero"]
  else group und (n / 1000000000) [B"billion"] ++
       group und (n / 1000000 mod 1000) [B"million"] ++
       group und (n / 1000 mod 1000) [B"thousand"] ++
       group und (n mod 1000) [].

(** ** Lemmas: tokens and content *)

Lemma trim_front_split p t :
  exists d, t = d ++ trim_front p t /\ Forall (fun c => p c = true) d.
Proof.
  induction t as [|c t (d & E & Hd)]; cbn; [by exists []|].
  destruct (p c) eqn:Hc; [|by exists []].
  exists (c :: d). cbn. rewrite <- E. by split; [|constructor].
Qed.

(** Trimming only removes bytes of the class, at both ends. *)
Lemma trim_by_split p t :
  exists d e, t = d ++ trim_by t p ++ e /\
    Forall (fun c => p c = true) d /\ Forall (fun c => p c = true) e.
Proof.
  unfold trim_by. destruct (trim_front_split p t) as (d & E & Hd).
  destruct (trim_front_split p (rev (trim_front p t))) as (e & E' & He).
  exists d, (rev e). split_and!; [|done|by apply Forall_rev].
  apply (f_equal (@rev Z)) in E'. rewrite rev_involutive, rev_app_distr in E'.
  by rewrite <- E'.
Qed.

Lemma edge_punct c : is_edge c = true -> is_punct c = true.
Proof.
  unfold is_edge. intros [_ H]%andb_true_iff. apply mem_byte_true in H. cbn [In app] in H.
  unfold is_punct. lia.
Qed.

Lemma lower_punct c : is_punct (lower c) = is_punct c.
Proof. unfold is_punct, lower. case_if; lia. Qed.

Definition solid (c : Z) : bool := negb (is_punct c).

Lemma filter_solid_lower t : List.filter solid (map lower t) = map lower (List.filter solid t).
Proof.
  induction t as [|c t IH]; [done|]. cbn [map List.filter].
  assert (solid (lower c) = solid c) as -> by (unfold solid; by rewrite lower_punct).
  destruct (solid c); cbn [map]; by rewrite IH.
Qed.

Lemma filter_idem {A} (p : A -> bool) l : List.filter p (List.filter p l) = List.filter p l.
Proof. apply filter_all, Forall_forall. intros x Hx. by apply filter_In in Hx as [_ ?]. Qed.

(** A token's semantic bytes keep its content. *)
Lemma sem_token_solid tok : List.filter solid (sem_token tok) = map lower (List.filter solid tok).
Proof.
  unfold sem_token. case_if; rewrite filter_solid_lower; [|by rewrite filter_idem].
  destruct (trim_by_split is_edge tok) as (d & e & E & Hd & He). rewrite E at 2.
  assert (H : forall l, Forall (fun c => is_edge c = true) l -> List.filter solid l = []).
  { intros l Hl. apply filter_none_of. eapply Forall_impl; [|exact Hl].
    intros c Hc%edge_punct. unfold solid. by rewrite Hc. }
  by rewrite !filter_app, (H d Hd), (H e He), app_nil_r.
Qed.

Lemma content_app a b : content (a ++ b) = content a ++ content b.
Proof. unfold content. by rewrite filter_app, map_app. Qed.

Lemma content_space s : Forall (fun c => norm_space c = true) s -> content s = [].
Proof.
  intros H. unfold content. rewrite filter_none_of; [done|].
  eapply Forall_impl; [|exact H]. intros c ->. done.
Qed.

Lemma content_word t : Forall (fun c => norm_space c = false) t -> content t = map lower (List.filter solid t).
Proof.
  intros H. unfold content. f_equal. induction H as [|c t Hc _ IH]; [done|]. cbn.
  rewrite Hc, IH. done.
Qed.

Lemma take_token_spec s :
  s = (take_token s).1 ++ (take_token s).2 /\
  Forall (fun c => norm_space c = false) (take_token s).1.
Proof.
  induction s as [|c s [E H]]; [by split|]. cbn. destruct (norm_space c) eqn:Hc; [by split|].
  destruct (take_token s) as [t r]. cbn in *. subst s. by split; [|constructor].
Qed.

Lemma next_token_spec s t r :
  next_token s = Some (t, r) ->
  t <> [] /\ Forall (fun c => norm_space c = false) t /\
  exists d, s = d ++ t ++ r /\ Forall (fun c => norm_space c = true) d.
Proof.
  unfold next_token. destruct (trim_front_split norm_space s) as (d & E & Hd).
  destruct (trim_front norm_space s) as [|c u] eqn:Et; [done|]. intros H.
  assert (take_token (c :: u) = (t, r)) as H' by congruence. clear H.
  destruct (take_token_spec (c :: u)) as [E1 H1]. rewrite H' in E1, H1. cbn [fst snd] in *.
  assert (norm_space c = false) as Hc.
  { clear -Et. revert Et. induction s as [|x s IH]; cbn; [done|].
    destruct (norm_space x) eqn:Hx; [done|]. by intros [= <- _]. }
  split_and!; [|done|exists d; by rewrite <- E1].
  intros ->. cbn in H'. rewrite Hc in H'. by destruct (take_token u).
Qed.

Lemma token_loop_content fuel s :
  (length s <= fuel)%nat -> content s = concat (map content (token_loop fuel s)).
Proof.
  revert s. induction fuel as [|fuel IH]; intros s Hf; [by destruct s; [|simpl in Hf; lia]|].
  cbn [token_loop]. destruct (next_token s) as [[t r]|] eqn:E.
  - apply next_token_spec in E as (Hne & Ht & d & -> & Hd).
    rewrite !content_app, content_space by done. cbn [map concat app]. f_equal. apply IH.
    rewrite !length_app in Hf. destruct t; [done|]. cbn in Hf. lia.
  - unfold next_token in E. destruct (trim_front_split norm_space s) as (d & Es & Hd).
    destruct (trim_front norm_space s); [|done]. rewrite app_nil_r in Es. subst d.
    by apply content_space.
Qed.

Lemma token_loop_words fuel s :
  Forall (fun t => t <> [] /\ Forall (fun c => norm_space c = false) t) (token_loop fuel s).
Proof.
  revert s. induction fuel as [|fuel IH]; intros s; [constructor|]. cbn [token_loop].
  destruct (next_token s) as [[t r]|] eqn:E; [|constructor].
  apply next_token_spec in E as (? & ? & _). by constructor.
Qed.

(** The content is what the semantic tokens hold besides punctuation. *)
Lemma sem_tokens_content s : content s = List.filter solid (concat (sem_tokens s)).
Proof.
  unfold sem_tokens, tokens. rewrite (token_loop_content (length s) s) by done.
  pose proof (token_loop_words (length s) s) as H.
  induction H as [|t ts [_ Ht] _ IH]; [done|]. cbn [map concat List.filter].
  rewrite content_word, <- sem_token_solid, IH by done.
  destruct (sem_token t) as [|c u]; [done|]. cbn [length Nat.eqb negb concat].
  by rewrite filter_app.
Qed.

Lemma folded_equal_map a b : folded_equal a b = true <-> map lower a = map lower b.
Proof.
  revert b. induction a as [|x a IH]; intros [|y b]; cbn; try done.
  rewrite andb_true_iff, IH, Z.eqb_eq. split; [by intros [-> ->]|by intros [= -> ->]].
Qed.

Lemma lower_space c : norm_space (lower c) = norm_space c.
Proof. unfold norm_space, lower. case_if; lia. Qed.

Lemma lower_idem c : lower (lower c) = lower c.
Proof. unfold lower. repeat case_if; lia. Qed.

Lemma content_lower s : content (map lower s) = content s.
Proof.
  unfold content. induction s as [|c s IH]; [done|]. cbn [map List.filter].
  rewrite lower_space, lower_punct. destruct (_ && _); cbn; by rewrite ?lower_idem, IH.
Qed.

Lemma folded_equal_content a b : folded_equal a b = true -> content a = content b.
Proof. intros H%folded_equal_map. by rewrite <- content_lower, H, content_lower. Qed.

(** ** Lemmas: English cardinals *)

(** Facts about the words, by looking at each. *)
Definition small_words_ok (n : Z) : bool :=
  (20 <=? n) || (let w := word unit_words n in
    (unit_of w =? n) && (word_index w tens_words =? -1) && negb (word_is w B"hundred") &&
    negb (word_is w B"and")).
Definition tens_ok (n : Z) : bool :=
  (8 <=? n) || (let w := word tens_words n in
    (unit_of w =? -1) && (tens_of w =? 20 + 10 * n) && negb (word_is w B"hundred") &&
    negb (word_is w B"and")).

Lemma small_words_all n : is_byte n -> small_words_ok n = true.
Proof. revert n. by_all_bytes. Qed.
Lemma tens_all n : is_byte n -> tens_ok n = true.
Proof. revert n. by_all_bytes. Qed.

Lemma unit_word n : 0 <= n < 20 ->
  unit_of (word unit_words n) = n /\ word_is (word unit_words n) B"hundred" = false /\
  word_is (word unit_words n) B"and" = false.
Proof.
  intros Hn. pose proof (small_words_all n ltac:(unfold is_byte; lia)) as H.
  unfold small_words_ok in H. apply orb_true_iff in H as [H|H]; [lia|]. boolify. split_and!; auto. lia.
Qed.

Lemma tens_word n : 0 <= n < 8 ->
  unit_of (word tens_words n) = -1 /\ tens_of (word tens_words n) = 20 + 10 * n /\
  word_is (word tens_words n) B"hundred" = false /\ word_is (word tens_words n) B"and" = false.
Proof.
  intros Hn. pose proof (tens_all n ltac:(unfold is_byte; lia)) as H.
  unfold tens_ok in H. apply orb_true_iff in H as [H|H]; [lia|]. boolify. split_and!; auto; lia.
Qed.

(** What follows a group: nothing, or a scale. *)
Definition stops (rest : list bytes) : Prop :=
  rest = [] \/ exists s r, rest = s :: r /\ In s scale_words.

Lemma scale_word s : In s scale_words ->
  unit_of s = -1 /\ tens_of s = -1 /\ word_is s B"hundred" = false /\ word_is s B"and" = false.
Proof. intros [<-|[<-|[<-|[]]]]; by vm_compute. Qed.

Lemma stops_unit rest : stops rest ->
  match rest with w :: _ => unit_of w | [] => -1 end = -1.
Proof. intros [->|(s & r & -> & H)]; [done|]. by apply scale_word in H as (? & _). Qed.

Lemma below100_card n rest :
  0 < n < 100 -> stops rest -> below100 (card100 n ++ rest) = Some (n, rest).
Proof.
  intros Hn Hr. unfold card100. case_if; cbn [app below100].
  - destruct (unit_word n ltac:(lia)) as [-> _]. case_if; [done|lia].
  - destruct (tens_word (n / 10 - 2) ltac:(lia)) as (-> & -> & _).
    change (0 <=? -1) with false. rewrite (proj2 (Z.ltb_ge (20 + _) 0)) by lia. cbv zeta.
    destruct (Z.eqb_spec (n mod 10) 0); cbn [app tl].
    + rewrite stops_unit by done. cbn. do 2 f_equal. lia.
    + destruct (unit_word (n mod 10) ltac:(lia)) as [-> _].
      rewrite (proj2 (Z.leb_le 1 _)), (proj2 (Z.leb_le _ 9)) by lia. cbn. do 2 f_equal. lia.
Qed.

Lemma below100_stops rest : stops rest -> below100 rest = None.
Proof.
  intros [->|(s & r & -> & H)]; [done|]. apply scale_word in H as (Hu & Ht & _).
  cbn [below100]. by rewrite Hu, Ht.
Qed.

(** Two words that are no hundreds are read below a hundred. *)
Lemma below1000_low w ws :
  match ws with h :: _ => word_is h B"hundred" = false | [] => True end ->
  below1000 (w :: ws) = below100 (w :: ws).
Proof.
  destruct ws as [|h ws]; [done|]. intros H. cbn [below1000]. by rewrite H, andb_false_r.
Qed.

Lemma stops_hundred rest : stops rest ->
  match rest with h :: _ => word_is h B"hundred" = false | [] => True end.
Proof. intros [->|(s & r & -> & H)]; [done|]. by apply scale_word in H as (_ & _ & ? & _). Qed.

Lemma below1000_card100 n rest :
  0 < n < 100 -> stops rest -> below1000 (card100 n ++ rest) = Some (n, rest).
Proof.
  intros Hn Hr. rewrite <- below100_card by done. unfold card100. case_if; cbn [app];
    [by apply below1000_low, stops_hundred|].
  apply below1000_low. case_if; [by apply stops_hundred|]. cbn [app].
  by destruct (unit_word (n mod 10) ltac:(lia)) as (_ & ? & _).
Qed.

Lemma card100_head_and n : 0 < n < 100 ->
  match card100 n with a :: _ => word_is a B"and" | [] => false end = false.
Proof.
  intros Hn. unfold card100. case_if; [by destruct (unit_word n) as (_ & _ & ?); [lia|]|].
  by destruct (tens_word (n / 10 - 2)) as (_ & _ & _ & ?); [lia|].
Qed.

Lemma stops_and rest : stops rest ->
  match rest with a :: _ => word_is a B"and" | [] => false end = false.
Proof. intros [->|(s & r & -> & H)]; [done|]. by apply scale_word in H as (_ & _ & _ & ?). Qed.

Lemma below1000_card und n rest :
  0 < n < 1000 -> stops rest -> below1000 (card1000 und n ++ rest) = Some (n, rest).
Proof.
  intros Hn Hr. unfold card1000. destruct (Z.ltb_spec n 100); [apply below1000_card100; (lia || done)|].
  cbn [app below1000]. destruct (unit_word (n / 100) ltac:(lia)) as [-> _].
  rewrite (proj2 (Z.leb_le 1 _)), (proj2 (Z.leb_le _ 9)) by lia.
  change (word_is B"hundred" B"hundred") with true. cbn [andb].
  destruct (Z.eqb_spec (n mod 100) 0); cbn [app].
  - rewrite stops_and, below100_stops by done. do 2 f_equal. lia.
  - destruct und; cbn [app].
    + change (word_is B"and" B"and") with true. cbn [tl]. rewrite below100_card by (done || lia).
      rewrite (proj2 (Z.leb_le 1 _)) by lia. do 2 f_equal. lia.
    + assert (match card100 (n mod 100) ++ rest with a :: _ => word_is a B"and" | [] => false end = false) as ->.
      { pose proof (card100_head_and (n mod 100) ltac:(lia)) as H1.
        destruct (card100 (n mod 100)); [by apply stops_and|done]. }
      rewrite below100_card by (done || lia). rewrite (proj2 (Z.leb_le 1 _)) by lia.
      do 2 f_equal. lia.
Qed.

(** One round of the loop, for a group with a scale and for the last one. *)
Lemma words_loop_last fuel und v limit total :
  0 < v < 1000 -> words_loop (S fuel) (group und v []) limit total = Some (u64 (total + v)).
Proof.
  intros Hv. unfold group. rewrite (proj2 (Z.eqb_neq v 0)) by lia. cbn [words_loop].
  rewrite below1000_card by (done || by left). by rewrite (proj2 (Z.eqb_neq v 0)) by lia.
Qed.

Definition scale_factor (k : Z) : Z := if k =? 1 then 1000 else if k =? 2 then 1000000 else 1000000000.

Lemma words_loop_scale fuel und v s k next limit total :
  0 < v < 1000 -> In s scale_words -> scale_of s = k -> k < limit ->
  words_loop (S fuel) (group und v [s] ++ next) limit total =
    let total := u64 (total + u64 (v * scale_factor k)) in
    match next with [] => Some total | _ => words_loop fuel next k total end.
Proof.
  intros Hv Hs Hk Hlim. unfold group. rewrite (proj2 (Z.eqb_neq v 0)) by lia.
  rewrite <- app_assoc. cbn [words_loop app].
  rewrite below1000_card by (done || (right; eauto)). rewrite (proj2 (Z.eqb_neq v 0)) by lia.
  rewrite Hk, (proj2 (Z.ltb_ge k 0)), (proj2 (Z.leb_gt limit k)); [done|lia|].
  rewrite <- Hk. destruct Hs as [<-|[<-|[<-|[]]]]; vm_compute; discriminate.
Qed.

Lemma group_nonempty und v s : 0 < v < 1000 -> exists w r, group und v s = w :: r.
Proof.
  intros Hv. unfold group. rewrite (proj2 (Z.eqb_neq v 0)) by lia. unfold card1000, card100.
  repeat case_if; cbn; eauto.
Qed.

(** Reading any suffix of the groups, from the scale [k] down. *)
Lemma words_loop_groups und (m t u : Z) fuel limit total :
  0 <= m < 1000 -> 0 <= t < 1000 -> 0 <= u < 1000 -> 0 < m * 1000000 + t * 1000 + u ->
  2 < limit -> (3 <= fuel)%nat -> 0 <= total <= 999000000000 ->
  words_loop fuel (group und m [B"million"] ++ group und t [B"thousand"] ++ group und u []) limit total
    = Some (total + m * 1000000 + t * 1000 + u).
Proof.
  intros Hm Ht Hu Hpos Hlim Hf Htot. do 3 (destruct fuel as [|fuel]; [lia|]).
  assert (U : forall x, 0 <= x <= 999999999999 -> u64 x = x)
    by (intros; apply u64_small; unfold SIZE_MAX; lia).
  assert (G0 : forall s, group und 0 s = []) by done.
  assert (Last : forall f l tot, 0 <= tot <= 999999999999 -> 0 < u -> tot + u <= 999999999999 ->
    words_loop (S f) (group und u []) l tot = Some (tot + u))
    by (intros; rewrite words_loop_last by lia; by rewrite U by lia).
  assert (Thou : forall f l tot, 1 < l -> 0 <= tot -> tot + t * 1000 + u <= 999999999999 -> 0 < t * 1000 + u ->
    words_loop (S (S f)) (group und t [B"thousand"] ++ group und u []) l tot = Some (tot + t * 1000 + u)).
  { intros f l tot Hl H0 Hb Hp. destruct (Z.eq_dec t 0) as [->|Htn].
    - rewrite G0. cbn [app]. rewrite Last by lia. f_equal. lia.
    - rewrite (words_loop_scale _ _ _ _ 1) by (lia || done || (cbn; auto)).
      unfold scale_factor. cbn [Z.eqb Pos.eqb]. rewrite !U by (rewrite ?U; lia). cbv zeta.
      destruct (Z.eq_dec u 0) as [->|Hun]; [rewrite G0; f_equal; lia|].
      rewrite Last by lia. destruct (group_nonempty und u [] ltac:(lia)) as (w & r & ->).
      f_equal; lia. }
  destruct (Z.eq_dec m 0) as [->|Hmn].
  - rewrite G0. cbn [app]. rewrite Thou by lia. f_equal. lia.
  - rewrite (words_loop_scale _ _ _ _ 2) by (lia || done || (cbn; auto)).
    unfold scale_factor. cbn [Z.eqb Pos.eqb]. rewrite !U by (rewrite ?U; lia). cbv zeta.
    destruct (Z.eq_dec (t * 1000 + u) 0) as [E|Hn].
    + assert (t = 0) as -> by lia. assert (u = 0) as -> by lia. rewrite !G0. cbn. f_equal. lia.
    + rewrite Thou by lia.
      destruct (group und t [B"thousand"] ++ group und u []) as [|w r] eqn:E; [|f_equal; lia].
      exfalso. apply app_eq_nil in E as [E1 E2].
      destruct (Z.eq_dec t 0) as [->|]; [destruct (group_nonempty und u []) as (? & ? & ?); [lia|congruence]|].
      destruct (group_nonempty und t [B"thousand"]) as (? & ? & ?); [lia|congruence].
Qed.

Lemma words_value_cardinal und n :
  0 <= n < 1000000000000 -> words_value (cardinal und n) = Some n.
Proof.
  intros Hn. unfold cardinal. destruct (Z.eqb_spec n 0) as [->|Hn0]; [by vm_compute|].
  set (b := n / 1000000000). set (m := n / 1000000 mod 1000).
  set (t := n / 1000 mod 1000). set (u := n mod 1000).
  assert (E : n = b * 1000000000 + (m * 1000000 + t * 1000 + u)) by (unfold b, m, t, u; lia).
  assert (Hb : 0 <= b < 1000) by (unfold b; lia). assert (Hm : 0 <= m < 1000) by (unfold m; lia).
  assert (Ht : 0 <= t < 1000) by (unfold t; lia). assert (Hu : 0 <= u < 1000) by (unfold u; lia).
  clearbody b m t u. set (rest := group und m _ ++ _).
  assert (L : words_loop 5 (group und b [B"billion"] ++ rest) 4 0 = Some n).
  { destruct (Z.eq_dec b 0) as [->|Hb0].
    - change (group und 0 [B"billion"]) with (@nil bytes). cbn [app]. unfold rest.
      rewrite words_loop_groups by lia. f_equal. lia.
    - rewrite (words_loop_scale _ _ _ _ 3) by (lia || done || (cbn; auto)).
      unfold scale_factor. cbn [Z.eqb Pos.eqb]. rewrite !u64_small by (rewrite ?u64_small; unfold SIZE_MAX; lia).
      cbv zeta. destruct (Z.eq_dec (m * 1000000 + t * 1000 + u) 0) as [E0|Hne].
      + assert (m = 0) as -> by lia. assert (t = 0) as -> by lia. assert (u = 0) as -> by lia.
        unfold rest. cbn. f_equal. lia.
      + unfold rest. rewrite words_loop_groups by lia.
        destruct (_ ++ _) as [|w r] eqn:Er; [exfalso|f_equal; lia].
        apply app_eq_nil in Er as [E1 E2]. apply app_eq_nil in E2 as [E2 E3].
        assert (G : forall v s, 0 <= v < 1000 -> group und v s = [] -> v = 0).
        { intros v s Hv Hg. destruct (Z.eq_dec v 0); [done|].
          destruct (group_nonempty und v s) as (? & ? & ?); [lia|congruence]. }
        apply G in E1, E2, E3; lia. }
  unfold words_value. destruct (_ ++ rest) as [|w [|w2 r]] eqn:Er; [done| |done].
  case_if; [|done]. exfalso. unfold word_is in *. apply str_eq_true in Heqb0 as ->.
  vm_compute in L. congruence.
Qed.

(** ** Lemmas: number words as text *)

Definition letters (w : bytes) : Prop := Forall (fun c => C"a" <= c <= C"z") w /\ (1 <= length w <= 9)%nat.

Definition letters_b (w : bytes) : bool :=
  forallb (fun c => (C"a" <=? c) && (c <=? C"z")) w && (1 <=? length w)%nat && (length w <=? 9)%nat.

Lemma letters_b_true w : letters_b w = true -> letters w.
Proof.
  unfold letters_b, letters. intros H. boolify. apply Nat.leb_le in H0, H1. split; [|lia].
  rewrite forallb_forall in H. apply Forall_forall. intros x Hx. apply H in Hx. lia.
Qed.

Lemma unit_letters_all n : is_byte n -> (20 <=? n) || letters_b (word unit_words n) = true.
Proof. revert n. by_all_bytes. Qed.
Lemma tens_letters_all n : is_byte n -> (8 <=? n) || letters_b (word tens_words n) = true.
Proof. revert n. by_all_bytes. Qed.

Lemma unit_letters n : 0 <= n < 20 -> letters (word unit_words n).
Proof.
  intros Hn. apply letters_b_true. pose proof (unit_letters_all n ltac:(unfold is_byte; lia)) as H.
  apply orb_true_iff in H as [H|H]; [lia|done].
Qed.
Lemma tens_letters n : 0 <= n < 8 -> letters (word tens_words n).
Proof.
  intros Hn. apply letters_b_true. pose proof (tens_letters_all n ltac:(unfold is_byte; lia)) as H.
  apply orb_true_iff in H as [H|H]; [lia|done].
Qed.

Lemma card100_letters n : 0 <= n < 100 -> Forall letters (card100 n) /\ (length (card100 n) <= 2)%nat.
Proof.
  intros Hn. unfold card100. repeat case_if; cbn; (split; [|lia]);
    repeat (constructor; [first [apply unit_letters; lia | apply tens_letters; lia]|]); constructor.
Qed.

Lemma card1000_letters und n : 0 <= n < 1000 ->
  Forall letters (card1000 und n) /\ (length (card1000 und n) <= 5)%nat.
Proof.
  intros Hn. unfold card1000. destruct (Z.ltb_spec n 100).
  - destruct (card100_letters n); [lia|]. split; [done|lia].
  - destruct (card100_letters (n mod 100)) as [H1 H2]; [lia|].
    assert (letters B"hundred") by by apply letters_b_true.
    assert (letters B"and") by by apply letters_b_true.
    destruct (n mod 100 =? 0), und; cbn; (split; [|lia]);
      repeat (constructor; [first [apply unit_letters; lia | done]|]); done || constructor.
Qed.

Lemma group_letters und n s :
  0 <= n < 1000 -> Forall letters s -> (length s <= 1)%nat ->
  Forall letters (group und n s) /\ (length (group und n s) <= 6)%nat.
Proof.
  intros Hn Hs Hl. unfold group. case_if; [split; [constructor|cbn; lia]|].
  destruct (card1000_letters und n Hn). split; [by apply Forall_app|].
  rewrite length_app. lia.
Qed.

Lemma cardinal_letters und n :
  0 <= n < 1000000000000 ->
  Forall letters (cardinal und n) /\ (length (cardinal und n) <= 24)%nat /\ cardinal und n <> [].
Proof.
  intros Hn.
  assert (Hs : forall w, In w scale_words -> Forall letters [w]).
  { intros w Hw. constructor; [|constructor].
    destruct Hw as [<-|[<-|[<-|[]]]]; by apply letters_b_true. }
  assert (H : Forall letters (cardinal und n) /\ (length (cardinal und n) <= 24)%nat).
  { unfold cardinal. destruct (n =? 0).
    { split; [constructor; [by apply letters_b_true|constructor]|cbn; lia]. }
    destruct (group_letters und (n / 1000000000) [B"billion"]) as [? ?];
      [lia|apply Hs; cbn; auto|done|].
    destruct (group_letters und (n / 1000000 mod 1000) [B"million"]) as [? ?];
      [lia|apply Hs; cbn; auto|done|].
    destruct (group_letters und (n / 1000 mod 1000) [B"thousand"]) as [? ?];
      [lia|apply Hs; cbn; auto|done|].
    destruct (group_letters und (n mod 1000) []) as [? ?]; [lia|constructor|cbn; lia|].
    split; [by repeat (apply Forall_app; split)|]. rewrite !length_app. lia. }
  split_and!; [apply H..|]. intros E. pose proof (words_value_cardinal und n Hn) as W.
  by rewrite E in W.
Qed.

(** Words as dictated, separated by single blanks. *)
Fixpoint spoken (ws : list bytes) : bytes :=
  match ws with
  | [] => []
  | [w] => w
  | w :: ws => w ++ C" " :: spoken ws
  end.

Lemma letters_char c : C"a" <= c <= C"z" ->
  norm_space c = false /\ is_edge_or_space c = false /\ is_digit c = false /\ lower c = c /\
  (c =? C"-") = false /\ (c =? C",") = false.
Proof.
  intros Hc. assert (H : (c <? C"a") || (C"z" <? c) || (negb (norm_space c) && negb (is_edge_or_space c) &&
    negb (is_digit c) && (lower c =? c) && negb (c =? C"-") && negb (c =? C",")) = true).
  { assert (is_byte c) as Hb by (unfold is_byte; lia). clear Hc. revert c Hb. by_all_bytes. }
  rewrite !orb_true_iff in H. destruct H as [[H|H]|H]; [lia|lia|]. boolify. split_and!; auto. lia.
Qed.

Lemma take_token_app w r :
  Forall (fun c => norm_space c = false) w ->
  match r with c :: _ => norm_space c = true | [] => True end -> take_token (w ++ r) = (w, r).
Proof.
  intros Hw Hr. induction Hw as [|c w Hc _ IH]; cbn [app take_token].
  - destruct r; [done|]. cbn. by rewrite Hr.
  - by rewrite Hc, IH.
Qed.

Lemma next_token_app w r :
  w <> [] -> Forall (fun c => norm_space c = false) w ->
  match r with c :: _ => norm_space c = true | [] => True end -> next_token (w ++ r) = Some (w, r).
Proof.
  intros Hne Hw Hr. rewrite <- (take_token_app w r) by done. unfold next_token.
  destruct w as [|c w]; [done|]. apply Forall_cons_iff in Hw as [Hc _]. cbn [app trim_front].
  by rewrite Hc.
Qed.

Lemma letters_no_space w : letters w -> w <> [] /\ Forall (fun c => norm_space c = false) w.
Proof.
  intros [H Hl]. split; [by intros ->; simpl in Hl; lia|].
  eapply Forall_impl; [|exact H]. intros c Hc. by destruct (letters_char c Hc) as (? & _).
Qed.

Lemma token_loop_spoken ws fuel :
  Forall letters ws -> (length ws <= fuel)%nat -> token_loop fuel (spoken ws) = ws.
Proof.
  intros Hws. revert fuel. induction Hws as [|w ws Hw Hws IH]; intros fuel Hf.
  - by destruct fuel.
  - destruct fuel as [|fuel]; [simpl in Hf; lia|]. cbn [token_loop].
    destruct (letters_no_space w Hw) as [Hne Hsp].
    assert (E : exists r, spoken (w :: ws) = w ++ r /\ token_loop fuel r = ws /\
      match r with c :: _ => norm_space c = true | [] => True end).
    { destruct ws as [|w2 ws].
      - exists []. cbn. rewrite app_nil_r. by destruct fuel.
      - exists (C" " :: spoken (w2 :: ws)). split_and!; [done| |done].
        assert (length (w2 :: ws) <= fuel)%nat as Hl by (simpl in *; lia).
        specialize (IH fuel Hl). destruct fuel as [|fuel]; [done|].
        cbn [token_loop] in *. exact IH. }
    destruct E as (r & -> & Hr & Hc). by rewrite next_token_app, Hr.
Qed.

Lemma spoken_length ws : Forall letters ws -> (length ws <= length (spoken ws) <= 10 * length ws)%nat.
Proof.
  induction 1 as [|w ws [_ Hl] _ IH]; [done|]. destruct ws as [|w2 ws]; cbn [spoken length] in *; [lia|].
  rewrite length_app. cbn [length]. lia.
Qed.

Definition speech_char (c : Z) : Prop := c = C" " \/ C"a" <= c <= C"z".

Lemma spoken_chars ws : Forall letters ws -> Forall speech_char (spoken ws).
Proof.
  induction 1 as [|w ws [Hw _] _ IH]; [constructor|].
  assert (Forall speech_char w) by (eapply Forall_impl; [|exact Hw]; unfold speech_char; auto).
  destruct ws as [|w2 ws]; [done|]. cbn [spoken]. apply Forall_app. split; [done|].
  constructor; [by left|done].
Qed.

Lemma folded_spoken s :
  Forall speech_char s -> map (fun c => if c =? C"-" then C" " else lower c) s = s.
Proof.
  induction 1 as [|c s [->|Hc] _ IH]; [done| |]; cbn [map]; rewrite IH; [done|].
  by destruct (letters_char c Hc) as (_ & _ & _ & -> & -> & _).
Qed.

Lemma index_of_none c s : Forall (fun x => (x =? c) = false) s -> index_of c s = None.
Proof. induction 1 as [|x s Hx _ IH]; [done|]. cbn. by rewrite Hx, IH. Qed.

(** A spoken number is no numeral and has nothing to trim. *)
Lemma spoken_ends ws : Forall letters ws -> ws <> [] ->
  exists c s d t, spoken ws = c :: s /\ spoken ws = t ++ [d] /\ C"a" <= c <= C"z" /\ C"a" <= d <= C"z".
Proof.
  induction 1 as [|w ws [Hw Hl] Hws IH]; [done|]. intros _.
  destruct w as [|c w]; [simpl in Hl; lia|].
  assert (Hc := Hw). apply Forall_cons_iff in Hc as [Hc _].
  destruct ws as [|w2 ws].
  - destruct (exists_last (l := c :: w)) as (t & d & E); [done|].
    assert (Hd : Forall (fun c => C"a" <= c <= C"z") (t ++ [d])) by (rewrite <- E; exact Hw).
    apply Forall_app in Hd as [_ Hd]. apply Forall_inv in Hd.
    exists c, w, d, t. cbn [spoken]. by rewrite <- E.
  - destruct IH as (c2 & s & d & t & E1 & E2 & Hc2 & Hd); [done|].
    exists c, (w ++ C" " :: spoken (w2 :: ws)), d, ((c :: w) ++ C" " :: t).
    split; [done|]. split; [|done].
    change (spoken ((c :: w) :: w2 :: ws)) with ((c :: w) ++ C" " :: spoken (w2 :: ws)).
    by rewrite E2, <- app_assoc.
Qed.

Lemma trim_spoken ws : Forall letters ws -> ws <> [] -> trim_by (spoken ws) is_edge_or_space = spoken ws.
Proof.
  intros Hws Hne. destruct (spoken_ends ws Hws Hne) as (c & s & d & t & E1 & E2 & Hc & Hd).
  unfold trim_by. rewrite E1 at 1. cbn [trim_front].
  destruct (letters_char c Hc) as (_ & -> & _). rewrite <- E1, E2, rev_app_distr. cbn [rev app trim_front].
  destruct (letters_char d Hd) as (_ & -> & _). by rewrite <- (rev_unit t d), rev_involutive.
Qed.

Lemma numeral_spoken ws : Forall letters ws -> ws <> [] -> numeral_value (spoken ws) = None.
Proof.
  intros Hws Hne. pose proof (spoken_chars ws Hws) as Hch.
  destruct (spoken_ends ws Hws Hne) as (c & s & _ & _ & E1 & _ & Hc & _).
  unfold numeral_value. rewrite index_of_none.
  2: { eapply Forall_impl; [|exact Hch]. intros x [->|Hx]; [done|].
       by destruct (letters_char x Hx) as (_ & _ & _ & _ & _ & ?). }
  rewrite E1. cbn [default length Nat.eqb cur hd].
  rewrite (proj2 (Z.eqb_neq c C"0")), andb_false_r by lia. cbn [numeral_scan].
  by destruct (letters_char c Hc) as (_ & _ & -> & _ & _ & ->).
Qed.

Lemma number_value_spoken und n :
  0 <= n < 1000000000000 -> tny_norm_number_value (spoken (cardinal und n)) = Some n.
Proof.
  intros Hn. destruct (cardinal_letters und n Hn) as (Hl & Hc & Hne).
  pose proof (spoken_length _ Hl) as Hs. unfold tny_norm_number_value.
  rewrite trim_spoken, numeral_spoken by done. rewrite (proj2 (Nat.ltb_ge 256 _)) by lia.
  rewrite folded_spoken by by apply spoken_chars. unfold tokens. rewrite token_loop_spoken by (done || lia).
  rewrite (proj2 (Nat.ltb_ge 64 _)) by lia. by apply words_value_cardinal.
Qed.

(** ** Lemmas: decimal numerals *)

Lemma numeral_scan_digits ds first i k run v :
  Forall (fun c => is_digit c = true) ds -> (i + length ds = first)%nat ->
  (k + length ds <= 15)%nat -> 0 <= v < 10 ^ Z.of_nat k ->
  numeral_scan ds first i k run v = Some (digits_value ds v).
Proof.
  intros Hds. revert i k run v. induction Hds as [|c ds Hc _ IH]; intros i k run v Hi Hk Hv; cbn [numeral_scan digits_value fold_left length] in *.
  - by rewrite (proj2 (Nat.ltb_ge first i)) by lia.
  - assert (C"0" <= c <= C"9") as Hr by (unfold is_digit in Hc; lia).
    rewrite (proj2 (Z.eqb_neq c C",")) by lia. rewrite Hc, (proj2 (Nat.ltb_ge 15 (S k))) by lia.
    cbn [negb orb]. assert (E : 10 ^ Z.of_nat (S k) = 10 * 10 ^ Z.of_nat k)
      by (rewrite Nat2Z.inj_succ, Z.pow_succ_r by lia; done).
    assert (10 ^ Z.of_nat k <= 10 ^ 15) by (apply Z.pow_le_mono_r; lia).
    change (10 ^ 15) with 1000000000000000 in *.
    rewrite u64_small by (unfold SIZE_MAX; lia). rewrite IH; [done|lia|lia|lia].
Qed.

Lemma digit_not_comma c : is_digit c = true -> (c =? C",") = false /\ is_edge_or_space c = false.
Proof.
  intros H. assert (E : negb (is_digit c) || (negb (c =? C",") && negb (is_edge_or_space c)) = true).
  { assert (is_byte c) as Hb by (unfold is_digit, is_byte in *; lia). clear H. revert c Hb. by_all_bytes. }
  rewrite H in E. cbn in E. boolify. done.
Qed.

Lemma trim_by_id p c s t d : p c = false -> p d = false -> c :: s = t ++ [d] -> trim_by (c :: s) p = c :: s.
Proof.
  intros Hc Hd E. unfold trim_by. cbn [trim_front]. rewrite Hc, E, rev_app_distr. cbn [rev app trim_front].
  by rewrite Hd, <- (rev_unit t d), rev_involutive.
Qed.

Lemma numeral_value_dec n :
  0 <= n < 10 ^ 15 -> numeral_value (dec n) = Some n /\ trim_by (dec n) is_edge_or_space = dec n.
Proof.
  intros Hn. unfold dec.
  destruct (digits_of_spec 20 n) as (H1 & H2 & H3 & H4 & H5); [change (10 ^ 15) with 1000000000000000 in Hn; change (10 ^ Z.of_nat 20) with 100000000000000000000; lia|lia|].
  specialize (H5 15%nat ltac:(lia) ltac:(apply Hn)). set (ds := digits_of 20 n) in *. split.
  - unfold numeral_value. rewrite index_of_none
      by (eapply Forall_impl; [|exact H1]; intros c Hc; by apply digit_not_comma).
    cbn [default]. change (id (length ds)) with (length ds).
    rewrite (proj2 (Nat.eqb_neq (length ds) 0)) by lia.
    assert ((1 <? length ds)%nat && (cur ds =? C"0") = false) as ->.
    { destruct (Z.eqb_spec (cur ds) C"0"); [|by rewrite andb_false_r].
      destruct (Z.eq_dec n 0) as [->|]; [by vm_compute|lia]. }
    rewrite numeral_scan_digits by (done || lia). by rewrite H3.
  - destruct ds as [|c s]; [simpl in H2; lia|].
    destruct (exists_last (l := c :: s)) as (t & d & E); [done|].
    assert (Hd : Forall (fun c => is_digit c = true) (t ++ [d])) by (rewrite <- E; exact H1).
    apply Forall_app in Hd as [_ Hd]. apply Forall_inv in Hd. apply Forall_inv in H1.
    apply (trim_by_id _ c s t d); [by apply digit_not_comma..|done].
Qed.

Lemma sem_equal_same mem a b : sem_equal mem a b = Some true -> content a = content b.
Proof.
  unfold sem_equal, sem_build. intros H. destruct (mem a), (mem b); try done.
  cbn [mbind option_bind] in H. case_bool_decide as E; [|done].
  by rewrite !sem_tokens_content, E.
Qed.

(** ** Properties *)

(** Whenever two spans are equal up to punctuation in the verifier's sense,
    they carry the same content: every byte that is neither white space nor
    punctuation, in order, up to ASCII case. *)
Theorem sem_equal_content mem a b (H : sem_equal mem a b = Some true) : content a = content b.
Proof. by apply (sem_equal_same mem). Qed.

Example sem_equal_content_witness : content B"Don't  STOP, now" = content B"dont stop now!".
Proof. apply (sem_equal_content (fun _ => true)). vm_compute. reflexivity. Defined.

(** A spoken English cardinal below 10^12, with or without "and", is
    accepted as the replacement of exactly its own decimal numeral. *)
Theorem number_words_iff (und : bool) (n m : Z)
    (Hn : 0 <= n < 10 ^ 12) (Hm : 0 <= m < 10 ^ 15) :
  tny_norm_number_value (spoken (cardinal und n)) = Some n /\
  (number_ok (spoken (cardinal und n)) (dec m) = true <-> n = m).
Proof.
  assert (tny_norm_number_value (spoken (cardinal und n)) = Some n) as E
    by (apply number_value_spoken; change (10 ^ 12) with 1000000000000 in Hn; lia).
  split; [done|]. destruct (numeral_value_dec m Hm) as [E1 E2].
  unfold number_ok. rewrite E2, E1, E, Z.eqb_eq. split; congruence.
Qed.

Example number_words_iff_witness :
  spoken (cardinal true 1203045) = B"one million two hundred and three thousand forty five" /\
  number_ok (spoken (cardinal true 1203045)) (dec 1203045) = true.
Proof.
  split; [vm_compute; reflexivity|].
  apply (number_words_iff true 1203045 1203045 ltac:(lia) ltac:(lia)). reflexivity.
Defined.
