(* ===== verification/Dictionary.v ===== *)
(** The user dictionary of the transcript normalizer
    (src/src/core/dictation_dictionary.c): validation of one file and the
    project-over-user merge. *)
From S2P Require Import Prelude Text Json.

Local Open Scope nat_scope.

Definition TNY_DICTIONARY_FILE_MAX : nat := 65536.
Definition TNY_DICTIONARY_ENTRIES_MAX : nat := 256.
Definition TNY_DICTIONARY_WORD_MAX : nat := 64.
Definition TNY_DICTIONARY_CONTEXT_MAX : nat := 256.
Definition TNY_DICTIONARY_ALIASES_MAX : nat := 8.

Record tny_dictionary_entry := mk_entry {
  word : bytes; context : bytes; exact_case : bool; aliases : list bytes }.

(** [entries] with their count. *)
Abbreviation tny_dictionary := (list tny_dictionary_entry).

(** The message of a refused file, and the word it names. *)
Inductive dictionary_error :=
  | WordInvalid | OutOfMemory | UnknownField (w : bytes) | BadEntry (w : bytes)
  | BadContext (w : bytes) | BadCase (w : bytes) | BadAliases (w : bytes) | BadAlias (w : bytes)
  | NotObject | Repeats (w : bytes) | TooMany | TooLarge.

Abbreviation result T := (T + dictionary_error)%type (only parsing).

(** ** Text checks *)

(** The control-character loop. *)
Fixpoint no_controls (s : bytes) : bool :=
  match s with
  | [] => true
  | c :: t =>
    if ((c <? 32) || (c =? 127) ||
        ((c =? 194) && match t with d :: _ => d <=? 159 | [] => false end))%Z
    then false else no_controls t
  end.

Definition plain_text (s : bytes) (max : nat) : bool :=
  if (max <? length s) || mem_byte NUL s || negb (utf8_valid_bytes (Some s) (length s)) then false
  else no_controls s.

Definition meaningful (s : bytes) : bool :=
  existsb (fun c => (128 <=? c) || is_digit c ||
                    ((C"a" <=? Z.lor c 32) && (Z.lor c 32 <=? C"z")))%Z s.

Definition word_text (s : bytes) : bool :=
  negb (length s =? 0) && plain_text s TNY_DICTIONARY_WORD_MAX &&
  negb (cur s =? C" ")%Z && negb (List.last s NUL =? C" ")%Z && meaningful s.

(** ** Parsing; allocations succeed or not as [mem] says *)

Section Parse.
Context (mem : bool).

Fixpoint parse_aliases (w : bytes) (items : list jval) (acc : list bytes) : result (list bytes) :=
  match items with
  | [] => inl acc
  | JStr a :: items =>
    if negb (word_text a) then inr (BadAlias w)
    else if negb mem then inr OutOfMemory
    else parse_aliases w items (acc ++ [a])
  | _ :: _ => inr (BadAlias w)
  end.

(** The three optional members of an object entry. *)
Definition entry_fields (w : bytes) (value : jval) :
    result (option jval * option jval * option jval) :=
  match value with
  | JObj ms =>
    let context := jget (Some value) B"context" in
    let aliases := jget (Some value) B"aliases" in
    let casing := jget (Some value) B"case" in
    let known := (if context then 1 else 0) + (if aliases then 1 else 0) + (if casing then 1 else 0) in
    if negb (length ms =? known) then inr (UnknownField w) else inl (context, aliases, casing)
  | JStr _ => inl (Some value, None, None)
  | _ => inr (BadEntry w)
  end.

Definition parse_entry (w : bytes) (value : jval) : result tny_dictionary_entry :=
  if negb (word_text w) then inr WordInvalid
  else if negb mem then inr OutOfMemory
  else
    match entry_fields w value with
    | inr e => inr e
    | inl (context, aliases, casing) =>
      match context with
      | None | Some (JStr _) =>
        let c := match context with Some (JStr c) => c | _ => [] end in
        if bool_decide (is_Some context) && negb (plain_text c TNY_DICTIONARY_CONTEXT_MAX)
        then inr (BadContext w)
        else
          match (match casing with
                 | None => Some false
                 | Some (JStr c) =>
                   if str_eq (c_str c) B"exact" then Some true
                   else if str_eq (c_str c) B"insensitive" then Some false else None
                 | Some _ => None
                 end) with
          | None => inr (BadCase w)
          | Some exact =>
            match aliases with
            | None => inl (mk_entry w c exact [])
            | Some (JArr items) =>
              if TNY_DICTIONARY_ALIASES_MAX <? length items then inr (BadAliases w)
              else match parse_aliases w items [] with
                   | inr e => inr e
                   | inl al => inl (mk_entry w c exact al)
                   end
            | Some _ => inr (BadAliases w)
            end
          end
      | Some _ => inr (BadContext w)
      end
    end.

Fixpoint parse_entries (members : list (bytes * jval)) (out : tny_dictionary) : result tny_dictionary :=
  match members with
  | [] => inl out
  | (name, value) :: ms =>
    if str_eq (c_str name) B"$schema" && match value with JStr _ => true | _ => false end
    then parse_entries ms out
    else
      match find (fun e => str_eq (word e) name) out with
      | Some e => inr (Repeats (word e))
      | None =>
        if length out =? TNY_DICTIONARY_ENTRIES_MAX then inr TooMany
        else match parse_entry name value with
             | inr e => inr e
             | inl e => parse_entries ms (out ++ [e])
             end
      end
  end.

Definition tny_dictionary_parse (jparse : bytes -> option jval) (json : bytes) : result tny_dictionary :=
  if TNY_DICTIONARY_FILE_MAX <? length json then inr TooLarge
  else
    match jparse json with
    | Some (JObj ms) =>
      if S TNY_DICTIONARY_ENTRIES_MAX <? length ms then inr TooMany
      else if negb mem then inr OutOfMemory
      else parse_entries ms []
    | _ => inr NotObject
    end.

(** ** Merge: the project's entries, then the user's that it lacks *)

Fixpoint merge_loop (out user : tny_dictionary) : tny_dictionary :=
  match user with
  | [] => out
  | e :: user =>
    if existsb (fun o => str_eq (word o) (word e)) out then merge_loop out user
    else merge_loop (out ++ [e]) user
  end.

Definition tny_dictionary_merge (user project : tny_dictionary) : option tny_dictionary :=
  if (length project + length user =? 0) || mem then Some (merge_loop project user) else None.

End Parse.

(** ** Specifications *)

(** An entry as the verifier may rely on it. *)
Definition entry_ok (e : tny_dictionary_entry) : Prop :=
  word_text (word e) = true /\ Forall (fun a => word_text a = true) (aliases e) /\
  (length (aliases e) <= TNY_DICTIONARY_ALIASES_MAX) /\
  (context e = [] \/ plain_text (context e) TNY_DICTIONARY_CONTEXT_MAX = true).

Definition dictionary_ok (d : tny_dictionary) : Prop :=
  NoDup (map word d) /\ Forall entry_ok d.

(** ** Lemmas *)

Lemma parse_aliases_ok mem w items acc al :
  parse_aliases mem w items acc = inl al ->
  Forall (fun a => word_text a = true) acc ->
  Forall (fun a => word_text a = true) al /\ length al = length acc + length items.
Proof.
  revert acc. induction items as [|v items IH]; intros acc H Hacc; cbn [parse_aliases] in H.
  - injection H as <-. split; [done|cbn; lia].
  - destruct v; try done. destruct (word_text s) eqn:Hs; [|done]. destruct mem; [|done].
    apply IH in H as [H1 H2]; [|apply Forall_app; split; [done|by constructor]].
    split; [done|]. rewrite H2, length_app. cbn. lia.
Qed.

Lemma parse_entry_ok mem w v e : parse_entry mem w v = inl e -> entry_ok e /\ word e = w.
Proof.
  unfold parse_entry. destruct (word_text w) eqn:Hw; [|done]. destruct mem; [|done]. cbn [negb].
  destruct (entry_fields w v) as [[[c a] k]|]; [|done].
  assert (Hctx : forall cv, c = Some (JStr cv) ->
    bool_decide (is_Some c) && negb (plain_text cv TNY_DICTIONARY_CONTEXT_MAX) = false ->
    plain_text cv TNY_DICTIONARY_CONTEXT_MAX = true).
  { intros cv -> H. cbn in H. by destruct (plain_text _ _). }
  assert (Ha : forall cv exact, (cv = [] \/ plain_text cv TNY_DICTIONARY_CONTEXT_MAX = true) ->
    match a with
    | None => inl (mk_entry w cv exact [])
    | Some (JArr items) =>
      if TNY_DICTIONARY_ALIASES_MAX <? length items then inr (BadAliases w)
      else match parse_aliases true w items [] with
           | inr e => inr e
           | inl al => inl (mk_entry w cv exact al)
           end
    | Some _ => inr (BadAliases w)
    end = inl e -> entry_ok e /\ word e = w).
  { intros cv exact Hcv. destruct a as [[| | | |items|]|]; try done.
    - destruct (Nat.ltb_spec TNY_DICTIONARY_ALIASES_MAX (length items)); [done|].
      destruct (parse_aliases true w items []) as [al|] eqn:E; [|done]. intros [= <-].
      apply parse_aliases_ok in E as [E1 E2]; [|constructor]. cbn in E2.
      split; [|done]. by split_and!; cbn; [|done|lia|].
    - intros [= <-]. split; [|done]. split_and!; cbn; [done|constructor|lia|done]. }
  destruct c as [[| | |cv| |]|]; try done.
  - destruct (bool_decide _ && _) eqn:E; [done|]. apply (Hctx cv) in E; [|done].
    repeat (case_match; try done); apply Ha; by right.
  - cbn [bool_decide]. repeat (case_match; try done); apply Ha; by left.
Qed.

Lemma parse_entries_ok mem ms out d :
  parse_entries mem ms out = inl d -> dictionary_ok out -> length out <= TNY_DICTIONARY_ENTRIES_MAX ->
  dictionary_ok d /\ length d <= TNY_DICTIONARY_ENTRIES_MAX.
Proof.
  revert out. induction ms as [|[name v] ms IH]; intros out H Hok Hl; cbn [parse_entries] in H.
  - by injection H as <-.
  - destruct (_ && _); [by eapply IH|].
    destruct (find _ out) eqn:Hf; [done|].
    destruct (Nat.eqb_spec (length out) TNY_DICTIONARY_ENTRIES_MAX); [done|].
    destruct (parse_entry mem name v) as [e|] eqn:He; [|done].
    apply parse_entry_ok in He as [He Hw]. eapply IH; [done| |rewrite length_app; cbn; lia].
    destruct Hok as [Hnd Hall]. split; [|apply Forall_app; split; [done|by constructor]].
    rewrite map_app. apply list.NoDup_app. split_and!; [done| |by apply list.NoDup_singleton].
    intros x Hx Hx'. cbn in Hx'. apply list_elem_of_singleton in Hx'. subst x.
    apply list_elem_of_In, in_map_iff in Hx as (o & Ho & Hin).
    pose proof (find_none _ _ Hf o Hin) as Hne. cbn in Hne. rewrite Ho, Hw in Hne.
    by rewrite str_eq_refl in Hne.
Qed.

Lemma merge_loop_spec out user :
  NoDup (map word out) -> NoDup (map word user) ->
  merge_loop out user =
    out ++ List.filter (fun e => negb (existsb (fun o => str_eq (word o) (word e)) out)) user.
Proof.
  revert out. induction user as [|e user IH]; intros out Ho Hu; cbn [merge_loop List.filter].
  - by rewrite app_nil_r.
  - cbn [map] in Hu. apply list.NoDup_cons in Hu as [He Hu].
    destruct (existsb _ out) eqn:Hex; cbn [negb]; [by apply IH|].
    rewrite IH; [|rewrite map_app; apply list.NoDup_app; split_and!; [done| |by apply list.NoDup_singleton]|done].
    + rewrite <- app_assoc. cbn [app]. do 2 f_equal. apply filter_ext_in. intros x Hx.
      rewrite existsb_app. cbn. rewrite orb_false_r. f_equal.
      assert (str_eq (word e) (word x) = false) as ->; [|by rewrite orb_false_r].
      apply str_eq_false. intros E. apply He. rewrite E. apply list_elem_of_In, in_map, Hx.
    + intros x Hx Hx'. cbn in Hx'. apply list_elem_of_singleton in Hx'. subst x.
      apply not_true_iff_false in Hex. apply Hex, existsb_exists.
      apply list_elem_of_In, in_map_iff in Hx as (o & E & Hin). exists o. split; [done|].
      by apply str_eq_true.
Qed.

Lemma dictionary_ok_app_filter p user (f : tny_dictionary_entry -> bool) :
  dictionary_ok p -> dictionary_ok user ->
  (forall e, In e user -> f e = true -> ~ In (word e) (map word p)) ->
  dictionary_ok (p ++ List.filter f user).
Proof.
  intros [Hp1 Hp2] [Hu1 Hu2] Hf. split.
  - rewrite map_app. apply list.NoDup_app. split_and!; [done| |].
    + intros x Hx (e & <- & He)%list_elem_of_In%in_map_iff. apply filter_In in He as [He Hfe].
      by apply (Hf e He Hfe), list_elem_of_In.
    + clear Hu2 Hf. induction user as [|e user IH]; cbn; [constructor|].
      cbn [map] in Hu1. apply list.NoDup_cons in Hu1 as [He Hu1]. destruct (f e); [|by apply IH].
      cbn [map]. apply list.NoDup_cons. split; [|by apply IH].
      intros (x & E & Hx)%list_elem_of_In%in_map_iff. apply He. rewrite <- E.
      apply filter_In in Hx as [Hx _]. by apply list_elem_of_In, in_map.
  - apply Forall_app. split; [done|]. apply Forall_forall. intros e He. apply filter_In in He as [He _].
    rewrite Forall_forall in Hu2. auto.
Qed.

(** ** Properties *)

(** A dictionary that parses holds at most 256 entries with pairwise
    different words, each word and alias non-empty bounded plain text with a
    letter or digit, at most 8 aliases each: what the verifier and the prompt
    builder rely on, whatever the document. *)
Theorem dictionary_parse_ok (mem : bool) (jparse : bytes -> option jval) (json : bytes)
    (d : tny_dictionary) (H : tny_dictionary_parse mem jparse json = inl d) :
  dictionary_ok d /\ length d <= TNY_DICTIONARY_ENTRIES_MAX.
Proof.
  unfold tny_dictionary_parse in H. destruct (_ <? _); [done|].
  destruct (jparse json) as [[| | | | |ms]|]; try done.
  destruct (_ <? _); [done|]. destruct mem; [|done]. cbn [negb] in H.
  eapply parse_entries_ok; [done|split; constructor|cbn; lia].
Qed.

Example dictionary_parse_ok_witness :
  let doc := JObj [(B"$schema", JStr B"x"); (B"tny", JStr B"this tool");
                   (B"Rocq", JObj [(B"aliases", JArr [JStr B"rock"]); (B"case", JStr B"exact")])] in
  dictionary_ok [mk_entry B"tny" B"this tool" false []; mk_entry B"Rocq" [] true [B"rock"]].
Proof.
  intros doc.
  apply (dictionary_parse_ok true (fun _ => Some doc) [] _ ltac:(vm_compute; reflexivity)).
Defined.

(** Merging two valid dictionaries gives the project's entries unchanged and
    in front, then exactly the user's entries whose word the project lacks, in
    order; the result is valid again. *)
Theorem dictionary_merge_spec (user project : tny_dictionary)
    (Hu : dictionary_ok user) (Hp : dictionary_ok project) :
  exists d, tny_dictionary_merge true user project = Some d /\ dictionary_ok d /\
    d = project ++ List.filter (fun e => negb (bool_decide (word e ∈ map word project))) user.
Proof.
  unfold tny_dictionary_merge. rewrite orb_true_r. eexists. split; [done|].
  assert (E : merge_loop project user =
    project ++ List.filter (fun e => negb (bool_decide (word e ∈ map word project))) user).
  { rewrite merge_loop_spec by (apply Hu || apply Hp). f_equal. apply filter_ext. intros e. f_equal.
    apply eq_true_iff_eq. rewrite existsb_exists, bool_decide_eq_true, list_elem_of_In, in_map_iff.
    split; [intros (o & Ho & Eo%str_eq_true)|intros (o & Eo & Ho)]; exists o; split; try done.
    by apply str_eq_true. }
  split; [|done]. rewrite E. apply dictionary_ok_app_filter; [done..|].
  intros e _ He Hin. apply list_elem_of_In in Hin. by rewrite bool_decide_true in He.
Qed.

Example dictionary_merge_spec_witness :
  let u := [mk_entry B"tny" [] false [B"tiny"]; mk_entry B"jq" [] false []] in
  let p := [mk_entry B"tny" [] true []] in
  tny_dictionary_merge true u p = Some [mk_entry B"tny" [] true []; mk_entry B"jq" [] false []].
Proof.
  intros u p.
  assert (Hu : dictionary_ok u).
  { split; [apply list.NoDup_cons; split; [|apply list.NoDup_singleton]|].
    - intros H. apply list_elem_of_singleton in H. discriminate.
    - repeat constructor; vm_compute; reflexivity || lia. }
  assert (Hp : dictionary_ok p).
  { split; [apply list.NoDup_singleton|]. repeat constructor; vm_compute; reflexivity || lia. }
  destruct (dictionary_merge_spec u p Hu Hp) as (d & E & _ & Ed). rewrite E, Ed. vm_compute. reflexivity.
Defined.
