(* ===== verification/NormVerify.v ===== *)
(** The deterministic check of a transcript rewrite
    (src/src/core/dictation_verify.c): admissible corrections, reconstruction,
    the banded edit bound and the verdict; and the strict proposal parser. *)
From S2P Require Import Prelude Text Search Lev Json NormText Dictionary.

Local Open Scope nat_scope.

Definition TNY_NORMALIZE_CORRECTIONS_MAX : nat := 64.
Definition TNY_DICTATION_TEXT_MAX : nat := 65536.

Inductive tny_norm_reason := DICTIONARY | CASE | PUNCTUATION | NUMBER.

Record tny_norm_correction := mk_correction {
  span : bytes; replacement : bytes; reason : tny_norm_reason }.

Record tny_norm_proposal := mk_proposal { text : bytes; corrections : list tny_norm_correction }.

Inductive tny_norm_verdict :=
  | VERDICT_OK | VERDICT_INVALID_TEXT | VERDICT_TOO_MANY | VERDICT_EMPTY_SPAN
  | VERDICT_INADMISSIBLE | VERDICT_UNLISTED | VERDICT_EDIT_BOUND | VERDICT_OOM.

(** [tny_dictation_text_valid] of src/src/core/dictation.c. *)
Fixpoint dictation_controls_ok (s : bytes) : bool :=
  match s with
  | [] => true
  | c :: t =>
    if (((c <? 32) && negb (c =? LF) && negb (c =? CR) && negb (c =? TAB)) || (c =? 127) ||
        ((c =? 194) && match t with d :: _ => (128 <=? d) && (d <=? 159) | [] => false end))%Z
    then false else dictation_controls_ok t
  end.

Definition tny_dictation_text_valid (s : bytes) : bool :=
  if (length s =? 0) || (TNY_DICTATION_TEXT_MAX <? length s) ||
     negb (utf8_valid_bytes (Some s) (length s)) then false
  else if str_ws_prefix s =? length s then false
  else dictation_controls_ok s.

(** ** Dictionary corrections *)

Definition word_matches (e : tny_dictionary_entry) (repl : bytes) : bool :=
  let a := trim_by repl is_edge_or_space in
  let b := trim_by (word e) is_edge_or_space in
  if exact_case e then bytes_equal a b else folded_equal a b.

Section Memory.
(** Which spans' tokens can be allocated. *)
Context (mem : bytes -> bool).

(** The loop over aliases: [Some true] and [None] (no memory) end it. *)
Fixpoint alias_loop (al : list bytes) (s : bytes) : option bool :=
  match al with
  | [] => Some false
  | a :: al =>
    match sem_equal mem a s with
    | Some false => alias_loop al s
    | r => r
    end
  end.

Definition span_ok (e : tny_dictionary_entry) (s : bytes) : option bool :=
  match sem_nonempty mem s with
  | Some true => if token_count s =? 1 then Some true else alias_loop (aliases e) s
  | r => r
  end.

Fixpoint entry_loop (d : tny_dictionary) (s repl : bytes) : option bool :=
  match d with
  | [] => Some false
  | e :: d =>
    if negb (word_matches e repl) then entry_loop d s repl
    else match span_ok e s with
         | Some false => entry_loop d s repl
         | r => r
         end
  end.

Definition admissible (d : tny_dictionary) (c : tny_norm_correction) : option bool :=
  match reason c with
  | CASE => Some (folded_equal (span c) (replacement c))
  | PUNCTUATION => sem_equal mem (span c) (replacement c)
  | NUMBER => Some (number_ok (span c) (replacement c))
  | DICTIONARY => entry_loop d (span c) (replacement c)
  end.

(** ** Reconstruction

    [raw] and [text] are what is left of each from the cursors on. *)

(** [find]: the offset of the first occurrence of a non-empty needle. *)
Fixpoint find_at (hay needle : bytes) : option nat :=
  if length hay <? length needle then None
  else if has_prefix needle hay then Some 0
  else match hay with
       | [] => None
       | _ :: hay => S <$> find_at hay needle
       end.

Fixpoint reconstructs (raw text : bytes) (cs : list tny_norm_correction) : bool :=
  match cs with
  | [] => (length raw =? length text) && str_eq text raw
  | c :: cs =>
    match find_at raw (span c) with
    | None => false
    | Some gap =>
      if (length text <? gap) || negb (str_eq (take gap text) (take gap raw)) then false
      else
        let text := drop gap text in
        if (length text <? length (replacement c)) ||
           negb (str_eq (take (length (replacement c)) text) (replacement c)) then false
        else reconstructs (drop (gap + length (span c)) raw)
               (drop (length (replacement c)) text) cs
    end
  end.

(** ** Edit bound *)

(** One cell of a row; [v < inf ? v : inf]. *)
Definition lev_cell (a b : list bytes) (i k : nat) (prev cur : list nat) (j : nat) : list nat :=
  let inf := k + 1 in
  let v := nth (j - 1) prev 0 + (if bytes_equal (nth (i - 1) a []) (nth (j - 1) b []) then 0 else 1) in
  let v := if nth j prev 0 + 1 <? v then nth j prev 0 + 1 else v in
  let v := if nth (j - 1) cur 0 + 1 <? v then nth (j - 1) cur 0 + 1 else v in
  <[j := if v <? inf then v else inf]> cur.

(** One row over the band, the sentinels beside it, and the swap. *)
Definition lev_row (a b : list bytes) (k : nat) (rows : list nat * list nat) (i : nat) :
    list nat * list nat :=
  let '(prev, cur) := rows in
  let m := length b in
  let inf := k + 1 in
  let lo := if k <? i then i - k else 0 in
  let hi := if i + k <? m then i + k else m in
  let cur := if 0 <? lo then <[lo - 1 := inf]> cur else <[0 := i]> cur in
  let from := if 0 <? lo then lo else 1 in
  let cur := fold_left (lev_cell a b i k prev) (seq from (S hi - from)) cur in
  let cur := if hi <? m then <[hi + 1 := inf]> cur else cur in
  (cur, prev).

(** [rows_ok]: the two rows could be allocated. *)
Definition lev_within (rows_ok : bool) (a b : list bytes) (k : nat) : bool :=
  let n := length a in
  let m := length b in
  if (m + k <? n) || (n + k <? m) then false
  else if rows_ok then
    let prev := fold_left (fun prev j => <[j := if j <=? k then j else k + 1]> prev)
                  (seq 0 (S (Nat.min m (k + 1)))) (replicate (m + 1) 0) in
    let '(prev, _) := fold_left (lev_row a b k) (seq 1 n) (prev, replicate (m + 1) 0) in
    nth m prev 0 <=? k
  else false.

Definition tny_norm_within_edit_bound (rows_ok : bool) (a b : bytes) : option bool :=
  x ← sem_build mem a; y ← sem_build mem b;
  Some (lev_within rows_ok x y (3 + length x / 4)).

(** ** The verdict *)

Fixpoint check_corrections (d : tny_dictionary) (cs : list tny_norm_correction) :
    option tny_norm_verdict :=
  match cs with
  | [] => None
  | c :: cs =>
    if length (span c) =? 0 then Some VERDICT_EMPTY_SPAN
    else match admissible d c with
         | None => Some VERDICT_OOM
         | Some false => Some VERDICT_INADMISSIBLE
         | Some true => check_corrections d cs
         end
  end.

Definition tny_norm_verify (rows_ok : bool) (d : tny_dictionary) (raw : bytes)
    (p : tny_norm_proposal) : tny_norm_verdict :=
  if negb (tny_dictation_text_valid (text p)) then VERDICT_INVALID_TEXT
  else if TNY_NORMALIZE_CORRECTIONS_MAX <? length (corrections p) then VERDICT_TOO_MANY
  else match check_corrections d (corrections p) with
       | Some v => v
       | None =>
         if negb (reconstructs raw (text p) (corrections p)) then VERDICT_UNLISTED
         else match tny_norm_within_edit_bound rows_ok raw (text p) with
              | None => VERDICT_OOM
              | Some within => if within then VERDICT_OK else VERDICT_EDIT_BOUND
              end
       end.

End Memory.

(** ** Proposals *)

Definition tny_norm_reason_name (r : tny_norm_reason) : bytes :=
  match r with
  | DICTIONARY => B"dictionary" | CASE => B"case" | PUNCTUATION => B"punctuation" | NUMBER => B"number"
  end.

(** A string without NUL bytes, copied; [mem] is the allocation. *)
Definition copy_string (mem : bool) (v : option jval) : option bytes :=
  match v with
  | Some (JStr s) => if mem_byte NUL s then None else if mem then Some s else None
  | _ => None
  end.

Definition reason_of (name : option bytes) : option tny_norm_reason :=
  match name with
  | None => None
  | Some n => List.find (fun r => str_eq n (tny_norm_reason_name r)) [DICTIONARY; CASE; PUNCTUATION; NUMBER]
  end.

Definition parse_correction (mem : bool) (item : jval) : option tny_norm_correction :=
  match item with
  | JObj ms =>
    if negb (length ms =? 3) then None
    else
      r ← reason_of (jget_str (Some item) B"reason");
      s ← copy_string mem (jget (Some item) B"span");
      t ← copy_string mem (jget (Some item) B"replacement");
      Some (mk_correction s t r)
  | _ => None
  end.

Fixpoint parse_corrections (mem : bool) (items : list jval) : option (list tny_norm_correction) :=
  match items with
  | [] => Some []
  | i :: items => c ← parse_correction mem i; cs ← parse_corrections mem items; Some (c :: cs)
  end.

Definition tny_norm_proposal_parse (mem : bool) (jparse : bytes -> option jval) (json : bytes) :
    option tny_norm_proposal :=
  match jparse json with
  | Some (JObj ms as root) =>
    match jget (Some root) B"corrections" with
    | Some (JArr items) =>
      if negb (length ms =? 2) then None
      else
        t ← copy_string mem (jget (Some root) B"text");
        if (0 <? length items) && negb mem then None
        else cs ← parse_corrections mem items; Some (mk_proposal t cs)
    | _ => None
    end
  | _ => None
  end.

(** ** Specifications *)

(** The corrections applied in order, each to the first occurrence of its span
    after the previous one. *)
Fixpoint apply_all (raw : bytes) (cs : list tny_norm_correction) : option bytes :=
  match cs with
  | [] => Some raw
  | c :: cs =>
    '(pre, rest) ← strstr (span c) raw;
    out ← apply_all rest cs;
    Some (pre ++ replacement c ++ out)
  end.

(** What each kind of correction may do. *)
Definition justified (d : tny_dictionary) (c : tny_norm_correction) : Prop :=
  match reason c with
  | CASE => map lower (span c) = map lower (replacement c)
  | PUNCTUATION => sem_tokens (span c) = sem_tokens (replacement c)
  | NUMBER => number_ok (span c) (replacement c) = true
  | DICTIONARY => exists e, In e d /\ word_matches e (replacement c) = true /\
      sem_tokens (span c) <> [] /\
      (token_count (span c) = 1 \/
       exists a, In a (aliases e) /\ sem_tokens a = sem_tokens (span c))
  end.

Definition enough (_ : bytes) : bool := true.

(** ** Lemmas: reconstruction *)

Lemma find_at_strstr hay needle :
  find_at hay needle = (fun pr => length pr.1) <$> strstr needle hay.
Proof.
  induction hay as [|c hay IH]; cbn [find_at strstr].
  - destruct needle; [done|]. done.
  - destruct (Nat.ltb_spec (length (c :: hay)) (length needle)) as [Hlt|_].
    + destruct (has_prefix needle (c :: hay)) eqn:Hp; [apply has_prefix_length in Hp; lia|].
      destruct (strstr needle hay) as [[p r]|] eqn:E; [|done].
      apply strstr_some in E as [E _]. apply (f_equal length) in E.
      rewrite !length_app in E. cbn in Hlt. lia.
    + destruct (has_prefix needle (c :: hay)); [done|]. rewrite IH.
      by destruct (strstr needle hay) as [[p r]|].
Qed.

Lemma take_eq_prefix (n : nat) (t u : bytes) :
  n <= length u -> (length t <? n) || negb (str_eq (take n t) (take n u)) = false <->
  exists t', t = take n u ++ t'.
Proof.
  intros Hu. rewrite orb_false_iff, Nat.ltb_ge, negb_false_iff, str_eq_true. split.
  - intros [Hl <-]. exists (drop n t). by rewrite firstn_skipn.
  - intros [t' ->]. rewrite length_app, length_take. split; [lia|].
    rewrite take_app_le by (rewrite length_take; lia). by rewrite take_take, Nat.min_id.
Qed.

Lemma reconstructs_apply cs raw text :
  reconstructs raw text cs = true <-> apply_all raw cs = Some text.
Proof.
  revert raw text. induction cs as [|c cs IH]; intros raw text; cbn [reconstructs apply_all].
  - rewrite andb_true_iff, str_eq_true, Nat.eqb_eq. split; [by intros [_ ->]|by intros [= ->]].
  - rewrite find_at_strstr. destruct (strstr (span c) raw) as [[pre rest]|] eqn:E; [|done].
    apply strstr_some in E as [Er _]. cbn [fmap option_fmap option_map fst mbind option_bind].
    set (n := length (replacement c)).
    assert (Hraw : length pre <= length raw) by (rewrite Er, length_app; lia).
    assert (Hpre : take (length pre) raw = pre) by (by rewrite Er, take_app_exact).
    assert (Hdrop : drop (length pre + length (span c)) raw = rest)
      by (rewrite Er, app_assoc, <- length_app; apply drop_app_exact).
    destruct ((length text <? length pre) || _) eqn:E1.
    { split; [done|]. destruct (apply_all rest cs) as [out|]; [|done]. intros [= <-].
      rewrite Hpre, length_app, take_app_exact, str_eq_refl in E1.
      apply orb_true_iff in E1 as [E1%Nat.ltb_lt|]; [lia|done]. }
    apply take_eq_prefix in E1 as [t' ->]; [|done]. rewrite Hpre, drop_app_exact.
    assert (Hrep : take n (replacement c) = replacement c) by apply firstn_all.
    replace (str_eq (take n t') (replacement c)) with (str_eq (take n t') (take n (replacement c)))
      by (by rewrite Hrep).
    destruct ((length t' <? n) || _) eqn:E2.
    { split; [done|]. destruct (apply_all rest cs) as [out|]; [|done]. intros [= Et].
      apply (app_inv_head pre) in Et. subst t'.
      unfold n in E2. rewrite length_app, take_app_exact, firstn_all, str_eq_refl in E2.
      apply orb_true_iff in E2 as [E2%Nat.ltb_lt|]; [lia|done]. }
    apply take_eq_prefix in E2 as [t'' ->]; [|done]. rewrite Hrep. unfold n. rewrite drop_app_exact, Hdrop, IH.
    destruct (apply_all rest cs) as [out|]; [|done].
    split; [by intros [= ->]|]. intros [= Et].
    by apply (app_inv_head pre), (app_inv_head (replacement c)) in Et as ->.
Qed.

(** ** Lemmas: admissibility *)

Lemma sem_equal_enough a b : sem_equal enough a b = Some (bool_decide (sem_tokens a = sem_tokens b)).
Proof. done. Qed.

Lemma alias_loop_enough al s :
  alias_loop enough al s = Some true <-> exists a, In a al /\ sem_tokens a = sem_tokens s.
Proof.
  induction al as [|a al IH]; cbn [alias_loop].
  - split; [done|]. by intros (a & [] & _).
  - rewrite sem_equal_enough. case_bool_decide as H.
    + split; [|done]. intros _. exists a. split; [by left|done].
    + rewrite IH. split; [intros (x & ? & ?); exists x; split; [by right|done]|].
      intros (x & [->|?] & ?); [done|eauto].
Qed.

Lemma alias_loop_some al s : exists r, alias_loop enough al s = Some r.
Proof.
  induction al as [|a al IH]; cbn [alias_loop]; [by eexists|].
  rewrite sem_equal_enough. case_bool_decide; [by eexists|done].
Qed.

Lemma span_ok_enough e s :
  (exists r, span_ok enough e s = Some r) /\
  (span_ok enough e s = Some true <->
   sem_tokens s <> [] /\ (token_count s = 1 \/ exists a, In a (aliases e) /\ sem_tokens a = sem_tokens s)).
Proof.
  unfold span_ok, sem_nonempty, sem_build. cbn [enough mbind option_bind].
  destruct (sem_tokens s) as [|t ts] eqn:Et; cbn [length Nat.ltb Nat.leb].
  - split; [by eexists|]. split; [done|by intros [? _]].
  - destruct (Nat.eqb_spec (token_count s) 1) as [H1|H1].
    + split; [by eexists|]. split; [|done]. intros _. split; [done|by left].
    + split; [apply alias_loop_some|]. rewrite alias_loop_enough, Et.
      split; [intros H; split; [done|by right]|]. intros [_ [?|?]]; done.
Qed.

Lemma entry_loop_enough d s repl :
  (exists r, entry_loop enough d s repl = Some r) /\
  (entry_loop enough d s repl = Some true <->
   exists e, In e d /\ word_matches e repl = true /\ span_ok enough e s = Some true).
Proof.
  induction d as [|e d [IH1 IH2]]; cbn [entry_loop].
  - split; [by eexists|]. split; [done|]. by intros (e & [] & _).
  - destruct (word_matches e repl) eqn:Hw; cbn [negb].
    + destruct (span_ok_enough e s) as [[[|] Hr] _]; rewrite Hr.
      * split; [by eexists|]. split; [|done]. intros _. exists e. split; [by left|done].
      * split; [done|]. rewrite IH2. split; [intros (x & ? & ?); exists x; split; [by right|done]|].
        intros (x & [->|?] & ? & Hx); [congruence|eauto].
    + split; [done|]. rewrite IH2. split; [intros (x & ? & ?); exists x; split; [by right|done]|].
      intros (x & [->|?] & ? & Hx); [congruence|eauto].
Qed.

Lemma admissible_enough d c :
  (exists r, admissible enough d c = Some r) /\ (admissible enough d c = Some true <-> justified d c).
Proof.
  unfold admissible, justified. destruct (reason c).
  - destruct (entry_loop_enough d (span c) (replacement c)) as [H1 H2]. split; [done|].
    rewrite H2. split; intros (e & ? & ? & H); exists e; (split_and!; [done..| |] || split_and!; try done);
      apply span_ok_enough in H || apply span_ok_enough; try apply H; by destruct H.
  - split; [by eexists|]. rewrite <- folded_equal_map. by split; [intros [=]|intros ->].
  - rewrite sem_equal_enough. split; [by eexists|]. case_bool_decide; by split.
  - split; [by eexists|]. by split; [intros [=]|intros ->].
Qed.

(** ** Lemmas: the banded table *)

Section Band.
Context (a b : list bytes) (k : nat).

(** What a stored cell must be: the distance, cut above the bound. *)
Definition cell_ok (i j v : nat) : Prop :=
  forall d, dist (take i a) (take j b) d -> v = Nat.min d (k + 1).

(** Row [i] on the band and one cell to each side. *)
Definition band_ok (i : nat) (row : list nat) : Prop :=
  length row = S (length b) /\
  forall j, j <= length b -> i <= j + k + 1 -> j <= i + k + 1 -> cell_ok i j (nth j row 0).

Lemma cell_outside i j :
  i <= length a -> j <= length b -> (i + k < j \/ j + k < i) -> cell_ok i j (k + 1).
Proof.
  intros Hi Hj Hout d Hd. apply dist_length in Hd. rewrite !length_take in Hd. lia.
Qed.

Lemma nth_set_eq (row : list nat) j v : j < length row -> nth j (<[j := v]> row) 0 = v.
Proof.
  revert j. induction row as [|x row IH]; intros [|j] H; simpl in *; [lia..|done|]. apply IH. lia.
Qed.

Lemma nth_set_ne (row : list nat) j j' v : j <> j' -> nth j' (<[j := v]> row) 0 = nth j' row 0.
Proof.
  revert j j'. induction row as [|x row IH]; intros [|j] [|j'] H; try done. cbn. apply IH. lia.
Qed.

Lemma take_snoc_nth {A} (d : A) (s : list A) i :
  i < length s -> take (S i) s = take i s ++ [nth i s d].
Proof.
  revert i. induction s as [|c s IH]; intros [|i] H; simpl in *; try lia; [done|]. by rewrite <- IH by lia.
Qed.

Lemma ltb_min x v : (if x <? v then x else v) = Nat.min x v.
Proof. destruct (Nat.ltb_spec x v); lia. Qed.

Lemma lev_cell_ok i prev cur j :
  1 <= i <= length a -> 1 <= j <= length b -> length cur = S (length b) ->
  cell_ok (i - 1) j (nth j prev 0) -> cell_ok (i - 1) (j - 1) (nth (j - 1) prev 0) ->
  cell_ok i (j - 1) (nth (j - 1) cur 0) ->
  cell_ok i j (nth j (lev_cell a b i k prev cur j) 0).
Proof.
  intros Hi Hj Hl Hup Hdiag Hleft d Hd. unfold lev_cell. rewrite nth_set_eq by lia.
  destruct i as [|i]; [lia|]. destruct j as [|j]; [lia|].
  replace (S i - 1) with i in * by lia. replace (S j - 1) with j in * by lia.
  destruct (dist_exists (take i a) (take (S j) b)) as [p Hp].
  destruct (dist_exists (take (S i) a) (take j b)) as [q Hq].
  destruct (dist_exists (take i a) (take j b)) as [r Hr].
  rewrite (Hup p Hp), (Hdiag r Hr), (Hleft q Hq).
  rewrite (take_snoc_nth [] a i), (take_snoc_nth [] b j) in Hd by lia.
  rewrite (take_snoc_nth [] b j) in Hp by lia. rewrite (take_snoc_nth [] a i) in Hq by lia.
  rewrite (dist_unique _ _ _ _ Hd (dist_snoc _ _ _ _ _ _ _ Hp Hq Hr)).
  unfold bytes_equal, str_eq. cbv zeta.
  set (e := if decide (nth i a [] = nth j b []) then 0 else 1).
  replace (if bool_decide (nth i a [] = nth j b []) then 0 else 1) with e
    by (unfold e; case_decide; case_bool_decide; done).
  rewrite !ltb_min. lia.
Qed.

(** The loop over the band, from the cell after [p0]. *)
Lemma lev_cells_ok i prev n p0 cur :
  1 <= i <= length a -> p0 + n <= length b -> p0 + n <= i + k -> i <= p0 + k + 1 ->
  band_ok (i - 1) prev -> length cur = S (length b) -> cell_ok i p0 (nth p0 cur 0) ->
  let cur' := fold_left (lev_cell a b i k prev) (seq (S p0) n) cur in
  length cur' = S (length b) /\
  (forall j, p0 <= j <= p0 + n -> cell_ok i j (nth j cur' 0)).
Proof.
  intros Hi Hn Hhi Hlo [Hpl Hprev]. revert p0 cur Hn Hhi Hlo.
  induction n as [|n IH]; intros p0 cur Hn Hhi Hlo Hl Hp0; cbn [seq fold_left].
  - split; [done|]. intros j Hj. by replace j with p0 by lia.
  - assert (Hc : cell_ok i (S p0) (nth (S p0) (lev_cell a b i k prev cur (S p0)) 0)).
    { apply lev_cell_ok; [lia..|done| | |].
      - apply Hprev; lia.
      - replace (S p0 - 1) with p0 by lia. apply Hprev; lia.
      - by replace (S p0 - 1) with p0 by lia. }
    assert (Hl' : length (lev_cell a b i k prev cur (S p0)) = S (length b))
      by (unfold lev_cell; by rewrite length_insert).
    destruct (IH (S p0) (lev_cell a b i k prev cur (S p0))) as [H1 H2]; [lia..|done|done|].
    split; [done|]. intros j Hj. destruct (Nat.eq_dec j p0) as [->|]; [|apply H2; lia].
    clear -Hp0 H1 H2. (* cells before the loop stay *)
    assert (K : forall l c, (forall x, In x l -> p0 < x) ->
      nth p0 (fold_left (lev_cell a b i k prev) l c) 0 = nth p0 c 0).
    { induction l as [|x l IHl]; intros c Hx; [done|]. cbn [fold_left].
      rewrite IHl by (intros; apply Hx; by right). unfold lev_cell.
      apply nth_set_ne. specialize (Hx x (or_introl eq_refl)). lia. }
    rewrite K; [|intros x Hx%in_seq; lia]. unfold lev_cell. by rewrite nth_set_ne by lia.
Qed.

(** The cell the row starts from: the sentinel, or the first column. *)
Lemma lev_start_ok i cur :
  1 <= i <= length a -> length a <= length b + k -> length cur = S (length b) ->
  let lo := if k <? i then i - k else 0 in
  let cur1 := if 0 <? lo then <[lo - 1 := k + 1]> cur else <[0 := i]> cur in
  length cur1 = S (length b) /\ cell_ok i (lo - 1) (nth (lo - 1) cur1 0).
Proof.
  intros Hi Hab Hl. cbv zeta. destruct (Nat.ltb_spec k i).
  - rewrite (proj2 (Nat.ltb_lt 0 (i - k))) by lia. split; [by rewrite length_insert|].
    rewrite nth_set_eq by lia. apply cell_outside; lia.
  - cbn [Nat.ltb Nat.leb Nat.sub]. split; [by rewrite length_insert|]. rewrite nth_set_eq by lia.
    intros d Hd. cbn [take] in Hd. pose proof (dist_nil_r (take i a)) as Hn.
    rewrite (dist_unique _ _ _ _ Hd Hn), length_take. lia.
Qed.

Lemma lev_row_ok i prev cur :
  1 <= i <= length a -> length a <= length b + k ->
  band_ok (i - 1) prev -> length cur = S (length b) ->
  band_ok i (lev_row a b k (prev, cur) i).1 /\ (lev_row a b k (prev, cur) i).2 = prev.
Proof.
  intros Hi Hab Hprev Hl. split; [|done]. unfold lev_row. cbn [fst].
  destruct (lev_start_ok i cur Hi Hab Hl) as [Hl1 Hc1].
  set (lo := if k <? i then i - k else 0) in *. set (cur1 := if 0 <? lo then _ else _) in *.
  assert (Hlo : lo = if k <? i then i - k else 0) by done. clearbody lo cur1.
  replace (if 0 <? lo then lo else 1) with (S (lo - 1)) by (destruct (Nat.ltb_spec 0 lo); lia).
  set (hi := if i + k <? length b then i + k else length b).
  assert (Hhi : hi = Nat.min (i + k) (length b)) by (unfold hi; destruct (Nat.ltb_spec (i + k) (length b)); lia).
  clearbody hi.
  assert (Hlo' : lo - 1 <= hi /\ i <= lo - 1 + k + 1 /\ (lo - 1 = i - k - 1))
    by (destruct (Nat.ltb_spec k i); lia).
  replace (S hi - S (lo - 1)) with (hi - (lo - 1)) by lia.
  destruct (lev_cells_ok i prev (hi - (lo - 1)) (lo - 1) cur1) as [Hl2 Hc2]; [lia..|done|done|done|].
  set (cur2 := fold_left _ _ cur1) in *. clearbody cur2.
  destruct (Nat.ltb_spec hi (length b)).
  - split; [by rewrite length_insert|]. intros j Hj H1 H2.
    destruct (Nat.eq_dec j (hi + 1)) as [->|Hne].
    + rewrite nth_set_eq by lia. apply cell_outside; lia.
    + rewrite nth_set_ne by lia. apply Hc2. lia.
  - split; [done|]. intros j Hj H1 H2. apply Hc2. lia.
Qed.

Lemma lev_rows_ok n i rows :
  i + n <= length a -> length a <= length b + k ->
  band_ok i rows.1 -> length rows.2 = S (length b) ->
  band_ok (i + n) (fold_left (lev_row a b k) (seq (S i) n) rows).1.
Proof.
  revert i rows. induction n as [|n IH]; intros i [prev cur] Hn Hab Hp Hc; cbn [seq fold_left].
  - by rewrite Nat.add_0_r.
  - destruct (lev_row_ok (S i) prev cur) as [H1 H2]; [lia|done|by replace (S i - 1) with i by lia|done|].
    rewrite Nat.add_succ_r. apply (IH (S i)); [lia|done|done|]. rewrite H2. apply Hp.
Qed.

Lemma lev_within_iff :
  lev_within true a b k = true <-> exists d, dist a b d /\ d <= k.
Proof.
  unfold lev_within. destruct (dist_exists a b) as [d Hd].
  assert (Hex : (exists d, dist a b d /\ d <= k) <-> d <= k).
  { split; [|eauto]. intros (e & He & ?). by rewrite (dist_unique _ _ _ _ Hd He). }
  rewrite Hex. clear Hex. pose proof (dist_length _ _ _ Hd).
  destruct ((length b + k <? length a) || (length a + k <? length b)) eqn:Hout.
  { split; [done|]. rewrite orb_true_iff, !Nat.ltb_lt in Hout. lia. }
  rewrite orb_false_iff, !Nat.ltb_ge in Hout. destruct Hout as [Ho1 Ho2].
  set (row0 := fold_left _ _ (replicate _ _)).
  assert (H0 : band_ok 0 row0).
  { unfold row0. rewrite (fold_store_fill (fun j => if j <=? k then j else k + 1)) by lia. split.
    - rewrite length_app, length_map, length_seq, length_replicate. lia.
    - intros j Hj _ Hjk e He. cbn [take] in He. pose proof (dist_nil_l (take j b)) as Hn.
      rewrite (dist_unique _ _ _ _ He Hn), length_take.
      rewrite app_nth1 by (rewrite length_map, length_seq; lia).
      rewrite (nth_indep _ 0 (if 0 <=? k then 0 else k + 1)) by (rewrite length_map, length_seq; lia).
      rewrite (map_nth (fun j => if j <=? k then j else k + 1)), seq_nth by lia. cbn [Nat.add].
      destruct (Nat.leb_spec j k); lia. }
  clearbody row0.
  pose proof (lev_rows_ok (length a) 0 (row0, replicate (length b + 1) 0) (Nat.le_refl _) Ho1 H0) as H1.
  destruct (fold_left (lev_row a b k) _ _) as [prev cur]. destruct H1 as [_ H1]; [cbn; rewrite length_replicate; lia|].
  cbn [fst Nat.add] in H1. rewrite (H1 (length b)) with (d := d); [|lia..|by rewrite !firstn_all].
  rewrite Nat.leb_le. lia.
Qed.

End Band.

(** ** Lemmas: running out of memory never accepts *)

Section MemoryLess.
Context (mem : bytes -> bool).

Lemma sem_equal_mem x y r : sem_equal mem x y = Some r -> sem_equal enough x y = Some r.
Proof. unfold sem_equal, sem_build. by destruct (mem x), (mem y). Qed.

Lemma alias_loop_mem al s r : alias_loop mem al s = Some r -> alias_loop enough al s = Some r.
Proof.
  induction al as [|x al IH]; cbn [alias_loop]; [done|].
  destruct (sem_equal mem x s) as [[|]|] eqn:E; [..|done]; apply sem_equal_mem in E; by rewrite E.
Qed.

Lemma span_ok_mem e s r : span_ok mem e s = Some r -> span_ok enough e s = Some r.
Proof.
  unfold span_ok, sem_nonempty, sem_build. cbn [enough]. destruct (mem s); [|done]. cbn [mbind option_bind].
  destruct (0 <? length (sem_tokens s)); [|done]. destruct (token_count s =? 1); [done|]. apply alias_loop_mem.
Qed.

Lemma entry_loop_mem d s repl r : entry_loop mem d s repl = Some r -> entry_loop enough d s repl = Some r.
Proof.
  induction d as [|e d IH]; cbn [entry_loop]; [done|]. destruct (word_matches e repl); [|done]. cbn [negb].
  destruct (span_ok mem e s) as [[|]|] eqn:E; [..|done]; apply span_ok_mem in E; by rewrite E.
Qed.

Lemma admissible_mem d c r : admissible mem d c = Some r -> admissible enough d c = Some r.
Proof.
  unfold admissible. destruct (reason c); [apply entry_loop_mem|done|apply sem_equal_mem|done].
Qed.

Lemma check_corrections_mem d cs :
  check_corrections mem d cs = None -> check_corrections enough d cs = None.
Proof.
  induction cs as [|c cs IH]; cbn [check_corrections]; [done|]. destruct (_ =? 0); [done|].
  destruct (admissible mem d c) as [[|]|] eqn:E; try done. apply admissible_mem in E. by rewrite E.
Qed.

End MemoryLess.

Lemma check_corrections_enough d cs :
  check_corrections enough d cs = None <-> Forall (fun c => span c <> [] /\ justified d c) cs.
Proof.
  induction cs as [|c cs IH]; cbn [check_corrections]; [by split|].
  rewrite Forall_cons_iff. destruct (Nat.eqb_spec (length (span c)) 0) as [H0|H0].
  - split; [done|]. intros [[H _] _]. by destruct (span c).
  - assert (span c <> []) by by intros E; rewrite E in H0.
    destruct (admissible_enough d c) as [[r Hr] Hj]. rewrite Hr in *. destruct r.
    + rewrite IH. split; [intros ?; split; [split; [done|by apply Hj]|done]|by intros [_ ?]].
    + split; [done|]. intros [[_ H1] _]. apply Hj in H1. done.
Qed.

(** The whole verdict, with its memory. *)
Definition accepted (d : tny_dictionary) (raw : bytes) (p : tny_norm_proposal) : Prop :=
  tny_dictation_text_valid (text p) = true /\
  length (corrections p) <= TNY_NORMALIZE_CORRECTIONS_MAX /\
  Forall (fun c => span c <> [] /\ justified d c) (corrections p) /\
  apply_all raw (corrections p) = Some (text p) /\
  exists n, dist (sem_tokens raw) (sem_tokens (text p)) n /\ n <= 3 + length (sem_tokens raw) / 4.

Lemma verify_accepts mem rows_ok d raw p :
  tny_norm_verify mem rows_ok d raw p = VERDICT_OK -> accepted d raw p.
Proof.
  unfold tny_norm_verify, accepted. destruct (tny_dictation_text_valid _); [|done]. cbn [negb].
  destruct (Nat.ltb_spec TNY_NORMALIZE_CORRECTIONS_MAX (length (corrections p))); [done|].
  destruct (check_corrections mem d (corrections p)) as [v|] eqn:Ec.
  { intros ->. exfalso. revert Ec. clear. induction (corrections p) as [|c cs IH]; cbn; [done|].
    destruct (_ =? 0); [done|]. by destruct (admissible mem d c) as [[|]|]. }
  apply check_corrections_mem, check_corrections_enough in Ec.
  destruct (reconstructs raw (text p) (corrections p)) eqn:Er; [|done].
  apply reconstructs_apply in Er. cbn [negb].
  unfold tny_norm_within_edit_bound, sem_build. destruct (mem raw), (mem (text p)); try done.
  cbn [mbind option_bind]. destruct (lev_within rows_ok _ _ _) eqn:El; [|done]. intros _.
  split_and!; try done. apply lev_within_iff. revert El. unfold lev_within.
  by destruct rows_ok, (_ || _).
Qed.

Lemma accepted_verifies d raw p :
  accepted d raw p -> tny_norm_verify enough true d raw p = VERDICT_OK.
Proof.
  intros (Ht & Hn & Hc & Ha & Hd). unfold tny_norm_verify. rewrite Ht. cbn [negb].
  rewrite (proj2 (Nat.ltb_ge _ _)) by done.
  rewrite (proj2 (check_corrections_enough d (corrections p))) by done.
  rewrite (proj2 (reconstructs_apply _ _ _)) by done. cbn [negb].
  unfold tny_norm_within_edit_bound. cbn [sem_build enough mbind option_bind].
  by rewrite (proj2 (lev_within_iff _ _ _)).
Qed.

(** Only letter case and punctuation were touched. *)
Definition cosmetic (c : tny_norm_correction) : Prop := reason c = CASE \/ reason c = PUNCTUATION.

Lemma cosmetic_content d c : cosmetic c -> justified d c -> content (span c) = content (replacement c).
Proof.
  unfold justified. intros [E|E]; rewrite E.
  - intros H. by apply folded_equal_content, folded_equal_map.
  - intros H. apply (sem_equal_same enough). rewrite sem_equal_enough, H.
    by rewrite bool_decide_true.
Qed.

Lemma apply_all_content d raw cs out :
  Forall (fun c => cosmetic c /\ justified d c) cs -> apply_all raw cs = Some out ->
  content out = content raw.
Proof.
  intros Hcs. revert raw out. induction Hcs as [|c cs [Hc Hj] _ IH]; intros raw out; cbn [apply_all].
  - by intros [= ->].
  - destruct (strstr (span c) raw) as [[pre rest]|] eqn:E; [|done].
    apply strstr_some in E as [-> _]. cbn [mbind option_bind].
    destruct (apply_all rest cs) as [o|] eqn:Eo; [|done]. intros [= <-].
    rewrite !content_app, (IH _ _ Eo). by rewrite (cosmetic_content d c).
Qed.

(** ** Properties *)

(** C22: a rewrite is accepted exactly when its text is valid, it lists at most
    64 corrections, each with a non-empty span and justified by its reason
    (case only; same semantic tokens; a number word for its own numeral; a
    dictionary word for one token or one of its aliases), the corrections in
    order produce exactly its text, and the semantic edit distance is within
    the bound; and with too little memory nothing else is ever accepted. *)
Theorem norm_verify_iff (d : tny_dictionary) (raw : bytes) (p : tny_norm_proposal) :
  (tny_norm_verify enough true d raw p = VERDICT_OK <-> accepted d raw p) /\
  (forall mem rows_ok, tny_norm_verify mem rows_ok d raw p = VERDICT_OK -> accepted d raw p).
Proof.
  split; [split; [apply verify_accepts|apply accepted_verifies]|]. intros mem rows_ok.
  apply verify_accepts.
Qed.

(** The banded two-row table decides whether the edit distance of two token
    sequences is within the bound, although cells outside the band are never
    computed. *)
Theorem lev_within_correct (a b : list bytes) (k : nat) :
  lev_within true a b k = true <-> exists n, dist a b n /\ n <= k.
Proof. apply lev_within_iff. Qed.

(** An accepted rewrite whose corrections are all of case or punctuation
    carries the transcript's content unchanged: the same bytes besides white
    space and punctuation, up to case. *)
Theorem cosmetic_rewrite_keeps_content (mem : bytes -> bool) (rows_ok : bool) (d : tny_dictionary)
    (raw : bytes) (p : tny_norm_proposal)
    (Hok : tny_norm_verify mem rows_ok d raw p = VERDICT_OK)
    (Hcos : Forall cosmetic (corrections p)) :
  content (text p) = content raw.
Proof.
  apply verify_accepts in Hok as (_ & _ & Hj & Ha & _).
  apply (apply_all_content d raw (corrections p)); [|done].
  rewrite Forall_forall in *. intros c Hc. split; [by apply Hcos|by apply Hj].
Qed.

Example cosmetic_rewrite_keeps_content_witness :
  let p := mk_proposal B"Don't stop, Ann"
    [mk_correction B"dont" B"Don't" PUNCTUATION; mk_correction B"stop" B"stop," PUNCTUATION;
     mk_correction B"ann" B"Ann" CASE] in
  content (text p) = content B"dont stop ann".
Proof.
  intros p. apply (cosmetic_rewrite_keeps_content enough true [] B"dont stop ann" p).
  - vm_compute. reflexivity.
  - repeat constructor; (left; reflexivity) || (right; reflexivity).
Defined.
