(* ===== verification/Endian.v ===== *)
(** Little- and big-endian integers of byte strings
    (src/src/core/image_dimensions.c, src/src/core/dictation.c). *)
From S2P Require Import Prelude Bits.

Open Scope Z_scope.

Definition le16 (p : bytes) : Z := Z.lor (char_at p 0) (Z.shiftl (char_at p 1) 8).
Definition le24 (p : bytes) : Z :=
  Z.lor (Z.lor (char_at p 0) (Z.shiftl (char_at p 1) 8)) (Z.shiftl (char_at p 2) 16).
Definition le32 (p : bytes) : Z := Z.lor (le24 p) (Z.shiftl (char_at p 3) 24).
Definition be16 (p : bytes) : Z := Z.lor (Z.shiftl (char_at p 0) 8) (char_at p 1).
Definition be32 (p : bytes) : Z :=
  Z.lor (Z.lor (Z.lor (Z.shiftl (char_at p 0) 24) (Z.shiftl (char_at p 1) 16)) (Z.shiftl (char_at p 2) 8))
        (char_at p 3).

(** The loop of [put32]: the low byte, then the rest. *)
Fixpoint put_le (n : nat) (x : Z) : bytes :=
  match n with
  | O => []
  | S n => Z.land x 255 :: put_le n (Z.shiftr x 8)
  end.
Definition put32 (x : Z) : bytes := put_le 4 x.

Lemma char_at_byte s i : Forall is_byte s -> 0 <= char_at s i <= 255.
Proof.
  intros H. unfold char_at. destruct (le_lt_dec (length s) i).
  - rewrite nth_overflow by done. lia.
  - rewrite Forall_forall in H. apply H, nth_In. done.
Qed.

Lemma le16_value p : Forall is_byte p -> le16 p = char_at p 0 + char_at p 1 * 256.
Proof.
  intros H. unfold le16. pose proof (char_at_byte p 0 H).
  rewrite lor_shiftl_add' by (change (2 ^ 8) with 256; lia). lia.
Qed.

Lemma le24_value p : Forall is_byte p -> le24 p = char_at p 0 + char_at p 1 * 256 + char_at p 2 * 65536.
Proof.
  intros H. unfold le24. pose proof (char_at_byte p 0 H). pose proof (char_at_byte p 1 H).
  rewrite (lor_shiftl_add' (char_at p 1)) by (change (2 ^ 8) with 256; lia). change (2 ^ 8) with 256.
  rewrite lor_shiftl_add' by (change (2 ^ 16) with 65536; lia). lia.
Qed.

Lemma le32_value p : Forall is_byte p ->
  le32 p = char_at p 0 + char_at p 1 * 256 + char_at p 2 * 65536 + char_at p 3 * 16777216.
Proof.
  intros H. unfold le32. rewrite le24_value by done. pose proof (char_at_byte p 0 H).
  pose proof (char_at_byte p 1 H). pose proof (char_at_byte p 2 H).
  rewrite lor_shiftl_add' by (change (2 ^ 24) with 16777216; lia). lia.
Qed.

Lemma le16_range p : Forall is_byte p -> 0 <= le16 p <= 65535.
Proof.
  intros H. rewrite le16_value by done. pose proof (char_at_byte p 0 H). pose proof (char_at_byte p 1 H). lia.
Qed.

Lemma le32_range p : Forall is_byte p -> 0 <= le32 p <= UINT32_MAX.
Proof.
  intros H. rewrite le32_value by done. pose proof (char_at_byte p 0 H). pose proof (char_at_byte p 1 H).
  pose proof (char_at_byte p 2 H). pose proof (char_at_byte p 3 H). unfold UINT32_MAX. lia.
Qed.

Lemma put_le_byte n x : Forall is_byte (put_le n x).
Proof.
  revert x. induction n as [|n IH]; intros x; cbn [put_le]; [apply Forall_nil|].
  apply Forall_cons; [|apply IH]. unfold is_byte. rewrite land_255. lia.
Qed.

Lemma put_le_length n x : length (put_le n x) = n.
Proof. revert x. induction n as [|n IH]; intros x; cbn; [done|]. by rewrite IH. Qed.

Lemma put32_bytes x :
  put32 x = [x mod 256; x / 256 mod 256; x / 65536 mod 256; x / 16777216 mod 256].
Proof.
  unfold put32. cbn [put_le]. rewrite !land_255, !Z.shiftr_div_pow2 by lia.
  change (2 ^ 8) with 256. rewrite !Z.div_div by lia. done.
Qed.

Lemma le32_put32 x r : 0 <= x <= UINT32_MAX -> le32 (put32 x ++ r) = x.
Proof.
  intros H. unfold UINT32_MAX in H.
  replace (le32 (put32 x ++ r)) with (le32 (put32 x)) by (rewrite put32_bytes; done).
  rewrite le32_value by apply put_le_byte. rewrite put32_bytes. cbn [char_at nth]. lia.
Qed.

(** Two and four bytes are the encoding of their value. *)
Lemma put32_le32 a b c d r :
  Forall is_byte [a; b; c; d] -> put32 (le32 (a :: b :: c :: d :: r)) = [a; b; c; d].
Proof.
  intros H. replace (le32 (a :: b :: c :: d :: r)) with (le32 [a; b; c; d]) by done.
  rewrite le32_value by done. rewrite put32_bytes. cbn [char_at nth].
  rewrite !list.Forall_cons in H. unfold is_byte in H. destruct H as (? & ? & ? & ? & _).
  repeat f_equal; lia.
Qed.

Lemma le16_put16 x r : 0 <= x <= 65535 -> le16 (put_le 2 x ++ r) = x.
Proof.
  intros H. replace (le16 (put_le 2 x ++ r)) with (le16 (put_le 2 x)) by done.
  rewrite le16_value by apply put_le_byte. cbn [put_le char_at nth].
  rewrite !land_255, !Z.shiftr_div_pow2 by lia. change (2 ^ 8) with 256. lia.
Qed.

Lemma put16_le16 a b r : is_byte a -> is_byte b -> put_le 2 (le16 (a :: b :: r)) = [a; b].
Proof.
  unfold is_byte. intros Ha Hb. replace (le16 (a :: b :: r)) with (le16 [a; b]) by done.
  rewrite le16_value by (by repeat (apply list.Forall_cons_2 || apply list.Forall_nil_2)).
  cbn [put_le char_at nth]. rewrite !land_255, !Z.shiftr_div_pow2 by lia. change (2 ^ 8) with 256.
  repeat f_equal; lia.
Qed.

(** Three little-endian bytes, and big-endian integers as reversed encodings. *)
Definition put_be (n : nat) (x : Z) : bytes := rev (put_le n x).

Lemma put_le_value n x : 0 <= x < 256 ^ Z.of_nat n ->
  fold_right (fun c v => c + 256 * v) 0 (put_le n x) = x.
Proof.
  revert x. induction n as [|n IH]; intros x H; cbn [put_le fold_right]; [cbn in H; lia|].
  rewrite Nat2Z.inj_succ, Z.pow_succ_r in H by lia. rewrite land_255, Z.shiftr_div_pow2 by lia.
  change (2 ^ 8) with 256. rewrite IH; [lia|].
  split; [lia|]. apply Z.div_lt_upper_bound; lia.
Qed.

Lemma put_le_of_value s : Forall is_byte s -> put_le (length s) (fold_right (fun c v => c + 256 * v) 0 s) = s.
Proof.
  induction 1 as [|c s Hc Hs IH]; [done|]. cbn [length put_le fold_right]. unfold is_byte in Hc.
  rewrite land_255, Z.shiftr_div_pow2 by lia. change (2 ^ 8) with 256.
  set (v := fold_right _ 0 s) in *. replace ((c + 256 * v) mod 256) with c by lia.
  replace ((c + 256 * v) / 256) with v by lia. by rewrite IH.
Qed.

Lemma le_value s : Forall is_byte s -> 0 <= fold_right (fun c v => c + 256 * v) 0 s < 256 ^ Z.of_nat (length s).
Proof.
  induction 1 as [|c s Hc Hs IH]; [cbn; lia|]. cbn [length fold_right]. unfold is_byte in Hc.
  rewrite Nat2Z.inj_succ, Z.pow_succ_r by lia. lia.
Qed.

Lemma le24_fold a b c : Forall is_byte [a; b; c] -> le24 [a; b; c] = fold_right (fun c v => c + 256 * v) 0 [a; b; c].
Proof. intros H. rewrite le24_value by done. cbn [char_at nth fold_right]. lia. Qed.

Lemma be16_fold a b : Forall is_byte [a; b] -> be16 [a; b] = fold_right (fun c v => c + 256 * v) 0 [b; a].
Proof.
  intros H. unfold be16. pose proof (char_at_byte _ 1 H). rewrite lor_shiftl_add by (change (2 ^ 8) with 256; lia).
  cbn [char_at nth fold_right]. lia.
Qed.

Lemma be32_fold a b c d :
  Forall is_byte [a; b; c; d] -> be32 [a; b; c; d] = fold_right (fun c v => c + 256 * v) 0 [d; c; b; a].
Proof.
  intros H. unfold be32. pose proof (char_at_byte _ 1 H). pose proof (char_at_byte _ 2 H).
  pose proof (char_at_byte _ 3 H). cbn [char_at nth fold_right] in *.
  rewrite <- Z.lor_assoc, <- Z.lor_assoc. rewrite (lor_shiftl_add c d) by (change (2 ^ 8) with 256; lia).
  change (2 ^ 8) with 256. rewrite (lor_shiftl_add b) by (change (2 ^ 16) with 65536; lia).
  change (2 ^ 16) with 65536. rewrite lor_shiftl_add by (change (2 ^ 24) with 16777216; lia). lia.
Qed.

Lemma put_le_iff n s x : Forall is_byte s -> length s = n ->
  fold_right (fun c v => c + 256 * v) 0 s = x <-> s = put_le n x /\ 0 <= x < 256 ^ Z.of_nat n.
Proof.
  intros Hs <-. split.
  - intros <-. split; [by rewrite put_le_of_value|by apply le_value].
  - intros [E H]. rewrite E. by apply put_le_value.
Qed.

(** Reading gives [x] exactly on the encoding of [x]. *)
Lemma be16_iff a b x : Forall is_byte [a; b] -> be16 [a; b] = x <-> [a; b] = put_be 2 x /\ 0 <= x <= 65535.
Proof.
  intros H. rewrite be16_fold by done. apply Forall_rev in H. rewrite (put_le_iff 2) by done. unfold put_be.
  change (256 ^ Z.of_nat 2) with 65536. split; intros [E ?]; (split; [|lia]).
  - by rewrite <- E.
  - by apply (f_equal (@rev Z)) in E; rewrite rev_involutive in E.
Qed.

Lemma be32_iff a b c d x :
  Forall is_byte [a; b; c; d] -> be32 [a; b; c; d] = x <-> [a; b; c; d] = put_be 4 x /\ 0 <= x <= UINT32_MAX.
Proof.
  intros H. rewrite be32_fold by done. apply Forall_rev in H. rewrite (put_le_iff 4) by done. unfold put_be, UINT32_MAX.
  change (256 ^ Z.of_nat 4) with 4294967296. split; intros [E ?]; (split; [|lia]).
  - by rewrite <- E.
  - by apply (f_equal (@rev Z)) in E; rewrite rev_involutive in E.
Qed.

Lemma le24_iff a b c x :
  Forall is_byte [a; b; c] -> le24 [a; b; c] = x <-> [a; b; c] = put_le 3 x /\ 0 <= x <= 16777215.
Proof.
  intros H. rewrite le24_fold by done. rewrite (put_le_iff 3) by done.
  change (256 ^ Z.of_nat 3) with 16777216. split; intros [E ?]; (split; [done|lia]).
Qed.

Lemma le16_iff a b x :
  Forall is_byte [a; b] -> le16 [a; b] = x <-> [a; b] = put_le 2 x /\ 0 <= x <= 65535.
Proof.
  intros H. rewrite le16_value by done.
  replace (char_at [a; b] 0 + char_at [a; b] 1 * 256) with (fold_right (fun c v => c + 256 * v) 0 [a; b])
    by (cbn [char_at nth fold_right]; lia).
  rewrite (put_le_iff 2) by done.
  change (256 ^ Z.of_nat 2) with 65536. split; intros [E ?]; (split; [done|lia]).
Qed.

Lemma le32_iff a b c d x :
  Forall is_byte [a; b; c; d] -> le32 [a; b; c; d] = x <-> [a; b; c; d] = put32 x /\ 0 <= x <= UINT32_MAX.
Proof.
  intros H. rewrite le32_value by done.
  replace (char_at [a; b; c; d] 0 + _ + _ + _) with (fold_right (fun c v => c + 256 * v) 0 [a; b; c; d])
    by (cbn [char_at nth fold_right]; lia).
  rewrite (put_le_iff 4) by done. unfold UINT32_MAX.
  change (256 ^ Z.of_nat 4) with 4294967296. split; intros [E ?]; (split; [done|lia]).
Qed.
