(* ===== verification/Wav.v ===== *)
(** The WAV files dictation accepts and writes
    (src/src/core/dictation.c): the validator and the header of a recording. *)
From S2P Require Import Prelude Bits Endian.

Open Scope Z_scope.

Definition TNY_DICTATION_AUDIO_MAX : Z := 26214400.
Definition TNY_DICTATION_SECONDS_MAX : Z := 300.
Definition AUDIO_CAPTURE_RATE : Z := 24000.

Definition len (s : bytes) : Z := Z.of_nat (length s).
Definition from (s : bytes) (i : Z) : bytes := drop (Z.to_nat i) s.
(** [!memcmp(p, tag, strlen(tag))]. *)
Definition tagged (p tag : bytes) : bool := has_prefix tag p.

(** The locals of the chunk loop. *)
Record wav_locals := mk_wav { fmt : bool; samples : bool; rate : Z; stride : Z }.

(** The "fmt " chunk at [chunk] with [size] bytes. *)
Definition fmt_chunk (st : wav_locals) (chunk : bytes) (size : Z) : option wav_locals :=
  if fmt st || (size <? 16) || negb (le16 chunk =? 1) || negb (le16 (from chunk 14) =? 16) then None
  else
    let channels := le16 (from chunk 2) in
    let rate := le32 (from chunk 4) in
    let stride := u32 (channels * 2) in
    if (channels <? 1) || (2 <? channels) || (rate <? 8000) || (96000 <? rate) ||
       negb (le16 (from chunk 12) =? stride) || negb (le32 (from chunk 8) =? u32 (rate * stride))
    then None
    else Some (mk_wav true (samples st) rate stride).

Definition data_chunk (st : wav_locals) (size : Z) : option wav_locals :=
  if negb (fmt st) || samples st || negb (size mod stride st =? 0) || (size <? u32 (rate st * stride st)) ||
     (rate st * stride st * TNY_DICTATION_SECONDS_MAX <? size)
  then None
  else Some (mk_wav (fmt st) true (rate st) (stride st)).

(** The chunk loop over the rest of the file; a missing padding byte puts [at]
    one past the end. *)
Fixpoint wav_loop (fuel : nat) (p : bytes) (st : wav_locals) : bool :=
  match fuel with
  | O => false
  | S fuel =>
    if len p =? 0 then fmt st && samples st
    else if len p <? 8 then false
    else
      let size := le32 (from p 4) in
      if len p - 8 <? size then false
      else
        let next :=
          if tagged p B"fmt " then fmt_chunk st (from p 8) size
          else if tagged p B"data" then data_chunk st size
          else Some st in
        match next with
        | None => false
        | Some st =>
          let step := 8 + size + Z.land size 1 in
          if len p <? step then false else wav_loop fuel (from p step) st
        end
  end.

Definition tny_dictation_wav_valid (data : option bytes) : bool :=
  match data with
  | None => false
  | Some p =>
    let n := len p in
    if (n <? 44) || (TNY_DICTATION_AUDIO_MAX <? n) then false
    else if negb (tagged p B"RIFF") || negb (tagged (from p 8) B"WAVE") || negb (le32 (from p 4) =? n - 8)
    then false
    else wav_loop (length p) (from p 12) (mk_wav false false 0 0)
  end.

(** ** The header [tny_dictation_step] stores over the 44 zero bytes that
    precede the samples *)

Definition store (b : bytes) (at_ : nat) (s : bytes) : bytes := take at_ b ++ s ++ drop (at_ + length s) b.

Definition finish_wav (audio : bytes) : bytes :=
  let a := store audio 0 B"RIFF" in
  let a := store a 4 (put32 (u32 (len audio - 8))) in
  let a := store a 8 B"WAVEfmt " in
  let a := store a 16 (put32 16) in
  let a := store a 20 [1] in
  let a := store a 22 [1] in
  let a := store a 24 (put32 AUDIO_CAPTURE_RATE) in
  let a := store a 28 (put32 (AUDIO_CAPTURE_RATE * 2)) in
  let a := store a 32 [2] in
  let a := store a 34 [16] in
  let a := store a 36 B"data" in
  store a 40 (put32 (u32 (len audio - 44))).

(** ** Specification: RIFF chunks *)

Record chunk := mk_chunk { tag : bytes; body : bytes; pad : bytes }.

Definition chunk_ok (c : chunk) : Prop :=
  length (tag c) = 4%nat /\ len (body c) <= UINT32_MAX /\ len (pad c) = len (body c) mod 2.

Definition encode (c : chunk) : bytes := tag c ++ put32 (len (body c)) ++ body c ++ pad c.

Definition wav_file (cs : list chunk) : bytes :=
  let payload := B"WAVE" ++ concat (map encode cs) in B"RIFF" ++ put32 (len payload) ++ payload.

(** PCM, 16 bits, [ch] channels at [rate] samples a second. *)
Definition put16 (x : Z) : bytes := put_le 2 x.
Definition fmt_body (ch rate : Z) (extra : bytes) : bytes :=
  put16 1 ++ put16 ch ++ put32 rate ++ put32 (rate * (ch * 2)) ++ put16 (ch * 2) ++ put16 16 ++ extra.

Definition other (c : chunk) : Prop := tag c <> B"fmt " /\ tag c <> B"data".

(** One format chunk, then one chunk of 1 to 300 seconds of whole frames,
    anything else around them. *)
Definition playable (cs : list chunk) : Prop :=
  exists a f b d c ch rate extra,
    cs = a ++ f :: b ++ d :: c /\ Forall other a /\ Forall other b /\ Forall other c /\
    tag f = B"fmt " /\ tag d = B"data" /\ 1 <= ch <= 2 /\ 8000 <= rate <= 96000 /\
    body f = fmt_body ch rate extra /\
    len (body d) mod (ch * 2) = 0 /\ rate * (ch * 2) <= len (body d) <= rate * (ch * 2) * 300.

(** ** Lemmas *)

Lemma from_app s r i : i <= len s -> from (s ++ r) i = from s i ++ r.
Proof. intros H. unfold from. rewrite drop_app_le; [done|unfold len in H; lia]. Qed.

Lemma from_all s r : from (s ++ r) (len s) = r.
Proof. unfold from, len. by rewrite Nat2Z.id, drop_app_exact. Qed.

Lemma len_app s r : len (s ++ r) = len s + len r.
Proof. unfold len. rewrite length_app. lia. Qed.

Lemma char_at_app s r i : (i < length s)%nat -> char_at (s ++ r) i = char_at s i.
Proof. intros H. unfold char_at. by rewrite app_nth1. Qed.

Lemma le16_app s r : (2 <= length s)%nat -> le16 (s ++ r) = le16 s.
Proof. intros. unfold le16. by rewrite !char_at_app by lia. Qed.

Lemma le32_app s r : (4 <= length s)%nat -> le32 (s ++ r) = le32 s.
Proof. intros. unfold le32, le24. by rewrite !char_at_app by lia. Qed.

Lemma length_from s i : length (from s i) = (length s - Z.to_nat i)%nat.
Proof. unfold from. by rewrite length_drop. Qed.

Lemma fmt_chunk_app st b r : fmt_chunk st (b ++ r) (len b) = fmt_chunk st b (len b).
Proof.
  unfold fmt_chunk. destruct (Z.ltb_spec (len b) 16); [by rewrite !orb_true_r|].
  rewrite !from_app by lia. unfold len in *.
  rewrite !le16_app, !le32_app by (rewrite ?length_from; lia). done.
Qed.

(** The effect of one chunk, and of all of them. *)
Definition chunk_step (st : wav_locals) (c : chunk) : option wav_locals :=
  if bool_decide (tag c = B"fmt ") then fmt_chunk st (body c) (len (body c))
  else if bool_decide (tag c = B"data") then data_chunk st (len (body c))
  else Some st.

Fixpoint judge (cs : list chunk) (st : wav_locals) : bool :=
  match cs with
  | [] => fmt st && samples st
  | c :: cs => match chunk_step st c with None => false | Some st => judge cs st end
  end.

Lemma tagged_app t r name : length t = length name -> tagged (t ++ r) name = bool_decide (t = name).
Proof.
  intros H. unfold tagged. case_bool_decide as E; [by subst; apply has_prefix_app|].
  apply not_true_iff_false. intros (x & Hx)%has_prefix_true. apply E.
  by apply (f_equal (take (length name))) in Hx; rewrite take_app_exact, <- H, take_app_exact in Hx.
Qed.

Lemma parity x : Z.land x 1 = x mod 2.
Proof. apply land_1. Qed.

Lemma encode_length c : chunk_ok c -> len (encode c) = 8 + len (body c) + Z.land (len (body c)) 1.
Proof.
  intros (Ht & _ & Hp). unfold encode. rewrite !len_app, parity, <- Hp. unfold len, put32.
  rewrite put_le_length, Ht. lia.
Qed.

(** One round of the loop on an encoded chunk. *)
Lemma wav_loop_chunk fuel c r st :
  chunk_ok c ->
  wav_loop (S fuel) (encode c ++ r) st =
  match chunk_step st c with None => false | Some st => wav_loop fuel r st end.
Proof.
  intros Hc. pose proof (encode_length c Hc) as Hl. destruct Hc as (Ht & Hb & Hp).
  assert (0 <= Z.land (len (body c)) 1) by (rewrite parity; lia). assert (0 <= len (body c)) by (unfold len; lia).
  assert (0 <= len r) by (unfold len; lia).
  cbn [wav_loop]. rewrite len_app, Hl.
  rewrite (proj2 (Z.eqb_neq _ 0)), (proj2 (Z.ltb_ge _ 8)) by lia.
  assert (E4 : from (encode c ++ r) 4 = put32 (len (body c)) ++ body c ++ pad c ++ r).
  { unfold encode. rewrite <- !app_assoc. change 4 with (Z.of_nat 4). rewrite <- Ht. apply from_all. }
  assert (E8 : from (encode c ++ r) 8 = body c ++ pad c ++ r).
  { unfold encode. replace ((tag c ++ put32 (len (body c)) ++ body c ++ pad c) ++ r)
      with ((tag c ++ put32 (len (body c))) ++ body c ++ pad c ++ r) by by rewrite <- !app_assoc.
    replace 8 with (len (tag c ++ put32 (len (body c)))); [apply from_all|].
    rewrite len_app. unfold len, put32. rewrite put_le_length, Ht. done. }
  rewrite E4, E8, le32_put32 by lia.
  rewrite (proj2 (Z.ltb_ge (8 + len (body c) + Z.land (len (body c)) 1 + len r - 8) _)) by lia.
  replace (encode c ++ r) with (tag c ++ put32 (len (body c)) ++ body c ++ pad c ++ r)
    by (unfold encode; by rewrite <- !app_assoc).
  rewrite !tagged_app by done. rewrite fmt_chunk_app. fold (chunk_step st c).
  destruct (chunk_step st c) as [st'|]; [|done].
  rewrite (proj2 (Z.ltb_ge (8 + _ + _ + len r) _)) by lia.
  replace (tag c ++ put32 (len (body c)) ++ body c ++ pad c ++ r) with (encode c ++ r)
    by (unfold encode; by rewrite <- !app_assoc).
  by rewrite <- Hl, from_all.
Qed.

Lemma wav_loop_judge cs fuel st :
  Forall chunk_ok cs -> (length (concat (map encode cs)) < fuel)%nat ->
  wav_loop fuel (concat (map encode cs)) st = judge cs st.
Proof.
  intros H. revert fuel st. induction H as [|c cs Hc Hcs IH]; intros fuel st Hf.
  - destruct fuel; [simpl in Hf; lia|]. done.
  - destruct fuel as [|fuel]; [lia|]. cbn [map concat judge] in *. rewrite length_app in Hf.
    pose proof (encode_length c Hc). unfold len in *. rewrite parity in *.
    rewrite wav_loop_chunk by done. destruct (chunk_step st c); [apply IH; lia|done].
Qed.

(** Any bytes long enough for the size they declare start with a chunk. *)
Lemma chunk_split p :
  Forall is_byte p -> 8 <= len p -> 8 + le32 (from p 4) + le32 (from p 4) mod 2 <= len p ->
  exists c, chunk_ok c /\ p = encode c ++ from p (8 + le32 (from p 4) + le32 (from p 4) mod 2) /\
    len (body c) = le32 (from p 4) /\ tag c = take 4 p.
Proof.
  intros Hp H8. set (size := le32 (from p 4)). intros Hstep. unfold len in H8, Hstep.
  assert (0 <= size <= UINT32_MAX) as Hr by (apply le32_range, Forall_drop, Hp).
  set (b := take (Z.to_nat size) (from p 8)). set (q := take (Z.to_nat (size mod 2)) (from p (8 + size))).
  exists (mk_chunk (take 4 p) b q).
  assert (Hb : len b = size) by (unfold b, len, from; rewrite length_take, length_drop; lia).
  split_and!; cbn [tag body pad]; try done.
  - split_and!; cbn [tag body pad].
    + rewrite length_take. lia.
    + rewrite Hb. lia.
    + rewrite Hb. unfold q, len, from. rewrite length_take, length_drop. lia.
  - unfold encode. cbn [tag body pad]. rewrite Hb.
    replace (put32 size) with (take 4 (from p 4)).
    2: { unfold size, from. change (Z.to_nat 4) with 4%nat.
         assert (Hd : (4 <= length (drop 4 p))%nat) by (rewrite length_drop; lia).
         pose proof (Forall_drop is_byte 4 p Hp) as Hbytes.
         destruct (drop 4 p) as [|x1 [|x2 [|x3 [|x4 t]]]]; cbn [length] in Hd; try lia.
         symmetry. apply put32_le32. apply (Forall_take _ 4) in Hbytes. exact Hbytes. }
    unfold b, q, from. rewrite <- !app_assoc.
    rewrite <- (take_drop 4 p) at 1. f_equal. rewrite <- (take_drop 4 (drop 4 p)) at 1.
    change (Z.to_nat 4) with 4%nat. f_equal. rewrite drop_drop. change (4 + 4)%nat with (Z.to_nat 8).
    rewrite <- (take_drop (Z.to_nat size) (drop (Z.to_nat 8) p)) at 1. f_equal.
    rewrite drop_drop. replace (Z.to_nat 8 + Z.to_nat size)%nat with (Z.to_nat (8 + size)) by lia.
    rewrite <- (take_drop (Z.to_nat (size mod 2)) (drop (Z.to_nat (8 + size)) p)) at 1. f_equal.
    rewrite drop_drop. f_equal. lia.
Qed.

(** An accepted file is a sequence of chunks. *)
Lemma wav_loop_chunks fuel p st :
  Forall is_byte p -> wav_loop fuel p st = true ->
  exists cs, p = concat (map encode cs) /\ Forall chunk_ok cs.
Proof.
  revert p st. induction fuel as [|fuel IH]; intros p st Hp; [done|]. cbn [wav_loop].
  destruct (Z.eqb_spec (len p) 0) as [E|E].
  { intros _. exists []. destruct p; [by split|done]. }
  destruct (Z.ltb_spec (len p) 8) as [|H8]; [done|].
  destruct (Z.ltb_spec (len p - 8) (le32 (from p 4))) as [|Hs]; [done|].
  destruct (if tagged p _ then _ else _) as [st'|]; [|done].
  destruct (Z.ltb_spec (len p) (8 + le32 (from p 4) + Z.land (le32 (from p 4)) 1)) as [|Hstep]; [done|].
  rewrite parity in *. intros H. apply IH in H as (cs & Ecs & Hcs); [|by apply Forall_drop].
  destruct (chunk_split p Hp H8 Hstep) as (c & Hc & Ep & _ & _). exists (c :: cs).
  cbn [map concat]. rewrite <- Ecs. split; [done|by apply Forall_cons].
Qed.

(** The format check accepts exactly the PCM descriptions. *)
Lemma fmt_chunk_iff st b st' :
  Forall is_byte b ->
  fmt_chunk st b (len b) = Some st' <->
  fmt st = false /\ exists ch rate extra, 1 <= ch <= 2 /\ 8000 <= rate <= 96000 /\
    b = fmt_body ch rate extra /\ st' = mk_wav true (samples st) rate (ch * 2).
Proof.
  intros Hb. unfold fmt_chunk. split.
  - destruct (fmt st); [done|]. cbn [orb]. destruct (Z.ltb_spec (len b) 16) as [|Hl]; [done|].
    unfold len in Hl.
    do 16 (destruct b as [|? b]; [cbn [length] in Hl; lia|]).
    rewrite !list.Forall_cons in Hb.
    unfold from. change (Z.to_nat 14) with 14%nat. change (Z.to_nat 2) with 2%nat.
    change (Z.to_nat 4) with 4%nat. change (Z.to_nat 12) with 12%nat. change (Z.to_nat 8) with 8%nat.
    cbn [drop]. cbn [orb]. intros H. split; [done|]. revert H.
    repeat match goal with H : _ /\ _ |- _ => destruct H end.
    destruct (_ || _) eqn:E1; [done|]. apply orb_false_iff in E1 as [E1 E2].
    apply negb_false_iff, Z.eqb_eq in E1, E2.
    set (ch := le16 (z1 :: _)). set (rt := le32 (z3 :: _)).
    destruct (_ || _) eqn:E3; [done|]. intros [= <-]. boolify.
    assert (0 <= ch <= 65535) as Hch by (apply le16_range; by repeat apply list.Forall_cons_2).
    rewrite (u32_small (ch * 2)) in * by (unfold UINT32_MAX; lia).
    rewrite (u32_small (rt * (ch * 2))) in * by (unfold UINT32_MAX; nia).
    exists ch, rt, b. split_and!; try lia; [|done]. unfold fmt_body, put16.
    replace (put_le 2 1) with [z; z0] by (rewrite <- E1; symmetry; by apply put16_le16).
    replace (put_le 2 ch) with [z1; z2] by (symmetry; by apply put16_le16).
    replace (put32 rt) with [z3; z4; z5; z6] by (symmetry; apply put32_le32; by repeat apply list.Forall_cons_2).
    replace (put32 (rt * (ch * 2))) with [z7; z8; z9; z10]
      by (replace (rt * (ch * 2)) with (le32 (z7 :: z8 :: z9 :: z10 :: z11 :: z12 :: z13 :: z14 :: b)) by lia;
          symmetry; apply put32_le32; by repeat apply list.Forall_cons_2).
    replace (put_le 2 (ch * 2)) with [z11; z12]
      by (replace (ch * 2) with (le16 (z11 :: z12 :: z13 :: z14 :: b)) by lia; symmetry; by apply put16_le16).
    replace (put_le 2 16) with [z13; z14] by (rewrite <- E2; symmetry; by apply put16_le16). done.
  - intros (Hf & ch & rt & extra & Hc & Hr & -> & ->). rewrite Hf.
    assert (16 <= len (fmt_body ch rt extra)) as Hl by (unfold len, fmt_body; cbn [length app put16 put_le put32]; lia).
    rewrite (proj2 (Z.ltb_ge _ 16)) by lia.
    change (from (fmt_body ch rt extra) 14) with (put_le 2 16 ++ extra).
    change (from (fmt_body ch rt extra) 12) with (put_le 2 (ch * 2) ++ put_le 2 16 ++ extra).
    change (from (fmt_body ch rt extra) 8) with (put32 (rt * (ch * 2)) ++ put_le 2 (ch * 2) ++ put_le 2 16 ++ extra).
    change (from (fmt_body ch rt extra) 4)
      with (put32 rt ++ put32 (rt * (ch * 2)) ++ put_le 2 (ch * 2) ++ put_le 2 16 ++ extra).
    change (from (fmt_body ch rt extra) 2)
      with (put_le 2 ch ++ put32 rt ++ put32 (rt * (ch * 2)) ++ put_le 2 (ch * 2) ++ put_le 2 16 ++ extra).
    unfold fmt_body, put16. rewrite !le16_put16, !le32_put32 by (unfold UINT32_MAX; nia).
    rewrite (u32_small (ch * 2)) by (unfold UINT32_MAX; lia).
    rewrite (u32_small (rt * (ch * 2))) by (unfold UINT32_MAX; nia).
    rewrite !Z.eqb_refl, !(proj2 (Z.ltb_ge _ _)) by lia. done.
Qed.

Lemma data_chunk_iff samples_ ch rt size st' :
  1 <= ch <= 2 -> 8000 <= rt <= 96000 ->
  data_chunk (mk_wav true samples_ rt (ch * 2)) size = Some st' <->
  samples_ = false /\ size mod (ch * 2) = 0 /\ rt * (ch * 2) <= size <= rt * (ch * 2) * 300 /\
  st' = mk_wav true true rt (ch * 2).
Proof.
  intros Hc Hr. unfold data_chunk, TNY_DICTATION_SECONDS_MAX. cbn [fmt samples rate stride].
  rewrite u32_small by (unfold UINT32_MAX; nia). destruct samples_; cbn [negb orb].
  { split; [done|]. by intros [? _]. }
  destruct (Z.eqb_spec (size mod (ch * 2)) 0); cbn [negb orb]; [|split; [done|tauto]].
  destruct (Z.ltb_spec size (rt * (ch * 2))); [split; [done|lia]|].
  destruct (Z.ltb_spec (rt * (ch * 2) * 300) size); [split; [done|lia]|]. cbn [orb].
  split; [intros [= <-]; by split_and!|by intros (_ & _ & _ & ->)].
Qed.

Lemma other_step st c : other c -> chunk_step st c = Some st.
Proof. intros [H1 H2]. unfold chunk_step. by rewrite !bool_decide_eq_false_2. Qed.

Lemma fmt_step st c : tag c = B"fmt " -> chunk_step st c = fmt_chunk st (body c) (len (body c)).
Proof. intros H. unfold chunk_step. by rewrite bool_decide_eq_true_2. Qed.

Lemma data_step st c : tag c = B"data" -> chunk_step st c = data_chunk st (len (body c)).
Proof. intros H. unfold chunk_step. rewrite H. done. Qed.

Lemma tag_cases c : tag c = B"fmt " \/ tag c = B"data" \/ other c.
Proof.
  unfold other. destruct (decide (tag c = B"fmt ")); [by left|].
  destruct (decide (tag c = B"data")); [by right; left|by right; right].
Qed.

(** Skipping chunks of other kinds, to the first that matters. *)
Lemma first_known cs :
  Forall other cs \/ exists a c r, cs = a ++ c :: r /\ Forall other a /\ (tag c = B"fmt " \/ tag c = B"data").
Proof.
  induction cs as [|c cs IH]; [by left|]. destruct (tag_cases c) as [H|[H|H]].
  - right. exists [], c, cs. by auto.
  - right. exists [], c, cs. by auto.
  - destruct IH as [IH|(a & d & r & -> & Ha & Hd)]; [left; by constructor|].
    right. exists (c :: a), d, r. split_and!; [done|by constructor|done].
Qed.

Lemma judge_others a r st : Forall other a -> judge (a ++ r) st = judge r st.
Proof. induction 1 as [|c a Hc _ IH]; [done|]. cbn [app judge]. by rewrite other_step. Qed.

Lemma judge_end c st : samples st = true -> fmt st = true ->
  Forall (fun c => Forall is_byte (body c)) c -> judge c st = true <-> Forall other c.
Proof.
  intros Hs Hf Hb. destruct (first_known c) as [H|(a & d & r & -> & Ha & Hd)].
  - split; [done|]. intros _. rewrite <- (app_nil_r c), judge_others by done. cbn. by rewrite Hf, Hs.
  - apply Forall_app in Hb as [_ Hb]. apply Forall_inv in Hb.
    rewrite judge_others by done. cbn [judge]. split.
    + destruct Hd as [Hd|Hd].
      * rewrite fmt_step by done. destruct (fmt_chunk _ _ _) eqn:E; [|done].
        apply fmt_chunk_iff in E as (E & _); [congruence|done].
      * rewrite data_step by done. unfold data_chunk. by rewrite Hf, Hs.
    + intros H. apply Forall_app in H as [_ H]. apply Forall_inv in H as [H1 H2]. destruct Hd; done.
Qed.

(** The chunk loop accepts exactly the playable sequences. *)
Lemma judge_playable cs :
  Forall (fun c => Forall is_byte (body c)) cs ->
  judge cs (mk_wav false false 0 0) = true <-> playable cs.
Proof.
  intros Hb. split.
  - destruct (first_known cs) as [H|(a & f & r & -> & Ha & Hf)].
    { intros E. rewrite <- (app_nil_r cs), judge_others in E by done. done. }
    rewrite judge_others by done. cbn [judge]. apply Forall_app in Hb as [_ Hb].
    pose proof (Forall_inv Hb) as Hbf. apply Forall_inv_tail in Hb. destruct Hf as [Hf|Hf]; [|by rewrite data_step].
    rewrite fmt_step by done. destruct (fmt_chunk _ _ _) as [st1|] eqn:E1; [|done].
    apply fmt_chunk_iff in E1 as (_ & ch & rt & extra & Hc & Hr & Eb & ->); [|done]. cbn [samples].
    destruct (first_known r) as [H|(b & d & c & -> & Hbo & Hd)].
    { intros E. rewrite <- (app_nil_r r), judge_others in E by done. done. }
    rewrite judge_others by done. cbn [judge]. apply Forall_app in Hb as [_ Hb].
    pose proof (Forall_inv Hb) as Hbd. apply Forall_inv_tail in Hb. destruct Hd as [Hd|Hd].
    { rewrite fmt_step by done. destruct (fmt_chunk _ _ _) as [st2|] eqn:E2; [|done].
      by apply fmt_chunk_iff in E2 as (E2 & _). }
    rewrite data_step by done. destruct (data_chunk _ _) as [st2|] eqn:E2; [|done].
    apply data_chunk_iff in E2 as (_ & Hm & Hl & ->); [|done..]. rewrite judge_end by done. intros Hco.
    exists a, f, b, d, c, ch, rt, extra. by split_and!; try lia.
  - intros (a & f & b & d & c & ch & rt & extra & -> & Ha & Hbo & Hco & Hf & Hd & Hc & Hr & Eb & Hm & Hl).
    apply Forall_app in Hb as [_ Hb]. pose proof (Forall_inv Hb) as Hbf. apply Forall_inv_tail in Hb.
    apply Forall_app in Hb as [_ Hb]. apply Forall_inv_tail in Hb.
    rewrite judge_others by done. cbn [judge]. rewrite fmt_step by done.
    rewrite (proj2 (fmt_chunk_iff (mk_wav false false 0 0) (body f) (mk_wav true false rt (ch * 2)) Hbf))
      by (split; [done|]; by exists ch, rt, extra).
    rewrite judge_others by done. cbn [judge]. rewrite data_step by done.
    rewrite (proj2 (data_chunk_iff false ch rt _ (mk_wav true true rt (ch * 2)) Hc Hr)) by done.
    by apply judge_end.
Qed.

Lemma wav_file_bytes cs :
  Forall chunk_ok cs -> Forall is_byte (wav_file cs) -> Forall (fun c => Forall is_byte (body c)) cs.
Proof.
  intros Hok Hb. unfold wav_file in Hb. rewrite !Forall_app in Hb. destruct Hb as (_ & _ & _ & Hb).
  clear Hok. induction cs as [|c cs IH]; [done|]. cbn [map concat] in Hb. unfold encode in Hb at 1.
  rewrite !Forall_app in Hb. apply Forall_cons; [|apply IH]; tauto.
Qed.

Lemma wav_file_valid cs :
  Forall chunk_ok cs -> Forall is_byte (wav_file cs) -> 44 <= len (wav_file cs) <= TNY_DICTATION_AUDIO_MAX ->
  playable cs -> tny_dictation_wav_valid (Some (wav_file cs)) = true.
Proof.
  intros Hok Hb Hl Hp. unfold tny_dictation_wav_valid. rewrite !(proj2 (Z.ltb_ge _ _)) by lia. cbn [orb].
  pose proof (wav_file_bytes cs Hok Hb) as Hbodies. unfold wav_file in *.
  set (payload := B"WAVE" ++ concat (map encode cs)) in *.
  assert (E4 : from (B"RIFF" ++ put32 (len payload) ++ payload) 4 = put32 (len payload) ++ payload) by done.
  assert (E8 : from (B"RIFF" ++ put32 (len payload) ++ payload) 8 = payload) by done.
  assert (E12 : from (B"RIFF" ++ put32 (len payload) ++ payload) 12 = concat (map encode cs)) by done.
  rewrite E4, E8, E12. rewrite !len_app in *. change (len B"RIFF") with 4 in *.
  change (len (put32 (len payload))) with 4 in *. unfold TNY_DICTATION_AUDIO_MAX in Hl.
  rewrite le32_put32 by (unfold len, UINT32_MAX in *; lia).
  replace (len payload =? 4 + (4 + len payload) - 8) with true by lia.
  change (tagged (B"RIFF" ++ put32 (len payload) ++ payload) B"RIFF") with true.
  change (tagged payload B"WAVE") with true. cbn [negb orb].
  rewrite wav_loop_judge; [by apply judge_playable|done|]. rewrite !length_app. subst payload.
  rewrite length_app. cbn [length]. lia.
Qed.

Lemma wav_valid_file p :
  Forall is_byte p -> tny_dictation_wav_valid (Some p) = true ->
  44 <= len p <= TNY_DICTATION_AUDIO_MAX /\
  exists cs, Forall chunk_ok cs /\ p = wav_file cs /\ playable cs.
Proof.
  intros Hb. unfold tny_dictation_wav_valid.
  destruct (Z.ltb_spec (len p) 44) as [|Hl]; [done|]. destruct (Z.ltb_spec TNY_DICTATION_AUDIO_MAX (len p)) as [|Hm]; [done|].
  cbn [orb]. destruct (tagged p B"RIFF") eqn:T1; [|done]. destruct (tagged (from p 8) B"WAVE") eqn:T2; [|done].
  cbn [negb orb]. destruct (Z.eqb_spec (le32 (from p 4)) (len p - 8)) as [T3|]; [|done]. cbn [negb]. intros H.
  destruct (wav_loop_chunks _ (from p 12) _ ltac:(by apply Forall_drop) H) as (cs & Ecs & Hcs).
  assert (Ep : p = wav_file cs).
  { unfold tagged in T1, T2. apply has_prefix_true in T1 as (r & ->).
    change (from (B"RIFF" ++ r) 4) with r in T3. change (from (B"RIFF" ++ r) 8) with (drop 4 r) in T2.
    change (from (B"RIFF" ++ r) 12) with (drop 8 r) in Ecs. apply Forall_app in Hb as [_ Hb].
    rewrite len_app in *. change (len B"RIFF") with 4 in *.
    destruct r as [|b1 [|b2 [|b3 [|b4 r]]]]; unfold len in Hl; cbn [length] in Hl; try lia.
    cbn [drop] in T2. rewrite drop_0 in T2. apply has_prefix_true in T2 as (q & ->). change (drop 8 (b1 :: b2 :: b3 :: b4 :: B"WAVE" ++ q)) with q in Ecs.
    unfold wav_file. rewrite <- Ecs. f_equal.
    replace (len (B"WAVE" ++ q)) with (le32 (b1 :: b2 :: b3 :: b4 :: B"WAVE" ++ q))
      by (rewrite T3; unfold len; cbn [length app]; lia).
    rewrite put32_le32; [done|]. apply (Forall_take _ 4) in Hb. exact Hb. }
  split; [done|]. exists cs. split_and!; [done|done|]. rewrite Ep in Hb.
  apply (judge_playable cs (wav_file_bytes cs Hcs Hb)).
  erewrite <- wav_loop_judge; [rewrite <- Ecs; exact H|done|].
  rewrite <- Ecs, length_from. unfold len in Hl. lia.
Qed.

Definition pcm_chunks (pcm : bytes) : list chunk :=
  [mk_chunk B"fmt " (fmt_body 1 24000 []) []; mk_chunk B"data" pcm []].

(** The finished recording of whole 16-bit samples. *)
Lemma finish_wav_file pcm :
  len pcm <= 14400000 -> finish_wav (replicate 44 0 ++ pcm) = wav_file (pcm_chunks pcm).
Proof.
  intros H. unfold finish_wav, wav_file, pcm_chunks. cbn [map concat]. unfold encode. cbn [tag body pad].
  rewrite !app_nil_r. rewrite !len_app. change (len (replicate 44 0)) with 44.
  change (len B"WAVE") with 4. change (len B"fmt ") with 4. change (len B"data") with 4.
  change (len (put32 (len (fmt_body 1 24000 [])))) with 4. change (len (fmt_body 1 24000 [])) with 16.
  assert (Hl : len (put32 (len pcm)) = 4) by done. rewrite Hl.
  rewrite !u32_small by (unfold UINT32_MAX, len in *; lia).
  replace (44 + len pcm - 8) with (36 + len pcm) by lia. replace (44 + len pcm - 44) with (len pcm) by lia.
  replace (4 + (4 + (4 + 16) + (4 + (4 + len pcm)))) with (36 + len pcm) by lia.
  rewrite !put32_bytes. reflexivity.
Qed.

Lemma pcm_playable pcm :
  len pcm mod 2 = 0 -> 48000 <= len pcm <= 14400000 -> Forall is_byte pcm ->
  Forall chunk_ok (pcm_chunks pcm) /\ playable (pcm_chunks pcm) /\ Forall is_byte (wav_file (pcm_chunks pcm)).
Proof.
  intros Hm Hl Hb. split_and!.
  - repeat apply Forall_cons; [| |apply Forall_nil]; split_and!; cbn [tag body pad]; try done.
    unfold UINT32_MAX. lia.
  - exists [], (mk_chunk B"fmt " (fmt_body 1 24000 []) []), [], (mk_chunk B"data" pcm []), [], 1, 24000, [].
    cbn [tag body]. split_and!; try done; try lia; try apply Forall_nil.
  - unfold wav_file, pcm_chunks, encode. cbn [map concat tag body pad]. rewrite !app_nil_r.
    rewrite !Forall_app. split_and!; try done; try apply put_le_byte; repeat (apply list.Forall_cons_2 || apply list.Forall_nil_2); unfold is_byte; vm_compute; split; congruence.
Qed.

(** The validator accepts exactly the RIFF/WAVE files of at most 25 MiB
    made of well-padded chunks with one 16-bit PCM format chunk (1 or 2 channels,
    8 to 96 kHz, consistent rates) before one data chunk of 1 to 300 seconds of
    whole frames, whatever other chunks surround them; and a recording of 1 to
    300 seconds of whole samples gets a header that the validator accepts. *)
Theorem wav_valid_iff (p pcm : bytes) (Hp : Forall is_byte p) (Hpcm : Forall is_byte pcm) :
  (tny_dictation_wav_valid (Some p) = true <->
   44 <= len p <= TNY_DICTATION_AUDIO_MAX /\ exists cs, Forall chunk_ok cs /\ p = wav_file cs /\ playable cs) /\
  (len pcm mod 2 = 0 -> 48000 <= len pcm <= 14400000 ->
   tny_dictation_wav_valid (Some (finish_wav (replicate 44 0 ++ pcm))) = true).
Proof.
  split; [split|].
  - by apply wav_valid_file.
  - intros (Hl & cs & Hcs & -> & Hpl). by apply wav_file_valid.
  - intros Hm Hl. rewrite finish_wav_file by lia. destruct (pcm_playable pcm Hm Hl Hpcm) as (Hok & Hpl & Hb).
    apply wav_file_valid; [done|done| |done]. rewrite <- finish_wav_file by lia.
    rewrite finish_wav_file by lia. unfold wav_file, pcm_chunks, encode. cbn [map concat tag body pad].
    rewrite !app_nil_r, !len_app. unfold TNY_DICTATION_AUDIO_MAX.
    change (len B"RIFF") with 4. change (len B"WAVE") with 4. change (len B"fmt ") with 4. change (len B"data") with 4.
    change (len (fmt_body 1 24000 [])) with 16. 
    repeat match goal with |- context [len (put32 ?x)] => change (len (put32 x)) with 4 end. lia.
Qed.

Example wav_valid_iff_witness :
  tny_dictation_wav_valid (Some (finish_wav (replicate 44 0 ++ replicate 48000 7))) = true.
Proof.
  apply (wav_valid_iff [] (replicate 48000 7) (Forall_nil _)).
  - apply list.Forall_replicate. unfold is_byte. lia.
  - vm_compute. reflexivity.
  - split; vm_compute; discriminate.
Defined.
