(* ===== verification/Dictation.v ===== *)
(** A dictation session (src/src/core/dictation.c): recording, transcription
    and the optional rewrite, with the rewrite's lifecycle
    (src/src/core/dictation_verify.c). *)
From coqutil Require Import Datatypes.RecordSetters.
From S2P Require Import Prelude Text Json Wav Dictionary NormVerify.
Import RecordSetters.DoubleBraceUpdate.

Open Scope Z_scope.

(** ** The rewrite's lifecycle *)

Inductive tny_norm_phase := NORM_TRANSCRIBING | NORM_NORMALIZING | NORM_DONE.
Inductive tny_norm_outcome := NORM_PENDING | NORM_FAILED | NORM_CANCELLED | NORM_RAW | NORM_NORMALIZED.
Inductive tny_norm_event :=
  | EV_STT_INVALID | EV_STT_VALID | EV_STT_FAILED | EV_CANCEL
  | EV_EFFORT_REJECTED | EV_FAILED | EV_REJECTED | EV_ACCEPTED.

Record tny_norm_state := mk_norm {
  phase : tny_norm_phase; enabled : bool; effort : bool; requests : Z; outcome : tny_norm_outcome }.

Definition tny_norm_init (enabled : bool) : tny_norm_state :=
  mk_norm NORM_TRANSCRIBING enabled false 0 NORM_PENDING.

Definition norm_done (s : tny_norm_state) (o : tny_norm_outcome) : tny_norm_state :=
  mk_norm NORM_DONE (enabled s) (effort s) (requests s) o.

Definition tny_norm_step (s : tny_norm_state) (e : tny_norm_event) : tny_norm_state :=
  match e, phase s with
  | EV_STT_INVALID, NORM_TRANSCRIBING => norm_done s NORM_FAILED
  | EV_STT_VALID, NORM_TRANSCRIBING =>
    if enabled s then mk_norm NORM_NORMALIZING (enabled s) true 1 (outcome s) else norm_done s NORM_RAW
  | EV_STT_FAILED, NORM_TRANSCRIBING => norm_done s NORM_FAILED
  | EV_CANCEL, NORM_TRANSCRIBING => norm_done s NORM_CANCELLED
  | EV_CANCEL, NORM_NORMALIZING => norm_done s NORM_RAW
  | EV_EFFORT_REJECTED, NORM_NORMALIZING =>
    if effort s && (requests s <? 2)
    then mk_norm NORM_NORMALIZING (enabled s) false (u32 (requests s + 1)) (outcome s)
    else norm_done s NORM_RAW
  | (EV_FAILED | EV_REJECTED), NORM_NORMALIZING => norm_done s NORM_RAW
  | EV_ACCEPTED, NORM_NORMALIZING => norm_done s NORM_NORMALIZED
  | _, _ => s
  end.

(** ** Session state *)

Inductive tny_dictation_state := RECORDING | TRANSCRIBING | NORMALIZING | DONE.

(** What of the normalization settings decides the session's course. *)
Record tny_norm_config := mk_config { cfg_enabled : bool; valid : bool; wants_effort : bool; fast : bool }.

(** A pointer is whether it is set; [starts] is a log of the rewrite requests
    made, each with the effort flag it carried. *)
Record tny_dictation := mk_session {
  seconds : Z;
  state : tny_dictation_state;
  capture : bool; stopping : bool; job : bool;
  audio : bytes; text : bytes; text_oom : bool;
  rc : Z; error : bytes;
  norm : tny_norm_state; config : tny_norm_config;
  norm_job : bool; dictionary : tny_dictionary; accepted : option tny_norm_proposal;
  raw : bytes; corrections : bytes;
  target_ready : bool; effort_sent : bool; tier_sent : bool;
  skipped : bytes;
  starts : list bool }.

(** What one call meets outside: the microphone, the speech service, the
    rewriting service, files and memory. *)
Record env := mk_env {
  cancelled : bool; late : bool;
  read_rc : Z; read_data : bytes; read_error : bytes;
  stt_start : option bytes;
  stt_rc : Z; stt_text : bytes; stt_oom : bool; stt_error : bytes;
  raw_ok : bool; dict : option tny_dictionary; target_ok : bool; target_tier : bool;
  norm_start : option bytes;
  job_rc : Z; job_out : bytes; job_reason : bytes;
  parse_mem : bool; verify_mem : bytes -> bool; rows_ok : bool;
  store_ok : bool; restore_ok : bool }.

(** ** Operations *)

Definition complete (d : tny_dictation) (r : Z) : tny_dictation :=
  let d := d{{capture := false; job := false; norm_job := false; target_ready := false; dictionary := [];
              audio := [] }} in
  let d := if r =? 0 then d else d{{text := []; text_oom := false}} in
  let d := d{{state := DONE; rc := r}} in
  if negb (r =? 0) && bool_decide (error d = []) then d{{error := B"dictation failed"}} else d.

Fixpoint corrections_items (first : bool) (cs : list tny_norm_correction) : bytes :=
  match cs with
  | [] => []
  | c :: cs =>
    (if first then [] else [C","]) ++ C"{" :: DQUOTE :: B"span" ++ DQUOTE :: C":" ::
    default [] (jescape [] (Some (span c))) ++ C"," :: DQUOTE :: B"replacement" ++ DQUOTE :: C":" ::
    default [] (jescape [] (Some (replacement c))) ++ C"," :: DQUOTE :: B"reason" ++ DQUOTE :: C":" ::
    DQUOTE :: tny_norm_reason_name (reason c) ++ DQUOTE :: C"}" :: corrections_items false cs
  end.

Definition corrections_json (p : tny_norm_proposal) : bytes :=
  C"[" :: corrections_items true (NormVerify.corrections p) ++ [C"]"].

Definition norm_settle (e : env) (d : tny_dictation) (reason : option bytes) : tny_dictation :=
  match phase (norm d) with
  | NORM_NORMALIZING => d
  | _ =>
    let '(d, reason) :=
      match outcome (norm d), accepted d with
      | NORM_NORMALIZED, Some p =>
        if text_oom d || negb (store_ok e)
        then (d{{text := if restore_ok e then raw d else []; text_oom := negb (restore_ok e);
                 corrections := corrections_json p; norm := norm_done (norm d) NORM_RAW}},
              Some B"out_of_memory")
        else (d{{text := NormVerify.text p; corrections := corrections_json p}}, reason)
      | _, _ => (d, reason)
      end in
    let d := match outcome (norm d) with
             | NORM_NORMALIZED => d
             | _ => d{{skipped := take 63 (default B"not_normalized" reason)}}
             end in
    complete (d{{accepted := None}}) (if text_oom d then 1 else 0)
  end.

Definition norm_event (e : env) (d : tny_dictation) (ev : tny_norm_event) (reason : bytes) : tny_dictation :=
  norm_settle e (d{{norm := tny_norm_step (norm d) ev}}) (Some reason).

Definition norm_start_request (e : env) (d : tny_dictation) : tny_dictation :=
  let sent := effort (norm d) && wants_effort (config d) in
  let d := d{{effort_sent := sent; tier_sent := fast (config d) && target_tier e;
              norm_job := bool_decide (norm_start e = None); starts := starts d ++ [sent] }} in
  match norm_start e with
  | None => d
  | Some reason => norm_event e d EV_FAILED (if bool_decide (reason = []) then B"transport" else reason)
  end.

Definition norm_begin (e : env) (d : tny_dictation) : tny_dictation :=
  if negb (valid (config d)) then norm_event e d EV_FAILED B"invalid_config"
  else match dict e with
       | None => norm_event e d EV_FAILED B"dictionary_invalid"
       | Some dic =>
         let d := d{{dictionary := dic}} in
         if negb (target_ok e) then norm_event e d EV_FAILED B"no_credential"
         else norm_start_request e (d{{target_ready := true}})
       end.

Definition tny_norm_verdict_name (v : tny_norm_verdict) : bytes :=
  match v with
  | VERDICT_OK => B"ok" | VERDICT_INVALID_TEXT => B"invalid_text" | VERDICT_TOO_MANY => B"too_many"
  | VERDICT_EMPTY_SPAN => B"empty_span" | VERDICT_INADMISSIBLE => B"inadmissible"
  | VERDICT_UNLISTED => B"unlisted" | VERDICT_EDIT_BOUND => B"edit_bound" | VERDICT_OOM => B"out_of_memory"
  end.

Section Session.
Context (jparse : bytes -> option jval).

(** [None]: a step of a rewrite request that does not exist. *)
Definition norm_step (e : env) (d : tny_dictation) : option tny_dictation :=
  if negb (target_ready d) then Some (norm_begin e d)
  else if negb (norm_job d) then None
  else Some (
    if job_rc e <? 0 then d
    else
      let d := d{{norm_job := false}} in
      if job_rc e =? 3 then
        let d := d{{norm := tny_norm_step (norm d) EV_EFFORT_REJECTED}} in
        match phase (norm d) with
        | NORM_NORMALIZING => norm_start_request e d
        | _ => norm_settle e d (Some B"effort_rejected")
        end
      else if negb (job_rc e =? 0) then norm_event e d EV_FAILED (job_reason e)
      else match tny_norm_proposal_parse (parse_mem e) jparse (job_out e) with
           | None => norm_event e d EV_FAILED B"malformed_output"
           | Some p =>
             let d := d{{accepted := Some p}} in
             let v := tny_norm_verify (verify_mem e) (rows_ok e) (dictionary d) (raw d) p in
             norm_event e d (match v with VERDICT_OK => EV_ACCEPTED | _ => EV_REJECTED end)
               (take 63 (B"rejected:" ++ tny_norm_verdict_name v))
           end).

Definition tny_dictation_finish (d : tny_dictation) : tny_dictation :=
  match state d with RECORDING => d{{stopping := true}} | _ => d end.

Definition tny_dictation_cancel (e : env) (d : tny_dictation) : tny_dictation :=
  match state d with
  | DONE => d
  | NORMALIZING => norm_event e d EV_CANCEL B"cancelled"
  | _ => complete (d{{norm := tny_norm_step (norm d) EV_CANCEL; error := B"dictation interrupted"}}) 130
  end.

(** One recording step; [None]: no microphone to read. *)
Definition record_step (e : env) (d : tny_dictation) : option tny_dictation :=
  let d := if late e then tny_dictation_finish d else d in
  if negb (capture d) then None
  else Some (
    let d := d{{audio := audio d ++ read_data e}} in
    if read_rc e <? 0 then complete (d{{error := read_error e}}) 1
    else
      let target := 44 + AUDIO_CAPTURE_RATE * 2 *
                         (if seconds d =? 0 then TNY_DICTATION_SECONDS_MAX else seconds d) in
      let d := if target <=? len (audio d) then tny_dictation_finish d else d in
      if read_rc e =? 0 then d
      else
        let d := d{{capture := false; audio := finish_wav (take (Z.to_nat target) (audio d))}} in
        if negb (tny_dictation_wav_valid (Some (audio d)))
        then complete (d{{error :=
               B"recording is too short or incomplete; speak for at least one second"}}) 1
        else d{{state := TRANSCRIBING}}).

(** The transcript arrived. *)
Definition transcript_step (e : env) (d : tny_dictation) : tny_dictation :=
  let ok := tny_dictation_text_valid (text d) in
  let d := d{{norm := tny_norm_step (norm d) (if ok then EV_STT_VALID else EV_STT_INVALID)}} in
  if negb ok then complete (d{{error := B"empty or invalid dictation transcript"}}) 1
  else match phase (norm d) with
       | NORM_NORMALIZING =>
         let d := d{{job := false}} in
         if raw_ok e then d{{raw := text d; state := NORMALIZING}}
         else norm_event e d EV_FAILED B"out_of_memory"
       | _ => complete d 0
       end.

Definition transcribe_step (e : env) (d : tny_dictation) : tny_dictation :=
  let start := if job d then None else Some (stt_start e) in
  let d := match start with None => d | Some r => d{{audio := []; job := bool_decide (r = None)}} end in
  match start with
  | Some (Some reason) =>
    complete (d{{norm := tny_norm_step (norm d) EV_STT_FAILED; error := reason}}) 1
  | _ =>
    let d := d{{text := text d ++ stt_text e; text_oom := text_oom d || stt_oom e}} in
    if stt_rc e <? 0 then d
    else if negb (stt_rc e =? 0) then
      complete (d{{norm := tny_norm_step (norm d) EV_STT_FAILED; error := stt_error e}}) (stt_rc e)
    else transcript_step e d
  end.

Definition tny_dictation_step (e : env) (d : tny_dictation) : option tny_dictation :=
  match state d with
  | DONE => Some d
  | st =>
    if cancelled e then Some (tny_dictation_cancel e d)
    else match st with
         | RECORDING => record_step e d
         | NORMALIZING => norm_step e d
         | _ => Some (transcribe_step e d)
         end
  end.

(** ** Starting *)

Record tny_dictation_request := mk_dictation_request {
  input_file : option bytes; device : option bytes; req_seconds : Z }.

(** What starting meets: memory, settings, the file's bytes, the provider. *)
Record start_env := mk_start_env {
  mem : bool; settings : tny_norm_config; wav : option bytes; unavailable : option bytes;
  start_cancelled : bool; header_ok : bool; capture_err : option bytes }.

Definition tny_dictation_start (e : start_env) (r : tny_dictation_request) : bytes + tny_dictation :=
  if (req_seconds r <? 0) || (TNY_DICTATION_SECONDS_MAX <? req_seconds r) ||
     match input_file r with
     | Some f => bool_decide (f = []) || negb (req_seconds r =? 0) || negb (bool_decide (device r = None))
     | None => false
     end
  then inl B"invalid dictation options"
  else if negb (mem e) then inl B"out of memory"
  else
    let file := match input_file r with Some _ => true | None => false end in
    if file && negb (tny_dictation_wav_valid (wav e))
    then inl B"input must be a complete PCM16 WAV: 1–300 seconds, mono/stereo, 8–96 kHz, at most 25 MiB"
    else match unavailable e with
    | Some err => inl err
    | None =>
      if start_cancelled e then inl B"dictation interrupted"
      else
        let d := mk_session (req_seconds r) (if file then TRANSCRIBING else RECORDING) false false false
          (if file then default [] (wav e) else replicate 44 0) [] false (-1) []
          (tny_norm_init (cfg_enabled (settings e))) (settings e) false [] None [] [] false false false [] [] in
        if file then inr d
        else if negb (header_ok e) then inl B"out of memory"
        else match capture_err e with
             | Some err => inl err
             | None => inr (d{{capture := true}})
             end
    end.

(** ** Results *)

Definition tny_dictation_result (d : tny_dictation) : Z * option bytes :=
  match state d with
  | DONE => (rc d, if rc d =? 0 then Some (text d) else None)
  | _ => (-1, None)
  end.

(** Whether a rewrite was delivered, the transcript, and why it was not. *)
Definition tny_dictation_normalization_info (d : tny_dictation) : option (bool * bytes * option bytes) :=
  match state d with
  | DONE =>
    if negb (rc d =? 0) || (requests (norm d) =? 0) then None
    else
      let normalized := match outcome (norm d) with NORM_NORMALIZED => true | _ => false end in
      Some (normalized, raw d, if normalized then None else Some (skipped d))
  | _ => None
  end.

End Session.

(** ** Runs *)

Inductive action := Step (e : env) | Finish | Cancel (e : env).

Definition act (jparse : bytes -> option jval) (a : action) (d : tny_dictation) : option tny_dictation :=
  match a with
  | Step e => tny_dictation_step jparse e d
  | Finish => Some (tny_dictation_finish d)
  | Cancel e => Some (tny_dictation_cancel e d)
  end.

Fixpoint run (jparse : bytes -> option jval) (acts : list action) (d : tny_dictation) : option tny_dictation :=
  match acts with
  | [] => Some d
  | a :: acts => d ← act jparse a d; run jparse acts d
  end.

(** No transcript is lost to memory: the raw text can be restored, and the
    speech service's text was stored. *)
Definition memory_ok (a : action) : Prop :=
  match a with
  | Step e | Cancel e => restore_ok e = true /\ stt_oom e = false
  | Finish => True
  end.

(** ** Specifications *)

Definition released (d : tny_dictation) : Prop :=
  capture d = false /\ job d = false /\ norm_job d = false /\ target_ready d = false /\
  dictionary d = [] /\ audio d = [] /\ accepted d = None.

(** The rewrite requests made so far: at most two, the second without the
    effort field. *)
Definition starts_ok (d : tny_dictation) : Prop :=
  exists w, starts d = [] \/ starts d = [w] \/ starts d = [w; false].

(** What a session that had the transcript [t] ends with. *)
Definition delivers (t : bytes) (d : tny_dictation) : Prop :=
  text d = t \/ exists dic p, NormVerify.accepted dic t p /\ text d = NormVerify.text p.

(** The session after its transcript [t] was settled; [m] is that memory
    sufficed. *)
Definition settled (m : Prop) (t : bytes) (d : tny_dictation) : Prop :=
  state d = DONE /\ raw d = t /\ released d /\ starts_ok d /\
  ((rc d = 0 /\ delivers t d) \/ (rc d = 1 /\ ~ m)).

(** How far a rewrite has come. *)
Definition rewriting (d : tny_dictation) : Prop :=
  phase (norm d) = NORM_NORMALIZING /\ outcome (norm d) = NORM_PENDING /\
  ((target_ready d = false /\ requests (norm d) = 1 /\ effort (norm d) = true /\ starts d = []) \/
   (exists w, target_ready d = true /\ requests (norm d) = 1 /\ effort (norm d) = true /\ starts d = [w]) \/
   (exists w, target_ready d = true /\ requests (norm d) = 2 /\ effort (norm d) = false /\ starts d = [w; false])).

Definition fresh (d : tny_dictation) : Prop :=
  norm_job d = false /\ target_ready d = false /\ dictionary d = [] /\ accepted d = None /\ starts d = [] /\
  exists b, norm d = tny_norm_init b.

Definition session_inv (m : Prop) (d : tny_dictation) : Prop :=
  match state d with
  | RECORDING => fresh d /\ capture d = true /\ job d = false /\ text d = [] /\ text_oom d = false
  | TRANSCRIBING => fresh d /\ capture d = false /\ (m -> text_oom d = false) /\
      (if job d then audio d = [] else tny_dictation_wav_valid (Some (audio d)) = true)
  | NORMALIZING => capture d = false /\ job d = false /\ audio d = [] /\ accepted d = None /\ norm_job d = target_ready d /\
      text d = raw d /\ tny_dictation_text_valid (raw d) = true /\ (m -> text_oom d = false) /\ rewriting d
  | DONE => released d /\ starts_ok d /\ (rc d = 0 -> tny_dictation_text_valid (text d) = true)
  end.

(** ** Lemmas: settling *)

Lemma complete_spec d r :
  accepted d = None ->
  let d' := complete d r in
  state d' = DONE /\ rc d' = r /\ raw d' = raw d /\ released d' /\ starts d' = starts d /\
  norm d' = norm d /\ (r = 0 -> text d' = text d).
Proof.
  intros Ha. unfold complete, released. destruct d; cbn in Ha |- *.
  destruct (Z.eqb_spec r 0); cbn; [by split_and!|]. by case_bool_decide; split_and!; cbn.
Qed.

(** Settling without a rewrite keeps the text. *)
Lemma norm_settle_raw e d reason :
  phase (norm d) = NORM_DONE -> outcome (norm d) = NORM_RAW ->
  let d' := norm_settle e d reason in
  state d' = DONE /\ raw d' = raw d /\ released d' /\ starts d' = starts d /\
  rc d' = (if text_oom d then 1 else 0) /\ (rc d' = 0 -> text d' = text d).
Proof.
  destruct d. cbn. intros Hp Ho. unfold norm_settle, released. cbn. rewrite Hp, Ho. cbn. rewrite Ho.
  destruct text_oom0; unfold complete; cbn; [by case_bool_decide; split_and!; cbn|by split_and!].
Qed.

Lemma settled_raw m d d' :
  text d = raw d -> starts_ok d -> (m -> text_oom d = false) ->
  state d' = DONE /\ raw d' = raw d /\ released d' /\ starts d' = starts d /\
  rc d' = (if text_oom d then 1 else 0) /\ (rc d' = 0 -> text d' = text d) ->
  settled m (raw d) d'.
Proof.
  intros Ht Hs Hm (H1 & H2 & H3 & H4 & H5 & H6). unfold settled, starts_ok in *. rewrite H4. split_and!; try done.
  destruct (text_oom d) eqn:Eo.
  - right. split; [done|]. intros Hm'. by specialize (Hm Hm').
  - left. split; [done|]. left. by rewrite H6, Ht.
Qed.

(** The events that keep the transcript. *)
Lemma norm_event_raw m e d ev reason :
  phase (norm d) = NORM_NORMALIZING -> ev = EV_FAILED \/ ev = EV_REJECTED \/ ev = EV_CANCEL ->
  text d = raw d -> starts_ok d -> (m -> text_oom d = false) ->
  settled m (raw d) (norm_event e d ev reason).
Proof.
  intros Hp Hev Ht Hs Hm. unfold norm_event. set (d1 := d{{norm := _}}).
  assert (phase (norm d1) = NORM_DONE /\ outcome (norm d1) = NORM_RAW) as [H1 H2].
  { subst d1. destruct d. cbn in *. unfold tny_norm_step. rewrite Hp. by destruct Hev as [->|[->| ->]]. }
  replace (raw d) with (raw d1) by by destruct d.
  apply settled_raw; try (by subst d1; destruct d). by apply norm_settle_raw.
Qed.

(** An accepted rewrite is delivered, or the transcript is restored. *)
Lemma norm_event_accepted m e d p dic reason :
  phase (norm d) = NORM_NORMALIZING -> accepted d = Some p -> NormVerify.accepted dic (raw d) p ->
  starts_ok d -> (m -> text_oom d = false) -> (m -> restore_ok e = true) ->
  settled m (raw d) (norm_event e d EV_ACCEPTED reason).
Proof.
  intros Hp Ha Hv Hs Hm Hr. unfold norm_event, norm_settle.
  replace (tny_norm_step (norm d) EV_ACCEPTED) with (norm_done (norm d) NORM_NORMALIZED)
    by (unfold tny_norm_step; by rewrite Hp).
  destruct d. cbn in Ha, Hp, Hv, Hm, Hs |- *. subst. unfold settled, starts_ok, delivers, released in *. cbn in *.
  destruct (text_oom0 || negb (store_ok e)) eqn:Eo; cbn.
  - destruct (restore_ok e) eqn:Er; unfold complete; cbn.
    + split_and!; try done. left. split; [done|]. by left.
    + case_bool_decide; cbn; split_and!; try done; right; (split; [done|]); intros H0; by specialize (Hr H0).
  - apply orb_false_iff in Eo as [-> _]. cbn. split_and!; try done. left. split; [done|]. right. by exists dic, p.
Qed.

Lemma rewriting_starts d : rewriting d -> starts_ok d.
Proof.
  intros (_ & _ & H). destruct H as [(_ & _ & _ & H)|[(w & _ & _ & _ & H)|(w & _ & _ & _ & H)]].
  - exists false. by left.
  - exists w. by right; left.
  - exists w. by right; right.
Qed.

(** ** Lemmas: steps of the rewrite *)

Definition norm_inv (m : Prop) (d : tny_dictation) : Prop :=
  capture d = false /\ job d = false /\ audio d = [] /\ accepted d = None /\ norm_job d = target_ready d /\
  text d = raw d /\ tny_dictation_text_valid (raw d) = true /\ (m -> text_oom d = false) /\ rewriting d.

(** The rewrite goes on, having used up one of its three rounds if [n] is
    smaller, or the transcript is settled. *)
Definition budget (d : tny_dictation) : nat :=
  (if target_ready d then 0 else 1) + (if effort (norm d) then 2 else 1).

Definition after (m : Prop) (t : bytes) (n : nat) (d : tny_dictation) : Prop :=
  (state d = NORMALIZING /\ norm_inv m d /\ raw d = t /\ (budget d <= n)%nat) \/ settled m t d.

(** A request about to be made. *)
Definition ready (m : Prop) (d : tny_dictation) : Prop :=
  state d = NORMALIZING /\ capture d = false /\ job d = false /\ audio d = [] /\ accepted d = None /\
  norm_job d = false /\ target_ready d = true /\
  text d = raw d /\ tny_dictation_text_valid (raw d) = true /\ (m -> text_oom d = false) /\
  phase (norm d) = NORM_NORMALIZING /\ outcome (norm d) = NORM_PENDING /\
  ((requests (norm d) = 1 /\ effort (norm d) = true /\ starts d = []) \/
   (exists w, requests (norm d) = 2 /\ effort (norm d) = false /\ starts d = [w])).

Lemma norm_start_request_after m e d :
  ready m d -> after m (raw d) (if effort (norm d) then 2 else 1) (norm_start_request e d).
Proof.
  intros (H1 & H2 & H3 & H4 & H5 & H6 & H7 & H8 & H9 & H10 & H11 & H12 & H13). unfold norm_start_request.
  set (d1 := d{{effort_sent := _; tier_sent := _; norm_job := _; starts := _}}).
  assert (raw d1 = raw d) as Er by done. assert (norm d1 = norm d) as Em by done.
  assert (target_ready d1 = target_ready d) as Et by done.
  assert (starts d1 = starts d ++ [effort (norm d) && wants_effort (config d)]) as Est by done.
  assert (starts_ok d1) as Hs.
  { unfold starts_ok. rewrite Est. destruct H13 as [(_ & -> & ->)|(w & _ & -> & ->)]; cbn; eexists; eauto. }
  destruct (norm_start e) as [r|] eqn:En.
  - right. rewrite <- Er. apply norm_event_raw; [done|by left|done|done|done].
  - left. assert (norm_job d1 = true) as Ej by done.
    split_and!; [done| |done|].
    + unfold norm_inv. rewrite Ej. split_and!; try done. unfold rewriting. split_and!; try done. right.
      rewrite Est, Em, Et, H7. destruct H13 as [(-> & -> & ->)|(w & -> & -> & ->)]; [left|right]; eexists; by split_and!.
    + unfold budget. rewrite Et, Em, H7. by destruct (effort (norm d)).
Qed.

Lemma norm_begin_after m e d :
  state d = NORMALIZING -> norm_inv m d -> target_ready d = false -> after m (raw d) 2 (norm_begin e d).
Proof.
  intros Hst (H1 & H2 & H3 & H4 & H5 & H6 & H7 & H8 & Hr) Ht. pose proof (rewriting_starts d Hr) as Hs.
  pose proof Hr as (Hp & Ho & Hc). unfold norm_begin.
  destruct (valid (config d)); cbn [negb]; [|right; apply norm_event_raw; try done; by left].
  destruct (dict e) as [dic|]; [|right; apply norm_event_raw; try done; by left].
  set (d1 := d{{dictionary := dic}}).
  destruct (target_ok e); cbn [negb]; [|right; apply (norm_event_raw m e d1); try done; by left].
  set (d2 := d1{{target_ready := true}}).
  destruct Hc as [(_ & Hq & He & Hst')|[(w & Hx & _)|(w & Hx & _)]]; [|congruence..].
  assert (ready m d2) as Hready.
  { unfold ready. change (norm_job d2) with (norm_job d). rewrite H5, Ht. split_and!; try done. by left. }
  pose proof (norm_start_request_after m e d2 Hready) as H. 
  replace (effort (norm d2)) with true in H by done. exact H.
Qed.

Lemma norm_step_after m jparse e d :
  state d = NORMALIZING -> norm_inv m d -> (m -> restore_ok e = true) ->
  exists d', norm_step jparse e d = Some d' /\ after m (raw d) (budget d) d' /\
    (0 <= job_rc e -> after m (raw d) (budget d - 1) d').
Proof.
  intros Hst Hi Hm. pose proof Hi as (H1 & H2 & H3 & H4 & H5 & H6 & H7 & H8 & Hr).
  pose proof (rewriting_starts d Hr) as Hs. pose proof Hr as (Hp & Ho & Hc). unfold norm_step. rewrite H5.
  assert (forall n n' T x, (n <= n')%nat -> after m T n x -> after m T n' x) as Hmono.
  { intros n n' T x Hn [(? & ? & ? & ?)|?]; [left|by right]. split_and!; try done. lia. }
  destruct (target_ready d) eqn:Et; cbn [negb].
  2: { eexists. split; [done|]. pose proof (norm_begin_after m e d Hst Hi Et) as H.
       assert (effort (norm d) = true) as He.
       { destruct Hc as [(_ & _ & ? & _)|[(w & ? & _)|(w & ? & _)]]; [done|congruence..]. }
       unfold budget. rewrite Et, He. split; [|intros _]; (eapply Hmono; [|exact H]); lia. }
  destruct (Z.ltb_spec (job_rc e) 0) as [Hneg|Hpos].
  { eexists. split; [done|]. split; [|lia]. left. by split_and!. }
  set (d1 := d{{norm_job := false}}).
  match goal with |- exists d', Some ?x = Some d' /\ _ =>
    enough (after m (raw d) (budget d - 1) x) as Hx
      by (exists x; split_and!; [done|eapply Hmono; [|exact Hx]; lia|done])
  end.
  destruct (Z.eqb_spec (job_rc e) 3) as [E3|E3].
  - set (d2 := d1{{norm := _}}).
    destruct Hc as [(Hx & _)|[(w & _ & Hq & He & Hst')|(w & _ & Hq & He & Hst')]]; [congruence| |].
    + assert (norm d2 = mk_norm NORM_NORMALIZING (enabled (norm d)) false 2 NORM_PENDING) as En.
      { change (norm d2) with (tny_norm_step (norm d) EV_EFFORT_REJECTED). unfold tny_norm_step.
        by rewrite Hp, He, Hq, Ho. }
      rewrite En. cbn [phase].
      assert (ready m d2) as Hready.
      { unfold ready. rewrite En. split_and!; try done. right. by exists w. }
      pose proof (norm_start_request_after m e d2 Hready) as H. rewrite En in H. cbn [effort] in H.
      unfold budget. rewrite Et, He. exact H.
    + assert (phase (norm d2) = NORM_DONE /\ outcome (norm d2) = NORM_RAW) as [Hp2 Ho2].
      { change (norm d2) with (tny_norm_step (norm d) EV_EFFORT_REJECTED). unfold tny_norm_step.
        by rewrite Hp, He. }
      rewrite Hp2. right. apply (settled_raw m d2); try done. by apply norm_settle_raw.
  - right. destruct (Z.eqb_spec (job_rc e) 0); cbn [negb].
    2: { apply (norm_event_raw m e d1); try done. by left. }
    destruct (tny_norm_proposal_parse _ _ _) as [p|]; [|apply (norm_event_raw m e d1); try done; by left].
    set (d2 := d1{{accepted := Some p}}).
    destruct (tny_norm_verify _ _ _ _ _) eqn:Ev;
      try (apply (norm_event_raw m e d2); try done; by right; left).
    apply (norm_event_accepted m e d2 p (dictionary d)); try done. by eapply verify_accepts.
Qed.

(** ** Lemmas: the invariant *)

Lemma delivers_valid t d : delivers t d -> tny_dictation_text_valid t = true -> tny_dictation_text_valid (text d) = true.
Proof. by intros [->|(dic & p & (H & _) & ->)]. Qed.

Lemma settled_inv m t d : settled m t d -> tny_dictation_text_valid t = true -> session_inv m d.
Proof.
  intros (H1 & _ & H2 & H3 & H4) Ht. unfold session_inv. rewrite H1. split_and!; [done|done|].
  intros Hrc. destruct H4 as [[_ Hd]|[? _]]; [by eapply delivers_valid|lia].
Qed.

Lemma after_inv m t n d : after m t n d -> tny_dictation_text_valid t = true -> session_inv m d.
Proof.
  intros [(H1 & H2 & _)|H] Ht; [|by eapply settled_inv]. unfold session_inv. by rewrite H1.
Qed.

Lemma complete_inv m d r :
  accepted d = None -> starts d = [] -> (r = 0 -> tny_dictation_text_valid (text d) = true) ->
  session_inv m (complete d r).
Proof.
  intros Ha Hs Hr. destruct (complete_spec d r Ha) as (H1 & H2 & _ & H4 & H5 & _ & H7).
  unfold session_inv. rewrite H1. split_and!; [done|exists false; left; congruence|].
  intros H0. rewrite H2 in H0. rewrite H7 by done. auto.
Qed.

Lemma cancel_inv m e d : session_inv m d -> session_inv m (tny_dictation_cancel e d).
Proof.
  unfold session_inv at 1, tny_dictation_cancel. destruct (state d) eqn:Est.
  - intros (Hf & _). destruct Hf as (_ & _ & _ & Ha & Hs & _). by apply complete_inv.
  - intros (Hf & _). destruct Hf as (_ & _ & _ & Ha & Hs & _). by apply complete_inv.
  - intros (H1 & H2 & H3 & H4 & H5 & H6 & H7 & H8 & Hr). apply (settled_inv m (raw d)); [|done].
    apply norm_event_raw; try done; [by destruct Hr|by right; right|by apply rewriting_starts].
  - intros H. unfold session_inv. by rewrite Est.
Qed.

Lemma finish_keeps d : state (tny_dictation_finish d) = state d /\ capture (tny_dictation_finish d) = capture d /\
  fresh (tny_dictation_finish d) = fresh d /\ audio (tny_dictation_finish d) = audio d /\
  seconds (tny_dictation_finish d) = seconds d /\ job (tny_dictation_finish d) = job d /\
  text (tny_dictation_finish d) = text d /\ text_oom (tny_dictation_finish d) = text_oom d.
Proof. unfold tny_dictation_finish. destruct (state d) eqn:E; by split_and!. Qed.

Lemma record_step_inv m e d :
  state d = RECORDING -> session_inv m d -> exists d', record_step e d = Some d' /\ session_inv m d'.
Proof.
  intros Hst Hi. unfold session_inv in Hi. rewrite Hst in Hi. destruct Hi as (Hf & Hc & Hj & Ht & Ho).
  unfold record_step. set (d0 := if late e then tny_dictation_finish d else d).
  assert (fresh d0 /\ capture d0 = true /\ job d0 = false /\ text d0 = [] /\ text_oom d0 = false /\ state d0 = RECORDING)
    as (Hf0 & Hc0 & Hj0 & Ht0 & Ho0 & Hst0).
  { subst d0. destruct (late e); [|by split_and!]. destruct (finish_keeps d) as (-> & -> & -> & _ & _ & -> & -> & ->).
    by split_and!. }
  rewrite Hc0. cbn [negb]. eexists. split; [done|]. clearbody d0. clear d Hst Hf Hc Hj Ht Ho.
  set (d1 := d0{{audio := _}}). destruct Hf0 as (F1 & F2 & F3 & F4 & F5 & F6).
  destruct (Z.ltb_spec (read_rc e) 0); [by apply complete_inv|].
  set (tgt := 44 + _). set (d2 := if tgt <=? len (audio d1) then tny_dictation_finish d1 else d1).
  assert (fresh d2 /\ capture d2 = true /\ job d2 = false /\ text d2 = [] /\ text_oom d2 = false /\ state d2 = RECORDING)
    as (Hf2 & Hc2 & Hj2 & Ht2 & Ho2 & Hst2).
  { subst d2. destruct (tgt <=? len (audio d1)); [|by split_and!].
    destruct (finish_keeps d1) as (-> & -> & -> & _ & _ & -> & -> & ->). by split_and!. }
  clearbody d2. destruct Hf2 as (G1 & G2 & G3 & G4 & G5 & G6).
  destruct (read_rc e =? 0); [by unfold session_inv; rewrite Hst2; split_and!|].
  set (d3 := d2{{capture := false; audio := _}}).
  destruct (tny_dictation_wav_valid (Some (audio d3))) eqn:Ew; cbn [negb]; [|by apply complete_inv].
  set (d4 := d3{{state := TRANSCRIBING}}). unfold session_inv. change (state d4) with TRANSCRIBING. cbv iota.
  change (job d4) with (job d2). rewrite Hj2. by split_and!.
Qed.

Lemma transcript_step_inv m e d :
  fresh d -> capture d = false -> audio d = [] -> (m -> text_oom d = false) -> session_inv m (transcript_step e d).
Proof.
  intros (F1 & F2 & F3 & F4 & F5 & b & F6) Hc Hau Ho. unfold transcript_step.
  destruct (tny_dictation_text_valid (text d)) eqn:Ev; cbn [negb]; [|by apply complete_inv].
  set (d1 := d{{norm := _}}). assert (norm d1 = tny_norm_step (tny_norm_init b) EV_STT_VALID) as En.
  { change (norm d1) with (tny_norm_step (norm d) EV_STT_VALID). by rewrite F6. }
  destruct b; cbn [tny_norm_step tny_norm_init phase enabled outcome] in En; rewrite En; cbn [phase norm_done];
    [|by apply complete_inv].
  set (d2 := d1{{job := false}}). destruct (raw_ok e).
  - set (d3 := d2{{raw := _; state := _}}). unfold session_inv. change (state d3) with NORMALIZING. cbv iota.
    change (norm_job d3) with (norm_job d). change (target_ready d3) with (target_ready d). rewrite F1, F2.
    split_and!; try done. unfold rewriting. change (norm d3) with (norm d1). rewrite En.
    split_and!; try done. by left.
  - (* the transcript is kept although it could not be copied *)
    unfold norm_event. set (d3 := d2{{norm := _}}).
    assert (norm d3 = norm_done (norm d1) NORM_RAW) as En3.
    { change (norm d3) with (tny_norm_step (norm d1) EV_FAILED). unfold tny_norm_step. by rewrite En. }
    destruct (norm_settle_raw e d3 (Some B"out_of_memory")) as (S1 & S2 & S3 & S4 & S5 & S6);
      [by rewrite En3|by rewrite En3|].
    unfold session_inv. rewrite S1. split_and!; [done|exists false; left; by rewrite S4|].
    intros H0. by rewrite S6.
Qed.

Lemma transcribe_step_inv m e d :
  state d = TRANSCRIBING -> session_inv m d -> (m -> stt_oom e = false) -> session_inv m (transcribe_step e d).
Proof.
  intros Hst Hi Hm. unfold session_inv in Hi. rewrite Hst in Hi. destruct Hi as (Hf & Hc & Ho & Hj).
  unfold transcribe_step. pose proof Hf as (F1 & F2 & F3 & F4 & F5 & F6).
  set (d1 := match (if job d then None else Some (stt_start e)) with None => d | Some r => _ end).
  assert (fresh d1 /\ capture d1 = false /\ (m -> text_oom d1 = false) /\ state d1 = TRANSCRIBING /\ audio d1 = [])
    as (Hf1 & Hc1 & Ho1 & Hst1 & Ha1).
  { subst d1. destruct (job d); by split_and!. }
  assert (Hgo : session_inv m (let d := d1{{text := text d1 ++ stt_text e; text_oom := text_oom d1 || stt_oom e}} in
    if stt_rc e <? 0 then d
    else if negb (stt_rc e =? 0) then
      complete (d{{norm := tny_norm_step (norm d) EV_STT_FAILED; error := stt_error e}}) (stt_rc e)
    else transcript_step e d) \/ job d1 = false).
  { destruct (job d1) eqn:Ej; [left|by right]. cbv zeta. set (d2 := d1{{text := _; text_oom := _}}).
    assert (m -> text_oom d2 = false) as Ho2.
    { intros H. change (text_oom d2) with (text_oom d1 || stt_oom e). by rewrite Ho1, Hm. }
    pose proof Hf1 as (G1 & G2 & G3 & G4 & G5 & G6).
    destruct (Z.ltb_spec (stt_rc e) 0).
    - unfold session_inv. change (state d2) with (state d1). rewrite Hst1.
      change (job d2) with (job d1). rewrite Ej. by split_and!.
    - destruct (Z.eqb_spec (stt_rc e) 0); cbn [negb]; [by apply transcript_step_inv|].
      apply complete_inv; [done|done|]. intros. lia. }
  subst d1. destruct (job d) eqn:Ej.
  - destruct Hgo as [Hgo|Hgo]; [exact Hgo|congruence].
  - destruct (stt_start e) as [r|] eqn:Es; [by apply complete_inv|].
    destruct Hgo as [Hgo|Hgo]; [exact Hgo|done].
Qed.

Lemma act_inv m jparse a d :
  session_inv m d -> (m -> memory_ok a) -> exists d', act jparse a d = Some d' /\ session_inv m d'.
Proof.
  intros Hi Hm. destruct a as [e| |e]; cbn [act].
  - unfold tny_dictation_step. destruct (state d) eqn:Est; [| | |by exists d].
    all: destruct (cancelled e); [eexists; split; [done|by apply cancel_inv]|].
    + by apply record_step_inv.
    + eexists. split; [done|]. apply transcribe_step_inv; [done|done|]. intros H. by destruct (Hm H).
    + pose proof Hi as Hn. unfold session_inv in Hn. rewrite Est in Hn.
      destruct (norm_step_after m jparse e d Est Hn) as (d' & E & Ha & _); [intros H; by destruct (Hm H)|].
      exists d'. split; [done|]. eapply after_inv; [exact Ha|]. by destruct Hn as (_ & _ & _ & _ & _ & _ & ? & _).
  - eexists. split; [done|]. unfold tny_dictation_finish. destruct (state d) eqn:Est; [|done..].
    unfold session_inv in Hi. rewrite Est in Hi. set (d1 := d{{stopping := true}}).
    unfold session_inv. change (state d1) with (state d). by rewrite Est.
  - eexists. split; [done|by apply cancel_inv].
Qed.

(** Requests do not decrease a settled session; a done session stays as it is. *)
Lemma done_absorbing jparse a d : state d = DONE -> act jparse a d = Some d.
Proof.
  intros H. destruct a; cbn [act]; unfold tny_dictation_step, tny_dictation_finish, tny_dictation_cancel; by rewrite H.
Qed.

Lemma run_done jparse acts d : state d = DONE -> run jparse acts d = Some d.
Proof.
  intros H. induction acts as [|a acts IH]; [done|]. cbn [run]. by rewrite done_absorbing.
Qed.

Lemma run_inv m jparse acts d :
  session_inv m d -> (m -> Forall memory_ok acts) -> exists d', run jparse acts d = Some d' /\ session_inv m d'.
Proof.
  revert d. induction acts as [|a acts IH]; intros d Hi Hm; [by exists d|].
  destruct (act_inv m jparse a d Hi) as (d1 & E & H1); [intros H; exact (Forall_inv (Hm H))|].
  cbn [run]. rewrite E. apply (IH d1 H1). intros H. exact (Forall_inv_tail (Hm H)).
Qed.

Lemma start_inv m e r d : tny_dictation_start e r = inr d -> session_inv m d.
Proof.
  unfold tny_dictation_start.
  do 2 (match goal with |- (if ?b then inl _ else _) = _ -> _ => destruct b; [done|] end).
  match goal with |- (if ?b then inl _ else _) = _ -> _ => destruct b eqn:Hb; [done|] end.
  destruct (unavailable e); [done|].
  destruct (start_cancelled e); [done|]. destruct (input_file r) as [f|].
  - intros [= <-]. cbn in Hb. unfold session_inv, fresh. cbn. split_and!; try done; [by eexists|].
    destruct (wav e) as [w|]; [|done]. cbn. by apply negb_false_iff in Hb.
  - destruct (header_ok e); [|done]. destruct (capture_err e); [done|]. cbn [negb]. intros [= <-].
    unfold session_inv, fresh. cbn. split_and!; try done. by eexists.
Qed.

(** ** Lemmas: a rewrite comes to an end *)

(** The steps that find an answer, or nothing yet to wait for. *)
Definition progress (a : action) : bool :=
  match a with
  | Step e => 0 <=? job_rc e
  | _ => false
  end.

Lemma act_after m jparse a d :
  state d = NORMALIZING -> norm_inv m d -> (m -> memory_ok a) ->
  exists d', act jparse a d = Some d' /\
    after m (raw d) (budget d - (if progress a then 1 else 0)) d'.
Proof.
  intros Hst Hi Hm. pose proof Hi as (H1 & H2 & H3 & H4 & H5 & H6 & H7 & H8 & Hr).
  assert (forall e, settled m (raw d) (norm_event e d EV_CANCEL B"cancelled")) as Hcancel.
  { intros e. apply norm_event_raw; try done; [by destruct Hr|by right; right|by apply rewriting_starts]. }
  destruct a as [e| |e]; cbn [act progress].
  - unfold tny_dictation_step. rewrite Hst. unfold tny_dictation_cancel. rewrite Hst.
    destruct (cancelled e); [eexists; split; [done|by right]|].
    destruct (norm_step_after m jparse e d Hst Hi) as (d' & E & Ha & Hp); [intros H; by destruct (Hm H)|].
    exists d'. split; [done|]. destruct (Z.leb_spec 0 (job_rc e)); [by apply Hp|].
    by rewrite Nat.sub_0_r.
  - eexists. split; [done|]. unfold tny_dictation_finish. rewrite Hst. left. split_and!; try done. lia.
  - eexists. split; [done|]. unfold tny_dictation_cancel. rewrite Hst. by right.
Qed.

Lemma run_after m jparse acts d :
  state d = NORMALIZING -> norm_inv m d -> (m -> Forall memory_ok acts) ->
  exists d', run jparse acts d = Some d' /\
    (settled m (raw d) d' \/
     (state d' = NORMALIZING /\ raw d' = raw d /\ (length (List.filter progress acts) < budget d)%nat)).
Proof.
  revert d. induction acts as [|a acts IH]; intros d Hst Hi Hm.
  - exists d. split; [done|right]. split_and!; [done|done|]. cbn. unfold budget.
    destruct (target_ready d), (effort (norm d)); lia.
  - destruct (act_after m jparse a d Hst Hi) as (d1 & E & Ha); [intros H; exact (Forall_inv (Hm H))|].
    cbn [run]. rewrite E. cbn [mbind option_bind]. destruct Ha as [(Hst1 & Hi1 & Er & Hb)|Hset].
    + destruct (IH d1 Hst1 Hi1) as (d' & E' & H'); [intros H; exact (Forall_inv_tail (Hm H))|].
      exists d'. split; [done|]. rewrite Er in H'. destruct H' as [H'|(H2 & H3 & H4)]; [by left|right].
      split_and!; [done|done|]. cbn [List.filter]. destruct (progress a); cbn [length]; lia.
    + exists d1. split; [by apply run_done; destruct Hset|by left].
Qed.

(** ** Properties *)

(** From any start, no order of steps, stops and cancellations ever reads a
    microphone or polls a rewrite request that is not there; the speech service
    is only ever given a valid recording; a finished session has released
    everything it held, has made at most two rewrite requests, the second
    without the effort field, never changes again, and a successful one
    delivers valid text. *)
Theorem dictation_session_safe (jparse : bytes -> option jval) (e : start_env) (r : tny_dictation_request)
    (d0 : tny_dictation) (acts : list action) (H0 : tny_dictation_start e r = inr d0) :
  exists d, run jparse acts d0 = Some d /\
  match state d with
  | TRANSCRIBING => job d = false -> tny_dictation_wav_valid (Some (audio d)) = true
  | DONE => released d /\ starts_ok d /\ (forall a, act jparse a d = Some d) /\
      (rc d = 0 -> tny_dictation_text_valid (text d) = true)
  | _ => True
  end.
Proof.
  destruct (run_inv False jparse acts d0 (start_inv False e r d0 H0) ltac:(done)) as (d & E & Hi).
  exists d. split; [done|]. unfold session_inv in Hi. destruct (state d) eqn:Hst; try done.
  - destruct Hi as (_ & _ & _ & Hi). intros Hj. by rewrite Hj in Hi.
  - destruct Hi as (H1 & H2 & H3). split_and!; try done. intros a. by apply done_absorbing.
Qed.

(** C24: once a transcript has been recognised, the rewrite can only help: as
    long as memory suffices to keep it, whatever services answer, in whatever
    order and with cancellation at any moment, the session ends successfully
    with that transcript or with a rewrite of it that the verifier's
    specification accepts; it does end, after at most three steps that do not
    find a request still pending. *)
Theorem transcript_never_lost (jparse : bytes -> option jval) (e : start_env) (r : tny_dictation_request)
    (d0 d : tny_dictation) (acts1 acts2 : list action) (H0 : tny_dictation_start e r = inr d0)
    (H1 : run jparse acts1 d0 = Some d) (Hst : state d = NORMALIZING)
    (Hmem : Forall memory_ok (acts1 ++ acts2)) :
  exists d', run jparse acts2 d = Some d' /\ raw d' = raw d /\
  match state d' with
  | NORMALIZING => (length (List.filter progress acts2) < 3)%nat
  | DONE => rc d' = 0 /\
      (text d' = raw d \/ exists dic p, NormVerify.accepted dic (raw d) p /\ text d' = NormVerify.text p)
  | _ => False
  end.
Proof.
  apply Forall_app in Hmem as [Hm1 Hm2].
  destruct (run_inv True jparse acts1 d0 (start_inv True e r d0 H0)) as (d' & E & Hi); [done|].
  rewrite H1 in E. injection E as <-. unfold session_inv in Hi. rewrite Hst in Hi.
  destruct (run_after True jparse acts2 d Hst Hi) as (d' & E & H); [done|]. exists d'. split; [done|].
  destruct H as [(Hd & Hr & _ & _ & Hrc)|(Hd & Hr & Hb)]; rewrite Hd.
  - split; [done|]. destruct Hrc as [[? ?]|[_ []]]; done.
  - split; [done|]. assert (budget d <= 3)%nat by (unfold budget; destruct (target_ready d), (effort (norm d)); lia). lia.
Qed.

(** ** Concrete instances: a file is transcribed as "dont stop ann", the first
    rewrite request has its effort field refused, the second is answered *)

Definition demo_wav : bytes := finish_wav (replicate 44 0 ++ replicate 48000 7).

Definition demo_start : start_env :=
  mk_start_env true (mk_config true true true false) (Some demo_wav) None false true None.
Definition demo_request : tny_dictation_request := mk_dictation_request (Some B"a.wav") None 0.

Definition demo_answer : jval :=
  JObj [(B"text", JStr B"dont stop Ann");
        (B"corrections", JArr [JObj [(B"span", JStr B"ann"); (B"replacement", JStr B"Ann"); (B"reason", JStr B"case")]])].
Definition demo_jparse (b : bytes) : option jval := if bool_decide (b = B"!") then Some demo_answer else None.

(** What a step meets when it only has to wait for [rc] and [out]. *)
Definition demo_env (rc : Z) (out : bytes) : env :=
  mk_env false false 0 [] [] None 0 B"dont stop ann" false [] true (Some []) true false None rc out B""
    true (fun _ => true) true true true.

Definition demo_before : list action := [Step (demo_env (-1) [])].
Definition demo_after : list action := [Step (demo_env (-1) []); Step (demo_env 3 []); Step (demo_env (-1) []); Step (demo_env 0 B"!")].

Definition demo_session : tny_dictation :=
  mk_session 0 TRANSCRIBING false false false demo_wav [] false (-1) [] (tny_norm_init true)
    (mk_config true true true false) false [] None [] [] false false false [] [].

Definition demo_rewriting : tny_dictation := default demo_session (run demo_jparse demo_before demo_session).

Lemma demo_start_ok : tny_dictation_start demo_start demo_request = inr demo_session.
Proof.
  assert (tny_dictation_wav_valid (Some demo_wav) = true) as E by (vm_compute; reflexivity).
  unfold tny_dictation_start, demo_start, demo_request. cbn [wav mem settings unavailable start_cancelled input_file req_seconds device].
  rewrite E. reflexivity.
Qed.

Lemma demo_before_ok : run demo_jparse demo_before demo_session = Some demo_rewriting.
Proof. vm_compute. reflexivity. Qed.

Example dictation_session_safe_witness :
  exists d, run demo_jparse (demo_before ++ demo_after) demo_session = Some d /\
  match state d with
  | TRANSCRIBING => job d = false -> tny_dictation_wav_valid (Some (audio d)) = true
  | DONE => released d /\ starts_ok d /\ (forall a, act demo_jparse a d = Some d) /\
      (rc d = 0 -> tny_dictation_text_valid (text d) = true)
  | _ => True
  end.
Proof.
  exact (dictation_session_safe demo_jparse demo_start demo_request demo_session
    (demo_before ++ demo_after) demo_start_ok).
Defined.

Example transcript_never_lost_witness :
  (text <$> run demo_jparse demo_after demo_rewriting) = Some B"dont stop Ann" /\
  exists d', run demo_jparse demo_after demo_rewriting = Some d' /\ raw d' = raw demo_rewriting /\
  match state d' with
  | NORMALIZING => (length (List.filter progress demo_after) < 3)%nat
  | DONE => rc d' = 0 /\
      (text d' = raw demo_rewriting \/
       exists dic p, NormVerify.accepted dic (raw demo_rewriting) p /\ text d' = NormVerify.text p)
  | _ => False
  end.
Proof.
  split; [vm_compute; reflexivity|].
  apply (transcript_never_lost demo_jparse demo_start demo_request demo_session demo_rewriting
    demo_before demo_after demo_start_ok demo_before_ok).
  - vm_compute. reflexivity.
  - repeat apply Forall_cons; try (split; reflexivity). apply Forall_nil.
Defined.
