(* ===== verification/Admission.v ===== *)
(** Shared launch admission (src/src/core/admission.c): the append-only ledger
    of claims, its transactions, its file, and a whole request. *)
From S2P Require Import Prelude Decimal Json JsonText.

Open Scope Z_scope.

(** ** Data *)

Definition TNY_ADMISSION_HISTORY_MAX : nat := 1024.
Definition TNY_ADMISSION_QUEUE_MAX : Z := 128.

Record tny_admission_scope := mk_scope {
  root : option bytes; label : option bytes; provider_scope : option bytes;
  cap : Z; queue_cap : Z; claim_limit : Z }.

Record tny_admission_attempt := mk_attempt { run : bytes; task : Z; attempt : Z }.

Inductive tny_admission_op := INIT | CLAIM | INSPECT | CANCEL | OP_HOLD | RELEASE.

Inductive tny_admission_reason :=
  | READY | GRANTED | ADMISSION_OWNED | QUEUED_CAPACITY | QUEUED_FIFO | QUEUE_FULL | EXHAUSTED
  | HISTORY_FULL | ADMISSION_CANCELED | CLEANUP_HOLD | ADMISSION_RELEASED | NOT_FOUND | BUSY.

Record tny_admission_result := mk_result {
  reason : tny_admission_reason; ticket : Z; r_claims : Z; r_active : Z; r_queued : Z }.

(** The states WAITING = 0 to CANCELED = 4. *)
Inductive entry_state := WAITING | OWNED | HOLD | RELEASED | CANCELED.

(** An entry is an attempt and its state. *)
Record entry := mk_entry { id : tny_admission_attempt; state : entry_state }.

Record ledger := mk_ledger {
  entries : list entry; claims : Z; active : Z; queued : Z }.

Inductive errno := EINVAL | ENOTSUP | EDEADLK | ENOMEM | EIO | ENOENT | EPERM | Errno (n : Z).

#[export] Instance entry_state_eq : EqDecision entry_state.
Proof. solve_decision. Defined.
#[export] Instance op_eq : EqDecision tny_admission_op.
Proof. solve_decision. Defined.
#[export] Instance reason_eq : EqDecision tny_admission_reason.
Proof. solve_decision. Defined.
#[export] Instance attempt_eq : EqDecision tny_admission_attempt.
Proof. solve_decision. Defined.

Definition is_op (op op' : tny_admission_op) : bool := bool_decide (op = op').
Definition in_state (e : entry) (st : entry_state) : bool := bool_decide (state e = st).

Definition public_id (s : option bytes) : bool :=
  match s with
  | None | Some [] => false
  | Some s => if (63 <? length s)%nat then false
              else forallb (fun c => is_alnum c || (c =? C"-") || (c =? C"_")) s
  end.

Definition number (obj : option jval) (key : bytes) : option Z :=
  match jget obj key with
  | Some (JNum (JUint n)) => Some n
  | _ => None
  end.

Definition same (e : entry) (a : tny_admission_attempt) : bool :=
  (task (id e) =? task a) && (attempt (id e) =? attempt a) && str_eq (run (id e)) (run a).

(** ** The file *)

Definition state_code (st : entry_state) : Z :=
  match st with WAITING => 0 | OWNED => 1 | HOLD => 2 | RELEASED => 3 | CANCELED => 4 end.

Definition state_of (n : Z) : option entry_state :=
  List.find (fun st => state_code st =? n) [WAITING; OWNED; HOLD; RELEASED; CANCELED].

Definition ledger0 : ledger := mk_ledger [] 0 0 0.

(** The [sum] of errors and ledgers is the return code and [*l]. *)
Definition load_entry (v : jval) (l : ledger) : errno + ledger :=
  let e :=
    match v with
    | JObj ms =>
      match jget (Some v) B"run" with
      | Some (JStr i) =>
        if negb (length ms =? 4)%nat || negb (public_id (Some (c_str i))) ||
           negb (length i =? length (c_str i))%nat then None
        else
          t ← number (Some v) B"task"; k ← number (Some v) B"attempt"; st ← number (Some v) B"state";
          if (UINT32_MAX <? t) || (k =? 0) || (UINT32_MAX <? k) then None
          else st ← state_of st; Some (mk_entry (mk_attempt i t k) st)
      | _ => None
      end
    | _ => None
    end in
  match e with
  | None => inl EIO
  | Some e =>
    if existsb (fun e' => same e' (id e)) (entries l) then inl EIO
    else inr (mk_ledger (entries l ++ [e])
      (if in_state e OWNED || in_state e HOLD || in_state e RELEASED then u64 (claims l + 1) else claims l)
      (if in_state e OWNED || in_state e HOLD then u32 (active l + 1) else active l)
      (if in_state e WAITING then u32 (queued l + 1) else queued l))
  end.

Fixpoint load_entries (vs : list jval) (l : ledger) : errno + ledger :=
  match vs with
  | [] => inr l
  | v :: vs => match load_entry v l with inl e => inl e | inr l => load_entries vs l end
  end.

Definition load_doc (doc : jval) (s : tny_admission_scope) : errno + ledger :=
  match doc with
  | JObj ms =>
    if negb (length ms =? 6)%nat then inl EIO
    else
      match number (Some doc) B"version", number (Some doc) B"cap", number (Some doc) B"queue_cap",
            number (Some doc) B"claim_limit", number (Some doc) B"claims" with
      | Some version, Some c, Some queue, Some limit, Some n =>
        if negb (version =? 1) then inl EIO
        else if negb (c =? cap s) || negb (queue =? queue_cap s) || negb (limit =? claim_limit s)
        then inl EINVAL
        else
          match jget (Some doc) B"entries" with
          | Some (JArr vs) =>
            if (TNY_ADMISSION_HISTORY_MAX <? length vs)%nat then inl EIO
            else match load_entries vs ledger0 with
                 | inl e => inl e
                 | inr l =>
                   if negb (claims l =? n) || (limit <? n) || (c <? active l) || (queue <? queued l)
                   then inl EIO else inr l
                 end
          | _ => inl EIO
          end
      | _, _, _, _, _ => inl EIO
      end
  | _ => inl EIO
  end.

(** [tny_admission_host_read]: the regular file's bytes, 1 to 256 KiB of them;
    [err] is a system call that fails although the file is there. *)
Definition admission_host_read (err : option errno) (file : option bytes) : errno + bytes :=
  match file with
  | None => inl ENOENT
  | Some b =>
    match err with
    | Some e => inl e
    | None => if (Z.of_nat (length b) <=? 0) || (262144 <? Z.of_nat (length b)) then inl EIO else inr b
    end
  end.

Definition load (jparse : bytes -> option jval) (err : option errno) (file : option bytes)
    (s : tny_admission_scope) : errno + ledger :=
  match admission_host_read err file with
  | inl e => inl e
  | inr b => match jparse b with None => inl EIO | Some doc => load_doc doc s end
  end.

Definition entry_text (e : entry) : bytes :=
  C"{" :: quote B"run" ++ C":" :: quote (run (id e)) ++ C"," :: quote B"task" ++ C":" :: dec (task (id e)) ++
  C"," :: quote B"attempt" ++ C":" :: dec (attempt (id e)) ++
  C"," :: quote B"state" ++ C":" :: dec (state_code (state e)) ++ [C"}"].

(** The loop over entries, a comma before all but the first. *)
Fixpoint entries_text (first : bool) (es : list entry) : bytes :=
  match es with
  | [] => []
  | e :: es => (if first then [] else [C","]) ++ entry_text e ++ entries_text false es
  end.

(** The bytes [save] writes. *)
Definition save_text (s : tny_admission_scope) (l : ledger) : bytes :=
  C"{" :: quote B"version" ++ B":1," ++ quote B"cap" ++ C":" :: dec (cap s) ++
  C"," :: quote B"queue_cap" ++ C":" :: dec (queue_cap s) ++
  C"," :: quote B"claim_limit" ++ C":" :: dec (claim_limit s) ++
  C"," :: quote B"claims" ++ C":" :: dec (claims l) ++
  C"," :: quote B"entries" ++ B":[" ++ entries_text true (entries l) ++ B"]}" ++ [LF].

(** ** Transactions *)

Definition status (l : ledger) (idx : nat) : tny_admission_reason :=
  match state <$> entries l !! idx with
  | Some OWNED => ADMISSION_OWNED
  | Some HOLD => CLEANUP_HOLD
  | Some RELEASED => ADMISSION_RELEASED
  | Some CANCELED => ADMISSION_CANCELED
  | _ => if negb (active l =? 0) then QUEUED_CAPACITY else QUEUED_FIFO
  end.

Definition counts (l : ledger) (out : tny_admission_result) : tny_admission_result :=
  mk_result (reason out) (ticket out) (claims l) (active l) (queued l).

Definition with_reason (out : tny_admission_result) (r : tny_admission_reason) :=
  mk_result r (ticket out) (r_claims out) (r_active out) (r_queued out).
Definition with_ticket (out : tny_admission_result) (t : Z) :=
  mk_result (reason out) t (r_claims out) (r_active out) (r_queued out).

(** The search loop: the first entry of the attempt, or the end. *)
Fixpoint find_entry (es : list entry) (a : tny_admission_attempt) : nat :=
  match es with
  | [] => O
  | e :: es => if same e a then O else S (find_entry es a)
  end.

(** [while (first < idx && entries[first].state != WAITING) first++] *)
Fixpoint first_waiting (es : list entry) (idx : nat) : nat :=
  match idx, es with
  | S i, e :: es => if in_state e WAITING then O else S (first_waiting es i)
  | _, _ => O
  end.

Definition set_state (es : list entry) (idx : nat) (st : entry_state) : list entry :=
  alter (fun e => mk_entry (id e) st) idx es.

(** What a transaction leaves: return code, ledger, [*out], [*dirty]. *)
Record tx := mk_tx { rc : option errno; led : ledger; out : tny_admission_result; dirty : bool }.

(** The last part: a waiting entry is granted, or the reason says why not. *)
Definition try_grant (s : tny_admission_scope) (op : tny_admission_op) (t : tx) (idx : nat) : tx :=
  let l := led t in
  let o := with_reason (out t) (status l idx) in
  let t := mk_tx None l o (dirty t) in
  if negb (bool_decide (state <$> entries l !! idx = Some WAITING)) then t
  else if claims l =? claim_limit s then mk_tx None l (with_reason o EXHAUSTED) (dirty t)
  else if cap s <=? active l then mk_tx None l (with_reason o QUEUED_CAPACITY) (dirty t)
  else if is_op op CLAIM && (first_waiting (entries l) idx =? idx)%nat
  then mk_tx None
         (mk_ledger (set_state (entries l) idx OWNED) (u64 (claims l + 1)) (u32 (active l + 1)) (u32 (queued l - 1)))
         (with_reason o GRANTED) true
  else mk_tx None l (with_reason o QUEUED_FIFO) (dirty t).

(** The middle part: cancellation, hold and release of the entry at [idx]. *)
Definition settle (s : tny_admission_scope) (op : tny_admission_op) (proof : bool) (t : tx) (idx : nat) : tx :=
  let l := led t in
  let t := mk_tx None l (with_ticket (out t) (Z.of_nat idx + 1)) (dirty t) in
  match state <$> entries l !! idx with
  | Some st =>
    if is_op op CANCEL && bool_decide (st = WAITING)
    then try_grant s op (mk_tx None
           (mk_ledger (set_state (entries l) idx CANCELED) (claims l) (active l) (u32 (queued l - 1))) (out t) true) idx
    else if (is_op op CANCEL || is_op op OP_HOLD) && bool_decide (st = OWNED)
    then try_grant s op (mk_tx None
           (mk_ledger (set_state (entries l) idx HOLD) (claims l) (active l) (queued l)) (out t) true) idx
    else if is_op op RELEASE && (bool_decide (st = OWNED) || bool_decide (st = HOLD))
    then if negb proof then mk_tx (Some EPERM) l (out t) (dirty t)
         else try_grant s op (mk_tx None
           (mk_ledger (set_state (entries l) idx RELEASED) (claims l) (u32 (active l - 1)) (queued l)) (out t) true) idx
    else try_grant s op t idx
  | None => t
  end.

Definition transact (s : tny_admission_scope) (a : tny_admission_attempt) (op : tny_admission_op)
    (proof : bool) (l : ledger) (o : tny_admission_result) : tx :=
  let idx := find_entry (entries l) a in
  if (idx =? length (entries l))%nat then
    if negb (is_op op CLAIM) && negb (is_op op CANCEL)
    then mk_tx None l (with_reason o NOT_FOUND) false
    else if is_op op CLAIM && (claim_limit s <=? claims l)
    then mk_tx None l (with_reason o EXHAUSTED) false
    else if (length (entries l) =? TNY_ADMISSION_HISTORY_MAX)%nat
    then mk_tx None l (with_reason o HISTORY_FULL) false
    else if is_op op CLAIM && (queued l =? queue_cap s)
    then mk_tx None l (with_reason o QUEUE_FULL) false
    else
      let st := if is_op op CANCEL then CANCELED else WAITING in
      settle s op proof (mk_tx None
        (mk_ledger (entries l ++ [mk_entry a st]) (claims l) (active l)
           (if bool_decide (st = WAITING) then u32 (queued l + 1) else queued l)) o true) idx
  else settle s op proof (mk_tx None l o false) idx.

(** ** A request *)

Inductive lock_outcome := ACQUIRED | LOCK_BUSY | LOCK_FAILED (e : errno).

(** A write either replaces the file or fails; after a failure the new
    contents may have reached the disk all the same. *)
Inductive write_outcome := Written | WriteFailed (e : errno) (reached : bool).

(** What the host does in one request. *)
Record host := mk_host {
  execution_supported : bool; mem : bool; prepare : option errno; lock_open : option errno;
  lock_try : lock_outcome; read_err : option Z; text_mem : bool; write : write_outcome }.

Definition save (h : host) (s : tny_admission_scope) (l : ledger) (file : option bytes) :
    option errno * option bytes :=
  if negb (text_mem h) then (Some ENOMEM, file)
  else match write h with
       | Written => (None, Some (save_text s l))
       | WriteFailed e reached => (Some e, if reached then Some (save_text s l) else file)
       end.

Definition scope_valid (s : tny_admission_scope) : bool :=
  negb (bool_decide (root s = None)) && negb (bool_decide (root s = Some [])) && public_id (label s) &&
  public_id (provider_scope s) && negb (cap s =? 0) && (cap s <=? TNY_ADMISSION_QUEUE_MAX) &&
  negb (queue_cap s =? 0) && (queue_cap s <=? TNY_ADMISSION_QUEUE_MAX) && negb (claim_limit s =? 0).

Definition attempt_valid (a : option tny_admission_attempt) : bool :=
  match a with
  | Some a => public_id (Some (run a)) && negb (attempt a =? 0)
  | None => false
  end.

(** Return code, [*out] and the scope's state file. The lock is advisory and
    exclusive, so the requests that get it run one after another. *)
Definition tny_admission_apply (jparse : bytes -> option jval) (h : host) (s : option tny_admission_scope)
    (a : option tny_admission_attempt) (op : tny_admission_op) (nested proof : bool) (file : option bytes) :
    option errno * tny_admission_result * option bytes :=
  let o := mk_result READY 0 0 0 0 in
  match s with
  | None => (Some EINVAL, o, file)
  | Some s =>
    if negb (scope_valid s) || (negb (is_op op INIT) && negb (attempt_valid a)) then (Some EINVAL, o, file)
    else if negb (execution_supported h) then (Some ENOTSUP, o, file)
    else if is_op op CLAIM && nested then (Some EDEADLK, o, file)
    else if negb (mem h) then (Some ENOMEM, o, file)
    else match (if is_op op INIT then prepare h else None) with
    | Some e => (Some e, o, file)
    | None =>
      match lock_open h, lock_try h with
      | Some e, _ => (Some e, o, file)
      | None, LOCK_BUSY => (None, with_reason o BUSY, file)
      | None, LOCK_FAILED e => (Some e, o, file)
      | None, ACQUIRED =>
        let loaded :=
          match load jparse (Errno <$> read_err h) file s with
          | inl ENOENT => if is_op op INIT then inr (ledger0, true) else inl ENOENT
          | inl e => inl e
          | inr l => inr (l, false)
          end in
        match loaded with
        | inl e => (Some e, o, file)
        | inr (l, d) =>
          let t := match a with
                   | Some a => if is_op op INIT then mk_tx None l o d else transact s a op proof l o
                   | None => mk_tx None l o d
                   end in
          match rc t with
          | Some e => (Some e, out t, file)
          | None =>
            let '(r, file) := if dirty t then save h s (led t) file else (None, file) in
            match r with
            | Some e => (Some e, out t, file)
            | None => (None, counts (led t) (out t), file)
            end
          end
        end
      end
    end
  end.

Definition tny_admission_reason_name (r : tny_admission_reason) : bytes :=
  match r with
  | READY => B"ready" | GRANTED => B"granted" | ADMISSION_OWNED => B"owned"
  | QUEUED_CAPACITY => B"queued_capacity" | QUEUED_FIFO => B"queued_fifo" | QUEUE_FULL => B"queue_full"
  | EXHAUSTED => B"exhausted" | HISTORY_FULL => B"history_full" | ADMISSION_CANCELED => B"canceled"
  | CLEANUP_HOLD => B"cleanup_hold" | ADMISSION_RELEASED => B"released" | NOT_FOUND => B"not_found"
  | BUSY => B"busy"
  end.

(** ** Specifications *)

Definition waiting (e : entry) : bool := in_state e WAITING.
(** Holds capacity. *)
Definition running (e : entry) : bool := in_state e OWNED || in_state e HOLD.
(** Was granted once. *)
Definition claimed (e : entry) : bool := running e || in_state e RELEASED.

Definition tally (p : entry -> bool) (es : list entry) : Z := Z.of_nat (length (List.filter p es)).

Definition attempt_ok (a : tny_admission_attempt) : Prop :=
  public_id (Some (run a)) = true /\ 0 <= task a <= UINT32_MAX /\ 1 <= attempt a <= UINT32_MAX.

Definition scope_ok (s : tny_admission_scope) : Prop :=
  1 <= cap s <= TNY_ADMISSION_QUEUE_MAX /\ 1 <= queue_cap s <= TNY_ADMISSION_QUEUE_MAX /\
  1 <= claim_limit s <= SIZE_MAX.

Record ledger_ok (s : tny_admission_scope) (l : ledger) : Prop := mk_ledger_ok {
  ok_distinct : NoDup (map id (entries l));
  ok_attempts : Forall (fun e => attempt_ok (id e)) (entries l);
  ok_length : (length (entries l) <= TNY_ADMISSION_HISTORY_MAX)%nat;
  ok_claims : claims l = tally claimed (entries l);
  ok_active : active l = tally running (entries l);
  ok_queued : queued l = tally waiting (entries l);
  ok_limit : claims l <= claim_limit s;
  ok_cap : active l <= cap s;
  ok_queue : queued l <= queue_cap s }.

Definition has (p : entry -> bool) (es : list entry) (a : tny_admission_attempt) : Prop :=
  exists e, In e es /\ id e = a /\ p e = true.

(** ** Lemmas: entries *)

(** The three classes of each state. *)
Lemma flags e st : state e = st ->
  claimed e = match st with OWNED | HOLD | RELEASED => true | _ => false end /\
  running e = match st with OWNED | HOLD => true | _ => false end /\
  waiting e = match st with WAITING => true | _ => false end.
Proof. unfold claimed, running, waiting, in_state. intros ->. by destruct st. Qed.


Lemma same_true e a : same e a = true <-> id e = a.
Proof.
  unfold same. rewrite !andb_true_iff, !Z.eqb_eq, str_eq_true. destruct e as [[r t k] st], a; cbn.
  split; [intros [[-> ->] ->]; done|intros [= -> -> ->]; done].
Qed.

Lemma find_entry_cases es a :
  (find_entry es a = length es /\ ~ In a (map id es)) \/
  (exists e, es !! find_entry es a = Some e /\ id e = a /\ (find_entry es a < length es)%nat).
Proof.
  induction es as [|e es IH]; cbn; [left; split; [done|by intros []]|]. destruct (same e a) eqn:E.
  - right. exists e. apply same_true in E. split_and!; [done|done|lia].
  - assert (id e <> a) by (intros H%same_true; congruence).
    destruct IH as [[E1 E2]|(e' & E1 & E2 & E3)]; [left|right].
    + split; [lia|]. intros [?|?]; done.
    + exists e'. split_and!; [done|done|lia].
Qed.

Lemma tally_app p es fs : tally p (es ++ fs) = tally p es + tally p fs.
Proof. unfold tally. rewrite List.filter_app, length_app. lia. Qed.

Lemma tally_cons p e es : tally p (e :: es) = (if p e then 1 else 0) + tally p es.
Proof. unfold tally. cbn. destruct (p e); cbn [length]; lia. Qed.

Lemma tally_nonneg p es : 0 <= tally p es.
Proof. unfold tally. lia. Qed.

Lemma tally_length p es : tally p es <= Z.of_nat (length es).
Proof. unfold tally. pose proof (List.filter_length_le p es). lia. Qed.

(** Updating the state of the entry at [idx]. *)
Lemma set_state_split es idx st e :
  es !! idx = Some e ->
  exists pre post, es = pre ++ e :: post /\ length pre = idx /\
    set_state es idx st = pre ++ mk_entry (id e) st :: post.
Proof.
  intros H. destruct (list_elem_of_split_length es idx e H) as (pre & post & -> & ->).
  exists pre, post. split_and!; [done|done|]. unfold set_state.
  rewrite <- (Nat.add_0_r (length pre)) at 1. by rewrite alter_app_r.
Qed.

Lemma set_state_tally p es idx st e :
  es !! idx = Some e ->
  tally p (set_state es idx st) =
  tally p es - (if p e then 1 else 0) + (if p (mk_entry (id e) st) then 1 else 0).
Proof.
  intros (pre & post & -> & _ & ->)%(set_state_split _ _ st).
  rewrite !tally_app, !tally_cons. lia.
Qed.

Lemma set_state_ids es idx st : map id (set_state es idx st) = map id es.
Proof.
  destruct (es !! idx) as [e|] eqn:E.
  - apply (set_state_split _ _ st) in E as (pre & post & -> & _ & ->). by rewrite !map_app.
  - unfold set_state. enough (alter (fun e => mk_entry (id e) st) idx es = es) as -> by done.
    apply list_eq. intros i. destruct (decide (i = idx)) as [->|].
    + by rewrite list_lookup_alter_eq, E.
    + by rewrite list_lookup_alter_ne.
Qed.

Lemma set_state_length es idx st : length (set_state es idx st) = length es.
Proof. apply length_alter. Qed.

Lemma set_state_has p es idx st e b :
  es !! idx = Some e -> has p es b ->
  has p (set_state es idx st) b \/ (b = id e /\ p e = true /\ p (mk_entry (id e) st) = false).
Proof.
  intros (pre & post & -> & _ & ->)%(set_state_split _ _ st) (e' & Hin & Hid & Hp).
  apply in_app_or in Hin as [Hin|[->|Hin]].
  - left. exists e'. split_and!; [apply in_or_app; by left|done..].
  - destruct (p (mk_entry (id e') st)) eqn:E; [left|by right].
    eexists. split_and!; [apply in_or_app; right; by left|done|done].
  - left. exists e'. split_and!; [apply in_or_app; right; by right|done..].
Qed.

Lemma set_state_has_new p es idx st e :
  es !! idx = Some e -> p (mk_entry (id e) st) = true -> has p (set_state es idx st) (id e).
Proof.
  intros (pre & post & -> & _ & ->)%(set_state_split _ _ st) Hp.
  eexists. split_and!; [apply in_or_app; right; by left|done|done].
Qed.

(** The identities are distinct, so an attempt's state is unique. *)
Lemma has_lookup p es idx e :
  NoDup (map id es) -> es !! idx = Some e -> has p es (id e) -> p e = true.
Proof.
  intros Hnd He (e' & Hin & Hid & Hp). enough (e' = e) as -> by done.
  apply list_elem_of_In, list_elem_of_lookup in Hin as [j Hj].
  assert (j = idx) as ->; [|congruence].
  apply (NoDup_lookup (map id es) j idx (id e)); [done| |]; rewrite list_lookup_fmap.
  - by rewrite Hj, <- Hid.
  - by rewrite He.
Qed.

Lemma ok_state_update s l idx e st n m q :
  ledger_ok s l -> entries l !! idx = Some e ->
  n = tally claimed (entries l) - (if claimed e then 1 else 0) + (if claimed (mk_entry (id e) st) then 1 else 0) ->
  m = tally running (entries l) - (if running e then 1 else 0) + (if running (mk_entry (id e) st) then 1 else 0) ->
  q = tally waiting (entries l) - (if waiting e then 1 else 0) + (if waiting (mk_entry (id e) st) then 1 else 0) ->
  n <= claim_limit s -> m <= cap s -> q <= queue_cap s ->
  ledger_ok s (mk_ledger (set_state (entries l) idx st) n m q).
Proof.
  intros [H1 H2 H3 H4 H5 H6 H7 H8 H9] He -> -> -> Hn Hm Hq. split; cbn; rewrite ?set_state_ids, ?set_state_length; try done.
  - apply (set_state_split _ _ st) in He as (pre & post & E & _ & ->). rewrite E in H2.
    apply Forall_app in H2 as [Ha Hb]. apply Forall_app. split; [done|].
    apply Forall_cons; [exact (Forall_inv Hb)|exact (Forall_inv_tail Hb)].
  - by rewrite (set_state_tally claimed _ _ st e).
  - by rewrite (set_state_tally running _ _ st e).
  - by rewrite (set_state_tally waiting _ _ st e).
Qed.

(** ** Lemmas: transactions *)

Lemma status_not_granted l idx : status l idx <> GRANTED.
Proof. unfold status. by destruct (state <$> entries l !! idx) as [[]|]; [case_if| | | | |case_if]. Qed.

(** What stays the same when nothing is granted. *)
Definition not_granted (t t' : tx) : Prop :=
  rc t' = None /\ led t' = led t /\ dirty t' = dirty t /\ reason (out t') <> GRANTED.

Lemma try_grant_other s op t idx : op <> CLAIM -> not_granted t (try_grant s op t idx).
Proof.
  intros H. unfold try_grant, not_granted. unfold is_op. rewrite (bool_decide_eq_false_2 (op = CLAIM)) by done.
  pose proof (status_not_granted (led t) idx). cbn [andb]. repeat case_if; by cbn.
Qed.

(** When a claim is granted. *)
Definition grantable (s : tny_admission_scope) (l : ledger) (idx : nat) : Prop :=
  (exists e, entries l !! idx = Some e /\ state e = WAITING) /\
  claims l < claim_limit s /\ active l < cap s /\ first_waiting (entries l) idx = idx.

Definition granted_ledger (l : ledger) (idx : nat) : ledger :=
  mk_ledger (set_state (entries l) idx OWNED) (claims l + 1) (active l + 1) (queued l - 1).

Lemma tally_pos p es idx e : es !! idx = Some e -> p e = true -> 1 <= tally p es.
Proof.
  intros (pre & post & -> & _ & _)%(set_state_split _ _ WAITING) Hp.
  rewrite tally_app, tally_cons, Hp. pose proof (tally_nonneg p pre). pose proof (tally_nonneg p post). lia.
Qed.

Lemma ledger_small s l : ledger_ok s l ->
  0 <= claims l <= 1024 /\ 0 <= active l <= 1024 /\ 0 <= queued l <= 1024.
Proof.
  intros [_ _ H3 -> -> -> _ _ _]. unfold TNY_ADMISSION_HISTORY_MAX in H3.
  pose proof (tally_length claimed (entries l)). pose proof (tally_length running (entries l)).
  pose proof (tally_length waiting (entries l)). unfold tally in *. lia.
Qed.

Lemma granted_ok s l idx e :
  ledger_ok s l -> entries l !! idx = Some e -> state e = WAITING ->
  claims l < claim_limit s -> active l < cap s ->
  ledger_ok s (granted_ledger l idx).
Proof.
  intros Hok He Hw Hl Hc. pose proof Hok as [_ _ _ H4 H5 H6 _ _ H9].
  destruct (flags e WAITING Hw) as (E1 & E2 & E3).
  apply (ok_state_update s l idx e OWNED); rewrite ?E1, ?E2, ?E3; try done; try lia;
    change (claimed (mk_entry (id e) OWNED)) with true; change (running (mk_entry (id e) OWNED)) with true;
    change (waiting (mk_entry (id e) OWNED)) with false; cbv iota; lia.
Qed.

Lemma try_grant_claim s t idx :
  ledger_ok s (led t) ->
  (grantable s (led t) idx /\
   try_grant s CLAIM t idx =
     mk_tx None (granted_ledger (led t) idx) (with_reason (with_reason (out t) (status (led t) idx)) GRANTED) true /\
   ledger_ok s (granted_ledger (led t) idx)) \/
  (~ grantable s (led t) idx /\ not_granted t (try_grant s CLAIM t idx)).
Proof.
  intros Hok. pose proof (ledger_small s _ Hok) as Hs. pose proof Hok as [_ _ _ H4 H5 H6 H7 H8 H9].
  unfold try_grant, not_granted, grantable. pose proof (status_not_granted (led t) idx).
  destruct (entries (led t) !! idx) as [e|] eqn:He; cbn [fmap option_fmap option_map].
  2: { right. split; [by intros ((e & ? & _) & _)|]. by rewrite bool_decide_eq_false_2 by done. }
  destruct (decide (state e = WAITING)) as [Hw|Hw].
  2: { right. split; [intros ((e' & [= <-] & ?) & _); done|]. rewrite bool_decide_eq_false_2 by congruence. by cbn. }
  rewrite bool_decide_eq_true_2 by congruence. cbn [negb].
  destruct (Z.eqb_spec (claims (led t)) (claim_limit s)); [right; split; [lia|by cbn]|].
  destruct (Z.leb_spec (cap s) (active (led t))); [right; split; [lia|by cbn]|].
  change (is_op CLAIM CLAIM) with true. cbn [andb].
  destruct (Nat.eqb_spec (first_waiting (entries (led t)) idx) idx); [left|right; split; [tauto|by cbn]].
  assert (1 <= queued (led t)).
  { rewrite H6. apply (tally_pos _ _ idx e He). unfold waiting, in_state. by rewrite Hw. }
  split; [split_and!; [by exists e|lia|lia|done]|]. split.
  - unfold granted_ledger. rewrite u64_small by (unfold SIZE_MAX; lia).
    by rewrite !u32_small by (unfold UINT32_MAX; lia).
  - apply (granted_ok s _ idx e); [done..|lia|lia].
Qed.

(** What a step of a transaction of [a] may do. *)
Record effect (op : tny_admission_op) (proof : bool) (a : tny_admission_attempt) (t t' : tx) : Prop :=
  mk_effect {
  eff_clean : dirty t' = false -> dirty t = false /\ led t' = led t;
  eff_claimed : forall b, has claimed (entries (led t)) b -> has claimed (entries (led t')) b;
  eff_running : forall b, has running (entries (led t)) b -> has running (entries (led t')) b \/
                          (b = a /\ op = RELEASE /\ proof = true);
  eff_granted : reason (out t') = GRANTED ->
    op = CLAIM /\ rc t' = None /\ dirty t' = true /\
    ~ has claimed (entries (led t)) a /\ has running (entries (led t')) a }.

Lemma has_app_l p es fs b : has p es b -> has p (es ++ fs) b.
Proof. intros (e & ? & ? & ?). exists e. split_and!; [apply in_or_app; by left|done..]. Qed.

Lemma running_claimed es b : has running es b -> has claimed es b.
Proof. intros (e & ? & ? & H). exists e. split_and!; [done..|]. unfold claimed. by rewrite H. Qed.

Lemma not_granted_effect op proof a t t' : not_granted t t' -> effect op proof a t t'.
Proof. intros (Hrc & Hl & Hd & Hg). split; rewrite ?Hl, ?Hd; by auto. Qed.

(** Taking the entry at [idx] from one state to another, nothing granted. *)
Lemma settled_effect op proof a t t1 t' idx e st :
  entries (led t) !! idx = Some e -> id e = a ->
  (claimed e = true -> claimed (mk_entry (id e) st) = true) ->
  (running e = true -> running (mk_entry (id e) st) = true \/ (op = RELEASE /\ proof = true)) ->
  entries (led t1) = set_state (entries (led t)) idx st -> dirty t1 = true -> not_granted t1 t' ->
  effect op proof a t t'.
Proof.
  intros He Ha Hc Hr Hl Hd (Hrc & Hl' & Hd' & Hg).
  split; rewrite ?Hl', ?Hl.
  - rewrite Hd', Hd. done.
  - intros b Hb. destruct (set_state_has claimed _ _ st e b He Hb) as [|(-> & H1 & H2)]; [done|].
    rewrite (Hc H1) in H2. done.
  - intros b Hb. destruct (set_state_has running _ _ st e b He Hb) as [|(-> & H1 & H2)]; [by left|].
    destruct (Hr H1) as [H|[-> ->]]; [congruence|by right].
  - done.
Qed.

Lemma granted_effect proof t t' idx e o :
  ledger_ok (mk_scope None None None (active (led t)) (queued (led t)) (claims (led t))) (led t) ->
  entries (led t) !! idx = Some e -> state e = WAITING ->
  t' = mk_tx None (granted_ledger (led t) idx) o true ->
  effect CLAIM proof (id e) t t'.
Proof.
  intros Hok He Hw ->. destruct (flags e WAITING Hw) as (E1 & E2 & _). split; cbn; try done.
  - intros b Hb. destruct (set_state_has claimed _ _ OWNED e b He Hb) as [|(_ & H & _)]; [done|congruence].
  - intros b Hb. destruct (set_state_has running _ _ OWNED e b He Hb) as [|(_ & H & _)]; [by left|congruence].
  - intros _. split_and!; try done.
    + intros H. apply (has_lookup claimed _ idx e (ok_distinct _ _ Hok) He) in H. congruence.
    + by apply (set_state_has_new running _ _ OWNED e He).
Qed.

(** The invariant does not depend on the scope beyond its three bounds. *)
Lemma ledger_ok_self s l :
  ledger_ok s l -> ledger_ok (mk_scope None None None (active l) (queued l) (claims l)) l.
Proof. intros [? ? ? ? ? ? ? ? ?]. by split. Qed.

Lemma try_grant_effect s op proof t idx e :
  ledger_ok s (led t) -> entries (led t) !! idx = Some e ->
  ledger_ok s (led (try_grant s op t idx)) /\ effect op proof (id e) t (try_grant s op t idx).
Proof.
  intros Hok He. destruct (decide (op = CLAIM)) as [->|Hop].
  - destruct (try_grant_claim s t idx Hok) as [(Hg & E & Hok')|(_ & Hn)].
    + destruct Hg as [(e' & He' & Hw) _]. rewrite He in He'. injection He' as <-.
      rewrite E. split; [done|]. eapply (granted_effect proof t _ idx e); [|done..].
      by apply (ledger_ok_self s).
    + split; [|by apply not_granted_effect]. destruct Hn as (_ & -> & _). done.
  - pose proof (try_grant_other s op t idx Hop) as Hn. split; [|by apply not_granted_effect].
    destruct Hn as (_ & -> & _). done.
Qed.

(** Settles the comparisons of two constructors. *)
Ltac decide_closed :=
  repeat match goal with
  | |- context [bool_decide ?P] =>
    let b := eval vm_compute in (bool_decide P) in change (bool_decide P) with b
  end; cbn [andb orb negb].

(** The three classes of an entry just put in a state. *)
Ltac decide_state :=
  repeat match goal with
  | |- context [?p (mk_entry ?i ?st)] =>
    let b := eval vm_compute in (p (mk_entry (mk_attempt [] 0 0) st)) in change (p (mk_entry i st)) with b
  end; cbv iota.

(** The entry at [idx] goes to [st]; the new counters are right. *)
Lemma settled op proof s t idx e st o n m q :
  op <> CLAIM -> ledger_ok s (led t) -> entries (led t) !! idx = Some e ->
  (claimed e = true -> claimed (mk_entry (id e) st) = true) ->
  (running e = true -> running (mk_entry (id e) st) = true \/ (op = RELEASE /\ proof = true)) ->
  n = claims (led t) - (if claimed e then 1 else 0) + (if claimed (mk_entry (id e) st) then 1 else 0) ->
  m = active (led t) - (if running e then 1 else 0) + (if running (mk_entry (id e) st) then 1 else 0) ->
  q = queued (led t) - (if waiting e then 1 else 0) + (if waiting (mk_entry (id e) st) then 1 else 0) ->
  n <= claim_limit s -> m <= cap s -> q <= queue_cap s ->
  let t1 := mk_tx None (mk_ledger (set_state (entries (led t)) idx st) n m q) o true in
  ledger_ok s (led (try_grant s op t1 idx)) /\ effect op proof (id e) t (try_grant s op t1 idx).
Proof.
  intros Hop Hok He Hc Hr Hn Hm Hq Ln Lm Lq t1. pose proof Hok as [_ _ _ H4 H5 H6 _ _ _].
  pose proof (try_grant_other s op t1 idx Hop) as Hg. split.
  - destruct Hg as (_ & -> & _). cbn. apply (ok_state_update s (led t) idx e st); congruence || done.
  - by eapply (settled_effect op proof (id e) t t1 _ idx e st).
Qed.

Lemma settle_effect s op proof t idx e :
  ledger_ok s (led t) -> reason (out t) <> GRANTED -> entries (led t) !! idx = Some e ->
  ledger_ok s (led (settle s op proof t idx)) /\ effect op proof (id e) t (settle s op proof t idx).
Proof.
  intros Hok Hr He. pose proof (ledger_small s _ Hok) as Hsm. pose proof Hok as [_ _ _ H4 H5 H6 H7 H8 H9].
  unfold settle. rewrite He. cbn [fmap option_fmap option_map].
  set (t0 := mk_tx None (led t) _ (dirty t)).
  assert (ledger_ok s (led (try_grant s op t0 idx)) /\ effect op proof (id e) t (try_grant s op t0 idx)) as Hsame.
  { destruct (try_grant_effect s op proof t0 idx e Hok He) as [? [? ? ? ?]]. split; [done|]. by split. }
  pose proof (tally_pos waiting _ idx e He) as Hpw. pose proof (tally_pos running _ idx e He) as Hpr.
  destruct (state e) eqn:Est; destruct (flags e _ Est) as (E1 & E2 & E3);
    rewrite ?E1, ?E2, ?E3 in *; destruct op; unfold is_op; decide_closed; try exact Hsame;
    try (destruct proof; cbn [negb]; [|split; [done|split; cbn; auto; done]]);
    apply settled; rewrite ?E1, ?E2, ?E3; try done; try (by auto); decide_state; try lia.
  all: try specialize (Hpw eq_refl); try specialize (Hpr eq_refl);
    rewrite u32_small by (unfold UINT32_MAX; lia); lia.
Qed.

Lemma has_snoc p es e b : has p (es ++ [e]) b -> p e = false -> has p es b.
Proof.
  intros (e' & [Hin|[->|[]]]%in_app_or & ? & ?) Hp; [by exists e'|congruence].
Qed.

(** Enrolling an attempt that the ledger does not have. *)
Lemma enrol_ok s l a st q :
  ledger_ok s l -> attempt_ok a -> ~ In a (map id (entries l)) ->
  (length (entries l) < TNY_ADMISSION_HISTORY_MAX)%nat -> (st = WAITING \/ st = CANCELED) ->
  q = queued l + (if bool_decide (st = WAITING) then 1 else 0) -> q <= queue_cap s ->
  ledger_ok s (mk_ledger (entries l ++ [mk_entry a st]) (claims l) (active l) q).
Proof.
  intros [H1 H2 H3 H4 H5 H6 H7 H8 H9] Ha Hn Hl Hst -> Hq.
  split; cbn [entries claims active queued]; rewrite ?map_app, ?length_app, ?tally_app, ?tally_cons; cbn [map length]; try done.
  - apply list.NoDup_app. split_and!; [done| |apply list.NoDup_singleton].
    intros x Hx ->%list_elem_of_singleton. by apply Hn, list_elem_of_In.
  - apply Forall_app. split; [done|]. by apply Forall_cons.
  - lia.
  - unfold tally at 2. cbn [List.filter length]. destruct Hst as [-> | ->]; decide_state; lia.
  - unfold tally at 2. cbn [List.filter length]. destruct Hst as [-> | ->]; decide_state; lia.
  - unfold tally at 2. cbn [List.filter length]. destruct Hst as [-> | ->]; decide_closed; decide_state; lia.
Qed.

Lemma effect_trans op proof a t0 t1 t2 :
  (forall p b, has p (entries (led t0)) b -> has p (entries (led t1)) b) -> dirty t1 = true ->
  effect op proof a t1 t2 -> effect op proof a t0 t2.
Proof.
  intros Hm Hd [E1 E2 E3 E4]. split.
  - intros H. destruct (E1 H) as [H' _]. congruence.
  - auto.
  - auto.
  - intros H. destruct (E4 H) as (? & ? & ? & Hn & ?). split_and!; auto.
Qed.

(** Every transaction keeps the ledger's invariant; it withdraws no claim, frees
    no capacity without proof, and grants only what was never granted. *)
Lemma transact_effect s a op proof l o :
  ledger_ok s l -> attempt_ok a -> reason o <> GRANTED ->
  ledger_ok s (led (transact s a op proof l o)) /\
  effect op proof a (mk_tx None l o false) (transact s a op proof l o).
Proof.
  intros Hok Ha Ho. pose proof (ledger_small s _ Hok) as Hsm. unfold transact.
  assert (forall r, r <> GRANTED -> ledger_ok s l /\
    effect op proof a (mk_tx None l o false) (mk_tx None l (with_reason o r) false)) as Hno.
  { intros r Hr. split; [done|]. by apply not_granted_effect. }
  destruct (find_entry_cases (entries l) a) as [[E Hn]|(e & He & <- & Hlt)].
  2: { rewrite (proj2 (Nat.eqb_neq _ _)) by lia. by apply settle_effect. }
  rewrite E, Nat.eqb_refl. repeat (case_if; [by apply Hno|]). boolify.
  set (st := if is_op op CANCEL then CANCELED else WAITING).
  set (l1 := mk_ledger _ _ _ _). set (t1 := mk_tx None l1 o true).
  assert (Hok1 : ledger_ok s l1).
  { apply (enrol_ok s l a st); try done.
    - pose proof (ok_length _ _ Hok). apply Nat.eqb_neq in Heqb1. lia.
    - subst st. destruct (is_op op CANCEL); auto.
    - subst st. destruct op; unfold is_op; decide_closed; rewrite ?u32_small by (unfold UINT32_MAX; lia); lia.
    - pose proof (ok_queue _ _ Hok). subst st. revert Heqb Heqb2.
      destruct op; unfold is_op; decide_closed; cbv iota; decide_closed; intros; boolify; try done;
        rewrite ?u32_small by (unfold UINT32_MAX; lia); lia. }
  assert (He : entries (led t1) !! length (entries l) = Some (mk_entry a st)).
  { cbn. by rewrite lookup_app_r, Nat.sub_diag. }
  destruct (settle_effect s op proof t1 _ _ Hok1 Ho He) as [? Hf]. split; [done|].
  apply (effect_trans op proof a _ t1); [|done|exact Hf]. intros p b. apply has_app_l.
Qed.

(** ** Lemmas: the file *)

Definition entry_json (e : entry) : jval :=
  JObj [(B"run", JStr (run (id e))); (B"task", JNum (JUint (task (id e))));
        (B"attempt", JNum (JUint (attempt (id e)))); (B"state", JNum (JUint (state_code (state e))))].

Definition state_json (s : tny_admission_scope) (l : ledger) : jval :=
  JObj [(B"version", JNum (JUint 1)); (B"cap", JNum (JUint (cap s)));
        (B"queue_cap", JNum (JUint (queue_cap s))); (B"claim_limit", JNum (JUint (claim_limit s)));
        (B"claims", JNum (JUint (claims l))); (B"entries", JArr (map entry_json (entries l)))].

Lemma alnum_plain c : is_alnum c || (c =? C"-") || (c =? C"_") = true ->
  plain_char c = true /\ (c =? NUL) = false.
Proof.
  unfold plain_char, is_alnum, is_alpha, is_upper, is_lower, is_digit. rewrite Z.eqb_neq.
  intros H. split; lia.
Qed.

Lemma public_id_spec i : public_id (Some i) = true ->
  (length i <= 63)%nat /\ forallb plain_char i = true /\ c_str i = i.
Proof.
  unfold public_id. destruct i as [|c i]; [done|]. case_if; [done|]. apply Nat.ltb_ge in Heqb.
  intros H. split; [done|]. revert H. clear Heqb. generalize (c :: i). intros x.
  induction x as [|d x IH]; [done|]. cbn [forallb c_str].
  intros [Hd Hx]%andb_true_iff. destruct (alnum_plain d Hd) as [-> ->]. destruct (IH Hx) as [-> E].
  cbn [andb]. by rewrite E.
Qed.

Lemma entry_text_render e : attempt_ok (id e) -> entry_text e = render (entry_json e).
Proof.
  intros (Hp & _). destruct (public_id_spec _ Hp) as (_ & Hq & _). unfold entry_text, entry_json.
  cbn [render map commas]. rewrite literal_plain by done. by norm_app.
Qed.

Lemma entries_text_render es :
  Forall (fun e => attempt_ok (id e)) es -> entries_text true es = commas (map render (map entry_json es)).
Proof.
  assert (forall e es, Forall (fun e => attempt_ok (id e)) (e :: es) -> entry_text e ++ entries_text false es = commas (map render (map entry_json (e :: es)))) as H.
  { intros e es'. revert e. induction es' as [|e' es' IH]; intros e.
    - intros He%Forall_inv. cbn [entries_text map commas]. by rewrite app_nil_r, entry_text_render.
    - intros [He Hes]%Forall_cons_iff. cbn [entries_text app map]. rewrite commas_cons, <- entry_text_render by done.
      do 2 f_equal. by apply IH. }
  destruct es as [|e es]; [done|]. cbn [entries_text app]. apply H.
Qed.

Lemma save_text_render s l : ledger_ok s l -> save_text s l = render (state_json s l) ++ replicate 1 LF.
Proof.
  intros [_ Hes _ _ _ _ _ _ _]. unfold save_text, state_json. cbn [render map commas]. rewrite entries_text_render by done.
  change (dec 1) with B"1". by norm_app.
Qed.

Lemma state_of_code st : state_of (state_code st) = Some st.
Proof. by destruct st. Qed.

Lemma entry_json_fields e :
  jget (Some (entry_json e)) B"run" = Some (JStr (run (id e))) /\
  number (Some (entry_json e)) B"task" = Some (task (id e)) /\
  number (Some (entry_json e)) B"attempt" = Some (attempt (id e)) /\
  number (Some (entry_json e)) B"state" = Some (state_code (state e)).
Proof. unfold number, entry_json. cbn [jget assoc]. by split_and!; vm_compute. Qed.

Lemma load_entry_json e l :
  attempt_ok (id e) -> ~ In (id e) (map id (entries l)) ->
  0 <= claims l <= 1024 -> 0 <= active l <= 1024 -> 0 <= queued l <= 1024 ->
  load_entry (entry_json e) l = inr (mk_ledger (entries l ++ [e]) (claims l + tally claimed [e])
    (active l + tally running [e]) (queued l + tally waiting [e])).
Proof.
  intros (Hp & Ht & Hk) Hn H1 H2 H3. unfold load_entry.
  destruct (entry_json_fields e) as (E1 & E2 & E3 & E4).
  destruct (public_id_spec _ Hp) as (_ & _ & Ec). unfold entry_json at 1.
  rewrite E1, E2, E3, E4, Ec, Hp, !Nat.eqb_refl. cbn [length Nat.eqb negb orb mbind option_bind].
  rewrite (proj2 (Z.ltb_ge UINT32_MAX (task (id e)))), (proj2 (Z.ltb_ge UINT32_MAX (attempt (id e)))) by lia.
  rewrite (proj2 (Z.eqb_neq (attempt (id e)) 0)) by lia. cbn [orb]. rewrite state_of_code. cbn [mbind option_bind].
  replace (mk_entry (mk_attempt (run (id e)) (task (id e)) (attempt (id e))) (state e)) with e
    by (by destruct e as [[]]).
  assert (existsb (fun e' => same e' (id e)) (entries l) = false) as ->.
  { apply not_true_iff_false. rewrite existsb_exists. intros (e' & Hin & Hs%same_true).
    apply Hn. rewrite <- Hs. by apply in_map. }
  rewrite !tally_cons. change (tally claimed []) with 0. change (tally running []) with 0.
  change (tally waiting []) with 0. f_equal.
  destruct (state e) eqn:Est; destruct (flags e _ Est) as (-> & -> & ->);
    unfold in_state; rewrite Est; decide_closed; f_equal;
    rewrite ?u64_small, ?u32_small by (unfold SIZE_MAX, UINT32_MAX; lia); lia.
Qed.

Lemma load_entries_json es l :
  NoDup (map id (entries l ++ es)) -> Forall (fun e => attempt_ok (id e)) es ->
  (length (entries l ++ es) <= TNY_ADMISSION_HISTORY_MAX)%nat ->
  claims l = tally claimed (entries l) -> active l = tally running (entries l) ->
  queued l = tally waiting (entries l) ->
  load_entries (map entry_json es) l = inr (mk_ledger (entries l ++ es) (tally claimed (entries l ++ es))
    (tally running (entries l ++ es)) (tally waiting (entries l ++ es))).
Proof.
  revert l. induction es as [|e es IH]; intros l Hnd Hok Hl H1 H2 H3; cbn [map load_entries].
  - rewrite app_nil_r. destruct l; cbn in *; congruence.
  - assert (tally claimed (entries l) <= 1024 /\ tally running (entries l) <= 1024 /\ tally waiting (entries l) <= 1024) as (? & ? & ?).
    { unfold TNY_ADMISSION_HISTORY_MAX in Hl. rewrite length_app in Hl.
      pose proof (tally_length claimed (entries l)). pose proof (tally_length running (entries l)).
      pose proof (tally_length waiting (entries l)). lia. }
    pose proof (tally_nonneg claimed (entries l)). pose proof (tally_nonneg running (entries l)).
    pose proof (tally_nonneg waiting (entries l)).
    rewrite load_entry_json; [|exact (Forall_inv Hok)| |lia..].
    + rewrite IH; cbn [entries claims active queued];
        [by rewrite <- app_assoc|by rewrite <- app_assoc|exact (Forall_inv_tail Hok)|by rewrite <- app_assoc
        |rewrite tally_app; lia..].
    + rewrite map_app in Hnd. apply list.NoDup_app in Hnd as (_ & Hd & _). intros Hin.
      apply (Hd (id e)); [by apply list_elem_of_In|]. cbn. left.
Qed.

Lemma state_json_fields s l :
  number (Some (state_json s l)) B"version" = Some 1 /\
  number (Some (state_json s l)) B"cap" = Some (cap s) /\
  number (Some (state_json s l)) B"queue_cap" = Some (queue_cap s) /\
  number (Some (state_json s l)) B"claim_limit" = Some (claim_limit s) /\
  number (Some (state_json s l)) B"claims" = Some (claims l) /\
  jget (Some (state_json s l)) B"entries" = Some (JArr (map entry_json (entries l))).
Proof. unfold number, state_json. cbn [jget assoc]. by split_and!; vm_compute. Qed.

Definition same_bounds (s s' : tny_admission_scope) : bool :=
  (cap s =? cap s') && (queue_cap s =? queue_cap s') && (claim_limit s =? claim_limit s').

Lemma load_doc_json s s' l :
  ledger_ok s l ->
  load_doc (state_json s l) s' = if same_bounds s s' then inr l else inl EINVAL.
Proof.
  intros [H1 H2 H3 H4 H5 H6 H7 H8 H9]. unfold load_doc.
  destruct (state_json_fields s l) as (E1 & E2 & E3 & E4 & E5 & E6). unfold state_json at 1.
  rewrite E1, E2, E3, E4, E5, E6. cbn [length Nat.eqb negb]. change (1 =? 1) with true. cbn [negb].
  unfold same_bounds.
  destruct (cap s =? cap s'), (queue_cap s =? queue_cap s'), (claim_limit s =? claim_limit s'); cbn [negb orb andb]; try done.
  rewrite length_map, (proj2 (Nat.ltb_ge _ _)) by lia.
  rewrite load_entries_json by done. cbn [app claims active queued entries ledger0].
  rewrite <- H4, <- H5, <- H6, Z.eqb_refl, (proj2 (Z.ltb_ge (claim_limit s) _)), (proj2 (Z.ltb_ge (cap s) _)),
    (proj2 (Z.ltb_ge (queue_cap s) _)) by lia.
  by destruct l.
Qed.

Lemma state_json_plain s l : scope_ok s -> ledger_ok s l -> plain (state_json s l) = true.
Proof.
  intros (Hc & Hq & Hl) Hok. pose proof (ledger_small s l Hok). destruct Hok as [_ H2 _ _ _ _ _ _ _].
  unfold state_json. cbn [plain forallb]. unfold TNY_ADMISSION_QUEUE_MAX in *.
  assert (forallb plain (map entry_json (entries l)) = true) as ->.
  { apply forallb_forall. intros v (e & <- & He)%in_map_iff. rewrite Forall_forall in H2.
    destruct (H2 e He) as (Hp & Ht & Hk). destruct (public_id_spec _ Hp) as (_ & Hpl & _).
    unfold entry_json. cbn [plain forallb]. rewrite (plain_text _ Hpl). unfold UINT32_MAX, SIZE_MAX in *.
    rewrite !andb_true_iff, !Z.leb_le. destruct (state e); cbn [state_code]; split_and!; done || lia. }
  unfold SIZE_MAX in *. rewrite !andb_true_iff, !Z.leb_le. split_and!; done || lia.
Qed.

Lemma entry_text_length e : attempt_ok (id e) -> (length (entry_text e) <= 165)%nat.
Proof.
  intros (Hp & Ht & Hk). destruct (public_id_spec _ Hp) as (Hl & _ & _). unfold UINT32_MAX in *.
  pose proof (dec_width64 (task (id e)) ltac:(unfold SIZE_MAX; lia)).
  pose proof (dec_width64 (attempt (id e)) ltac:(unfold SIZE_MAX; lia)).
  pose proof (dec_width64 (state_code (state e)) ltac:(destruct (state e); cbn; unfold SIZE_MAX; lia)).
  unfold entry_text, quote. repeat (cbn [length]; rewrite length_app). cbn [length]. lia.
Qed.

Lemma entries_text_length es b :
  Forall (fun e => attempt_ok (id e)) es -> (length (entries_text b es) <= 166 * length es)%nat.
Proof.
  intros H. revert b. induction H as [|e es He _ IH]; intros b; [done|]. cbn [entries_text length].
  rewrite !length_app. pose proof (entry_text_length e He). specialize (IH false).
  assert (length (if b then [] else [C","]) <= 1)%nat by (destruct b; cbn; lia). lia.
Qed.

Lemma save_text_length s l :
  scope_ok s -> ledger_ok s l -> 0 < Z.of_nat (length (save_text s l)) <= 262144.
Proof.
  intros (Hc & Hq & Hl) Hok. pose proof (ledger_small s l Hok). destruct Hok as [_ H2 H3 _ _ _ _ _ _].
  unfold TNY_ADMISSION_QUEUE_MAX, TNY_ADMISSION_HISTORY_MAX in *.
  pose proof (dec_width64 (cap s) ltac:(unfold SIZE_MAX; lia)).
  pose proof (dec_width64 (queue_cap s) ltac:(unfold SIZE_MAX; lia)).
  pose proof (dec_width64 (claim_limit s) ltac:(lia)).
  pose proof (dec_width64 (claims l) ltac:(unfold SIZE_MAX; lia)).
  pose proof (entries_text_length (entries l) true H2).
  unfold save_text, quote. repeat (cbn [length app]; rewrite ?length_app). lia.
Qed.

Lemma load_save_text jparse `{!JsonReader jparse} s s' l :
  scope_ok s -> ledger_ok s l ->
  load jparse None (Some (save_text s l)) s' = if same_bounds s s' then inr l else inl EINVAL.
Proof.
  intros Hs Hok. unfold load, admission_host_read. pose proof (save_text_length s l Hs Hok).
  rewrite (proj2 (Z.leb_gt _ 0)), (proj2 (Z.ltb_ge 262144 _)) by lia. cbn [orb].
  rewrite save_text_render by done. rewrite jparse_render by (by apply state_json_plain). by apply load_doc_json.
Qed.

(** ** Runs: any number of supervisors, one request after another *)

Record request := mk_request {
  q_scope : option tny_admission_scope; q_attempt : option tny_admission_attempt;
  q_op : tny_admission_op; q_nested : bool; q_proof : bool; q_host : host }.

(** The fields fit their C types. *)
Definition typed (q : request) : Prop :=
  (forall s, q_scope q = Some s -> 0 <= cap s /\ 0 <= queue_cap s /\ 0 <= claim_limit s <= SIZE_MAX) /\
  (forall a, q_attempt q = Some a -> 0 <= task a <= UINT32_MAX /\ 0 <= attempt a <= UINT32_MAX).

Section Runs.
Context (jparse : bytes -> option jval).

Definition answer (q : request) (file : option bytes) :=
  tny_admission_apply jparse (q_host q) (q_scope q) (q_attempt q) (q_op q) (q_nested q) (q_proof q) file.

(** Every request with its answer, and the state file at the end. *)
Fixpoint serve (qs : list request) (file : option bytes) :
    list (request * (option errno * tny_admission_result)) * option bytes :=
  match qs with
  | [] => ([], file)
  | q :: qs =>
    let '(rc, o, file) := answer q file in
    let '(evs, file) := serve qs file in
    ((q, (rc, o)) :: evs, file)
  end.
End Runs.

(** The attempt an answer allows to launch. *)
Definition launch (ev : request * (option errno * tny_admission_result)) : list tny_admission_attempt :=
  let '(q, (rc, o)) := ev in
  match rc with
  | None => if bool_decide (reason o = GRANTED) then option_list (q_attempt q) else []
  | Some _ => []
  end.

(** The attempt a request proves to be cleaned up. *)
Definition cleanup (ev : request * (option errno * tny_admission_result)) : list tny_admission_attempt :=
  let '(q, _) := ev in
  if bool_decide (q_op q = RELEASE) && q_proof q then option_list (q_attempt q) else [].

Definition launched evs := concat (map launch evs).
Definition cleaned evs := concat (map cleanup evs).

(** The launched attempts not known to be cleaned up. *)
Definition live evs : list tny_admission_attempt :=
  List.filter (fun a => negb (bool_decide (a ∈ cleaned evs))) (launched evs).

(** What the state file says of the past launches [la] and clean-ups [cl]. *)
Definition accounted (la cl : list tny_admission_attempt) (file : option bytes) : Prop :=
  match file with
  | None => la = []
  | Some b => exists s l, scope_ok s /\ ledger_ok s l /\ b = save_text s l /\ NoDup la /\
      forall a, In a la -> has claimed (entries l) a /\ (In a cl \/ has running (entries l) a)
  end.

Lemma scope_valid_ok s : scope_valid s = true ->
  0 <= cap s -> 0 <= queue_cap s -> 0 <= claim_limit s <= SIZE_MAX -> scope_ok s.
Proof. unfold scope_valid, scope_ok. rewrite !andb_true_iff, !negb_true_iff, !Z.eqb_neq, !Z.leb_le. lia. Qed.

Lemma ledger0_ok s : scope_ok s -> ledger_ok s ledger0.
Proof. intros (? & ? & ?). by split; cbn; [apply base.NoDup_nil_2|..]; try lia. Qed.

Lemma save_cases h s l file r file' :
  save h s l file = (r, file') ->
  (r <> None /\ file' = file) \/ file' = Some (save_text s l).
Proof.
  unfold save. destruct (text_mem h); cbn [negb]; [|intros [= <- <-]; by left].
  destruct (write h) as [|e []]; intros [= <- <-]; by auto.
Qed.

Lemma accounted_mono la cl cl' file : accounted la cl file -> (forall a, In a cl -> In a cl') -> accounted la cl' file.
Proof.
  destruct file as [b|]; [|done]. intros (s & l & ? & ? & ? & ? & H) Hc.
  exists s, l. split_and!; try done. intros a Ha. destruct (H a Ha) as [? [?|?]]; auto.
Qed.

(** The ledger after a transaction accounts for the launch it granted. *)
Lemma transact_accounted s a op proof l o la cl extra :
  scope_ok s -> ledger_ok s l -> attempt_ok a -> reason o <> GRANTED ->
  NoDup la -> (forall b, In b la -> has claimed (entries l) b /\ (In b cl \/ has running (entries l) b)) ->
  (forall b, In b cl -> In b extra) -> (op = RELEASE -> proof = true -> In a extra) ->
  let t := transact s a op proof l o in
  accounted la extra (Some (save_text s (led t))) /\
  (reason (out t) = GRANTED -> rc t = None /\ dirty t = true /\ accounted (la ++ [a]) extra (Some (save_text s (led t)))).
Proof.
  intros Hs Hok Ha Ho Hnd Hla Hcl Hrel t. destruct (transact_effect s a op proof l o Hok Ha Ho) as [Hok' [E1 E2 E3 E4]].
  fold t in Hok', E1, E2, E3, E4. cbn [led] in *.
  assert (forall b, In b la -> has claimed (entries (led t)) b /\ (In b extra \/ has running (entries (led t)) b)) as Hla'.
  { intros b Hb. destruct (Hla b Hb) as [H1 H2]. split; [by apply E2|].
    destruct H2 as [H2|H2]; [left; auto|]. destruct (E3 b H2) as [?|(-> & ? & ?)]; auto. }
  split; [exists s, (led t); by split_and!|]. intros Hg. destruct (E4 Hg) as (-> & ? & ? & Hn & Hr).
  split_and!; try done. exists s, (led t). split_and!; try done.
  - apply list.NoDup_app. split_and!; [done| |apply list.NoDup_singleton].
    intros b Hb ->%list_elem_of_singleton. apply Hn, Hla. by apply list_elem_of_In.
  - intros b [Hb|[->|[]]]%in_app_or; [by apply Hla'|]. split; [by apply running_claimed|by right].
Qed.

Lemma accounted_failed la cl file q rc o :
  accounted la cl file -> rc <> None \/ reason o <> GRANTED ->
  accounted (la ++ launch (q, (rc, o))) (cl ++ cleanup (q, (rc, o))) file.
Proof.
  intros H Hr. assert (launch (q, (rc, o)) = []) as ->.
  { cbn. destruct rc; [done|]. destruct Hr as [|Hr]; [done|]. by rewrite bool_decide_eq_false_2. }
  rewrite app_nil_r. eapply accounted_mono; [exact H|]. intros a Ha. apply in_or_app. by left.
Qed.

(** Loading under the lock, when the file accounts for the past. *)
Definition loaded jparse (h : host) file s op : errno + (ledger * bool) :=
  match load jparse (Errno <$> read_err h) file s with
  | inl ENOENT => if is_op op INIT then inr (ledger0, true) else inl ENOENT
  | inl e => inl e
  | inr l => inr (l, false)
  end.

Lemma loaded_accounted jparse `{!JsonReader jparse} h file s op l d la cl :
  accounted la cl file -> loaded jparse h file s op = inr (l, d) -> scope_ok s ->
  ledger_ok s l /\ NoDup la /\
  (forall a, In a la -> has claimed (entries l) a /\ (In a cl \/ has running (entries l) a)) /\
  (d = false -> accounted la cl (Some (save_text s l)) /\ file = Some (save_text s l) \/ op = INIT) /\
  (op <> INIT -> d = false).
Proof.
  intros Ha Hl Hs. unfold loaded in Hl. destruct file as [b|].
  - destruct Ha as (s0 & l0 & Hs0 & Hl0 & -> & Hnd & H). unfold load, admission_host_read in Hl.
    destruct (read_err h) as [n|]; cbn [fmap option_fmap option_map] in Hl; [done|].
    fold (admission_host_read None (Some (save_text s0 l0))) in Hl.
    change (match load jparse None (Some (save_text s0 l0)) s with
      | inl ENOENT => if is_op op INIT then inr (ledger0, true) else inl ENOENT
      | inl e => inl e | inr l => inr (l, false) end = inr (l, d)) in Hl.
    rewrite load_save_text in Hl by done. destruct (same_bounds s0 s) eqn:E; [|done].
    injection Hl as -> <-. unfold same_bounds in E. rewrite !andb_true_iff, !Z.eqb_eq in E.
    destruct E as [[E1 E2] E3].
    assert (Hok : ledger_ok s l) by (destruct Hl0; split; congruence || done).
    assert (save_text s0 l = save_text s l) as E by (unfold save_text; by rewrite E1, E2, E3).
    split_and!; try done. intros _. left. rewrite E. split; [|done]. by exists s, l.
  - cbn in Ha, Hl. subst la. unfold is_op in Hl. case_bool_decide; [|done]. injection Hl as <- <-.
    split_and!; try done; [by apply ledger0_ok|apply base.NoDup_nil_2].
Qed.

Lemma answer_accounted jparse `{!JsonReader jparse} q file la cl r0 o file' :
  typed q -> answer jparse q file = (r0, o, file') -> accounted la cl file ->
  accounted (la ++ launch (q, (r0, o))) (cl ++ cleanup (q, (r0, o))) file'.
Proof.
  destruct q as [s a op nested proof h]. intros [Ts Ta] E Hacc. cbn [q_scope q_attempt] in *. unfold answer, tny_admission_apply in E.
  cbn [q_scope q_attempt q_op q_nested q_proof q_host] in E.
  destruct s as [s|]; [|injection E as <- <- <-; apply accounted_failed; by auto].
  destruct (scope_valid s) eqn:Hsv; cbn [negb orb] in E;
    [|injection E as <- <- <-; apply accounted_failed; by auto].
  destruct (Ts s eq_refl) as (T1 & T2 & T3). pose proof (scope_valid_ok s Hsv T1 T2 T3) as Hs.
  destruct (negb (is_op op INIT) && negb (attempt_valid a)) eqn:Hav;
    [injection E as <- <- <-; apply accounted_failed; by auto|].
  destruct (execution_supported h); cbn [negb] in E; [|injection E as <- <- <-; apply accounted_failed; by auto].
  destruct (is_op op CLAIM && nested); [injection E as <- <- <-; apply accounted_failed; by auto|].
  destruct (mem h); cbn [negb] in E; [|injection E as <- <- <-; apply accounted_failed; by auto].
  destruct (if is_op op INIT then prepare h else None); [injection E as <- <- <-; apply accounted_failed; by auto|].
  destruct (lock_open h); [injection E as <- <- <-; apply accounted_failed; by auto|].
  destruct (lock_try h); [|injection E as <- <- <-; apply accounted_failed; by auto..].
  fold (loaded jparse h file s op) in E.
  destruct (loaded jparse h file s op) as [e|[l d]] eqn:El;
    [injection E as <- <- <-; apply accounted_failed; by auto|].
  destruct (loaded_accounted jparse h file s op l d la cl Hacc El Hs) as (Hok & Hnd & Hla & Hfile & Hd).
  set (o0 := mk_result READY 0 0 0 0) in E.
  destruct (decide (op = INIT)) as [->|Hop].
  - assert ((match a with Some a => if is_op INIT INIT then mk_tx None l o0 d else transact s a INIT proof l o0
             | None => mk_tx None l o0 d end) = mk_tx None l o0 d) as Et by (by destruct a).
    rewrite Et in E. cbn [rc dirty led out] in E. destruct d.
    + destruct (save h s l file) as [r f] eqn:Es. apply save_cases in Es.
      assert (accounted la cl f) as Hf.
      { destruct Es as [[_ ->]| ->]; [done|]. by exists s, l. }
      destruct r; injection E as <- <- <-; apply accounted_failed; by auto.
    + injection E as <- <- <-. apply accounted_failed; by auto.
  - destruct a as [a|]; [|unfold is_op in Hav; by rewrite bool_decide_eq_false_2 in Hav].
    unfold is_op in Hav, E. rewrite bool_decide_eq_false_2 in Hav, E by done. cbn [negb andb] in Hav, E.
    apply negb_false_iff in Hav. specialize (Hd Hop) as ->.
    destruct (Hfile eq_refl) as [[Hacc' ->]|]; [|done].
    destruct (Ta a eq_refl) as (Tt & Tk).
    assert (Ha : attempt_ok a).
    { cbn in Hav. apply andb_true_iff in Hav as [? Hk]. apply negb_true_iff, Z.eqb_neq in Hk.
      split_and!; [done|lia..]. }
    set (ev := mk_request (Some s) (Some a) op nested proof h) in *.
    destruct (transact_accounted s a op proof l o0 la cl (cl ++ cleanup (ev, (r0, o))) Hs Hok Ha)
      as [Hmid Hgr]; [done|done|done|intros b Hb; apply in_or_app; by left| |].
    { intros -> ->. apply in_or_app. right. cbn. by left. }
    set (t := transact s a op proof l o0) in *.
    destruct (rc t) as [e|] eqn:Ert.
    { injection E as <- <- <-. apply accounted_failed; [done|left; done]. }
    destruct (dirty t) eqn:Ed.
    + destruct (save h s (led t) (Some (save_text s l))) as [r f] eqn:Es. apply save_cases in Es.
      destruct r as [e|]; injection E as <- <- <-.
      * destruct Es as [[_ ->]| ->]; [apply accounted_failed; [done|left; done]|].
        cbn [launch]. by rewrite app_nil_r.
      * destruct Es as [[? _]| ->]; [done|]. cbn [launch counts reason].
        case_bool_decide as Hg; [|by rewrite app_nil_r].
        destruct (Hgr Hg) as (_ & _ & H). exact H.
    + injection E as <- <- <-. apply accounted_failed; [done|right].
      cbn [counts reason]. intros Hg. by destruct (Hgr Hg) as (_ & [=] & _).
Qed.

(** ** Lemmas: order and counting *)

Lemma first_waiting_iff es idx :
  (idx <= length es)%nat ->
  first_waiting es idx = idx <->
  forall j e, (j < idx)%nat -> es !! j = Some e -> state e <> WAITING.
Proof.
  revert idx. induction es as [|e es IH]; intros [|idx] Hi; cbn [first_waiting length] in *; try lia.
  - split; [lia|done].
  - split; [lia|done].
  - unfold in_state. case_bool_decide as Hw.
    + split; [lia|]. intros H. by destruct (H O e ltac:(lia) eq_refl).
    + rewrite Nat.succ_inj_wd, IH by lia. split.
      * intros H [|j] e' Hj; [by intros [= <-]|]. apply (H j). lia.
      * intros H j e' Hj. apply (H (S j)). lia.
Qed.

Lemma settle_claim s proof t idx :
  entries (led t) !! idx <> None ->
  settle s CLAIM proof t idx =
  try_grant s CLAIM (mk_tx None (led t) (with_ticket (out t) (Z.of_nat idx + 1)) (dirty t)) idx.
Proof.
  intros H. unfold settle. destruct (entries (led t) !! idx) as [e|]; [|done].
  cbn [fmap option_fmap option_map]. unfold is_op. decide_closed. done.
Qed.

Lemma granted_iff s t idx :
  ledger_ok s (led t) -> reason (out (try_grant s CLAIM t idx)) = GRANTED <-> grantable s (led t) idx.
Proof.
  intros Hok. destruct (try_grant_claim s t idx Hok) as [(Hg & -> & _)|(Hg & _ & _ & _ & Hn)]; [by split|].
  by split.
Qed.

Lemma tally_zero p es : tally p es = 0 <-> forall j e, es !! j = Some e -> p e = false.
Proof.
  induction es as [|e es IH]; [done|]. rewrite tally_cons. pose proof (tally_nonneg p es). split.
  - intros H0. assert (p e = false /\ tally p es = 0) as [Hp Hz] by (destruct (p e); lia).
    intros [|j] e'; [by intros [= <-]|]. by apply IH.
  - intros H0. rewrite (H0 O e eq_refl), (proj2 IH); [done|]. intros j e'. apply (H0 (S j)).
Qed.

Lemma distinct_tally p es la :
  NoDup la -> (forall a, In a la -> has p es a) -> Z.of_nat (length la) <= tally p es.
Proof.
  intros Hnd H. unfold tally. rewrite <- (length_map id).
  enough (length la <= length (map id (List.filter p es)))%nat by lia.
  apply NoDup_incl_length; [by apply NoDup_ListNoDup|]. intros a Ha.
  destruct (H a Ha) as (e & Hin & <- & Hp). apply in_map, List.filter_In. by split.
Qed.

Lemma serve_accounted jparse `{!JsonReader jparse} qs file la cl evs file' :
  Forall typed qs -> serve jparse qs file = (evs, file') -> accounted la cl file ->
  accounted (la ++ launched evs) (cl ++ cleaned evs) file'.
Proof.
  intros Ht. revert file la cl evs. induction Ht as [|q qs Hq _ IH]; intros file la cl evs.
  - cbn. intros [= <- <-]. by rewrite !app_nil_r.
  - cbn [serve]. destruct (answer jparse q file) as [[r o] f] eqn:Ea.
    destruct (serve jparse qs f) as [evs1 f1] eqn:Es. intros [= <- <-] H.
    apply (answer_accounted _ _ _ _ _ _ _ _ Hq Ea) in H. apply (IH _ _ _ _ Es) in H.
    unfold launched, cleaned in *. cbn [map concat]. by rewrite !app_assoc.
Qed.

(** ** Properties *)

(** C4: from an empty disk, whatever requests arrive, from any number of
    supervisors, with any scope arguments and whatever the host does (failed
    locks, reads and writes that may still have reached the disk): the state
    file is always the text of a well-formed ledger, no attempt is ever allowed
    to launch twice, at most [claim_limit] launches are ever allowed, and at
    most [cap] of them are not yet proven cleaned up. *)
Theorem admission_run_safe (jparse : bytes -> option jval) `{!JsonReader jparse} (qs : list request)
    (Ht : Forall typed qs) :
  let '(evs, file) := serve jparse qs None in
  NoDup (launched evs) /\
  match file with
  | None => launched evs = []
  | Some b => exists s l, scope_ok s /\ ledger_ok s l /\ b = save_text s l /\
      Z.of_nat (length (launched evs)) <= claim_limit s /\ Z.of_nat (length (live evs)) <= cap s
  end.
Proof.
  destruct (serve jparse qs None) as [evs file] eqn:E.
  pose proof (serve_accounted jparse qs None [] [] evs file Ht E eq_refl) as H. cbn [app] in H.
  destruct file as [b|]; [|cbn in H; rewrite H; by split; [apply base.NoDup_nil_2|]].
  destruct H as (s & l & Hs & Hok & -> & Hnd & H). split; [done|]. exists s, l. split_and!; try done.
  - pose proof (ok_limit _ _ Hok). rewrite (ok_claims _ _ Hok) in *.
    pose proof (distinct_tally claimed (entries l) (launched evs) Hnd ltac:(intros a Ha; by apply H)). lia.
  - pose proof (ok_cap _ _ Hok). rewrite (ok_active _ _ Hok) in *.
    enough (Z.of_nat (length (live evs)) <= tally running (entries l)) by lia.
    apply distinct_tally.
    + unfold live. apply NoDup_ListNoDup, List.NoDup_filter. by apply NoDup_ListNoDup.
    + intros a [Ha Hc]%List.filter_In. destruct (H a Ha) as [_ [Hin|?]]; [|done].
      apply negb_true_iff, bool_decide_eq_false in Hc. by apply list_elem_of_In in Hin.
Qed.

(** A claim is granted exactly when the launch limit and the capacity allow
    one more and the attempt is the oldest waiting one: already enrolled with
    nothing waiting before it, or new with nothing waiting at all. A second
    claim of the same attempt is thus never granted. *)
Theorem claim_granted_iff (s : tny_admission_scope) (l : ledger) (a : tny_admission_attempt) (proof : bool)
    (o : tny_admission_result) (Hs : scope_ok s) (Hok : ledger_ok s l) (Ha : attempt_ok a) :
  reason (out (transact s a CLAIM proof l (with_reason o READY))) = GRANTED <->
  claims l < claim_limit s /\ active l < cap s /\
  ((exists i e, entries l !! i = Some e /\ id e = a /\ state e = WAITING /\
      forall j e', (j < i)%nat -> entries l !! j = Some e' -> state e' <> WAITING) \/
   (~ In a (map id (entries l)) /\ (length (entries l) < TNY_ADMISSION_HISTORY_MAX)%nat /\ queued l = 0)).
Proof.
  pose proof (ledger_small s l Hok). unfold transact.
  destruct (find_entry_cases (entries l) a) as [[E Hn]|(e & He & Eid & Hlt)].
  - rewrite E, Nat.eqb_refl. unfold is_op. decide_closed.
    destruct (Z.leb_spec (claim_limit s) (claims l)); [split; [done|lia]|].
    destruct (Nat.eqb_spec (length (entries l)) TNY_ADMISSION_HISTORY_MAX) as [El|El].
    { split; [done|]. intros (_ & _ & [(i & e & He & <- & _)|(_ & ? & _)]); [|lia].
      destruct Hn. apply in_map. apply list_elem_of_In. by apply list_elem_of_lookup_2 in He. }
    pose proof (ok_length _ _ Hok). pose proof (ok_queued _ _ Hok) as Hq. destruct Hs as (? & ? & ?).
    destruct (Z.eqb_spec (queued l) (queue_cap s)) as [Eq|Eq].
    { split; [done|]. intros (_ & _ & [(i & e & He & <- & _)|(_ & _ & ?)]); [|lia].
      destruct Hn. apply in_map. apply list_elem_of_In. by apply list_elem_of_lookup_2 in He. }
    pose proof (ok_queue _ _ Hok).
    set (l1 := mk_ledger _ _ _ _).
    assert (He1 : entries l1 !! length (entries l) = Some (mk_entry a WAITING)).
    { cbn. by rewrite lookup_app_r, Nat.sub_diag. }
    assert (Hok1 : ledger_ok s l1).
    { apply (enrol_ok s l a WAITING); try done; [lia|by left| |]; decide_closed; cbv iota;
        rewrite u32_small by (unfold UINT32_MAX; lia); lia. }
    rewrite settle_claim by (cbn [led]; by rewrite He1). rewrite granted_iff by done. cbn [led].
    unfold grantable. rewrite first_waiting_iff by (cbn; rewrite length_app; lia).
    change (claims l1) with (claims l). change (active l1) with (active l).
    assert ((forall j e, (j < length (entries l))%nat -> entries l1 !! j = Some e -> state e <> WAITING) <-> queued l = 0) as ->.
    { rewrite Hq, tally_zero. cbn. split.
      - intros Hw j e Hj. unfold waiting, in_state. apply bool_decide_eq_false. apply (Hw j e).
        + by apply lookup_lt_Some in Hj.
        + rewrite lookup_app_l; [done|]. by apply lookup_lt_Some in Hj.
      - intros Hw j e Hlt. rewrite lookup_app_l by done. intros Hj. specialize (Hw j e Hj).
        unfold waiting, in_state in Hw. by apply bool_decide_eq_false in Hw. }
    split.
    + intros (_ & ? & ? & ?). split_and!; [done|done|]. right. split_and!; [done|lia|done].
    + intros (? & ? & [(i & e & He & <- & _)|(_ & _ & ?)]).
      * destruct Hn. apply in_map. apply list_elem_of_In. by apply list_elem_of_lookup_2 in He.
      * split_and!; try done. by eexists.
  - rewrite (proj2 (Nat.eqb_neq _ _)) by lia. rewrite settle_claim by (cbn [led]; by rewrite He).
    rewrite granted_iff by done. cbn [led]. unfold grantable. rewrite first_waiting_iff by lia. split.
    + intros ((e' & He' & Hw) & ? & ? & Hf). split_and!; [done|done|]. left.
      rewrite He in He'. injection He' as <-. by exists (find_entry (entries l) a), e.
    + intros (? & ? & [(i & e' & He' & Eid' & Hw & Hf)|(Hn & _)]).
      * assert (i = find_entry (entries l) a) as ->.
        { apply (NoDup_lookup (map id (entries l)) _ _ a (ok_distinct _ _ Hok)); rewrite list_lookup_fmap.
          - by rewrite He', <- Eid'.
          - by rewrite He, <- Eid. }
        split_and!; [by exists e'|done..].
      * destruct Hn. rewrite <- Eid. apply in_map, list_elem_of_In. by apply list_elem_of_lookup_2 in He.
Qed.

(** Every ledger a transaction can produce is saved as a text within the
    size the reader accepts and read back as the same ledger under the same
    bounds; under other bounds it is refused as a mismatch. *)
Theorem ledger_roundtrip (jparse : bytes -> option jval) `{!JsonReader jparse} (s s' : tny_admission_scope)
    (l : ledger) (Hs : scope_ok s) (Hok : ledger_ok s l) :
  Z.of_nat (length (save_text s l)) <= 262144 /\
  load jparse None (Some (save_text s l)) s' = if same_bounds s s' then inr l else inl EINVAL.
Proof. split; [by apply save_text_length|by apply load_save_text]. Qed.

(** ** Concrete instances *)

Definition quiet_host : host := mk_host true true None None ACQUIRED None true Written.
Definition demo_scope : tny_admission_scope := mk_scope (Some B"/s") (Some B"team") (Some B"main") 1 4 3.
Definition demo_attempt (n : Z) : tny_admission_attempt := mk_attempt B"job-1" n 1.

Definition demo_request (n : Z) (op : tny_admission_op) : request :=
  mk_request (Some demo_scope) (Some (demo_attempt n)) op false true quiet_host.

(** Two attempts share one slot; the first is asked for twice and cleaned up
    while a write fails once. *)
Definition demo_run : list request :=
  [demo_request 0 INIT; demo_request 0 CLAIM; demo_request 0 CLAIM; demo_request 1 CLAIM;
   mk_request (Some demo_scope) (Some (demo_attempt 0)) RELEASE false true
     (mk_host true true None None ACQUIRED None true (WriteFailed EIO true));
   demo_request 1 CLAIM].

Lemma demo_run_typed : Forall typed demo_run.
Proof.
  unfold demo_run. repeat (apply Forall_cons; [split; intros ? [= <-]; cbn; unfold SIZE_MAX, UINT32_MAX; lia|]).
  apply Forall_nil. 
Qed.

Example admission_run_safe_witness :
  (let '(evs, file) := serve read_json demo_run None in
   NoDup (launched evs) /\
   match file with
   | None => launched evs = []
   | Some b => exists s l, scope_ok s /\ ledger_ok s l /\ b = save_text s l /\
       Z.of_nat (length (launched evs)) <= claim_limit s /\ Z.of_nat (length (live evs)) <= cap s
   end) /\
  launched (fst (serve read_json demo_run None)) = [demo_attempt 0; demo_attempt 1].
Proof.
  split; [exact (admission_run_safe read_json demo_run demo_run_typed)|vm_compute; reflexivity].
Defined.

Lemma demo_scope_ok : scope_ok demo_scope.
Proof. unfold scope_ok, TNY_ADMISSION_QUEUE_MAX, SIZE_MAX. cbn. lia. Qed.

Lemma demo_attempt_ok : attempt_ok (demo_attempt 0).
Proof. unfold attempt_ok, UINT32_MAX. cbn. split; [reflexivity|lia]. Qed.

Example claim_granted_iff_witness :
  reason (out (transact demo_scope (demo_attempt 0) CLAIM false ledger0 (mk_result READY 0 0 0 0))) = GRANTED.
Proof.
  apply (claim_granted_iff demo_scope ledger0 (demo_attempt 0) false (mk_result READY 0 0 0 0)
    demo_scope_ok (ledger0_ok _ demo_scope_ok) demo_attempt_ok).
  split; [reflexivity|]. split; [reflexivity|]. right. split; [intros []|]. split; [|reflexivity].
  unfold TNY_ADMISSION_HISTORY_MAX. cbn. lia.
Defined.

Example ledger_roundtrip_witness :
  let l := led (transact demo_scope (demo_attempt 0) CLAIM false ledger0 (mk_result READY 0 0 0 0)) in
  load read_json None (Some (save_text demo_scope l)) demo_scope = inr l.
Proof.
  intros l. 
  destruct (transact_effect demo_scope (demo_attempt 0) CLAIM false ledger0 (mk_result READY 0 0 0 0)
    (ledger0_ok _ demo_scope_ok) demo_attempt_ok ltac:(discriminate)) as [Hok _].
  exact (proj2 (ledger_roundtrip read_json demo_scope demo_scope l demo_scope_ok Hok)).
Defined.
