(* ===== verification/Mailbox.v ===== *)
(** The durable mailbox of a team (src/src/core/team_mailbox.c): transactions
    under the job's lock, the messages' file, and every request on it. *)
From stdpp Require Import relations.
From S2P Require Import Prelude Decimal Text Json JsonText.

Open Scope Z_scope.

(** ** Data *)

Definition TNY_MAILBOX_PAYLOAD_MAX : Z := 16384.
Definition TNY_MAILBOX_OUTSTANDING_MAX : nat := 64.
Definition TNY_MAILBOX_HISTORY_MAX : nat := 256.
Definition TNY_MAILBOX_BATCH_MAX : nat := 16.
Definition TNY_MAILBOX_BATCH_BYTES_MAX : Z := 65536.
Definition TNY_MAILBOX_LEAD : Z := -1.
Definition MAILBOX_RECORD_MAX : Z := 256 * (16384 * 6 + 1024).
Definition MAILBOX_TASK_MAX : nat := 64.

Inductive tny_mailbox_rc :=
  | MAILBOX_OK | MAILBOX_INVALID | MAILBOX_UNSUPPORTED | MAILBOX_DENIED | MAILBOX_STALE | MAILBOX_TERMINAL
  | MAILBOX_BUSY | MAILBOX_FULL | MAILBOX_HISTORY_FULL | MAILBOX_CONFLICT | MAILBOX_NOT_FOUND | MAILBOX_BAD_STATE
  | MAILBOX_CORRUPT | MAILBOX_IO | MAILBOX_EMPTY | MAILBOX_DEADLINE | MAILBOX_CANCELLED.

Inductive tny_mailbox_state := QUEUED | DELIVERED | ACKED | RETIRED.

Record tny_mailbox_identity := mk_identity { run : bytes; job_attempt : Z; task : Z; task_attempt : Z }.
Record tny_mailbox_recipient := mk_recipient { to_task : Z; to_attempt : Z }.

(** [payload_len] is the length of [payload]. *)
Record tny_mailbox_message := mk_message {
  m_id : bytes; sequence : Z; sender : tny_mailbox_identity; recipient : tny_mailbox_recipient;
  m_state : tny_mailbox_state; payload : bytes; publication : bytes }.

Record tny_mailbox_capacity := mk_capacity { history_used : nat; outstanding_used : nat }.

(** [authorize] denies, or says whether peers may write to each other. *)
Record tny_mailbox_service := mk_service {
  job_dir : option bytes; native_local : bool;
  authorize : option (tny_mailbox_identity -> bytes -> option bool) }.

#[export] Instance mailbox_state_eq : EqDecision tny_mailbox_state.
Proof. solve_decision. Defined.
#[export] Instance mailbox_rc_eq : EqDecision tny_mailbox_rc.
Proof. solve_decision. Defined.
#[export] Instance identity_eq : EqDecision tny_mailbox_identity.
Proof. solve_decision. Defined.
#[export] Instance recipient_eq : EqDecision tny_mailbox_recipient.
Proof. solve_decision. Defined.
#[export] Instance message_eq : EqDecision tny_mailbox_message.
Proof. solve_decision. Defined.

(** What the host does during one call. The first read only checks that the
    directory can be reached; the second, under the lock, yields the job. A
    write renames a finished file into place or does nothing, and may fail
    after the rename. *)
Inductive lock_outcome := LOCK_NOT_OPENED | LOCK_BUSY | LOCK_ERROR | LOCK_ACQUIRED.
Inductive write_outcome := WRITTEN | WRITTEN_UNSYNCED | NOT_WRITTEN.
Record host := mk_host {
  execution_supported : bool; job_reachable : bool; lock : lock_outcome; job_data : option bytes;
  job_memory : bool; txn_memory : bool; mailbox_readable : bool; mailbox_memory : bool; payload_memory : bool;
  written : write_outcome; synced : bool }.

(** The transaction: the job, the messages, and the authorization's answer. *)
Record mailbox_txn := mk_txn { job : jval; messages : list tny_mailbox_message; peers : bool }.

(** ** Checks *)

Definition valid_run (run : bytes) : bool :=
  (length run =? 32)%nat && forallb (fun c => is_digit c || ((C"a" <=? c) && (c <=? C"f"))) run.

Definition id_char (c : Z) : bool := is_alnum c || (c =? C".") || (c =? C"_") || (c =? C"-").

Definition valid_id (id : option bytes) : bool :=
  match id with
  | None => false
  | Some i => (0 <? length i)%nat && (length i <=? 64)%nat && forallb id_char i
  end.

Definition valid_member (task attempt : Z) : bool :=
  if task =? TNY_MAILBOX_LEAD then attempt =? 0
  else (0 <=? task) && (task <? Z.of_nat MAILBOX_TASK_MAX) && (0 <? attempt).

Definition text_is (v : option jval) (s : bytes) : bool :=
  match v with Some (JStr t) => str_eq t s | _ => false end.

Definition uint_field (v : option jval) (key : bytes) : option Z :=
  match jget v key with
  | Some (JNum (JUint n)) => if UINT32_MAX <? n then None else Some n
  | _ => None
  end.

Definition has_uint (v : option jval) (key : bytes) (n : Z) : bool :=
  match jget v key with Some (JNum (JUint k)) => k =? n | _ => false end.

(** The signed reading of a number from 2^63 on wraps. *)
Definition s64 (n : Z) : Z := if n <=? INT64_MAX then n else n - (SIZE_MAX + 1).

Definition task_field (v : option jval) (key : bytes) : option Z :=
  value ← (match jget v key with
           | Some (JNum (JUint n)) => Some (s64 n)
           | Some (JNum (JSint n)) => Some n
           | _ => None
           end);
  if (value <? TNY_MAILBOX_LEAD) || (Z.of_nat MAILBOX_TASK_MAX <=? value) then None else Some value.

Definition active (v : option jval) : bool :=
  text_is (jget v B"state") B"queued" || text_is (jget v B"state") B"running".

Definition known_state (v : option jval) : bool :=
  active v || text_is (jget v B"state") B"succeeded" || text_is (jget v B"state") B"failed" ||
  text_is (jget v B"state") B"cancelled" || text_is (jget v B"state") B"interrupted".

(** The elements of an array; none for anything else. *)
Definition elements (v : option jval) : list jval := match v with Some (JArr vs) => vs | _ => [] end.
Definition is_arr (v : option jval) : bool := match v with Some (JArr _) => true | _ => false end.
Definition is_bool (v : option jval) : bool := match v with Some (JBool _) => true | _ => false end.

Definition item_at (root : option jval) (task : Z) : option jval :=
  if 0 <=? task then elements (jget root B"items") !! Z.to_nat task else None.

Definition member_check (root : option jval) (task attempt : Z) (require_active : bool) : tny_mailbox_rc :=
  if task =? TNY_MAILBOX_LEAD then (if attempt =? 0 then MAILBOX_OK else MAILBOX_STALE)
  else
    match item_at root task with
    | None => MAILBOX_DENIED
    | Some item =>
      if negb (bool_decide (uint_field (Some item) B"attempt" = Some attempt)) then MAILBOX_STALE
      else if require_active && (negb (active (Some item)) || jget_bool (Some item) B"cancel_requested" false)
      then MAILBOX_TERMINAL
      else MAILBOX_OK
    end.

Definition is_state (m : tny_mailbox_message) (st : tny_mailbox_state) : bool := bool_decide (m_state m = st).
Definition outstanding (m : tny_mailbox_message) : bool := is_state m QUEUED || is_state m DELIVERED.

Definition addressed (m : tny_mailbox_message) (caller : tny_mailbox_identity) : bool :=
  (job_attempt (sender m) =? job_attempt caller) && (to_task (recipient m) =? task caller) &&
  (to_attempt (recipient m) =? task_attempt caller).

Definition sync_receipt (h : host) : tny_mailbox_rc := if synced h then MAILBOX_OK else MAILBOX_IO.

(** ** The file *)

Definition state_code (st : tny_mailbox_state) : Z :=
  match st with QUEUED => 0 | DELIVERED => 1 | ACKED => 2 | RETIRED => 3 end.
Definition state_of (n : Z) : option tny_mailbox_state :=
  List.find (fun st => state_code st =? n) [QUEUED; DELIVERED; ACKED; RETIRED].

(** A string member free of NULs. *)
Definition plain_string (v : option jval) : option bytes :=
  match v with Some (JStr s) => if mem_byte NUL s then None else Some s | _ => None end.

Definition load_publication (v : jval) : option bytes :=
  match jget (Some v) B"publication" with
  | None => Some []
  | p =>
    p ← plain_string p;
    if (0 <? length p)%nat && (negb (valid_id (Some p)) || (48 <? length p)%nat) then None else Some p
  end.

Definition load_message (v : jval) (run : bytes) (index : nat) : option tny_mailbox_message :=
  id ← plain_string (jget (Some v) B"id");
  if negb (valid_id (Some id)) ||
     negb (has_uint (Some v) B"sequence" (Z.of_nat index + 1)) then None
  else
    ja ← uint_field (Some v) B"job_attempt";
    if ja =? 0 then None
    else
      st ← task_field (Some v) B"sender_task";
      sa ← uint_field (Some v) B"sender_attempt";
      rt ← task_field (Some v) B"recipient_task";
      ra ← uint_field (Some v) B"recipient_attempt";
      code ← uint_field (Some v) B"state";
      if negb (valid_member st sa) || negb (valid_member rt ra) then None
      else
        state ← state_of code;
        payload ← plain_string (jget (Some v) B"payload");
        if (TNY_MAILBOX_PAYLOAD_MAX <? Z.of_nat (length payload)) then None
        else
          publication ← load_publication v;
          Some (mk_message id (Z.of_nat index + 1) (mk_identity run ja st sa) (mk_recipient rt ra) state payload publication).

Section mailbox.
(** The JSON reader. *)
Context (jparse : bytes -> option jval).

(** The checks of a message against the job and the messages before it. *)
Definition message_fits (job : jval) (before : list tny_mailbox_message) (m : tny_mailbox_message) : bool :=
  let attempt := u64 (jget_int (Some job) B"attempt" 0) in
  let members := Z.of_nat (length (elements (jget (Some job) B"items"))) in
  (job_attempt (sender m) <=? attempt) &&
  (negb (is_state m RETIRED) || (job_attempt (sender m) <? attempt)) &&
  (task_attempt (sender m) <=? job_attempt (sender m)) &&
  (to_attempt (recipient m) <=? job_attempt (sender m)) &&
  ((task (sender m) =? TNY_MAILBOX_LEAD) || (task (sender m) <? members)) &&
  ((to_task (recipient m) =? TNY_MAILBOX_LEAD) || (to_task (recipient m) <? members)) &&
  forallb (fun k => negb (str_eq (m_id k) (m_id m))) before.

Fixpoint load_messages (job : jval) (run : bytes) (before : list tny_mailbox_message) (vs : list jval) :
    option (list tny_mailbox_message) :=
  match vs with
  | [] => Some before
  | v :: vs =>
    m ← load_message v run (length before);
    if message_fits job before m then load_messages job run (before ++ [m]) vs else None
  end.

(** [file] is [mailbox.json], when it is there. *)
Definition load_mailbox (h : host) (run : bytes) (job : jval) (file : option bytes) :
    tny_mailbox_rc + list tny_mailbox_message :=
  if negb (mailbox_readable h) then inl MAILBOX_IO
  else
    match file with
    | None => inr []
    | Some data =>
      if MAILBOX_RECORD_MAX <? Z.of_nat (length data) then inl MAILBOX_IO
      else
        let root := if mailbox_memory h then jparse data else None in
        if text_is (jget root B"run") run && (jget_int root B"version" 0 =? 1) && is_arr (jget root B"messages") &&
           (length (elements (jget root B"messages")) <=? TNY_MAILBOX_HISTORY_MAX)%nat
        then match load_messages job run [] (elements (jget root B"messages")) with
             | Some ms => inr ms
             | None => inl MAILBOX_CORRUPT
             end
        else inl MAILBOX_CORRUPT
    end.

(** An item of a valid job whose attempt is [attempt]. *)
Definition item_valid (attempt : Z) (i : nat) (item : jval) : bool :=
  match item with JObj _ => true | _ => false end &&
  (jget_int (Some item) B"index" (-1) =? Z.of_nat i) &&
  match uint_field (Some item) B"attempt" with Some n => (0 <? n) && (n <=? attempt) | None => false end &&
  known_state (Some item) && is_bool (jget (Some item) B"cancel_requested").

Fixpoint items_valid (attempt : Z) (i : nat) (items : list jval) : bool :=
  match items with
  | [] => true
  | item :: items => item_valid attempt i item && items_valid attempt (S i) items
  end.

(** The attempt of a valid job. *)
Definition job_valid (root : option jval) (run : bytes) : option Z :=
  attempt ← uint_field root B"attempt";
  let items := elements (jget root B"items") in
  if (jget_int root B"version" 0 =? 1) && text_is (jget root B"kind") B"job" && text_is (jget root B"id") run &&
     (0 <? attempt) && known_state root && is_bool (jget root B"cancel_requested") && is_arr (jget root B"items") &&
     (0 <? length items)%nat && (length items <=? MAILBOX_TASK_MAX)%nat && items_valid attempt 0 items
  then Some attempt else None.

(** The caller and its transaction. *)
Definition txn_begin (s : option tny_mailbox_service) (caller : option tny_mailbox_identity) (h : host)
    (file : option bytes) : tny_mailbox_rc + tny_mailbox_identity * mailbox_txn :=
  match s, caller with
  | Some s, Some c =>
    if negb (valid_run (run c)) || (job_attempt c =? 0) || negb (valid_member (task c) (task_attempt c)) ||
       negb (cur (default [] (job_dir s)) =? C"/")
    then inl MAILBOX_INVALID
    else if negb (native_local s) || negb (execution_supported h) then inl MAILBOX_UNSUPPORTED
    else
      match authorize s with
      | None => inl MAILBOX_DENIED
      | Some authorize =>
        if negb (job_reachable h) then inl MAILBOX_IO
        else
          match lock h with
          | LOCK_NOT_OPENED | LOCK_ERROR => inl MAILBOX_IO
          | LOCK_BUSY => inl MAILBOX_BUSY
          | LOCK_ACQUIRED =>
            match job_data h with
            | None => inl MAILBOX_IO
            | Some data =>
              let root := if job_memory h then jparse data else None in
              match root, job_valid root (run c) with
              | Some job, Some attempt =>
                match authorize c data with
                | None => inl MAILBOX_DENIED
                | Some peers =>
                  if negb (attempt =? job_attempt c) then inl MAILBOX_STALE
                  else
                    match member_check root (task c) (task_attempt c) false with
                    | MAILBOX_OK =>
                      if negb (txn_memory h) then inl MAILBOX_IO
                      else match load_mailbox h (run c) job file with
                           | inl rc => inl rc
                           | inr ms => inr (c, mk_txn job ms peers)
                           end
                    | rc => inl rc
                    end
                end
              | _, _ => inl MAILBOX_CORRUPT
              end
            end
          end
      end
  | _, _ => inl MAILBOX_INVALID
  end.

(** [%d]. *)
Definition dec_int (n : Z) : bytes := if n <? 0 then C"-" :: dec (- n) else dec n.

Definition message_text (m : tny_mailbox_message) : bytes :=
  C"{" :: quote B"id" ++ C":" :: quote (m_id m) ++ C"," :: quote B"sequence" ++ C":" :: dec (sequence m) ++
  C"," :: quote B"job_attempt" ++ C":" :: dec (job_attempt (sender m)) ++
  C"," :: quote B"sender_task" ++ C":" :: dec_int (task (sender m)) ++
  C"," :: quote B"sender_attempt" ++ C":" :: dec (task_attempt (sender m)) ++
  C"," :: quote B"recipient_task" ++ C":" :: dec_int (to_task (recipient m)) ++
  C"," :: quote B"recipient_attempt" ++ C":" :: dec (to_attempt (recipient m)) ++
  C"," :: quote B"state" ++ C":" :: dec (state_code (m_state m)) ++
  C"," :: quote B"payload" ++ C":" :: literal (payload m) ++
  C"," :: quote B"publication" ++ C":" :: literal (publication m) ++ [C"}"].

(** A comma before all but the first. *)
Fixpoint messages_text (first : bool) (ms : list tny_mailbox_message) : bytes :=
  match ms with
  | [] => []
  | m :: ms => (if first then [] else [C","]) ++ message_text m ++ messages_text false ms
  end.

(** The bytes [store] writes. *)
Definition store_text (run : bytes) (ms : list tny_mailbox_message) : bytes :=
  C"{" :: quote B"version" ++ B":1," ++ quote B"run" ++ C":" :: quote run ++ C"," :: quote B"messages" ++ B":[" ++
  messages_text true ms ++ B"]}".

(** The return code and the file. *)
Definition store (h : host) (run : bytes) (ms : list tny_mailbox_message) (file : option bytes) :
    tny_mailbox_rc * option bytes :=
  match written h with
  | WRITTEN => (MAILBOX_OK, Some (store_text run ms))
  | WRITTEN_UNSYNCED => (MAILBOX_IO, Some (store_text run ms))
  | NOT_WRITTEN => (MAILBOX_IO, file)
  end.

(** The index of the first message with the id. *)
Fixpoint find (ms : list tny_mailbox_message) (id : bytes) : option nat :=
  match ms with
  | [] => None
  | m :: ms => if str_eq (m_id m) id then Some O else S <$> find ms id
  end.

Definition valid_payload (h : host) (payload : option bytes) : bool :=
  match payload with
  | None => false
  | Some p =>
    (Z.of_nat (length p) <=? TNY_MAILBOX_PAYLOAD_MAX) && negb (mem_byte NUL p) && payload_memory h &&
    match jparse (literal p) with Some _ => true | None => false end
  end.

(** How many receipts of a recipient are pending. *)
Definition pending (ms : list tny_mailbox_message) (task : Z) : nat :=
  length (List.filter (fun m => (to_task (recipient m) =? task) && outstanding m) ms).

Definition set_state (st : tny_mailbox_state) (m : tny_mailbox_message) : tny_mailbox_message :=
  mk_message (m_id m) (sequence m) (sender m) (recipient m) st (payload m) (publication m).

(** ** Requests: return code, output, and the file afterwards *)

(** A direct send with the same sender, recipient and content. *)
Definition same_send (m : tny_mailbox_message) (caller : tny_mailbox_identity) (r : tny_mailbox_recipient) (p : bytes) : bool :=
  str_eq (publication m) [] && (job_attempt (sender m) =? job_attempt caller) && (task (sender m) =? task caller) &&
  (task_attempt (sender m) =? task_attempt caller) && (to_task (recipient m) =? to_task r) &&
  (to_attempt (recipient m) =? to_attempt r) && str_eq (payload m) p.

Definition tny_team_mailbox_send (s : option tny_mailbox_service) (caller : option tny_mailbox_identity)
    (r : tny_mailbox_recipient) (id payload : option bytes) (out : bool) (h : host) (file : option bytes) :
    tny_mailbox_rc * option tny_mailbox_message * option bytes :=
  if negb out || negb (valid_id id) || negb (valid_member (to_task r) (to_attempt r)) || negb (valid_payload h payload)
  then (MAILBOX_INVALID, None, file)
  else
    let id := default [] id in
    let payload := default [] payload in
    match txn_begin s caller h file with
    | inl rc => (rc, None, file)
    | inr (c, t) =>
      let root := Some (job t) in
      match member_check root (to_task r) (to_attempt r) false with
      | MAILBOX_OK =>
        if negb (task c =? TNY_MAILBOX_LEAD) && negb (to_task r =? TNY_MAILBOX_LEAD) && negb (peers t)
        then (MAILBOX_DENIED, None, file)
        else if existsb (fun m => str_eq (publication m) id) (messages t) then (MAILBOX_CONFLICT, None, file)
        else
          match find (messages t) id ≫= (fun i => messages t !! i) with
          | Some m =>
            if same_send m c r payload
            then match sync_receipt h with MAILBOX_OK => (MAILBOX_OK, Some m, file) | rc => (rc, None, file) end
            else (MAILBOX_CONFLICT, None, file)
          | None =>
            if negb (active root) || jget_bool root B"cancel_requested" false then (MAILBOX_TERMINAL, None, file)
            else
              match member_check root (task c) (task_attempt c) true with
              | MAILBOX_OK =>
                match member_check root (to_task r) (to_attempt r) true with
                | MAILBOX_OK =>
                  if (TNY_MAILBOX_OUTSTANDING_MAX <=? pending (messages t) (to_task r))%nat then (MAILBOX_FULL, None, file)
                  else if (length (messages t) =? TNY_MAILBOX_HISTORY_MAX)%nat then (MAILBOX_HISTORY_FULL, None, file)
                  else
                    let m := mk_message id (Z.of_nat (length (messages t)) + 1) c r QUEUED payload [] in
                    match store h (run c) (messages t ++ [m]) file with
                    | (MAILBOX_OK, file) => (MAILBOX_OK, Some m, file)
                    | (rc, file) => (rc, None, file)
                    end
                | rc => (rc, None, file)
                end
              | rc => (rc, None, file)
              end
          end
      | rc => (rc, None, file)
      end
    end.

Definition same_publication (m : tny_mailbox_message) (caller : tny_mailbox_identity) (p : bytes) : bool :=
  (job_attempt (sender m) =? job_attempt caller) && (task (sender m) =? task caller) &&
  (task_attempt (sender m) =? task_attempt caller) && str_eq (payload m) p.

(** The receipts of an earlier publication. *)
Fixpoint publish_replay (ms : list tny_mailbox_message) (caller : tny_mailbox_identity) (id p : bytes)
    (out : list tny_mailbox_message) : tny_mailbox_rc + list tny_mailbox_message :=
  match ms with
  | [] => inr out
  | m :: ms =>
    if negb (str_eq (publication m) id) then publish_replay ms caller id p out
    else if negb (same_publication m caller p) then inl MAILBOX_CONFLICT
    else if (MAILBOX_TASK_MAX <=? length out)%nat then inl MAILBOX_CORRUPT
    else publish_replay ms caller id p (out ++ [m])
  end.

(** [%s.p%d]. *)
Definition receipt_id (id : bytes) (task : Z) : bytes := id ++ B".p" ++ dec_int (task + 1).

(** One receipt per active member but the sender; their sequence numbers are
    assigned when all are accepted. *)
Fixpoint publish_receipts (root : option jval) (ms : list tny_mailbox_message) (caller : tny_mailbox_identity)
    (id p : bytes) (tasks : list Z) (out : list tny_mailbox_message) : tny_mailbox_rc + list tny_mailbox_message :=
  match tasks with
  | [] => inr out
  | task' :: tasks =>
    if task' =? task caller then publish_receipts root ms caller id p tasks out
    else
      let attempt := if 0 <=? task' then u32 (jget_int (item_at root task') B"attempt" 0) else 0 in
      match member_check root task' attempt true with
      | MAILBOX_OK =>
        let m := mk_message (receipt_id id task') 0 caller (mk_recipient task' attempt) QUEUED p id in
        if existsb (fun prior => str_eq (m_id prior) (m_id m) || str_eq (publication prior) (m_id m)) ms
        then inl MAILBOX_CONFLICT
        else if (TNY_MAILBOX_OUTSTANDING_MAX <=? pending ms task')%nat then inl MAILBOX_FULL
        else publish_receipts root ms caller id p tasks (out ++ [m])
      | _ => publish_receipts root ms caller id p tasks out
      end
  end.

Definition with_sequence (n : Z) (m : tny_mailbox_message) : tny_mailbox_message :=
  mk_message (m_id m) n (sender m) (recipient m) (m_state m) (payload m) (publication m).

Fixpoint number_from (n : Z) (ms : list tny_mailbox_message) : list tny_mailbox_message :=
  match ms with
  | [] => []
  | m :: ms => with_sequence n m :: number_from (n + 1) ms
  end.

Definition tny_team_mailbox_publish (s : option tny_mailbox_service) (caller : option tny_mailbox_identity)
    (id payload : option bytes) (out : bool) (h : host) (file : option bytes) :
    tny_mailbox_rc * list tny_mailbox_message * option bytes :=
  if negb out || negb (valid_id id) || (48 <? length (default [] id))%nat || negb (valid_payload h payload)
  then (MAILBOX_INVALID, [], file)
  else
    let id := default [] id in
    let payload := default [] payload in
    match txn_begin s caller h file with
    | inl rc => (rc, [], file)
    | inr (c, t) =>
      if negb (peers t) then (MAILBOX_DENIED, [], file)
      else
        match find (messages t) id with
        | Some _ => (MAILBOX_CONFLICT, [], file)
        | None =>
          match publish_replay (messages t) c id payload [] with
          | inl rc => (rc, [], file)
          | inr (m :: out) =>
            match sync_receipt h with MAILBOX_OK => (MAILBOX_OK, m :: out, file) | rc => (rc, [], file) end
          | inr [] =>
            let root := Some (job t) in
            if negb (active root) || jget_bool root B"cancel_requested" false ||
               negb (bool_decide (member_check root (task c) (task_attempt c) true = MAILBOX_OK))
            then (MAILBOX_TERMINAL, [], file)
            else
              let tasks := map (fun i => Z.of_nat i - 1) (seq 0 (S (length (elements (jget root B"items"))))) in
              match publish_receipts root (messages t) c id payload tasks [] with
              | inl rc => (rc, [], file)
              | inr [] => (MAILBOX_TERMINAL, [], file)
              | inr out =>
                if (TNY_MAILBOX_HISTORY_MAX <? length (messages t) + length out)%nat
                then (MAILBOX_HISTORY_FULL, [], file)
                else
                  let out := number_from (Z.of_nat (length (messages t)) + 1) out in
                  match store h (run c) (messages t ++ out) file with
                  | (MAILBOX_OK, file) => (MAILBOX_OK, out, file)
                  | (rc, file) => (rc, [], file)
                  end
              end
          end
        end
    end.

Definition tny_team_mailbox_status (s : option tny_mailbox_service) (caller : option tny_mailbox_identity)
    (out : bool) (h : host) (file : option bytes) : tny_mailbox_rc * tny_mailbox_capacity :=
  if negb out then (MAILBOX_INVALID, mk_capacity 0 0)
  else
    match txn_begin s caller h file with
    | inl rc => (rc, mk_capacity 0 0)
    | inr (c, t) =>
      let used := pending (messages t) (task c) in
      if (TNY_MAILBOX_OUTSTANDING_MAX <? used)%nat then (MAILBOX_CORRUPT, mk_capacity 0 0)
      else (MAILBOX_OK, mk_capacity (length (messages t)) used)
    end.

(** The loop over messages; [false] when the first does not fit. *)
Fixpoint inbox_loop (ms : list tny_mailbox_message) (c : tny_mailbox_identity) (after : Z) (capacity : nat) (limit : Z)
    (out : list tny_mailbox_message) (bytes_ : Z) : bool * list tny_mailbox_message :=
  match ms with
  | [] => (true, out)
  | m :: ms =>
    if (capacity <=? length out)%nat then (true, out)
    else if negb (addressed m c) || negb (outstanding m) || (sequence m <=? after)
    then inbox_loop ms c after capacity limit out bytes_
    else
      let len := Z.of_nat (length (payload m)) in
      if limit - bytes_ <? len then (negb (length out =? 0)%nat, out)
      else inbox_loop ms c after capacity limit (out ++ [m]) (bytes_ + len)
  end.

Definition tny_team_mailbox_inbox (s : option tny_mailbox_service) (caller : option tny_mailbox_identity) (after : Z)
    (capacity : nat) (limit : Z) (out : bool) (h : host) (file : option bytes) :
    tny_mailbox_rc * list tny_mailbox_message :=
  if negb out || (capacity =? 0)%nat || (TNY_MAILBOX_BATCH_MAX <? capacity)%nat || (limit <=? 0) ||
     (TNY_MAILBOX_BATCH_BYTES_MAX <? limit)
  then (MAILBOX_INVALID, [])
  else
    match txn_begin s caller h file with
    | inl rc => (rc, [])
    | inr (c, t) =>
      let '(fits, ms) := inbox_loop (messages t) c after capacity limit [] 0 in
      (if fits then MAILBOX_OK else MAILBOX_FULL, ms)
    end.

(** A wait is a number of rounds, each of some attempts at the lock, which see
    the file as it is then, and an event of the watch. *)
Inductive try_outcome := TRY_AGAIN | TRY_TIMEOUT | TRY_CANCELLED.
Inductive watch_event := NO_TIME | WATCH_CHANGED | WATCH_TIMEOUT | WATCH_CANCELLED | WATCH_FAILED.
Record wait_round := mk_round {
  w_cancelled : bool; w_drained : bool; w_tries : list (host * option bytes * try_outcome); w_event : watch_event }.

(** The attempts at one snapshot; the list holds every one that is made. *)
Fixpoint wait_begin (s : option tny_mailbox_service) (caller : option tny_mailbox_identity)
    (tries : list (host * option bytes * try_outcome)) : tny_mailbox_rc + tny_mailbox_identity * mailbox_txn :=
  match tries with
  | [] => inl MAILBOX_BUSY
  | (h, file, after) :: tries =>
    match txn_begin s caller h file with
    | inl MAILBOX_BUSY =>
      match after with
      | TRY_AGAIN => wait_begin s caller tries
      | TRY_TIMEOUT => inl MAILBOX_BUSY
      | TRY_CANCELLED => inl MAILBOX_CANCELLED
      end
    | r => r
    end
  end.

Fixpoint wait_collect (ms : list tny_mailbox_message) (c : tny_mailbox_identity) (out : list tny_mailbox_message)
    (bytes_ : Z) : list tny_mailbox_message :=
  match ms with
  | [] => out
  | m :: ms =>
    if (TNY_MAILBOX_BATCH_MAX <=? length out)%nat then out
    else if negb (addressed m c) || negb (outstanding m) then wait_collect ms c out bytes_
    else
      let len := Z.of_nat (length (payload m)) in
      if TNY_MAILBOX_BATCH_BYTES_MAX <? bytes_ + len then out else wait_collect ms c (out ++ [m]) (bytes_ + len)
  end.

(** [None] when the rounds end before the wait does. *)
Fixpoint wait_loop (s : option tny_mailbox_service) (caller : option tny_mailbox_identity) (timeout_ms : Z)
    (rounds : list wait_round) : option (tny_mailbox_rc * list tny_mailbox_message) :=
  match rounds with
  | [] => None
  | w :: rounds =>
    if w_cancelled w then Some (MAILBOX_CANCELLED, [])
    else if negb (w_drained w) then Some (MAILBOX_IO, [])
    else
      match wait_begin s caller (w_tries w) with
      | inl rc => Some (rc, [])
      | inr (c, t) =>
        match wait_collect (messages t) c [] 0 with
        | [] =>
          let root := Some (job t) in
          if negb (active root) || jget_bool root B"cancel_requested" false ||
             negb (bool_decide (member_check root (task c) (task_attempt c) true = MAILBOX_OK))
          then Some (MAILBOX_TERMINAL, [])
          else
            match w_event w with
            | NO_TIME => Some (if timeout_ms =? 0 then MAILBOX_EMPTY else MAILBOX_DEADLINE, [])
            | WATCH_CHANGED => wait_loop s caller timeout_ms rounds
            | WATCH_TIMEOUT => Some (MAILBOX_DEADLINE, [])
            | WATCH_CANCELLED => Some (MAILBOX_CANCELLED, [])
            | WATCH_FAILED => Some (MAILBOX_IO, [])
            end
        | ms => Some (MAILBOX_OK, ms)
        end
      end
  end.

(** [opened] is what opening the watch returned. *)
Definition tny_team_mailbox_wait (s : option tny_mailbox_service) (caller : option tny_mailbox_identity)
    (timeout_ms : Z) (out supported : bool) (opened : tny_mailbox_rc) (rounds : list wait_round) :
    option (tny_mailbox_rc * list tny_mailbox_message) :=
  match s with
  | Some svc =>
    if negb (bool_decide (is_Some (job_dir svc))) || negb out || (timeout_ms <? 0) || (30000 <? timeout_ms)
    then Some (MAILBOX_INVALID, [])
    else if negb (native_local svc) || negb supported then Some (MAILBOX_UNSUPPORTED, [])
    else match opened with
         | MAILBOX_OK => wait_loop s caller timeout_ms rounds
         | rc => Some (rc, [])
         end
  | None => Some (MAILBOX_INVALID, [])
  end.

(** [transition] is the state to reach, none for a read. *)
Definition access_message (s : option tny_mailbox_service) (caller : option tny_mailbox_identity) (id : option bytes)
    (transition : option tny_mailbox_state) (h : host) (file : option bytes) :
    tny_mailbox_rc * option tny_mailbox_message * option bytes :=
  if negb (valid_id id) then (MAILBOX_INVALID, None, file)
  else
    match txn_begin s caller h file with
    | inl rc => (rc, None, file)
    | inr (c, t) =>
      match find (messages t) (default [] id) with
      | None => (MAILBOX_NOT_FOUND, None, file)
      | Some i =>
        match messages t !! i with
        | None => (MAILBOX_NOT_FOUND, None, file)
        | Some m =>
          if negb (addressed m c) then (MAILBOX_DENIED, None, file)
          else if bool_decide (transition = Some ACKED) && is_state m QUEUED then (MAILBOX_BAD_STATE, None, file)
          else
            match transition with
            | None => (MAILBOX_OK, Some m, file)
            | Some st =>
              if state_code (m_state m) <? state_code st
              then match store h (run c) (alter (set_state st) i (messages t)) file with
                   | (MAILBOX_OK, file) => (MAILBOX_OK, Some (set_state st m), file)
                   | (rc, file) => (rc, None, file)
                   end
              else match sync_receipt h with MAILBOX_OK => (MAILBOX_OK, Some m, file) | rc => (rc, None, file) end
            end
        end
      end
    end.

Definition tny_team_mailbox_read s caller id (out : bool) h file :=
  if negb out then (MAILBOX_INVALID, None, file) else access_message s caller id None h file.
Definition tny_team_mailbox_mark_delivered s caller id h file := access_message s caller id (Some DELIVERED) h file.
Definition tny_team_mailbox_ack s caller id h file := access_message s caller id (Some ACKED) h file.

(** The messages [retire] abandons. *)
Definition retires (recipient_task before : Z) (m : tny_mailbox_message) : bool :=
  (to_task (recipient m) =? recipient_task) && (job_attempt (sender m) <? before) && outstanding m.

Definition retire_all (recipient_task before : Z) (ms : list tny_mailbox_message) : list tny_mailbox_message :=
  map (fun m => if retires recipient_task before m then set_state RETIRED m else m) ms.

Definition tny_team_mailbox_retire (s : option tny_mailbox_service) (caller : option tny_mailbox_identity)
    (recipient_task before : Z) (out : bool) (h : host) (file : option bytes) : tny_mailbox_rc * nat * option bytes :=
  if negb out || (recipient_task <? TNY_MAILBOX_LEAD) || (Z.of_nat MAILBOX_TASK_MAX <=? recipient_task) || (before =? 0)
  then (MAILBOX_INVALID, O, file)
  else
    match txn_begin s caller h file with
    | inl rc => (rc, O, file)
    | inr (c, t) =>
      if negb (task c =? TNY_MAILBOX_LEAD) then (MAILBOX_DENIED, O, file)
      else if job_attempt c <? before then (MAILBOX_INVALID, O, file)
      else if negb (recipient_task =? TNY_MAILBOX_LEAD) && negb (bool_decide (is_Some (item_at (Some (job t)) recipient_task)))
      then (MAILBOX_DENIED, O, file)
      else
        let changed := length (List.filter (retires recipient_task before) (messages t)) in
        let '(rc, file) :=
          if (0 <? changed)%nat then store h (run c) (retire_all recipient_task before (messages t)) file
          else (sync_receipt h, file) in
        (rc, match rc with MAILBOX_OK => changed | _ => O end, file)
    end.

End mailbox.

Definition tny_team_mailbox_error (rc : tny_mailbox_rc) : bytes :=
  match rc with
  | MAILBOX_OK => B"MAILBOX_OK" | MAILBOX_INVALID => B"MAILBOX_INVALID" | MAILBOX_UNSUPPORTED => B"MAILBOX_UNSUPPORTED"
  | MAILBOX_DENIED => B"MAILBOX_DENIED" | MAILBOX_STALE => B"MAILBOX_STALE" | MAILBOX_TERMINAL => B"MAILBOX_TERMINAL"
  | MAILBOX_BUSY => B"MAILBOX_BUSY" | MAILBOX_FULL => B"MAILBOX_FULL" | MAILBOX_HISTORY_FULL => B"MAILBOX_HISTORY_FULL"
  | MAILBOX_CONFLICT => B"MAILBOX_CONFLICT" | MAILBOX_NOT_FOUND => B"MAILBOX_NOT_FOUND"
  | MAILBOX_BAD_STATE => B"MAILBOX_BAD_STATE" | MAILBOX_CORRUPT => B"MAILBOX_CORRUPT" | MAILBOX_IO => B"MAILBOX_IO"
  | MAILBOX_EMPTY => B"MAILBOX_EMPTY" | MAILBOX_DEADLINE => B"MAILBOX_DEADLINE" | MAILBOX_CANCELLED => B"MAILBOX_CANCELLED"
  end.

(** ** What the file holds *)

(** One step of a message's life, and its life so far. *)
Inductive adv_step : tny_mailbox_state -> tny_mailbox_state -> Prop :=
  | adv_deliver : adv_step QUEUED DELIVERED
  | adv_ack : adv_step DELIVERED ACKED
  | adv_retire st : st = QUEUED \/ st = DELIVERED -> adv_step st RETIRED.

(** The same message at a later time. *)
Definition later (m m' : tny_mailbox_message) : Prop :=
  m' = set_state (m_state m') m /\ rtc adv_step (m_state m) (m_state m').

(** Nothing is forgotten, and what is new is queued. *)
Definition evolves (ms ms' : list tny_mailbox_message) : Prop :=
  exists old new, ms' = old ++ new /\ Forall2 later ms old /\ Forall (fun m => m_state m = QUEUED) new.

(** Member [task] of the [n] a job has, at an attempt no later than the job's. *)
Definition member_ok (job_attempt task attempt : Z) : Prop :=
  (task = TNY_MAILBOX_LEAD /\ attempt = 0) \/ (0 <= task < Z.of_nat MAILBOX_TASK_MAX /\ 1 <= attempt <= job_attempt).

(** Message [i] of the run's mailbox. *)
Record message_ok (run_ : bytes) (i : nat) (m : tny_mailbox_message) : Prop := {
  ok_id : valid_id (Some (m_id m)) = true;
  ok_sequence : sequence m = Z.of_nat i + 1;
  ok_run : run (sender m) = run_;
  ok_attempt : 1 <= job_attempt (sender m) <= UINT32_MAX;
  ok_sender : member_ok (job_attempt (sender m)) (task (sender m)) (task_attempt (sender m));
  ok_recipient : member_ok (job_attempt (sender m)) (to_task (recipient m)) (to_attempt (recipient m));
  ok_payload : Z.of_nat (length (payload m)) <= TNY_MAILBOX_PAYLOAD_MAX /\ json_text (payload m) = true /\
    mem_byte NUL (payload m) = false;
  ok_publication : publication m = [] \/
    valid_id (Some (publication m)) = true /\ (length (publication m) <= 48)%nat }.

(** A mailbox: bounded, with identifiers that name one message or one
    publication, and at most [TNY_MAILBOX_OUTSTANDING_MAX] pending receipts for
    each recipient. *)
Record mailbox_ok (run_ : bytes) (ms : list tny_mailbox_message) : Prop := {
  mb_run : valid_run run_ = true;
  mb_length : (length ms <= TNY_MAILBOX_HISTORY_MAX)%nat;
  mb_message : forall i m, ms !! i = Some m -> message_ok run_ i m;
  mb_ids : NoDup (map m_id ms);
  mb_publications : forall m m', In m ms -> In m' ms -> m_id m <> publication m';
  mb_pending : forall task, (pending ms task <= TNY_MAILBOX_OUTSTANDING_MAX)%nat;
  mb_published : forall i j m m', ms !! i = Some m -> ms !! j = Some m' -> i <> j ->
    publication m = publication m' -> publication m <> [] ->
    sender m = sender m' /\ payload m = payload m' /\ to_task (recipient m) <> to_task (recipient m') }.

(** The file holds these messages. *)
Definition holds (file : option bytes) (ms : list tny_mailbox_message) : Prop :=
  (file = None /\ ms = []) \/ exists run_, file = Some (store_text run_ ms) /\ mailbox_ok run_ ms /\ ms <> [].

(** A receipt of a message that is there. *)
Definition recorded (ms : list tny_mailbox_message) (m : tny_mailbox_message) : Prop :=
  exists i m', ms !! i = Some m' /\ sequence m = Z.of_nat i + 1 /\ later m m'.
