(* ===== verification/MailboxFile.v ===== *)
(** The mailbox's file (src/src/core/team_mailbox.c): messages over time, the
    text [store] writes and [load_mailbox] reads back, and what an open
    transaction has established. *)
From stdpp Require Import relations.
From S2P Require Import Prelude Decimal Text Json JsonText Mailbox.

Open Scope Z_scope.

(** ** Lemmas: the life of messages *)

Lemma later_refl m : later m m.
Proof. split; [by destruct m|done]. Qed.

Lemma later_trans m1 m2 m3 : later m1 m2 -> later m2 m3 -> later m1 m3.
Proof. intros [E1 H1] [E2 H2]. split; [|by etrans]. rewrite E2 at 1. rewrite E1. done. Qed.

Lemma later_set st m : rtc adv_step (m_state m) st -> later m (set_state st m).
Proof. intros H. by split. Qed.

Lemma Forall2_later_refl ms : Forall2 later ms ms.
Proof. induction ms; constructor; auto using later_refl. Qed.

Lemma evolves_refl ms : evolves ms ms.
Proof. exists ms, []. split; [by rewrite app_nil_r|]. split; [apply Forall2_later_refl|constructor]. Qed.

Lemma evolves_app ms new : Forall (fun m => m_state m = QUEUED) new -> evolves ms (ms ++ new).
Proof. intros H. exists ms, new. split; [done|]. split; [apply Forall2_later_refl|done]. Qed.

Lemma evolves_lookup ms ms' i m : evolves ms ms' -> ms !! i = Some m -> exists m', ms' !! i = Some m' /\ later m m'.
Proof.
  intros (old & new & -> & H & _) Hi. destruct (Forall2_lookup_l _ _ _ _ _ H Hi) as (m' & Hm' & Hl).
  exists m'. split; [|done]. by apply lookup_app_l_Some.
Qed.

Lemma recorded_evolves ms ms' m : evolves ms ms' -> recorded ms m -> recorded ms' m.
Proof.
  intros He (i & m' & Hi & Hs & Hl). destruct (evolves_lookup _ _ _ _ He Hi) as (m2 & Hm2 & Hl2).
  exists i, m2. split_and!; [done..|]. by eapply later_trans.
Qed.

Lemma evolves_map ms f : (forall m, In m ms -> later m (f m)) -> evolves ms (map f ms).
Proof.
  intros H. exists (map f ms), []. split; [by rewrite app_nil_r|]. split; [|constructor].
  induction ms as [|m ms IH]; cbn [map]; constructor; [apply H; by left|]. apply IH. intros m' Hm'. apply H. by right.
Qed.

(** ** Lemmas: the file *)

Definition int_json (n : Z) : jval := if n <? 0 then JNum (JSint n) else JNum (JUint n).

Definition message_json (m : tny_mailbox_message) : jval :=
  JObj [(B"id", JStr (m_id m)); (B"sequence", JNum (JUint (sequence m)));
        (B"job_attempt", JNum (JUint (job_attempt (sender m)))); (B"sender_task", int_json (task (sender m)));
        (B"sender_attempt", JNum (JUint (task_attempt (sender m))));
        (B"recipient_task", int_json (to_task (recipient m)));
        (B"recipient_attempt", JNum (JUint (to_attempt (recipient m))));
        (B"state", JNum (JUint (state_code (m_state m)))); (B"payload", JStr (payload m));
        (B"publication", JStr (publication m))].

Definition mailbox_json (run : bytes) (ms : list tny_mailbox_message) : jval :=
  JObj [(B"version", JNum (JUint 1)); (B"run", JStr run); (B"messages", JArr (map message_json ms))].

Lemma render_int n : render (int_json n) = dec_int n.
Proof. unfold int_json, dec_int. by destruct (n <? 0). Qed.

Lemma id_char_plain c : id_char c = true -> plain_char c = true /\ c <> NUL /\ 0 <= c <= 255.
Proof.
  unfold id_char, plain_char, is_alnum, is_alpha, is_upper, is_lower, is_digit. intros H. split; [|split]; lia.
Qed.

Lemma forallb_impl {A} (f g : A -> bool) xs : (forall x, f x = true -> g x = true) -> forallb f xs = true -> forallb g xs = true.
Proof. intros H. rewrite !forallb_forall. auto. Qed.

Lemma valid_id_spec i : valid_id (Some i) = true ->
  (1 <= length i <= 64)%nat /\ forallb plain_char i = true /\ mem_byte NUL i = false.
Proof.
  unfold valid_id. rewrite !andb_true_iff, Nat.ltb_lt, Nat.leb_le. intros [[H1 H2] H3].
  split; [lia|]. split; [revert H3; apply forallb_impl; intros c Hc; by destruct (id_char_plain c Hc)|].
  apply not_true_is_false. intros H. apply mem_byte_true in H. rewrite forallb_forall in H3.
  apply H3, id_char_plain in H. naive_solver.
Qed.

Lemma valid_run_spec r : valid_run r = true -> length r = 32%nat /\ forallb plain_char r = true.
Proof.
  unfold valid_run. rewrite andb_true_iff, Nat.eqb_eq. intros [H1 H2]. split; [done|].
  revert H2. apply forallb_impl. intros c. unfold plain_char, is_digit. lia.
Qed.

Lemma plain_publication m run_ i : message_ok run_ i m ->
  forallb plain_char (publication m) = true /\ mem_byte NUL (publication m) = false /\ (length (publication m) <= 48)%nat.
Proof. intros [_ _ _ _ _ _ _ [->|[H Hl]]]; [cbn; split_and!; done || lia|]. by apply valid_id_spec in H as (_ & ? & ?). Qed.

Lemma message_text_render run_ i m : message_ok run_ i m -> message_text m = render (message_json m).
Proof.
  intros Hok. destruct (valid_id_spec _ (ok_id _ _ _ Hok)) as (_ & Hid & _).
  unfold message_text, message_json. cbn [render map commas]. rewrite !render_int, (literal_plain (m_id m)) by done.
  by norm_app.
Qed.

Lemma messages_text_render run_ ms k :
  (forall i m, ms !! i = Some m -> message_ok run_ (k + i) m) ->
  messages_text true ms = commas (map render (map message_json ms)).
Proof.
  intros Hok. destruct ms as [|m ms']; [done|]. cbn [messages_text app].
  revert m k Hok. induction ms' as [|m' ms' IH]; intros m k Hok; pose proof (Hok O m eq_refl) as Hm.
  - cbn [messages_text map commas]. by rewrite app_nil_r, (message_text_render _ _ _ Hm).
  - cbn [messages_text app map]. rewrite commas_cons, <- (message_text_render _ _ _ Hm). do 2 f_equal.
    apply (IH m' (S k)). intros i m2 Hi. specialize (Hok (S i) m2 Hi). by rewrite Nat.add_succ_r in Hok.
Qed.

Lemma store_text_render run_ ms : mailbox_ok run_ ms -> store_text run_ ms = render (mailbox_json run_ ms) ++ replicate 0 LF.
Proof.
  intros [Hr _ Hm _ _ _ _]. destruct (valid_run_spec _ Hr) as [_ Hp]. unfold store_text, mailbox_json.
  cbn [render map commas replicate]. rewrite (messages_text_render run_ ms 0) by exact Hm.
  rewrite (literal_plain run_) by done. change (dec 1) with B"1". rewrite app_nil_r. by norm_app.
Qed.

Lemma message_json_fields m : let v := Some (message_json m) in
  jget v B"id" = Some (JStr (m_id m)) /\ jget v B"sequence" = Some (JNum (JUint (sequence m))) /\
  jget v B"job_attempt" = Some (JNum (JUint (job_attempt (sender m)))) /\
  jget v B"sender_task" = Some (int_json (task (sender m))) /\
  jget v B"sender_attempt" = Some (JNum (JUint (task_attempt (sender m)))) /\
  jget v B"recipient_task" = Some (int_json (to_task (recipient m))) /\
  jget v B"recipient_attempt" = Some (JNum (JUint (to_attempt (recipient m)))) /\
  jget v B"state" = Some (JNum (JUint (state_code (m_state m)))) /\ jget v B"payload" = Some (JStr (payload m)) /\
  jget v B"publication" = Some (JStr (publication m)).
Proof. cbv zeta. unfold message_json. cbn [jget assoc]. by split_and!. Qed.

Lemma uint_field_json v key n : jget v key = Some (JNum (JUint n)) -> n <= UINT32_MAX -> uint_field v key = Some n.
Proof. intros E H. unfold uint_field. rewrite E. by rewrite (proj2 (Z.ltb_ge _ _)) by lia. Qed.

Lemma task_field_json v key ja t a : jget v key = Some (int_json t) -> member_ok ja t a -> task_field v key = Some t.
Proof.
  intros E H. unfold task_field, int_json in *. rewrite E. unfold member_ok, TNY_MAILBOX_LEAD in *.
  change (Z.of_nat MAILBOX_TASK_MAX) with 64 in *. unfold s64, INT64_MAX.
  destruct (Z.ltb_spec t 0); cbn [mbind option_bind]; [|rewrite (proj2 (Z.leb_le t _)) by lia; cbn [mbind option_bind]];
    by rewrite (proj2 (Z.ltb_ge t (-1))), (proj2 (Z.leb_gt 64 t)) by lia.
Qed.

Lemma valid_member_ok ja t a : member_ok ja t a -> valid_member t a = true.
Proof.
  unfold member_ok, valid_member, TNY_MAILBOX_LEAD. change (Z.of_nat MAILBOX_TASK_MAX) with 64.
  intros [[-> ->]|H]; [done|]. destruct (Z.eqb_spec t (-1)); [lia|]. rewrite !andb_true_iff. lia.
Qed.

Lemma member_ok_range ja t a : 1 <= ja <= UINT32_MAX -> member_ok ja t a -> 0 <= a <= UINT32_MAX /\ -1 <= t < 64.
Proof. unfold member_ok, TNY_MAILBOX_LEAD, UINT32_MAX. change (Z.of_nat MAILBOX_TASK_MAX) with 64. lia. Qed.

Lemma state_code_inv st : state_of (state_code st) = Some st.
Proof. by destruct st. Qed.

Lemma load_message_json run_ i m : message_ok run_ i m -> load_message (message_json m) run_ i = Some m.
Proof.
  intros Hok. destruct (message_json_fields m) as (E1 & E2 & E3 & E4 & E5 & E6 & E7 & E8 & E9 & E10).
  pose proof (plain_publication _ _ _ Hok) as (_ & Hpn & Hpl).
  destruct Hok as [Hid Hseq Hrun Hatt Hs Hr (Hl & _ & Hn) Hpub].
  destruct (valid_id_spec _ Hid) as (_ & _ & Hin). pose proof (member_ok_range _ _ _ Hatt Hs). pose proof (member_ok_range _ _ _ Hatt Hr).
  unfold load_message, load_publication, plain_string, has_uint. rewrite E1, E2, E9, E10, Hin. cbn [mbind option_bind].
  rewrite Hid, Hseq, Z.eqb_refl. cbn [negb orb]. rewrite (uint_field_json _ _ _ E3) by lia. cbn [mbind option_bind].
  rewrite (proj2 (Z.eqb_neq (job_attempt (sender m)) 0)) by lia.
  rewrite (task_field_json _ _ _ _ _ E4 Hs), (uint_field_json _ _ _ E5), (task_field_json _ _ _ _ _ E6 Hr), (uint_field_json _ _ _ E7),
    (uint_field_json _ _ _ E8) by (lia || destruct (m_state m); unfold UINT32_MAX; cbn; lia).
  cbn [mbind option_bind]. rewrite (valid_member_ok _ _ _ Hs), (valid_member_ok _ _ _ Hr), state_code_inv, Hn. cbn [negb orb mbind option_bind].
  rewrite (proj2 (Z.ltb_ge _ _)), Hpn by lia. cbn [mbind option_bind].
  assert ((0 <? length (publication m))%nat && (negb (valid_id (Some (publication m))) || (48 <? length (publication m))%nat) = false) as ->.
  { destruct Hpub as [->|[-> _]]; [done|]. by rewrite (proj2 (Nat.ltb_ge 48 _)), andb_false_r by lia. }
  cbn [mbind option_bind]. subst run_. rewrite <- Hseq. by destruct m as [? ? [] [] ? ? ?].
Qed.

(** Every message suits the job. *)
Definition all_fit (job : jval) (ms : list tny_mailbox_message) : Prop := Forall (fun m => message_fits job [] m = true) ms.

Lemma message_fits_alone job before m : message_fits job before m = true -> message_fits job [] m = true.
Proof. unfold message_fits. cbn [forallb]. by intros [-> _]%andb_true_iff. Qed.

Lemma load_messages_json job run_ before ms :
  (forall i m, (before ++ ms) !! i = Some m -> message_ok run_ i m) ->
  load_messages job run_ before (map message_json ms) = Some (before ++ ms) /\ all_fit job ms \/
  load_messages job run_ before (map message_json ms) = None.
Proof.
  revert before. induction ms as [|m ms IH]; intros before Hok; cbn [map load_messages].
  { left. rewrite app_nil_r. split; [done|constructor]. }
  rewrite load_message_json by (apply Hok; by rewrite list_lookup_middle). cbn [mbind option_bind].
  destruct (message_fits job before m) eqn:Em; [|by right]. rewrite (cons_middle m before ms), (app_assoc before [m] ms) in *.
  destruct (IH _ Hok) as [[H Hf]|H]; [left|by right]. split; [done|]. constructor; [by eapply message_fits_alone|done].
Qed.

Lemma load_messages_fit job run_ before ms :
  (forall i m, (before ++ ms) !! i = Some m -> message_ok run_ i m) -> NoDup (map m_id (before ++ ms)) -> all_fit job ms ->
  load_messages job run_ before (map message_json ms) = Some (before ++ ms).
Proof.
  revert before. induction ms as [|m ms IH]; intros before Hok Hnd Hfit; cbn [map load_messages]; [by rewrite app_nil_r|].
  rewrite load_message_json by (apply Hok; by rewrite list_lookup_middle). cbn [mbind option_bind].
  assert (message_fits job before m = true) as ->.
  { pose proof (Forall_inv Hfit) as Hm. unfold message_fits in *. cbn [forallb] in Hm. apply andb_true_iff in Hm as [-> _].
    cbn [andb]. apply forallb_forall. intros k Hk. rewrite negb_true_iff. apply str_eq_false. intros E.
    rewrite map_app in Hnd. apply list.NoDup_app in Hnd as (_ & Hd & _). apply (Hd (m_id k)).
    - apply list_elem_of_In, in_map_iff. by exists k.
    - rewrite E. cbn [map]. by left. }
  rewrite (cons_middle m before ms), (app_assoc before [m] ms) in *. apply IH; [done..|]. by apply Forall_inv_tail in Hfit.
Qed.

Lemma mailbox_json_plain run_ ms : mailbox_ok run_ ms -> plain (mailbox_json run_ ms) = true.
Proof.
  intros [Hr Hl Hm _ _ _ _]. destruct (valid_run_spec _ Hr) as [_ Hp]. unfold mailbox_json. cbn [plain forallb].
  assert (forallb plain (map message_json ms) = true) as ->; [|by rewrite (plain_text _ Hp)].
  apply forallb_forall. intros v (m & <- & Hin)%in_map_iff. apply list_elem_of_In, list_elem_of_lookup in Hin as [i Hi].
  specialize (Hm i m Hi). pose proof (lookup_lt_Some _ _ _ Hi). unfold TNY_MAILBOX_HISTORY_MAX in Hl.
  destruct (plain_publication _ _ _ Hm) as (Hpub & _). destruct Hm as [Hid Hs _ Hatt Hse Hre (_ & Ht & _) _].
  pose proof (member_ok_range _ _ _ Hatt Hse). pose proof (member_ok_range _ _ _ Hatt Hre).
  apply valid_id_spec in Hid as (_ & Hid & _). unfold message_json. cbn [plain forallb].
  rewrite (plain_text _ Hid), (plain_text _ Hpub), Ht. unfold UINT32_MAX, SIZE_MAX in *.
  assert (plain (int_json (task (sender m))) = true /\ plain (int_json (to_task (recipient m))) = true) as [-> ->].
  { unfold int_json. split; case_if; cbn [plain]; unfold SIZE_MAX; lia. }
  repeat (apply andb_true_iff; split); try done; apply Z.leb_le; destruct (m_state m); cbn [state_code]; lia.
Qed.

Lemma escaped_length_le s : (length (concat (map escape_char s)) <= 6 * length s)%nat.
Proof.
  induction s as [|c s IH]; [done|]. cbn [map concat length]. rewrite length_app.
  assert (length (escape_char c) <= 6)%nat by (unfold escape_char; repeat case_if; cbn; lia). lia.
Qed.

Lemma literal_length s : (length (literal s) <= 6 * length s + 2)%nat.
Proof. unfold literal. cbn [length]. rewrite length_app. cbn [length]. pose proof (escaped_length_le s). lia. Qed.

Lemma dec_int_length t : -1 <= t < 64 -> (length (dec_int t) <= 2)%nat.
Proof.
  intros H. unfold dec_int. destruct (Z.ltb_spec t 0); [assert (t = -1) as -> by lia; done|].
  apply (dec_width t 2); [lia|change (10 ^ Z.of_nat 2) with 100; lia].
Qed.

Lemma message_text_length run_ i m :
  message_ok run_ i m -> (i < 256)%nat -> Z.of_nat (length (message_text m)) <= 6 * 16384 + 600.
Proof.
  intros Hok Hi. destruct (plain_publication _ _ _ Hok) as (Hpp & _ & Hpl). destruct Hok as [Hid Hs _ Hatt Hse Hre (Hl & _) _].
  pose proof (member_ok_range _ _ _ Hatt Hse). pose proof (member_ok_range _ _ _ Hatt Hre).
  apply valid_id_spec in Hid as (Hid & _). unfold UINT32_MAX, TNY_MAILBOX_PAYLOAD_MAX in *.
  pose proof (dec_width64 (sequence m) ltac:(unfold SIZE_MAX; lia)).
  pose proof (dec_width64 (job_attempt (sender m)) ltac:(unfold SIZE_MAX; lia)).
  pose proof (dec_width64 (task_attempt (sender m)) ltac:(unfold SIZE_MAX; lia)).
  pose proof (dec_width64 (to_attempt (recipient m)) ltac:(unfold SIZE_MAX; lia)).
  pose proof (dec_width64 (state_code (m_state m)) ltac:(destruct (m_state m); cbn; unfold SIZE_MAX; lia)).
  pose proof (dec_int_length (task (sender m)) ltac:(lia)). pose proof (dec_int_length (to_task (recipient m)) ltac:(lia)).
  pose proof (literal_length (payload m)). assert (length (literal (publication m)) <= 50)%nat.
  { rewrite literal_plain by done. unfold quote. cbn [length]. rewrite length_app. cbn [length]. lia. }
  unfold message_text, quote. repeat (cbn [length]; rewrite length_app). cbn [length]. lia.
Qed.

Lemma messages_text_length run_ ms k b :
  (forall i m, ms !! i = Some m -> message_ok run_ (k + i) m) -> (k + length ms <= 256)%nat ->
  Z.of_nat (length (messages_text b ms)) <= (6 * 16384 + 601) * Z.of_nat (length ms).
Proof.
  revert k b. induction ms as [|m ms IH]; intros k b Hok Hl; [cbn; lia|]. cbn [messages_text length] in *.
  rewrite !length_app. pose proof (message_text_length run_ (k + 0) m (Hok O m eq_refl) ltac:(lia)).
  specialize (IH (S k) false). assert (length (if b then [] else [C","]) <= 1)%nat by (destruct b; cbn; lia).
  enough (Z.of_nat (length (messages_text false ms)) <= (6 * 16384 + 601) * Z.of_nat (length ms)) by lia. apply IH; [|lia].
  intros i m' Hi. specialize (Hok (S i) m' Hi). by rewrite Nat.add_succ_r in Hok.
Qed.

Lemma store_text_length run_ ms : mailbox_ok run_ ms -> Z.of_nat (length (store_text run_ ms)) <= MAILBOX_RECORD_MAX.
Proof.
  intros [Hr Hl Hm _ _ _ _]. destruct (valid_run_spec _ Hr) as [Hr' _]. unfold TNY_MAILBOX_HISTORY_MAX, MAILBOX_RECORD_MAX in *.
  pose proof (messages_text_length run_ ms 0 true Hm ltac:(lia)).
  unfold store_text, quote. repeat (cbn [length app]; rewrite ?length_app). cbn [length]. lia.
Qed.

Lemma load_mailbox_cases jparse `{!JsonReader jparse} h run_ run' job ms :
  mailbox_ok run_ ms ->
  load_mailbox jparse h run' job (Some (store_text run_ ms)) = inr ms /\ run' = run_ /\ all_fit job ms \/
  exists rc, load_mailbox jparse h run' job (Some (store_text run_ ms)) = inl rc /\
    (mailbox_readable h = true -> mailbox_memory h = true -> run' = run_ -> all_fit job ms -> False).
Proof.
  intros Hok. pose proof (store_text_length _ _ Hok) as Hl. unfold load_mailbox.
  destruct (mailbox_readable h); cbn [negb]; [|right; by eexists]. rewrite (proj2 (Z.ltb_ge _ _)) by lia.
  destruct (mailbox_memory h); [|right; by eexists].
  rewrite (store_text_render _ _ Hok), jparse_render by (by apply mailbox_json_plain).
  change (jget (Some (mailbox_json run_ ms)) B"run") with (Some (JStr run_)).
  change (jget_int (Some (mailbox_json run_ ms)) B"version" 0 =? 1) with true.
  change (jget (Some (mailbox_json run_ ms)) B"messages") with (Some (JArr (map message_json ms))).
  cbn [text_is is_arr elements]. rewrite length_map, (proj2 (Nat.leb_le _ _)), !andb_true_r by apply Hok.
  destruct (str_eq run_ run') eqn:Er; [apply str_eq_true in Er; subst run'|apply str_eq_false in Er; right; eexists; split; [done|congruence]].
  destruct (load_messages_json job run_ [] ms (mb_message _ _ Hok)) as [[-> Hfit]| E]; [by left|]. right. rewrite E. eexists. split; [done|].
  intros _ _ _ Hf. rewrite (load_messages_fit job run_ [] ms (mb_message _ _ Hok) (mb_ids _ _ Hok) Hf) in E. done.
Qed.

(** ** Lemmas: transactions *)

Lemma mailbox_ok_nil run_ : valid_run run_ = true -> mailbox_ok run_ [].
Proof. intros H. split; try done; [cbn; lia|constructor|cbn; lia]. Qed.

Lemma uint_field_le v key n : uint_field v key = Some n -> n <= UINT32_MAX.
Proof.
  unfold uint_field. destruct (jget v key) as [[| |[n'| |]| | |]|]; try done.
  destruct (Z.ltb_spec UINT32_MAX n'); [done|]. intros [= <-]. lia.
Qed.

Lemma items_valid_lookup attempt k items i item :
  items_valid attempt k items = true -> items !! i = Some item -> item_valid attempt (k + i) item = true.
Proof.
  revert k i. induction items as [|x items IH]; intros k [|i]; cbn [items_valid]; try done; intros [Hx Hs]%andb_true_iff.
  - intros [= ->]. by rewrite Nat.add_0_r.
  - intros Hi. rewrite Nat.add_succ_r. apply (IH (S k)); done.
Qed.

Lemma job_valid_spec job run_ attempt : job_valid (Some job) run_ = Some attempt ->
  1 <= attempt <= UINT32_MAX /\ (length (elements (jget (Some job) B"items")) <= MAILBOX_TASK_MAX)%nat /\
  items_valid attempt 0 (elements (jget (Some job) B"items")) = true.
Proof.
  unfold job_valid. destruct (uint_field (Some job) B"attempt") as [a|] eqn:Ea; [|done]. cbn [mbind option_bind].
  match goal with |- (if ?b then _ else _) = _ -> _ => destruct b eqn:E; [|done] end. intros [= <-].
  apply uint_field_le in Ea. rewrite !andb_true_iff in E. destruct E as [[[[[[[[[_ _] _] Hpos] _] _] _] _] Hl] Hi].
  apply Nat.leb_le in Hl. split_and!; try done; lia.
Qed.

Lemma member_check_ok job run_ attempt t a b :
  job_valid (Some job) run_ = Some attempt -> member_check (Some job) t a b = MAILBOX_OK -> member_ok attempt t a.
Proof.
  intros Hj%job_valid_spec. destruct Hj as (_ & Hl & Hi). unfold member_check, member_ok.
  destruct (Z.eqb_spec t TNY_MAILBOX_LEAD) as [->|]; [destruct (Z.eqb_spec a 0); [by left|done]|].
  destruct (item_at (Some job) t) as [item|] eqn:Eit; [|done]. unfold item_at in Eit. destruct (Z.leb_spec 0 t); [|done].
  pose proof (items_valid_lookup _ _ _ _ _ Hi Eit) as Hv. apply lookup_lt_Some in Eit.
  destruct (bool_decide _) eqn:Eb; cbn [negb]; [|done]. apply bool_decide_eq_true in Eb.
  intros _. right. unfold item_valid in Hv. rewrite Eb, !andb_true_iff in Hv.
  change (Z.of_nat MAILBOX_TASK_MAX) with 64. unfold MAILBOX_TASK_MAX in Hl. split; [lia|]. destruct Hv as [[[_ Hv] _] _]. lia.
Qed.

(** A member the job lists. *)
Definition in_job (job : jval) (task : Z) : Prop :=
  task = TNY_MAILBOX_LEAD \/ task < Z.of_nat (length (elements (jget (Some job) B"items"))).

Lemma member_check_in job t a b : member_check (Some job) t a b = MAILBOX_OK -> in_job job t.
Proof.
  unfold member_check, in_job. destruct (Z.eqb_spec t TNY_MAILBOX_LEAD) as [->|]; [by left|].
  destruct (item_at (Some job) t) as [item|] eqn:E; [|done]. intros _. right. unfold item_at in E.
  destruct (Z.leb_spec 0 t); [|done]. apply lookup_lt_Some in E. lia.
Qed.

Lemma job_attempt_read job run_ attempt :
  job_valid (Some job) run_ = Some attempt -> u64 (jget_int (Some job) B"attempt" 0) = attempt.
Proof.
  intros Hj. destruct (job_valid_spec _ _ _ Hj) as (Ha & _). unfold job_valid in Hj.
  destruct (uint_field (Some job) B"attempt") as [a|] eqn:Ea; [|done]. cbn [mbind option_bind] in Hj.
  match type of Hj with (if ?b then _ else _) = _ => destruct b; [|done] end. injection Hj as ->.
  unfold uint_field in Ea. unfold jget_int. destruct (jget (Some job) B"attempt") as [[| |[n| |]| | |]|]; try done.
  destruct (UINT32_MAX <? n); [done|]. injection Ea as ->. unfold UINT32_MAX, INT64_MAX in *.
  rewrite (proj2 (Z.leb_le attempt _)) by lia. unfold u64. rewrite Z.mod_small by lia. done.
Qed.

Lemma member_ok_le ja t a : 1 <= ja -> member_ok ja t a -> a <= ja.
Proof. unfold member_ok. lia. Qed.

(** A new message suits the job it is accepted under. *)
Lemma new_fits job run_ c m :
  job_valid (Some job) run_ = Some (job_attempt c) -> sender m = c -> m_state m = QUEUED ->
  member_ok (job_attempt c) (task c) (task_attempt c) -> in_job job (task c) ->
  member_ok (job_attempt c) (to_task (recipient m)) (to_attempt (recipient m)) -> in_job job (to_task (recipient m)) ->
  message_fits job [] m = true.
Proof.
  intros Hj Hs Hst Hm1 Hi1 Hm2 Hi2. destruct (job_valid_spec _ _ _ Hj) as (Ha & _). unfold message_fits, is_state.
  rewrite (job_attempt_read _ _ _ Hj), Hs, Hst, (bool_decide_eq_false_2 (QUEUED = RETIRED)) by done.
  cbn [forallb negb orb andb]. pose proof (member_ok_le (job_attempt c) _ _ ltac:(lia) Hm1).
  pose proof (member_ok_le (job_attempt c) _ _ ltac:(lia) Hm2).
  unfold in_job in *. rewrite !andb_true_iff, !orb_true_iff, !Z.eqb_eq, !Z.ltb_lt, !Z.leb_le. split_and!; done || lia.
Qed.

Lemma fits_state job m st : message_fits job [] m = true ->
  (st = RETIRED -> job_attempt (sender m) < u64 (jget_int (Some job) B"attempt" 0)) -> message_fits job [] (set_state st m) = true.
Proof.
  unfold message_fits, is_state. cbn [set_state sender recipient m_state forallb]. rewrite !andb_true_iff, !orb_true_iff, !negb_true_iff.
  intros [[[[[[H1 H2] H3] H4] H5] H6] _] Hst. split_and!; try done. rewrite bool_decide_eq_false, Z.ltb_lt.
  destruct (decide (st = RETIRED)); [right; auto|by left].
Qed.

(** The job a call reads. *)
Definition job_of (jparse : bytes -> option jval) (h : host) : option jval :=
  data ← job_data h; if job_memory h then jparse data else None.

(** What a transaction has established: the caller belongs to a valid job, and
    these are the run's messages. *)
Record txn_ok (c : tny_mailbox_identity) (t : mailbox_txn) (ms : list tny_mailbox_message) : Prop := {
  tx_messages : messages t = ms;
  tx_mailbox : mailbox_ok (run c) ms;
  tx_job : job_valid (Some (job t)) (run c) = Some (job_attempt c);
  tx_member : member_ok (job_attempt c) (task c) (task_attempt c);
  tx_in : in_job (job t) (task c);
  tx_fit : all_fit (job t) ms }.

Lemma txn_begin_spec jparse `{!JsonReader jparse} s caller h file ms c t :
  holds file ms -> txn_begin jparse s caller h file = inr (c, t) -> caller = Some c /\ job_of jparse h = Some (job t) /\ txn_ok c t ms.
Proof.
  intros Hf. unfold txn_begin. destruct s as [s|]; [|done]. destruct caller as [c'|]; [|done].
  destruct (negb (valid_run (run c')) || _ || _ || _) eqn:Ev; [done|]. destruct (negb _ || negb _); [done|].
  destruct (authorize s) as [auth|]; [|done]. destruct (negb (job_reachable h)); [done|]. destruct (lock h); try done.
  unfold job_of. destruct (job_data h) as [data|]; [|done]. cbn [mbind option_bind].
  destruct (if job_memory h then jparse data else None) as [job|]; [|done].
  destruct (job_valid (Some job) (run c')) as [attempt|] eqn:Ej; [|done]. destruct (auth c' data) as [peers|]; [|done].
  destruct (Z.eqb_spec attempt (job_attempt c')) as [->|]; [|done]. cbn [negb].
  destruct (member_check (Some job) (task c') (task_attempt c') false) eqn:Em; try done.
  destruct (negb (txn_memory h)); [done|].
  assert (Hl : forall ms', load_mailbox jparse h (run c') job file = inr ms' -> ms' = ms /\ mailbox_ok (run c') ms /\ all_fit job ms).
  { intros ms'. boolify. destruct Hf as [[-> ->]|(run_ & -> & Hok & _)].
    - unfold load_mailbox. destruct (negb (mailbox_readable h)); [done|]. intros [= <-]. split; [done|]. split; [|constructor].
      apply mailbox_ok_nil. by destruct (valid_run (run c')).
    - destruct (load_mailbox_cases jparse h run_ (run c') job ms Hok) as [(-> & -> & Hfit)|(rc & -> & _)]; [|done].
      intros [= <-]. done. }
  destruct (load_mailbox jparse h (run c') job file) as [rc|ms']; [done|]. destruct (Hl ms' eq_refl) as (-> & Hok & Hfit).
  intros [= <- <-]. split; [done|]. split; [done|]. split; try done; [by apply (member_check_ok _ _ _ _ _ false Ej)|by apply (member_check_in _ _ _ _ Em)].
Qed.

(** Messages of the job's run, each of which suits the job. *)
Definition suits (job : jval) (ms : list tny_mailbox_message) : Prop :=
  all_fit job ms /\ exists run_, mailbox_ok run_ ms /\ text_is (jget (Some job) B"id") run_ = true.

(** The messages are as they were, or suit the job that was read. *)
Definition kept (j : option jval) (ms ms' : list tny_mailbox_message) : Prop :=
  ms' = ms \/ exists job, j = Some job /\ suits job ms'.

Lemma job_valid_id job run_ attempt : job_valid (Some job) run_ = Some attempt -> text_is (jget (Some job) B"id") run_ = true.
Proof.
  unfold job_valid. destruct (uint_field (Some job) B"attempt") as [a|]; [|done]. cbn [mbind option_bind].
  match goal with |- (if ?b then _ else _) = _ -> _ => destruct b eqn:E; [|done] end. intros _. rewrite !andb_true_iff in E.
  by destruct E as [[[[[[[[[_ _] H] _] _] _] _] _] _] _].
Qed.

Lemma kept_suits jparse h job run_ attempt ms ms' :
  job_of jparse h = Some job -> job_valid (Some job) run_ = Some attempt -> mailbox_ok run_ ms' -> all_fit job ms' ->
  kept (job_of jparse h) ms ms'.
Proof.
  intros Hj Hv Hok Hf. right. exists job. split; [done|]. split; [done|]. exists run_. split; [done|]. by eapply job_valid_id.
Qed.

Lemma fit_alter job st i ms : st <> RETIRED -> all_fit job ms -> all_fit job (alter (set_state st) i ms).
Proof. intros Hst Hf. apply Forall_alter; [done|]. intros m _ Hm. by apply fits_state. Qed.

Lemma fit_retire job t before ms :
  before <= u64 (jget_int (Some job) B"attempt" 0) -> all_fit job ms -> all_fit job (retire_all t before ms).
Proof.
  intros Hb Hf. unfold retire_all. apply Forall_map. eapply Forall_impl; [|exact Hf]. intros m Hm. cbv beta.
  destruct (retires t before m) eqn:E; [|done]. apply fits_state; [done|]. intros _. unfold retires in E.
  rewrite !andb_true_iff, Z.ltb_lt in E. lia.
Qed.

Lemma store_spec h run_ ms ms' file rc file' :
  store h run_ ms' file = (rc, file') -> holds file ms -> mailbox_ok run_ ms' -> ms' <> [] -> evolves ms ms' ->
  exists ms2, holds file' ms2 /\ evolves ms ms2 /\ (rc = MAILBOX_OK -> ms2 = ms') /\ (ms2 = ms \/ ms2 = ms').
Proof.
  unfold store. intros E Hf Hok Hne He. destruct (written h); injection E as <- <-.
  - exists ms'. split_and!; [right; by exists run_|done..|by right].
  - exists ms'. split_and!; [right; by exists run_|done..|by right].
  - exists ms. split_and!; [done|apply evolves_refl|done|by left].
Qed.
