(* ===== verification/MailboxCalls.v ===== *)
(** Sequences of requests on the mailbox (src/src/core/team_mailbox.c): what
    every call keeps and answers, repeated requests, and paging. *)
From stdpp Require Import relations sorting.
From S2P Require Import Prelude Decimal Text Json JsonText Mailbox MailboxFile.

Open Scope Z_scope.

(** ** Lemmas: changes of a mailbox *)

Lemma advanced_outstanding s s' : rtc adv_step s s' -> s' = QUEUED \/ s' = DELIVERED -> s = QUEUED \/ s = DELIVERED.
Proof. induction 1 as [|s s1 s2 Hs _ IH]; [done|]. intros H. specialize (IH H). inversion Hs; subst; naive_solver. Qed.

Lemma outstanding_true m : outstanding m = true <-> m_state m = QUEUED \/ m_state m = DELIVERED.
Proof. unfold outstanding, is_state. by rewrite orb_true_iff, !bool_decide_eq_true. Qed.

Lemma later_fields m m' : later m m' ->
  m_id m' = m_id m /\ sequence m' = sequence m /\ sender m' = sender m /\ recipient m' = recipient m /\
  payload m' = payload m /\ publication m' = publication m /\ (outstanding m' = true -> outstanding m = true).
Proof.
  intros [E H]. split_and!; try (by rewrite E). rewrite !outstanding_true. by apply advanced_outstanding.
Qed.

Lemma evolves_same ms ms' : Forall2 later ms ms' -> evolves ms ms'.
Proof. intros H. exists ms', []. split; [by rewrite app_nil_r|]. by split. Qed.

Lemma pending_later ms ms' t : Forall2 later ms ms' -> (pending ms' t <= pending ms t)%nat.
Proof.
  unfold pending. induction 1 as [|m m' ms ms' H _ IH]; [done|]. cbn [List.filter].
  destruct (later_fields _ _ H) as (_ & _ & _ & -> & _ & _ & Ho).
  destruct (to_task (recipient m) =? t); cbn [andb]; [|done].
  destruct (outstanding m'); [rewrite Ho by done; cbn; lia|]. destruct (outstanding m); cbn; lia.
Qed.

Lemma later_ids ms ms' : Forall2 later ms ms' -> map m_id ms' = map m_id ms.
Proof. induction 1 as [|m m' ms ms' H _ IH]; [done|]. cbn [map]. by destruct (later_fields _ _ H) as (-> & _); rewrite IH. Qed.

Lemma mailbox_ok_later run_ ms ms' : mailbox_ok run_ ms -> Forall2 later ms ms' -> mailbox_ok run_ ms'.
Proof.
  intros [H1 H2 H3 H4 H5 H6 H7] Hf.
  assert (Hback : forall i m', ms' !! i = Some m' -> exists m, ms !! i = Some m /\ later m m').
  { intros i m' Hi. destruct (Forall2_lookup_r _ _ _ _ _ Hf Hi) as (m & ? & ?). by exists m. }
  split; [done| | | | | |].
  - by rewrite <- (Forall2_length Hf).
  - intros i m' Hi. destruct (Hback i m' Hi) as (m & Hm & Hl). destruct (H3 i m Hm).
    destruct (later_fields _ _ Hl) as (E1 & E2 & E3 & E4 & E5 & E6 & _). by split; rewrite ?E1, ?E2, ?E3, ?E4, ?E5, ?E6.
  - by rewrite (later_ids _ _ Hf).
  - intros m m' Hm Hm'. apply list_elem_of_In, list_elem_of_lookup in Hm as [i Hi], Hm' as [j Hj].
    destruct (Hback i m Hi) as (n & Hn & Hl). destruct (Hback j m' Hj) as (n' & Hn' & Hl').
    destruct (later_fields _ _ Hl) as (-> & _). destruct (later_fields _ _ Hl') as (_ & _ & _ & _ & _ & -> & _).
    apply H5; apply list_elem_of_In, list_elem_of_lookup; by eexists.
  - intros t. pose proof (pending_later _ _ t Hf). specialize (H6 t). lia.
  - intros i j m m' Hi Hj. destruct (Hback i m Hi) as (n & Hn & Hl). destruct (Hback j m' Hj) as (n' & Hn' & Hl').
    destruct (later_fields _ _ Hl) as (_ & _ & -> & -> & -> & -> & _).
    destruct (later_fields _ _ Hl') as (_ & _ & -> & -> & -> & -> & _). by apply H7.
Qed.

Lemma later_alter ms i st m :
  ms !! i = Some m -> rtc adv_step (m_state m) st -> Forall2 later ms (alter (set_state st) i ms).
Proof.
  intros Hi H. apply Forall2_lookup. intros j. destruct (decide (i = j)) as [<-|Hne].
  - rewrite list_lookup_alter_eq, Hi. cbn. constructor. by apply later_set.
  - rewrite list_lookup_alter_ne by done. destruct (ms !! j); constructor. apply later_refl.
Qed.

Lemma later_retire t before ms : Forall2 later ms (retire_all t before ms).
Proof.
  induction ms as [|m ms IH]; constructor; [|done]. destruct (retires t before m) eqn:E; [|apply later_refl].
  apply later_set, rtc_once. constructor. unfold retires in E. rewrite !andb_true_iff in E. by apply outstanding_true, E.
Qed.

(** A message may join when its identifier is new, its publication is consistent
    and its recipient has room. *)
Record may_join (run_ : bytes) (ms : list tny_mailbox_message) (m : tny_mailbox_message) : Prop := {
  mj_room : (length ms < TNY_MAILBOX_HISTORY_MAX)%nat;
  mj_ok : message_ok run_ (length ms) m;
  mj_id : forall k, In k ms -> m_id k <> m_id m /\ publication k <> m_id m /\ m_id k <> publication m;
  mj_own : m_id m <> publication m;
  mj_pending : (pending ms (to_task (recipient m)) < TNY_MAILBOX_OUTSTANDING_MAX)%nat;
  mj_published : forall k, In k ms -> publication k = publication m -> publication m <> [] ->
    sender k = sender m /\ payload k = payload m /\ to_task (recipient k) <> to_task (recipient m) }.

Lemma pending_app ms ms' t : pending (ms ++ ms') t = (pending ms t + pending ms' t)%nat.
Proof. unfold pending. by rewrite List.filter_app, length_app. Qed.

Lemma lookup_snoc {A} (xs : list A) x i y :
  (xs ++ [x]) !! i = Some y -> xs !! i = Some y \/ i = length xs /\ y = x.
Proof.
  intros H. apply lookup_app_Some in H as [H|[Hl H]]; [by left|]. right.
  destruct (i - length xs)%nat eqn:E; [|done]. cbn in H. injection H as <-. split; [lia|done].
Qed.

Lemma mailbox_ok_join run_ ms m : mailbox_ok run_ ms -> may_join run_ ms m -> mailbox_ok run_ (ms ++ [m]).
Proof.
  intros [H1 H2 H3 H4 H5 H6 H7] [J1 J2 J3 J4 J5 J6]. split; [done| | | | | |].
  - rewrite length_app. cbn. lia.
  - intros i m' [Hi|[-> ->]]%lookup_snoc; [by apply H3|done].
  - rewrite map_app. apply list.NoDup_app. split; [done|]. split; [|apply list.NoDup_singleton].
    intros x Hx Hm. apply list_elem_of_singleton in Hm as ->. apply list_elem_of_In, in_map_iff in Hx as (k & E & Hk).
    by destruct (J3 k Hk).
  - intros k k' Hk Hk'. apply in_app_or in Hk, Hk'. cbn in Hk, Hk'.
    destruct Hk as [Hk|[<-|[]]], Hk' as [Hk'|[<-|[]]]; [by apply H5|by destruct (J3 k Hk) as (_ & _ & ?)| |done].
    intros E. by destruct (J3 k' Hk') as (_ & ? & _).
  - intros t. rewrite pending_app. specialize (H6 t). unfold pending at 2. cbn [List.filter].
    destruct (Z.eqb_spec (to_task (recipient m)) t) as [<-|]; cbn [andb]; [destruct (outstanding m)|]; cbn [length]; lia.
  - intros i j k k' [Hi|[-> ->]]%lookup_snoc [Hj|[-> ->]]%lookup_snoc; [by apply H7| | |done].
    + intros _ E Hne. apply list_elem_of_lookup_2, list_elem_of_In in Hi. apply J6; [done|done|congruence].
    + intros _ E Hne. apply list_elem_of_lookup_2, list_elem_of_In in Hj.
      destruct (J6 k' Hj) as (-> & -> & Hn); [done..|]. by split_and!.
Qed.

Lemma find_spec ms id :
  match find ms id with
  | Some i => exists m, ms !! i = Some m /\ m_id m = id
  | None => forall m, In m ms -> m_id m <> id
  end.
Proof.
  induction ms as [|m ms IH]; cbn [find]; [by intros ? []|]. destruct (str_eq (m_id m) id) eqn:E.
  - apply str_eq_true in E. by exists m.
  - apply str_eq_false in E. destruct (find ms id) as [i|]; cbn; [done|]. intros k [<-|Hk]; [done|]. by apply IH.
Qed.

(** ** Any sequence of requests *)

Inductive mailbox_request :=
  | Send (r : tny_mailbox_recipient) (id payload : option bytes) (out : bool)
  | Publish (id payload : option bytes) (out : bool)
  | ReadMessage (id : option bytes) (out : bool)
  | MarkDelivered (id : option bytes)
  | Ack (id : option bytes)
  | Retire (recipient_task before : Z) (out : bool)
  | Status (out : bool)
  | Inbox (after : Z) (capacity : nat) (limit : Z) (out : bool).

(** A call: by whom, what, and what the host does meanwhile. The calls of a
    run's processes exclude each other by the lock. *)
Record call := mk_call { who : option tny_mailbox_identity; what : mailbox_request; on_host : host }.
Record answer := mk_answer { a_rc : tny_mailbox_rc; receipts : list tny_mailbox_message }.

Section Runs.
Context (jparse : bytes -> option jval) (s : option tny_mailbox_service).

Definition answer_call (q : call) (file : option bytes) : answer * option bytes :=
  let one '(rc, m, file) := (mk_answer rc (option_list m), file) in
  let many '(rc, ms, file) := (mk_answer rc ms, file) in
  match what q with
  | Send r id payload out => one (tny_team_mailbox_send jparse s (who q) r id payload out (on_host q) file)
  | Publish id payload out => many (tny_team_mailbox_publish jparse s (who q) id payload out (on_host q) file)
  | ReadMessage id out => one (tny_team_mailbox_read jparse s (who q) id out (on_host q) file)
  | MarkDelivered id => let '(rc, _, file) := tny_team_mailbox_mark_delivered jparse s (who q) id (on_host q) file in (mk_answer rc [], file)
  | Ack id => let '(rc, _, file) := tny_team_mailbox_ack jparse s (who q) id (on_host q) file in (mk_answer rc [], file)
  | Retire t before out =>
    let '(rc, _, file) := tny_team_mailbox_retire jparse s (who q) t before out (on_host q) file in (mk_answer rc [], file)
  | Status out => (mk_answer (fst (tny_team_mailbox_status jparse s (who q) out (on_host q) file)) [], file)
  | Inbox after capacity limit out =>
    let '(rc, ms) := tny_team_mailbox_inbox jparse s (who q) after capacity limit out (on_host q) file in (mk_answer rc ms, file)
  end.

Fixpoint serve (calls : list call) (file : option bytes) : list (call * answer) * option bytes :=
  match calls with
  | [] => ([], file)
  | q :: calls =>
    let '(a, file) := answer_call q file in
    let '(answers, file) := serve calls file in
    ((q, a) :: answers, file)
  end.

End Runs.

(** Payloads are bytes. *)
Definition typed (q : call) : Prop :=
  match what q with
  | Send _ _ (Some p) _ | Publish _ (Some p) _ => Forall is_byte p
  | _ => True
  end.

Definition payload_sum (ms : list tny_mailbox_message) : Z := fold_right (fun m n => Z.of_nat (length (payload m)) + n) 0 ms.

(** What an answer says: nothing is handed out on failure; a send's receipt is
    the message that was sent; a recipient sees only what is addressed to it. *)
Definition answers (q : call) (a : answer) : Prop :=
  (a_rc a <> MAILBOX_OK -> receipts a = []) /\
  (a_rc a = MAILBOX_OK -> exists c, who q = Some c /\
    match what q with
    | Send r id p _ => exists m, receipts a = [m] /\ id = Some (m_id m) /\ p = Some (payload m) /\ sender m = c /\
        recipient m = r /\ publication m = []
    | Publish id p _ => receipts a <> [] /\
        Forall (fun m => id = Some (publication m) /\ p = Some (payload m) /\ sender m = c) (receipts a)
    | ReadMessage id _ => exists m, receipts a = [m] /\ id = Some (m_id m) /\ addressed m c = true
    | Inbox after capacity limit _ =>
        Forall (fun m => addressed m c = true /\ outstanding m = true /\ after < sequence m) (receipts a) /\
        (length (receipts a) <= capacity)%nat /\ payload_sum (receipts a) <= limit
    | _ => receipts a = []
    end).

(** One call on a mailbox that holds [ms]. *)
Definition call_ok (jparse : bytes -> option jval) (q : call) (a : answer) (ms : list tny_mailbox_message)
    (file' : option bytes) : Prop :=
  answers q a /\ exists ms', holds file' ms' /\ evolves ms ms' /\ Forall (fun m => In m ms') (receipts a) /\
    kept (job_of jparse (on_host q)) ms ms'.

Lemma identity_same (a b : tny_mailbox_identity) :
  run a = run b -> job_attempt a = job_attempt b -> task a = task b -> task_attempt a = task_attempt b -> a = b.
Proof. destruct a, b; cbn. naive_solver. Qed.

Lemma recorded_lookup run_ ms i m : mailbox_ok run_ ms -> ms !! i = Some m -> recorded ms m.
Proof. intros Hok Hi. exists i, m. split_and!; [done| |apply later_refl]. apply (mb_message _ _ Hok i m Hi). Qed.

Lemma lookup_in {A} (xs : list A) i x : xs !! i = Some x -> In x xs.
Proof. intros H. by eapply list_elem_of_In, list_elem_of_lookup_2. Qed.

Lemma in_new {A} (xs ys : list A) : Forall (fun y => In y (xs ++ ys)) ys.
Proof. apply Forall_forall. intros y Hy. apply in_or_app. by right. Qed.

Lemma recorded_in run_ ms m : mailbox_ok run_ ms -> In m ms -> recorded ms m.
Proof. intros Hok Hm. apply list_elem_of_In, list_elem_of_lookup in Hm as [i Hi]. by eapply recorded_lookup. Qed.

Lemma valid_payload_spec jparse `{!JsonReader jparse} h p :
  Forall is_byte p -> valid_payload jparse h (Some p) = true ->
  Z.of_nat (length p) <= TNY_MAILBOX_PAYLOAD_MAX /\ json_text p = true /\ mem_byte NUL p = false.
Proof.
  intros Hb. unfold valid_payload. rewrite !andb_true_iff, Z.leb_le. intros [[[H1 H2] _] H4].
  split; [done|]. split; [|by destruct (mem_byte NUL p)]. destruct (jparse (literal p)) as [v|] eqn:E; [|done].
  by eapply jparse_literal.
Qed.

(** Failing without a write. *)
Lemma call_failed jparse q rc ms file : rc <> MAILBOX_OK -> holds file ms -> call_ok jparse q (mk_answer rc []) ms file.
Proof. intros Hrc Hf. split; [by split|]. exists ms. split_and!; [done|apply evolves_refl|constructor|by left]. Qed.

(** One early return after another. *)
Ltac early :=
  match goal with
  | |- context [if ?b then (_, _, _) else _] => destruct b eqn:?; [by apply call_failed|]
  | |- context [match ?x with inl _ => _ | inr _ => _ end] => destruct x eqn:?; [try by apply call_failed|]
  end.

Lemma load_rc jparse h run_ job file rc : load_mailbox jparse h run_ job file = inl rc -> rc <> MAILBOX_OK.
Proof.
  unfold load_mailbox. repeat (match goal with |- context [match ?x with _ => _ end] => destruct x end; try done).
  all: by intros [= <-].
Qed.

Lemma txn_rc jparse s caller h file rc : txn_begin jparse s caller h file = inl rc -> rc <> MAILBOX_OK.
Proof.
  unfold txn_begin.
  repeat match goal with
         | |- context [match load_mailbox ?j ?h ?r ?b ?f with _ => _ end] =>
           destruct (load_mailbox j h r b f) eqn:?; [intros [= <-]; by eapply load_rc|]
         | |- context [match ?x with _ => _ end] => destruct x; try done
         end.
  all: by intros [= <-].
Qed.

(** Succeeding without a write. *)
Lemma call_answered jparse q out ms file :
  holds file ms -> answers q (mk_answer MAILBOX_OK out) -> Forall (fun m => In m ms) out -> call_ok jparse q (mk_answer MAILBOX_OK out) ms file.
Proof. intros Hf Ha Ho. split; [done|]. exists ms. split_and!; [done|apply evolves_refl|done|by left]. Qed.

(** Writing, which may fail before or after the file is replaced. *)
Lemma call_stored jparse q h run_ ms ms' file rc file' out :
  store h run_ ms' file = (rc, file') -> holds file ms -> mailbox_ok run_ ms' -> ms' <> [] -> evolves ms ms' ->
  kept (job_of jparse (on_host q)) ms ms' -> answers q (mk_answer MAILBOX_OK out) -> Forall (fun m => In m ms') out ->
  call_ok jparse q (mk_answer rc (match rc with MAILBOX_OK => out | _ => [] end)) ms file'.
Proof.
  intros E Hf Hok Hn He Hk Ha Ho. destruct (store_spec _ _ _ _ _ _ _ E Hf Hok Hn He) as (ms2 & Hf2 & He2 & Hrc & Hor).
  destruct (decide (rc = MAILBOX_OK)) as [->|Hne].
  - rewrite (Hrc eq_refl) in *. split; [done|]. by exists ms'.
  - replace (match rc with MAILBOX_OK => out | _ => [] end) with (@nil tny_mailbox_message) by (by destruct rc).
    split; [by split|]. exists ms2. split_and!; [done..|constructor|]. destruct Hor as [->| ->]; [by left|done].
Qed.

(** A repeated send finds its message. *)
Lemma send_replayed run_ ms i m c r p :
  mailbox_ok run_ ms -> run c = run_ -> ms !! i = Some m -> same_send m c r p = true ->
  sender m = c /\ recipient m = r /\ payload m = p /\ publication m = [].
Proof.
  intros Hok Hr Hi. pose proof (ok_run _ _ _ (mb_message _ _ Hok i m Hi)) as Hm. unfold same_send.
  rewrite !andb_true_iff, !Z.eqb_eq, !str_eq_true. intros [[[[[[E1 E2] E3] E4] E5] E6] E7]. split_and!; try done.
  - by apply identity_same; [congruence|..].
  - destruct (recipient m), r; cbn in *; congruence.
Qed.

(** A new send may join. *)
Lemma send_joins run_ ms c r id p attempt :
  mailbox_ok run_ ms -> run c = run_ -> job_attempt c = attempt -> 1 <= attempt <= UINT32_MAX ->
  member_ok attempt (task c) (task_attempt c) -> member_ok attempt (to_task r) (to_attempt r) ->
  valid_id (Some id) = true -> Z.of_nat (length p) <= TNY_MAILBOX_PAYLOAD_MAX /\ json_text p = true /\ mem_byte NUL p = false ->
  (forall m, In m ms -> m_id m <> id) -> existsb (fun m => str_eq (publication m) id) ms = false ->
  (pending ms (to_task r) < TNY_MAILBOX_OUTSTANDING_MAX)%nat -> length ms <> TNY_MAILBOX_HISTORY_MAX ->
  may_join run_ ms (mk_message id (Z.of_nat (length ms) + 1) c r QUEUED p []).
Proof.
  intros Hok Hr <- Ha Hc Hrm Hid Hp Hfind Hpub Hpend Hlen. pose proof (mb_length _ _ Hok).
  split; cbn; [lia| | | |done|done].
  - split; cbn; try done. by left.
  - intros k Hk. split_and!; [by apply Hfind| |].
    + intros E. assert (existsb (fun m => str_eq (publication m) id) ms = true) as Hex; [|congruence].
      apply existsb_exists. exists k. split; [done|]. by apply str_eq_true.
    + apply list_elem_of_In, list_elem_of_lookup in Hk as [i Hi]. pose proof (ok_id _ _ _ (mb_message _ _ Hok i k Hi)) as Hv.
      intros E. by rewrite E in Hv.
  - by intros ->.
Qed.

Section Steps.
Context (jparse : bytes -> option jval) `{!JsonReader jparse} (s : option tny_mailbox_service).

Lemma send_ok c r id p out h file ms :
  typed (mk_call c (Send r id p out) h) -> holds file ms ->
  let '(rc, m, file') := tny_team_mailbox_send jparse s c r id p out h file in
  call_ok jparse (mk_call c (Send r id p out) h) (mk_answer rc (option_list m)) ms file'.
Proof.
  intros Ht Hf. unfold tny_team_mailbox_send. early. boolify. destruct id as [id|]; [|done]. destruct p as [p|]; [|done].
  change (default [] (Some id)) with id. change (default [] (Some p)) with p. cbn [typed what] in Ht.
  destruct (txn_begin jparse s c h file) as [rc|[c' t]] eqn:Etx; [apply call_failed; [by eapply txn_rc|done]|].
  destruct (txn_begin_spec _ _ _ _ _ _ _ _ Hf Etx) as (-> & Hread & [<- Hok Hjob Hmem Hin Hfit]). set (ms := messages t) in *.
  destruct (member_check (Some (job t)) (to_task r) (to_attempt r) false) eqn:Er; try by apply call_failed.
  do 2 early.
  pose proof (find_spec ms id) as Hfind. destruct (find ms id) as [i|]; cbn [mbind option_bind].
  { destruct Hfind as (m & Hi & Hid). rewrite Hi. destruct (same_send m c' r p) eqn:Es; [|by apply call_failed].
    unfold sync_receipt. destruct (synced h); [|by apply call_failed].
    destruct (send_replayed _ _ _ _ _ _ _ Hok eq_refl Hi Es) as (E1 & E2 & E3 & E4).
    apply call_answered; [done| |by repeat constructor; eapply lookup_in].
    split; [done|]. intros _. exists c'. split; [done|]. exists m. cbn. by split_and!; try congruence. }
  early.
  destruct (member_check (Some (job t)) (task c') (task_attempt c') true) eqn:Ec; try by apply call_failed.
  destruct (member_check (Some (job t)) (to_task r) (to_attempt r) true) eqn:Er'; try by apply call_failed.
  do 2 early. destruct (job_valid_spec _ _ _ Hjob) as (Ha & _ & _).
  assert (may_join (run c') ms (mk_message id (Z.of_nat (length ms) + 1) c' r QUEUED p [])) as Hj.
  { apply (send_joins _ _ _ _ _ _ (job_attempt c')); try done.
    - by apply (member_check_ok _ _ _ _ _ true Hjob).
    - by apply (valid_payload_spec jparse h).
    - by apply Nat.leb_gt.
    - by apply Nat.eqb_neq. }
  set (m := mk_message _ _ _ _ _ _ _) in *. pose proof (mailbox_ok_join _ _ _ Hok Hj) as Hok'.
  destruct (store h (run c') (ms ++ [m]) file) as [rc file'] eqn:Est.
  assert (call_ok jparse (mk_call (Some c') (Send r (Some id) (Some p) out) h)
    (mk_answer rc (match rc with MAILBOX_OK => [m] | _ => [] end)) ms file') as H'; [|by destruct rc].
  apply (call_stored _ _ _ _ _ _ _ _ _ _ Est);
    [done|done|by destruct ms|by apply evolves_app; repeat constructor| | |apply in_new].
  - apply (kept_suits _ _ _ _ _ _ _ Hread Hjob Hok'). apply Forall_app. split; [done|]. constructor; [|constructor].
    apply (new_fits _ _ _ _ Hjob); try done; [by apply (member_check_ok _ _ _ _ _ true Hjob Er')|by apply (member_check_in _ _ _ _ Er')].
  - split; [done|]. intros _. exists c'. split; [done|]. by exists m.
Qed.

(** What reading, delivering and acknowledging have in common. *)
Definition accessed (c : option tny_mailbox_identity) (id : option bytes) (rc : tny_mailbox_rc) (m : option tny_mailbox_message)
    (j : option jval) (ms : list tny_mailbox_message) (file' : option bytes) : Prop :=
  (rc <> MAILBOX_OK -> m = None) /\
  (rc = MAILBOX_OK -> exists c' m', c = Some c' /\ m = Some m' /\ id = Some (m_id m') /\ addressed m' c' = true) /\
  exists ms', holds file' ms' /\ evolves ms ms' /\ Forall (fun m => In m ms') (option_list m) /\ kept j ms ms'.

Lemma accessed_failed c id rc j ms file : rc <> MAILBOX_OK -> holds file ms -> accessed c id rc None j ms file.
Proof. intros Hrc Hf. split; [done|]. split; [done|]. exists ms. split_and!; [done|apply evolves_refl|constructor|by left]. Qed.

Lemma access_step m st :
  state_code (m_state m) < state_code st -> st = DELIVERED \/ st = ACKED -> (st = ACKED -> m_state m <> QUEUED) ->
  rtc adv_step (m_state m) st.
Proof.
  intros Hlt [->| ->] Hq; destruct (m_state m) eqn:E; cbn in Hlt; try lia; apply rtc_once.
  - apply adv_deliver.
  - by destruct (Hq eq_refl).
  - apply adv_ack.
Qed.

Lemma access_ok c id tr h file ms :
  tr = None \/ tr = Some DELIVERED \/ tr = Some ACKED -> holds file ms ->
  let '(rc, m, file') := access_message jparse s c id tr h file in accessed c id rc m (job_of jparse h) ms file'.
Proof.
  intros Htr Hf. unfold access_message. destruct (valid_id id) eqn:Ev; cbn [negb]; [|by apply accessed_failed].
  destruct id as [id|]; [|done]. change (default [] (Some id)) with id.
  destruct (txn_begin jparse s c h file) as [rc|[c' t]] eqn:Etx; [apply accessed_failed; [by eapply txn_rc|done]|].
  destruct (txn_begin_spec _ _ _ _ _ _ _ _ Hf Etx) as (-> & Hread & [<- Hok Hjob Hmem Hin Hfit]). set (ms := messages t) in *.
  pose proof (find_spec ms id) as Hfind. destruct (find ms id) as [i|]; [|by apply accessed_failed].
  destruct Hfind as (m & Hi & Hid). rewrite Hi. destruct (addressed m c') eqn:Ead; cbn [negb]; [|by apply accessed_failed].
  destruct (bool_decide (tr = Some ACKED) && is_state m QUEUED) eqn:Eq; [by apply accessed_failed|].
  assert (Hget : accessed (Some c') (Some id) MAILBOX_OK (Some m) (job_of jparse h) ms file).
  { split; [done|]. split; [intros _; exists c', m; split_and!; congruence|]. exists ms.
    split_and!; [done|apply evolves_refl|repeat constructor; by eapply lookup_in|by left]. }
  destruct tr as [st|]; [|done]. destruct (Z.ltb_spec (state_code (m_state m)) (state_code st)).
  - assert (Hst : rtc adv_step (m_state m) st).
    { apply access_step; [done|naive_solver|]. intros -> Hq. unfold is_state in Eq. by rewrite !bool_decide_eq_true_2 in Eq. }
    pose proof (later_alter _ _ _ _ Hi Hst) as Hl. pose proof (mailbox_ok_later _ _ _ Hok Hl) as Hok'.
    destruct (store h (run c') (alter (set_state st) i ms) file) as [rc file'] eqn:Est.
    assert (Hi' : alter (set_state st) i ms !! i = Some (set_state st m)) by (by rewrite list_lookup_alter_eq, Hi).
    destruct (store_spec _ _ _ _ _ _ _ Est Hf Hok' ltac:(by intros E; rewrite E in Hi') (evolves_same _ _ Hl)) as (ms2 & Hf2 & He2 & Hrc & Hor).
    assert (Hk : kept (job_of jparse h) ms (alter (set_state st) i ms)).
    { apply (kept_suits _ _ _ _ _ _ _ Hread Hjob Hok'), fit_alter; [|done]. by destruct Htr as [?|[[= ->]|[= ->]]]. }
    destruct (decide (rc = MAILBOX_OK)) as [->|Hne].
    + rewrite (Hrc eq_refl) in *. split; [done|]. split; [intros _; exists c', (set_state st m); by split_and!; [..|rewrite <- Hid|]|].
      exists (alter (set_state st) i ms). split_and!; [done..| |done]. repeat constructor. by eapply lookup_in.
    + assert (accessed (Some c') (Some id) rc None (job_of jparse h) ms file') as Ha; [|by destruct rc].
      split; [done|]. split; [done|]. exists ms2. split_and!; [done..|constructor|]. destruct Hor as [->| ->]; [by left|done].
  - unfold sync_receipt. destruct (synced h); [done|by apply accessed_failed].
Qed.

(** Calls that hand out nothing. *)
Lemma silent_ok q rc ms file' :
  (exists ms', holds file' ms' /\ evolves ms ms' /\ kept (job_of jparse (on_host q)) ms ms') -> (rc = MAILBOX_OK -> is_Some (who q)) ->
  match what q with MarkDelivered _ | Ack _ | Retire _ _ _ | Status _ => True | _ => False end ->
  call_ok jparse q (mk_answer rc []) ms file'.
Proof.
  intros (ms' & Hf & He & Hk) Hw Hq. split; [|by exists ms'; split_and!; [done..|constructor|]]. split; [done|]. intros Hrc.
  destruct (Hw Hrc) as [c Hc]. exists c. split; [done|]. by destruct (what q).
Qed.

Lemma retire_ok c rt before out h file ms :
  holds file ms ->
  let '(rc, _, file') := tny_team_mailbox_retire jparse s c rt before out h file in
  (exists ms', holds file' ms' /\ evolves ms ms' /\ kept (job_of jparse h) ms ms') /\ (rc = MAILBOX_OK -> is_Some c).
Proof.
  intros Hf. assert (Hn : exists ms', holds file ms' /\ evolves ms ms' /\ kept (job_of jparse h) ms ms')
    by (exists ms; split_and!; [done|apply evolves_refl|by left]).
  unfold tny_team_mailbox_retire. destruct (_ || _); [done|].
  destruct (txn_begin jparse s c h file) as [rc|[c' t]] eqn:Etx; [apply txn_rc in Etx; by split|].
  destruct (txn_begin_spec _ _ _ _ _ _ _ _ Hf Etx) as (-> & Hread & [<- Hok Hjob Hmem Hin Hfit]). set (ms := messages t) in *.
  destruct (negb (task c' =? _)); [done|]. destruct (Z.ltb_spec (job_attempt c') before); [done|]. destruct (negb _ && negb _); [done|].
  destruct (Nat.ltb_spec 0 (length (List.filter (retires rt before) ms))) as [Hlt|]; [|by split].
  destruct (store h (run c') (retire_all rt before ms) file) as [rc file'] eqn:Est.
  pose proof (later_retire rt before ms) as Hl.
  pose proof (mailbox_ok_later _ _ _ Hok Hl) as Hok'.
  destruct (store_spec _ _ _ _ _ _ _ Est Hf Hok' ltac:(intros E; by destruct ms; [cbn in Hlt; lia|]) (evolves_same _ _ Hl)) as (ms2 & Hf2 & He2 & _ & Hor).
  split; [|done]. exists ms2. split_and!; [done..|]. destruct Hor as [->| ->]; [by left|].
  apply (kept_suits _ _ _ _ _ _ _ Hread Hjob Hok'), fit_retire; [|done]. rewrite (job_attempt_read _ _ _ Hjob). lia.
Qed.

Lemma inbox_loop_spec ms c after capacity limit out n :
  Forall (fun m => addressed m c = true /\ outstanding m = true /\ after < sequence m) out -> payload_sum out = n ->
  n <= limit -> (length out <= capacity)%nat ->
  let '(fits, out') := inbox_loop ms c after capacity limit out n in
  (fits = false -> out' = []) /\ (exists new, out' = out ++ new /\ Forall (fun m => In m ms) new) /\
  Forall (fun m => addressed m c = true /\ outstanding m = true /\ after < sequence m) out' /\
  payload_sum out' <= limit /\ (length out' <= capacity)%nat.
Proof.
  revert out n. induction ms as [|m ms IH]; intros out n Hout Hsum Hn Hc; cbn [inbox_loop].
  { split_and!; try done; [|lia]. exists []. by rewrite app_nil_r. }
  destruct (Nat.leb_spec capacity (length out)).
  { split_and!; try done; [|lia]. exists []. by rewrite app_nil_r. }
  destruct (negb (addressed m c) || _ || _) eqn:E.
  { specialize (IH out n Hout Hsum Hn Hc). destruct (inbox_loop ms c after capacity limit out n) as [fits out'].
    destruct IH as (I1 & (new & -> & I2) & I3). split_and!; try done; [|apply I3..]. exists new. split; [done|].
    eapply Forall_impl; [|exact I2]. by right. }
  boolify. destruct (Z.ltb_spec (limit - n) (Z.of_nat (length (payload m)))).
  { split_and!; try done; [|by exists []; rewrite app_nil_r|lia]. destruct out; [done|done]. }
  assert (payload_sum (out ++ [m]) = n + Z.of_nat (length (payload m))) as Hs.
  { subst n. clear. induction out as [|x out IH]; cbn [payload_sum fold_right app] in *; [lia|]. fold (payload_sum out) in *. fold (payload_sum (out ++ [m])) in *. lia. }
  specialize (IH (out ++ [m]) _ ltac:(apply Forall_app; split; [done|repeat constructor; by try lia]) Hs ltac:(lia)
    ltac:(rewrite length_app; cbn; lia)).
  destruct (inbox_loop ms c after capacity limit (out ++ [m]) _) as [fits out'].
  destruct IH as (I1 & (new & -> & I2) & I3). split_and!; try done; [|apply I3..]. exists (m :: new). split; [by rewrite <- app_assoc|].
  constructor; [by left|]. eapply Forall_impl; [|exact I2]. by right.
Qed.

Lemma inbox_ok c after capacity limit out h file ms :
  holds file ms ->
  let '(rc, out') := tny_team_mailbox_inbox jparse s c after capacity limit out h file in
  call_ok jparse (mk_call c (Inbox after capacity limit out) h) (mk_answer rc out') ms file.
Proof.
  intros Hf. unfold tny_team_mailbox_inbox. destruct (_ || _) eqn:Eg; [by apply call_failed|]. boolify.
  destruct (txn_begin jparse s c h file) as [rc|[c' t]] eqn:Etx; [apply call_failed; [by eapply txn_rc|done]|].
  destruct (txn_begin_spec _ _ _ _ _ _ _ _ Hf Etx) as (-> & Hread & [<- Hok Hjob Hmem Hin Hfit]). set (ms := messages t) in *.
  pose proof (inbox_loop_spec ms c' after capacity limit [] 0 ltac:(constructor) eq_refl ltac:(lia) ltac:(cbn; lia)) as H'.
  destruct (inbox_loop ms c' after capacity limit [] 0) as [[] out'].
  - destruct H' as (_ & (new & -> & Hnew) & Hall & Hsum & Hlen). apply call_answered; [done| |].
    + split; [done|]. intros _. exists c'. split; [done|]. by split_and!.
    + done.
  - destruct H' as (E & _). rewrite E by done. by apply call_failed.
Qed.

End Steps.

(** ** Lemmas: publications *)

Lemma dec_inj a b : 0 <= a <= SIZE_MAX -> 0 <= b <= SIZE_MAX -> dec a = dec b -> a = b.
Proof.
  unfold SIZE_MAX. intros Ha Hb E.
  destruct (dec_spec a) as (_ & _ & Va & _); [change (10 ^ 20) with 100000000000000000000; lia|].
  destruct (dec_spec b) as (_ & _ & Vb & _); [change (10 ^ 20) with 100000000000000000000; lia|]. congruence.
Qed.

Lemma receipt_id_spec id t : valid_id (Some id) = true -> (length id <= 48)%nat -> -1 <= t < 64 ->
  valid_id (Some (receipt_id id t)) = true /\ receipt_id id t <> id /\ forall u, -1 <= u < 64 -> receipt_id id u = receipt_id id t -> u = t.
Proof.
  intros Hid Hl Ht. unfold receipt_id, dec_int.
  destruct (dec_spec (t + 1)) as (Hd & _); [change (10 ^ 20) with 100000000000000000000; lia|].
  pose proof (dec_width (t + 1) 2 ltac:(lia) ltac:(change (10 ^ Z.of_nat 2) with 100; lia)) as Hw.
  rewrite (proj2 (Z.ltb_ge (t + 1) 0)) by lia. split_and!.
  - unfold valid_id in *. rewrite !andb_true_iff in *. rewrite !forallb_app, !length_app, Nat.ltb_lt, Nat.leb_le, !andb_true_iff in *.
    cbn [length] in *. destruct Hid as [[H1 H2] H3]. split_and!; [lia|lia|done|done|].
    apply forallb_forall. intros x Hx. rewrite Forall_forall in Hd. specialize (Hd x Hx).
    unfold id_char, is_alnum. by rewrite Hd, orb_true_r.
  - intros E. apply (f_equal length) in E. rewrite !length_app in E. cbn in E. lia.
  - intros u Hu E. rewrite (proj2 (Z.ltb_ge (u + 1) 0)) in E by lia. apply app_inv_head, app_inv_head in E.
    apply dec_inj in E; unfold SIZE_MAX; lia.
Qed.

(** A receipt about to be numbered. *)
Record fresh_receipt (job : jval) (ms : list tny_mailbox_message) (c : tny_mailbox_identity) (id p : bytes) (m : tny_mailbox_message) : Prop := {
  fr_sender : sender m = c; fr_state : m_state m = QUEUED; fr_payload : payload m = p; fr_publication : publication m = id;
  fr_id : m_id m = receipt_id id (to_task (recipient m));
  fr_member : member_ok (job_attempt c) (to_task (recipient m)) (to_attempt (recipient m));
  fr_new : forall k, In k ms -> m_id k <> m_id m /\ publication k <> m_id m;
  fr_room : (pending ms (to_task (recipient m)) < TNY_MAILBOX_OUTSTANDING_MAX)%nat;
  fr_in : in_job job (to_task (recipient m)) }.

Lemma publish_receipts_spec job ms c id p tasks out out' :
  job_valid (Some job) (run c) = Some (job_attempt c) -> publish_receipts (Some job) ms c id p tasks out = inr out' ->
  exists new, out' = out ++ new /\ Forall (fresh_receipt job ms c id p) new /\ sublist (map (fun m => to_task (recipient m)) new) tasks.
Proof.
  intros Hj. revert out. induction tasks as [|t tasks IH]; intros out; cbn [publish_receipts].
  { intros [= <-]. exists []. rewrite app_nil_r. split_and!; [done|constructor|done]. }
  assert (Hskip : publish_receipts (Some job) ms c id p tasks out = inr out' ->
    exists new, out' = out ++ new /\ Forall (fresh_receipt job ms c id p) new /\ sublist (map (fun m => to_task (recipient m)) new) (t :: tasks)).
  { intros H. destruct (IH _ H) as (new & -> & Hf & Hs). exists new. split_and!; [done..|by apply sublist_cons]. }
  destruct (t =? task c); [done|]. set (a := if 0 <=? t then _ else _).
  destruct (member_check (Some job) t a true) eqn:Em; try done. set (m := mk_message _ _ _ _ _ _ _).
  destruct (existsb _ ms) eqn:Ex; [done|]. destruct (Nat.leb_spec TNY_MAILBOX_OUTSTANDING_MAX (pending ms t)); [done|].
  intros Hr. destruct (IH _ Hr) as (new & -> & Hf & Hs). exists (m :: new). split_and!; [by rewrite <- app_assoc| |by apply sublist_skip].
  constructor; [|done]. split; try done.
  - by apply (member_check_ok _ _ _ _ _ true Hj Em).
  - intros k Hk. rewrite <- not_true_iff_false, existsb_exists in Ex. split; intros E; apply Ex; exists k; (split; [done|]);
      rewrite orb_true_iff, !str_eq_true; auto.
  - by apply (member_check_in _ _ _ _ Em).
Qed.

Lemma number_from_snoc n ms m : number_from n (ms ++ [m]) = number_from n ms ++ [with_sequence (n + Z.of_nat (length ms)) m].
Proof.
  revert n. induction ms as [|x ms IH]; intros n; cbn [app number_from length]; [by rewrite Z.add_0_r|].
  rewrite IH. do 3 f_equal. f_equal. lia.
Qed.

Lemma number_from_length n ms : length (number_from n ms) = length ms.
Proof. revert n. induction ms as [|m ms IH]; intros n; cbn; [done|]. by rewrite IH. Qed.

Lemma number_from_in n ms k : In k (number_from n ms) -> exists m i, In m ms /\ k = with_sequence i m.
Proof.
  revert n. induction ms as [|m ms IH]; intros n; cbn [number_from]; [by intros []|]. intros [<-|Hk].
  - exists m, n. split; [by left|done].
  - destruct (IH _ Hk) as (m' & i & Hm & ->). exists m', i. split; [by right|done].
Qed.

Lemma pending_none ms t : (forall m, In m ms -> to_task (recipient m) <> t) -> pending ms t = 0%nat.
Proof.
  intros H. unfold pending. induction ms as [|m ms IH]; [done|]. cbn [List.filter].
  rewrite (proj2 (Z.eqb_neq (to_task (recipient m)) t)) by (apply H; by left). cbn [andb]. apply IH. intros m' Hm'. apply H. by right.
Qed.

Lemma publish_joins job ms c id p out :
  mailbox_ok (run c) ms -> 1 <= job_attempt c <= UINT32_MAX -> member_ok (job_attempt c) (task c) (task_attempt c) ->
  valid_id (Some id) = true -> (length id <= 48)%nat ->
  Z.of_nat (length p) <= TNY_MAILBOX_PAYLOAD_MAX /\ json_text p = true /\ mem_byte NUL p = false ->
  (forall k, In k ms -> m_id k <> id /\ publication k <> id) ->
  Forall (fresh_receipt job ms c id p) out -> NoDup (map (fun m => to_task (recipient m)) out) ->
  (length ms + length out <= TNY_MAILBOX_HISTORY_MAX)%nat ->
  mailbox_ok (run c) (ms ++ number_from (Z.of_nat (length ms) + 1) out).
Proof.
  intros Hok Ha Hc Hid Hl Hp Hms. induction out as [|m out IH] using rev_ind; [by rewrite app_nil_r|].
  rewrite Forall_app, map_app, length_app, number_from_snoc, app_assoc. intros [Hout Hm%Forall_inv] Hnd Hlen.
  apply list.NoDup_app in Hnd as (Hnd & Hdis & _). cbn [length] in Hlen. specialize (IH Hout Hnd ltac:(lia)).
  destruct Hm as [F1 F2 F3 F4 F5 F6 F7 F8 _]. apply mailbox_ok_join; [done|].
  destruct (member_ok_range _ _ _ Ha F6) as [_ Ht]. destruct (receipt_id_spec id _ Hid Hl Ht) as (Hv & Hne & Hinj).
  assert (Hother : forall k, In k (number_from (Z.of_nat (length ms) + 1) out) ->
    sender k = c /\ payload k = p /\ publication k = id /\ m_id k <> m_id m /\ to_task (recipient k) <> to_task (recipient m) /\ m_id k <> id).
  { intros k Hk. apply number_from_in in Hk as (m' & i & Hm' & ->). rewrite Forall_forall in Hout.
    destruct (Hout m' Hm') as [G1 G2 G3 G4 G5 G6 _ _ _]. cbn. destruct (member_ok_range _ _ _ Ha G6) as [_ Ht'].
    assert (to_task (recipient m') <> to_task (recipient m)) as Hn.
    { intros E. apply (Hdis (to_task (recipient m'))); [apply list_elem_of_In, in_map_iff; by exists m'|]. cbn. rewrite E. by left. }
    destruct (receipt_id_spec id _ Hid Hl Ht') as (_ & Hne' & _). split_and!; try done; [|by rewrite G5].
    rewrite F5, G5. intros E. by apply Hn, Hinj. }
  split; cbn [m_id sequence sender recipient m_state payload publication with_sequence].
  - rewrite length_app, number_from_length. lia.
  - split; cbn; rewrite ?F1, ?F3, ?F4, ?F5; try done; [|by right]. rewrite length_app, number_from_length. lia.
  - intros k [Hk|Hk]%in_app_or.
    + destruct (F7 k Hk). destruct (Hms k Hk). rewrite F4. by split_and!.
    + destruct (Hother k Hk) as (_ & _ & E & ? & _ & ?). rewrite E, F4, F5. by split_and!; [rewrite <- F5|apply not_eq_sym|].
  - by rewrite F4, F5.
  - rewrite pending_app, (pending_none (number_from _ out)); [lia|]. intros k Hk. apply (Hother k Hk).
  - intros k [Hk|Hk]%in_app_or E _; [destruct (Hms k Hk); congruence|].
    destruct (Hother k Hk) as (-> & -> & _ & _ & ? & _). by rewrite F1, F3.
Qed.

Lemma publish_replay_spec ms c id p out out' :
  publish_replay ms c id p out = inr out' ->
  exists new, out' = out ++ new /\ Forall (fun m => In m ms /\ publication m = id /\ same_publication m c p = true) new /\
    (new = [] -> forall k, In k ms -> publication k <> id).
Proof.
  revert out. induction ms as [|m ms IH]; intros out; cbn [publish_replay].
  { intros [= <-]. exists []. rewrite app_nil_r. split_and!; [done|constructor|by intros _ ? []]. }
  destruct (str_eq (publication m) id) eqn:Ep; cbn [negb].
  - apply str_eq_true in Ep. destruct (same_publication m c p) eqn:Es; cbn [negb]; [|done]. destruct (_ <=? _)%nat; [done|].
    intros H. destruct (IH _ H) as (new & -> & Hf & _). exists (m :: new). split_and!; [by rewrite <- app_assoc| |done].
    constructor; [split_and!; [by left|done..]|]. eapply Forall_impl; [|exact Hf]. intros k (? & ?). split; [by right|done].
  - apply str_eq_false in Ep. intros H. destruct (IH _ H) as (new & -> & Hf & Hn). exists new. split_and!; [done| |].
    + eapply Forall_impl; [|exact Hf]. intros k (? & ?). split; [by right|done].
    + intros E k [<-|Hk]; [done|]. by apply Hn.
Qed.

Lemma publish_replay_rc ms c id p out rc : publish_replay ms c id p out = inl rc -> rc <> MAILBOX_OK.
Proof.
  revert out. induction ms as [|m ms IH]; intros out; cbn [publish_replay]; [done|].
  repeat case_if; try (by intros [= <-]); apply IH.
Qed.

Lemma publish_receipts_rc root ms c id p tasks out rc : publish_receipts root ms c id p tasks out = inl rc -> rc <> MAILBOX_OK.
Proof.
  revert out. induction tasks as [|t tasks IH]; intros out; cbn [publish_receipts]; [done|].
  case_if; [apply IH|]. destruct (member_check _ _ _ _); try apply IH. repeat case_if; try (by intros [= <-]); apply IH.
Qed.

Lemma tasks_nodup n : NoDup (map (fun i => Z.of_nat i - 1) (seq 0 n)).
Proof. apply NoDup_fmap_2; [intros i j; lia|]. apply NoDup_seq. Qed.

Section Calls.
Context (jparse : bytes -> option jval) `{!JsonReader jparse} (s : option tny_mailbox_service).

(** The first publication under an identifier. *)
Lemma publication_stored job c id p out h file ms recs rc file' :
  holds file ms -> job_of jparse h = Some job -> job_valid (Some job) (run c) = Some (job_attempt c) ->
  member_ok (job_attempt c) (task c) (task_attempt c) -> in_job job (task c) -> all_fit job ms ->
  mailbox_ok (run c) (ms ++ number_from (Z.of_nat (length ms) + 1) recs) -> recs <> [] ->
  Forall (fresh_receipt job ms c id p) recs ->
  store h (run c) (ms ++ number_from (Z.of_nat (length ms) + 1) recs) file = (rc, file') ->
  call_ok jparse (mk_call (Some c) (Publish (Some id) (Some p) out) h)
    (mk_answer rc (match rc with MAILBOX_OK => number_from (Z.of_nat (length ms) + 1) recs | _ => [] end)) ms file'.
Proof.
  intros Hf Hread Hjob Hmem Hin Hfit Hok' Hne Hfresh Est.
  assert (Hfields : Forall (fun m => m_state m = QUEUED /\ publication m = id /\ payload m = p /\ sender m = c)
    (number_from (Z.of_nat (length ms) + 1) recs)).
  { apply Forall_forall. intros k Hk. apply number_from_in in Hk as (m & i & Hm & ->). rewrite Forall_forall in Hfresh.
    by destruct (Hfresh m Hm). }
  apply (call_stored _ _ _ _ _ _ _ _ _ _ Est); [done|done|by destruct ms, recs| | | |apply in_new].
  - apply evolves_app. eapply Forall_impl; [|exact Hfields]. naive_solver.
  - apply (kept_suits _ _ _ _ _ _ _ Hread Hjob Hok'). apply Forall_app. split; [done|]. apply Forall_forall. intros k Hk.
    apply number_from_in in Hk as (m & i & Hm & ->). rewrite Forall_forall in Hfresh. destruct (Hfresh m Hm) as [<- ? _ _ _ ? _ _ ?].
    by apply (new_fits _ _ _ _ Hjob).
  - split; [done|]. intros _. exists c. split; [done|]. split; [by destruct recs|]. eapply Forall_impl; [|exact Hfields]. naive_solver.
Qed.

(** A repeated one. *)
Lemma publication_replayed c id p out h file ms old :
  holds file ms -> mailbox_ok (run c) ms -> old <> [] ->
  Forall (fun m => In m ms /\ publication m = id /\ same_publication m c p = true) old ->
  call_ok jparse (mk_call (Some c) (Publish (Some id) (Some p) out) h) (mk_answer MAILBOX_OK old) ms file.
Proof.
  intros Hf Hok Hne Hold. apply call_answered; [done| |].
  - split; [done|]. intros _. exists c. split; [done|]. split; [done|]. eapply Forall_impl; [|exact Hold].
    intros m (Hm & Hp & Hs). apply list_elem_of_In, list_elem_of_lookup in Hm as [i Hi].
    pose proof (ok_run _ _ _ (mb_message _ _ Hok i m Hi)) as Hr. unfold same_publication in Hs.
    rewrite !andb_true_iff, !Z.eqb_eq, str_eq_true in Hs. destruct Hs as [[[E1 E2] E3] E4].
    split_and!; [congruence..|]. by apply identity_same.
  - eapply Forall_impl; [|exact Hold]. by intros m (Hm & _).
Qed.

Lemma publish_ok c id p out h file ms :
  typed (mk_call c (Publish id p out) h) -> holds file ms ->
  let '(rc, ms', file') := tny_team_mailbox_publish jparse s c id p out h file in
  call_ok jparse (mk_call c (Publish id p out) h) (mk_answer rc ms') ms file'.
Proof.
  intros Ht Hf. unfold tny_team_mailbox_publish. early. boolify. destruct id as [id|]; [|done]. destruct p as [p|]; [|done].
  change (default [] (Some id)) with id in *. change (default [] (Some p)) with p in *. cbn [typed what] in Ht.
  destruct (txn_begin jparse s c h file) as [rc|[c' t]] eqn:Etx; [apply call_failed; [by eapply txn_rc|done]|].
  destruct (txn_begin_spec _ _ _ _ _ _ _ _ Hf Etx) as (-> & Hread & [<- Hok Hjob Hmem Hin Hfit]). set (ms := messages t) in *. early.
  pose proof (find_spec ms id) as Hfind. destruct (find ms id) as [i|]; [by apply call_failed|].
  destruct (publish_replay ms c' id p []) as [rc|old] eqn:Erep; [apply call_failed; [by eapply publish_replay_rc|done]|].
  apply publish_replay_spec in Erep as (new & -> & Hnew & Hnone). cbn [app]. destruct new as [|m0 new].
  2: { unfold sync_receipt. destruct (synced h); [by apply publication_replayed|by apply call_failed]. }
  early. destruct (publish_receipts _ ms c' id p _ []) as [rc|recs] eqn:Erec; [apply call_failed; [by eapply publish_receipts_rc|done]|].
  apply (publish_receipts_spec _ _ _ _ _ _ _ _ Hjob) in Erec as (new & -> & Hfresh & Hsub). cbn [app].
  destruct new as [|m0 new]; [by apply call_failed|]. early. apply Nat.ltb_ge in Heqb1.
  destruct (job_valid_spec _ _ _ Hjob) as (Ha & _ & _). set (recs := m0 :: new) in *.
  assert (mailbox_ok (run c') (ms ++ number_from (Z.of_nat (length ms) + 1) recs)) as Hok'.
  { apply (publish_joins (job t) ms c' id p); try done; [by apply Nat.ltb_ge|by apply (valid_payload_spec jparse h)|by auto|].
    eapply sublist_NoDup; [apply tasks_nodup|exact Hsub]. }
  destruct (store h (run c') _ file) as [rc file'] eqn:Est.
  pose proof (publication_stored (job t) c' id p out _ _ _ _ _ _ Hf Hread Hjob Hmem Hin Hfit Hok' ltac:(done) Hfresh Est) as H'. by destruct rc.
Qed.

Lemma call_spec q file ms : typed q -> holds file ms ->
  let '(a, file') := answer_call jparse s q file in call_ok jparse q a ms file'.
Proof.
  destruct q as [c w h]. intros Ht Hf. unfold answer_call. cbn [what who on_host].
  destruct w as [r id p out|id p out|id out|id|id|t before out|out|after capacity limit out].
  - pose proof (send_ok jparse s c r id p out h file ms Ht Hf) as H.
    by destruct (tny_team_mailbox_send jparse s c r id p out h file) as [[rc m] file'].
  - pose proof (publish_ok c id p out h file ms Ht Hf) as H.
    by destruct (tny_team_mailbox_publish jparse s c id p out h file) as [[rc m] file'].
  - unfold tny_team_mailbox_read. destruct out; [|by apply call_failed].
    pose proof (access_ok jparse s c id None h file ms ltac:(auto) Hf) as H. cbn [negb].
    destruct (access_message jparse s c id None h file) as [[rc m] file']. destruct H as (Hn & Ha & ms' & ?).
    split; [|by exists ms']. split; [intros Hrc; by rewrite (Hn Hrc)|]. intros Hrc.
    destruct (Ha Hrc) as (c' & m' & -> & -> & ? & ?). exists c'. split; [done|]. by exists m'.
  - pose proof (access_ok jparse s c id (Some DELIVERED) h file ms ltac:(auto) Hf) as H. unfold tny_team_mailbox_mark_delivered.
    destruct (access_message jparse s c id (Some DELIVERED) h file) as [[rc m] file']. destruct H as (_ & Ha & ms' & ? & ? & _ & ?).
    apply silent_ok; [by exists ms'| |done]. intros Hrc. by destruct (Ha Hrc) as (c' & _ & -> & _).
  - pose proof (access_ok jparse s c id (Some ACKED) h file ms ltac:(auto) Hf) as H. unfold tny_team_mailbox_ack.
    destruct (access_message jparse s c id (Some ACKED) h file) as [[rc m] file']. destruct H as (_ & Ha & ms' & ? & ? & _ & ?).
    apply silent_ok; [by exists ms'| |done]. intros Hrc. by destruct (Ha Hrc) as (c' & _ & -> & _).
  - pose proof (retire_ok jparse s c t before out h file ms Hf) as H.
    destruct (tny_team_mailbox_retire jparse s c t before out h file) as [[rc n] file']. destruct H. by apply silent_ok.
  - apply silent_ok; [exists ms; split_and!; [done|apply evolves_refl|by left]| |done]. unfold tny_team_mailbox_status.
    destruct out; [|done]. cbn [negb]. destruct (txn_begin jparse s c h file) as [rc|[c' t]] eqn:Etx.
    + cbn. intros ->. by apply txn_rc in Etx.
    + destruct (txn_begin_spec _ _ _ _ _ _ _ _ Hf Etx) as [-> _]. done.
  - pose proof (inbox_ok jparse s c after capacity limit out h file ms Hf) as H.
    by destruct (tny_team_mailbox_inbox jparse s c after capacity limit out h file) as [rc ms'].
Qed.

Lemma holds_ids file ms : holds file ms -> NoDup (map m_id ms) /\ forall m, In m ms -> recorded ms m.
Proof.
  intros [[-> ->]|(run_ & -> & Hok & _)]; [split; [constructor|by intros ? []]|].
  split; [apply Hok|]. intros m. by apply (recorded_in run_).
Qed.

(** The messages before, the calls with their answers, and the messages after. *)
Inductive ran : list tny_mailbox_message -> list (call * answer) -> list tny_mailbox_message -> Prop :=
  | ran_done ms : ran ms [] ms
  | ran_call q a file1 ms ms1 ms2 events :
      answers q a -> holds file1 ms1 -> evolves ms ms1 -> Forall (fun m => In m ms1) (receipts a) ->
      kept (job_of jparse (on_host q)) ms ms1 -> ran ms1 events ms2 -> ran ms ((q, a) :: events) ms2.

Lemma serve_ran calls file ms : Forall typed calls -> holds file ms ->
  let '(events, file') := serve jparse s calls file in
  map fst events = calls /\ exists ms', holds file' ms' /\ ran ms events ms'.
Proof.
  revert file ms. induction calls as [|q calls IH]; intros file ms Ht Hf; cbn [serve]; [split; [done|]; exists ms; split; [done|constructor]|].
  apply Forall_cons_iff in Ht as [Hq Ht]. pose proof (call_spec q file ms Hq Hf) as H.
  destruct (answer_call jparse s q file) as [a file1]. destruct H as (Ha & ms1 & Hf1 & He1 & Hr1 & Hk1).
  specialize (IH file1 ms1 Ht Hf1). destruct (serve jparse s calls file1) as [events file2].
  destruct IH as (<- & ms2 & Hf2 & Hrun). split; [done|]. exists ms2. split; [done|]. by econstructor.
Qed.

Lemma ran_recorded ms events ms' m : ran ms events ms' -> recorded ms m -> recorded ms' m.
Proof. induction 1 as [|q a file1 ms ms1 ms2 events _ _ He _ _ _ IH]; [done|]. intros Hm. apply IH. by eapply recorded_evolves. Qed.

Lemma ran_answers ms events ms' : ran ms events ms' ->
  Forall (fun '(q, a) => answers q a /\ Forall (recorded ms') (receipts a)) events.
Proof.
  induction 1 as [|q a file1 ms ms1 ms2 events Ha Hf He Hr _ Hrun IH]; constructor; [|done]. split; [done|].
  destruct (holds_ids _ _ Hf) as [_ Hrec]. eapply Forall_impl; [|exact Hr]. intros m Hm. by eapply ran_recorded, Hrec.
Qed.

Lemma recorded_unique ms m m' : NoDup (map m_id ms) -> recorded ms m -> In m' ms -> m_id m = m_id m' -> later m m'.
Proof.
  intros Hnd (i & k & Hi & _ & Hl) Hm E. destruct (later_fields _ _ Hl) as (Ek & _).
  apply list_elem_of_In, list_elem_of_lookup in Hm as [j Hj]. enough (i = j) as -> by congruence.
  apply (NoDup_lookup (map m_id ms) i j (m_id m) Hnd); apply list_lookup_fmap_Some; eexists; eauto.
Qed.

(** What is recorded, and what is handed out later under its identifier. *)
Lemma ran_later ms events ms' m : ran ms events ms' -> recorded ms m ->
  Forall (fun '(q, a) => Forall (fun m' => m_id m = m_id m' -> later m m') (receipts a)) events.
Proof.
  induction 1 as [|q a file1 ms ms1 ms2 events Ha Hf He Hr _ Hrun IH]; intros Hm; constructor.
  - destruct (holds_ids _ _ Hf) as [Hnd _]. eapply Forall_impl; [|exact Hr]. intros m' Hm' E.
    by apply (recorded_unique ms1); [|eapply recorded_evolves| |].
  - apply IH. by eapply recorded_evolves.
Qed.

Lemma ran_ordered ms events ms' i j q a q' a' m m' : ran ms events ms' -> (i <= j)%nat ->
  events !! i = Some (q, a) -> events !! j = Some (q', a') -> In m (receipts a) -> In m' (receipts a') -> m_id m = m_id m' -> later m m'.
Proof.
  intros Hrun. revert i j. induction Hrun as [|p b file1 ms ms1 ms2 events Ha Hf He Hr _ Hrun IH]; intros i j Hij Hi Hj Hm Hm' E; [done|].
  destruct (holds_ids _ _ Hf) as [Hnd Hrec]. destruct i as [|i], j as [|j]; try lia; cbn in Hi, Hj.
  - simplify_eq. rewrite Forall_forall in Hr. apply (recorded_unique ms1); auto.
  - simplify_eq. rewrite Forall_forall in Hr. pose proof (ran_later _ _ _ m Hrun (Hrec _ (Hr _ Hm))) as Hl.
    eapply Forall_lookup_1 in Hl; [|exact Hj]. cbn in Hl. rewrite Forall_forall in Hl. auto.
  - apply (IH i j); auto; lia.
Qed.

Lemma ran_suits ms events ms' : ran ms events ms' ->
  ms' = ms \/ exists q job, In q (map fst events) /\ job_of jparse (on_host q) = Some job /\ suits job ms'.
Proof.
  induction 1 as [|q a file1 ms ms1 ms2 events _ _ _ _ [->|(job & Hj & Hs)] _ [->|(q' & job' & Hq' & IH)]]; [by left|by left| | |].
  - right. exists q', job'. split; [by right|done].
  - right. exists q, job. split; [by left|done].
  - right. exists q', job'. split; [by right|done].
Qed.

End Calls.

(** ** Lemmas: later transactions *)

(** The job's record at a later time: its attempt and its items only grow. *)
Definition job_before (job job' : jval) : Prop :=
  (forall run_, text_is (jget (Some job) B"id") run_ = true -> text_is (jget (Some job') B"id") run_ = true) /\
  u64 (jget_int (Some job) B"attempt" 0) <= u64 (jget_int (Some job') B"attempt" 0) /\
  (length (elements (jget (Some job) B"items")) <= length (elements (jget (Some job') B"items")))%nat.

Lemma fits_before job job' m : job_before job job' -> message_fits job [] m = true -> message_fits job' [] m = true.
Proof.
  intros (_ & Ha & Hi). unfold message_fits. cbn [forallb]. rewrite !andb_true_iff, !orb_true_iff, !Z.leb_le, !Z.ltb_lt. intuition lia.
Qed.

Lemma text_is_unique v a b : text_is v a = true -> text_is v b = true -> a = b.
Proof. destruct v as [[| | |t| |]|]; try done. cbn. rewrite !str_eq_true. congruence. Qed.

(** A transaction that starts without a file starts with any suitable one. *)
Lemma txn_begin_load jparse s c h c' t file ms :
  txn_begin jparse s (Some c) h None = inr (c', t) ->
  c' = c /\ mailbox_readable h = true /\ job_of jparse h = Some (job t) /\
  (exists attempt, job_valid (Some (job t)) (run c) = Some attempt) /\
  (load_mailbox jparse h (run c) (job t) file = inr ms -> txn_begin jparse s (Some c) h file = inr (c, mk_txn (job t) ms (peers t))).
Proof.
  unfold txn_begin. destruct s as [s|]; [|done]. destruct (_ || _ || _ || _); [done|]. destruct (negb _ || negb _); [done|].
  destruct (authorize s) as [auth|]; [|done]. destruct (negb (job_reachable h)); [done|]. destruct (lock h); try done.
  unfold job_of. destruct (job_data h) as [data|]; [|done]. cbn [mbind option_bind].
  destruct (if job_memory h then jparse data else None) as [job|]; [|done].
  destruct (job_valid (Some job) (run c)) as [attempt|] eqn:Ev; [|done]. destruct (auth c data) as [peers|]; [|done].
  destruct (negb (attempt =? job_attempt c)); [done|]. destruct (member_check _ _ _ _); try done.
  destruct (negb (txn_memory h)); [done|]. unfold load_mailbox at 1. destruct (mailbox_readable h); cbn [negb]; [|done].
  intros [= <- <-]. do 3 (split; [done|]). split; [by eexists|]. cbn. by intros ->.
Qed.

Lemma still_loads jparse `{!JsonReader jparse} h run_ attempt job0 job file ms :
  holds file ms -> ms = [] /\ file = None \/ suits job0 ms -> job_before job0 job -> job_valid (Some job) run_ = Some attempt ->
  mailbox_readable h = true -> mailbox_memory h = true -> load_mailbox jparse h run_ job file = inr ms.
Proof.
  intros Hf Hs Hb Hv Hr Hm. destruct Hf as [[-> ->]|(run' & -> & Hok & Hne)]; [unfold load_mailbox; by rewrite Hr|].
  destruct Hs as [[-> _]|(Hfit & run2 & Hok2 & Hid)]; [done|].
  assert (run_ = run2) as -> by (eapply text_is_unique; [by eapply job_valid_id|by apply Hb]).
  assert (run' = run2) as ->.
  { destruct ms as [|m ms]; [done|]. pose proof (ok_run _ _ _ (mb_message _ _ Hok O m eq_refl)) as <-.
    apply (ok_run _ _ _ (mb_message _ _ Hok2 O m eq_refl)). }
  destruct (load_mailbox_cases jparse h run2 run2 job ms Hok) as [(-> & _)|(rc & _ & Hno)]; [done|].
  destruct Hno; [done..|]. eapply Forall_impl; [|exact Hfit]. intros m. by apply fits_before.
Qed.

(** ** Lemmas: requests repeated *)

Lemma find_unique ms i m : NoDup (map m_id ms) -> ms !! i = Some m -> find ms (m_id m) ≫= (fun i => ms !! i) = Some m.
Proof.
  intros Hnd Hi. pose proof (find_spec ms (m_id m)) as Hf. destruct (find ms (m_id m)) as [j|]; cbn [mbind option_bind].
  - destruct Hf as (k & Hj & E). enough (j = i) as -> by done.
    apply (NoDup_lookup (map m_id ms) j i (m_id m) Hnd); apply list_lookup_fmap_Some; eexists; eauto.
  - by destruct (Hf m (lookup_in _ _ _ Hi)).
Qed.

Lemma same_send_iff run_ ms i m c r p :
  mailbox_ok run_ ms -> run c = run_ -> ms !! i = Some m ->
  same_send m c r p = true <-> sender m = c /\ recipient m = r /\ payload m = p /\ publication m = [].
Proof.
  intros Hok Hr Hi. split; [by eapply send_replayed|]. intros (<- & <- & <- & Hp). unfold same_send.
  rewrite Hp, !Z.eqb_refl, (proj2 (str_eq_true (payload m) _)) by done. done.
Qed.

(** ** Lemmas: paging *)

Definition eligible (c : tny_mailbox_identity) (after : Z) (m : tny_mailbox_message) : bool :=
  addressed m c && outstanding m && (after <? sequence m).

(** The longest prefix within a number of messages and a number of bytes. *)
Fixpoint page (capacity : nat) (limit : Z) (ms : list tny_mailbox_message) : list tny_mailbox_message :=
  match capacity, ms with
  | S capacity, m :: ms =>
    let len := Z.of_nat (length (payload m)) in
    if limit <? len then [] else m :: page capacity (limit - len) ms
  | _, _ => []
  end.

Lemma inbox_loop_page ms c after capacity limit out n :
  let rest := List.filter (eligible c after) ms in
  let p := page (capacity - length out) (limit - n) rest in
  exists fits, inbox_loop ms c after capacity limit out n = (fits, out ++ p) /\
    (fits = false <-> out = [] /\ p = [] /\ rest <> [] /\ (0 < capacity)%nat).
Proof.
  revert out n. induction ms as [|m ms IH]; intros out n; cbn [inbox_loop List.filter].
  { exists true. replace (page (capacity - length out) (limit - n) []) with (@nil tny_mailbox_message) by (by destruct (_ - _)%nat).
    rewrite app_nil_r. split; [done|naive_solver]. }
  destruct (Nat.leb_spec capacity (length out)) as [Hle|Hlt].
  { replace (capacity - length out)%nat with O by lia. exists true. cbn [page]. rewrite app_nil_r. split; [done|].
    split; [done|]. intros (-> & _ & _ & ?). cbn in Hle. lia. }
  replace (negb (addressed m c) || negb (outstanding m) || (sequence m <=? after)) with (negb (eligible c after m))
    by (unfold eligible; rewrite Z.leb_antisym; by destruct (addressed m c), (outstanding m)).
  destruct (eligible c after m); cbn [negb]; [|apply IH].
  destruct (capacity - length out)%nat as [|k] eqn:Ek; [lia|]. cbn [page].
  destruct (Z.ltb_spec (limit - n) (Z.of_nat (length (payload m)))).
  { exists (negb (length out =? 0)%nat). rewrite app_nil_r. split; [done|]. destruct out; cbn; [|naive_solver].
    split; [|done]. by intros _; split_and!. }
  destruct (IH (out ++ [m]) (n + Z.of_nat (length (payload m)))) as (fits & -> & Hfits). exists fits.
  rewrite <- app_assoc, length_app. cbn [length app]. replace (capacity - (length out + 1))%nat with k by lia.
  replace (limit - (n + Z.of_nat (length (payload m)))) with (limit - n - Z.of_nat (length (payload m))) by lia.
  split; [done|]. rewrite Hfits. split; [intros (E & _); by destruct out|naive_solver].
Qed.

Lemma wait_collect_page ms c out n :
  wait_collect ms c out n =
  out ++ page (TNY_MAILBOX_BATCH_MAX - length out) (TNY_MAILBOX_BATCH_BYTES_MAX - n)
    (List.filter (fun m => addressed m c && outstanding m) ms).
Proof.
  revert out n. induction ms as [|m ms IH]; intros out n; cbn [wait_collect List.filter].
  { replace (page _ _ []) with (@nil tny_mailbox_message) by (by destruct (_ - _)%nat). by rewrite app_nil_r. }
  destruct (Nat.leb_spec TNY_MAILBOX_BATCH_MAX (length out)) as [Hle|Hlt].
  { replace (TNY_MAILBOX_BATCH_MAX - length out)%nat with O by lia. by rewrite app_nil_r. }
  rewrite <- negb_andb. destruct (addressed m c && outstanding m); cbn [negb]; [|apply IH].
  destruct (TNY_MAILBOX_BATCH_MAX - length out)%nat as [|k] eqn:Ek; [lia|]. cbn [page].
  destruct (Z.ltb_spec TNY_MAILBOX_BATCH_BYTES_MAX (n + Z.of_nat (length (payload m)))).
  { rewrite (proj2 (Z.ltb_lt _ _)) by lia. by rewrite app_nil_r. }
  rewrite (proj2 (Z.ltb_ge _ _)), IH, <- app_assoc, length_app by lia. cbn [length app].
  replace (TNY_MAILBOX_BATCH_MAX - (length out + 1))%nat with k by lia.
  by replace (TNY_MAILBOX_BATCH_BYTES_MAX - (n + Z.of_nat (length (payload m))))
    with (TNY_MAILBOX_BATCH_BYTES_MAX - n - Z.of_nat (length (payload m))) by lia.
Qed.

Lemma page_prefix k limit ms : exists rest, ms = page k limit ms ++ rest.
Proof.
  revert limit ms. induction k as [|k IH]; intros limit [|m ms]; cbn [page]; [by exists []|by eexists|by exists []|].
  case_if; [by eexists|]. destruct (IH (limit - Z.of_nat (length (payload m))) ms) as [rest Hr]. exists rest. cbn. by rewrite <- Hr.
Qed.

Lemma page_nonempty k limit m ms :
  (0 < k)%nat -> Z.of_nat (length (payload m)) <= limit -> exists p, page k limit (m :: ms) = m :: p.
Proof. destruct k as [|k]; [lia|]. intros _ H. cbn [page]. rewrite (proj2 (Z.ltb_ge _ _)) by lia. by eexists. Qed.

(** Messages in the order of their sequence numbers. *)
Definition increasing (ms : list tny_mailbox_message) : Prop := StronglySorted (fun a b => sequence a < sequence b) ms.

Lemma increasing_from k ms : (forall i m, ms !! i = Some m -> sequence m = Z.of_nat (k + i) + 1) -> increasing ms.
Proof.
  revert k. induction ms as [|m ms IH]; intros k H; constructor.
  - apply (IH (S k)). intros i m' Hi. rewrite (H (S i) m' Hi). lia.
  - apply Forall_forall. intros m' Hm. apply list_elem_of_In, list_elem_of_lookup in Hm as [i Hi].
    rewrite (H O m eq_refl), (H (S i) m' Hi). lia.
Qed.

Lemma increasing_ok run_ ms : mailbox_ok run_ ms -> increasing ms.
Proof. intros Hok. apply (increasing_from 0). intros i m Hi. apply (mb_message _ _ Hok i m Hi). Qed.

Lemma increasing_filter f ms : increasing ms -> increasing (List.filter f ms).
Proof.
  induction 1 as [|m ms Hs IH Hm]; cbn [List.filter]; [constructor|]. destruct (f m); [|done]. constructor; [done|].
  apply Forall_forall. intros m' [Hin _]%filter_In. by eapply Forall_forall in Hm.
Qed.

Lemma increasing_app xs ys : increasing (xs ++ ys) -> forall x y, In x xs -> In y ys -> sequence x < sequence y.
Proof.
  induction xs as [|x xs IH]; intros Hs; [by intros ? ? []|]. cbn in Hs. apply StronglySorted_inv in Hs as [Hs Hx].
  intros x' y [<-|Hx'] Hy; [|by apply IH]. eapply Forall_forall in Hx; [done|]. apply in_or_app. by right.
Qed.

(** What is left after a page is what comes after its last message. *)
Lemma eligible_rest c after ms p m rest :
  increasing ms -> List.filter (eligible c after) ms = (p ++ [m]) ++ rest -> after <= sequence m /\
  List.filter (eligible c (sequence m)) ms = rest.
Proof.
  intros Hs E. assert (Hm : In m (List.filter (eligible c after) ms)).
  { rewrite E. apply in_or_app. left. apply in_or_app. right. by left. }
  apply filter_In in Hm as [_ Hm]. unfold eligible in Hm. assert (after <= sequence m) by lia. split; [done|].
  pose proof (increasing_filter (eligible c after) _ Hs) as Hi. rewrite E in Hi.
  transitivity (List.filter (fun x => sequence m <? sequence x) (List.filter (eligible c after) ms)).
  - clear E Hi Hs Hm. induction ms as [|x ms IH]; [done|]. cbn [List.filter]. rewrite IH.
    replace (eligible c (sequence m) x) with (eligible c after x && (sequence m <? sequence x)) 
      by (unfold eligible; destruct (addressed x c), (outstanding x), (Z.ltb_spec after (sequence x)), (Z.ltb_spec (sequence m) (sequence x));
          done || lia).
    destruct (eligible c after x); cbn [List.filter andb]; [|done]. done.
  - rewrite E, List.filter_app, List.filter_app. cbn [List.filter]. rewrite Z.ltb_irrefl, app_nil_r.
    pose proof (increasing_app _ _ Hi) as Hlt. rewrite <- app_assoc in Hi. pose proof (increasing_app _ _ Hi) as Hlt'.
    rewrite (filter_none_of (fun x => sequence m <? sequence x) p), (filter_all (fun x => sequence m <? sequence x) rest);
      [done|apply Forall_forall..].
    + intros x Hx. apply Z.ltb_lt, Hlt; [|done]. apply in_or_app. right. by left.
    + intros x Hx. apply Z.ltb_ge. enough (sequence x < sequence m) by lia. apply Hlt'; [done|by left].
Qed.

(** A member's delivery, with a cursor: one full batch after another, while
    nobody writes. *)
Section Delivery.
Context (jparse : bytes -> option jval) `{!JsonReader jparse} (s : option tny_mailbox_service)
  (c : tny_mailbox_identity) (h : host) (file : option bytes).

Fixpoint deliver (fuel : nat) (cursor : Z) : list tny_mailbox_message :=
  match fuel with
  | O => []
  | S fuel =>
    match tny_team_mailbox_inbox jparse s (Some c) cursor TNY_MAILBOX_BATCH_MAX TNY_MAILBOX_BATCH_BYTES_MAX true h file with
    | (MAILBOX_OK, m :: ms) => (m :: ms) ++ deliver fuel (sequence (List.last ms m))
    | _ => []
    end
  end.

Lemma inbox_page t after capacity limit :
  txn_begin jparse s (Some c) h file = inr (c, t) -> (0 < capacity <= TNY_MAILBOX_BATCH_MAX)%nat ->
  0 < limit <= TNY_MAILBOX_BATCH_BYTES_MAX ->
  let rest := List.filter (eligible c after) (messages t) in
  tny_team_mailbox_inbox jparse s (Some c) after capacity limit true h file =
    (if bool_decide (page capacity limit rest = [] /\ rest <> []) then MAILBOX_FULL else MAILBOX_OK, page capacity limit rest).
Proof.
  intros Ht Hc Hl rest. unfold tny_team_mailbox_inbox. rewrite Ht. cbn [negb orb].
  rewrite (proj2 (Nat.eqb_neq _ _)), (proj2 (Nat.ltb_ge _ _)), (proj2 (Z.leb_gt _ _)), (proj2 (Z.ltb_ge _ _)) by lia. cbn [orb].
  destruct (inbox_loop_page (messages t) c after capacity limit [] 0) as (fits & -> & Hfits).
  cbn [length app] in *. rewrite Nat.sub_0_r, Z.sub_0_r in *. fold rest in Hfits |- *.
  destruct (bool_decide _) eqn:E; [apply bool_decide_eq_true in E|apply bool_decide_eq_false in E].
  - rewrite (proj2 Hfits) by (split_and!; [done|apply E..|lia]). done.
  - destruct fits; [done|]. destruct E. by destruct (proj1 Hfits eq_refl) as (_ & ? & ? & _).
Qed.

Lemma deliver_from ms t fuel after :
  holds file ms -> txn_begin jparse s (Some c) h file = inr (c, t) ->
  (length (List.filter (eligible c after) ms) < fuel)%nat -> deliver fuel after = List.filter (eligible c after) ms.
Proof.
  intros Hf Ht. destruct (txn_begin_spec _ _ _ _ _ _ _ _ Hf Ht) as (_ & _ & [<- Hok _ _ _ _]). set (ms := messages t) in *.
  revert after. induction fuel as [|fuel IH]; intros after Hl; [lia|]. cbn [deliver].
  rewrite (inbox_page t) by (done || (unfold TNY_MAILBOX_BATCH_MAX, TNY_MAILBOX_BATCH_BYTES_MAX; lia)). fold ms.
  destruct (List.filter (eligible c after) ms) as [|m rest] eqn:E; [done|].
  assert (In m ms) as Hm by (apply (filter_In (eligible c after)); rewrite E; by left).
  apply list_elem_of_In, list_elem_of_lookup in Hm as [i Hi]. destruct (ok_payload _ _ _ (mb_message _ _ Hok i m Hi)) as [Hlen _].
  destruct (page_nonempty TNY_MAILBOX_BATCH_MAX TNY_MAILBOX_BATCH_BYTES_MAX m rest) as [p Hp];
    [unfold TNY_MAILBOX_BATCH_MAX; lia|unfold TNY_MAILBOX_PAYLOAD_MAX, TNY_MAILBOX_BATCH_BYTES_MAX in *; lia|].
  rewrite bool_decide_eq_false_2 by (rewrite Hp; by intros [? _]). rewrite Hp. destruct (page_prefix TNY_MAILBOX_BATCH_MAX TNY_MAILBOX_BATCH_BYTES_MAX (m :: rest)) as [left Hleft].
  rewrite Hp in Hleft. assert (m :: p = removelast (m :: p) ++ [List.last p m]) as Hlast.
  { rewrite (app_removelast_last m (l := m :: p)) at 1 by done. by destruct p. }
  destruct (eligible_rest c after ms (removelast (m :: p)) (List.last p m) left (increasing_ok _ _ Hok)) as [_ Hrest].
  { by rewrite <- Hlast, E. }
  rewrite IH; rewrite Hrest; [by rewrite <- Hleft|]. rewrite Hleft in Hl. cbn [app length] in Hl. rewrite length_app in Hl. lia.
Qed.

End Delivery.

(** ** Properties *)

(** C5: whatever requests a run's processes make of its mailbox, and whatever
    reads, writes, renames and syncs fail meanwhile, the file is absent or
    holds a well-formed mailbox (bounded, with unique identifiers and consistent
    publications), every answer is right, every receipt that was handed out is
    of a message the file still holds at its sequence number, and two receipts
    under one identifier are of one message whose state has only advanced. *)
Theorem mailbox_run_safe (jparse : bytes -> option jval) `{!JsonReader jparse} (s : option tny_mailbox_service)
    (calls : list call) (Ht : Forall typed calls) :
  let '(events, file) := serve jparse s calls None in
  map fst events = calls /\
  exists ms, holds file ms /\
    Forall (fun '(q, a) => answers q a /\ Forall (recorded ms) (receipts a)) events /\
    forall i j q a q' a' m m', (i <= j)%nat -> events !! i = Some (q, a) -> events !! j = Some (q', a') ->
      In m (receipts a) -> In m' (receipts a') -> m_id m = m_id m' -> later m m'.
Proof.
  pose proof (serve_ran jparse s calls None [] Ht ltac:(by left)) as H. destruct (serve jparse s calls None) as [events file].
  destruct H as (Hq & ms & Hf & Hrun). split; [done|]. exists ms. split; [done|]. split; [by eapply ran_answers|].
  intros. by eapply ran_ordered.
Qed.

(** The file of a well-formed mailbox is within the size the reader accepts;
    it is read back as the same mailbox of the same run or not at all, and it is
    read whenever every message suits the job. *)
Theorem mailbox_file_roundtrip (jparse : bytes -> option jval) `{!JsonReader jparse} (run_ : bytes)
    (ms : list tny_mailbox_message) (Hok : mailbox_ok run_ ms) :
  Z.of_nat (length (store_text run_ ms)) <= MAILBOX_RECORD_MAX /\
  forall h run' job,
    (forall ms', load_mailbox jparse h run' job (Some (store_text run_ ms)) = inr ms' -> ms' = ms /\ run' = run_) /\
    (mailbox_readable h = true -> mailbox_memory h = true -> all_fit job ms ->
     load_mailbox jparse h run_ job (Some (store_text run_ ms)) = inr ms).
Proof.
  split; [by apply store_text_length|]. intros h run' job.
  split; [intros ms' E|intros Hr Hm Hfit].
  - destruct (load_mailbox_cases jparse h run_ run' job ms Hok) as [(E' & ? & _)|(rc & E' & _)]; rewrite E' in E; [|done].
    by injection E as <-.
  - destruct (load_mailbox_cases jparse h run_ run_ job ms Hok) as [(E' & _)|(rc & _ & Hno)]; [done|]. by destruct Hno.
Qed.

(** C23: the mailbox never locks its members out: as long as the job's attempt
    and items only grow, a member who could open an empty mailbox opens this
    one, after any requests and any failures, and finds what the file holds. *)
Theorem mailbox_stays_open (jparse : bytes -> option jval) `{!JsonReader jparse} (s : option tny_mailbox_service)
    (calls : list call) (c : tny_mailbox_identity) (h : host) (t : mailbox_txn)
    (Ht : Forall typed calls) (Hbegin : txn_begin jparse s (Some c) h None = inr (c, t)) (Hmem : mailbox_memory h = true)
    (Hgrow : Forall (fun q => forall job0, job_of jparse (on_host q) = Some job0 -> job_before job0 (job t)) calls) :
  let '(_, file) := serve jparse s calls None in
  exists ms, holds file ms /\ txn_begin jparse s (Some c) h file = inr (c, mk_txn (job t) ms (peers t)).
Proof.
  pose proof (serve_ran jparse s calls None [] Ht ltac:(by left)) as H. destruct (serve jparse s calls None) as [events file].
  destruct H as (<- & ms & Hf & Hrun). exists ms. split; [done|].
  destruct (txn_begin_load jparse s c h c t file ms Hbegin) as (_ & Hr & Hj & (attempt & Hv) & Hload). apply Hload.
  destruct (ran_suits _ _ _ _ Hrun) as [->|(q & job0 & Hq & Hjob & Hs)].
  - destruct Hf as [[-> _]|(run_ & _ & _ & ?)]; [unfold load_mailbox; by rewrite Hr|done].
  - rewrite Forall_forall in Hgrow. apply (still_loads jparse h (run c) attempt job0); [done|by right|by apply (Hgrow q)|done..].
Qed.

(** C34: an identifier the mailbox knows is never sent again: a send under it
    leaves the file as it is and succeeds only as a repetition of the same
    send, whose receipt it returns; and the repetition does succeed, without a
    write, where its transaction opens for the sender, the recipient is still a
    member the sender may write to, and memory and the sync of the file do not
    fail: neither what became of the message and of the job meanwhile nor the
    recipient's room matters. *)
Theorem mailbox_send_once (jparse : bytes -> option jval) `{!JsonReader jparse} (s : option tny_mailbox_service)
    (c : option tny_mailbox_identity) (r : tny_mailbox_recipient) (p : option bytes) (h : host) (file : option bytes)
    (ms : list tny_mailbox_message) (m : tny_mailbox_message) (Hf : holds file ms) (Hm : In m ms) :
  (let '(rc, out, file') := tny_team_mailbox_send jparse s c r (Some (m_id m)) p true h file in
   file' = file /\
   (rc = MAILBOX_OK -> out = Some m /\ c = Some (sender m) /\ r = recipient m /\ p = Some (payload m) /\ publication m = [])) /\
  forall t, txn_begin jparse s (Some (sender m)) h file = inr (sender m, t) ->
    publication m = [] -> valid_payload jparse h (Some (payload m)) = true -> synced h = true ->
    member_check (Some (job t)) (to_task (recipient m)) (to_attempt (recipient m)) false = MAILBOX_OK ->
    task (sender m) = TNY_MAILBOX_LEAD \/ to_task (recipient m) = TNY_MAILBOX_LEAD \/ peers t = true ->
    tny_team_mailbox_send jparse s (Some (sender m)) (recipient m) (Some (m_id m)) (Some (payload m)) true h file =
      (MAILBOX_OK, Some m, file).
Proof.
  apply list_elem_of_In, list_elem_of_lookup in Hm as [i Hi]. split.
  - unfold tny_team_mailbox_send. destruct (_ || _ || _ || _) eqn:Eg; [done|]. boolify. destruct p as [p|]; [|done].
    change (default [] (Some (m_id m))) with (m_id m). change (default [] (Some p)) with p.
    destruct (txn_begin jparse s c h file) as [rc|[c' t]] eqn:Etx; [apply txn_rc in Etx; done|].
    destruct (txn_begin_spec _ _ _ _ _ _ _ _ Hf Etx) as (-> & _ & [<- Hok _ _ _ _]).
    destruct (member_check _ _ _ _); try done. destruct (_ && _); [done|]. destruct (existsb _ _); [done|].
    rewrite (find_unique _ _ _ (mb_ids _ _ Hok) Hi). destruct (same_send m c' r p) eqn:Es; [|done].
    apply (same_send_iff _ _ _ _ _ _ _ Hok eq_refl Hi) in Es as (<- & <- & <- & ?). unfold sync_receipt. by destruct (synced h).
  - intros t Htx Hp Hv Hs Hmember Hpeer. unfold tny_team_mailbox_send.
    destruct (txn_begin_spec _ _ _ _ _ _ _ _ Hf Htx) as (_ & _ & [<- Hok _ _ _ _]).
    pose proof (mb_message _ _ Hok i m Hi) as Hmok. rewrite (ok_id _ _ _ Hmok), (valid_member_ok _ _ _ (ok_recipient _ _ _ Hmok)), Hv, Htx.
    cbn [negb orb]. change (default [] (Some (m_id m))) with (m_id m). change (default [] (Some (payload m))) with (payload m).
    rewrite Hmember. assert (negb (task (sender m) =? TNY_MAILBOX_LEAD) && negb (to_task (recipient m) =? TNY_MAILBOX_LEAD) && negb (peers t) = false) as ->.
    { destruct Hpeer as [->|[->| ->]]; cbn; by rewrite ?andb_false_r. }
    assert (existsb (fun k => str_eq (publication k) (m_id m)) (messages t) = false) as ->.
    { apply not_true_is_false. rewrite existsb_exists. intros (k & Hk & E%str_eq_true).
      by apply (mb_publications _ _ Hok m k (lookup_in _ _ _ Hi) Hk). }
    rewrite (find_unique _ _ _ (mb_ids _ _ Hok) Hi), (proj2 (same_send_iff _ _ _ _ _ _ _ Hok eq_refl Hi)) by done.
    unfold sync_receipt. by rewrite Hs.
Qed.

(** C37: an inbox request returns the longest run, within its number of messages
    and of bytes, of the outstanding messages addressed to the caller after the
    cursor; and a member that keeps asking, each time after the last message it
    was given, receives every such message once, in order, and stops after at
    most one request more than there are messages. *)
Theorem mailbox_delivers (jparse : bytes -> option jval) `{!JsonReader jparse} (s : option tny_mailbox_service)
    (c : tny_mailbox_identity) (h : host) (file : option bytes) (ms : list tny_mailbox_message) (t : mailbox_txn)
    (Hf : holds file ms) (Ht : txn_begin jparse s (Some c) h file = inr (c, t)) :
  (forall after capacity limit, (0 < capacity <= TNY_MAILBOX_BATCH_MAX)%nat -> 0 < limit <= TNY_MAILBOX_BATCH_BYTES_MAX ->
    let rest := List.filter (eligible c after) ms in
    tny_team_mailbox_inbox jparse s (Some c) after capacity limit true h file =
      (if bool_decide (page capacity limit rest = [] /\ rest <> []) then MAILBOX_FULL else MAILBOX_OK,
       page capacity limit rest)) /\
  forall fuel cursor, (length ms < fuel)%nat -> deliver jparse s c h file fuel cursor = List.filter (eligible c cursor) ms.
Proof.
  destruct (txn_begin_spec _ _ _ _ _ _ _ _ Hf Ht) as (_ & _ & [E _ _ _ _ _]). split.
  - intros after capacity limit Hc Hl rest. subst rest. rewrite <- E. by apply inbox_page.
  - intros fuel cursor Hfuel. apply (deliver_from jparse s c h file ms t); [done..|].
    pose proof (filter_length_le (eligible c cursor) ms). lia.
Qed.

(** ** Concrete instances *)

Definition demo_run : bytes := replicate 32 (C"a").

Definition demo_item (i : Z) : jval :=
  JObj [(B"index", JNum (JUint i)); (B"attempt", JNum (JUint 1)); (B"state", JStr B"running"); (B"cancel_requested", JBool false)].

(** A job with two members at its attempt [n]. *)
Definition demo_job (n : Z) : jval :=
  JObj [(B"version", JNum (JUint 1)); (B"kind", JStr B"job"); (B"id", JStr demo_run); (B"attempt", JNum (JUint n));
        (B"state", JStr B"running"); (B"cancel_requested", JBool false); (B"items", JArr [demo_item 0; demo_item 1])].

Definition demo_host (n : Z) (w : write_outcome) : host :=
  mk_host true true LOCK_ACQUIRED (Some (render (demo_job n))) true true true true true w true.

Definition demo_service : option tny_mailbox_service := Some (mk_service (Some B"/jobs/1") true (Some (fun _ _ => Some true))).

Definition demo_caller (task attempt : Z) : tny_mailbox_identity := mk_identity demo_run 1 task attempt.

Definition demo_send (w : write_outcome) (p : bytes) : call :=
  mk_call (Some (demo_caller 0 1)) (Send (mk_recipient 1 1) (Some B"m1") (Some p) true) (demo_host 1 w).

(** A send whose sync fails after the rename, its repetition, another message
    under the same identifier, a publication, and the recipient's requests. *)
Definition demo_calls : list call :=
  [demo_send WRITTEN_UNSYNCED B"hello"; demo_send NOT_WRITTEN B"hello"; demo_send WRITTEN B"other";
   mk_call (Some (demo_caller (-1) 0)) (Publish (Some B"p1") (Some B"to all") true) (demo_host 1 WRITTEN);
   mk_call (Some (demo_caller 1 1)) (Inbox 0 16 65536 true) (demo_host 1 WRITTEN);
   mk_call (Some (demo_caller 1 1)) (MarkDelivered (Some B"m1")) (demo_host 1 WRITTEN);
   mk_call (Some (demo_caller 1 1)) (Ack (Some B"m1")) (demo_host 1 WRITTEN)].

Lemma demo_calls_typed : Forall typed demo_calls.
Proof. unfold demo_calls. repeat (apply Forall_cons; [cbn; try exact I; repeat constructor; unfold is_byte; lia|]). apply Forall_nil. Qed.

Definition demo_message (st : tny_mailbox_state) : tny_mailbox_message :=
  mk_message B"m1" 1 (demo_caller 0 1) (mk_recipient 1 1) st B"hello" [].

Example demo_answers : map (fun '(_, a) => (a_rc a, map m_id (receipts a))) (fst (serve read_json demo_service demo_calls None)) =
  [(MAILBOX_IO, []); (MAILBOX_OK, [B"m1"]); (MAILBOX_CONFLICT, []); (MAILBOX_OK, [B"p1.p1"; B"p1.p2"]);
   (MAILBOX_OK, [B"m1"; B"p1.p2"]); (MAILBOX_OK, []); (MAILBOX_OK, [])].
Proof. vm_compute. reflexivity. Qed.

Example mailbox_run_safe_witness :
  (let '(events, file) := serve read_json demo_service demo_calls None in
   map fst events = demo_calls /\
   exists ms, holds file ms /\
     Forall (fun '(q, a) => answers q a /\ Forall (recorded ms) (receipts a)) events /\
     forall i j q a q' a' m m', (i <= j)%nat -> events !! i = Some (q, a) -> events !! j = Some (q', a') ->
       In m (receipts a) -> In m' (receipts a') -> m_id m = m_id m' -> later m m') /\
  option_map (fun '(_, a) => receipts a) (fst (serve read_json demo_service demo_calls None) !! 1%nat) = Some [demo_message QUEUED].
Proof. split; [exact (mailbox_run_safe read_json demo_service demo_calls demo_calls_typed)|vm_compute; reflexivity]. Defined.

Lemma demo_message_ok st : message_ok demo_run 0 (demo_message st).
Proof.
  split; cbn; try done; [right; change (Z.of_nat MAILBOX_TASK_MAX) with 64; lia..|by left].
Qed.

Lemma demo_mailbox_ok st : mailbox_ok demo_run [demo_message st].
Proof.
  apply (mailbox_ok_join demo_run []); [by apply mailbox_ok_nil|].
  split; [unfold TNY_MAILBOX_HISTORY_MAX; cbn; lia|apply demo_message_ok|by intros ? []|done|cbn; unfold TNY_MAILBOX_OUTSTANDING_MAX; lia|by intros ? []].
Qed.

Definition demo_file (st : tny_mailbox_state) : option bytes := Some (store_text demo_run [demo_message st]).

Lemma demo_holds st : holds (demo_file st) [demo_message st].
Proof. right. exists demo_run. split; [done|]. split; [apply demo_mailbox_ok|done]. Qed.

Example mailbox_file_roundtrip_witness :
  load_mailbox read_json (demo_host 2 WRITTEN) demo_run (demo_job 2) (demo_file DELIVERED) = inr [demo_message DELIVERED].
Proof.
  apply (proj2 (proj2 (mailbox_file_roundtrip read_json demo_run [demo_message DELIVERED] (demo_mailbox_ok DELIVERED))
    (demo_host 2 WRITTEN) demo_run (demo_job 2))); try done. by constructor.
Defined.

(** The transaction of the member's later attempt of the job. *)
Definition demo_txn (ms : list tny_mailbox_message) : mailbox_txn := mk_txn (demo_job 2) ms true.

Lemma demo_job_parsed n : 1 <= n <= 2 -> job_of read_json (demo_host n WRITTEN) = Some (demo_job n).
Proof. intros H. assert (n = 1 \/ n = 2) as [-> | ->] by lia; vm_compute; reflexivity. Qed.

Lemma demo_grows : Forall (fun q => forall job0, job_of read_json (on_host q) = Some job0 -> job_before job0 (demo_job 2)) demo_calls.
Proof.
  assert (H : forall job0, job_of read_json (demo_host 1 WRITTEN) = Some job0 -> job_before job0 (demo_job 2)).
  { intros job0. rewrite demo_job_parsed by lia. intros [= <-]. split; [done|]. by vm_compute. }
  unfold demo_calls. repeat (constructor; [exact H|]). constructor.
Qed.

Example mailbox_stays_open_witness :
  exists ms, holds (snd (serve read_json demo_service demo_calls None)) ms /\
    txn_begin read_json demo_service (Some (mk_identity demo_run 2 1 1)) (demo_host 2 WRITTEN)
      (snd (serve read_json demo_service demo_calls None)) = inr (mk_identity demo_run 2 1 1, demo_txn ms).
Proof.
  pose proof (mailbox_stays_open read_json demo_service demo_calls (mk_identity demo_run 2 1 1) (demo_host 2 WRITTEN) (demo_txn [])
    demo_calls_typed ltac:(vm_compute; reflexivity) eq_refl) as H.
  specialize (H demo_grows). destruct (serve read_json demo_service demo_calls None) as [events file]. exact H.
Defined.

Example mailbox_send_once_witness :
  tny_team_mailbox_send read_json demo_service (Some (demo_caller 0 1)) (mk_recipient 1 1) (Some B"m1") (Some B"hello") true
    (demo_host 1 NOT_WRITTEN) (demo_file ACKED) = (MAILBOX_OK, Some (demo_message ACKED), demo_file ACKED).
Proof.
  apply (proj2 (mailbox_send_once read_json demo_service (Some (demo_caller 0 1)) (mk_recipient 1 1) (Some B"hello")
    (demo_host 1 NOT_WRITTEN) (demo_file ACKED) [demo_message ACKED] (demo_message ACKED) (demo_holds ACKED) ltac:(by left))
    (mk_txn (demo_job 1) [demo_message ACKED] true)); try (vm_compute; reflexivity). by right; right.
Defined.

Example mailbox_delivers_witness :
  deliver read_json demo_service (demo_caller 1 1) (demo_host 1 WRITTEN) (demo_file QUEUED) 2 0 = [demo_message QUEUED].
Proof.
  exact (proj2 (mailbox_delivers read_json demo_service (demo_caller 1 1) (demo_host 1 WRITTEN) (demo_file QUEUED)
    [demo_message QUEUED] (mk_txn (demo_job 1) [demo_message QUEUED] true) (demo_holds QUEUED) ltac:(vm_compute; reflexivity))
    2%nat 0 ltac:(cbn; lia)).
Defined.
