(* ===== verification/Http.v ===== *)
(** The HTTP/1.1 client (src/src/net/http1.c): requests, response heads and
    the incremental body readers. *)
From coqutil Require Import Datatypes.RecordSetters.
From S2P Require Import Prelude Decimal Bits NormText Search.
Import RecordSetters.DoubleBraceUpdate.

Open Scope Z_scope.

(** ** C library functions *)

Definition is_xdigit (c : Z) : bool :=
  is_digit c || ((C"a" <=? c) && (c <=? C"f")) || ((C"A" <=? c) && (c <=? C"F")).

Definition digit_value (c : Z) : option Z :=
  if is_digit c then Some (c - C"0")
  else if is_lower c then Some (c - C"a" + 10)
  else if is_upper c then Some (c - C"A" + 10)
  else None.

(** The digits of [strtoul]; out of range saturates. *)
Fixpoint strtoul_digits (base : Z) (s : bytes) (n : Z) : Z :=
  match s with
  | [] => n
  | c :: s =>
    match digit_value c with
    | Some d => if d <? base then strtoul_digits base s (Z.min SIZE_MAX (n * base + d)) else n
    | None => n
    end
  end.

Fixpoint skip_blanks (s : bytes) : bytes :=
  match s with
  | [] => []
  | c :: t => if is_space c then skip_blanks t else s
  end.

(** [strtoul(s, NULL, base)] for bases 10 and 16: white space, a sign, the 0x
    of base 16, digits. *)
Definition strtoul (base : Z) (s : bytes) : Z :=
  let s := skip_blanks s in
  let '(neg, s) := if cur s =? C"-" then (true, tl s) else if cur s =? C"+" then (false, tl s) else (false, s) in
  let s := if (base =? 16) && (cur s =? C"0") && (Z.lor (cur (tl s)) 32 =? C"x") && is_xdigit (cur (tl (tl s)))
           then tl (tl s) else s in
  let n := strtoul_digits base s 0 in
  if neg then (if n =? SIZE_MAX then n else u64 (- n)) else n.

Definition same_ignoring_case (a b : bytes) : bool := str_eq (map lower a) (map lower b).

(** ** Connection state *)

Inductive body_mode := BODY_NONE | BODY_LENGTH | BODY_CHUNKED | BODY_EOF.

Definition MAX_HEADERS : nat := 64.

Record http_conn := mk_conn {
  inb : bytes;
  headers : list (bytes * bytes);
  mode : body_mode;
  body_left : Z; chunk_left : Z;
  chunk_skip : nat; chunk_final : bool; body_done : bool }.

(** ** Requests *)

(** The size of the tail reserved before a credential is copied; [None] is an
    overflow. *)
Fixpoint header_tail (hs : list bytes) (tail : Z) : option Z :=
  match hs with
  | [] => Some tail
  | h :: hs =>
    let n := Z.of_nat (length h) in
    if (SIZE_MAX - 2 <? tail) || (SIZE_MAX - tail - 2 <? n) then None else header_tail hs (tail + n + 2)
  end.

Definition request_tail (hs : list bytes) (body : option bytes) : option Z :=
  tail ← header_tail hs 2;
  match body with
  | None => Some tail
  | Some b =>
    let framing_max := 16 + 20 + 2 in
    if (SIZE_MAX - tail <? framing_max) || (SIZE_MAX - tail - framing_max <? Z.of_nat (length b)) then None
    else Some (tail + framing_max + Z.of_nat (length b))
  end.

Definition CRLF : bytes := [CR; LF].

Definition request_text (version host method path : bytes) (hs : list bytes) (body : option bytes) : bytes :=
  method ++ B" " ++ path ++ B" HTTP/1.1" ++ CRLF ++
  B"Host: " ++ host ++ CRLF ++ B"Connection: keep-alive" ++ CRLF ++
  B"User-Agent: tny/" ++ version ++ CRLF ++
  concat (map (fun h => h ++ CRLF) hs) ++
  match body with Some b => B"Content-Length: " ++ dec (Z.of_nat (length b)) ++ CRLF | None => [] end ++
  CRLF ++ default [] body.

(** What is written (or nothing) and the connection with its response state
    reset; [mem] and [write_ok] are the allocation and the socket. *)
Definition http_request (mem write_ok : bool) (version host method path : bytes) (hs : list bytes)
    (body : option bytes) (c : http_conn) : Z * option bytes * http_conn :=
  let c' := c{{headers := []; mode := BODY_NONE; body_left := 0; chunk_left := 0; chunk_skip := O;
               chunk_final := false; body_done := false}} in
  match request_tail hs body with
  | None => (-1, None, c')
  | Some _ =>
    if mem then (if write_ok then 0 else -1, Some (request_text version host method path hs body), c')
    else (-1, None, c')
  end.

(** ** Reading from the socket

    What successive reads find: bytes, an end, an error, or nothing yet;
    [expired] is whether the deadline has passed by then. *)
Inductive read_outcome := RData (d : bytes) | REof | RError | RBlock (expired : bool).
Inductive fill_result := GOT | FILL_EOF | FILL_ERROR | FILL_BLOCK.

Fixpoint fill (c : http_conn) (forever : bool) (rs : list read_outcome) :
    fill_result * http_conn * list read_outcome :=
  match rs with
  | [] => (FILL_BLOCK, c, [])
  | RData d :: rs => (GOT, c{{inb := inb c ++ d}}, rs)
  | REof :: rs => (FILL_EOF, c, rs)
  | RError :: rs => (FILL_ERROR, c, rs)
  | RBlock expired :: rs => if negb forever || expired then (FILL_BLOCK, c, rs) else fill c forever rs
  end.

(** ** Response heads *)

(** The header parser's answer: how many bytes the head takes, its status and
    headers; [PBad] for a malformed head. *)
Inductive parsed := PHead (used : nat) (status : Z) (hs : list (bytes * bytes)) | PPartial | PBad.

Definition http_header (c : http_conn) (name : bytes) : option bytes :=
  snd <$> List.find (fun h => same_ignoring_case (fst h) name) (headers c).

Fixpoint header_has_token (value token : bytes) : bool :=
  match value with
  | [] => false
  | _ :: t => has_prefix (map lower token) (map lower value) || header_has_token t token
  end.

(** The branch of a complete head: headers cut to the fixed arrays, then how
    the body is framed. *)
Definition accept_head (c : http_conn) (used : nat) (status : Z) (hs : list (bytes * bytes)) : http_conn :=
  let c := c{{headers := map (fun '(n, v) => (take 63 n, take 511 v)) hs; mode := BODY_EOF}} in
  let c :=
    match http_header c B"Transfer-Encoding", http_header c B"Content-Length" with
    | Some te, cl =>
      if header_has_token te B"chunked" then c{{mode := BODY_CHUNKED}}
      else match cl with
           | Some cl => let n := strtoul 10 cl in
                        c{{mode := BODY_LENGTH; body_left := n; body_done := if n =? 0 then true else body_done c}}
           | None => c
           end
    | None, Some cl => let n := strtoul 10 cl in
                       c{{mode := BODY_LENGTH; body_left := n; body_done := if n =? 0 then true else body_done c}}
    | None, None => c
    end in
  let c := if (status =? 204) || (status =? 304) then c{{mode := BODY_NONE; body_done := true}} else c in
  c{{inb := drop used (inb c)}}.

Inductive response := RStatus (status : Z) | RFailed | RAgain.

Fixpoint read_response_loop (phr : bytes -> parsed) (fuel : nat) (c : http_conn) (rs : list read_outcome) :
    response * http_conn * list read_outcome :=
  match fuel with
  | O => (RAgain, c, rs)
  | S fuel =>
    match (if (length (inb c) =? 0)%nat then PPartial else phr (inb c)) with
    | PHead used status hs => (RStatus status, accept_head c used status hs, rs)
    | PBad => (RFailed, c, rs)
    | PPartial =>
      match fill c true rs with
      | (GOT, c, rs) => read_response_loop phr fuel c rs
      | (FILL_EOF, c, rs) | (FILL_ERROR, c, rs) => (RFailed, c, rs)
      | (FILL_BLOCK, c, rs) => (RAgain, c, rs)
      end
    end
  end.

Definition http_read_response (phr : bytes -> parsed) (c : http_conn) (rs : list read_outcome) :=
  read_response_loop phr (S (length rs)) c rs.

(** ** Bodies *)

(** [memchr(data, '\n', len)]: the line with its line feed, and the rest. *)
Fixpoint split_lf (s : bytes) : option (bytes * bytes) :=
  match s with
  | [] => None
  | c :: s => if c =? LF then Some ([c], s) else '(l, r) ← split_lf s; Some (c :: l, r)
  end.

(** One call of [chunked_read] with room for [cap] bytes, [produced] of them
    already there; [None] is -1. *)
Fixpoint chunked_loop (fuel : nat) (c : http_conn) (cap : nat) (produced : bytes) : option bytes * http_conn :=
  match fuel with
  | O => (Some produced, c)
  | S fuel =>
    let k := Nat.min (chunk_skip c) (length (inb c)) in
    let c := c{{inb := drop k (inb c); chunk_skip := (chunk_skip c - k)%nat}} in
    if (0 <? chunk_skip c)%nat then (Some produced, c)
    else if chunk_final c then
      if has_prefix CRLF (inb c) then (Some produced, c{{inb := drop 2 (inb c); body_done := true}})
      else match strstr (CRLF ++ CRLF) (inb c) with
           | Some (_, rest) => (Some produced, c{{inb := rest; body_done := true}})
           | None => (Some produced, c)
           end
    else
      let next :=
        if chunk_left c =? 0 then
          if (length (inb c) =? 0)%nat then inl (Some produced, c)
          else match split_lf (inb c) with
               | None => inl (Some produced, c)
               | Some (line, rest) =>
                 if negb (is_xdigit (cur (inb c)))
                 then inl (if (length produced =? 0)%nat then None else Some produced, c)
                 else
                   let sz := strtoul 16 (inb c) in
                   let c := c{{inb := rest}} in
                   if sz =? 0 then inr (true, c{{chunk_final := true}}) else inr (false, c{{chunk_left := sz}})
               end
        else inr (false, c) in
      match next with
      | inl r => r
      | inr (true, c) => chunked_loop fuel c cap produced
      | inr (false, c) =>
        if (length (inb c) =? 0)%nat then (Some produced, c)
        else
          let n := Z.to_nat (Z.min (Z.min (chunk_left c) (Z.of_nat (length (inb c))))
                                   (Z.of_nat (cap - length produced))) in
          if (n =? 0)%nat then (Some produced, c)
          else
            let produced := produced ++ take n (inb c) in
            let c := c{{chunk_left := chunk_left c - Z.of_nat n; inb := drop n (inb c)}} in
            let c := if chunk_left c =? 0 then c{{chunk_skip := 2%nat}} else c in
            if (length produced =? cap)%nat then (Some produced, c) else chunked_loop fuel c cap produced
      end
  end.

Definition chunked_read (c : http_conn) (cap : nat) : option bytes * http_conn :=
  chunked_loop (S (S (length (inb c)))) c cap [].

Inductive body_result := BODY (d : bytes) | BODY_END | BODY_FAILED | BODY_AGAIN.

(** The input of a body of known or unknown length, at most [cap] bytes. *)
Definition plain_read (c : http_conn) (cap : nat) : bytes * http_conn :=
  match mode c with
  | BODY_LENGTH =>
    let n := Z.to_nat (Z.min (Z.min (body_left c) (Z.of_nat (length (inb c)))) (Z.of_nat cap)) in
    if (n =? 0)%nat then ([], c)
    else let left := body_left c - Z.of_nat n in
         (take n (inb c), c{{inb := drop n (inb c); body_left := left;
                             body_done := if left =? 0 then true else body_done c}})
  | _ =>
    let n := Nat.min (length (inb c)) cap in
    (take n (inb c), c{{inb := drop n (inb c)}})
  end.

Fixpoint body_read_loop (fuel : nat) (c : http_conn) (cap : nat) (rs : list read_outcome) :
    body_result * http_conn * list read_outcome :=
  match fuel with
  | O => (BODY_AGAIN, c, rs)
  | S fuel =>
    let '(got, c) := match mode c with
                     | BODY_CHUNKED => chunked_read c cap
                     | _ => let '(d, c) := plain_read c cap in (Some d, c)
                     end in
    match got with
    | None => (BODY_FAILED, c, rs)
    | Some d =>
      if (0 <? length d)%nat then (BODY d, c, rs)
      else if match mode c with BODY_CHUNKED => body_done c | _ => false end then (BODY_END, c, rs)
      else match fill c false rs with
           | (FILL_BLOCK, c, rs) => (BODY_AGAIN, c, rs)
           | (FILL_EOF, c, rs) =>
             match mode c with
             | BODY_EOF => (BODY_END, c{{body_done := true}}, rs)
             | _ => (BODY_FAILED, c, rs)
             end
           | (FILL_ERROR, c, rs) => (BODY_FAILED, c, rs)
           | (GOT, c, rs) => body_read_loop fuel c cap rs
           end
    end
  end.

Definition http_body_read (c : http_conn) (cap : nat) (rs : list read_outcome) :
    body_result * http_conn * list read_outcome :=
  if body_done c then (BODY_END, c, rs) else body_read_loop (S (length rs)) c cap rs.

(** ** Specification: chunked messages *)

Definition hex_digit (c : Z) : Z := default 0 (digit_value c).
Definition hex_value (ds : bytes) (n : Z) : Z := fold_left (fun n c => n * 16 + hex_digit c) ds n.

(** The size line of [n] bytes: hexadecimal digits, an extension, CRLF. *)
Record size_line (n : Z) (line : bytes) : Prop := mk_size_line {
  sl_digits : bytes; sl_ext : bytes;
  sl_text : line = sl_digits ++ sl_ext ++ CRLF;
  sl_some : sl_digits <> [];
  sl_hex : Forall (fun c => is_xdigit c = true) sl_digits;
  sl_value : hex_value sl_digits 0 = n;
  sl_range : n <= SIZE_MAX;
  sl_start : sl_ext = [] \/ cur sl_ext = C";" \/ cur sl_ext = C" ";
  sl_no_lf : ~ In LF sl_ext }.

(** One chunk: its size line and its data. *)
Record wire_chunk := mk_wire { line : bytes; data : bytes }.

Definition wire_ok (w : wire_chunk) : Prop := data w <> [] /\ size_line (Z.of_nat (length (data w))) (line w).
Definition wire_text (w : wire_chunk) : bytes := line w ++ data w ++ CRLF.

(** The trailer lines and the blank line that ends the message. *)
Definition trailer_ok (l : bytes) : Prop := l <> [] /\ ~ In CR l /\ ~ In LF l.
Definition trailer_text (ls : list bytes) : bytes := concat (map (fun l => l ++ CRLF) ls) ++ CRLF.

Definition payload (ws : list wire_chunk) : bytes := concat (map data ws).

Definition message (ws : list wire_chunk) (last : bytes) (ls : list bytes) : bytes :=
  concat (map wire_text ws) ++ last ++ trailer_text ls.

Definition message_ok (ws : list wire_chunk) (last : bytes) (ls : list bytes) : Prop :=
  Forall wire_ok ws /\ size_line 0 last /\ Forall trailer_ok ls.

(** ** Lemmas: size lines *)

Lemma xdigit_value c : is_xdigit c = true ->
  (exists d, digit_value c = Some d /\ hex_digit c = d /\ 0 <= d < 16) /\ is_space c = false /\
  (c =? C"-") = false /\ (c =? C"+") = false /\ (Z.lor c 32 =? C"x") = false /\ c <> LF.
Proof.
  intros H. assert (is_byte c) as Hb by (unfold is_xdigit, is_digit, is_byte in *; lia).
  assert (negb (is_xdigit c) || (match digit_value c with Some d => (0 <=? d) && (d <? 16) | None => false end &&
    negb (is_space c) && negb (c =? C"-") && negb (c =? C"+") && negb (Z.lor c 32 =? C"x") && negb (c =? LF)) = true) as E.
  { clear H. revert c Hb. by_all_bytes. }
  rewrite H in E. cbn [negb orb] in E. unfold hex_digit. destruct (digit_value c) as [d|]; [|done].
  rewrite !andb_true_iff, !negb_true_iff, Z.leb_le, Z.ltb_lt, (Z.eqb_neq c LF) in E.
  destruct E as ((((([? ?] & ?) & ?) & ?) & ?) & ?). split_and!; try done. exists d. by split_and!.
Qed.

Lemma hex_value_le ds n : 0 <= n -> Forall (fun c => is_xdigit c = true) ds -> n <= hex_value ds n.
Proof.
  intros Hn H. revert n Hn. induction H as [|c ds Hc _ IH]; intros n Hn; [done|].
  destruct (xdigit_value c Hc) as ((d & _ & Ed & ?) & _). unfold hex_value in *. cbn [fold_left]. rewrite Ed.
  specialize (IH (n * 16 + d) ltac:(lia)). lia.
Qed.

(** A byte at which the digits stop. *)
Definition stop_char (x : Z) : Prop := x = CR \/ x = C";" \/ x = C" ".

Lemma strtoul_digits_hex ds x r n :
  0 <= n -> Forall (fun c => is_xdigit c = true) ds -> stop_char x -> hex_value ds n <= SIZE_MAX ->
  strtoul_digits 16 (ds ++ x :: r) n = hex_value ds n.
Proof.
  intros Hn H Hx. revert n Hn. induction H as [|c ds Hc Hds IH]; intros n Hn Hle; cbn [app strtoul_digits].
  - assert (digit_value x = None) as -> by (by destruct Hx as [->|[->| ->]]). done.
  - destruct (xdigit_value c Hc) as ((d & -> & Ed & ?) & _). rewrite (proj2 (Z.ltb_lt d 16)) by lia.
    unfold hex_value in *. cbn [fold_left] in *. rewrite Ed in *.
    pose proof (hex_value_le ds (n * 16 + d) ltac:(lia) Hds) as Hm. unfold hex_value in Hm.
    rewrite Z.min_r by lia. apply IH; lia || done.
Qed.

Lemma strtoul_hex ds x r :
  ds <> [] -> Forall (fun c => is_xdigit c = true) ds -> stop_char x -> hex_value ds 0 <= SIZE_MAX ->
  strtoul 16 (ds ++ x :: r) = hex_value ds 0.
Proof.
  intros Hne H Hx Hle. unfold strtoul. destruct ds as [|c ds]; [done|].
  pose proof (Forall_inv H) as Hc. destruct (xdigit_value c Hc) as (_ & Hs & H1 & H2 & _).
  cbn [app skip_blanks]. rewrite Hs. cbn [cur hd]. rewrite H1, H2. cbn [tl].
  assert ((Z.lor (cur (ds ++ x :: r)) 32 =? C"x") = false) as Hx'.
  { destruct ds as [|c' ds]; cbn [app cur hd].
    - by destruct Hx as [->|[->| ->]].
    - apply Forall_inv_tail, Forall_inv in H. by destruct (xdigit_value c' H) as (_ & _ & _ & _ & ? & _). }
  rewrite Hx', !andb_false_r. cbn [andb].
  change (c :: ds ++ x :: r) with ((c :: ds) ++ x :: r). by apply strtoul_digits_hex.
Qed.

(** Which of two splits of one string is the longer. *)
Lemma app_cases (a f l s : bytes) :
  a ++ f = l ++ s ->
  (exists q, a = l ++ q /\ s = q ++ f) \/ (exists y, y <> [] /\ l = a ++ y /\ f = y ++ s).
Proof.
  intros [(k & H1 & H2)|(k & H1 & H2)]%app_eq_inv.
  - left. by exists k.
  - destruct k as [|c k]; [left; exists []|right; by exists (c :: k)].
    rewrite app_nil_r in *. by subst.
Qed.

Lemma split_lf_line l r : ~ In LF l -> split_lf (l ++ LF :: r) = Some (l ++ [LF], r).
Proof.
  induction l as [|c l IH]; intros H; cbn [app split_lf]; [done|].
  rewrite (proj2 (Z.eqb_neq c LF)) by (intros ->; apply H; by left).
  rewrite IH; [done|]. intros Hin. apply H. by right.
Qed.

Lemma split_lf_none l : ~ In LF l -> split_lf l = None.
Proof.
  induction l as [|c l IH]; intros H; cbn [split_lf]; [done|].
  rewrite (proj2 (Z.eqb_neq c LF)) by (intros ->; apply H; by left).
  rewrite IH; [done|]. intros Hin. apply H. by right.
Qed.

Lemma size_line_start n l : size_line n l -> exists h, l = h ++ [LF] /\ ~ In LF h /\ is_xdigit (cur l) = true /\ h <> [].
Proof.
  intros [ds ext -> Hne Hx _ _ _ Hlf]. exists (ds ++ ext ++ [CR]). split_and!.
  - unfold CRLF. by rewrite <- !app_assoc.
  - intros [Hin|[Hin|[Hin|[]]]%in_app_or]%in_app_or; [|done|done].
    rewrite Forall_forall in Hx. apply Hx, xdigit_value in Hin. tauto.
  - destruct ds as [|c ds]; [done|]. exact (Forall_inv Hx).
  - by destruct ds.
Qed.

Lemma size_line_split n l r : size_line n l -> split_lf (l ++ r) = Some (l, r).
Proof.
  intros (h & -> & Hh & _)%size_line_start. rewrite <- app_assoc. cbn [app]. by apply split_lf_line.
Qed.

Lemma size_line_partial n l a y : size_line n l -> l = a ++ y -> y <> [] -> split_lf a = None.
Proof.
  intros (h & -> & Hh & _)%size_line_start E Hy. apply split_lf_none.
  destruct (exists_last Hy) as (y' & c & ->). rewrite app_assoc in E.
  apply app_inj_tail in E as [-> _]. intros Hin. apply Hh, in_or_app. by left.
Qed.

Lemma size_line_value n l r : size_line n l -> strtoul 16 (l ++ r) = n.
Proof.
  intros [ds ext -> Hne Hx Hv Hr Hs Hlf]. unfold CRLF. rewrite <- !app_assoc, <- Hv.
  destruct ext as [|c ext]; cbn [app].
  - apply strtoul_hex; [done|done|by left|lia].
  - apply strtoul_hex; [done|done| |lia]. destruct Hs as [|[Hs|Hs]]; [done|by right; left|by right; right].
Qed.

(** ** Lemmas: trailers *)

Lemma trailer_head l ls r : trailer_ok l -> exists c t, trailer_text (l :: ls) ++ r = c :: t /\ c <> CR.
Proof.
  intros (Hne & Hcr & _). destruct l as [|c l]; [done|]. eexists _, _. split; [reflexivity|].
  intros ->. apply Hcr. by left.
Qed.

(** No blank line before the end. *)
Lemma trailer_blank ls r p q :
  ls <> [] -> Forall trailer_ok ls -> trailer_text ls ++ r = p ++ CRLF ++ CRLF ++ q ->
  (length (trailer_text ls) <= length p + 4)%nat.
Proof.
  intros Hne H. revert p Hne. induction H as [|l ls Hl Hls IH]; [done|]. intros p _ E.
  assert (Et : trailer_text (l :: ls) = l ++ CRLF ++ trailer_text ls)
    by (unfold trailer_text; cbn [map concat]; by rewrite <- !app_assoc).
  rewrite Et in E |- *. rewrite <- !app_assoc in E. rewrite !length_app. change (length CRLF) with 2%nat.
  apply app_cases in E as [(x & -> & E)|(x & Hx & -> & E)].
  - (* the blank line starts inside [l] or right at it *)
    destruct x as [|c x]; cbn [app] in E.
    + injection E as E. destruct ls as [|l2 ls]; [rewrite app_nil_r; cbn; lia|].
      destruct (trailer_head l2 ls r (Forall_inv Hls)) as (c & t & Ec & Hc). rewrite Ec in E. by injection E.
    + destruct Hl as (_ & Hcr & _). exfalso. apply Hcr. injection E as <- _. apply in_or_app. right. by left.
  - rewrite length_app. destruct x as [|c1 x]; [done|]. injection E as <- E.
    destruct x as [|c2 x]; [done|]. injection E as <- E.
    destruct ls as [|l2 ls]; [cbn; lia|]. cbn [length]. specialize (IH x ltac:(done) E). lia.
Qed.

Lemma trailer_ends ls : ls <> [] -> exists t, trailer_text ls = t ++ CRLF ++ CRLF.
Proof.
  intros Hne. destruct (exists_last Hne) as (ls' & l & ->).
  exists (concat (map (fun l => l ++ CRLF) ls') ++ l).
  unfold trailer_text. rewrite map_app, concat_app. cbn [map concat]. by rewrite app_nil_r, <- !app_assoc.
Qed.

Lemma trailer_found ls r :
  ls <> [] -> Forall trailer_ok ls -> exists p, strstr (CRLF ++ CRLF) (trailer_text ls ++ r) = Some (p, r).
Proof.
  intros Hne H. destruct (trailer_ends ls Hne) as (t & Et).
  destruct (strstr (CRLF ++ CRLF) (trailer_text ls ++ r)) as [[p q]|] eqn:E.
  - apply strstr_some in E as [E Hmin]. rewrite <- app_assoc in E.
    pose proof (trailer_blank ls r p q Hne H E) as Hl.
    specialize (Hmin t r ltac:(by rewrite Et, <- !app_assoc)). rewrite Et in Hl, E. rewrite !length_app in Hl. change (length CRLF) with 2%nat in Hl.
    rewrite <- !app_assoc in E. apply app_inj_1 in E as [-> E]; [|lia].
    injection E as ->. by exists p.
  - apply strstr_none in E. exfalso. apply E. exists t, r. by rewrite Et, <- !app_assoc.
Qed.

Lemma trailer_partial ls a y :
  ls <> [] -> Forall trailer_ok ls -> trailer_text ls = a ++ y -> y <> [] -> strstr (CRLF ++ CRLF) a = None.
Proof.
  intros Hne H E Hy. destruct (strstr (CRLF ++ CRLF) a) as [[p q]|] eqn:Es; [|done].
  apply strstr_some in Es as [Es _]. rewrite <- app_assoc in Es.
  assert (E2 : trailer_text ls ++ [] = p ++ CRLF ++ CRLF ++ (q ++ y))
    by (rewrite app_nil_r, E, Es, <- !app_assoc; done).
  pose proof (trailer_blank ls [] p (q ++ y) Hne H E2) as Hl.
  rewrite E, Es, !length_app in Hl. change (length CRLF) with 2%nat in Hl. destruct y; [done|]. cbn [length] in Hl. lia.
Qed.

(** ** Lemmas: the chunk decoder *)

(** At a chunk boundary, [s] holds the rest of the message and what follows it. *)
Definition boundary (s p tail : bytes) : Prop :=
  exists ws last ls, message_ok ws last ls /\ s = message ws last ls ++ tail /\ p = payload ws.

(** What the decoder still has to see ([s]) and to deliver ([p]). *)
Inductive pending (c : http_conn) (s p tail : bytes) : Prop :=
  | pending_skip k : chunk_skip c = k -> (1 <= k <= 2)%nat -> chunk_left c = 0 -> chunk_final c = false ->
      (exists s', s = drop (2 - k) CRLF ++ s' /\ boundary s' p tail) -> pending c s p tail
  | pending_boundary : chunk_skip c = O -> chunk_left c = 0 -> chunk_final c = false ->
      boundary s p tail -> pending c s p tail
  | pending_data d : chunk_skip c = O -> chunk_left c = Z.of_nat (length d) -> d <> [] -> chunk_final c = false ->
      (exists s' p', s = d ++ CRLF ++ s' /\ p = d ++ p' /\ boundary s' p' tail) -> pending c s p tail
  | pending_final : chunk_skip c = O -> chunk_left c = 0 -> chunk_final c = true -> p = [] ->
      (exists ls, Forall trailer_ok ls /\ s = trailer_text ls ++ tail) -> pending c s p tail.

(** What one call leaves: the rest is still pending, and there was nothing more
    to do only if more input is to come, or the message is complete. *)
Definition served (c : http_conn) (future : bytes) (p tail : bytes) (full : Prop) : Prop :=
  mode c = BODY_CHUNKED /\
  ((body_done c = false /\ pending c (inb c ++ future) p tail /\ (full \/ future <> [])) \/
   (body_done c = true /\ p = [] /\ inb c ++ future = tail)).

Lemma boundary_nonempty s p tail : boundary s p tail -> exists l r n, size_line n l /\ s = l ++ r.
Proof.
  intros (ws & last & ls & (Hw & Hl & _) & -> & _). destruct ws as [|w ws].
  - exists last, (trailer_text ls ++ tail), 0. split; [done|]. unfold message. cbn. by rewrite <- app_assoc.
  - destruct (Forall_inv Hw) as [_ Hs]. eexists _, _, _. split; [exact Hs|].
    unfold message, wire_text. cbn [map concat]. rewrite <- !app_assoc. done.
Qed.

(** The decoder's work at a boundary, with enough input for the size line. *)
Lemma boundary_cases s p tail :
  boundary s p tail ->
  (exists last ls, size_line 0 last /\ Forall trailer_ok ls /\ s = last ++ trailer_text ls ++ tail /\ p = []) \/
  (exists l d s' p', size_line (Z.of_nat (length d)) l /\ d <> [] /\ s = l ++ d ++ CRLF ++ s' /\
     p = d ++ p' /\ boundary s' p' tail).
Proof.
  intros (ws & last & ls & (Hw & Hl & Ht) & -> & ->). destruct ws as [|w ws].
  - left. exists last, ls. unfold message. cbn. by rewrite <- app_assoc.
  - right. destruct (Forall_inv Hw) as [Hd Hs]. exists (line w), (data w), (message ws last ls ++ tail), (payload ws).
    split_and!; try done.
    + unfold message, wire_text. cbn [map concat]. by rewrite <- !app_assoc.
    + exists ws, last, ls. split_and!; try done. split_and!; try done. exact (Forall_inv_tail Hw).
Qed.

(** The part of a round before the data: skip, trailer or size line. *)
Definition data_round (c : http_conn) (cap : nat) (produced : bytes)
    (again : http_conn -> bytes -> option bytes * http_conn) : option bytes * http_conn :=
  if (length (inb c) =? 0)%nat then (Some produced, c)
  else
    let n := Z.to_nat (Z.min (Z.min (chunk_left c) (Z.of_nat (length (inb c))))
                             (Z.of_nat (cap - length produced))) in
    if (n =? 0)%nat then (Some produced, c)
    else
      let produced := produced ++ take n (inb c) in
      let c := c{{chunk_left := chunk_left c - Z.of_nat n; inb := drop n (inb c)}} in
      let c := if chunk_left c =? 0 then c{{chunk_skip := 2%nat}} else c in
      if (length produced =? cap)%nat then (Some produced, c) else again c produced.

Lemma data_round_spec c cap produced again f d s' p' tail :
  mode c = BODY_CHUNKED -> body_done c = false -> chunk_skip c = O -> chunk_final c = false ->
  chunk_left c = Z.of_nat (length d) -> d <> [] -> inb c ++ f = d ++ CRLF ++ s' -> boundary s' p' tail ->
  (length produced < cap)%nat ->
  (forall c' pr', mode c' = BODY_CHUNKED -> body_done c' = false -> (length (inb c') < length (inb c))%nat ->
     (length pr' < cap)%nat ->
     forall p, pending c' (inb c' ++ f) p tail ->
     exists x c'', again c' pr' = (Some (pr' ++ x), c'') /\ (length (pr' ++ x) <= cap)%nat /\
       exists q, p = x ++ q /\ served c'' f q tail (length (pr' ++ x) = cap)) ->
  exists x c'', data_round c cap produced again = (Some (produced ++ x), c'') /\
    (length (produced ++ x) <= cap)%nat /\
    exists q, d ++ p' = x ++ q /\ served c'' f q tail (length (produced ++ x) = cap).
Proof.
  intros Hm Hbd Hsk Hfi Hle Hd E Hb Hcap Hagain. unfold data_round.
  destruct (Nat.eqb_spec (length (inb c)) 0) as [E0|E0].
  - apply length_zero_iff_nil in E0. rewrite E0 in E. cbn in E. exists [], c. rewrite app_nil_r. split_and!; [done|lia|].
    exists (d ++ p'). split; [done|]. split; [done|]. left. split_and!; [done| |right; rewrite E; by destruct d].
    apply (pending_data _ _ _ _ d); try done. rewrite E0, E. by exists s', p'.
  - set (n := Z.to_nat _). assert (Hn : n = Nat.min (Nat.min (length d) (length (inb c))) (cap - length produced)) by lia.
    assert (1 <= length d)%nat by (destruct d; [done|cbn; lia]).
    destruct (Nat.eqb_spec n 0) as [|Hn0]; [lia|].
    set (c1 := c{{chunk_left := _; inb := _}}).
    assert (E1 : take n (inb c) = take n d).
    { apply (f_equal (take n)) in E. rewrite !take_app_le in E by lia. done. }
    assert (E2 : drop n (inb c) ++ f = drop n d ++ CRLF ++ s').
    { apply (f_equal (drop n)) in E. rewrite !drop_app_le in E by lia. done. }
    rewrite E1. set (c2 := if chunk_left c1 =? 0 then _ else c1).
    assert (Hp2 : pending c2 (inb c2 ++ f) (drop n d ++ p') tail).
    { unfold c2. change (chunk_left c1) with (chunk_left c - Z.of_nat n). rewrite Hle.
      destruct (Z.eqb_spec (Z.of_nat (length d) - Z.of_nat n) 0) as [Hz|Hz].
      - assert (drop n d = []) as Ed by (apply drop_ge; lia). rewrite Ed in *.
        apply (pending_skip _ _ _ _ 2); cbn [app]; [done|lia| |done|].
        + change (chunk_left _) with (chunk_left c - Z.of_nat n). lia.
        + exists s'. split; [exact E2|done].
      - apply (pending_data _ _ _ _ (drop n d)); try done.
        + change (chunk_left c1) with (chunk_left c - Z.of_nat n). rewrite length_drop. lia.
        + intros Hnil. apply (f_equal length) in Hnil. rewrite length_drop in Hnil. cbn in Hnil. lia.
        + by exists s', p'. }
    assert (Hm2 : mode c2 = BODY_CHUNKED /\ body_done c2 = false /\ inb c2 = drop n (inb c)).
    { unfold c2. destruct (chunk_left c1 =? 0); by split_and!. }
    destruct Hm2 as (Hm2 & Hb2 & Hi2).
    assert (Hlen : length (take n d) = n) by (rewrite length_take; lia).
    assert (Ed : d ++ p' = take n d ++ drop n d ++ p') by (by rewrite app_assoc, take_drop).
    destruct (Nat.eqb_spec (length (produced ++ take n d)) cap) as [Hfull|Hroom].
    + exists (take n d), c2. split_and!; [done|lia|]. exists (drop n d ++ p'). split; [done|].
      split; [done|]. left. split_and!; [done|done|by left].
    + rewrite length_app, Hlen in Hroom.
      destruct (Hagain c2 (produced ++ take n d) Hm2 Hb2 ltac:(rewrite Hi2, length_drop; lia)
        ltac:(rewrite length_app, Hlen; lia) _ Hp2) as (x & c'' & Ea & Hl & q & Eq & Hs).
      exists (take n d ++ x), c''. rewrite <- !app_assoc in *. split_and!; [done|done|].
      exists q. split; [|done]. by rewrite Ed, Eq, app_assoc.
Qed.

Lemma chunked_loop_unfold fuel c cap produced :
  chunked_loop (S fuel) c cap produced =
  let k := Nat.min (chunk_skip c) (length (inb c)) in
  let c := c{{inb := drop k (inb c); chunk_skip := (chunk_skip c - k)%nat}} in
  if (0 <? chunk_skip c)%nat then (Some produced, c)
  else if chunk_final c then
    if has_prefix CRLF (inb c) then (Some produced, c{{inb := drop 2 (inb c); body_done := true}})
    else match strstr (CRLF ++ CRLF) (inb c) with
         | Some (_, rest) => (Some produced, c{{inb := rest; body_done := true}})
         | None => (Some produced, c)
         end
  else if chunk_left c =? 0 then
    if (length (inb c) =? 0)%nat then (Some produced, c)
    else match split_lf (inb c) with
         | None => (Some produced, c)
         | Some (_, rest) =>
           if negb (is_xdigit (cur (inb c)))
           then (if (length produced =? 0)%nat then None else Some produced, c)
           else
             let sz := strtoul 16 (inb c) in
             let c := c{{inb := rest}} in
             if sz =? 0 then chunked_loop fuel (c{{chunk_final := true}}) cap produced
             else data_round (c{{chunk_left := sz}}) cap produced (fun c p => chunked_loop fuel c cap p)
         end
  else data_round c cap produced (fun c p => chunked_loop fuel c cap p).
Proof.
  cbn [chunked_loop]. cbv zeta. set (c0 := c{{inb := _; chunk_skip := _}}).
  destruct (0 <? chunk_skip c0)%nat; [done|]. destruct (chunk_final c0); [done|].
  destruct (chunk_left c0 =? 0); [|done]. destruct (length (inb c0) =? 0)%nat; [done|].
  destruct (split_lf (inb c0)) as [[l r]|]; [|done]. destruct (negb (is_xdigit (cur (inb c0)))); [done|].
  by destruct (strtoul 16 (inb c0) =? 0).
Qed.

(** The end of the message. *)
Lemma final_round c f ls tail (produced : bytes) :
  mode c = BODY_CHUNKED -> body_done c = false -> chunk_skip c = O -> chunk_left c = 0 -> chunk_final c = true ->
  Forall trailer_ok ls -> inb c ++ f = trailer_text ls ++ tail ->
  exists c', (if has_prefix CRLF (inb c) then (Some produced, c{{inb := drop 2 (inb c); body_done := true}})
    else match strstr (CRLF ++ CRLF) (inb c) with
         | Some (_, rest) => (Some produced, c{{inb := rest; body_done := true}})
         | None => (Some produced, c)
         end) = (Some produced, c') /\ served c' f [] tail False.
Proof.
  intros Hm Hb Hs Hl Hf Hls E.
  assert (Hwait : f <> [] -> served c f [] tail False).
  { intros Hne. split; [done|]. left. split_and!; [done| |by right]. apply pending_final; try done. by exists ls. }
  destruct ls as [|l ls].
  - change (trailer_text []) with CRLF in E. apply app_cases in E as [(q & Eq & Et)|(y & Hy & Ey & Ef)].
    + rewrite Eq. rewrite has_prefix_app. eexists. split; [done|]. split; [done|]. by right.
    + destruct (has_prefix CRLF (inb c)) eqn:Hp.
      { apply has_prefix_length in Hp. apply (f_equal length) in Ey. rewrite length_app in Ey.
        destruct y; [done|]. cbn in *. lia. }
      destruct (strstr (CRLF ++ CRLF) (inb c)) as [[p q]|] eqn:Es.
      { apply strstr_some in Es as [Es _]. apply (f_equal length) in Ey, Es. rewrite !length_app in *. cbn in *. lia. }
      exists c. split; [done|]. apply Hwait. rewrite Ef. by destruct y.
  - assert (has_prefix CRLF (inb c) = false) as ->.
    { destruct (has_prefix CRLF (inb c)) eqn:Hp; [|done]. apply has_prefix_true in Hp as (t & Ht).
      destruct (trailer_head l ls tail (Forall_inv Hls)) as (x & t' & Ex & Hx). rewrite Ex, Ht in E.
      by injection E as <- _. }
    apply app_cases in E as [(q & Eq & Et)|(y & Hy & Ey & Ef)].
    + rewrite Eq. destruct (trailer_found (l :: ls) q ltac:(done) Hls) as (p & ->).
      eexists. split; [done|]. split; [done|]. by right.
    + rewrite (trailer_partial (l :: ls) _ y ltac:(done) Hls Ey Hy). exists c. split; [done|]. apply Hwait.
      rewrite Ef. by destruct y.
Qed.

(** Skipping as much of CRLF as has arrived. *)
Lemma skip_crlf k i f s :
  (1 <= k <= 2)%nat -> i ++ f = drop (2 - k) CRLF ++ s ->
  drop (Nat.min k (length i)) i ++ f = drop (2 - (k - Nat.min k (length i))) CRLF ++ s.
Proof.
  intros Hk E. set (j := Nat.min k (length i)).
  apply (f_equal (drop j)) in E. rewrite !drop_app_le, drop_drop in E
    by (rewrite ?length_drop; cbn [length CRLF]; lia).
  replace (2 - k + j)%nat with (2 - (k - j))%nat in E by lia. exact E.
Qed.

Lemma chunked_loop_spec fuel c cap produced f p tail :
  mode c = BODY_CHUNKED -> body_done c = false -> (length (inb c) + (if chunk_final c then 0 else 1) < fuel)%nat ->
  (length produced < cap)%nat -> pending c (inb c ++ f) p tail ->
  exists x c', chunked_loop fuel c cap produced = (Some (produced ++ x), c') /\
    (length (produced ++ x) <= cap)%nat /\ exists q, p = x ++ q /\ served c' f q tail (length (produced ++ x) = cap).
Proof.
  revert c produced p. induction fuel as [|fuel IH]; intros c produced p Hm Hb Hf Hcap Hp; [lia|].
  rewrite chunked_loop_unfold. cbv zeta.
  assert (Hagain : forall c1, (length (inb c1) <= length (inb c))%nat -> chunk_final c = false -> forall c' pr', mode c' = BODY_CHUNKED -> body_done c' = false ->
     (length (inb c') < length (inb c1))%nat -> (length pr' < cap)%nat -> forall p, pending c' (inb c' ++ f) p tail ->
     exists x c'', chunked_loop fuel c' cap pr' = (Some (pr' ++ x), c'') /\ (length (pr' ++ x) <= cap)%nat /\
       exists q, p = x ++ q /\ served c'' f q tail (length (pr' ++ x) = cap)).
  { intros c1 Hc1 Hfc c' pr' H1 H2 H3 H4 p' H5. apply IH; try done. rewrite Hfc in Hf. destruct (chunk_final c'); lia. }
  assert (Hwait : forall c', mode c' = BODY_CHUNKED -> body_done c' = false -> pending c' (inb c' ++ f) p tail -> f <> [] ->
    exists x c'', (Some produced, c') = (Some (produced ++ x), c'') /\ (length (produced ++ x) <= cap)%nat /\
      exists q, p = x ++ q /\ served c'' f q tail (length (produced ++ x) = cap)).
  { intros c' H1 H2 H3 H4. exists [], c'. rewrite app_nil_r. split_and!; [done|lia|]. exists p. split; [done|].
    split; [done|]. left. split_and!; [done|done|by right]. }
  set (k := Nat.min (chunk_skip c) (length (inb c))). set (c0 := c{{inb := _; chunk_skip := _}}).
  assert (Hm0 : mode c0 = BODY_CHUNKED /\ body_done c0 = false /\ chunk_left c0 = chunk_left c /\ chunk_final c0 = chunk_final c /\
    chunk_skip c0 = (chunk_skip c - k)%nat /\ inb c0 = drop k (inb c)) by (by split_and!).
  destruct Hm0 as (Hm0 & Hb0 & Hl0 & Hf0 & Hs0 & Hi0).
  assert (Hlen0 : (length (inb c0) <= length (inb c))%nat) by (rewrite Hi0, length_drop; lia).
  (* after the skip: more input is needed, or it was a boundary all along *)
  assert (Hskip : (0 < chunk_skip c0 /\ pending c0 (inb c0 ++ f) p tail /\ f <> [])%nat \/
                  (chunk_skip c0 = O /\ pending c0 (inb c0 ++ f) p tail)).
  { destruct Hp as [k' Ek Hk Hz Hfin (s' & Es & Hbd)|Hk Hz Hfin Hbd|d Hk Hz Hd Hfin Hrest|Hk Hz Hfin Hnil Hrest].
    - assert (Hdrop : inb c0 ++ f = drop (2 - chunk_skip c0) CRLF ++ s').
      { rewrite Hi0, Hs0. unfold k. rewrite Ek. by apply skip_crlf. }
      destruct (chunk_skip c0) as [|k0] eqn:Ek0.
      + right. split; [done|]. apply pending_boundary; try congruence.
        rewrite Hdrop. exact Hbd.
      + left. assert (k0 <= 1)%nat by lia. split_and!; [lia| |].
        * apply (pending_skip _ _ _ _ (S k0)); [done|lia|congruence|congruence|by exists s'].
        * assert (inb c0 = []) as En.
          { rewrite Hi0. apply drop_ge. unfold k in *. lia. }
          rewrite En in Hdrop. cbn [app] in Hdrop. rewrite Hdrop. destruct k0 as [|[|]]; [done|done|lia].
    - right. assert (k = O) as Ek by (unfold k; lia). rewrite Ek, drop_0 in Hi0. split; [lia|]. rewrite Hi0.
      apply pending_boundary; first [congruence|lia|done].
    - right. assert (k = O) as Ek by (unfold k; lia). rewrite Ek, drop_0 in Hi0. split; [lia|]. rewrite Hi0.
      apply (pending_data _ _ _ _ d); first [congruence|lia|done].
    - right. assert (k = O) as Ek by (unfold k; lia). rewrite Ek, drop_0 in Hi0. split; [lia|]. rewrite Hi0.
      apply pending_final; first [congruence|lia|done]. }
  clearbody c0. destruct Hskip as [(Hsk & Hp0 & Hne)|(Hsk & Hp0)].
  { rewrite (proj2 (Nat.ltb_lt 0 (chunk_skip c0))) by lia. by apply Hwait. }
  rewrite (proj2 (Nat.ltb_ge 0 (chunk_skip c0))) by lia.
  destruct Hp0 as [k' Ek Hk|_ Hz Hfin Hbd|d _ Hz Hd Hfin (s' & p' & Es & -> & Hbd)|_ Hz Hfin -> (ls & Hls & Es)]; [lia| | |].
  - (* at a boundary *)
    rewrite Hfin, Hz, Z.eqb_refl.
    assert (Hpb : pending c0 (inb c0 ++ f) p tail) by (by apply pending_boundary).
    destruct (Nat.eqb_spec (length (inb c0)) 0) as [E0|E0].
    { apply length_zero_iff_nil in E0. apply Hwait; try done. rewrite E0 in Hbd. cbn in Hbd.
      apply boundary_nonempty in Hbd as (l & r & n & (h & -> & _ & _ & Hh)%size_line_start & ->). by destruct h. }
    destruct (boundary_cases _ _ _ Hbd) as [(last & ls & Hlast & Hls & Es & ->)|(l & d & s' & p' & Hl & Hd & Es & -> & Hb')].
    + apply app_cases in Es as [(q & Eq & Et)|(y & Hy & Ey & Ef)].
      * rewrite Eq, (size_line_split 0), (size_line_value 0) by done.
        destruct (size_line_start _ _ Hlast) as (h & Eh & _ & Hx & Hh).
        assert (cur (last ++ q) = cur last) as -> by (rewrite Eh; by destruct h). rewrite Hx. cbn [negb Z.eqb].
        set (c1 := _{{chunk_final := true}}).
        apply IH; try done.
        -- change (inb c1) with q. change (chunk_final c1) with true. rewrite Eq, Eh, !length_app in Hlen0. cbn in Hlen0.
           destruct h; [done|]. cbn [length] in Hlen0. destruct (chunk_final c); lia.
        -- apply pending_final; try done. by exists ls.
      * rewrite (size_line_partial 0 last (inb c0) y) by done. apply Hwait; try done. rewrite Ef. by destruct y.
    + apply app_cases in Es as [(q & Eq & Et)|(y & Hy & Ey & Ef)].
      * rewrite Eq, (size_line_split (Z.of_nat (length d))), (size_line_value (Z.of_nat (length d))) by done.
        destruct (size_line_start _ _ Hl) as (h & Eh & _ & Hx & Hh).
        assert (cur (l ++ q) = cur l) as -> by (rewrite Eh; by destruct h). rewrite Hx. cbn [negb].
        assert (1 <= length d)%nat by (destruct d; [done|cbn; lia]).
        rewrite (proj2 (Z.eqb_neq _ 0)) by lia.
        apply (data_round_spec _ cap produced _ f d s' p' tail); try done.
        apply Hagain; [|congruence]. rewrite Eq, length_app in Hlen0.
        change (inb (c0{{inb := q; chunk_left := Z.of_nat (length d)}})) with q. lia.
      * rewrite (size_line_partial (Z.of_nat (length d)) l (inb c0) y) by done. apply Hwait; try done. rewrite Ef. by destruct y.
  - (* inside a chunk *)
    assert (1 <= length d)%nat by (destruct d; [done|cbn; lia]).
    rewrite Hfin. rewrite (proj2 (Z.eqb_neq (chunk_left c0) 0)) by lia.
    apply (data_round_spec _ cap produced _ f d s' p' tail); try done. apply Hagain; [done|congruence].
  - (* after the last chunk *)
    rewrite Hfin. destruct (final_round c0 f ls tail produced) as (c' & -> & Hs); try done.
    exists [], c'. rewrite app_nil_r. split_and!; [done|lia|]. exists []. split; [done|].
    destruct Hs as [? [(? & ? & [[]|?])|?]]; split; try done; [left|by right]. split_and!; [done|done|by right].
Qed.

(** ** Lemmas: whole bodies *)

(** The bytes still to arrive. *)
Fixpoint flow (rs : list read_outcome) : bytes :=
  match rs with
  | RData d :: rs => d ++ flow rs
  | _ :: rs => flow rs
  | [] => []
  end.

(** The connection stays up and its socket works. *)
Definition flowing (r : read_outcome) : Prop :=
  match r with RData _ | RBlock _ => True | _ => False end.

Definition reading (c : http_conn) (rs : list read_outcome) (p tail : bytes) : Prop :=
  mode c = BODY_CHUNKED /\
  ((body_done c = false /\ pending c (inb c ++ flow rs) p tail) \/
   (body_done c = true /\ p = [] /\ inb c ++ flow rs = tail)).

(** The decoder's state is apart from its input. *)
Lemma pending_inb c x s p tail : pending c s p tail -> pending (c{{inb := x}}) s p tail.
Proof.
  intros [k ? ? ? ? ?|? ? ? ?|d ? ? ? ? ?|? ? ? ? ?].
  - by apply (pending_skip _ _ _ _ k).
  - by apply pending_boundary.
  - by apply (pending_data _ _ _ _ d).
  - by apply pending_final.
Qed.

Lemma body_read_loop_spec fuel c cap rs p tail :
  mode c = BODY_CHUNKED -> body_done c = false -> (0 < cap)%nat -> (length rs < fuel)%nat ->
  Forall flowing rs -> pending c (inb c ++ flow rs) p tail ->
  exists res c' rs', body_read_loop fuel c cap rs = (res, c', rs') /\ Forall flowing rs' /\
    ((exists d q, res = BODY d /\ d <> [] /\ p = d ++ q /\ (length rs' <= length rs)%nat /\ reading c' rs' q tail) \/
     (res = BODY_END /\ p = [] /\ body_done c' = true /\ inb c' ++ flow rs' = tail) \/
     (res = BODY_AGAIN /\ (length rs' < length rs)%nat /\ reading c' rs' p tail)).
Proof.
  revert c rs. induction fuel as [|fuel IH]; intros c rs Hm Hb Hcap Hf Hrs Hp; [lia|].
  cbn [body_read_loop]. rewrite Hm. unfold chunked_read.
  destruct (chunked_loop_spec (S (S (length (inb c)))) c cap [] (flow rs) p tail Hm Hb) as (d & c1 & -> & Hl & q & Eq & Hm1 & Hs);
    [destruct (chunk_final c); lia|done|done|]. cbn [app] in Hl, Hs |- *.
  destruct (Nat.ltb_spec 0 (length d)) as [Hd|Hd].
  - exists (BODY d), c1, rs. split; [done|]. split; [done|]. left. exists d, q. split_and!; try done; [by destruct d; [simpl in Hd; lia|]|].
    split; [done|]. destruct Hs as [(? & ? & _)|?]; [left; by split|by right].
  - assert (d = []) as -> by (destruct d; [done|cbn in Hd; lia]). cbn [app] in Eq. subst q. rewrite Hm1.
    destruct Hs as [(Hb1 & Hp1 & Hf1)|(Hb1 & -> & Ht)]; rewrite Hb1.
    + destruct Hf1 as [Hf1|Hf1]; [cbn in Hf1; lia|].
      destruct rs as [|[x| | |e] rs]; [done|..]; pose proof (Forall_inv Hrs) as Hr; try done; apply Forall_inv_tail in Hrs; cbn [fill].
      * set (c2 := c1{{inb := inb c1 ++ x}}).
        destruct (IH c2 rs) as (res & c' & rs' & E & Hrs' & H); try done.
        -- cbn in Hf. lia.
        -- cbn [flow] in Hp1. rewrite app_assoc in Hp1. exact (pending_inb c1 _ _ p tail Hp1).
        -- exists res, c', rs'. split; [exact E|]. split; [done|]. cbn [length].
           destruct H as [(d & q & ? & ? & ? & ? & ?)|[?|(? & ? & ?)]]; [left; exists d, q; split_and!; (done || lia)|by right; left|].
           right; right. split_and!; (done || lia).
      * exists BODY_AGAIN, c1, rs. cbn [negb orb]. split; [done|]. split; [done|]. right; right. cbn [length].
        split_and!; [done|lia|]. split; [done|]. left. split; [done|exact Hp1].
    + exists BODY_END, c1, rs. split; [done|]. split; [done|]. right; left. by split_and!.
Qed.

(** Calls with the given buffer sizes until the end of the body: the pieces
    read, and whether it ended well. *)
Fixpoint drain (caps : list nat) (c : http_conn) (rs : list read_outcome) :
    list bytes * option bool * http_conn * list read_outcome :=
  match caps with
  | [] => ([], None, c, rs)
  | cap :: caps =>
    match http_body_read c cap rs with
    | (BODY d, c, rs) => let '(ds, fin, c, rs) := drain caps c rs in (d :: ds, fin, c, rs)
    | (BODY_AGAIN, c, rs) => drain caps c rs
    | (BODY_END, c, rs) => ([], Some true, c, rs)
    | (BODY_FAILED, c, rs) => ([], Some false, c, rs)
    end
  end.

Lemma drain_spec caps c rs p tail :
  reading c rs p tail -> Forall flowing rs -> Forall (fun cap => (0 < cap)%nat) caps ->
  (length p + length rs < length caps)%nat ->
  exists ds c' rs', drain caps c rs = (ds, Some true, c', rs') /\ concat ds = p /\
    body_done c' = true /\ inb c' ++ flow rs' = tail.
Proof.
  revert c rs p. induction caps as [|cap caps IH]; intros c rs p Hr Hf Hc Hl; [cbn in Hl; lia|].
  pose proof (Forall_inv Hc) as Hcap. apply Forall_inv_tail in Hc. cbn [drain]. unfold http_body_read.
  destruct Hr as (Hm & [(Hb & Hp)|(Hb & -> & Ht)]); rewrite Hb.
  - destruct (body_read_loop_spec (S (length rs)) c cap rs p tail Hm Hb Hcap ltac:(lia) Hf Hp)
      as (res & c' & rs' & -> & Hf' & [(d & q & -> & Hd & -> & Hlr & Hr)|[(-> & -> & Hb' & Ht)|(-> & Hlr & Hr)]]).
    + rewrite length_app in Hl. assert (1 <= length d)%nat by (destruct d; [done|cbn; lia]).
      destruct (IH c' rs' q Hr Hf' Hc) as (ds & c2 & rs2 & -> & <- & Hrest); [cbn in Hl; lia|].
      exists (d :: ds), c2, rs2. by split_and!; try apply Hrest.
    + exists [], c', rs'. by split_and!.
    + cbn in Hl. apply IH; try done. lia.
  - exists [], c, rs. by split_and!.
Qed.

(** ** Properties *)

(** C27: a chunked body is delivered intact however the network fragments it and
    whatever buffers it is read into: for any chunks with any hexadecimal sizes
    and extensions, any trailers, and any interleaving of arriving bytes with
    pauses, repeated reads give exactly the chunks' data, end after at most one
    call per byte and per network event, and leave exactly the bytes that
    follow the message for the next response. *)
Theorem http_chunked_stream (ws : list wire_chunk) (last : bytes) (ls : list bytes) (tail : bytes)
    (c : http_conn) (rs : list read_outcome) (caps : list nat)
    (Hmsg : message_ok ws last ls)
    (Hstart : mode c = BODY_CHUNKED /\ body_done c = false /\ chunk_skip c = O /\ chunk_left c = 0 /\ chunk_final c = false)
    (Hflow : Forall flowing rs) (Hbytes : inb c ++ flow rs = message ws last ls ++ tail)
    (Hcaps : Forall (fun cap => (0 < cap)%nat) caps)
    (Hcalls : (length (payload ws) + length rs < length caps)%nat) :
  exists ds c' rs', drain caps c rs = (ds, Some true, c', rs') /\ concat ds = payload ws /\
    body_done c' = true /\ inb c' ++ flow rs' = tail.
Proof.
  destruct Hstart as (Hm & Hb & Hs & Hl & Hf). apply drain_spec; try done. split; [done|]. left. split; [done|].
  rewrite Hbytes. apply pending_boundary; try done. by exists ws, last, ls.
Qed.

Lemma demo_size_line : size_line 3 (B"3;x" ++ CRLF).
Proof.
  apply (mk_size_line 3 _ B"3" B";x"); try done; [repeat constructor|by right; left|].
  intros [H|[H|[]]]; discriminate.
Qed.

Lemma demo_last_line : size_line 0 (B"0" ++ CRLF).
Proof.
  apply (mk_size_line 0 _ B"0" []); try done; [repeat constructor|by left|by intros []].
Qed.

Example http_chunked_stream_witness :
  let c := mk_conn B"3;x" [] BODY_CHUNKED 0 0 O false false in
  let rs := [RData [CR]; RBlock false; RData ([LF] ++ B"ab"); RData (B"c" ++ CRLF ++ B"0" ++ CRLF ++ CRLF ++ B"HTTP")] in
  exists ds c' rs', drain (replicate 8 2%nat) c rs = (ds, Some true, c', rs') /\ concat ds = B"abc" /\
    body_done c' = true /\ inb c' ++ flow rs' = B"HTTP".
Proof.
  intros c rs.
  apply (http_chunked_stream [mk_wire (B"3;x" ++ CRLF) B"abc"] (B"0" ++ CRLF) [] B"HTTP" c rs (replicate 8 2%nat)).
  - split; [|split; [exact demo_last_line|apply Forall_nil]].
    apply Forall_cons; [|apply Forall_nil]. split; [discriminate|exact demo_size_line].
  - repeat split.
  - repeat apply Forall_cons; try exact I. apply Forall_nil.
  - reflexivity.
  - repeat apply Forall_cons; try (cbn; lia). apply Forall_nil.
  - cbn. lia.
Defined.
