(* ===== verification/ImageDims.v ===== *)
(** Dimensions of PNG, JPEG and WebP files from their headers, and requested
    image sizes (src/src/core/image_dimensions.c). Every read of the input goes
    through a checked lookup: [None] is a read outside it. *)
From S2P Require Import Prelude Bits Decimal Endian Wav.

Open Scope Z_scope.

Definition TNY_IMAGE_DIMENSION_MAX : Z := 1048576.

Inductive tny_image_dim_status :=
  TNY_IMAGE_DIM_OK | TNY_IMAGE_DIM_UNVERIFIABLE | TNY_IMAGE_DIM_UNSUPPORTED.
Inductive tny_image_size_status :=
  TNY_IMAGE_SIZE_AUTO | TNY_IMAGE_SIZE_MATCH | TNY_IMAGE_SIZE_MISMATCH |
  TNY_IMAGE_SIZE_UNVERIFIABLE | TNY_IMAGE_SIZE_UNSUPPORTED.

(** [n] bytes at [p + i], if they are all inside. *)
Definition read (n : nat) (p : bytes) (i : nat) : option bytes :=
  if (i + n <=? length p)%nat then Some (take n (drop i p)) else None.
Definition read8 (p : bytes) (i : nat) : option Z := p !! i.
Definition read_be16 (p : bytes) (i : nat) : option Z := be16 <$> read 2 p i.
Definition read_be32 (p : bytes) (i : nat) : option Z := be32 <$> read 4 p i.
Definition read_le16 (p : bytes) (i : nat) : option Z := le16 <$> read 2 p i.
Definition read_le24 (p : bytes) (i : nat) : option Z := le24 <$> read 3 p i.
Definition read_le32 (p : bytes) (i : nat) : option Z := le32 <$> read 4 p i.
(** [memcmp(p + i, tag, strlen(tag)) == 0]. *)
Definition read_tag (tag p : bytes) (i : nat) : option bool :=
  (fun s => str_eq s tag) <$> read (length tag) p i.

(** The status with the width and height that were stored. *)
Abbreviation dims := (tny_image_dim_status * Z * Z)%type.
Definition unverifiable : option dims := Some (TNY_IMAGE_DIM_UNVERIFIABLE, 0, 0).
Definition unsupported : option dims := Some (TNY_IMAGE_DIM_UNSUPPORTED, 0, 0).
Definition dim_ok (w h : Z) : option dims := Some (TNY_IMAGE_DIM_OK, w, h).

Definition edge_ok (v : Z) : bool := negb (v =? 0) && (v <=? TNY_IMAGE_DIMENSION_MAX).

(** ** PNG *)

Definition png_depth_ok (colour depth : Z) : bool :=
  if colour =? 0 then (depth =? 1) || (depth =? 2) || (depth =? 4) || (depth =? 8) || (depth =? 16)
  else if colour =? 3 then (depth =? 1) || (depth =? 2) || (depth =? 4) || (depth =? 8)
  else if (colour =? 2) || (colour =? 4) || (colour =? 6) then (depth =? 8) || (depth =? 16)
  else false.

Definition crc_bit (crc : Z) : Z :=
  Z.lxor (Z.shiftr crc 1) (if negb (Z.land crc 1 =? 0) then 3988292384 else 0).
Definition crc_byte (crc b : Z) : Z := Nat.iter 8 crc_bit (Z.lxor crc b).
Definition png_header_crc (header : bytes) : Z := Z.lxor (fold_left crc_byte header UINT32_MAX) UINT32_MAX.

Definition png_dimensions (d : bytes) : option dims :=
  if len d <? 8 + 4 + 4 + 13 + 4 then unverifiable
  else
    size ← read_be32 d 8;
    if negb (size =? 13) then unverifiable
    else
      ihdr ← read_tag B"IHDR" d 12;
      if negb ihdr then unverifiable
      else
        width ← read_be32 d 16;
        height ← read_be32 d 20;
        if negb (edge_ok width) || negb (edge_ok height) then unverifiable
        else
          colour ← read8 d 25;
          depth ← read8 d 24;
          compression ← read8 d 26;
          filter_ ← read8 d 27;
          interlace ← read8 d 28;
          header ← read 17 d 12;
          crc ← read_be32 d 29;
          if negb (png_depth_ok colour depth) || negb (compression =? 0) || negb (filter_ =? 0) ||
             (1 <? interlace) || negb (png_header_crc header =? crc)
          then unverifiable
          else dim_ok width height.

(** ** JPEG *)

Definition jpeg_frame (marker : Z) : bool :=
  (192 <=? marker) && (marker <=? 207) && negb (marker =? 196) && negb (marker =? 200) && negb (marker =? 204).
Definition jpeg_frame_supported (marker : Z) : bool :=
  (marker =? 192) || (marker =? 193) || (marker =? 194) || (marker =? 201) || (marker =? 202).
(** Markers without a segment, and those after which no frame header comes. *)
Definition jpeg_standalone (marker : Z) : bool :=
  (marker =? 216) || (marker =? 1) || ((208 <=? marker) && (marker <=? 215)).
Definition jpeg_stop (marker : Z) : bool := (marker =? 0) || (marker =? 217) || (marker =? 218).

(** The frame header at [p], after the marker. *)
Definition jpeg_frame_header (marker segment : Z) (p : bytes) : option dims :=
  if negb (jpeg_frame_supported marker) then unsupported
  else if segment <? 8 then unverifiable
  else
    precision ← read8 p 2;
    height ← read_be16 p 3;
    width ← read_be16 p 5;
    components ← read8 p 7;
    if (negb (precision =? 8) && ((marker =? 192) || negb (precision =? 12))) || (components =? 0) ||
       negb (segment =? 8 + 3 * components) || negb (edge_ok width) || negb (edge_ok height)
    then unverifiable
    else dim_ok width height.

(** The loop of [jpeg_dimensions]; [p] is the input from [d + i]. *)
Fixpoint jpeg_loop (fuel : nat) (p : bytes) : option dims :=
  match fuel with
  | O => None
  | S fuel =>
    if negb (1 <? len p) then unverifiable
    else
      first ← read8 p 0;
      if negb (first =? 255) then unverifiable
      else
        marker ← read8 p 1;
        if marker =? 255 then jpeg_loop fuel (drop 1 p)
        else
          let p := drop 2 p in
          if jpeg_standalone marker then jpeg_loop fuel p
          else if jpeg_stop marker then unverifiable
          else if len p <? 2 then unverifiable
          else
            segment ← read_be16 p 0;
            if (segment <? 2) || (len p <? segment) then unverifiable
            else if jpeg_frame marker then jpeg_frame_header marker segment p
            else jpeg_loop fuel (from p segment)
  end.

Definition jpeg_dimensions (d : bytes) : option dims := jpeg_loop (S (length d)) (drop 2 d).

(** ** WebP *)

Definition webp_edges (width height : Z) : option dims :=
  if negb (edge_ok width) || negb (edge_ok height) then unverifiable else dim_ok width height.

(** Lossy key frame. *)
Definition webp_vp8 (payload : bytes) (size : Z) : option dims :=
  if size <? 10 then unverifiable
  else
    frame ← read_le24 payload 0;
    b3 ← read8 payload 3;
    b4 ← read8 payload 4;
    b5 ← read8 payload 5;
    if negb (Z.land frame 1 =? 0) || negb (b3 =? 157) || negb (b4 =? 1) || negb (b5 =? 42) then unverifiable
    else
      w ← read_le16 payload 6;
      h ← read_le16 payload 8;
      webp_edges (Z.land w 16383) (Z.land h 16383).

(** Lossless. *)
Definition webp_vp8l (payload : bytes) (size : Z) : option dims :=
  if size <? 5 then unverifiable
  else
    first ← read8 payload 0;
    if negb (first =? 47) then unverifiable
    else
      bits ← read_le32 payload 1;
      if negb (Z.shiftr bits 29 =? 0) then unverifiable
      else webp_edges (Z.land bits 16383 + 1) (Z.land (Z.shiftr bits 14) 16383 + 1).

(** The canvas of the extended format. *)
Definition webp_vp8x (payload : bytes) (size : Z) : option dims :=
  if negb (size =? 10) then unverifiable
  else
    w ← read_le24 payload 4;
    h ← read_le24 payload 7;
    if UINT32_MAX <? (w + 1) * (h + 1) then unverifiable
    else webp_edges (w + 1) (h + 1).

(** The chunk loop; [p] is the input from [d + i], [left] is [end - i]. *)
Fixpoint webp_loop (fuel : nat) (p : bytes) (left : Z) : option dims :=
  match fuel with
  | O => None
  | S fuel =>
    if negb (8 <=? left) then (if left =? 0 then unsupported else unverifiable)
    else
      size ← read_le32 p 4;
      let payload := drop 8 p in
      if left - 8 <? size then unverifiable
      else
        unpadded ← (if Z.land size 1 =? 0 then Some false
                    else if size =? left - 8 then Some true
                    else pad ← read8 payload (Z.to_nat size); Some (negb (pad =? 0)));
        if unpadded : bool then unverifiable
        else
          vp8 ← read_tag B"VP8 " p 0;
          vp8l ← read_tag B"VP8L" p 0;
          vp8x ← read_tag B"VP8X" p 0;
          if vp8 : bool then webp_vp8 payload size
          else if vp8l : bool then webp_vp8l payload size
          else if vp8x : bool then webp_vp8x payload size
          else
            let step := 8 + size + Z.land size 1 in
            webp_loop fuel (from p step) (left - step)
  end.

Definition webp_dimensions (d : bytes) : option dims :=
  if len d <? 12 then unverifiable
  else
    riff ← read_le32 d 4;
    if (riff <? 4) || (UINT32_MAX - 9 <? riff) || negb (Z.land riff 1 =? 0) || (len d - 8 <? riff)
    then unverifiable
    else webp_loop (S (length d)) (drop 12 d) (8 + riff - 12).

(** [data] is [None] for a null pointer. *)
Definition tny_image_dimensions (data : option bytes) : option dims :=
  match data with
  | None => unverifiable
  | Some d =>
    if len d <? 12 then unverifiable
    else
      png ← read_tag [137; 80; 78; 71; 13; 10; 26; 10] d 0;
      b0 ← read8 d 0;
      b1 ← read8 d 1;
      b2 ← read8 d 2;
      riff ← read_tag B"RIFF" d 0;
      webp ← read_tag B"WEBP" d 8;
      if png : bool then png_dimensions d
      else if (b0 =? 255) && (b1 =? 216) && (b2 =? 255) then jpeg_dimensions d
      else if riff && webp then webp_dimensions d
      else unverifiable
  end.

(** ** Requested sizes *)

(** [value] after the digits read, or [false] at the eighth. *)
Fixpoint edge_digits (p : bytes) (digits : nat) (value : Z) : option (bytes * Z) :=
  if is_digit (cur p) then
    match p with
    | [] => None
    | c :: p => if (7 <? S digits)%nat then None else edge_digits p (S digits) (u32 (u32 (value * 10) + (c - C"0")))
    end
  else Some (p, value).

Definition parse_edge (p : bytes) : option (bytes * Z) :=
  if (cur p <? C"1") || (C"9" <? cur p) then None
  else
    match edge_digits p 0 0 with
    | None => None
    | Some (p, value) => if edge_ok value then Some (p, value) else None
    end.

Definition tny_image_size_parse (size : option bytes) : option (Z * Z) :=
  match size with
  | None => None
  | Some p =>
    match parse_edge p with
    | None => None
    | Some (p, w) =>
      if negb (cur p =? C"x") then None
      else
        match parse_edge (tl p) with
        | None => None
        | Some (p, h) => if cur p =? NUL then Some (w, h) else None
        end
    end
  end.

Definition tny_image_size_compare (requested : option bytes) (dimensions : tny_image_dim_status) (width height : Z) :
    tny_image_size_status :=
  match requested with
  | None => TNY_IMAGE_SIZE_AUTO
  | Some r =>
    if (cur r =? NUL) || str_eq r B"auto" then TNY_IMAGE_SIZE_AUTO
    else
      match dimensions with
      | TNY_IMAGE_DIM_UNSUPPORTED => TNY_IMAGE_SIZE_UNSUPPORTED
      | TNY_IMAGE_DIM_UNVERIFIABLE => TNY_IMAGE_SIZE_UNVERIFIABLE
      | TNY_IMAGE_DIM_OK =>
        match tny_image_size_parse requested with
        | None => TNY_IMAGE_SIZE_UNVERIFIABLE
        | Some (want_width, want_height) =>
          if (want_width =? width) && (want_height =? height) then TNY_IMAGE_SIZE_MATCH
          else TNY_IMAGE_SIZE_MISMATCH
        end
      end
  end.

Definition tny_image_size_status_name (status : tny_image_size_status) : bytes :=
  match status with
  | TNY_IMAGE_SIZE_MATCH => B"match"
  | TNY_IMAGE_SIZE_MISMATCH => B"mismatch"
  | TNY_IMAGE_SIZE_UNVERIFIABLE => B"unverifiable"
  | TNY_IMAGE_SIZE_UNSUPPORTED => B"unsupported"
  | TNY_IMAGE_SIZE_AUTO => B"auto"
  end.

(** ** Specification: the headers of the three formats *)

Definition edge (v : Z) : Prop := 1 <= v <= TNY_IMAGE_DIMENSION_MAX.
Definition put_be16 (x : Z) : bytes := put_be 2 x.
Definition put_be32 (x : Z) : bytes := put_be 4 x.
Definition PNG_SIGNATURE : bytes := [137; 80; 78; 71; 13; 10; 26; 10].

(** PNG 1.2, table 11.1: colour types and their bit depths. *)
Definition png_depths : list (Z * Z) :=
  [(0, 1); (0, 2); (0, 4); (0, 8); (0, 16); (2, 8); (2, 16); (3, 1); (3, 2); (3, 4); (3, 8); (4, 8); (4, 16);
   (6, 8); (6, 16)].

Definition png_header (w h : Z) (d : bytes) : Prop :=
  exists colour depth interlace rest,
    let ihdr := B"IHDR" ++ put_be32 w ++ put_be32 h ++ [depth; colour; 0; 0; interlace] in
    d = PNG_SIGNATURE ++ put_be32 13 ++ ihdr ++ put_be32 (png_header_crc ihdr) ++ rest /\
    In (colour, depth) png_depths /\ (interlace = 0 \/ interlace = 1) /\ edge w /\ edge h.

(** What may come before the frame header of a JPEG file. *)
Inductive jpeg_item : bytes -> Prop :=
| jpeg_fill : jpeg_item [255]
| jpeg_mark m : m = 216 \/ m = 1 \/ 208 <= m <= 215 -> jpeg_item [255; m]
| jpeg_segment m body :
    m = 196 \/ m = 200 \/ m = 204 \/ 2 <= m <= 191 \/ 219 <= m <= 254 -> len body + 2 <= 65535 ->
    jpeg_item ([255; m] ++ put_be16 (len body + 2) ++ body).

Definition jpeg_header (w h : Z) (d : bytes) : Prop :=
  exists items m precision components specs rest,
    d = [255; 216] ++ concat items ++
        [255; m] ++ put_be16 (8 + len specs) ++ [precision] ++ put_be16 h ++ put_be16 w ++ [components] ++ specs ++ rest /\
    Forall jpeg_item items /\ In m [192; 193; 194; 201; 202] /\
    (precision = 8 \/ (precision = 12 /\ m <> 192)) /\ 1 <= components /\ len specs = 3 * components /\
    1 <= w <= 65535 /\ 1 <= h <= 65535.

(** A WebP file is a RIFF file of even size; the first chunk with a picture
    gives its size. *)
Definition vp8_body (w h : Z) (b : bytes) : Prop :=
  exists t0 t1 t2 sw sh r,
    b = [t0; t1; t2; 157; 1; 42] ++ put_le 2 (sw * 16384 + w) ++ put_le 2 (sh * 16384 + h) ++ r /\
    t0 mod 2 = 0 /\ 0 <= sw <= 3 /\ 0 <= sh <= 3 /\ 1 <= w < 16384 /\ 1 <= h < 16384.
Definition vp8l_body (w h : Z) (b : bytes) : Prop :=
  exists alpha r,
    b = 47 :: put32 (alpha * 268435456 + (h - 1) * 16384 + (w - 1)) ++ r /\
    0 <= alpha <= 1 /\ 1 <= w <= 16384 /\ 1 <= h <= 16384.
Definition vp8x_body (w h : Z) (b : bytes) : Prop :=
  exists flags,
    b = flags ++ put_le 3 (w - 1) ++ put_le 3 (h - 1) /\ length flags = 4%nat /\ w * h <= UINT32_MAX /\
    edge w /\ edge h.
Definition picture (w h : Z) (c : chunk) : Prop :=
  (tag c = B"VP8 " /\ vp8_body w h (body c)) \/ (tag c = B"VP8L" /\ vp8l_body w h (body c)) \/
  (tag c = B"VP8X" /\ vp8x_body w h (body c)).
Definition no_picture (c : chunk) : Prop := tag c <> B"VP8 " /\ tag c <> B"VP8L" /\ tag c <> B"VP8X".
Definition webp_chunk (c : chunk) : Prop := chunk_ok c /\ Forall (eq 0) (pad c).

Definition webp_header (w h : Z) (d : bytes) : Prop :=
  exists cs c rest tail,
    let contents := B"WEBP" ++ concat (map encode cs) ++ encode c ++ rest in
    d = B"RIFF" ++ put32 (len contents) ++ contents ++ tail /\
    len contents mod 2 = 0 /\ len contents <= UINT32_MAX - 9 /\
    Forall webp_chunk (cs ++ [c]) /\ Forall no_picture cs /\ picture w h c.

Definition image_header (w h : Z) (d : bytes) : Prop :=
  png_header w h d \/ jpeg_header w h d \/ webp_header w h d.

(** A result that reads nothing outside, reports zeros unless it succeeds, and
    succeeds only on [P]. *)
Definition outcome (P : Z -> Z -> Prop) (r : option dims) : Prop :=
  match r with
  | Some (TNY_IMAGE_DIM_OK, w, h) => P w h
  | Some (_, w, h) => w = 0 /\ h = 0
  | None => False
  end.

(** ** Lemmas *)

Lemma edge_iff v : 0 <= v -> edge_ok v = true <-> edge v.
Proof. unfold edge_ok, edge. rewrite andb_true_iff, negb_true_iff, Z.eqb_neq, Z.leb_le. lia. Qed.

Lemma png_depth_iff colour depth : png_depth_ok colour depth = true <-> In (colour, depth) png_depths.
Proof.
  unfold png_depth_ok, png_depths. cbn [In]. split.
  - destruct (Z.eqb_spec colour 0) as [->|]; [|destruct (Z.eqb_spec colour 3) as [->|]; [|destruct (_ || (colour =? 6)) eqn:E; [|done]]];
      rewrite ?orb_true_iff, ?Z.eqb_eq in *; intros; repeat match goal with H : _ \/ _ |- _ => destruct H end;
      subst; repeat first [left; reflexivity|right].
  - intros H. repeat (destruct H as [[= <- <-]|H]; [done|]). done.
Qed.

Lemma lxor_u32 a b : 0 <= a <= UINT32_MAX -> 0 <= b <= UINT32_MAX -> 0 <= Z.lxor a b <= UINT32_MAX.
Proof.
  unfold UINT32_MAX. intros Ha Hb. assert (Hn : 0 <= Z.lxor a b) by (apply Z.lxor_nonneg; lia).
  split; [done|]. destruct (Z.eq_dec (Z.lxor a b) 0) as [->|E]; [lia|].
  assert (Z.lxor a b < 2 ^ 32); [|lia]. apply Z.log2_lt_pow2; [lia|].
  assert (forall x, 0 <= x <= 4294967295 -> Z.log2 x < 32) as Hlog.
  { intros x Hx. destruct (Z.eq_dec x 0) as [->|?]; [done|]. apply Z.log2_lt_pow2; lia. }
  pose proof (Z.log2_lxor a b ltac:(lia) ltac:(lia)). pose proof (Hlog a ltac:(lia)). pose proof (Hlog b ltac:(lia)). lia.
Qed.

Lemma crc_bit_u32 c : 0 <= c <= UINT32_MAX -> 0 <= crc_bit c <= UINT32_MAX.
Proof.
  intros H. unfold crc_bit. apply lxor_u32.
  - rewrite Z.shiftr_div_pow2 by lia. change (2 ^ 1) with 2. lia.
  - destruct (negb _); unfold UINT32_MAX; lia.
Qed.

Lemma crc_bits_u32 n c : 0 <= c <= UINT32_MAX -> 0 <= Nat.iter n crc_bit c <= UINT32_MAX.
Proof. intros H. induction n as [|n IH]; [done|]. rewrite Nat.iter_succ. by apply crc_bit_u32. Qed.

Lemma crc_byte_u32 c b : 0 <= c <= UINT32_MAX -> is_byte b -> 0 <= crc_byte c b <= UINT32_MAX.
Proof. intros Hc Hb. apply crc_bits_u32, lxor_u32; [done|]. unfold is_byte, UINT32_MAX in *. lia. Qed.

Lemma fold_range (f : Z -> Z -> Z) s c :
  (forall c b, 0 <= c <= UINT32_MAX -> is_byte b -> 0 <= f c b <= UINT32_MAX) ->
  Forall is_byte s -> 0 <= c <= UINT32_MAX -> 0 <= fold_left f s c <= UINT32_MAX.
Proof. intros Hf Hs. revert c. induction Hs as [|b s Hb Hs IH]; intros c Hc; [done|]. by apply IH, Hf. Qed.

Lemma png_header_crc_u32 s : Forall is_byte s -> 0 <= png_header_crc s <= UINT32_MAX.
Proof.
  intros Hs. assert (0 <= UINT32_MAX <= UINT32_MAX) as Hm by (split; discriminate).
  apply lxor_u32; [|exact Hm]. exact (fold_range crc_byte s UINT32_MAX crc_byte_u32 Hs Hm).
Qed.

(** Reads in a list of known cells. *)
Ltac reduce_reads :=
  unfold read_be16, read_be32, read_le16, read_le24, read_le32, read_tag, read8, read;
  cbn [length Nat.add Nat.leb drop take fmap option_fmap option_map mbind option_bind lookup list_lookup app];
  rewrite ?take_0, ?drop_0.

(** Four bytes are the encoding of their value, and conversely. *)
Lemma put_be32_be32 a b c e : is_byte a -> is_byte b -> is_byte c -> is_byte e ->
  put_be32 (be32 [a; b; c; e]) = [a; b; c; e] /\ 0 <= be32 [a; b; c; e] <= UINT32_MAX.
Proof.
  intros. by destruct (proj1 (be32_iff a b c e _ ltac:(by repeat apply list.Forall_cons_2)) eq_refl).
Qed.

Lemma put_be32_cells x : 0 <= x <= UINT32_MAX ->
  exists a b c e, put_be32 x = [a; b; c; e] /\ be32 [a; b; c; e] = x.
Proof.
  intros H. assert (Forall is_byte (put_be 4 x)) as Hb by apply Forall_rev, put_le_byte.
  unfold put_be32. destruct (put_be 4 x) as [|a [|b [|c [|e [|]]]]] eqn:E; try discriminate E.
  exists a, b, c, e. split; [done|]. apply be32_iff; [done|]. by rewrite E.
Qed.

Lemma png_outcome d : Forall is_byte d -> has_prefix PNG_SIGNATURE d = true ->
  outcome (fun w h => png_header w h d) (png_dimensions d).
Proof.
  intros Hd [r ->]%has_prefix_true. unfold png_dimensions, len. apply Forall_app in Hd as [_ Hr].
  destruct (Z.ltb_spec (Z.of_nat (length (PNG_SIGNATURE ++ r))) (8 + 4 + 4 + 13 + 4)) as [|Hl]; [done|].
  rewrite length_app in Hl. cbn [length PNG_SIGNATURE] in Hl.
  do 25 (destruct r as [|? r]; [cbn [length] in Hl; lia|]). clear Hl.
  cbn [app PNG_SIGNATURE]. reduce_reads. rewrite !list.Forall_cons in Hr. destruct_and! Hr.
  destruct (Z.eqb_spec (be32 [z; z0; z1; z2]) 13) as [E13|]; cbn [negb]; [|done].
  destruct (str_eq _ _) eqn:Et; cbn [negb]; [|done]. apply str_eq_true in Et. injection Et as -> -> -> ->.
  destruct (put_be32_be32 z7 z8 z9 z10) as [Pw Nw]; try done. destruct (put_be32_be32 z11 z12 z13 z14) as [Ph Nh]; try done.
  destruct (put_be32_be32 z z0 z1 z2) as [P13 _]; try done. destruct (put_be32_be32 z20 z21 z22 z23) as [Pc _]; try done.
  destruct (edge_ok (be32 [z7; _; _; _])) eqn:Ew; cbn [negb orb]; [|done].
  destruct (edge_ok (be32 [z11; _; _; _])) eqn:Eh; cbn [negb orb]; [|done].
  destruct (png_depth_ok _ _) eqn:Ed; cbn [negb orb]; [|done].
  destruct (Z.eqb_spec z17 0) as [->|]; cbn [negb orb]; [|done]. destruct (Z.eqb_spec z18 0) as [->|]; cbn [negb orb]; [|done].
  destruct (Z.ltb_spec 1 z19) as [|Hil]; cbn [orb]; [done|].
  assert (z19 = 0 \/ z19 = 1) by (match goal with Hz : is_byte z19 |- _ => unfold is_byte in Hz; lia end).
  destruct (Z.eqb_spec (png_header_crc [73; 72; 68; 82; z7; z8; z9; z10; z11; z12; z13; z14; z15; z16; 0; 0; z19])
    (be32 [z20; z21; z22; z23])) as [Ec|]; cbn [negb]; [|done].
  apply edge_iff in Ew, Eh; try lia. apply png_depth_iff in Ed. rewrite E13 in P13. rewrite <- Ec in Pc.
  exists z16, z15, z19, r. cbv zeta. rewrite Pw, Ph, P13. cbn [app]. rewrite Pc. split; [reflexivity|]. by split_and!.
Qed.

Lemma png_complete d w h : Forall is_byte d -> png_header w h d -> png_dimensions d = dim_ok w h.
Proof.
  intros Hd (colour & depth & il & rest & E & Hc & Hi & Hw & Hh).
  set (ihdr := B"IHDR" ++ _) in E. unfold edge, TNY_IMAGE_DIMENSION_MAX in Hw, Hh.
  assert (Hihdr : Forall is_byte ihdr) by (rewrite E in Hd; by repeat (apply Forall_app in Hd as [? Hd])).
  pose proof (png_header_crc_u32 ihdr Hihdr) as Hcrc. unfold ihdr in *. clear ihdr.
  assert (UINT32_MAX = 4294967295) as Hmax by done.
  destruct (put_be32_cells w) as (w0 & w1 & w2 & w3 & Ew & Hw'); [lia|].
  destruct (put_be32_cells h) as (h0 & h1 & h2 & h3 & Eh & Hh'); [lia|].
  rewrite Ew, Eh in E, Hcrc. cbn [app] in E, Hcrc.
  destruct (put_be32_cells _ Hcrc) as (c0 & c1 & c2 & c3 & Ecrc & Hcrc'). rewrite Ecrc in E. subst d. unfold png_dimensions, PNG_SIGNATURE, len.
  match goal with |- context [Z.ltb ?n ?m] => destruct (Z.ltb_spec n m) as [Hl|_] end.
  { rewrite !length_app in Hl. cbn [length put_be32 put_be rev put_le app] in Hl. lia. }
  change (put_be32 13) with [0; 0; 0; 13]. cbn [app]. reduce_reads. change (be32 [0; 0; 0; 13] =? 13) with true.
  rewrite str_eq_refl. cbn [negb]. rewrite Hw', Hh', (proj2 (edge_iff w ltac:(lia))), (proj2 (edge_iff h ltac:(lia))) by done.
  cbn [negb orb]. rewrite (proj2 (png_depth_iff _ _) Hc).
  rewrite Hcrc', !Z.eqb_refl. destruct (Z.ltb_spec 1 il) as [Hil|]; [clear - Hi Hil; lia|]. reflexivity.
Qed.

(** *** JPEG *)

Lemma put_be16_cells x : 0 <= x <= 65535 -> exists a b, put_be16 x = [a; b] /\ be16 [a; b] = x.
Proof.
  intros H. assert (Forall is_byte (put_be 2 x)) as Hb by apply Forall_rev, put_le_byte.
  unfold put_be16. destruct (put_be 2 x) as [|a [|b [|]]] eqn:E; try discriminate E.
  exists a, b. split; [done|]. apply be16_iff; [done|]. by rewrite E.
Qed.

Lemma put_be16_be16 a b : is_byte a -> is_byte b -> put_be16 (be16 [a; b]) = [a; b] /\ 0 <= be16 [a; b] <= 65535.
Proof.
  intros. by destruct (proj1 (be16_iff a b _ ltac:(by repeat apply list.Forall_cons_2)) eq_refl).
Qed.

(** What the marker tests accept. *)
Lemma jpeg_marker_cases m : is_byte m -> m <> 255 ->
  (jpeg_standalone m = true /\ (m = 216 \/ m = 1 \/ 208 <= m <= 215)) \/
  (jpeg_standalone m = false /\ jpeg_stop m = true) \/
  (jpeg_standalone m = false /\ jpeg_stop m = false /\ jpeg_frame m = true) \/
  (jpeg_standalone m = false /\ jpeg_stop m = false /\ jpeg_frame m = false /\
    (m = 196 \/ m = 200 \/ m = 204 \/ 2 <= m <= 191 \/ 219 <= m <= 254)).
Proof. unfold is_byte, jpeg_standalone, jpeg_stop, jpeg_frame. lia. Qed.

(** The frame header after a marker. *)
Definition frame_at (m : Z) (w h : Z) (p : bytes) : Prop :=
  exists precision components specs rest,
    p = put_be16 (8 + len specs) ++ [precision] ++ put_be16 h ++ put_be16 w ++ [components] ++ specs ++ rest /\
    In m [192; 193; 194; 201; 202] /\ (precision = 8 \/ (precision = 12 /\ m <> 192)) /\ 1 <= components /\
    len specs = 3 * components /\ 1 <= w <= 65535 /\ 1 <= h <= 65535.

Lemma jpeg_frame_outcome m p :
  Forall is_byte p -> (2 <= length p)%nat ->
  be16 (take 2 p) <= len p ->
  outcome (fun w h => frame_at m w h p) (jpeg_frame_header m (be16 (take 2 p)) p).
Proof.
  intros Hp H2 Hlen. unfold jpeg_frame_header. destruct (jpeg_frame_supported m) eqn:Em; cbn [negb]; [|done].
  destruct (Z.ltb_spec (be16 (take 2 p)) 8) as [|H8]; [done|].
  unfold len in Hlen. do 8 (destruct p as [|? p]; [cbn [length] in Hlen; lia|]). cbn [take length] in Hlen, H8 |- *.
  reduce_reads. rewrite !list.Forall_cons in Hp. destruct_and! Hp.
  destruct (put_be16_be16 z2 z3) as [Ph Nh]; try done. destruct (put_be16_be16 z4 z5) as [Pw Nw]; try done.
  destruct (put_be16_be16 z z0) as [Ps Ns]; try done.
  destruct (_ || _) eqn:E; [done|]. boolify.
  repeat match goal with E : edge_ok _ = true |- _ => apply edge_iff in E; [|lia] end.
  exists z1, z6, (take (Z.to_nat (3 * z6)) p), (drop (Z.to_nat (3 * z6)) p).
  assert (len (take (Z.to_nat (3 * z6)) p) = 3 * z6) as El.
  { unfold is_byte in *. unfold len. rewrite length_take. lia. }
  rewrite El. replace (8 + 3 * z6) with (be16 [z; z0]) by lia. rewrite Ps, Ph, Pw. cbn [app]. rewrite take_drop.
  split; [done|]. unfold edge in *. unfold jpeg_frame_supported, is_byte in *. cbn [In]. split_and!; lia.
Qed.

Lemma jpeg_frame_complete m w h p :
  Forall is_byte p -> frame_at m w h p ->
  (2 <= length p)%nat /\ jpeg_frame_header m (be16 (take 2 p)) p = dim_ok w h /\ 8 <= be16 (take 2 p) <= len p.
Proof.
  intros Hp (precision & components & specs & rest & -> & Hm & Hprec & Hc & Hs & Hw & Hh).
  assert (is_byte components) as Hb.
  { do 4 apply Forall_app in Hp as [_ Hp]. apply Forall_app in Hp as [Hp _]. by apply list.Forall_cons in Hp as [Hp _]. }
  unfold is_byte in Hb.
  assert (Hsz : 0 <= 8 + len specs <= 65535) by lia.
  destruct (put_be16_cells _ Hsz) as (s0 & s1 & -> & Es).
  unfold jpeg_frame_header.
  assert (Hcells : exists h0 h1 w0 w1, put_be16 h = [h0; h1] /\ be16 [h0; h1] = h /\ put_be16 w = [w0; w1] /\ be16 [w0; w1] = w).
  { destruct (put_be16_cells h) as (h0 & h1 & ? & ?); [lia|]. destruct (put_be16_cells w) as (w0 & w1 & ? & ?); [lia|]. eauto 10. }
  destruct Hcells as (h0 & h1 & w0 & w1 & -> & Eh & -> & Ew). cbn [app take]. reduce_reads. rewrite Es.
  split; [lia|]. split.
  2: { unfold len in *. cbn [length]. rewrite length_app. lia. }
  replace (jpeg_frame_supported m) with true
    by (symmetry; cbn [In] in Hm; repeat destruct Hm as [<-|Hm]; done). cbn [negb].
  destruct (Z.ltb_spec (8 + len specs) 8); [unfold len in *; lia|].
  rewrite Eh, Ew, (proj2 (edge_iff w ltac:(lia))), (proj2 (edge_iff h ltac:(lia))), Hs, Z.eqb_refl by (unfold edge, TNY_IMAGE_DIMENSION_MAX; lia).
  destruct (Z.eqb_spec components 0); [lia|].
  destruct Hprec as [->|[-> Hm']]; [done|]. by destruct (Z.eqb_spec m 192).
Qed.

(** Everything up to the frame header. *)
Lemma jpeg_loop_item item f r :
  jpeg_item item -> jpeg_loop (S f) (item ++ 255 :: r) = jpeg_loop f (255 :: r).
Proof.
  intros [|m Hm|m body Hm Hl]; cbn [app jpeg_loop]; unfold len; cbn [length].
  - destruct (Z.ltb_spec 1 (Z.of_nat (S (S (length r))))); [|lia]. by reduce_reads.
  - destruct (Z.ltb_spec 1 (Z.of_nat (S (S (S (length r)))))); [|lia]. reduce_reads. rewrite Z.eqb_refl. cbn [negb].
    destruct (Z.eqb_spec m 255); [lia|]. replace (jpeg_standalone m) with true by (unfold jpeg_standalone; lia). done.
  - unfold len in Hl. destruct (put_be16_cells (Z.of_nat (length body) + 2)) as (b0 & b1 & -> & Eb); [lia|].
    cbn [app length]. rewrite length_app. cbn [length].
    destruct (Z.ltb_spec 1 (Z.of_nat (S (S (S (S (length body + S (length r)))))))); [|lia].
    reduce_reads. rewrite length_app. cbn [length]. rewrite Z.eqb_refl. cbn [negb]. destruct (Z.eqb_spec m 255); [lia|].
    replace (jpeg_standalone m) with false by (unfold jpeg_standalone; lia).
    replace (jpeg_stop m) with false by (unfold jpeg_stop; lia).
    replace (jpeg_frame m) with false by (unfold jpeg_frame; lia).
    destruct (Z.ltb_spec (Z.of_nat (S (S (length body + S (length r))))) 2); [lia|].
    rewrite Eb. destruct (Z.ltb_spec (Z.of_nat (length body) + 2) 2); [lia|].
    destruct (Z.ltb_spec (Z.of_nat (S (S (length body + S (length r))))) (Z.of_nat (length body) + 2)); [lia|]. cbn [orb].
    unfold from. replace (Z.to_nat (Z.of_nat (length body) + 2)) with (S (S (length body))) by lia. cbn [drop].
    by rewrite drop_app_exact.
Qed.

Lemma jpeg_loop_items items f r :
  Forall jpeg_item items -> (length items < f)%nat ->
  exists f', jpeg_loop f (concat items ++ 255 :: r) = jpeg_loop (S f') (255 :: r).
Proof.
  intros H. revert f. induction H as [|item items Hi Hs IH]; intros f Hf; cbn [length concat app] in *.
  - exists (f - 1)%nat. f_equal. lia.
  - destruct f as [|f]; [lia|]. rewrite <- app_assoc.
    assert (exists r', concat items ++ 255 :: r = 255 :: r') as [r' E].
    { destruct Hs as [|? ? []]; eexists; reflexivity. }
    rewrite E, jpeg_loop_item, <- E by done. apply IH. lia.
Qed.

Lemma jpeg_loop_frame f m w h p :
  Forall is_byte p -> frame_at m w h p -> jpeg_loop (S f) (255 :: m :: p) = dim_ok w h.
Proof.
  intros Hp Hfr. destruct (jpeg_frame_complete m w h p Hp Hfr) as (H2 & E & Hl). cbn [jpeg_loop]. unfold len in *. cbn [length].
  destruct (Z.ltb_spec 1 (Z.of_nat (S (S (length p))))); [|lia]. reduce_reads. rewrite Z.eqb_refl. cbn [negb].
  assert (m <> 255 /\ jpeg_standalone m = false /\ jpeg_stop m = false /\ jpeg_frame m = true) as (Hm & -> & -> & ->).
  { destruct Hfr as (? & ? & ? & ? & _ & Hm & _). cbn [In] in Hm. by repeat destruct Hm as [<-|Hm]. }
  destruct (Z.eqb_spec m 255); [done|]. destruct (Z.ltb_spec (Z.of_nat (length p)) 2); [lia|].
  change (match length p with S (S _) => true | _ => false end) with (2 <=? length p)%nat.
  destruct (Nat.leb_spec 2 (length p)); [|lia]. cbn [fmap option_fmap option_map mbind option_bind].
  destruct (Z.ltb_spec (be16 (take 2 p)) 2); [lia|]. destruct (Z.ltb_spec (Z.of_nat (length p)) (be16 (take 2 p))); [lia|]. done.
Qed.

(** The whole loop: nothing is read outside, and a size is only reported for
    items followed by a frame header. *)
Lemma jpeg_loop_outcome f p :
  Forall is_byte p -> (length p < f)%nat ->
  outcome (fun w h => exists items m q, p = concat items ++ 255 :: m :: q /\ Forall jpeg_item items /\ frame_at m w h q)
    (jpeg_loop f p).
Proof.
  revert p. induction f as [|f IH]; intros p Hp Hf; [lia|]. cbn [jpeg_loop]. unfold len.
  destruct (Z.ltb_spec 1 (Z.of_nat (length p))) as [H2|]; cbn [negb]; [|done].
  destruct p as [|x [|m p]]; [cbn [length] in H2; lia..|]. clear H2. reduce_reads.
  destruct (Z.eqb_spec x 255) as [->|]; cbn [negb]; [|done].
  apply list.Forall_cons in Hp as [_ Hp]. pose proof Hp as Hp'. apply list.Forall_cons in Hp' as [Hm Hp'].
  (* one item before whatever follows *)
  assert (Hcons : forall item q, jpeg_item item -> 255 :: m :: p = item ++ q ->
    forall res, outcome (fun w h => exists items m q', q = concat items ++ 255 :: m :: q' /\ Forall jpeg_item items /\ frame_at m w h q') res ->
      outcome (fun w h => exists items m0 q', 255 :: m :: p = concat items ++ 255 :: m0 :: q' /\ Forall jpeg_item items /\ frame_at m0 w h q') res).
  { intros item q Hi E [[[[] w] h]|]; try done. intros (items & m0 & q' & -> & Hs & Hfr). exists (item :: items), m0, q'.
    cbn [concat]. rewrite <- app_assoc. split; [done|]. split; [by apply list.Forall_cons_2|done]. }
  destruct (Z.eqb_spec m 255) as [->|Hm255].
  { apply (Hcons [255] (255 :: p)); [constructor|done|]. apply IH; [done|]. cbn [length] in *. lia. }
  cbn [length] in Hf. cbn [drop].
  destruct (jpeg_marker_cases m Hm Hm255) as [(-> & Hc)|[(-> & ->)|[(-> & -> & ->)|(-> & -> & -> & Hc)]]]; [|done|..].
  - apply (Hcons [255; m] p); [by constructor|done|]. apply IH; [done|lia].
  - destruct (Z.ltb_spec (Z.of_nat (length p)) 2); [done|].
    change (match length p with S (S _) => true | _ => false end) with (2 <=? length p)%nat.
    destruct (Nat.leb_spec 2 (length p)); [|lia].
    cbn [fmap option_fmap option_map mbind option_bind]. destruct (_ || _) eqn:E; [done|]. boolify.
    destruct (jpeg_frame_header m (be16 (take 2 p)) p) as [[[[] w] h]|] eqn:Er.
    all: pose proof (jpeg_frame_outcome m p Hp' ltac:(lia) ltac:(unfold len; lia)) as Ho; rewrite Er in Ho; try done.
    by exists [], m, p.
  - destruct (Z.ltb_spec (Z.of_nat (length p)) 2); [done|].
    change (match length p with S (S _) => true | _ => false end) with (2 <=? length p)%nat.
    destruct (Nat.leb_spec 2 (length p)); [|lia].
    cbn [fmap option_fmap option_map mbind option_bind]. destruct (_ || _) eqn:E; [done|]. boolify.
    repeat match goal with E : (_ <? _) = false |- _ => apply Z.ltb_ge in E end.
    destruct p as [|b0 [|b1 p]]; [cbn [length] in *; lia..|]. cbn [take] in *. rewrite take_0 in *. cbn [length] in *.
    rewrite !list.Forall_cons in Hp'. destruct Hp' as (Hb0 & Hb1 & Hp'). destruct (put_be16_be16 b0 b1) as [Eb Nb]; [done..|].
    unfold from. replace (Z.to_nat (be16 [b0; b1])) with (S (S (Z.to_nat (be16 [b0; b1] - 2)))) by lia. cbn [drop].
    set (k := Z.to_nat (be16 [b0; b1] - 2)).
    assert (len (take k p) + 2 = be16 [b0; b1]) as El.
    { unfold len. rewrite length_take, Nat.min_l by (unfold k; lia). unfold k. lia. }
    apply (Hcons ([255; m] ++ put_be16 (len (take k p) + 2) ++ take k p) (drop k p)).
    + constructor; [done|]. lia.
    + rewrite El, Eb. cbn [app]. by rewrite take_drop.
    + apply IH; [by apply Forall_drop|]. rewrite length_drop. lia.
Qed.

(** *** WebP *)

Lemma webp_edges_outcome w h : 0 <= w -> 0 <= h ->
  outcome (fun w' h' => w' = w /\ h' = h /\ edge w /\ edge h) (webp_edges w h).
Proof.
  intros Hw Hh. unfold webp_edges. destruct (edge_ok w) eqn:Ew; [|done]. destruct (edge_ok h) eqn:Eh; [|done].
  apply edge_iff in Ew, Eh; try done.
Qed.

Lemma webp_edges_ok w h : edge w -> edge h -> webp_edges w h = dim_ok w h.
Proof.
  intros Hw Hh. pose proof Hw as [Hw' _]. pose proof Hh as [Hh' _]. unfold webp_edges.
  by rewrite (proj2 (edge_iff w ltac:(lia)) Hw), (proj2 (edge_iff h ltac:(lia)) Hh).
Qed.

Lemma outcome_mono (P Q : Z -> Z -> Prop) r : (forall w h, P w h -> Q w h) -> outcome P r -> outcome Q r.
Proof. intros H. destruct r as [[[[] w] h]|]; cbn; auto. Qed.

(** Takes a cell off [b], whose length [H] bounds from below. *)
Ltac cell b H := destruct b as [|? b]; [cbn [length] in H; lia|].

Lemma vp8_outcome b r : Forall is_byte b ->
  outcome (fun w h => vp8_body w h b) (webp_vp8 (b ++ r) (len b)).
Proof.
  intros Hb. unfold webp_vp8. destruct (Z.ltb_spec (len b) 10) as [|Hl]; [done|]. unfold len in Hl.
  do 10 (cell b Hl). cbn [app]. reduce_reads. rewrite !list.Forall_cons in Hb. destruct_and! Hb.
  destruct (_ || _) eqn:E; [done|]. boolify.
  repeat match goal with E : (_ =? _) = true |- _ => apply Z.eqb_eq in E end. subst.
  rewrite land_1, le24_value in * by by repeat apply list.Forall_cons_2. rewrite !land_3fff. cbn [char_at nth] in *.
  destruct (proj1 (le16_iff z5 z6 _ ltac:(by repeat apply list.Forall_cons_2)) eq_refl) as [E1 R1].
  destruct (proj1 (le16_iff z7 z8 _ ltac:(by repeat apply list.Forall_cons_2)) eq_refl) as [E2 R2].
  eapply outcome_mono; [|apply webp_edges_outcome; lia]. intros w h (-> & -> & Hw & Hh). unfold edge in *.
  exists z, z0, z1, (le16 [z5; z6] / 16384), (le16 [z7; z8] / 16384), b.
  replace (le16 [z5; z6] / 16384 * 16384 + le16 [z5; z6] mod 16384) with (le16 [z5; z6]) by lia.
  replace (le16 [z7; z8] / 16384 * 16384 + le16 [z7; z8] mod 16384) with (le16 [z7; z8]) by lia.
  rewrite <- E1, <- E2. split; [done|]. split_and!; lia.
Qed.

Lemma vp8_complete w h b r : Forall is_byte b -> vp8_body w h b -> webp_vp8 (b ++ r) (len b) = dim_ok w h.
Proof.
  intros Hb (t0 & t1 & t2 & sw & sh & q & -> & Ht & Hsw & Hsh & Hw & Hh). unfold webp_vp8.
  match goal with |- context [Z.ltb ?n ?m] => destruct (Z.ltb_spec n m) as [Hl|_] end.
  { unfold len in Hl. cbn [app put_le length] in Hl. lia. }
  assert (Hle : forall x, 0 <= x <= 65535 -> exists a c, put_le 2 x = [a; c] /\ le16 [a; c] = x).
  { intros x Hx. eexists _, _. split; [reflexivity|]. apply (le16_put16 x []). done. }
  destruct (Hle (sw * 16384 + w)) as (a0 & a1 & -> & E1); [lia|].
  destruct (Hle (sh * 16384 + h)) as (c0 & c1 & -> & E2); [lia|].
  cbn [app] in *. reduce_reads. rewrite !list.Forall_cons in Hb. destruct_and! Hb.
  rewrite land_1, le24_value, E1, E2, !land_3fff by by repeat apply list.Forall_cons_2. cbn [char_at nth].
  destruct (Z.eqb_spec ((t0 + t1 * 256 + t2 * 65536) mod 2) 0) as [_|E]; [|lia]. cbn [negb orb].
  replace ((sw * 16384 + w) mod 16384) with w by lia. replace ((sh * 16384 + h) mod 16384) with h by lia.
  apply webp_edges_ok; unfold edge, TNY_IMAGE_DIMENSION_MAX; lia.
Qed.

Lemma vp8l_outcome b r : Forall is_byte b ->
  outcome (fun w h => vp8l_body w h b) (webp_vp8l (b ++ r) (len b)).
Proof.
  intros Hb. unfold webp_vp8l. destruct (Z.ltb_spec (len b) 5) as [|Hl]; [done|]. unfold len in Hl.
  do 5 (cell b Hl). cbn [app]. reduce_reads. rewrite !list.Forall_cons in Hb. destruct_and! Hb.
  destruct (Z.eqb_spec z 47) as [->|]; cbn [negb]; [|done].
  destruct (proj1 (le32_iff z0 z1 z2 z3 _ ltac:(by repeat apply list.Forall_cons_2)) eq_refl) as [E R].
  rewrite !Z.shiftr_div_pow2, !land_3fff by lia. change (2 ^ 29) with 536870912. change (2 ^ 14) with 16384.
  destruct (Z.eqb_spec (le32 [z0; z1; z2; z3] / 536870912) 0); cbn [negb]; [|done].
  eapply outcome_mono; [|apply webp_edges_outcome; lia]. intros w h (-> & -> & Hw & Hh).
  exists (le32 [z0; z1; z2; z3] / 268435456), b. generalize dependent (le32 [z0; z1; z2; z3]). intros x E R Hx Hw Hh.
  replace (x / 268435456 * 268435456 + _ + _) with x by lia. rewrite <- E. split; [done|]. lia.
Qed.

Lemma vp8l_complete w h b r : Forall is_byte b -> vp8l_body w h b -> webp_vp8l (b ++ r) (len b) = dim_ok w h.
Proof.
  intros Hb (alpha & q & -> & Ha & Hw & Hh). unfold webp_vp8l.
  match goal with |- context [Z.ltb ?n ?m] => destruct (Z.ltb_spec n m) as [Hl|_] end.
  { unfold len in Hl. cbn [app put32 put_le length] in Hl. lia. }
  set (x := alpha * 268435456 + (h - 1) * 16384 + (w - 1)).
  assert (0 <= x <= UINT32_MAX) as Hx by (unfold x, UINT32_MAX; lia).
  pose proof (le32_put32 x [] Hx) as E. destruct (put32 x) as [|a0 [|a1 [|a2 [|a3 [|]]]]] eqn:Ep; try discriminate Ep.
  cbn [app] in *. reduce_reads. cbn [negb]. rewrite Z.eqb_refl. cbn [negb]. rewrite E.
  rewrite !Z.shiftr_div_pow2, !land_3fff by lia. change (2 ^ 29) with 536870912. change (2 ^ 14) with 16384.
  destruct (Z.eqb_spec (x / 536870912) 0) as [_|E']; [|unfold x in E'; lia]. cbn [negb].
  replace (x mod 16384 + 1) with w by (unfold x; lia). replace (x / 16384 mod 16384 + 1) with h by (unfold x; lia).
  apply webp_edges_ok; unfold edge, TNY_IMAGE_DIMENSION_MAX; lia.
Qed.

Lemma vp8x_outcome b r : Forall is_byte b ->
  outcome (fun w h => vp8x_body w h b) (webp_vp8x (b ++ r) (len b)).
Proof.
  intros Hb. unfold webp_vp8x. destruct (Z.eqb_spec (len b) 10) as [Hl|]; cbn [negb]; [|done]. unfold len in Hl.
  do 10 (cell b Hl). destruct b as [|? b]; [|cbn [length] in Hl; lia]. clear Hl. cbn [app]. reduce_reads.
  rewrite !list.Forall_cons in Hb. destruct_and! Hb.
  destruct (proj1 (le24_iff z3 z4 z5 _ ltac:(by repeat apply list.Forall_cons_2)) eq_refl) as [E1 R1].
  destruct (proj1 (le24_iff z6 z7 z8 _ ltac:(by repeat apply list.Forall_cons_2)) eq_refl) as [E2 R2].
  destruct (Z.ltb_spec UINT32_MAX ((le24 [z3; z4; z5] + 1) * (le24 [z6; z7; z8] + 1))); [done|].
  eapply outcome_mono; [|apply webp_edges_outcome; lia]. intros w h (-> & -> & Hw & Hh).
  exists [z; z0; z1; z2]. rewrite !Z.add_simpl_r, <- E1, <- E2. by split_and!.
Qed.

Lemma vp8x_complete w h b r : Forall is_byte b -> vp8x_body w h b -> webp_vp8x (b ++ r) (len b) = dim_ok w h.
Proof.
  intros Hb (flags & -> & Hf & Hm & Hw & Hh). destruct flags as [|f0 [|f1 [|f2 [|f3 [|]]]]]; try discriminate Hf.
  assert (Hle : forall x, 0 <= x <= 16777215 -> exists a c e, put_le 3 x = [a; c; e] /\ le24 [a; c; e] = x).
  { intros x Hx. assert (Forall is_byte (put_le 3 x)) as Hbx by apply put_le_byte. cbn [put_le] in Hbx.
    eexists _, _, _. split; [reflexivity|]. by apply le24_iff. }
  pose proof Hw as Hw'. pose proof Hh as Hh'. unfold edge, TNY_IMAGE_DIMENSION_MAX in Hw', Hh'.
  destruct (Hle (w - 1)) as (a0 & a1 & a2 & -> & E1); [lia|]. destruct (Hle (h - 1)) as (c0 & c1 & c2 & -> & E2); [lia|].
  cbn [app]. unfold webp_vp8x, len. cbn [length]. cbn [app]. reduce_reads. rewrite E1, E2, !Z.sub_add.
  change (Z.of_nat 10 =? 10) with true. cbn [negb]. destruct (Z.ltb_spec UINT32_MAX (w * h)); [lia|]. by apply webp_edges_ok.
Qed.

Lemma read_le32_from p : 8 <= len p -> read_le32 p 4 = Some (le32 (from p 4)).
Proof.
  intros H. unfold len in H. unfold read_le32, read, from. destruct (Nat.leb_spec (4 + 4) (length p)); [|lia].
  cbn [fmap option_fmap option_map]. f_equal. change (Z.to_nat 4) with 4%nat.
  rewrite <- (take_drop 4 (drop 4 p)) at 2. rewrite le32_app; [done|]. rewrite length_take, length_drop. lia.
Qed.

Lemma read_tag_app t s r : length s = length t -> read_tag t (s ++ r) 0 = Some (str_eq s t).
Proof.
  intros H. unfold read_tag, read. rewrite length_app, drop_0, <- H, take_app_exact.
  by destruct (Nat.leb_spec (0 + length s) (length s + length r)); [|lia].
Qed.

(** The result of the first chunk, or of the rest. *)
Definition webp_round (f : nat) (c : chunk) (r : bytes) (left : Z) : option dims :=
  if existsb (fun b => negb (b =? 0)) (pad c) then unverifiable
  else if str_eq (tag c) B"VP8 " then webp_vp8 (body c ++ pad c ++ r) (len (body c))
  else if str_eq (tag c) B"VP8L" then webp_vp8l (body c ++ pad c ++ r) (len (body c))
  else if str_eq (tag c) B"VP8X" then webp_vp8x (body c ++ pad c ++ r) (len (body c))
  else webp_loop f r (left - len (encode c)).

Lemma webp_loop_chunk f c r left :
  chunk_ok c -> len (encode c) <= left -> webp_loop (S f) (encode c ++ r) left = webp_round f c r left.
Proof.
  intros Hc Hleft. pose proof (encode_length c Hc) as Hl. destruct Hc as (Ht & Hb & Hp). rewrite parity in Hl.
  assert (0 <= len (body c)) by (unfold len; lia). cbn [webp_loop]. destruct (Z.leb_spec 8 left); [|lia]. cbn [negb].
  assert (Ea : encode c ++ r = tag c ++ put32 (len (body c)) ++ body c ++ pad c ++ r)
    by (unfold encode; by rewrite <- !app_assoc).
  assert (read_le32 (encode c ++ r) 4 = Some (len (body c))) as ->.
  { rewrite read_le32_from by (rewrite len_app; unfold len in *; lia). f_equal. rewrite Ea.
    change 4 with (Z.of_nat 4). rewrite <- Ht. rewrite from_all. apply le32_put32. done. }
  assert (drop 8 (encode c ++ r) = body c ++ pad c ++ r) as ->.
  { rewrite Ea, app_assoc. apply drop_app_length'. rewrite length_app, Ht. done. }
  cbn [mbind option_bind]. destruct (Z.ltb_spec (left - 8) (len (body c))); [lia|]. rewrite parity.
  assert ((if len (body c) mod 2 =? 0 then Some false
           else if len (body c) =? left - 8 then Some true
           else b ← read8 (body c ++ pad c ++ r) (Z.to_nat (len (body c))); Some (negb (b =? 0))) =
          Some (existsb (fun b => negb (b =? 0)) (pad c))) as ->.
  { unfold len in Hp. destruct (Z.eqb_spec (len (body c) mod 2) 0) as [E|E].
    - destruct (pad c); [done|]. unfold len in E. cbn [length] in Hp. lia.
    - destruct (Z.eqb_spec (len (body c)) (left - 8)); [lia|]. unfold read8, len. rewrite Nat2Z.id.
      rewrite lookup_app_r, Nat.sub_diag by done. unfold len in E. destruct (pad c) as [|b [|]]; cbn [length] in Hp; try lia.
      cbn. by rewrite orb_false_r. }
  cbn [mbind option_bind]. unfold webp_round. destruct (existsb _ _); [done|].
  rewrite Ea, !read_tag_app by done. cbn [mbind option_bind].
  repeat (match goal with |- context [if str_eq ?a ?b then _ else _] => destruct (str_eq a b) end; [done|]).
  rewrite <- Hl, <- Ea, from_all. done.
Qed.

(** What precedes the picture, the picture, and the rest of the RIFF payload. *)
Definition webp_contents (w h : Z) (p : bytes) (left : Z) : Prop :=
  exists cs c rest tail,
    p = concat (map encode cs) ++ encode c ++ rest ++ tail /\
    len (concat (map encode cs) ++ encode c ++ rest) = left /\
    Forall webp_chunk (cs ++ [c]) /\ Forall no_picture cs /\ picture w h c.

Lemma webp_chunk_pad c : chunk_ok c -> webp_chunk c <-> existsb (fun b => negb (b =? 0)) (pad c) = false.
Proof.
  intros Hc. unfold webp_chunk. rewrite <- not_true_iff_false, existsb_exists, Forall_forall. split.
  - intros [_ H] (b & Hb & E). apply H in Hb. by subst.
  - intros H. split; [done|]. intros b Hb. destruct (Z.eqb_spec b 0) as [|E]; [done|]. exfalso. apply H. exists b.
    split; [done|]. by destruct (Z.eqb_spec b 0).
Qed.

Lemma webp_loop_outcome f p left :
  Forall is_byte p -> 0 <= left <= len p -> (Z.to_nat left < f)%nat ->
  outcome (fun w h => webp_contents w h p left) (webp_loop f p left).
Proof.
  revert p left. induction f as [|f IH]; intros p left Hp Hleft Hf; [lia|].
  destruct (Z.leb_spec 8 left) as [H8|H8].
  2: { cbn [webp_loop]. destruct (Z.leb_spec 8 left); [lia|]. cbn [negb]. by destruct (left =? 0). }
  assert (le32 (from p 4) + le32 (from p 4) mod 2 <= left - 8 \/ webp_loop (S f) p left = unverifiable) as [Hs| ->]; [| |done].
  { cbn [webp_loop]. destruct (Z.leb_spec 8 left); [|lia]. cbn [negb]. rewrite read_le32_from by lia. cbn [mbind option_bind].
    destruct (Z.ltb_spec (left - 8) (le32 (from p 4))); [by right|]. rewrite parity.
    destruct (Z.eqb_spec (le32 (from p 4) mod 2) 0); [left; lia|].
    destruct (Z.eqb_spec (le32 (from p 4)) (left - 8)); [by right|left; lia]. }
  destruct (chunk_split p Hp ltac:(lia) ltac:(lia)) as (c & Hc & Ep & El & Et).
  pose proof (encode_length c Hc) as Hlen. rewrite parity in Hlen.
  set (r := from p _) in Ep. rewrite Ep. rewrite webp_loop_chunk by (done || lia). unfold webp_round.
  destruct (existsb _ (pad c)) eqn:Epad; [done|]. apply (webp_chunk_pad c Hc) in Epad.
  assert (Forall is_byte (body c) /\ Forall is_byte r) as [Hb Hr].
  { rewrite Ep in Hp. apply Forall_app in Hp as [Hp ?]. split; [|done]. unfold encode in Hp.
    apply Forall_app in Hp as [_ Hp]. apply Forall_app in Hp as [_ Hp]. by apply Forall_app in Hp as [? _]. }
  assert (Hlr : left - len (encode c) <= len r).
  { rewrite Ep, len_app in Hleft. lia. }
  (* a picture in this chunk *)
  assert (Hfirst : forall w h, picture w h c -> webp_contents w h (encode c ++ r) left).
  { intros w h Hpic. exists [], c, (take (Z.to_nat (left - len (encode c))) r), (drop (Z.to_nat (left - len (encode c))) r).
    cbn [map concat app]. rewrite take_drop. split; [done|]. split; [|split; [by constructor|by split]].
    rewrite len_app. unfold len at 2. rewrite length_take. unfold len in *. lia. }
  destruct (str_eq (tag c) B"VP8 ") eqn:E1.
  { apply str_eq_true in E1. eapply outcome_mono; [|by apply vp8_outcome]. intros w h ?. apply Hfirst. by left. }
  destruct (str_eq (tag c) B"VP8L") eqn:E2.
  { apply str_eq_true in E2. eapply outcome_mono; [|by apply vp8l_outcome]. intros w h ?. apply Hfirst. by right; left. }
  destruct (str_eq (tag c) B"VP8X") eqn:E3.
  { apply str_eq_true in E3. eapply outcome_mono; [|by apply vp8x_outcome]. intros w h ?. apply Hfirst. by right; right. }
  apply str_eq_false in E1, E2, E3.
  eapply outcome_mono; [|apply IH; [done|unfold len in *; lia..]].
  intros w h (cs & c' & rest & tail & -> & El' & Hcs & Hno & Hpic). exists (c :: cs), c', rest, tail.
  cbn [map concat app]. rewrite <- !app_assoc. split; [done|]. split; [rewrite len_app; lia|].
  split; [by constructor|]. split; [by constructor|done].
Qed.

Lemma webp_loop_complete f w h p left :
  Forall is_byte p -> webp_contents w h p left -> (Z.to_nat left < f)%nat -> webp_loop f p left = dim_ok w h.
Proof.
  intros Hp (cs & c & rest & tail & -> & <- & Hcs & Hno & Hpic). revert f Hp.
  induction cs as [|c' cs IH]; intros f Hp Hf; destruct f as [|f]; [lia| |lia|]; cbn [map concat app] in *.
  - apply list.Forall_cons in Hcs as [[Hc Hpad] _]. rewrite webp_loop_chunk by (try done; rewrite len_app; unfold len; lia).
    unfold webp_round. rewrite (proj1 (webp_chunk_pad c Hc)) by by split.
    assert (Forall is_byte (body c)) as Hb.
    { unfold encode in Hp. rewrite <- !app_assoc in Hp. do 2 apply Forall_app in Hp as [_ Hp]. by apply Forall_app in Hp as [? _]. }
    destruct Hpic as [[-> H]|[[-> H]|[-> H]]]; cbn [str_eq].
    + by apply vp8_complete.
    + by apply vp8l_complete.
    + by apply vp8x_complete.
  - apply list.Forall_cons in Hcs as [[Hc Hpad] Hcs]. apply list.Forall_cons in Hno as [(H1 & H2 & H3) Hno].
    rewrite <- !app_assoc in *. rewrite len_app in Hf |- *. pose proof (encode_length c' Hc) as Hl. rewrite parity in Hl.
    rewrite webp_loop_chunk by (try done; unfold len; lia).
    unfold webp_round. rewrite (proj1 (webp_chunk_pad c' Hc)) by by split.
    rewrite !(proj2 (str_eq_false _ _)) by done. rewrite Z.add_simpl_l. apply IH; try done.
    + by apply Forall_app in Hp as [_ Hp].
    + unfold len in *. lia.
Qed.

Lemma webp_dimensions_outcome d : Forall is_byte d -> 12 <= len d ->
  has_prefix B"RIFF" d = true -> has_prefix B"WEBP" (drop 8 d) = true ->
  outcome (fun w h => webp_header w h d) (webp_dimensions d).
Proof.
  intros Hd Hl [r1 ->]%has_prefix_true [r Er]%has_prefix_true. cbn [app drop] in Er.
  assert (Forall is_byte r1) as Hr1 by by apply Forall_app in Hd as [_ ?].
  unfold len in Hl. cbn [app length] in Hl. do 4 (cell r1 Hl). cbn [drop] in Er. rewrite drop_0 in Er. subst r1.
  unfold webp_dimensions, len. cbn [app length] in *.
  match goal with |- context [Z.ltb ?n ?m] => destruct (Z.ltb_spec n m); [done|] end.
  rewrite !list.Forall_cons in Hr1. destruct Hr1 as (Hz & Hz0 & Hz1 & Hz2 & _ & _ & _ & _ & Hr).
  reduce_reads. destruct (proj1 (le32_iff z z0 z1 z2 _ ltac:(by repeat apply list.Forall_cons_2)) eq_refl) as [E R].
  set (riff := le32 _) in *. destruct (_ || _) eqn:Eg; [done|]. boolify. rewrite land_1 in *.
  repeat match goal with E : (_ <? _) = false |- _ => apply Z.ltb_ge in E end.
  eapply outcome_mono; [|apply webp_loop_outcome; [done|unfold len; lia|lia]].
  intros w h (cs & c & rest & tail & -> & El & Hcs & Hno & Hpic). exists cs, c, rest, tail. cbv zeta. rewrite len_app, El.
  replace (len B"WEBP" + (8 + riff - 12)) with riff by (change (len B"WEBP") with 4; lia). rewrite <- E. cbn [app]. rewrite <- !app_assoc.
  split; [done|]. split_and!; (done || lia).
Qed.

Lemma webp_dimensions_complete w h d : Forall is_byte d -> webp_header w h d ->
  webp_dimensions d = dim_ok w h /\ 12 <= len d /\ has_prefix B"RIFF" d = true /\ has_prefix B"WEBP" (drop 8 d) = true.
Proof.
  intros Hd (cs & c & rest & tail & -> & Hmod & Hmax & H).
  set (p := concat (map encode cs) ++ encode c ++ rest) in *. set (x := len (B"WEBP" ++ p)) in *.
  assert (Hx : x = 4 + len p) by (unfold x; by rewrite len_app). assert (0 <= len p) by (unfold len; lia).
  pose proof (le32_put32 x [] ltac:(unfold UINT32_MAX in *; lia)) as E.
  destruct (put32 x) as [|a0 [|a1 [|a2 [|a3 [|]]]]] eqn:Ep; try discriminate Ep. cbn [app] in *.
  split; [|by split_and!; try (unfold len; cbn [length]; lia)].
  unfold webp_dimensions. match goal with |- context [Z.ltb ?n ?m] => destruct (Z.ltb_spec n m) as [Hl|_] end.
  { unfold len in Hl. cbn [length] in Hl. lia. }
  reduce_reads. rewrite E, land_1. unfold UINT32_MAX in *.
  destruct (Z.ltb_spec x 4); [lia|]. destruct (Z.ltb_spec (4294967295 - 9) x); [lia|].
  destruct (Z.eqb_spec (x mod 2) 0) as [_|]; [|done].
  match goal with |- context [Z.ltb ?n ?m] => destruct (Z.ltb_spec n m) as [Hl|_] end.
  { unfold len in *. cbn [length] in *. rewrite length_app in Hl. lia. }
  cbn [negb orb]. rewrite !list.Forall_cons in Hd. destruct_and! Hd. apply webp_loop_complete; [done| |].
  - exists cs, c, rest, tail. unfold p. rewrite <- !app_assoc. split; [done|]. split; [fold p; lia|]. by destruct H as (? & ? & ?).
  - unfold len in *. cbn [length]. rewrite length_app. lia.
Qed.

Lemma jpeg_dimensions_outcome d : Forall is_byte d -> has_prefix [255; 216] d = true ->
  outcome (fun w h => jpeg_header w h d) (jpeg_dimensions d).
Proof.
  intros Hd [p ->]%has_prefix_true. apply Forall_app in Hd as [_ Hp].
  unfold jpeg_dimensions. cbn [app drop length]. rewrite drop_0.
  eapply outcome_mono; [|apply jpeg_loop_outcome; [done|lia]].
  intros w h (items & m & q & -> & Hi & precision & components & specs & rest & -> & H).
  by exists items, m, precision, components, specs, rest.
Qed.

Lemma jpeg_dimensions_complete w h d : Forall is_byte d -> jpeg_header w h d ->
  jpeg_dimensions d = dim_ok w h /\ 12 <= len d /\ has_prefix [255; 216; 255] d = true.
Proof.
  intros Hd (items & m & precision & components & specs & rest & -> & Hi & H).
  set (q := put_be16 (8 + len specs) ++ _).
  assert (frame_at m w h q) as Hfr by by exists precision, components, specs, rest.
  assert (Forall is_byte q) as Hq.
  { do 2 apply Forall_app in Hd as [_ Hd]. by apply Forall_app in Hd as [_ Hd]. }
  assert (10 <= len q) as Hlq.
  { destruct H as (_ & _ & Hc & Hs & _). unfold len, q, put_be16, put_be in *.
    repeat (rewrite length_app || rewrite length_rev || rewrite put_le_length). cbn [length]. lia. }
  split_and!.
  - unfold jpeg_dimensions. cbn [app drop length]. rewrite drop_0, length_app.
    destruct (jpeg_loop_items items (S (S (S (length (concat items) + S (S (length q)))))) (m :: q) Hi) as [f' E].
    { assert (length items <= length (concat items))%nat; [|lia]. clear -Hi. induction Hi as [|item items H Hi IH]; [done|].
      cbn [concat length]. rewrite length_app. destruct H; cbn [length app]; lia. }
    cbn [length]. rewrite E. by apply jpeg_loop_frame.
  - unfold len in *. rewrite !length_app. cbn [length]. lia.
  - by destruct Hi as [|? ? []].
Qed.

(** *** Requested sizes *)

Lemma edge_digits_spec ds q k v :
  Forall (fun c => is_digit c = true) ds -> is_digit (cur q) = false -> (k <= 7)%nat -> 0 <= v < 10 ^ Z.of_nat k ->
  edge_digits (ds ++ q) k v =
  if (k + length ds <=? 7)%nat then Some (q, digits_value ds v) else None.
Proof.
  intros H Hq. revert k v. induction H as [|c ds Hc Hds IH]; intros k v Hk Hv; cbn [app].
  - rewrite Nat.add_0_r. destruct (Nat.leb_spec k 7); [|lia]. destruct q as [|c q]; cbn [edge_digits]; [done|]. by rewrite Hq.
  - cbn [edge_digits cur hd]. rewrite Hc. apply is_digit_range in Hc. cbn [length].
    destruct (Nat.ltb_spec 7 (S k)) as [H7|H7].
    { destruct (Nat.leb_spec (k + S (length ds)) 7); [lia|done]. }
    assert (10 ^ Z.of_nat (S k) <= 10 ^ 7) as Hp by (apply Z.pow_le_mono_r; lia).
    rewrite Nat2Z.inj_succ, Z.pow_succ_r in Hp by lia. change (10 ^ 7) with 10000000 in Hp.
    rewrite (u32_small (v * 10)), u32_small by (unfold UINT32_MAX; lia).
    rewrite IH by (rewrite ?Nat2Z.inj_succ, ?Z.pow_succ_r by lia; lia).
    replace (S k + length ds)%nat with (k + S (length ds))%nat by lia. done.
Qed.

Lemma parse_edge_spec p q v :
  parse_edge p = Some (q, v) <-> p = dec v ++ q /\ edge v /\ is_digit (cur q) = false.
Proof.
  unfold parse_edge, edge, TNY_IMAGE_DIMENSION_MAX. split.
  - destruct (_ || _) eqn:Eg; [done|]. apply orb_false_iff in Eg as [E1 E2]. apply Z.ltb_ge in E1, E2.
    destruct (split_digits p) as (ds & r & -> & Hds & Hr). rewrite edge_digits_spec by (done || (cbn; lia)).
    destruct (Nat.leb_spec (0 + length ds) 7); [|done].
    destruct (edge_ok (digits_value ds 0)) eqn:Ee; [|done]. intros [= -> <-].
    assert (ds <> []) as Hne.
    { intros ->. cbn [app] in *. apply not_true_iff_false in Hr. apply Hr, is_digit_range. lia. }
    assert (cur ds <> C"0") as Hc by (destruct ds; [done|]; cbn [app cur hd] in *; lia).
    unfold dec. rewrite digits_of_value by (done || lia).
    pose proof (digits_value_pos ds Hds Hne Hc). apply edge_iff in Ee; [|lia].
    unfold edge, TNY_IMAGE_DIMENSION_MAX in Ee. split; [done|]. split; [exact Ee|exact Hr].
  - intros (-> & Hv & Hq). destruct (digits_of_spec 20 v) as (Hds & Hl & Hval & Hc & Hlen); [lia|lia|].
    fold (dec v) in *. specialize (Hlen 7%nat ltac:(lia) ltac:(lia)). specialize (Hc ltac:(lia)).
    assert (cur (dec v ++ q) = cur (dec v)) as -> by (destruct (dec v); [cbn in Hl; lia|done]).
    assert (48 <= cur (dec v) <= 57) as Hr.
    { destruct Hds; [cbn in Hl; lia|]. by apply is_digit_range. }
    destruct (Z.ltb_spec (cur (dec v)) (C"1")); [lia|]. destruct (Z.ltb_spec (C"9") (cur (dec v))); [lia|]. cbn [orb].
    rewrite edge_digits_spec by (done || (cbn; lia)). destruct (Nat.leb_spec (0 + length (dec v)) 7); [|lia].
    rewrite Hval, (proj2 (edge_iff v ltac:(lia))); [done|]. unfold edge, TNY_IMAGE_DIMENSION_MAX. lia.
Qed.

(** A literal of two edges. *)
Definition size_text (w h : Z) : bytes := dec w ++ B"x" ++ dec h.

Lemma size_parse_iff s w h : cstring s ->
  tny_image_size_parse (Some s) = Some (w, h) <-> s = size_text w h /\ edge w /\ edge h.
Proof.
  intros Hs. unfold tny_image_size_parse, size_text. split.
  - destruct (parse_edge s) as [[p w']|] eqn:Ew; [|done]. apply parse_edge_spec in Ew as (-> & Hw & _).
    destruct (Z.eqb_spec (cur p) (C"x")) as [Ex|]; cbn [negb]; [|done].
    destruct p as [|x p]; [done|]. cbn [cur hd tl] in *. subst x.
    destruct (parse_edge p) as [[q h']|] eqn:Eh; [|done]. apply parse_edge_spec in Eh as (-> & Hh & _).
    destruct (Z.eqb_spec (cur q) NUL) as [Eq|]; [|done]. intros [= -> ->].
    destruct q as [|c q]; [by rewrite app_nil_r|]. exfalso. cbn in Eq. subst c.
    apply Forall_app in Hs as [_ Hs]. apply list.Forall_cons in Hs as [_ Hs]. apply Forall_app in Hs as [_ Hs].
    apply list.Forall_cons in Hs as [Hs _]. lia.
  - intros (-> & Hw & Hh).
    rewrite (proj2 (parse_edge_spec (dec w ++ B"x" ++ dec h) (B"x" ++ dec h) w)) by by split_and!.
    cbn [app cur hd tl negb]. change (C"x" =? C"x") with true. cbn [negb].
    by rewrite (proj2 (parse_edge_spec (dec h) [] h)) by (split_and!; [by rewrite app_nil_r|done..]).
Qed.

(** ** Properties *)

(** C38: reading the dimensions of any bytes never reads outside them and always
    ends; it succeeds with a width and height exactly for the PNG, JPEG and WebP
    files whose header declares them, and otherwise reports zeros. *)
Theorem image_dimensions_iff (d : bytes) (Hd : Forall is_byte d) :
  exists status w h, tny_image_dimensions (Some d) = Some (status, w, h) /\
    (status <> TNY_IMAGE_DIM_OK -> w = 0 /\ h = 0) /\
    (forall w' h', status = TNY_IMAGE_DIM_OK /\ w = w' /\ h = h' <-> image_header w' h' d).
Proof.
  assert (Hall : outcome (fun w h => image_header w h d) (tny_image_dimensions (Some d)) /\
    forall w h, image_header w h d -> tny_image_dimensions (Some d) = dim_ok w h).
  2: { destruct Hall as [Ho Hc]. destruct (tny_image_dimensions (Some d)) as [[[st w] h]|]; [|done]. exists st, w, h.
       split; [done|]. split; [by destruct st|]. intros w' h'. split.
       - intros (-> & -> & ->). exact Ho.
       - intros H%Hc. by injection H. }
  assert (Htag : forall t i, (i + length t <= length d)%nat -> read_tag t d i = Some (has_prefix t (drop i d))).
  { intros t i Hi. unfold read_tag, read. destruct (Nat.leb_spec (i + length t) (length d)); [|lia]. cbn. f_equal.
    rewrite <- (take_drop (length t) (drop i d)) at 2. fold (tagged (take (length t) (drop i d) ++ drop (length t) (drop i d)) t).
    rewrite tagged_app by (rewrite length_take, length_drop; lia). done. }
  unfold tny_image_dimensions. destruct (Z.ltb_spec (len d) 12) as [Hl|Hl].
  { split; [done|]. intros w h [(? & ? & ? & ? & -> & _)|[H|H]]; exfalso.
    - unfold len in Hl. rewrite !length_app in Hl. cbn [length PNG_SIGNATURE put_be32 put_be rev put_le app] in Hl. lia.
    - apply jpeg_dimensions_complete in H as (_ & ? & _); [lia|done].
    - apply webp_dimensions_complete in H as (_ & ? & _); [lia|done]. }
  unfold len in Hl. rewrite !Htag by (cbn [length]; lia). rewrite drop_0. cbn [mbind option_bind].
  destruct d as [|b0 [|b1 [|b2 d]]]; [cbn [length] in Hl; lia..|]. unfold read8. cbn [lookup list_lookup mbind option_bind].
  set (all := b0 :: b1 :: b2 :: d) in *. split.
  - destruct (has_prefix _ all) eqn:Ep; [|destruct (_ && (b2 =? 255)) eqn:Ej; [|destruct (_ && has_prefix _ (drop 8 all)) eqn:Ew; [|done]]].
    + eapply outcome_mono; [|by apply png_outcome]. by left.
    + boolify. eapply outcome_mono; [|apply jpeg_dimensions_outcome; [done|]]; [by right; left|].
      by repeat match goal with E : (_ =? _) = true |- _ => apply Z.eqb_eq in E as -> end.
    + boolify. eapply outcome_mono; [|by apply webp_dimensions_outcome]. by right; right.
  - intros w h [H|[H|H]].
    + replace (has_prefix _ all) with true; [by apply png_complete|].
      destruct H as (? & ? & ? & ? & -> & _). reflexivity.
    + apply jpeg_dimensions_complete in H as (H & _ & [r E]%has_prefix_true); [|done].
      injection E as -> -> -> _. exact H.
    + apply webp_dimensions_complete in H as (H & _ & E1 & E2); [|done]. rewrite E1, E2.
      apply has_prefix_true in E1 as [r E]. injection E as -> -> -> _. exact H.
Qed.

(** A 1 by 1 greyscale PNG header. *)
Definition demo_png (crc : bytes) : bytes :=
  PNG_SIGNATURE ++ put_be32 13 ++ B"IHDR" ++ put_be32 1 ++ put_be32 1 ++ [8; 0; 0; 0; 0] ++ crc.

Example image_dimensions_iff_witness :
  tny_image_dimensions (Some (demo_png [58; 126; 155; 85])) = Some (TNY_IMAGE_DIM_OK, 1, 1) /\
  image_header 1 1 (demo_png [58; 126; 155; 85]).
Proof.
  assert (tny_image_dimensions (Some (demo_png [58; 126; 155; 85])) = Some (TNY_IMAGE_DIM_OK, 1, 1)) as E by (vm_compute; reflexivity).
  split; [exact E|].
  assert (Forall is_byte (demo_png [58; 126; 155; 85])) as Hd by (apply Forall_forall; vm_compute; intuition (subst; discriminate)).
  destruct (image_dimensions_iff _ Hd) as (st & w & h & E' & _ & H). rewrite E in E'. injection E' as <- <- <-.
  exact (proj1 (H 1 1) (conj eq_refl (conj eq_refl eq_refl))).
Defined.

(** a produced image is said to match a requested size exactly when the
    request is the literal of the very width and height its header declares, and
    never for an opaque request or unreadable dimensions. *)
Theorem image_size_match_iff (requested : option bytes) (st : tny_image_dim_status) (w h : Z)
    (Hr : forall s, requested = Some s -> cstring s) :
  tny_image_size_compare requested st w h = TNY_IMAGE_SIZE_MATCH <->
  st = TNY_IMAGE_DIM_OK /\ edge w /\ edge h /\ requested = Some (size_text w h).
Proof.
  destruct requested as [s|]; [|split; [done|by intros (_ & _ & _ & ?)]].
  assert (Hparse := fun w h => size_parse_iff s w h (Hr s eq_refl)). unfold tny_image_size_compare. split.
  - destruct (_ || _); [done|]. destruct st; try done. destruct (tny_image_size_parse (Some s)) as [[w' h']|] eqn:E; [|done].
    destruct (proj1 (Hparse w' h') eq_refl) as (-> & Hw & Hh). destruct (_ && _) eqn:Ew; [|done]. intros _. boolify.
    repeat match goal with E : (_ =? _) = true |- _ => apply Z.eqb_eq in E; subst end. done.
  - intros (-> & Hw & Hh & [= ->]).
    rewrite (proj2 (Hparse w h)) by done. rewrite !Z.eqb_refl. cbn [andb].
    destruct (digits_of_spec 20 w) as (Hds & Hl & _); [unfold edge, TNY_IMAGE_DIMENSION_MAX in *; lia|lia|].
    assert (48 <= cur (size_text w h) <= 57) as Hc.
    { unfold size_text, dec. destruct Hds; [cbn in Hl; lia|]. by apply is_digit_range. }
    destruct (Z.eqb_spec (cur (size_text w h)) NUL); [lia|]. cbn [orb].
    destruct (str_eq _ _) eqn:Ea; [|done]. apply str_eq_true in Ea. rewrite Ea in Hc. cbn in Hc. lia.
Qed.

Example image_size_match_iff_witness :
  tny_image_size_compare (Some B"1024x768") TNY_IMAGE_DIM_OK 1024 768 = TNY_IMAGE_SIZE_MATCH.
Proof.
  apply image_size_match_iff.
  - intros s [= <-]. repeat constructor; lia.
  - repeat split; unfold edge, TNY_IMAGE_DIMENSION_MAX; (lia || reflexivity).
Defined.
