(* ===== verification/Shellwords.v ===== *)
(** The word splitter of the terminal-tool intercept
    (src/src/core/shellwords.c), and its agreement with the shell and with the
    permission engine's scanner. *)
From S2P Require Import Prelude Shlex.

Open Scope Z_scope.

Definition TNY_WORDS_MAX : nat := 64.

(** [argv] with, for each word, whether it carried a quoted section; the bytes
    consumed and the character that ended the scan (0 at the end). *)
Record tny_words := mk_words { argv : list bytes; quoted : list bool; consumed : nat; stop : Z }.

(** [strchr] also finds the terminator. *)
Definition tny_shellword_meta (c : Z) : bool :=
  mem_byte c (B";|&<>()`$" ++ [LF] ++ B"*?[{}") || (c =? NUL).

Definition word_break (c : Z) : bool := (c =? C" ") || (c =? TAB).

(** After the opening quote: the word and what follows the closing one, [None]
    when unterminated or when the shell would expand inside. *)
Fixpoint scan_double (p word : bytes) : option (bytes * bytes) :=
  match p with
  | [] => None
  | c :: p1 =>
    if c =? DQUOTE then Some (word, p1)
    else
      let other := if (c =? C"$") || (c =? C"`") then None else scan_double p1 (word ++ [c]) in
      match p1 with
      | nx :: p2 =>
        if (c =? BACKSLASH) && ((nx =? BACKSLASH) || (nx =? DQUOTE) || (nx =? C"$") || (nx =? C"`"))
        then scan_double p2 (word ++ [nx])
        else other
      | [] => other
      end
  end.

Fixpoint scan_single (p word : bytes) : option (bytes * bytes) :=
  match p with
  | [] => None
  | c :: p => if c =? C"'" then Some (word, p) else scan_single p (word ++ [c])
  end.

Definition tilde_expands (p : bytes) (word_len : nat) : bool :=
  if negb (cur p =? C"~") || negb (word_len =? 0)%nat then false
  else negb (char_at p 1 =? NUL) && negb (char_at p 1 =? C"/") && negb (word_break (char_at p 1)).

Fixpoint skip_breaks (p : bytes) : bytes :=
  match p with
  | c :: t => if word_break c then skip_breaks t else p
  | [] => []
  end.

Definition word_ends (p word : bytes) : bool :=
  (cur p =? NUL) || word_break (cur p) || tny_shellword_meta (cur p) || tilde_expands p (length word).

(** The loop over one word; every round consumes a byte. *)
Fixpoint word_loop (fuel : nat) (p word : bytes) (q : bool) : option (bytes * bool * bytes) :=
  match fuel with
  | O => None
  | S fuel =>
    if word_ends p word then Some (word, q, p)
    else if cur p =? C"'" then
      match scan_single (tl p) word with None => None | Some (word, p) => word_loop fuel p word true end
    else if cur p =? DQUOTE then
      match scan_double (tl p) word with None => None | Some (word, p) => word_loop fuel p word true end
    else if cur p =? BACKSLASH then
      if char_at p 1 =? NUL then None else word_loop fuel (drop 2 p) (word ++ [char_at p 1]) true
    else word_loop fuel (tl p) (word ++ [cur p]) q
  end.

(** The loop over the words, [argc] of them so far; [mem i] is whether the
    storage of word [i] is allocated. *)
Fixpoint words_loop (fuel : nat) (mem : nat -> bool) (argc : nat) (p : bytes) :
    option (list bytes * list bool * bytes) :=
  match fuel with
  | O => None
  | S fuel =>
    let p := skip_breaks p in
    if (cur p =? NUL) || tny_shellword_meta (cur p) || tilde_expands p 0 then Some ([], [], p)
    else if (TNY_WORDS_MAX <=? argc)%nat then None
    else
      match word_loop (S (length p)) p [] false with
      | None => None
      | Some (word, q, p) =>
        if mem argc then
          match words_loop fuel mem (S argc) p with
          | None => None
          | Some (ws, qs, p) => Some (word :: ws, q :: qs, p)
          end
        else None
      end
  end.

(** [None] is the refusal, which leaves nothing allocated. *)
Definition tny_shellwords (arrays : bool) (mem : nat -> bool) (input : option bytes) : option tny_words :=
  match input with
  | None => None
  | Some input =>
    if arrays then
      match words_loop (S (length input)) mem 0 input with
      | None => None
      | Some (ws, qs, p) => Some (mk_words ws qs (length input - length p) (cur p))
      end
    else None
  end.

(** ** Lemmas *)

Lemma scan_double_dq p w w' r :
  scan_double p w = Some (w', r) -> exists q v, dq q v /\ p = q ++ DQUOTE :: r /\ w' = w ++ v.
Proof.
  remember (length p) as n eqn:Hn. revert p w Hn. induction n as [n IH] using lt_wf_ind. intros [|c p] w ->; [done|].
  cbn [scan_double]. destruct (Z.eqb_spec c DQUOTE) as [->|Hq].
  { intros [= <- <-]. exists [], []. rewrite app_nil_r. split; [constructor|done]. }
  assert (Hother : (if (c =? C"$") || (c =? C"`") then None else scan_double p (w ++ [c])) = Some (w', r) ->
    (c = BACKSLASH -> dq_escapable (cur p) = false) ->
    exists q v, dq q v /\ c :: p = q ++ DQUOTE :: r /\ w' = w ++ v).
  { destruct (_ || _) eqn:E; [done|]. intros H Hb. boolify.
    apply (IH (length p)) in H as (q & v & Hd & -> & ->); [|cbn; lia|done].
    exists (c :: q), (c :: v). rewrite <- app_assoc. split; [|done].
    destruct (Z.eqb_spec c BACKSLASH) as [->|].
    - specialize (Hb eq_refl). destruct q as [|d q]; [done|]. by constructor.
    - constructor; [|done]. unfold dq_escapable. lia. }
  destruct p as [|nx p]; [intros H; apply Hother; [done|by intros _]|].
  destruct (_ && _) eqn:E.
  - intros H. apply andb_true_iff in E as [E1 E2]. apply Z.eqb_eq in E1. subst c.
    apply (IH (length p)) in H as (q & v & Hd & -> & ->); [|cbn; lia|done].
    exists (BACKSLASH :: nx :: q), (nx :: v). rewrite <- app_assoc. split; [|done]. constructor; [|done].
    unfold dq_escapable. lia.
  - intros H. apply Hother; [done|]. intros ->. change (cur (nx :: p)) with nx.
    unfold dq_escapable. rewrite Z.eqb_refl in E. cbn [andb] in E. lia.
Qed.

Lemma double_section_complete q v r w : dq q v -> scan_double (q ++ DQUOTE :: r) w = Some (w ++ v, r).
Proof.
  intros H. revert w. induction H as [|c q v Hc H IH|c q v Hc H IH|c q v Hc H IH]; intros w.
  - by rewrite app_nil_r.
  - cbn [app]. change (scan_double (BACKSLASH :: c :: q ++ DQUOTE :: r) w) with
      (if (c =? BACKSLASH) || (c =? DQUOTE) || (c =? C"$") || (c =? C"`") then scan_double (q ++ DQUOTE :: r) (w ++ [c])
       else scan_double (c :: q ++ DQUOTE :: r) (w ++ [BACKSLASH])).
    replace (_ || (c =? C"`")) with true by (unfold dq_escapable in Hc; lia). by rewrite IH, <- app_assoc.
  - cbn [app]. change (scan_double (BACKSLASH :: c :: q ++ DQUOTE :: r) w) with
      (if (c =? BACKSLASH) || (c =? DQUOTE) || (c =? C"$") || (c =? C"`") then scan_double (q ++ DQUOTE :: r) (w ++ [c])
       else scan_double ((c :: q) ++ DQUOTE :: r) (w ++ [BACKSLASH])).
    replace (_ || (c =? C"`")) with false by (unfold dq_escapable in Hc; lia). by rewrite IH, <- app_assoc.
  - cbn [app scan_double]. unfold dq_escapable in Hc. boolify. rewrite H0, H2, H1, H3. cbn [orb andb].
    rewrite IH, <- app_assoc. by destruct (q ++ DQUOTE :: r).
Qed.

Lemma scan_single_spec p w w' r :
  scan_single p w = Some (w', r) <-> exists q, ~ In C"'" q /\ p = q ++ C"'" :: r /\ w' = w ++ q.
Proof.
  revert w. induction p as [|c p IH]; intros w; cbn [scan_single].
  { split; [done|]. by intros ([] & _ & ? & _). }
  destruct (Z.eqb_spec c C"'") as [->|Hc].
  - split.
    + intros [= <- <-]. exists []. rewrite app_nil_r. split; [by intros []|done].
    + intros ([|d q] & Hq & E & ->); [rewrite app_nil_r; by injection E as ->|].
      injection E as <- _. exfalso. apply Hq. by left.
  - rewrite IH. split.
    + intros (q & Hq & -> & ->). exists (c :: q). rewrite <- app_assoc. split; [|done]. by intros [|].
    + intros ([|d q] & Hq & E & ->); [by injection E|]. injection E as <- ->. exists q. rewrite <- app_assoc.
      split; [|done]. intros ?. apply Hq. by right.
Qed.

(** Characters that neither scanner treats specially in the middle of a word. *)
Lemma word_char_plain c : c <> NUL -> word_break c = false -> tny_shellword_meta c = false -> c <> CR ->
  ~ blank c /\ meta_char c true = false.
Proof.
  intros H0 Hb Hm Hcr. split; [unfold word_break, blank in *; lia|].
  unfold tny_shellword_meta, meta_char, mem_byte in *. cbn [existsb app] in Hm |- *. lia.
Qed.

Lemma word_start_plain c : c <> NUL -> word_break c = false -> tny_shellword_meta c = false -> c <> CR -> c <> C"#" ->
  ~ blank c /\ meta_char c false = false.
Proof.
  intros H0 Hb Hm Hcr Hh. split; [unfold word_break, blank in *; lia|].
  unfold tny_shellword_meta, meta_char, mem_byte in *. cbn [existsb app] in Hm |- *. lia.
Qed.

(** The bytes that the two scanners, and the shell, may read differently. *)
Definition ordinary (s : bytes) : Prop := one_line s /\ Forall (fun c => c <> CR /\ c <> C"#") s.

Lemma ordinary_app a b : ordinary (a ++ b) -> ordinary a /\ ordinary b.
Proof. intros [[H1 H2]%one_line_app [H3 H4]%Forall_app]. done. Qed.

(** One word: what precedes its end, in the scanner's grammar. *)
Lemma word_loop_sound fuel p w q w' q' r cw :
  cstring p -> default [] cw = w -> (cw = None -> word_ends p [] = false) ->
  word_loop fuel p w q = Some (w', q', r) ->
  exists pre, p = pre ++ r /\ word_ends r w' = true /\
    forall s ws, ordinary pre -> lex (Some w') s ws -> lex cw (pre ++ s) ws.
Proof.
  revert p w q cw. induction fuel as [|fuel IH]; intros p w q cw Hp Hw Hstart; [done|]. cbn [word_loop].
  destruct (word_ends p w) eqn:Ee.
  { intros [= <- <- <-]. exists []. split; [done|]. split; [done|]. intros s ws _ H. destruct cw as [w0|]; cbn in Hw; subst; [done|].
    by rewrite Hstart in Ee. }
  destruct p as [|c p]; [done|]. cbn [cur hd tl] in *. clear Hstart. apply list.Forall_cons in Hp as [Hc Hp].
  unfold word_ends in Ee. cbn [cur hd] in Ee. boolify.
  assert (c <> NUL) as Hnul by lia.
  (* a piece [pre1] of value [v] extends the word *)
  assert (Hstep : forall pre1 v p1 q1, c :: p = pre1 ++ p1 -> cstring p1 ->
    (forall s ws, ordinary pre1 -> lex (Some (w ++ v)) s ws -> lex cw (pre1 ++ s) ws) ->
    word_loop fuel p1 (w ++ v) q1 = Some (w', q', r) ->
    exists pre, c :: p = pre ++ r /\ word_ends r w' = true /\
      forall s ws, ordinary pre -> lex (Some w') s ws -> lex cw (pre ++ s) ws).
  { intros pre1 v p1 q1 E Hp1 Hlex Hr.
    apply (IH p1 (w ++ v) q1 (Some (w ++ v))) in Hr as (pre & -> & He & Hl); [|done|done|done].
    exists (pre1 ++ pre). rewrite <- app_assoc. split; [done|]. split; [done|]. intros s ws [Ho1 Ho2]%ordinary_app Hs.
    rewrite <- app_assoc. apply Hlex; [done|]. by apply Hl. }
  destruct (Z.eqb_spec c C"'") as [->|Hsq].
  { destruct (scan_single p w) as [[w1 p1]|] eqn:Es; [|done]. apply scan_single_spec in Es as (qt & Hqt & -> & ->).
    apply (Hstep (C"'" :: qt ++ [C"'"]) qt p1 true).
    - cbn [app]. by rewrite <- app_assoc.
    - apply Forall_app in Hp as [_ Hp]. by apply list.Forall_cons in Hp as [_ Hp].
    - intros s ws _ Hs. cbn [app]. rewrite <- app_assoc. cbn [app]. constructor; [done|]. by subst w. }
  destruct (Z.eqb_spec c DQUOTE) as [->|Hdq].
  { destruct (scan_double p w) as [[w1 p1]|] eqn:Es; [|done]. apply scan_double_dq in Es as (qt & v & Hqt & -> & ->).
    apply (Hstep (DQUOTE :: qt ++ [DQUOTE]) v p1 true).
    - cbn [app]. by rewrite <- app_assoc.
    - apply Forall_app in Hp as [_ Hp]. by apply list.Forall_cons in Hp as [_ Hp].
    - intros s ws _ Hs. cbn [app]. rewrite <- app_assoc. cbn [app]. apply (lex_double cw qt v); [done|]. by subst w. }
  destruct (Z.eqb_spec c BACKSLASH) as [->|Hbs].
  { destruct p as [|d p]; [done|]. cbn [char_at nth drop]. destruct (Z.eqb_spec d NUL); [done|].
    apply (Hstep [BACKSLASH; d] [d] p true); [done|by apply list.Forall_cons in Hp as [_ Hp]|].
    intros s ws [Ho _] Hs. cbn [app]. constructor; [|by subst w]. intros ->. by apply (Ho [] []). }
  apply (Hstep [c] [c] p q); [done|done|]. intros s ws [_ Ho] Hs. apply list.Forall_cons in Ho as [[Hcr Hh] _].
  cbn [app]. destruct cw as [w0|]; cbn in Hw; subst w.
  - destruct (word_char_plain c) as [Hb Hm]; try done. by constructor.
  - destruct (word_start_plain c) as [Hb Hm]; try done. by constructor.
Qed.

Lemma skip_breaks_spec p : exists bs, p = bs ++ skip_breaks p /\ Forall blank bs /\ word_break (cur (skip_breaks p)) = false.
Proof.
  induction p as [|c p (bs & E & Hb & Hw)]; [by exists []|]. cbn [skip_breaks]. destruct (word_break c) eqn:Ec.
  - exists (c :: bs). cbn [app]. rewrite <- E. split; [done|]. split; [|done]. constructor; [|done].
    unfold word_break in Ec. unfold blank. lia.
  - by exists [].
Qed.

Lemma lex_blanks bs s ws : Forall blank bs -> lex None s ws -> lex None (bs ++ s) ws.
Proof. intros H Hs. induction H as [|c bs Hc Hbs IH]; [done|]. by constructor. Qed.

(** All words: the text consumed is split into them. *)
Lemma words_loop_sound fuel mem argc p ws qs r :
  cstring p -> words_loop fuel mem argc p = Some (ws, qs, r) ->
  exists pre, p = pre ++ r /\ (ws = [] \/ (argc + length ws <= TNY_WORDS_MAX)%nat) /\ length qs = length ws /\
    (cur r = NUL \/ tny_shellword_meta (cur r) = true \/ tilde_expands r 0 = true) /\
    (ordinary pre -> lex None pre ws /\ forall w, word_ends p w = true -> lex (Some w) pre (w :: ws)).
Proof.
  revert argc p ws qs. induction fuel as [|fuel IH]; intros argc p ws qs Hp; [done|]. cbn [words_loop].
  destruct (skip_breaks_spec p) as (bs & Ep & Hbs & Hnb). set (p0 := skip_breaks p) in *.
  assert (cstring p0) as Hp0 by (rewrite Ep in Hp; by apply Forall_app in Hp as [_ ?]).
  destruct (_ || _) eqn:Estop.
  - intros [= <- <- <-]. exists bs. split; [done|]. split; [by left|]. split; [done|].
    split; [apply orb_true_iff in Estop as [[Es|Es]%orb_true_iff|Es]; [left; lia|by right; left|by right; right]|].
    assert (forall bs, Forall blank bs -> lex None bs []) as Hl
      by (intros l Hl; rewrite <- (app_nil_r l); apply lex_blanks; [done|constructor]).
    intros _. split; [by apply Hl|]. intros w _. destruct Hbs; constructor; auto.
  - destruct (Nat.leb_spec TNY_WORDS_MAX argc) as [|Hmax]; [done|].
    destruct (word_loop _ p0 [] false) as [[[w q] p1]|] eqn:Ew; [|done].
    assert (word_ends p0 [] = false) as Hns.
    { unfold word_ends. cbn [length]. boolify. by rewrite Hnb, H, H1, H0. }
    destruct (mem argc); [|done]. destruct (words_loop fuel mem (S argc) p1) as [[[ws' qs'] p2]|] eqn:Er; [|done].
    intros [= <- <- <-].
    apply (word_loop_sound _ _ _ _ _ _ _ None) in Ew as (pre1 & E1 & He & Hl1); [|done|done|done].
    assert (cstring p1) as Hp1 by (rewrite E1 in Hp0; by apply Forall_app in Hp0 as [_ ?]).
    destruct (IH (S argc) p1 ws' qs' Hp1 Er) as (pre2 & E2 & Hlen & Hq & Hstop & Hl2).
    exists (bs ++ pre1 ++ pre2). rewrite Ep, E1, E2, <- !app_assoc. split; [done|]. cbn [length].
    split; [right; destruct Hlen as [->|]; cbn [length]; lia|]. split; [by f_equal|]. split; [done|].
    intros [_ [Ho1 Ho2]%ordinary_app]%ordinary_app.
    assert (lex None (pre1 ++ pre2) (w :: ws')) as Hl.
    { apply Hl1; [done|]. by apply Hl2. }
    split; [by apply lex_blanks|]. intros w0 Ht.
    destruct Hbs as [|c bs Hc Hbs]; [|cbn [app]; apply lex_blank_word; [done|]; by apply lex_blanks].
    exfalso. cbn [app] in Ht. rewrite <- E2, <- E1 in Ht. unfold word_ends in Ht, Hns. rewrite Hnb in Ht. boolify.
    rewrite H, H1 in Ht. cbn [orb] in Ht. unfold tilde_expands in Ht, H0. destruct (negb (cur p0 =? _)); [done|].
    destruct w0; [|done]. cbn [length orb] in *. congruence.
Qed.

(** ** Agreement with the scanner of the permission engine *)

Lemma words_loop_blank fuel mem argc c p :
  blank c -> words_loop fuel mem argc (c :: p) = words_loop fuel mem argc p.
Proof.
  intros H. destruct fuel; [done|]. cbn [words_loop skip_breaks].
  by replace (word_break c) with true by (unfold word_break, blank in *; lia).
Qed.

Lemma skip_breaks_none p : word_break (cur p) = false -> skip_breaks p = p.
Proof. destruct p as [|c p]; [done|]. cbn. by intros ->. Qed.

(** A scan that goes to the end of the input does not stop at a word. *)
Lemma words_loop_start fuel mem argc c p ws qs :
  word_break c = false -> words_loop fuel mem argc (c :: p) = Some (ws, qs, []) ->
  exists fuel' w q p1 ws1 qs1, word_loop (S (length (c :: p))) (c :: p) [] false = Some (w, q, p1) /\
    words_loop fuel' mem (S argc) p1 = Some (ws1, qs1, []) /\ ws = w :: ws1 /\ word_ends (c :: p) [] = false.
Proof.
  intros Hb. destruct fuel as [|fuel]; [done|]. cbn [words_loop]. rewrite skip_breaks_none by done.
  destruct (_ || _) eqn:E; [done|]. destruct (_ <=? _)%nat; [done|].
  destruct (word_loop _ _ _ _) as [[[w q] p1]|]; [|done]. destruct (mem argc); [|done].
  destruct (words_loop fuel _ _ _) as [[[ws1 qs1] p2]|] eqn:Er; [|done]. intros [= <- <- ->].
  exists fuel, w, q, p1, ws1, qs1. split_and!; try done.
  unfold word_ends. cbn [length cur hd] in *. boolify. by rewrite Hb, H, H1, H0.
Qed.

Lemma words_loop_ended fuel mem argc c p w ws qs :
  word_break c = false -> word_ends (c :: p) w = true -> words_loop fuel mem argc (c :: p) = Some (ws, qs, []) -> False.
Proof.
  intros Hb He H. destruct (words_loop_start _ _ _ _ _ _ _ Hb H) as (_ & _ & _ & _ & _ & _ & _ & _ & _ & Hn).
  unfold word_ends in *. cbn [cur hd] in *. rewrite Hb in *. boolify. rewrite H0, H2 in He. cbn [orb] in He.
  unfold tilde_expands in *. destruct (negb (_ =? C"~")); [done|]. destruct w; [|done]. cbn [length orb] in *. congruence.
Qed.

(** What the two loops return on the rest of a line in the grammar, when they
    reach its end. *)
Definition same_words (cw : option bytes) (s : bytes) (ws : list bytes) : Prop :=
  match cw with
  | None => forall fuel mem argc ws' qs, words_loop fuel mem argc s = Some (ws', qs, []) -> ws' = ws
  | Some w => forall fuel q w' q' p' fuel' mem argc ws' qs,
      word_loop fuel s w q = Some (w', q', p') -> words_loop fuel' mem argc p' = Some (ws', qs, []) -> w' :: ws' = ws
  end.

(** A piece that adds [v] to the current word. *)
Lemma same_words_piece cw c p v s ws :
  word_break c = false -> c <> NUL ->
  (forall fuel w q res, word_ends (c :: p) w = false -> word_loop (S fuel) (c :: p) w q = Some res ->
    exists q', word_loop fuel s (w ++ v) q' = Some res) ->
  same_words (Some (default [] cw ++ v)) s ws -> same_words cw (c :: p) ws.
Proof.
  intros Hb H0 Hstep IH.
  assert (H : forall fuel q w' q' p' fuel' mem argc ws' qs, word_loop fuel (c :: p) (default [] cw) q = Some (w', q', p') ->
    words_loop fuel' mem argc p' = Some (ws', qs, []) -> w' :: ws' = ws).
  { intros [|fuel] q w' q' p' fuel' mem argc ws' qs Hw Hr; [done|].
    destruct (word_ends (c :: p) (default [] cw)) eqn:He.
    - cbn [word_loop] in Hw. rewrite He in Hw. injection Hw as <- <- <-. by destruct (words_loop_ended _ _ _ _ _ _ _ _ Hb He Hr).
    - destruct (Hstep _ _ _ _ He Hw) as [q1 Hw']. by apply (IH _ _ _ _ _ _ _ _ _ _ Hw' Hr). }
  destruct cw as [w|]; [exact H|]. intros fuel mem argc ws' qs Hr.
  destruct (words_loop_start _ _ _ _ _ _ _ Hb Hr) as (fuel' & w & q & p1 & ws1 & qs1 & Hw & Hr' & -> & _).
  by apply (H _ _ _ _ _ _ _ _ _ _ Hw Hr').
Qed.

Lemma lex_same_words cw s ws : lex cw s ws -> cstring s -> same_words cw s ws.
Proof.
  induction 1 as [|w|c s ws Hb H IH|w c s ws Hb H IH|cw c s ws Hnb Hm H1 H2 H3 H IH|cw q s ws Hq H IH|
    cw q v s ws Hq H IH|cw c s ws Hc H IH]; intros Hs.
  - intros [|fuel] mem argc ws' qs; [done|]. cbn. by intros [= <- _].
  - intros [|fuel] q w' q' p' fuel' mem argc ws' qs; [done|]. cbn. intros [= <- <- <-]. destruct fuel'; [done|].
    cbn. by intros [= <- _].
  - apply list.Forall_cons in Hs as [_ Hs]. intros fuel mem argc ws' qs. rewrite words_loop_blank by done. by apply (IH Hs).
  - apply list.Forall_cons in Hs as [_ Hs]. intros [|fuel] q w' q' p' fuel' mem argc ws' qs; [done|]. cbn [word_loop].
    replace (word_ends (c :: s) w) with true by (unfold word_ends, word_break, blank in *; cbn [cur hd]; lia).
    intros [= <- <- <-]. rewrite words_loop_blank by done. intros Hr. f_equal. by apply (IH Hs _ _ _ _ _ Hr).
  - apply list.Forall_cons in Hs as [Hc Hs]. apply (same_words_piece cw c s [c] s); [unfold word_break, blank in *; lia|lia| |auto].
    intros fuel w q res He. cbn [word_loop]. rewrite He. cbn [cur hd tl]. rewrite !(proj2 (Z.eqb_neq _ _)) by done. intros Hr. eexists. exact Hr.
  - apply list.Forall_cons in Hs as [_ Hs]. apply Forall_app in Hs as [_ Hs]. apply list.Forall_cons in Hs as [_ Hs].
    apply (same_words_piece cw _ _ q s); [done|done| |auto].
    intros fuel w q' res He. cbn [word_loop]. rewrite He. cbn [cur hd tl].
    rewrite (proj2 (scan_single_spec (q ++ C"'" :: s) w (w ++ q) s)) by eauto. change (C"'" =? C"'") with true. intros Hr. eexists. exact Hr.
  - apply list.Forall_cons in Hs as [_ Hs]. apply Forall_app in Hs as [_ Hs]. apply list.Forall_cons in Hs as [_ Hs].
    apply (same_words_piece cw _ _ v s); [done|done| |auto].
    intros fuel w q' res He. cbn [word_loop]. rewrite He. cbn [cur hd tl].
    rewrite (double_section_complete q v s w Hq). change (DQUOTE =? C"'") with false. change (DQUOTE =? DQUOTE) with true. intros Hr. eexists. exact Hr.
  - apply list.Forall_cons in Hs as [_ Hs]. apply list.Forall_cons in Hs as [Hc' Hs].
    apply (same_words_piece cw _ _ [c] s); [done|done| |auto].
    intros fuel w q res He. cbn [word_loop]. rewrite He. cbn [cur hd tl char_at nth drop].
    change (BACKSLASH =? C"'") with false. change (BACKSLASH =? DQUOTE) with false. change (BACKSLASH =? BACKSLASH) with true.
    rewrite (proj2 (Z.eqb_neq c NUL)) by lia. rewrite drop_0. intros Hr. eexists. exact Hr.
Qed.

(** ** Completeness *)

(** No pattern, brace or tilde character: those the splitter leaves to the
    shell wherever they stand. *)
Definition no_patterns (s : bytes) : Prop := Forall (fun c => ~ In c B"*?[{}~") s.

(** What the two loops return on a line in the grammar. *)
Definition splits_into (cw : option bytes) (s : bytes) (ws : list bytes) : Prop :=
  match cw with
  | None => forall fuel mem argc, (length s < fuel)%nat -> (argc + length ws <= TNY_WORDS_MAX)%nat ->
      (forall i, mem i = true) -> exists qs, words_loop fuel mem argc s = Some (ws, qs, [])
  | Some w => forall fuel q, (length s < fuel)%nat ->
      exists w' ws1 q' p', ws = w' :: ws1 /\ word_loop fuel s w q = Some (w', q', p') /\ (length p' <= length s)%nat /\
        forall fuel' mem argc, (length p' < fuel')%nat -> (argc + length ws1 <= TNY_WORDS_MAX)%nat ->
          (forall i, mem i = true) -> exists qs, words_loop fuel' mem argc p' = Some (ws1, qs, [])
  end.

Lemma splits_piece cw c p v s ws :
  (forall w, word_ends (c :: p) w = false) -> (length s <= length p)%nat ->
  (forall fuel w q, exists q', word_loop (S fuel) (c :: p) w q = word_loop fuel s (w ++ v) q') ->
  splits_into (Some (default [] cw ++ v)) s ws -> splits_into cw (c :: p) ws.
Proof.
  intros He Hl Hstep IH.
  assert (H : forall fuel q, (length (c :: p) < fuel)%nat ->
    exists w' ws1 q' p', ws = w' :: ws1 /\ word_loop fuel (c :: p) (default [] cw) q = Some (w', q', p') /\
      (length p' <= length p)%nat /\
      forall fuel' mem argc, (length p' < fuel')%nat -> (argc + length ws1 <= TNY_WORDS_MAX)%nat ->
        (forall i, mem i = true) -> exists qs, words_loop fuel' mem argc p' = Some (ws1, qs, [])).
  { intros [|fuel] q Hf; [lia|]. cbn [length] in Hf. destruct (Hstep fuel (default [] cw) q) as [q1 ->].
    destruct (IH fuel q1) as (w' & ws1 & q' & p' & Hws & Hw & Hlp & Hr); [lia|].
    exists w', ws1, q', p'. split_and!; try done. lia. }
  destruct cw as [w|].
  { intros fuel q Hf. destruct (H fuel q Hf) as (w' & ws1 & q' & p' & ? & ? & ? & ?).
    exists w', ws1, q', p'. split_and!; try done. cbn [length]. lia. }
  intros [|fuel] mem argc Hf Ha Hmem; [lia|].
  destruct (H (S (length (c :: p))) false) as (w' & ws1 & q' & p' & -> & Hw & Hlp & Hr); [lia|].
  pose proof (He []) as Hs. unfold word_ends in Hs. boolify. cbn [words_loop].
  rewrite skip_breaks_none by done. rewrite H0, H2. cbn [length] in H1. rewrite H1. cbn [orb length] in *.
  destruct (Nat.leb_spec TNY_WORDS_MAX argc); [lia|]. cbn [default] in Hw. rewrite Hw, Hmem.
  destruct (Hr fuel mem (S argc)) as [qs ->]; [lia|lia|done|]. by exists (q' :: qs).
Qed.

Lemma plain_word_ends c p w :
  ~ blank c -> meta_char c true = false -> ~ In c B"*?[{}~" -> c <> NUL -> word_ends (c :: p) w = false.
Proof.
  intros Hb Hm Hp H0. unfold word_ends, tilde_expands, tny_shellword_meta, word_break, meta_char, mem_byte, blank in *.
  cbn [cur hd existsb app In] in *. replace (c =? C"~") with false by lia. cbn [negb orb]. lia.
Qed.

Lemma meta_char_start c b : meta_char c b = false -> meta_char c true = false.
Proof. unfold meta_char. destruct b; [done|]. cbn [negb andb]. rewrite orb_false_r. by intros [? _]%orb_false_iff. Qed.

Lemma lex_splits cw s ws : lex cw s ws -> cstring s -> no_patterns s -> splits_into cw s ws.
Proof.
  induction 1 as [|w|c s ws Hb H IH|w c s ws Hb H IH|cw c s ws Hnb Hm H1 H2 H3 H IH|cw q s ws Hq H IH|
    cw q v s ws Hq H IH|cw c s ws Hc H IH]; intros Hs Hn.
  - intros [|fuel] mem argc Hf Ha Hmem; [lia|]. by exists [].
  - intros [|fuel] q Hf; [lia|]. exists w, [], q, []. split_and!; try done.
    intros [|fuel'] mem argc Hf' Ha Hmem; [cbn in Hf'; lia|]. by exists [].
  - apply list.Forall_cons in Hs as [_ Hs]. apply list.Forall_cons in Hn as [_ Hn]. intros fuel mem argc Hf Ha Hmem.
    rewrite words_loop_blank by done. apply IH; try done. cbn [length] in Hf. lia.
  - apply list.Forall_cons in Hs as [_ Hs]. apply list.Forall_cons in Hn as [_ Hn]. intros [|fuel] q Hf; [lia|].
    exists w, ws, q, (c :: s). cbn [word_loop].
    replace (word_ends (c :: s) w) with true by (unfold word_ends, word_break, blank in *; cbn [cur hd]; lia).
    split_and!; try done. intros fuel' mem argc Hf' Ha Hmem. rewrite words_loop_blank by done.
    apply IH; try done. cbn [length] in Hf'. lia.
  - apply list.Forall_cons in Hs as [Hc Hs]. apply list.Forall_cons in Hn as [Hnc Hn].
    assert (He : forall w, word_ends (c :: s) w = false)
      by (intros w; apply plain_word_ends; [done|by apply meta_char_start in Hm|done|lia]).
    apply (splits_piece cw c s [c] s); [done|done| |auto].
    intros fuel w q. exists q. cbn [word_loop]. rewrite He. cbn [cur hd tl]. by rewrite !(proj2 (Z.eqb_neq _ _)) by done.
  - apply list.Forall_cons in Hs as [_ Hs]. apply Forall_app in Hs as [_ Hs]. apply list.Forall_cons in Hs as [_ Hs].
    apply list.Forall_cons in Hn as [_ Hn]. apply Forall_app in Hn as [_ Hn]. apply list.Forall_cons in Hn as [_ Hn].
    apply (splits_piece cw _ _ q s); [done|rewrite length_app; cbn [length]; lia| |auto].
    intros fuel w q'. exists true. cbn [word_loop cur hd tl].
    rewrite (proj2 (scan_single_spec (q ++ C"'" :: s) w (w ++ q) s)) by eauto. done.
  - apply list.Forall_cons in Hs as [_ Hs]. apply Forall_app in Hs as [_ Hs]. apply list.Forall_cons in Hs as [_ Hs].
    apply list.Forall_cons in Hn as [_ Hn]. apply Forall_app in Hn as [_ Hn]. apply list.Forall_cons in Hn as [_ Hn].
    apply (splits_piece cw _ _ v s); [done|rewrite length_app; cbn [length]; lia| |auto].
    intros fuel w q'. exists true. cbn [word_loop cur hd tl]. by rewrite (double_section_complete q v s w Hq).
  - apply list.Forall_cons in Hs as [_ Hs]. apply list.Forall_cons in Hs as [Hc' Hs].
    apply list.Forall_cons in Hn as [_ Hn]. apply list.Forall_cons in Hn as [_ Hn].
    apply (splits_piece cw _ _ [c] s); [done|cbn [length]; lia| |auto].
    intros fuel w q. exists true. cbn [word_loop cur hd tl char_at nth drop].
    replace (word_ends (BACKSLASH :: c :: s) w) with false by done.
    change (BACKSLASH =? C"'") with false. change (BACKSLASH =? DQUOTE) with false. change (BACKSLASH =? BACKSLASH) with true.
    rewrite (proj2 (Z.eqb_neq c NUL)) by lia. by rewrite drop_0.
Qed.

Lemma shellwords_split arrays mem s r :
  cstring s -> tny_shellwords arrays mem (Some s) = Some r ->
  exists pre rest, s = pre ++ rest /\ consumed r = length pre /\ stop r = cur rest /\
    (length (argv r) <= TNY_WORDS_MAX)%nat /\ length (quoted r) = length (argv r) /\
    (stop r = NUL -> rest = []) /\ (ordinary pre -> lex None pre (argv r)).
Proof.
  intros Hs. unfold tny_shellwords. destruct arrays; [|done].
  destruct (words_loop _ mem 0 s) as [[[ws qs] p]|] eqn:E; [|done]. intros [= <-]. cbn [consumed stop argv quoted].
  destruct (words_loop_sound _ _ _ _ _ _ _ Hs E) as (pre & -> & Hl & Hq & _ & Hlex). exists pre, p.
  rewrite length_app. split_and!; try done.
  - lia.
  - destruct Hl as [->|?]; cbn [length]; unfold TNY_WORDS_MAX in *; lia.
  - intros H0. apply Forall_app in Hs as [_ Hs]. by apply cstring_cur.
  - intros Ho. by apply Hlex.
Qed.

(** ** Credited reads (src/src/core/tools_shell.c) *)

Fixpoint skip_digits (p : bytes) : bytes :=
  match p with
  | c :: t => if is_digit c then skip_digits t else p
  | [] => []
  end.

(** [N] or [N,M] followed by [p]. *)
Definition sed_range (p : bytes) : bool :=
  let valid := is_digit (cur p) in
  let p := skip_digits p in
  if cur p =? C"," then valid && is_digit (cur (tl p)) && str_eq (skip_digits (tl p)) B"p"
  else valid && str_eq p B"p".

(** The file a completed terminal command is credited with having read;
    [words] is what [tny_shellwords] returned. *)
Definition learning_read_target (no_self_improve : bool) (command : bytes) (words : option tny_words) : option bytes :=
  if no_self_improve then None
  else
    let classified := shlex_parse (Some command) in
    match (if shlex_is_simple classified then shlex_program classified else None) with
    | None => None
    | Some program =>
      if negb (str_eq program B"cat") && negb (str_eq program B"sed") then None
      else
        match words with
        | None => None
        | Some w =>
          if negb (stop w =? NUL) then None
          else
            let target :=
              if str_eq program B"cat" && (length (argv w) =? 2)%nat then nth_error (argv w) 1
              else if str_eq program B"sed" && (length (argv w) =? 4)%nat && str_eq (nth 1 (argv w) []) B"-n" &&
                      sed_range (nth 2 (argv w) []) then nth_error (argv w) 3
              else None in
            match target with
            | Some t =>
              if negb (cur t =? NUL) && negb (cur t =? C"-") && negb (cur t =? C"~") then Some t else None
            | None => None
            end
        end
    end.

(** ** Properties *)

(** On a line without continuations, comments or carriage returns the
    splitter never reports anything but the shell's words: whatever it accepts
    is at most 64 words, the POSIX splitting of exactly the bytes it consumed,
    and it stops at the byte it names; and it accepts every complete command of
    at most 64 words without pattern characters, given the memory. *)
Theorem shellwords_posix (s : bytes) (Hs : cstring s) (Ho : ordinary s) :
  (forall arrays mem r, tny_shellwords arrays mem (Some s) = Some r ->
     (length (argv r) <= TNY_WORDS_MAX)%nat /\
     exists pre rest, s = pre ++ rest /\ consumed r = length pre /\ stop r = cur rest /\
       Posix.words None pre (argv r)) /\
  (forall mem ws, no_patterns s -> Posix.words None s ws -> (length ws <= TNY_WORDS_MAX)%nat ->
     (forall i, mem i = true) ->
     exists r, tny_shellwords true mem (Some s) = Some r /\ argv r = ws /\ stop r = NUL).
Proof.
  split.
  - intros arrays mem r H. destruct (shellwords_split _ _ _ _ Hs H) as (pre & rest & -> & Hc & Hst & Hl & _ & _ & Hlex).
    split; [done|]. exists pre, rest. apply ordinary_app in Ho as [Ho _]. split_and!; try done.
    apply posix_lex; [apply Ho|]. by apply Hlex.
  - intros mem ws Hn Hw Hl Hmem. apply posix_lex in Hw; [|apply Ho].
    destruct (lex_splits _ _ _ Hw Hs Hn (S (length s)) mem 0%nat) as [qs E]; [lia|lia|done|].
    eexists. unfold tny_shellwords. rewrite E. by split_and!.
Qed.

Example shellwords_posix_witness :
  exists r, tny_shellwords true (fun _ => true) (Some B"tny edit 'a b' <<EOF") = Some r /\
    (length (argv r) <= TNY_WORDS_MAX)%nat.
Proof.
  eexists. split; [reflexivity|].
  refine (proj1 (proj1 (shellwords_posix B"tny edit 'a b' <<EOF" _ _) true (fun _ => true) _ eq_refl)).
  - repeat constructor; lia.
  - split; [apply one_line_no_lf; reflexivity|]. repeat constructor; discriminate.
Defined.

(** A line number, and the [sed] script that prints one line or a range. *)
Definition line_number (d : bytes) : Prop := d <> [] /\ Forall (fun c => C"0" <= c <= C"9") d.
Definition print_range (r : bytes) : Prop :=
  exists n, line_number n /\ (r = n ++ B"p" \/ exists m, line_number m /\ r = n ++ C"," :: m ++ B"p").

Lemma skip_digits_spec p : exists d, p = d ++ skip_digits p /\ Forall (fun c => C"0" <= c <= C"9") d /\
  (is_digit (cur p) = true -> d <> []).
Proof.
  induction p as [|c p IH]; cbn [skip_digits]; [by exists []|]. destruct (is_digit c) eqn:Ec.
  - destruct IH as (d & E & Hd & _). exists (c :: d). split; [by rewrite E at 1|]. split; [|done]. constructor; [|done].
    unfold is_digit in Ec. change (C"0") with 48 in *. change (C"9") with 57 in *. lia.
  - exists []. split; [done|]. split; [done|]. cbn [cur hd]. congruence.
Qed.

Lemma sed_range_sound r : sed_range r = true -> print_range r.
Proof.
  unfold sed_range. destruct (skip_digits_spec r) as (n & E & Hn & Hne). destruct (cur (skip_digits r) =? C",") eqn:Ec.
  - intros [[H1 H2]%andb_true_iff H3%str_eq_true]%andb_true_iff. exists n. split; [by split; [apply Hne|]|]. right.
    destruct (skip_digits_spec (tl (skip_digits r))) as (m & Em & Hm & Hme). exists m. split; [by split; [apply Hme|]|].
    rewrite H3 in Em. rewrite E at 1. destruct (skip_digits r) as [|x q]; [done|]. apply Z.eqb_eq in Ec. cbn [cur hd tl] in *.
    by rewrite Ec, <- Em.
  - intros [H1 H2%str_eq_true]%andb_true_iff. exists n. split; [by split; [apply Hne|]|]. left. by rewrite E, H2 at 1.
Qed.

(** A command both scanners accept to its end has one list of words. *)
Lemma split_whole command w ws arrays mem r :
  lex None command (w :: ws) -> cstring command -> tny_shellwords arrays mem (Some command) = Some r -> stop r = NUL ->
  argv r = w :: ws.
Proof.
  intros Hlex Hc Hr Hstop. unfold tny_shellwords in Hr. destruct arrays; [|done].
  destruct (words_loop _ mem 0 command) as [[[ws' qs] p]|] eqn:E; [|done]. injection Hr as <-. cbn [stop argv] in *.
  destruct (words_loop_sound _ _ _ _ _ _ _ Hc E) as (pre & Ep & _). assert (p = []) as ->.
  { apply cstring_cur; [|done]. rewrite Ep in Hc. by apply Forall_app in Hc as [_ ?]. }
  exact (lex_same_words _ _ _ Hlex Hc _ _ _ _ _ E).
Qed.

Lemma usable_target (o : option bytes) t :
  match o with Some t => if negb (cur t =? NUL) && negb (cur t =? C"-") && negb (cur t =? C"~") then Some t else None | None => None end
    = Some t ->
  o = Some t /\ t <> [] /\ cur t <> C"-" /\ cur t <> C"~".
Proof.
  destruct o as [t0|]; [|done]. match goal with |- (if ?b then _ else _) = _ -> _ => destruct b eqn:E; [|done] end.
  intros [= ->]. boolify. split; [done|].
  repeat match goal with E : (_ =? _) = false |- _ => apply Z.eqb_neq in E end. split_and!; try done. by intros ->.
Qed.

(** A completed command is credited with reading a file only when the shell
    ran exactly [cat FILE] or [sed -n RANGEp FILE], the program found on PATH
    or in a system directory: the two scanners the code consults agree on every
    word of a command both accept. *)
Theorem learning_read_sound (command t : bytes) (no_self_improve arrays : bool) (mem : nat -> bool)
    (Hc : cstring command) (Hl : one_line command)
    (H : learning_read_target no_self_improve command (tny_shellwords arrays mem (Some command)) = Some t) :
  no_self_improve = false /\ t <> [] /\ cur t <> C"-" /\ cur t <> C"~" /\
  exists w name, (w = name \/ exists d, In d bin_dirs /\ w = d ++ name) /\
    ((name = B"cat" /\ Posix.words None command [w; t]) \/
     (name = B"sed" /\ exists range, print_range range /\ Posix.words None command [w; B"-n"; range; t])).
Proof.
  unfold learning_read_target in H. destruct no_self_improve; [done|].
  destruct (shlex_is_simple (shlex_parse (Some command))) eqn:Hsimple; [|done].
  destruct (shlex_program (shlex_parse (Some command))) as [name|] eqn:Hname; [|done].
  destruct (negb _ && negb _) eqn:Hprog; [done|].
  destruct (tny_shellwords arrays mem (Some command)) as [r|] eqn:Hr; [|done].
  destruct (Z.eqb_spec (stop r) NUL) as [Hstop|]; [|done]. cbn [negb] in H.
  apply (simple_line command Hc) in Hsimple as (w & ws & Hw).
  pose proof Hw as (Hlex & _). rewrite (parse_words command w ws) in Hname by done.
  pose proof (lex_words_cstring _ _ Hlex Hc) as [Hcw _]%Forall_cons_iff.
  apply program_name in Hname as (_ & _ & Hname); [|done]. cbn [argv0] in Hname.
  pose proof (split_whole _ _ _ _ _ _ Hlex Hc Hr Hstop) as Hargv.
  rewrite Hargv in H. apply posix_lex in Hlex; [|done].
  apply usable_target in H as (H & Ht0 & Ht1 & Ht2). split; [done|]. split_and!; try done. exists w, name. split; [done|].
  destruct (str_eq name B"cat") eqn:Ecat; cbn [andb] in H.
  - apply str_eq_true in Ecat. destruct ((length (w :: ws) =? 2)%nat) eqn:El.
    + apply Nat.eqb_eq in El. destruct ws as [|t' [|]]; try discriminate El. left. split; [done|]. cbn in H. by injection H as <-.
    + subst name. discriminate H.
  - destruct (str_eq name B"sed" && _ && _ && _) eqn:Es; [|done]. boolify. apply str_eq_true in H0. subst name.
    right. split; [done|]. destruct ws as [|w1 [|w2 [|w3 [|]]]]; try discriminate. cbn in *. injection H as ->.
    apply str_eq_true in H2. subst w1. exists w2. split; [by apply sed_range_sound|done].
Qed.

Example learning_read_sound_witness :
  let command := B"sed -n 1,20p src/main.c" in
  learning_read_target false command (tny_shellwords true (fun _ => true) (Some command)) = Some B"src/main.c" /\
  cur B"src/main.c" <> C"-".
Proof.
  intros command.
  assert (learning_read_target false command (tny_shellwords true (fun _ => true) (Some command)) = Some B"src/main.c") as H
    by (vm_compute; reflexivity).
  split; [exact H|].
  assert (cstring command) as Hc by (repeat constructor; lia).
  assert (one_line command) as Hl by (apply one_line_no_lf; reflexivity).
  destruct (learning_read_sound command B"src/main.c" false true (fun _ => true) Hc Hl H) as (_ & _ & Hd & _). exact Hd.
Defined.

(** Where the splitter and the shell part: the shell drops a line continuation
    and starts a comment at a word's [#]; the splitter keeps both. *)
Definition continued_words : bytes := B"tny skill show re" ++ [BACKSLASH; LF] ++ B"view #1".

Example shellwords_divergence :
  option_map argv (tny_shellwords true (fun _ => true) (Some continued_words)) =
    Some [B"tny"; B"skill"; B"show"; B"re" ++ [LF] ++ B"view"; B"#1"].
Proof. reflexivity. Qed.
