(* ===== verification/Sse.v ===== *)
(** The incremental reader of server-sent events (src/src/net/sse.cpp), over
    any fragmentation of the stream and any allocation failures. *)
From S2P Require Import Prelude.

Open Scope Z_scope.

Inductive parse_status := TNY_PARSE_OK | TNY_PARSE_INVALID | TNY_PARSE_OOM.

Record sse_state := mk_sse { line : bytes; data : bytes }.
(** [owner] is null until the first bytes arrive. *)
Record sse_parser := mk_parser { owner : option sse_state; status : parse_status }.

Definition sse_parser_init : sse_parser := mk_parser None TNY_PARSE_OK.

Section reader.
(** Whether the [k]-th growth of a string succeeds; a failure throws. *)
Context (mem : nat -> bool).

(** A state and the growths so far; [None] after a throw. *)
Definition grown (s : bytes) (t : bytes) (k : nat) : option (bytes * nat) :=
  if mem k then Some (s ++ t, S k) else None.

Definition dispatch (s : sse_state) : sse_state * list bytes :=
  (mk_sse (line s) [], match data s with [] => [] | d => [d] end).

Definition handle (s : sse_state) (k : nat) : option (sse_state * list bytes * nat) :=
  let l := line s in
  let l := if (0 <? length l)%nat && (List.last l NUL =? CR) then removelast l else l in
  match l with
  | [] => let '(s, evs) := dispatch s in Some (mk_sse [] (data s), evs, k)
  | _ =>
    if has_prefix B"data:" l then
      let start := if (5 <? length l)%nat && (char_at l 5 =? C" ") then 6%nat else 5%nat in
      '(d, k) ← (match data s with [] => Some ([], k) | d => grown d [LF] k end);
      '(d, k) ← grown d (drop start l) k;
      Some (mk_sse [] d, [], k)
    else Some (mk_sse [] (data s), [], k)
  end.

(** [memchr] of a line feed: what precedes it, and what follows it if it is
    there. *)
Fixpoint split_line (b : bytes) : bytes * option bytes :=
  match b with
  | [] => ([], None)
  | c :: b => if c =? LF then ([], Some b) else let '(l, r) := split_line b in (c :: l, r)
  end.

(** The loop of [sse_feed]; the events so far are delivered even when it
    throws. *)
Fixpoint feed_loop (fuel : nat) (s : sse_state) (b : bytes) (k : nat) : option (sse_state * nat) * list bytes :=
  match fuel with
  | O => (None, [])
  | S fuel =>
    match b with
    | [] => (Some (s, k), [])
    | _ =>
      let '(l, rest) := split_line b in
      match grown (line s) l k with
      | None => (None, [])
      | Some (l, k) =>
        let s := mk_sse l (data s) in
        match rest with
        | None => (Some (s, k), [])
        | Some b =>
          match handle s k with
          | None => (None, [])
          | Some (s, evs, k) => let '(r, evs') := feed_loop fuel s b k in (r, evs ++ evs')
          end
        end
      end
    end
  end.

(** After a throw the status is sticky and the strings are only freed: their
    contents are those before the call. *)
Definition sse_feed (p : sse_parser) (b : bytes) (k : nat) : sse_parser * list bytes * nat :=
  match status p, b with
  | TNY_PARSE_INVALID, _ | TNY_PARSE_OOM, _ | _, [] => (p, [], k)
  | TNY_PARSE_OK, _ =>
    match (match owner p with Some s => Some (s, k) | None => if mem k then Some (mk_sse [] [], S k) else None end) with
    | None => (mk_parser (owner p) TNY_PARSE_OOM, [], k)
    | Some (s, k) =>
      match feed_loop (S (length b)) s b k with
      | (Some (s, k), evs) => (mk_parser (Some s) TNY_PARSE_OK, evs, k)
      | (None, evs) => (mk_parser (Some s) TNY_PARSE_OOM, evs, k)
      end
    end
  end.

Definition sse_flush (p : sse_parser) (k : nat) : sse_parser * list bytes * nat :=
  match status p, owner p with
  | TNY_PARSE_INVALID, _ | TNY_PARSE_OOM, _ | _, None => (p, [], k)
  | TNY_PARSE_OK, Some s =>
    match (match line s with [] => Some (s, [], k) | _ => handle s k end) with
    | None => (mk_parser (Some s) TNY_PARSE_OOM, [], k)
    | Some (s, evs, k) => let '(s, evs') := dispatch s in (mk_parser (Some s) TNY_PARSE_OK, evs ++ evs', k)
    end
  end.

(** A whole response body: the pieces as they arrive, then its end. *)
Fixpoint read_body (p : sse_parser) (pieces : list bytes) (k : nat) : sse_parser * list bytes :=
  match pieces with
  | [] => let '(p, evs, _) := sse_flush p k in (p, evs)
  | b :: pieces => let '(p, evs, k) := sse_feed p b k in let '(p, evs') := read_body p pieces k in (p, evs ++ evs')
  end.

End reader.

(** ** Specification: the events of a stream *)

(** The lines, the last one without its line feed if it has none. *)
Fixpoint stream_lines (s : bytes) : list bytes :=
  match s with
  | [] => []
  | c :: s => if c =? LF then [] :: stream_lines s
              else match stream_lines s with [] => [[c]] | l :: ls => (c :: l) :: ls end
  end.

Definition without_cr (l : bytes) : bytes := if List.last l NUL =? CR then removelast l else l.

(** The value of a data field, without the optional space. *)
Definition data_field (l : bytes) : option bytes :=
  if has_prefix B"data:" l then Some (match drop 5 l with c :: v => if c =? C" " then v else c :: v | [] => [] end)
  else None.

(** The data of one event; data that is still empty takes no separator. *)
Fixpoint join_data (vs : list bytes) : bytes :=
  match vs with
  | [] => []
  | [] :: vs => join_data vs
  | v :: vs => v ++ concat (map (fun w => LF :: w) vs)
  end.

Definition event (vs : list bytes) : list bytes := match join_data vs with [] => [] | d => [d] end.

(** Blank lines end events; other fields are ignored. *)
Fixpoint events_of (ls : list bytes) (vs : list bytes) : list bytes :=
  match ls with
  | [] => event vs
  | l :: ls =>
    match without_cr l with
    | [] => event vs ++ events_of ls []
    | l => events_of ls (vs ++ match data_field l with Some v => [v] | None => [] end)
    end
  end.

Definition sse_events (s : bytes) : list bytes := events_of (stream_lines s) [].

(** ** Lemmas *)

Lemma join_data_snoc vs v :
  join_data (vs ++ [v]) = match join_data vs with [] => v | d => d ++ LF :: v end.
Proof.
  induction vs as [|w vs IH]; [cbn; by destruct v; rewrite ?app_nil_r|]. destruct w as [|c w]; [exact IH|].
  cbn [app join_data]. rewrite map_app, concat_app. cbn [map concat]. by rewrite app_nil_r, <- app_assoc.
Qed.

Lemma stream_lines_lf l rest : ~ In LF l -> stream_lines (l ++ LF :: rest) = l :: stream_lines rest.
Proof.
  induction l as [|c l IH]; intros H; [done|]. cbn [app stream_lines]. rewrite IH by (intros ?; apply H; by right).
  destruct (Z.eqb_spec c LF) as [->|]; [exfalso; apply H; by left|done].
Qed.

Lemma stream_lines_one l : ~ In LF l -> l <> [] -> stream_lines l = [l].
Proof.
  induction l as [|c l IH]; intros H Hne; [done|]. cbn [stream_lines].
  destruct (Z.eqb_spec c LF) as [->|]; [exfalso; apply H; by left|].
  destruct l as [|d l]; [done|]. rewrite IH; [done| |done]. intros ?. apply H. by right.
Qed.

Lemma split_line_spec b :
  match split_line b with
  | (l, Some r) => b = l ++ LF :: r /\ ~ In LF l
  | (l, None) => b = l /\ ~ In LF l
  end.
Proof.
  induction b as [|c b IH]; [by split; [|intros []]|]. cbn [split_line].
  destruct (Z.eqb_spec c LF) as [->|Hc]; [by split; [|intros []]|].
  destruct (split_line b) as [l [r|]]; destruct IH as [-> Hl]; split; try done; intros [|]; done.
Qed.

(** The code's test of the last byte is the specification's. *)
Lemma strip_test l :
  (if (0 <? length l)%nat && (List.last l NUL =? CR) then removelast l else l) = without_cr l.
Proof. by destruct l. Qed.

Lemma data_start l :
  has_prefix B"data:" l = true ->
  drop (if (5 <? length l)%nat && (char_at l 5 =? C" ") then 6%nat else 5%nat) l = default [] (data_field l).
Proof.
  intros H. unfold data_field. rewrite H. apply has_prefix_true in H as [t ->]. cbn [app drop default].
  rewrite ?drop_0. destruct t as [|c t]; [done|]. change (char_at _ 5) with c. cbn [length Nat.ltb Nat.leb andb].
  by destruct (c =? C" ").
Qed.

Section reading.
Context (mem : nat -> bool).

(** [data s] after the data fields [vs]. *)
Definition holds (s : sse_state) (vs : list bytes) : Prop := data s = join_data vs.

Lemma handle_spec s vs k :
  holds s vs ->
  match handle mem s k with
  | Some (s', evs, _) => line s' = [] /\ exists vs', holds s' vs' /\
      forall ls, events_of (line s :: ls) vs = evs ++ events_of ls vs'
  | None => exists i, mem i = false
  end.
Proof.
  unfold holds. intros Hd. unfold handle. rewrite strip_test. cbn [events_of].
  destruct (without_cr (line s)) as [|c l].
  - unfold dispatch. cbn [line data]. split; [done|]. exists []. split; [done|]. intros ls.
    unfold event. by rewrite <- Hd.
  - destruct (has_prefix B"data:" (c :: l)) eqn:Ep.
    2: { split; [done|]. exists vs. split; [done|]. intros ls. unfold data_field. rewrite Ep. by rewrite app_nil_r. }
    unfold data_field at 1. rewrite Ep. set (v := match drop 5 (c :: l) with [] => [] | _ => _ end).
    pose proof (data_start _ Ep) as Ev. unfold data_field in Ev. rewrite Ep in Ev. cbn [default] in Ev. fold v in Ev.
    rewrite Ev. clearbody v. unfold grown.
    assert (Hsnoc : forall d, d = match join_data vs with [] => v | d => d ++ LF :: v end ->
      exists vs', d = join_data vs' /\ forall ls, events_of ls (vs ++ [v]) = [] ++ events_of ls vs').
    { intros d ->. exists (vs ++ [v]). by rewrite join_data_snoc. }
    rewrite <- Hd in Hsnoc. destruct (data s) as [|x d]; cbn [mbind option_bind].
    + destruct (mem k) eqn:Ek; cbn; [|by exists k]. split; [done|]. by apply Hsnoc.
    + destruct (mem k) eqn:Ek; cbn [mbind option_bind]; [|by exists k].
      destruct (mem (S k)) eqn:Ek1; cbn [mbind option_bind]; [|by exists (S k)]. cbn [line data]. split; [done|].
      apply Hsnoc. by rewrite <- app_assoc.
Qed.

(** The events still to come. *)
Definition future (s : sse_state) (vs : list bytes) (rest : bytes) : list bytes :=
  events_of (stream_lines (line s ++ rest)) vs.

Lemma feed_loop_spec fuel s vs b k :
  (length b < fuel)%nat -> ~ In LF (line s) -> holds s vs ->
  match feed_loop mem fuel s b k with
  | (Some (s', _), evs) => ~ In LF (line s') /\ exists vs', holds s' vs' /\
      forall rest, future s vs (b ++ rest) = evs ++ future s' vs' rest
  | (None, evs) => (exists i, mem i = false) /\ forall rest, exists more, future s vs (b ++ rest) = evs ++ more
  end.
Proof.
  revert s vs b k. induction fuel as [|fuel IH]; intros s vs b k Hf Hl Hd; [lia|]. cbn [feed_loop].
  destruct b as [|c b]; [split; [done|]; by exists vs|]. pose proof (split_line_spec (c :: b)) as Hs.
  destruct (split_line (c :: b)) as [l rest] eqn:El. unfold grown.
  destruct (mem k) eqn:Ek; [|split; [by exists k|]; intros r; by eexists].
  destruct rest as [b'|]; destruct Hs as [Eb Hl'].
  - assert (Hll : ~ In LF (line s ++ l)) by (rewrite in_app_iff; tauto).
    pose proof (handle_spec (mk_sse (line s ++ l) (data s)) vs (S k) Hd) as Hh. cbn [line] in Hh.
    destruct (handle mem _ _) as [[[s1 evs] k1]|].
    + destruct Hh as (Hs1 & vs1 & Hd1 & He).
      specialize (IH s1 vs1 b' k1 ltac:(apply (f_equal length) in Eb; rewrite length_app in Eb; cbn [length] in Eb, Hf; lia)
        ltac:(by rewrite Hs1; intros []) Hd1). destruct (feed_loop mem fuel s1 b' k1) as [r evs'].
      assert (Hrest : forall rest, future s vs ((c :: b) ++ rest) = evs ++ future s1 vs1 (b' ++ rest)).
      { intros rest. unfold future. rewrite Eb, <- app_assoc. cbn [app]. rewrite app_assoc, stream_lines_lf, Hs1 by done. apply He. }
      destruct r as [[s2 k2]|]; destruct IH as [H1 H2].
      * split; [done|]. destruct H2 as (vs2 & Hd2 & H2). exists vs2. split; [done|]. intros rest. by rewrite Hrest, H2, app_assoc.
      * split; [done|]. intros rest. destruct (H2 rest) as [more H]. exists more. by rewrite Hrest, H, app_assoc.
    + split; [done|]. intros rest. by eexists.
  - cbn [line data]. split; [rewrite in_app_iff; tauto|]. exists vs. split; [done|]. intros rest.
    unfold future. cbn [line]. by rewrite <- Eb, <- app_assoc.
Qed.

(** A parser that has not failed, and what it still has to deliver. *)
Definition expects (p : sse_parser) (rest : bytes) (evs : list bytes) : Prop :=
  status p = TNY_PARSE_OK /\
  match owner p with
  | None => evs = sse_events rest
  | Some s => exists vs, holds s vs /\ ~ In LF (line s) /\ evs = future s vs rest
  end.

Lemma feed_spec p b rest evs k :
  expects p (b ++ rest) evs ->
  let '(p', out, _) := sse_feed mem p b k in
  (exists more, evs = out ++ more /\ expects p' rest more) \/
  (status p' = TNY_PARSE_OOM /\ (exists i, mem i = false) /\ exists more, evs = out ++ more).
Proof.
  intros [Hst Ho]. unfold sse_feed. rewrite Hst. destruct b as [|c b]; [left; by exists evs|].
  assert (H : exists s vs k', (match owner p with Some s => Some (s, k) | None => if mem k then Some (mk_sse [] [], S k) else None end) =
      Some (s, k') /\ holds s vs /\ ~ In LF (line s) /\ evs = future s vs ((c :: b) ++ rest) \/
    (exists i, mem i = false) /\ (match owner p with Some s => Some (s, k) | None => if mem k then Some (mk_sse [] [], S k) else None end) = None).
  { destruct (owner p) as [s|].
    - destruct Ho as (vs & ? & ? & ?). exists s, vs, k. by left.
    - exists (mk_sse [] []), [], (S k). destruct (mem k) eqn:Ek; [left; by split_and!; [|done|intros []|]|right; by split; [exists k|]]. }
  destruct H as (s & vs & k' & [(-> & Hd & Hl & ->)|[Hm ->]]).
  - pose proof (feed_loop_spec (S (length (c :: b))) s vs (c :: b) k' ltac:(lia) Hl Hd) as Hf.
    destruct (feed_loop mem _ s (c :: b) k') as [[[s' k2]|] out]; destruct Hf as [H1 H2].
    + left. destruct H2 as (vs' & Hd' & H2). exists (future s' vs' rest). split; [apply H2|]. split; [done|]. by exists vs'.
    + right. by split_and!.
  - right. split_and!; try done. by exists evs.
Qed.

Lemma flush_spec p evs k :
  expects p [] evs ->
  let '(p', out, _) := sse_flush mem p k in
  (status p' = TNY_PARSE_OK /\ out = evs) \/
  (status p' = TNY_PARSE_OOM /\ (exists i, mem i = false) /\ exists more, evs = out ++ more).
Proof.
  intros [Hst Ho]. unfold sse_flush. rewrite Hst. destruct (owner p) as [s|]; [|left; split; [done|by rewrite Ho]].
  destruct Ho as (vs & Hd & Hl & ->). unfold future. rewrite app_nil_r. destruct (line s) as [|c l] eqn:El.
  - left. split; [done|]. cbn [stream_lines events_of]. unfold event. rewrite <- Hd. by destruct (data s).
  - rewrite stream_lines_one by done. pose proof (handle_spec s vs k Hd) as Hh.
    destruct (handle mem s k) as [[[s1 e1] k1]|].
    + left. destruct Hh as (_ & vs1 & Hd1 & He). rewrite <- El, (He []). cbn. split; [done|].
      unfold event. rewrite <- Hd1. by destruct (data s1).
    + right. split_and!; try done. by eexists.
Qed.

Lemma read_failed p pieces k : status p = TNY_PARSE_OOM -> read_body mem p pieces k = (p, []).
Proof.
  intros H. revert k. induction pieces as [|b pieces IH]; intros k; cbn [read_body].
  - unfold sse_flush. by rewrite H.
  - unfold sse_feed. rewrite H. by rewrite IH.
Qed.

Lemma read_body_spec pieces p k evs :
  expects p (concat pieces) evs ->
  let '(p', out) := read_body mem p pieces k in
  (status p' = TNY_PARSE_OK /\ out = evs) \/
  (status p' = TNY_PARSE_OOM /\ (exists i, mem i = false) /\ exists more, evs = out ++ more).
Proof.
  revert p k evs. induction pieces as [|b pieces IH]; intros p k evs He; cbn [read_body concat] in *.
  - pose proof (flush_spec p evs k He) as H. by destruct (sse_flush mem p k) as [[p' out] k'].
  - pose proof (feed_spec p b _ evs k He) as H. destruct (sse_feed mem p b k) as [[p1 out1] k1].
    destruct H as [(more & -> & He1)|(Hst & Hm & more & ->)].
    + specialize (IH p1 k1 more He1). destruct (read_body mem p1 pieces k1) as [p2 out2].
      destruct IH as [[H1 ->]|(H1 & H2 & more2 & ->)]; [by left|]. right. split_and!; try done. exists more2. by rewrite app_assoc.
    + rewrite read_failed by done. right. rewrite app_nil_r. split_and!; try done. by exists more.
Qed.

End reading.

(** ** Properties *)

(** C39: however a response body is cut into pieces, the events delivered are
    those of the whole stream, each exactly once and in order; when an
    allocation fails they are the first of them, nothing is delivered after the
    failure, and it is reported. *)
Theorem sse_fragmentation (mem : nat -> bool) (pieces : list bytes) :
  let '(p, evs) := read_body mem sse_parser_init pieces 0 in
  (status p = TNY_PARSE_OK /\ evs = sse_events (concat pieces)) \/
  (status p = TNY_PARSE_OOM /\ (exists i, mem i = false) /\ exists more, sse_events (concat pieces) = evs ++ more).
Proof. apply (read_body_spec mem pieces sse_parser_init 0). by split. Qed.

Example sse_two_pieces :
  snd (read_body (fun _ => true) sse_parser_init
    [B"data: a" ++ [CR]; LF :: B"data:b" ++ [LF; LF] ++ B"id: 7" ++ [LF] ++ B"da"; B"ta: c"] 0) =
  [B"a" ++ LF :: B"b"; B"c"].
Proof. reflexivity. Qed.
