(* ===== verification/Swarm.v ===== *)
(** Swarm definitions (src/src/core/swarm_manifest.c): the strict reader of a
    tree of groups and participants, its canonical text, and the resolution of
    dependencies. *)
From S2P Require Import Prelude Text Decimal Json.

Open Scope Z_scope.

Definition TNY_SWARM_MANIFEST_MAX_BYTES : nat := 65536.
Definition TNY_SWARM_MANIFEST_MAX_NAME_BYTES : nat := 64.
Definition TNY_SWARM_MANIFEST_MAX_PURPOSE_BYTES : nat := 4096.
Definition TNY_SWARM_MANIFEST_MAX_DELIVERABLE_BYTES : nat := 4096.
Definition TNY_SWARM_MANIFEST_MAX_ACCEPTANCE : nat := 16.
Definition TNY_SWARM_MANIFEST_MAX_ACCEPTANCE_BYTES : nat := 1024.
Definition TNY_SWARM_MANIFEST_MAX_DEPENDENCIES : nat := 15.
Definition TNY_SWARM_MANIFEST_MAX_WORKSPACE_BASE : nat := 256.
Definition TNY_SWARM_MANIFEST_MAX_DEPTH : nat := 4.
Definition TNY_SWARM_MANIFEST_MAX_PARTICIPANTS : nat := 16.
Definition TNY_SWARM_MANIFEST_MAX_GROUPS : nat := 17.

Inductive tny_swarm_manifest_workspace_policy :=
  TNY_SWARM_WORKSPACE_SHARED_WRITABLE | TNY_SWARM_WORKSPACE_SHARED_READ_ONLY | TNY_SWARM_WORKSPACE_ISOLATED.

(** The counts are the lengths of the lists; [dependencies] is filled by the
    resolution. *)
Record tny_swarm_manifest_contract := mk_contract {
  deliverable : option bytes;
  acceptance : list bytes;
  dependency_names : list bytes;
  dependencies : list nat;
  workspace_policy : tny_swarm_manifest_workspace_policy;
  workspace_base : option bytes;
  acceptance_declared : bool; dependencies_declared : bool; workspace_declared : bool }.

Record tny_swarm_manifest_participant := mk_participant {
  p_name : bytes; p_purpose : bytes; p_group : nat; p_coordinator : bool;
  p_contract : tny_swarm_manifest_contract }.

(** [None] is SIZE_MAX: the root's absent parent and launched coordinator. *)
Record tny_swarm_manifest_group := mk_group {
  g_purpose : bytes; g_coordinator_name : bytes; g_coordinator_purpose : bytes;
  g_parent : option nat; g_coordinator_participant : option nat; g_depth : nat;
  g_contract : tny_swarm_manifest_contract }.

(** The manifest under construction with the parser's canonical text, and the
    number of allocations so far. *)
Record manifest_parser := mk_state {
  version : Z;
  groups : list tny_swarm_manifest_group;
  participants : list tny_swarm_manifest_participant;
  canonical : bytes;
  allocations : nat }.

(** The messages, with their arguments; [kind] is the actor the code names. *)
Inductive swarm_error :=
| OutOfMemory | OutputRequired | ManifestSize | CapacityRange | InvalidJson (pos : Z)
| GroupFields | TooDeep | TooManyGroups | UnknownVersion | GroupPurpose | GroupArrays | GroupArraySizes
| OverCapacity | ExactNamePurpose (kind : bytes) | RootContract | ActorFields (kind : bytes)
| ActorName (kind : bytes) | ActorPurpose (kind : bytes) | DuplicateName (name : bytes)
| Deliverable (kind : bytes) | AcceptanceCount (kind : bytes) | AcceptanceText (kind : bytes)
| DependencyCount (kind : bytes) | DependencyName (kind : bytes) | DuplicateDependency (kind name : bytes)
| WorkspaceFields (kind : bytes) | WorkspacePolicy (kind : bytes) | SharedBase (kind : bytes)
| WorkspaceBase (kind : bytes)
| NoParticipants | DependsOnRoot (who name : bytes) | UnknownDependency (who name : bytes)
| DependsOnItself (who : bytes) | DependencyCycle.

(** ** Reading JSON strictly *)

(** Where the lookup of a key finds its member. *)
Fixpoint first_member (key : bytes) (ms : list (bytes * jval)) : option nat :=
  match ms with
  | [] => None
  | (k, _) :: ms => if str_eq k key then Some O else S <$> first_member key ms
  end.

(** Every key is free of NULs, allowed, and found at its own position. *)
Fixpoint members_allowed (all : list (bytes * jval)) (fields : list bytes) (i : nat) (ms : list (bytes * jval)) : bool :=
  match ms with
  | [] => true
  | (k, _) :: ms =>
    negb (mem_byte NUL k) && str_in k fields && bool_decide (first_member k all = Some i) &&
    members_allowed all fields (S i) ms
  end.

Definition has_field (value : option jval) (field : bytes) : bool :=
  match jget value field with Some _ => true | None => false end.

Definition exact_object (value : option jval) (fields : list bytes) : bool :=
  match value with
  | Some (JObj ms) =>
    (length ms =? length fields)%nat && members_allowed ms fields 0 ms && forallb (has_field value) fields
  | _ => false
  end.

Definition closed_object (value : option jval) (fields required : list bytes) : bool :=
  match value with
  | Some (JObj ms) =>
    negb (length ms <? length required)%nat && negb (length fields <? length ms)%nat &&
    members_allowed ms fields 0 ms && forallb (has_field value) required
  | _ => false
  end.

Definition ascii_space (c : Z) : bool :=
  (c =? C" ") || (c =? TAB) || (c =? LF) || (c =? VT) || (c =? FF) || (c =? CR).

(** The text, when it is acceptable. *)
Definition bounded_text (value : option jval) (max : nat) (name : bool) : option bytes :=
  match value with
  | Some (JStr text) =>
    if (length text =? 0)%nat || (max <? length text)%nat || mem_byte NUL text || negb (utf8_valid_bytes (Some text) (length text))
    then None
    else if name && existsb (fun c => (c <? 32) || (c =? 127)) text then None
    else if name && (ascii_space (cur text) || ascii_space (List.last text NUL)) then None
    else if existsb (fun c => negb (ascii_space c)) text then Some text else None
  | _ => None
  end.

(** ** The parser's effects *)

Definition M (A : Type) : Type := manifest_parser -> swarm_error + A * manifest_parser.
Definition ret {A} (a : A) : M A := fun p => inr (a, p).
Definition bind {A R} (m : M A) (f : A -> M R) : M R :=
  fun p => match m p with inl e => inl e | inr (a, p) => f a p end.
Definition fail {A} (e : swarm_error) : M A := fun _ => inl e.
Definition get : M manifest_parser := fun p => inr (p, p).
Definition modify (f : manifest_parser -> manifest_parser) : M unit := fun p => inr (tt, f p).
Notation "'let!' x := m 'in' k" := (bind m (fun x => k)) (at level 200, x pattern, k at level 200).
Notation "m ;; k" := (bind m (fun _ => k)) (at level 100, right associativity).

(** [if (!(b)) return fail(e)]. *)
Definition require (b : bool) (e : swarm_error) : M unit := if b then ret tt else fail e.
Definition required {A} (a : option A) (e : swarm_error) : M A := match a with Some a => ret a | None => fail e end.

Definition set_version (v : Z) (p : manifest_parser) :=
  mk_state v (groups p) (participants p) (canonical p) (allocations p).
Definition add_group (g : tny_swarm_manifest_group) (p : manifest_parser) :=
  mk_state (version p) (groups p ++ [g]) (participants p) (canonical p) (allocations p).
Definition add_participant (q : tny_swarm_manifest_participant) (p : manifest_parser) :=
  mk_state (version p) (groups p) (participants p ++ [q]) (canonical p) (allocations p).
Definition append (t : bytes) (p : manifest_parser) :=
  mk_state (version p) (groups p) (participants p) (canonical p ++ t) (allocations p).

Section parser.
(** Which allocations succeed, and the shared capacity. *)
Context (mem : nat -> bool) (capacity : nat).

Definition allocate : M unit := fun p =>
  if mem (allocations p)
  then inr (tt, mk_state (version p) (groups p) (participants p) (canonical p) (S (allocations p)))
  else inl OutOfMemory.

Fixpoint allocate_n (n : nat) : M unit :=
  match n with O => ret tt | S n => allocate ;; allocate_n n end.

(** A copy is the text itself. *)
Definition copy_text (t : bytes) : M bytes := allocate ;; ret t.

Definition name_used (p : manifest_parser) (name : bytes) : bool :=
  existsb (fun g => str_eq (g_coordinator_name g) name) (groups p) ||
  existsb (fun q => str_eq (p_name q) name) (participants p).

(** The elements of an array that is one. *)
Definition elements (value : jval) : option (list jval) := match value with JArr vs => Some vs | _ => None end.

Fixpoint read_acceptance (kind : bytes) (vs : list jval) : M (list bytes) :=
  match vs with
  | [] => ret []
  | v :: vs =>
    let! t := required (bounded_text (Some v) TNY_SWARM_MANIFEST_MAX_ACCEPTANCE_BYTES false) (AcceptanceText kind) in
    let! t := copy_text t in
    let! ts := read_acceptance kind vs in
    ret (t :: ts)
  end.

Fixpoint read_dependencies (kind : bytes) (seen : list bytes) (vs : list jval) : M (list bytes) :=
  match vs with
  | [] => ret seen
  | v :: vs =>
    let! t := required (bounded_text (Some v) TNY_SWARM_MANIFEST_MAX_NAME_BYTES true) (DependencyName kind) in
    require (negb (str_in t seen)) (DuplicateDependency kind t) ;;
    let! t := copy_text t in
    read_dependencies kind (seen ++ [t]) vs
  end.

Definition contract0 : tny_swarm_manifest_contract :=
  mk_contract None [] [] [] TNY_SWARM_WORKSPACE_SHARED_WRITABLE None false false false.

(** The policy with its base. *)
Definition read_workspace (kind : bytes) (workspace : jval) :
    M (tny_swarm_manifest_workspace_policy * option bytes) :=
  let w := Some workspace in
  let base := jget w B"base" in
  require (match base with
           | Some _ => exact_object w [B"policy"; B"base"]
           | None => exact_object w [B"policy"]
           end) (WorkspaceFields kind) ;;
  let! policy_name := required (match jget w B"policy" with
                                | Some (JStr t) => if mem_byte NUL t then None else Some t
                                | _ => None
                                end) (WorkspacePolicy kind) in
  if str_eq policy_name B"shared_read_only" || str_eq policy_name B"shared_writable" then
    require (match base with Some _ => false | None => true end) (SharedBase kind) ;;
    ret (if str_eq policy_name B"shared_read_only" then TNY_SWARM_WORKSPACE_SHARED_READ_ONLY
         else TNY_SWARM_WORKSPACE_SHARED_WRITABLE, None)
  else if str_eq policy_name B"isolated" then
    match base with
    | None => ret (TNY_SWARM_WORKSPACE_ISOLATED, None)
    | Some _ =>
      let! t := required (bounded_text base TNY_SWARM_MANIFEST_MAX_WORKSPACE_BASE false) (WorkspaceBase kind) in
      let! t := copy_text t in
      ret (TNY_SWARM_WORKSPACE_ISOLATED, Some t)
    end
  else fail (WorkspacePolicy kind).

Definition parse_contract (value : option jval) (kind : bytes) (root : bool) : M tny_swarm_manifest_contract :=
  let! deliverable := match jget value B"deliverable" with
    | None => ret None
    | Some d =>
      let! t := required (bounded_text (Some d) TNY_SWARM_MANIFEST_MAX_DELIVERABLE_BYTES false) (Deliverable kind) in
      let! t := copy_text t in
      ret (Some t)
    end in
  let! acceptance := match jget value B"acceptance" with
    | None => ret None
    | Some a =>
      let! vs := required (elements a) (AcceptanceCount kind) in
      require (negb (length vs =? 0)%nat && negb (TNY_SWARM_MANIFEST_MAX_ACCEPTANCE <? length vs)%nat)
        (AcceptanceCount kind) ;;
      let! ts := read_acceptance kind vs in
      ret (Some ts)
    end in
  let dependencies := jget value B"depends_on" in
  let workspace := jget value B"workspace" in
  require (negb (root && (match dependencies with Some _ => true | None => false end ||
                          match workspace with Some _ => true | None => false end))) RootContract ;;
  let! dependencies := match dependencies with
    | None => ret None
    | Some d =>
      let! vs := required (elements d) (DependencyCount kind) in
      require (negb (TNY_SWARM_MANIFEST_MAX_DEPENDENCIES <? length vs)%nat) (DependencyCount kind) ;;
      let! ts := read_dependencies kind [] vs in
      ret (Some ts)
    end in
  let! workspace := match workspace with
    | None => ret None
    | Some w => let! w := read_workspace kind w in ret (Some w)
    end in
  let is_some {A} (o : option A) := match o with Some _ => true | None => false end in
  let '(policy, base) := default (TNY_SWARM_WORKSPACE_SHARED_WRITABLE, None) workspace in
  ret (mk_contract deliverable (default [] acceptance) (default [] dependencies) []
         policy base (is_some acceptance) (is_some dependencies) (is_some workspace)).

(** Name, purpose and contract of an actor. *)
Definition copy_actor (value : option jval) (kind : bytes) (root : bool) :
    M (bytes * bytes * tny_swarm_manifest_contract) :=
  let! p := get in
  (if version p =? 1 then require (exact_object value [B"name"; B"purpose"]) (ExactNamePurpose kind)
   else
     let allowed := if root then [B"name"; B"purpose"; B"deliverable"; B"acceptance"]
                    else [B"name"; B"purpose"; B"deliverable"; B"acceptance"; B"depends_on"; B"workspace"] in
     if closed_object value allowed [B"name"; B"purpose"] then ret tt
     else if root && (has_field value B"depends_on" || has_field value B"workspace") then fail RootContract
     else fail (ActorFields kind)) ;;
  let! name := required (bounded_text (jget value B"name") TNY_SWARM_MANIFEST_MAX_NAME_BYTES true) (ActorName kind) in
  let! purpose := required (bounded_text (jget value B"purpose") TNY_SWARM_MANIFEST_MAX_PURPOSE_BYTES false)
                    (ActorPurpose kind) in
  require (negb (name_used p name)) (DuplicateName name) ;;
  let! name := copy_text name in
  let! purpose := copy_text purpose in
  let! contract := (if version p =? 2 then parse_contract value kind root else ret contract0) in
  ret (name, purpose, contract).

(** How many strings a contract's copy duplicates. *)
Definition contract_strings (c : tny_swarm_manifest_contract) : nat :=
  ((match deliverable c with Some _ => 1 | None => 0 end) + length (acceptance c) + length (dependency_names c) +
   (match workspace_base c with Some _ => 1 | None => 0 end))%nat.

Definition contract_copy (c : tny_swarm_manifest_contract) : M tny_swarm_manifest_contract :=
  allocate_n (contract_strings c) ;; ret c.

(** ** Canonical text *)

Definition quoted (s : bytes) : bytes := default [] (jescape [] (Some s)).

Definition key_text (key : bytes) : bytes := DQUOTE :: key ++ [DQUOTE; C":"].

Fixpoint comma_separated (ts : list bytes) : bytes :=
  match ts with
  | [] => []
  | [t] => t
  | t :: ts => t ++ C"," :: comma_separated ts
  end.

Definition tny_swarm_manifest_workspace_name (policy : tny_swarm_manifest_workspace_policy) : bytes :=
  match policy with
  | TNY_SWARM_WORKSPACE_SHARED_WRITABLE => B"shared_writable"
  | TNY_SWARM_WORKSPACE_SHARED_READ_ONLY => B"shared_read_only"
  | TNY_SWARM_WORKSPACE_ISOLATED => B"isolated"
  end.

Definition append_actor (name purpose : bytes) (c : tny_swarm_manifest_contract) (version : Z) : bytes :=
  C"{" :: key_text B"name" ++ quoted name ++ C"," :: key_text B"purpose" ++ quoted purpose ++
  (if version =? 2 then
     match deliverable c with Some d => C"," :: key_text B"deliverable" ++ quoted d | None => [] end ++
     (if acceptance_declared c
      then C"," :: key_text B"acceptance" ++ C"[" :: comma_separated (map quoted (acceptance c)) ++ [C"]"] else []) ++
     (if dependencies_declared c
      then C"," :: key_text B"depends_on" ++ C"[" :: comma_separated (map quoted (dependency_names c)) ++ [C"]"] else []) ++
     (if workspace_declared c
      then C"," :: key_text B"workspace" ++ C"{" :: key_text B"policy" ++
           quoted (tny_swarm_manifest_workspace_name (workspace_policy c)) ++
           match workspace_base c with Some b => C"," :: key_text B"base" ++ quoted b | None => [] end ++ [C"}"]
      else [])
   else []) ++ [C"}"].

(** ** Groups *)

Fixpoint read_agents (group_index : nat) (first : bool) (vs : list jval) : M unit :=
  match vs with
  | [] => ret tt
  | v :: vs =>
    let! p := get in
    require (length (participants p) <? capacity)%nat OverCapacity ;;
    let! actor := copy_actor (Some v) B"agent" false in
    let '(name, purpose, contract) := actor in
    modify (add_participant (mk_participant name purpose group_index false contract)) ;;
    modify (append ((if first then [] else [C","]) ++ append_actor name purpose contract (version p))) ;;
    read_agents group_index false vs
  end.

(** One group and those nested in it; [fuel] bounds the nesting, which the depth
    check ends at the fifth level. A group or participant enters the manifest
    when its actor has been read: while the code reads it, the entry it has
    reserved has no name and [name_used] passes over it. *)
Fixpoint parse_group (fuel : nat) (value : option jval) (depth : nat) (parent : option nat) : M unit :=
  match fuel with
  | O => fail TooDeep
  | S fuel =>
    let root := match parent with None => true | Some _ => false end in
    require (exact_object value ((if root then [B"version"] else []) ++ [B"purpose"; B"coordinator"; B"agents"; B"swarms"]))
      GroupFields ;;
    require (depth <=? TNY_SWARM_MANIFEST_MAX_DEPTH)%nat TooDeep ;;
    let! p := get in
    require (length (groups p) <? TNY_SWARM_MANIFEST_MAX_GROUPS)%nat TooManyGroups ;;
    (if root then
       match jget value B"version" with
       | Some (JNum (JUint n)) => require ((n =? 1) || (n =? 2)) UnknownVersion ;; modify (set_version n)
       | _ => fail UnknownVersion
       end
     else ret tt) ;;
    let! purpose := required (bounded_text (jget value B"purpose") TNY_SWARM_MANIFEST_MAX_PURPOSE_BYTES false)
                      GroupPurpose in
    let! agents := required (jget value B"agents" ≫= elements) GroupArrays in
    let! swarms := required (jget value B"swarms" ≫= elements) GroupArrays in
    require (negb (TNY_SWARM_MANIFEST_MAX_PARTICIPANTS <? length agents)%nat &&
             negb (TNY_SWARM_MANIFEST_MAX_PARTICIPANTS <? length swarms)%nat) GroupArraySizes ;;
    let! p := get in
    let group_index := length (groups p) in
    let! purpose := copy_text purpose in
    let! actor := copy_actor (jget value B"coordinator") (if root then B"root coordinator" else B"coordinator") root in
    let '(name, about, contract) := actor in
    let participant_index := length (participants p) in
    modify (add_group (mk_group purpose name about parent (if root then None else Some participant_index) depth contract)) ;;
    (if root then ret tt
     else
       require (length (participants p) <? capacity)%nat OverCapacity ;;
       allocate_n 2 ;;
       let! copy := contract_copy contract in
       modify (add_participant (mk_participant name about group_index true copy))) ;;
    let! p := get in
    modify (append ((if root then C"{" :: key_text B"version" ++ dec (version p) ++ C"," :: key_text B"purpose"
                     else C"{" :: key_text B"purpose") ++
                    quoted purpose ++ C"," :: key_text B"coordinator" ++ append_actor name about contract (version p) ++
                    C"," :: key_text B"agents" ++ [C"["])) ;;
    read_agents group_index true agents ;;
    modify (append ([C"]"; C","] ++ key_text B"swarms" ++ [C"["])) ;;
    (fix read_swarms (first : bool) (vs : list jval) : M unit :=
       match vs with
       | [] => ret tt
       | v :: vs =>
         modify (append (if first then [] else [C","])) ;;
         parse_group fuel (Some v) (S depth) (Some group_index) ;;
         read_swarms false vs
       end) true swarms ;;
    modify (append [C"]"; C"}"]) ;;
    allocate
  end.

(** ** Dependencies *)

Fixpoint participant_named (ps : list tny_swarm_manifest_participant) (name : bytes) : option nat :=
  match ps with
  | [] => None
  | q :: ps => if str_eq (p_name q) name then Some O else S <$> participant_named ps name
  end.

(** The indices of the names participant [i] depends on. *)
Fixpoint resolve_names (p : manifest_parser) (i : nat) (who : bytes) (names : list bytes) : swarm_error + list nat :=
  match names with
  | [] => inr []
  | name :: names =>
    match participant_named (participants p) name with
    | None =>
      match groups p with
      | root :: _ => if str_eq name (g_coordinator_name root) then inl (DependsOnRoot who name)
                     else inl (UnknownDependency who name)
      | [] => inl (UnknownDependency who name)
      end
    | Some dependency =>
      if (dependency =? i)%nat then inl (DependsOnItself who)
      else match resolve_names p i who names with inl e => inl e | inr ds => inr (dependency :: ds) end
    end
  end.

Definition set_dependencies (ds : list nat) (c : tny_swarm_manifest_contract) : tny_swarm_manifest_contract :=
  mk_contract (deliverable c) (acceptance c) (dependency_names c) ds (workspace_policy c) (workspace_base c)
    (acceptance_declared c) (dependencies_declared c) (workspace_declared c).
Definition set_participant_dependencies (ds : list nat) (q : tny_swarm_manifest_participant) :=
  mk_participant (p_name q) (p_purpose q) (p_group q) (p_coordinator q) (set_dependencies ds (p_contract q)).
Definition set_group_dependencies (ds : list nat) (g : tny_swarm_manifest_group) :=
  mk_group (g_purpose g) (g_coordinator_name g) (g_coordinator_purpose g) (g_parent g) (g_coordinator_participant g)
    (g_depth g) (set_dependencies ds (g_contract g)).

(** Participant after participant, a launched coordinator's group too. *)
Fixpoint resolve_from (p : manifest_parser) (i : nat) (qs : list tny_swarm_manifest_participant)
    (gs : list tny_swarm_manifest_group) :
    swarm_error + list tny_swarm_manifest_participant * list tny_swarm_manifest_group :=
  match qs with
  | [] => inr ([], gs)
  | q :: qs =>
    match resolve_names p i (p_name q) (dependency_names (p_contract q)) with
    | inl e => inl e
    | inr ds =>
      let gs := if p_coordinator q then alter (set_group_dependencies ds) (p_group q) gs else gs in
      match resolve_from p (S i) qs gs with
      | inl e => inl e
      | inr (qs, gs) => inr (set_participant_dependencies ds q :: qs, gs)
      end
    end
  end.

(** One round over the participants from index [i] on. *)
Fixpoint completion_round (ps : list tny_swarm_manifest_participant) (i : nat) (done : list bool) (completed : nat) (progress : bool) :
    list bool * nat * bool :=
  match ps with
  | [] => (done, completed, progress)
  | q :: ps =>
    if nth i done false then completion_round ps (S i) done completed progress
    else if forallb (fun d => nth d done false) (dependencies (p_contract q))
    then completion_round ps (S i) (<[i := true]> done) (S completed) true
    else completion_round ps (S i) done completed progress
  end.

(** The rounds; every one but the last completes a participant, so one more
    than there are participants is enough. *)
Fixpoint completion_loop (fuel : nat) (ps : list tny_swarm_manifest_participant) (done : list bool) (completed : nat) : bool :=
  match fuel with
  | O => false
  | S fuel =>
    if (length ps <=? completed)%nat then true
    else
      let '(done, completed, progress) := completion_round ps 0 done completed false in
      if progress : bool then completion_loop fuel ps done completed else false
  end.

Definition resolve_dependencies : M unit := fun p =>
  match resolve_from p 0 (participants p) (groups p) with
  | inl e => inl e
  | inr (ps, gs) =>
    if completion_loop (S (length ps)) ps (replicate TNY_SWARM_MANIFEST_MAX_PARTICIPANTS false) 0
    then inr (tt, mk_state (version p) gs ps (canonical p) (allocations p))
    else inl DependencyCycle
  end.

(** ** The whole parse; [jparse] is the JSON reader *)

Definition state0 : manifest_parser := mk_state 0 [] [] [] 0.

Definition parse_manifest (root : jval) : M unit :=
  allocate ;;
  parse_group (S (S TNY_SWARM_MANIFEST_MAX_DEPTH)) (Some root) 1 None ;;
  let! p := get in
  require (negb (length (participants p) =? 0)%nat) NoParticipants ;;
  resolve_dependencies ;;
  allocate.

Definition tny_swarm_manifest_parse (jparse : bytes -> Z + jval) (input : option bytes) (out : bool) :
    swarm_error + manifest_parser :=
  if negb out then inl OutputRequired
  else
    match input with
    | None => inl ManifestSize
    | Some s =>
      if (length s =? 0)%nat || (TNY_SWARM_MANIFEST_MAX_BYTES <? length s)%nat then inl ManifestSize
      else if (capacity =? 0)%nat || (TNY_SWARM_MANIFEST_MAX_PARTICIPANTS <? capacity)%nat then inl CapacityRange
      else
        match jparse s with
        | inl pos => inl (InvalidJson pos)
        | inr root => match parse_manifest root state0 with inl e => inl e | inr (_, p) => inr p end
        end
    end.

End parser.

(** ** What a well-formed manifest is *)

Definition text_ok (max : nat) (t : bytes) : Prop :=
  (1 <= length t <= max)%nat /\ ~ In NUL t /\ utf8_valid_bytes (Some t) (length t) = true /\
  exists c, In c t /\ ascii_space c = false.
Definition name_ok (t : bytes) : Prop :=
  text_ok TNY_SWARM_MANIFEST_MAX_NAME_BYTES t /\ Forall (fun c => 32 <= c /\ c <> 127) t /\
  ascii_space (cur t) = false /\ ascii_space (List.last t NUL) = false.
Definition purpose_ok : bytes -> Prop := text_ok TNY_SWARM_MANIFEST_MAX_PURPOSE_BYTES.

(** [root] is whether it belongs to the current session's own coordinator. *)
Record contract_ok (version : Z) (root : bool) (c : tny_swarm_manifest_contract) : Prop := {
  ok_deliverable : forall t, deliverable c = Some t -> text_ok TNY_SWARM_MANIFEST_MAX_DELIVERABLE_BYTES t;
  ok_acceptance : (length (acceptance c) <= TNY_SWARM_MANIFEST_MAX_ACCEPTANCE)%nat /\
    Forall (text_ok TNY_SWARM_MANIFEST_MAX_ACCEPTANCE_BYTES) (acceptance c);
  ok_dependencies : (length (dependency_names c) <= TNY_SWARM_MANIFEST_MAX_DEPENDENCIES)%nat /\
    Forall name_ok (dependency_names c) /\ NoDup (dependency_names c);
  ok_base : forall t, workspace_base c = Some t -> text_ok TNY_SWARM_MANIFEST_MAX_WORKSPACE_BASE t /\
    workspace_policy c = TNY_SWARM_WORKSPACE_ISOLATED;
  ok_root : root = true -> dependency_names c = [] /\ workspace_declared c = false;
  ok_version : version = 1 -> dependency_names c = [] /\ deliverable c = None /\ acceptance c = [] }.

(** Group [i] of the tree: its parent comes before it, one level up, and its
    coordinator is the participant launched for it. *)
Definition group_ok (p : manifest_parser) (i : nat) (g : tny_swarm_manifest_group) : Prop :=
  purpose_ok (g_purpose g) /\ name_ok (g_coordinator_name g) /\ purpose_ok (g_coordinator_purpose g) /\
  contract_ok (version p) (i =? 0)%nat (g_contract g) /\
  match g_parent g with
  | None => i = O /\ g_depth g = 1%nat /\ g_coordinator_participant g = None
  | Some k => (k < i)%nat /\ (g_depth g <= TNY_SWARM_MANIFEST_MAX_DEPTH)%nat /\
      (exists gk, groups p !! k = Some gk /\ g_depth g = S (g_depth gk)) /\
      exists j q, g_coordinator_participant g = Some j /\ participants p !! j = Some q /\
        p_coordinator q = true /\ p_group q = i /\ p_name q = g_coordinator_name g /\
        p_purpose q = g_coordinator_purpose g /\ p_contract q = g_contract g
  end.

Definition participant_ok (p : manifest_parser) (j : nat) (q : tny_swarm_manifest_participant) : Prop :=
  name_ok (p_name q) /\ purpose_ok (p_purpose q) /\ contract_ok (version p) false (p_contract q) /\
  exists g, groups p !! p_group q = Some g /\ (p_coordinator q = true -> g_coordinator_participant g = Some j).

(** The root coordinator, then the participants. *)
Definition all_names (p : manifest_parser) : list bytes :=
  match groups p with [] => [] | g :: _ => [g_coordinator_name g] end ++ map p_name (participants p).

Record well_formed (capacity : nat) (p : manifest_parser) : Prop := {
  wf_version : version p = 1 \/ version p = 2;
  wf_groups : (length (groups p) <= TNY_SWARM_MANIFEST_MAX_GROUPS)%nat;
  wf_participants : (length (participants p) <= capacity)%nat;
  wf_names : NoDup (all_names p);
  wf_group : forall i g, groups p !! i = Some g -> group_ok p i g;
  wf_participant : forall j q, participants p !! j = Some q -> participant_ok p j q }.

(** ** Lemmas: the readers *)

Lemma bounded_text_ok v max name t :
  bounded_text v max name = Some t -> text_ok max t /\ (name = true -> max = TNY_SWARM_MANIFEST_MAX_NAME_BYTES -> name_ok t).
Proof.
  unfold bounded_text. destruct v as [[| | |s| |]|]; try done.
  destruct (_ || negb _) eqn:E1; [done|]. destruct (name && existsb _ _) eqn:E2; [done|].
  destruct (name && (_ || _)) eqn:E3; [done|]. 
  destruct (existsb (fun c => negb (ascii_space c)) s) eqn:E4; [|done]. intros [= <-]. boolify.
  apply Nat.eqb_neq in H. apply Nat.ltb_ge in H2. apply existsb_exists in E4 as (c & Hc & Ec).
  assert (text_ok max s) as Ht.
  { split; [lia|]. split; [by rewrite <- mem_byte_true, H1|]. split; [done|]. exists c. split; [done|]. by apply negb_true_iff. }
  split; [done|]. intros -> ->. cbn [andb] in *. split; [done|]. apply orb_false_iff in E3. split; [|done].
  apply Forall_forall. intros x Hx. destruct (existsb_exists (fun c => (c <? 32) || (c =? 127)) s) as [_ He].
  destruct ((x <? 32) || (x =? 127)) eqn:Ex; [|lia]. rewrite He in E2 by (by exists x). done.
Qed.

(** [m] may fail; if it does not, its result and state satisfy [Q]. *)
Definition ensures {A} (m : M A) (p : manifest_parser) (Q : A -> manifest_parser -> Prop) : Prop :=
  match m p with inl _ => True | inr (a, p') => Q a p' end.

(** Only the allocation count, and perhaps the text, differ. *)
Definition same (p p' : manifest_parser) : Prop :=
  version p' = version p /\ groups p' = groups p /\ participants p' = participants p.

Lemma same_trans p1 p2 p3 : same p1 p2 -> same p2 p3 -> same p1 p3.
Proof. unfold same. intuition congruence. Qed.

(** The parser's steps, each followed by the rest. *)
Lemma ensures_bind {A R} (m : M A) (f : A -> M R) p Q :
  ensures m p (fun a p' => ensures (f a) p' Q) -> ensures (bind m f) p Q.
Proof. unfold ensures, bind. by destruct (m p) as [e|[a p']]. Qed.

Lemma ensures_mono {A} (m : M A) p (P Q : A -> manifest_parser -> Prop) :
  ensures m p P -> (forall a p', P a p' -> Q a p') -> ensures m p Q.
Proof. unfold ensures. destruct (m p) as [e|[a p']]; auto. Qed.

Lemma step_ret {A} (a : A) p (Q : A -> manifest_parser -> Prop) : Q a p -> ensures (ret a) p Q.
Proof. done. Qed.
Lemma step_fail {A} e p (Q : A -> manifest_parser -> Prop) : ensures (fail e) p Q.
Proof. done. Qed.
Lemma step_require {R} b e (f : unit -> M R) p Q :
  (b = true -> ensures (f tt) p Q) -> ensures (bind (require b e) f) p Q.
Proof. intros H. destruct b; cbn; [by apply H|done]. Qed.
Lemma step_required {A R} (o : option A) e (f : A -> M R) p Q :
  (forall a, o = Some a -> ensures (f a) p Q) -> ensures (bind (required o e) f) p Q.
Proof. intros H. destruct o; cbn; [by apply H|done]. Qed.
Lemma step_get {R} (f : manifest_parser -> M R) p Q : ensures (f p) p Q -> ensures (bind get f) p Q.
Proof. done. Qed.
Lemma step_modify {R} g (f : unit -> M R) p Q : ensures (f tt) (g p) Q -> ensures (bind (modify g) f) p Q.
Proof. done. Qed.

Section reading.
Context (mem : nat -> bool).

Lemma step_allocate p (Q : unit -> manifest_parser -> Prop) :
  (forall p', same p p' -> Q tt p') -> ensures (allocate mem) p Q.
Proof. intros H. unfold ensures, allocate. destruct (mem _); [|done]. by apply H. Qed.

Lemma step_allocate_n n p (Q : unit -> manifest_parser -> Prop) :
  (forall p', same p p' -> Q tt p') -> ensures (allocate_n mem n) p Q.
Proof.
  revert p. induction n as [|n IH]; intros p H; [by apply H|]. cbn [allocate_n].
  apply ensures_bind, step_allocate. intros p' Hs. apply IH. intros p2 Hs2. apply H. by eapply same_trans.
Qed.

Lemma step_copy {R} t (f : bytes -> M R) p Q :
  (forall p', same p p' -> ensures (f t) p' Q) -> ensures (bind (copy_text mem t) f) p Q.
Proof. intros H. apply ensures_bind, ensures_bind, step_allocate. intros p' Hs. by apply H. Qed.

Lemma read_acceptance_ok kind vs p :
  ensures (read_acceptance mem kind vs) p (fun ts p' => same p p' /\ length ts = length vs /\
    Forall (text_ok TNY_SWARM_MANIFEST_MAX_ACCEPTANCE_BYTES) ts).
Proof.
  revert p. induction vs as [|v vs IH]; intros p; cbn [read_acceptance]; [by apply step_ret|].
  apply step_required. intros t Ht. apply step_copy. intros p1 H1.
  apply ensures_bind. eapply ensures_mono; [apply IH|]. intros ts p2 (H2 & Hl & Hts). apply step_ret.
  split; [by eapply same_trans|]. cbn [length]. split; [by f_equal|]. constructor; [|done].
  by apply bounded_text_ok in Ht as [? _].
Qed.

Lemma read_dependencies_ok kind seen vs p :
  Forall name_ok seen -> NoDup seen ->
  ensures (read_dependencies mem kind seen vs) p (fun ts p' => same p p' /\ length ts = (length seen + length vs)%nat /\
    Forall name_ok ts /\ NoDup ts).
Proof.
  revert seen p. induction vs as [|v vs IH]; intros seen p Hs Hn; cbn [read_dependencies].
  - apply step_ret. cbn [length]. by rewrite Nat.add_0_r.
  - apply step_required. intros t Ht. apply step_require. intros Hd. apply step_copy. intros p1 H1.
    eapply ensures_mono; [apply IH|].
    + apply Forall_app. split; [done|]. constructor; [|done]. by apply bounded_text_ok in Ht as [_ ?]; auto.
    + apply list.NoDup_app. split; [done|]. split; [|apply list.NoDup_singleton]. intros x Hx ->%list_elem_of_singleton.
      apply negb_true_iff, not_true_iff_false in Hd. apply Hd, str_in_true. by apply list_elem_of_In.
    + intros ts p2 (H2 & Hl & H). rewrite length_app in Hl. cbn [length] in *. split; [by eapply same_trans|].
      split; [lia|done].
Qed.

Lemma read_workspace_ok kind w p :
  ensures (read_workspace mem kind w) p (fun '(policy, base) p' => same p p' /\
    forall t, base = Some t -> text_ok TNY_SWARM_MANIFEST_MAX_WORKSPACE_BASE t /\ policy = TNY_SWARM_WORKSPACE_ISOLATED).
Proof.
  unfold read_workspace. apply step_require. intros _. apply step_required. intros policy _.
  destruct (_ || _); [apply step_require; intros _; by apply step_ret|]. destruct (str_eq policy _); [|apply step_fail].
  destruct (jget (Some w) _) as [b|]; [|by apply step_ret]. apply step_required. intros t Ht. apply step_copy. intros p1 H1.
  apply step_ret. split; [done|]. intros t' [= <-]. split; [|done]. by apply bounded_text_ok in Ht as [? _].
Qed.

Lemma parse_contract_ok value kind root p :
  ensures (parse_contract mem value kind root) p (fun c p' => same p p' /\ contract_ok 2 root c /\ dependencies c = []).
Proof.
  unfold parse_contract.
  apply ensures_bind. eapply ensures_mono with (P := fun d p' => same p p' /\
    forall t, d = Some t -> text_ok TNY_SWARM_MANIFEST_MAX_DELIVERABLE_BYTES t).
  { destruct (jget value _) as [d|]; [|by apply step_ret]. apply step_required. intros t Ht. apply step_copy. intros p1 H1.
    apply step_ret. split; [done|]. intros t' [= <-]. by apply bounded_text_ok in Ht as [? _]. }
  intros del p1 [H1 Hdel]. apply ensures_bind. eapply ensures_mono with (P := fun a p' => same p1 p' /\
    (length (default [] a) <= TNY_SWARM_MANIFEST_MAX_ACCEPTANCE)%nat /\
    Forall (text_ok TNY_SWARM_MANIFEST_MAX_ACCEPTANCE_BYTES) (default [] a)).
  { destruct (jget value _) as [a|]; [|apply step_ret; split_and!; [done|cbn; lia|constructor]].
    apply step_required. intros vs _. apply step_require. intros Hn. apply ensures_bind.
    eapply ensures_mono; [apply read_acceptance_ok|]. intros ts p2 (H2 & Hl & Hts). apply step_ret.
    change (default [] (Some ts)) with ts. split_and!; [done| |done]. boolify. apply Nat.ltb_ge in H0. lia. }
  intros acc p2 (H2 & Hacc). apply step_require. intros Hroot. apply ensures_bind.
  eapply ensures_mono with (P := fun d p' => same p2 p' /\ (length (default [] d) <= TNY_SWARM_MANIFEST_MAX_DEPENDENCIES)%nat /\
    Forall name_ok (default [] d) /\ NoDup (default [] d) /\ (root = true -> d = None)).
  { destruct (jget value B"depends_on") as [d|].
    - apply step_required. intros vs _. apply step_require. intros Hn. apply ensures_bind.
      eapply ensures_mono; [apply read_dependencies_ok; constructor|]. intros ts p3 (H3 & Hl & Hts). apply step_ret.
      change (default [] (Some ts)) with ts. cbn [length] in Hl. split; [done|]. split; [boolify; apply Nat.ltb_ge in Hn; lia|]. split_and!; try apply Hts.
      intros ->. done.
    - apply step_ret. cbn. split_and!; [done|lia|constructor|constructor|done]. }
  intros deps p3 (H3 & Hd1 & Hd2 & Hd3 & Hd4). apply ensures_bind.
  eapply ensures_mono with (P := fun w p' => same p3 p' /\ (root = true -> w = None) /\
    forall policy t, w = Some (policy, Some t) -> text_ok TNY_SWARM_MANIFEST_MAX_WORKSPACE_BASE t /\
      policy = TNY_SWARM_WORKSPACE_ISOLATED).
  { destruct (jget value B"workspace") as [w|]; [|by apply step_ret]. apply ensures_bind.
    eapply ensures_mono; [apply read_workspace_ok|]. intros [policy base] p4 [H4 Hb]. apply step_ret. split; [done|].
    split; [intros ->; by rewrite orb_true_r in Hroot|]. intros pol t [= <- ->]. by apply Hb. }
  intros ws p4 (H4 & Hw1 & Hw2).
  assert (Hsame : same p p4) by (do 3 (eapply same_trans; [eassumption|]); done).
  assert (exists policy base, default (TNY_SWARM_WORKSPACE_SHARED_WRITABLE, None) ws = (policy, base) /\
    forall t, base = Some t -> text_ok TNY_SWARM_MANIFEST_MAX_WORKSPACE_BASE t /\ policy = TNY_SWARM_WORKSPACE_ISOLATED)
    as (policy & base & -> & Hb).
  { destruct ws as [[policy base]|]; cbn [default]; [|by exists TNY_SWARM_WORKSPACE_SHARED_WRITABLE, None].
    exists policy, base. split; [done|]. intros t ->. by apply Hw2. }
  apply step_ret. split; [done|]. split; [|done]. split; cbn; try done.
  intros Hr. rewrite (Hd4 Hr), (Hw1 Hr). done.
Qed.

(** An actor whose name is new. *)
Definition actor_ok (p : manifest_parser) (root : bool) (name purpose : bytes) (c : tny_swarm_manifest_contract) : Prop :=
  name_ok name /\ purpose_ok purpose /\ contract_ok (version p) root c /\ dependencies c = [] /\ name_used p name = false.

Lemma copy_actor_ok value kind root p :
  version p = 1 \/ version p = 2 ->
  ensures (copy_actor mem value kind root) p (fun '(name, purpose, c) p' => same p p' /\ actor_ok p root name purpose c).
Proof.
  intros Hv. unfold copy_actor. apply step_get. apply ensures_bind. eapply ensures_mono with (P := fun _ p' => p' = p).
  { destruct (version p =? 1); [unfold require; by destruct (exact_object _ _)|].
    destruct (closed_object _ _ _); [done|]. by destruct (root && _). }
  intros _ p' ->. apply step_required. intros name Hn. apply step_required. intros purpose Hp.
  apply step_require. intros Hu. apply step_copy. intros p1 H1. apply step_copy. intros p2 H2. apply ensures_bind.
  eapply ensures_mono with (P := fun c p' => same p2 p' /\ contract_ok (version p) root c /\ dependencies c = []).
  { destruct Hv as [Hv|Hv]; rewrite Hv; cbn [Z.eqb Pos.eqb].
    - apply step_ret. split; [done|]. split; [|done]. split; cbn; try done; split_and!; (lia || constructor).
    - apply parse_contract_ok. }
  intros c p3 (H3 & Hc & Hd). apply step_ret. split; [do 2 (eapply same_trans; [eassumption|]); done|].
  apply bounded_text_ok in Hn as [_ Hn]. apply bounded_text_ok in Hp as [Hp _]. apply negb_true_iff in Hu.
  split_and!; auto.
Qed.

End reading.

(** ** Lemmas: the manifest grows well-formed *)

Definition extends (p p' : manifest_parser) : Prop :=
  version p' = version p /\ (exists gs, groups p' = groups p ++ gs) /\ (exists qs, participants p' = participants p ++ qs).

Lemma extends_refl p : extends p p.
Proof. split; [done|]. by split; exists []; rewrite app_nil_r. Qed.

Lemma extends_trans p1 p2 p3 : extends p1 p2 -> extends p2 p3 -> extends p1 p3.
Proof.
  intros (V1 & (g1 & G1) & q1 & Q1) (V2 & (g2 & G2) & q2 & Q2). split; [congruence|].
  split; [exists (g1 ++ g2); by rewrite G2, G1, app_assoc|exists (q1 ++ q2); by rewrite Q2, Q1, app_assoc].
Qed.

Lemma same_extends p p' : same p p' -> extends p p'.
Proof. intros (V & G & Q). split; [done|]. by split; exists []; rewrite app_nil_r. Qed.

Lemma extends_group p p' i g : extends p p' -> groups p !! i = Some g -> groups p' !! i = Some g.
Proof. intros (_ & (gs & ->) & _) H. by apply lookup_app_l_Some. Qed.

Lemma extends_participant p p' j q : extends p p' -> participants p !! j = Some q -> participants p' !! j = Some q.
Proof. intros (_ & _ & qs & ->) H. by apply lookup_app_l_Some. Qed.

Lemma group_ok_mono p p' i g : extends p p' -> group_ok p i g -> group_ok p' i g.
Proof.
  intros He (H1 & H2 & H3 & H4 & H5). unfold group_ok. rewrite (proj1 He). split_and!; try done.
  destruct (g_parent g) as [k|]; [|done]. destruct H5 as (Hk & Hd & (gk & Hgk & Hdk) & j & q & Hj & Hq & H).
  split_and!; try done; [exists gk; split; [by eapply extends_group|done]|].
  exists j, q. split_and!; try apply H; [done|by eapply extends_participant].
Qed.

Lemma participant_ok_mono p p' j q : extends p p' -> participant_ok p j q -> participant_ok p' j q.
Proof.
  intros He (H1 & H2 & H3 & g & Hg & H4). unfold participant_ok. rewrite (proj1 He). split_and!; try done.
  exists g. split; [by eapply extends_group|done].
Qed.

Lemma wf_same cap p p' : same p p' -> well_formed cap p -> well_formed cap p'.
Proof.
  intros Hs H. pose proof (same_extends _ _ Hs) as He. destruct Hs as (V & G & Q).
  split; rewrite ?V, ?G, ?Q; try apply H.
  - unfold all_names. rewrite G, Q. apply H.
  - intros i g Hg. apply (group_ok_mono p); [done|]. by apply H.
  - intros j q Hq. apply (participant_ok_mono p); [done|]. by apply H.
Qed.

Lemma wf_append cap p t : well_formed cap p -> well_formed cap (append t p).
Proof. by apply wf_same. Qed.

Lemma fresh_name p n : name_used p n = false -> ~ In n (all_names p).
Proof.
  unfold name_used, all_names. intros [H1 H2]%orb_false_iff. rewrite in_app_iff. intros [H|H].
  - destruct (groups p) as [|g gs]; [done|]. destruct H as [<-|[]]. cbn [existsb] in H1. by rewrite str_eq_refl in H1.
  - apply in_map_iff in H as (q & <- & Hq). apply not_true_iff_false in H2. apply H2, existsb_exists.
    exists q. split; [done|apply str_eq_refl].
Qed.

Lemma NoDup_snoc (l : list bytes) x : NoDup l -> ~ In x l -> NoDup (l ++ [x]).
Proof.
  intros H Hx. apply list.NoDup_app. split; [done|]. split; [|apply list.NoDup_singleton].
  intros y Hy ->%list_elem_of_singleton. by apply Hx, list_elem_of_In.
Qed.

Lemma lookup_snoc_inv {A} (l : list A) a i x :
  (l ++ [a]) !! i = Some x -> l !! i = Some x \/ (i = length l /\ x = a).
Proof.
  intros [H|[Hl H]]%lookup_app_Some; [by left|]. right. apply list_lookup_singleton_Some in H as [? <-]. split; [lia|done].
Qed.

Lemma wf_add_root cap p gp n pu c :
  well_formed cap p -> groups p = [] -> participants p = [] -> purpose_ok gp -> actor_ok p true n pu c ->
  well_formed cap (add_group (mk_group gp n pu None None 1 c) p).
Proof.
  intros H Hg Hp Hgp (Hn & Hpu & Hc & _). split; cbn; rewrite ?Hg, ?Hp; try apply H; cbn.
  - unfold TNY_SWARM_MANIFEST_MAX_GROUPS. lia.
  - lia.
  - unfold all_names. cbn. rewrite ?Hg, ?Hp. apply list.NoDup_singleton.
  - intros [|i] g; [|done]. intros [= <-]. by split_and!.
  - done.
Qed.

Lemma wf_add_participant cap p n pu i c :
  well_formed cap p -> (i < length (groups p))%nat -> (length (participants p) < cap)%nat -> actor_ok p false n pu c ->
  well_formed cap (add_participant (mk_participant n pu i false c) p) /\
  extends p (add_participant (mk_participant n pu i false c) p).
Proof.
  intros H Hi Hcap (Hn & Hpu & Hc & _ & Hu). set (p' := add_participant _ p).
  assert (He : extends p p') by (split; [done|]; split; [exists []; by rewrite app_nil_r|by eexists]). split; [|done].
  split; try apply H.
  - unfold p'. cbn. rewrite length_app. cbn. lia.
  - unfold all_names, p'. cbn. rewrite map_app, app_assoc. apply NoDup_snoc; [apply H|]. by apply fresh_name.
  - intros k g Hg. apply (group_ok_mono p); [done|]. by apply H.
  - intros j q [Hq|[-> ->]]%lookup_snoc_inv; [apply (participant_ok_mono p); [done|by apply H]|].
    split_and!; try done. destruct (lookup_lt_is_Some_2 (groups p) i Hi) as [g Hg]. exists g. split; [|done]. exact Hg.
Qed.

Lemma wf_add_group cap p gp n pu c k gk :
  well_formed cap p -> groups p !! k = Some gk -> (S (g_depth gk) <= TNY_SWARM_MANIFEST_MAX_DEPTH)%nat ->
  (length (groups p) < TNY_SWARM_MANIFEST_MAX_GROUPS)%nat -> (length (participants p) < cap)%nat ->
  purpose_ok gp -> actor_ok p false n pu c ->
  let g := mk_group gp n pu (Some k) (Some (length (participants p))) (S (g_depth gk)) c in
  let p' := add_participant (mk_participant n pu (length (groups p)) true c) (add_group g p) in
  well_formed cap p' /\ extends p p'.
Proof.
  intros H Hk Hd Hg Hcap Hgp (Hn & Hpu & Hc & _ & Hu) g p'.
  assert (He : extends p p') by (split; [done|]; split; by eexists). split; [|done].
  pose proof (lookup_lt_Some _ _ _ Hk) as Hlt. split; try apply H.
  - unfold p'. cbn. rewrite length_app. cbn. lia.
  - unfold p'. cbn. rewrite length_app. cbn. lia.
  - pose proof (fresh_name p n Hu) as Hfresh. pose proof (wf_names cap p H) as Hnd. unfold all_names, p' in *. cbn in *.
    destruct (groups p) as [|g0 gs]; [cbn in Hlt; lia|]. cbn [app] in *. rewrite map_app. cbn [map].
    rewrite app_comm_cons. by apply NoDup_snoc.
  - intros i g' [Hg'|[-> ->]]%lookup_snoc_inv; [apply (group_ok_mono p); [done|by apply H]|]. split_and!; try done.
    + cbn. destruct (Nat.eqb_spec (length (groups p)) 0); [lia|done].
    + cbn. split_and!; [done|done|exists gk; split; [by apply lookup_app_l_Some|done]|].
      exists (length (participants p)), (mk_participant n pu (length (groups p)) true c). split_and!; try done.
      unfold p'. cbn. by rewrite lookup_app_r, Nat.sub_diag by done.
  - intros j q [Hq|[-> ->]]%lookup_snoc_inv; [apply (participant_ok_mono p); [done|by apply H]|]. split_and!; try done.
    exists g. unfold p'. cbn. by rewrite lookup_app_r, Nat.sub_diag by done.
Qed.

Section groups.
Context (mem : nat -> bool) (capacity : nat).

Lemma actor_ok_same p p' root n pu c : same p p' -> actor_ok p root n pu c -> actor_ok p' root n pu c.
Proof.
  intros (V & G & Q) (H1 & H2 & H3 & H4 & H5). unfold actor_ok, name_used in *. rewrite V, G, Q. by split_and!.
Qed.

Lemma read_agents_ok i first vs p :
  well_formed capacity p -> (i < length (groups p))%nat ->
  ensures (read_agents mem capacity i first vs) p (fun _ p' => well_formed capacity p' /\ extends p p').
Proof.
  revert first p. induction vs as [|v vs IH]; intros first p H Hi; cbn [read_agents].
  - apply step_ret. split; [done|apply extends_refl].
  - apply step_get, step_require. intros Hcap. apply Nat.ltb_lt in Hcap. apply ensures_bind.
    eapply ensures_mono; [apply copy_actor_ok, H|]. intros [[n pu] c] p1 [Hs Ha]. apply step_modify, step_modify.
    pose proof Hs as (_ & G & Q).
    destruct (wf_add_participant capacity p1 n pu i c) as [Hw He]; [by eapply wf_same|by rewrite G|by rewrite Q|by eapply actor_ok_same|].
    eapply ensures_mono; [apply IH|].
    + by apply wf_append.
    + cbn. by rewrite G.
    + intros _ p2 [Hw2 He2]. split; [done|]. eapply extends_trans; [by apply same_extends|]. eapply extends_trans; [exact He|exact He2].
Qed.

(** The state a nested group starts from, and a root. *)
Definition nests (p : manifest_parser) (depth : nat) (parent : option nat) : Prop :=
  match parent with
  | None => groups p = [] /\ participants p = [] /\ depth = 1%nat
  | Some k => well_formed capacity p /\ exists gk, groups p !! k = Some gk /\ depth = S (g_depth gk)
  end.

Lemma nests_extends p p' depth k : well_formed capacity p' -> extends p p' -> nests p depth (Some k) -> nests p' depth (Some k).
Proof. intros Hw He (_ & gk & Hk & Hd). split; [done|]. exists gk. split; [by eapply extends_group|done]. Qed.

(** The group record just added is found at its index. *)
Lemma parse_group_ok fuel value depth parent p :
  nests p depth parent ->
  ensures (parse_group mem capacity fuel value depth parent) p
    (fun _ p' => well_formed capacity p' /\ (parent <> None -> extends p p') /\ groups p' <> []).
Proof.
  revert value depth parent p. induction fuel as [|fuel IH]; intros value depth parent p Hn; [done|]. cbn [parse_group].
  apply step_require. intros _. apply step_require. intros Hdepth. apply Nat.leb_le in Hdepth.
  apply step_get, step_require. intros Hgroups. apply Nat.ltb_lt in Hgroups.
  apply ensures_bind. eapply ensures_mono with (P := fun _ p' => well_formed capacity p' /\
    groups p' = groups p /\ participants p' = participants p /\ (parent <> None -> p' = p)).
  { destruct parent as [k|]; [split_and!; try done; apply Hn|]. destruct Hn as (Hg & Hp & _).
    destruct (jget value _) as [[| |[v| |]| | |]|]; try apply step_fail. apply step_require. intros Hv.
    unfold ensures, modify. split_and!; [|done..]. split; cbn; rewrite ?Hg, ?Hp; cbn; try lia; try done.
    unfold all_names. cbn. rewrite ?Hg, ?Hp. apply base.NoDup_nil_2. }
  intros _ p0 (Hw0 & Hg0 & Hp0 & Hsame0). apply step_required. intros gp Hgp. apply bounded_text_ok in Hgp as [Hgp _].
  apply step_required. intros agents _. apply step_required. intros swarms _. apply step_require. intros _.
  apply step_get, step_copy. intros p1 H1. apply ensures_bind.
  eapply ensures_mono; [apply copy_actor_ok; destruct H1 as (-> & _); apply Hw0|]. intros [[n pu] c] p2 [H2 Ha].
  assert (Hs2 : same p0 p2) by by eapply same_trans. pose proof Hs2 as (V2 & G2 & Q2).
  pose proof (wf_same _ _ _ Hs2 Hw0) as Hw2. apply step_modify. set (gi := length (groups p0)).
  set (g := mk_group _ _ _ _ _ _ _).
  apply ensures_bind. eapply ensures_mono with (P := fun _ p' => well_formed capacity p' /\
    (parent <> None -> extends p p') /\ groups p' !! gi = Some g).
  { destruct parent as [k|].
    - apply step_require. intros Hcap. apply Nat.ltb_lt in Hcap. apply ensures_bind, step_allocate_n. intros p3 H3.
      apply ensures_bind. unfold contract_copy. apply ensures_bind, step_allocate_n. intros p4 H4. apply step_ret.
      pose proof (Hsame0 ltac:(done)) as E0. clear Hsame0. subst p0. destruct Hn as (_ & gk & Hk & Hd).
      destruct (wf_add_group capacity p2 gp n pu c k gk) as [Hw He]; try done.
      + by rewrite G2.
      + by rewrite <- Hd.
      + by rewrite G2.
      + by rewrite Q2.
      + exact (actor_ok_same _ _ _ _ _ _ H2 Ha).
      + assert (Hs34 : same (add_group g p2) p4) by by eapply same_trans.
        set (q := mk_participant n pu gi true c).
        assert (Hadd : same (add_participant q (add_group g p2)) (add_participant q p4)).
        { destruct Hs34 as (V & G & Q). unfold same. cbn. by rewrite V, G, Q. }
        assert (Eg : mk_group gp n pu (Some k) (Some (length (participants p2))) (S (g_depth gk)) c = g)
          by (unfold g; by rewrite Q2, Hd).
        assert (Eq : mk_participant n pu (length (groups p2)) true c = q) by (unfold q, gi; by rewrite G2).
        rewrite Eg, Eq in Hw, He.
        assert (Hfin : well_formed capacity (add_participant q p4) /\ extends p (add_participant q p4)).
        { split; [by eapply wf_same|]. eapply extends_trans; [by apply same_extends|]. eapply extends_trans; [exact He|].
          by apply same_extends. }
        unfold ensures, modify. split_and!; [apply Hfin|intros _; apply Hfin|].
        destruct Hs34 as (_ & G & _). cbn. rewrite G. cbn. rewrite G2. unfold gi. by rewrite lookup_app_r, Nat.sub_diag by done.
    - destruct Hn as (Hg & Hp & ->). apply step_ret. split; [|split; [done|]].
      + unfold g. apply wf_add_root; try done; [by rewrite G2, Hg0|by rewrite Q2, Hp0|exact (actor_ok_same _ _ _ _ _ _ H2 Ha)].
      + cbn. rewrite G2. unfold gi. by rewrite lookup_app_r, Nat.sub_diag by done. }
  intros _ p3 (Hw3 & He3 & Hgi). apply step_get, step_modify. apply ensures_bind.
  eapply ensures_mono; [apply read_agents_ok; [by apply wf_append|by apply lookup_lt_Some in Hgi]|].
  intros _ p4 [Hw4 He4]. apply step_modify.
  set (p5 := append _ p4). assert (Hw5 : well_formed capacity p5) by by apply wf_append.
  assert (He5 : extends p3 p5).
  { eapply extends_trans; [|by apply same_extends]. eapply extends_trans; [by apply same_extends|exact He4]. }
  clearbody p5. clear p4 Hw4 He4.
  assert (Hdg : g_depth g = depth) by done.
  apply ensures_bind. eapply ensures_mono with (P := fun _ p' => well_formed capacity p' /\ extends p3 p').
  { generalize true as first. revert p5 Hw5 He5.
    induction swarms as [|v vs IHv]; intros p5 Hw5 He5 first; [by apply step_ret|].
    apply step_modify, ensures_bind. eapply ensures_mono; [apply (IH (Some v) (S depth) (Some gi))|].
    - split; [by apply wf_append|]. exists g. split; [by apply (extends_group p3 p5)|by rewrite Hdg].
    - intros _ p6 (Hw6 & He6 & _). apply IHv; [done|]. eapply extends_trans; [exact He5|].
      eapply extends_trans; [by apply same_extends|by apply He6]. }
  intros _ p6 [Hw6 He6]. apply step_modify, step_allocate. intros p7 H7.
  assert (Hs7 : same p6 p7) by exact H7. split; [by eapply wf_same|]. split.
  - intros Hpar. eapply extends_trans; [by apply He3|]. eapply extends_trans; [exact He6|by apply same_extends].
  - destruct Hs7 as (_ & -> & _). intros E. apply (extends_group _ _ _ _ He6) in Hgi. by rewrite E in Hgi.
Qed.

End groups.

(** ** Lemmas: dependencies *)

(** A launch order: everyone, each after all it depends on. *)
Definition launch_order (n : nat) (depends : nat -> nat -> Prop) (order : list nat) : Prop :=
  Permutation order (seq 0 n) /\ forall a i b, order = a ++ i :: b -> forall j, depends i j -> In j a.

Section completion.
Context (ps : list tny_swarm_manifest_participant).

Definition needs (i j : nat) : Prop := exists q, ps !! i = Some q /\ In j (dependencies (p_contract q)).

(** What the loop has established when [order] is completed. *)
Record completed_so_far (done : list bool) (completed : nat) (order : list nat) : Prop := {
  so_nodup : NoDup order;
  so_count : completed = length order;
  so_done : forall i, nth i done false = true <-> In i order;
  so_range : Forall (fun i => (i < length ps)%nat) order;
  so_order : forall a i b, order = a ++ i :: b -> forall j, needs i j -> In j a }.

Lemma snoc_split {A} (l a b : list A) x y : l ++ [x] = a ++ y :: b -> (b = [] /\ a = l /\ y = x) \/ exists b', b = b' ++ [x] /\ l = a ++ y :: b'.
Proof.
  destruct b as [|z b] using rev_ind; intros E.
  - left. apply app_inj_tail in E as [-> ->]. done.
  - right. exists b. rewrite app_comm_cons, app_assoc in E. by apply app_inj_tail in E as [-> ->].
Qed.

Lemma complete_one done completed order i q :
  completed_so_far done completed order -> (i < length done)%nat -> ps !! i = Some q -> nth i done false = false ->
  forallb (fun d => nth d done false) (dependencies (p_contract q)) = true ->
  completed_so_far (<[i := true]> done) (S completed) (order ++ [i]).
Proof.
  intros H Hi Hq Hn Hready.
  assert (Hni : ~ In i order) by (rewrite <- (so_done _ _ _ H), Hn; done). split.
  - apply list.NoDup_app. split; [apply H|]. split; [|apply list.NoDup_singleton].
    intros x Hx ->%list_elem_of_singleton. by apply Hni, list_elem_of_In.
  - rewrite length_app, (so_count _ _ _ H). cbn. lia.
  - intros j. rewrite in_app_iff. cbn [In]. rewrite <- (so_done _ _ _ H). destruct (Nat.eq_dec j i) as [->|Hne].
    + rewrite nth_lookup, list_lookup_insert_eq by done. cbn. tauto.
    + rewrite !nth_lookup, list_lookup_insert_ne by done. intuition.
  - apply Forall_app. split; [apply H|]. constructor; [by apply lookup_lt_Some in Hq|constructor].
  - intros a k b E j Hj. apply snoc_split in E as [(-> & -> & ->)|(b' & -> & ->)].
    + destruct Hj as (q' & Hq' & Hin). rewrite Hq in Hq'. injection Hq' as <-. rewrite forallb_forall in Hready.
      apply (so_done _ _ _ H), Hready, Hin.
    + by eapply (so_order _ _ _ H).
Qed.

Lemma completion_round_spec rest i done completed progress order :
  (forall k q, rest !! k = Some q -> ps !! (i + k)%nat = Some q) -> (i + length rest <= length done)%nat ->
  completed_so_far done completed order ->
  let '(done', completed', progress') := completion_round rest i done completed progress in
  length done' = length done /\ exists order', completed_so_far done' completed' order' /\
    (progress = true -> progress' = true) /\
    (progress' = true -> progress = true \/ (completed < completed')%nat) /\ (completed <= completed')%nat /\
    (progress' = false -> done' = done /\ completed' = completed /\
      forall k q, rest !! k = Some q -> nth (i + k) done false = false ->
        forallb (fun d => nth d done false) (dependencies (p_contract q)) = false).
Proof.
  revert i done completed progress order. induction rest as [|q rest IH]; intros i done completed progress order Hps Hl H;
    cbn [completion_round length] in *.
  { split; [done|]. exists order. split_and!; try done; auto. }
  assert (Hps' : forall k q', rest !! k = Some q' -> ps !! (S i + k)%nat = Some q').
  { intros k q' Hk. replace (S i + k)%nat with (i + S k)%nat by lia. by apply Hps. }
  pose proof (Hps O q eq_refl) as Hq. rewrite Nat.add_0_r in Hq. assert (Hid : (i < length done)%nat) by lia.
  destruct (nth i done false) eqn:Hn.
  - specialize (IH (S i) done completed progress order Hps' ltac:(lia) H).
    destruct (completion_round rest (S i) done completed progress) as [[done' completed'] progress'].
    destruct IH as (Hld & order' & H' & H1 & H2 & H3 & H4). split; [done|]. exists order'. split_and!; try done.
    intros Hp. destruct (H4 Hp) as (-> & -> & H5). split_and!; try done. intros [|k] q' Hk Hnk; [by rewrite Nat.add_0_r, Hn in Hnk|].
    apply (H5 k); [done|]. by replace (S i + k)%nat with (i + S k)%nat by lia.
  - destruct (forallb _ _) eqn:Hr.
    + specialize (IH (S i) (<[i:=true]> done) (S completed) true (order ++ [i]) Hps' ltac:(rewrite length_insert; lia)
        (complete_one _ _ _ _ _ H Hid Hq Hn Hr)).
      destruct (completion_round rest (S i) _ _ true) as [[done' completed'] progress'].
      destruct IH as (Hld & order' & H' & H1 & H2 & H3 & H4). rewrite length_insert in Hld. split; [done|]. exists order'.
      specialize (H1 eq_refl). subst progress'. split_and!; try done; [intros _; right; lia|lia].
    + specialize (IH (S i) done completed progress order Hps' ltac:(lia) H).
      destruct (completion_round rest (S i) done completed progress) as [[done' completed'] progress'].
      destruct IH as (Hld & order' & H' & H1 & H2 & H3 & H4). split; [done|]. exists order'. split_and!; try done.
      intros Hp. destruct (H4 Hp) as (-> & -> & H5). split_and!; try done.
      intros [|k] q' Hk Hnk; [by injection Hk as <-|]. apply (H5 k); [done|]. by replace (S i + k)%nat with (i + S k)%nat by lia.
Qed.

Lemma all_completed done completed order :
  completed_so_far done completed order -> (length ps <= completed)%nat -> Permutation order (seq 0 (length ps)).
Proof.
  intros H Hl. apply NoDup_Permutation_bis.
  - apply NoDup_ListNoDup, H.
  - rewrite length_seq, <- (so_count _ _ _ H). done.
  - intros x Hx. apply in_seq. pose proof (so_range _ _ _ H) as Hr. rewrite Forall_forall in Hr. specialize (Hr x Hx). lia.
Qed.

(** When nobody left is ready there is no launch order. *)
Lemma stuck_no_order done completed order :
  completed_so_far done completed order -> (completed < length ps)%nat ->
  (forall k q, ps !! k = Some q -> nth k done false = false ->
    forallb (fun d => nth d done false) (dependencies (p_contract q)) = false) ->
  ~ exists t, launch_order (length ps) needs t.
Proof.
  intros H Hc Hstuck (t & Hperm & Ht).
  assert (Hall : forall a, (exists b, t = a ++ b) -> forall i, In i a -> nth i done false = true).
  { induction a as [|x a IH] using rev_ind; intros [b E] i Hi; [done|]. rewrite <- app_assoc in E. cbn [app] in E.
    apply in_app_iff in Hi as [Hi|[<-|[]]]; [by apply IH; [exists (x :: b)|]|].
    destruct (nth x done false) eqn:Hx; [done|]. assert (Hin : In x (seq 0 (length ps))).
    { rewrite <- Hperm, E. apply in_or_app. right. by left. }
    apply in_seq in Hin. destruct (lookup_lt_is_Some_2 ps x ltac:(lia)) as [q Hq].
    specialize (Hstuck x q Hq Hx). apply not_true_iff_false in Hstuck. exfalso. apply Hstuck, forallb_forall.
    intros d Hd. apply IH; [by exists (x :: b)|]. eapply (Ht a x b E). by exists q. }
  assert (Hle : (length (seq 0 (length ps)) <= length order)%nat).
  { apply NoDup_incl_length; [apply seq_NoDup|]. intros i Hi. apply (so_done _ _ _ H), (Hall t).
    - exists []. by rewrite app_nil_r.
    - by rewrite Hperm. }
  rewrite length_seq in Hle. rewrite (so_count _ _ _ H) in Hc. lia.
Qed.

Lemma completion_loop_iff fuel done completed order :
  (length ps <= length done)%nat -> completed_so_far done completed order -> (length ps - completed < fuel)%nat ->
  completion_loop fuel ps done completed = true <-> exists t, launch_order (length ps) needs t.
Proof.
  revert done completed order. induction fuel as [|fuel IH]; intros done completed order Hl H Hf; [lia|]. cbn [completion_loop].
  destruct (Nat.leb_spec (length ps) completed) as [Hc|Hc].
  { split; [intros _|done]. exists order. split; [by eapply all_completed|apply H]. }
  pose proof (completion_round_spec ps 0 done completed false order ltac:(done) ltac:(cbn; lia) H) as Hr.
  destruct (completion_round ps 0 done completed false) as [[done' completed'] progress'].
  destruct Hr as (Hld & order' & H' & _ & Hp & Hle & Hstuck). destruct progress'.
  - destruct (Hp eq_refl) as [?|Hlt]; [done|]. apply (IH done' completed' order'); [by rewrite Hld|done|lia].
  - split; [done|]. intros Ht. destruct (Hstuck eq_refl) as (_ & _ & Hs). exfalso. by apply (stuck_no_order _ _ _ H Hc Hs).
Qed.

End completion.

Lemma participant_named_spec ps name :
  match participant_named ps name with
  | Some d => exists q, ps !! d = Some q /\ p_name q = name
  | None => forall j q, ps !! j = Some q -> p_name q <> name
  end.
Proof.
  induction ps as [|q ps IH]; cbn [participant_named]; [by intros j q|].
  destruct (str_eq (p_name q) name) eqn:E.
  - apply str_eq_true in E. by exists q.
  - apply str_eq_false in E. destruct (participant_named ps name) as [d|]; cbn.
    + exact IH.
    + intros [|j] q' Hq; [by injection Hq as <-|]. by apply (IH j).
Qed.

(** [name] is the participant [d], another one than [i]. *)
Definition other_named (p : manifest_parser) (i : nat) (name : bytes) (d : nat) : Prop :=
  exists q, participants p !! d = Some q /\ p_name q = name /\ d <> i.

Lemma unique_name p d d' q q' :
  NoDup (all_names p) -> participants p !! d = Some q -> participants p !! d' = Some q' -> p_name q = p_name q' -> d = d'.
Proof.
  intros Hn Hq Hq' E. unfold all_names in Hn. apply list.NoDup_app in Hn as (_ & _ & Hn).
  apply (list.NoDup_lookup _ _ _ (p_name q) Hn).
  - by rewrite (list_lookup_fmap p_name), Hq.
  - by rewrite (list_lookup_fmap p_name), Hq', E.
Qed.

Lemma resolve_names_spec p i who names :
  NoDup (all_names p) ->
  match resolve_names p i who names with
  | inr ds => Forall2 (other_named p i) names ds
  | inl e => e <> DependencyCycle /\ exists name, In name names /\ forall d, ~ other_named p i name d
  end.
Proof.
  intros Hnd. induction names as [|name names IH]; cbn [resolve_names]; [constructor|].
  pose proof (participant_named_spec (participants p) name) as Hname.
  destruct (participant_named (participants p) name) as [d|].
  - destruct Hname as (q & Hq & E). destruct (Nat.eqb_spec d i) as [->|Hne].
    + split; [done|]. exists name. split; [by left|]. intros d' (q' & Hq' & E' & Hd'). apply Hd'.
      eapply unique_name; [done|exact Hq'|exact Hq|congruence].
    + destruct (resolve_names p i who names) as [e|ds].
      * destruct IH as [He (n & Hin & Hno)]. split; [done|]. exists n. split; [by right|done].
      * constructor; [by exists q|done].
  - assert (exists name0, In name0 (name :: names) /\ forall d, ~ other_named p i name0 d) as Hno.
    { exists name. split; [by left|]. intros d (q & Hq & E & _). by apply (Hname d q). }
    destruct (groups p) as [|g gs]; [done|]. by destruct (str_eq name _).
Qed.

Lemma resolve_from_spec p i qs gs :
  NoDup (all_names p) ->
  match resolve_from p i qs gs with
  | inl e => e <> DependencyCycle /\ exists k q name, qs !! k = Some q /\ In name (dependency_names (p_contract q)) /\
      forall d, ~ other_named p (i + k) name d
  | inr (qs', gs') => length qs' = length qs /\ length gs' = length gs /\
      (forall k q, qs !! k = Some q -> exists ds, qs' !! k = Some (set_participant_dependencies ds q) /\
         Forall2 (other_named p (i + k)) (dependency_names (p_contract q)) ds) /\
      forall h, ((forall k q, qs !! k = Some q -> p_coordinator q = true -> p_group q <> h) -> gs' !! h = gs !! h) /\
        forall k q ds, qs !! k = Some q -> p_coordinator q = true -> p_group q = h ->
          (forall k' q', qs !! k' = Some q' -> p_coordinator q' = true -> p_group q' = h -> k' = k) ->
          qs' !! k = Some (set_participant_dependencies ds q) -> gs' !! h = set_group_dependencies ds <$> gs !! h
  end.
Proof.
  intros Hnd. revert i gs. induction qs as [|q qs IH]; intros i gs; cbn [resolve_from]; [by split_and!|].
  pose proof (resolve_names_spec p i (p_name q) (dependency_names (p_contract q)) Hnd) as Hr.
  destruct (resolve_names _ _ _ _) as [e|ds].
  { destruct Hr as [He (name & Hin & Hno)]. split; [done|]. exists O, q, name. by rewrite Nat.add_0_r. }
  set (gs1 := if p_coordinator q then _ else gs). specialize (IH (S i) gs1).
  destruct (resolve_from p (S i) qs gs1) as [e|[qs' gs']].
  { destruct IH as [He (k & q' & name & Hq' & Hin & Hno)]. split; [done|]. exists (S k), q', name.
    replace (i + S k)%nat with (S i + k)%nat by lia. done. }
  destruct IH as (Hl1 & Hl2 & Hps & Hgs). split; [cbn; by rewrite Hl1|].
  assert (Hl : length gs1 = length gs) by (unfold gs1; destruct (p_coordinator q); [by rewrite length_alter|done]).
  split; [by rewrite Hl2|]. split.
  { intros [|k] q' Hq'; [injection Hq' as <-; exists ds; rewrite Nat.add_0_r; by split|].
    replace (i + S k)%nat with (S i + k)%nat by lia. by apply Hps. }
  intros h. specialize (Hgs h) as [Hnone Hone]. split.
  - intros Hno. rewrite Hnone by (intros k q' Hq'; apply (Hno (S k)); done). unfold gs1.
    destruct (p_coordinator q) eqn:Ec; [|done]. rewrite list_lookup_alter_ne; [done|]. apply (Hno O q eq_refl Ec).
  - intros k q' ds' Hq' Hc Hh Huniq Hqs'. destruct k as [|k].
    + injection Hq' as <-. rewrite Hnone.
      * unfold gs1. rewrite Hc, Hh. rewrite list_lookup_alter_eq. injection Hqs' as Ed. by rewrite Ed.
      * intros k q2 Hq2 Hc2 Hh2. discriminate (Huniq (S k) q2 Hq2 Hc2 Hh2).
    + rewrite (Hone k q' ds' Hq' Hc Hh); try done.
      * unfold gs1. destruct (p_coordinator q) eqn:Ec; [|done]. rewrite list_lookup_alter_ne; [done|].
        intros Eh. discriminate (Huniq O q eq_refl Ec Eh).
      * intros k' q2 Hq2 Hc2 Hh2. by injection (Huniq (S k') q2 Hq2 Hc2 Hh2).
Qed.

(** Participant [i] waits for participant [j]. *)
Definition depends_on (p : manifest_parser) (i j : nat) : Prop :=
  exists q q', participants p !! i = Some q /\ participants p !! j = Some q' /\
    In (p_name q') (dependency_names (p_contract q)).

(** Every dependency names another participant. *)
Definition known_dependencies (p : manifest_parser) : Prop :=
  forall i q name, participants p !! i = Some q -> In name (dependency_names (p_contract q)) ->
    exists d, other_named p i name d.

Lemma resolved_needs p qs gs :
  NoDup (all_names p) -> resolve_from p 0 (participants p) (groups p) = inr (qs, gs) ->
  forall i j, needs qs i j <-> depends_on p i j.
Proof.
  intros Hnd E i j. pose proof (resolve_from_spec p 0 (participants p) (groups p) Hnd) as H. rewrite E in H.
  destruct H as (Hl & _ & Hps & _). split.
  - intros (q' & Hq' & Hin). pose proof (lookup_lt_Some _ _ _ Hq') as Hlt. rewrite Hl in Hlt.
    destruct (lookup_lt_is_Some_2 (participants p) i Hlt) as [q Hq]. destruct (Hps i q Hq) as (ds & Hq2 & Hf).
    rewrite Hq' in Hq2. injection Hq2 as ->. cbn in Hin. apply list_elem_of_In, list_elem_of_lookup in Hin as [k Hk].
    destruct (Forall2_lookup_r _ _ _ _ _ Hf Hk) as (name & Hname & q2 & Hq2 & <- & _).
    exists q, q2. split_and!; try done. apply list_elem_of_In. by eapply list_elem_of_lookup_2.
  - intros (q & q2 & Hq & Hq2 & Hin). destruct (Hps i q Hq) as (ds & Hq' & Hf). exists (set_participant_dependencies ds q).
    split; [done|]. cbn. apply list_elem_of_In, list_elem_of_lookup in Hin as [k Hk].
    destruct (Forall2_lookup_l _ _ _ _ _ Hf Hk) as (d & Hd & q3 & Hq3 & En & _).
    rewrite (unique_name p j d q2 q3 Hnd Hq2 Hq3 (eq_sym En)). apply list_elem_of_In. by eapply list_elem_of_lookup_2.
Qed.

Lemma loop_of_resolved p qs gs :
  NoDup (all_names p) -> (length (participants p) <= TNY_SWARM_MANIFEST_MAX_PARTICIPANTS)%nat ->
  resolve_from p 0 (participants p) (groups p) = inr (qs, gs) ->
  completion_loop (S (length qs)) qs (replicate TNY_SWARM_MANIFEST_MAX_PARTICIPANTS false) 0 = true <->
  exists t, launch_order (length (participants p)) (depends_on p) t.
Proof.
  intros Hnd Hl E. pose proof (resolve_from_spec p 0 (participants p) (groups p) Hnd) as H. rewrite E in H.
  destruct H as (Hlq & _). rewrite (completion_loop_iff qs _ _ 0 []).
  - rewrite Hlq. pose proof (resolved_needs p qs gs Hnd E) as Hn.
    split; intros (t & Hp & Ht); exists t; (split; [done|]); intros a i b Et j Hj; apply (Ht a i b Et j), Hn, Hj.
  - by rewrite Hlq, length_replicate.
  - split; [apply base.NoDup_nil_2|done| |constructor|by intros []].
    intros i. split; [|done]. rewrite nth_lookup. destruct (replicate _ false !! i) eqn:Ei; [|done].
    by apply lookup_replicate in Ei as [-> _].
  - lia.
Qed.

Lemma resolve_spec cap p :
  well_formed cap p -> (cap <= TNY_SWARM_MANIFEST_MAX_PARTICIPANTS)%nat ->
  match resolve_dependencies p with
  | inr (_, p') => known_dependencies p /\ (exists t, launch_order (length (participants p)) (depends_on p) t) /\
      exists qs gs, resolve_from p 0 (participants p) (groups p) = inr (qs, gs) /\
        p' = mk_state (version p) gs qs (canonical p) (allocations p)
  | inl DependencyCycle => known_dependencies p /\ ~ exists t, launch_order (length (participants p)) (depends_on p) t
  | inl _ => ~ known_dependencies p
  end.
Proof.
  intros Hw Hcap. unfold resolve_dependencies. pose proof (wf_names _ _ Hw) as Hnd. pose proof (wf_participants _ _ Hw) as Hl.
  pose proof (resolve_from_spec p 0 (participants p) (groups p) Hnd) as H.
  destruct (resolve_from _ _ _ _) as [e|[qs gs]] eqn:E.
  - destruct H as [He (k & q & name & Hq & Hin & Hno)]. assert (~ known_dependencies p) as Hk.
    { intros Hk. destruct (Hk k q name Hq Hin) as [d Hd]. by apply (Hno d). }
    by destruct e.
  - assert (known_dependencies p) as Hk.
    { destruct H as (_ & _ & Hps & _). intros i q name Hq Hin. destruct (Hps i q Hq) as (ds & _ & Hf).
      apply list_elem_of_In, list_elem_of_lookup in Hin as [k Hk]. destruct (Forall2_lookup_l _ _ _ _ _ Hf Hk) as (d & _ & Hd). by exists d. }
    pose proof (loop_of_resolved p qs gs Hnd ltac:(lia) E) as Hloop.
    destruct (completion_loop _ _ _ _); [split; [done|]; split; [by apply Hloop|by exists qs, gs]|].
    split; [done|]. intros Ht. by apply Hloop in Ht.
Qed.

(** Resolution keeps the manifest well-formed. *)
Lemma resolved_well_formed cap p qs gs :
  well_formed cap p -> resolve_from p 0 (participants p) (groups p) = inr (qs, gs) ->
  well_formed cap (mk_state (version p) gs qs (canonical p) (allocations p)).
Proof.
  intros Hw E. pose proof (resolve_from_spec p 0 (participants p) (groups p) (wf_names _ _ Hw)) as H. rewrite E in H.
  destruct H as (Hlq & Hlg & Hps & Hgs). set (p' := mk_state _ _ _ _ _).
  assert (Hcontract : forall v root c ds, contract_ok v root c -> contract_ok v root (set_dependencies ds c)).
  { intros v root c ds []. by split. }
  (* what becomes of a group *)
  assert (Hg : forall h g, groups p !! h = Some g -> exists ds, gs !! h = Some (set_group_dependencies ds g) /\
    forall j, g_coordinator_participant g = Some j -> forall q, participants p !! j = Some q ->
      qs !! j = Some (set_participant_dependencies ds q)).
  { intros h g Hgh. destruct (wf_group _ _ Hw h g Hgh) as (_ & _ & _ & _ & Hpar). destruct (Hgs h) as [Hnone Hone].
    destruct (g_parent g) as [k|].
    - destruct Hpar as (_ & _ & _ & j & q & Hj & Hq & Hc & Hgq & _). destruct (Hps j q Hq) as (ds & Hqs & _).
      exists ds. rewrite (Hone j q ds Hq Hc Hgq); [rewrite Hgh| |done].
      + split; [done|]. intros j' Hj' q' Hq'. rewrite Hj in Hj'. injection Hj' as <-. rewrite Hq in Hq'. by injection Hq' as <-.
      + intros k' q' Hq' Hc' Hg'. destruct (wf_participant _ _ Hw k' q' Hq') as (_ & _ & _ & g' & Hg2 & Hcp).
        rewrite Hg', Hgh in Hg2. injection Hg2 as <-. specialize (Hcp Hc'). congruence.
    - destruct Hpar as (-> & _ & Hnp). assert (groups p !! O = Some g) as Hg0 by done.
      assert (dependencies (g_contract g) = dependencies (g_contract g)) by done.
      exists (dependencies (g_contract g)). rewrite Hnone.
      + rewrite Hgh. split; [|intros j Hj; congruence]. f_equal. by destruct g as [? ? ? ? ? ? []].
      + intros k q Hq Hc Hh. destruct (wf_participant _ _ Hw k q Hq) as (_ & _ & _ & g' & Hg2 & Hcp).
        rewrite Hh, Hgh in Hg2. injection Hg2 as <-. specialize (Hcp Hc). congruence. }
  assert (Hback : forall h g', gs !! h = Some g' -> exists g ds, groups p !! h = Some g /\ g' = set_group_dependencies ds g /\
    forall j, g_coordinator_participant g = Some j -> forall q, participants p !! j = Some q ->
      qs !! j = Some (set_participant_dependencies ds q)).
  { intros h g' Hg'. pose proof (lookup_lt_Some _ _ _ Hg') as Hlt. rewrite Hlg in Hlt.
    destruct (lookup_lt_is_Some_2 (groups p) h Hlt) as [g Hgh]. destruct (Hg h g Hgh) as (ds & E1 & E2).
    rewrite Hg' in E1. injection E1 as ->. by exists g, ds. }
  assert (Hnames : map p_name qs = map p_name (participants p)).
  { apply list_eq. intros k. rewrite !(list_lookup_fmap p_name). destruct (participants p !! k) as [q|] eqn:Hq.
    - by destruct (Hps k q Hq) as (ds & -> & _).
    - apply lookup_ge_None in Hq. by rewrite (lookup_ge_None_2 qs k) by lia. }
  split; cbn; try apply Hw.
  - rewrite Hlg. apply Hw.
  - rewrite Hlq. apply Hw.
  - pose proof (wf_names _ _ Hw) as Hn. unfold all_names in *. cbn. rewrite Hnames.
    destruct (groups p) as [|g0 gs0] eqn:Eg; [by destruct gs|]. destruct (Hg O g0 eq_refl) as (ds & E0 & _).
    destruct gs as [|g1 gs1]; [done|]. injection E0 as ->. exact Hn.
  - intros h g' Hg'. destruct (Hback h g' Hg') as (g & ds & Hgh & -> & Hco).
    destruct (wf_group _ _ Hw h g Hgh) as (H1 & H2 & H3 & H4 & H5). split_and!; try done; [by apply Hcontract|]. cbn.
    destruct (g_parent g) as [k|]; [|done]. destruct H5 as (Hk & Hd & (gk & Hgk & Edk) & j & q & Hj & Hq & Hc & Hqg & Hqn & Hqp & Hqc).
    split_and!; try done.
    + destruct (Hg k gk Hgk) as (dk & Ek & _). by exists (set_group_dependencies dk gk).
    + exists j, (set_participant_dependencies ds q). split_and!; try done; [by apply (Hco j Hj)|]. cbn. by rewrite Hqc.
  - intros j q' Hq'. pose proof (lookup_lt_Some _ _ _ Hq') as Hlt. rewrite Hlq in Hlt.
    destruct (lookup_lt_is_Some_2 (participants p) j Hlt) as [q Hq]. destruct (Hps j q Hq) as (ds & E1 & _).
    rewrite Hq' in E1. injection E1 as ->. destruct (wf_participant _ _ Hw j q Hq) as (H1 & H2 & H3 & g & Hgq & H4).
    split_and!; try done; [by apply Hcontract|]. destruct (Hg _ g Hgq) as (dg & Eg & _). exists (set_group_dependencies dg g). by split.
Qed.

(** What the reader of a manifest may rely on. *)
Record manifest_ok (capacity : nat) (p : manifest_parser) : Prop := {
  mo_well_formed : well_formed capacity p;
  mo_root : groups p <> [];
  mo_participants : participants p <> [];
  mo_resolved : forall i q, participants p !! i = Some q ->
    Forall2 (other_named p i) (dependency_names (p_contract q)) (dependencies (p_contract q));
  mo_order : exists t, launch_order (length (participants p)) (depends_on p) t }.

Lemma parse_manifest_ok mem capacity root :
  (1 <= capacity <= TNY_SWARM_MANIFEST_MAX_PARTICIPANTS)%nat ->
  ensures (parse_manifest mem capacity root) state0 (fun _ p => manifest_ok capacity p).
Proof.
  intros Hcap. unfold parse_manifest. apply ensures_bind, step_allocate. intros p0 (V0 & G0 & Q0). apply ensures_bind.
  eapply ensures_mono; [apply (parse_group_ok mem capacity); by split_and!|]. intros _ p (Hw & _ & Hg).
  apply step_get, step_require. intros Hne. apply ensures_bind.
  pose proof (resolve_spec capacity p Hw ltac:(lia)) as Hr. unfold ensures.
  destruct (resolve_dependencies p) as [e|[u p1]]; [done|]. destruct Hr as (_ & (t & Hperm & Ht) & qs & gs & E & ->).
  pose proof (resolved_well_formed _ _ _ _ Hw E) as Hw1.
  pose proof (resolve_from_spec p 0 (participants p) (groups p) (wf_names _ _ Hw)) as H. rewrite E in H.
  destruct H as (Hlq & Hlg & Hps & _). set (p1 := mk_state _ _ _ _ _) in *.
  assert (Hback : forall k q1, qs !! k = Some q1 -> exists q ds, participants p !! k = Some q /\
    q1 = set_participant_dependencies ds q /\ Forall2 (other_named p k) (dependency_names (p_contract q)) ds).
  { intros k q1 Hk. pose proof (lookup_lt_Some _ _ _ Hk) as Hlt. rewrite Hlq in Hlt.
    destruct (lookup_lt_is_Some_2 (participants p) k Hlt) as [q Hq]. destruct (Hps k q Hq) as (ds & E1 & Hf).
    rewrite Hk in E1. injection E1 as ->. by exists q, ds. }
  assert (H : manifest_ok capacity p1).
  { split; try done.
    - intros Eg. cbn in Eg. subst gs. by destruct (groups p).
    - intros Eq. cbn in Eq. subst qs. by destruct (participants p).
    - intros i q1 Hi. destruct (Hback i q1 Hi) as (q & ds & Hq & -> & Hf). cbn. eapply Forall2_impl; [|exact Hf].
      intros name d (q2 & Hq2 & <- & Hd). destruct (Hps d q2 Hq2) as (ds2 & E2 & _). by exists (set_participant_dependencies ds2 q2).
    - exists t. cbn. rewrite Hlq. split; [done|]. intros a i b Et j (q1 & q2 & Hq1 & Hq2 & Hin). apply (Ht a i b Et).
      destruct (Hback i q1 Hq1) as (q & ds & Hq & -> & _). destruct (Hback j q2 Hq2) as (q' & ds' & Hq' & -> & _).
      by exists q, q'. }
  change (ensures (allocate mem) p1 (fun _ p => manifest_ok capacity p)). apply step_allocate. intros p2 Hs.
  pose proof (wf_same _ _ _ Hs Hw1) as Hw2. destruct Hs as (V & G & Q). destruct H as [H1 H2 H3 H4 H5].
  assert (Hon : forall i name d, other_named p1 i name d <-> other_named p2 i name d) by (unfold other_named; by rewrite Q).
  split; try done.
  - by rewrite G.
  - by rewrite Q.
  - intros i q. rewrite Q. intros Hq. eapply Forall2_impl; [|by apply H4]. intros name d. by rewrite Hon.
  - unfold depends_on. rewrite Q. exact H5.
Qed.

(** ** Properties *)

(** C25: whatever the file holds and whichever allocations fail, a manifest is
    only returned well-formed: the bounds on groups, nesting, participants and
    texts hold, names are unique, every nested group hangs from an earlier one
    and mirrors the coordinator launched for it, every dependency is resolved
    to another participant of that name, and there is an order in which the
    participants can be launched. *)
Theorem swarm_manifest_type (mem : nat -> bool) (capacity : nat) (jparse : bytes -> Z + jval) (input : option bytes)
    (out : bool) (p : manifest_parser)
    (H : tny_swarm_manifest_parse mem capacity jparse input out = inr p) :
  (1 <= capacity <= TNY_SWARM_MANIFEST_MAX_PARTICIPANTS)%nat /\ manifest_ok capacity p.
Proof.
  unfold tny_swarm_manifest_parse in H. destruct out; [|done]. destruct input as [s|]; [|done]. cbn [negb] in H.
  destruct (_ || _); [done|]. destruct ((capacity =? 0)%nat || _) eqn:Ec; [done|].
  apply orb_false_iff in Ec as [E1%Nat.eqb_neq E2%Nat.ltb_ge]. destruct (jparse s) as [pos|root]; [done|].
  pose proof (parse_manifest_ok mem capacity root ltac:(lia)) as Hm. unfold ensures in Hm.
  destruct (parse_manifest mem capacity root state0) as [e|[u p']]; [done|]. injection H as <-. split; [lia|done].
Qed.

(** C40: the dependencies of a well-formed manifest are accepted exactly when
    each names another participant and some launch order puts everyone after
    all it depends on; a cycle is reported exactly when only the order is
    missing, after finitely many rounds. *)
Theorem swarm_dependency_errors (capacity : nat) (p : manifest_parser)
    (Hw : well_formed capacity p) (Hc : (capacity <= TNY_SWARM_MANIFEST_MAX_PARTICIPANTS)%nat) :
  let ordered := exists t, launch_order (length (participants p)) (depends_on p) t in
  ((exists p', resolve_dependencies p = inr (tt, p')) <-> known_dependencies p /\ ordered) /\
  (resolve_dependencies p = inl DependencyCycle <-> known_dependencies p /\ ~ ordered).
Proof.
  intros ordered. pose proof (resolve_spec capacity p Hw Hc) as H.
  destruct (resolve_dependencies p) as [e|[[] p']].
  - assert (e = DependencyCycle \/ e <> DependencyCycle) as [->|Hne] by (destruct e; auto).
    + split; split; try done; [by intros [p' ?]|intros [_ ?]; by destruct H].
    + assert (~ known_dependencies p) by (by destruct e). split; split; try tauto; [by intros [p' ?]|congruence].
  - destruct H as (Hk & Ho & _). split; split; try done; [by exists p'|tauto].
Qed.

(** ** Examples *)

Definition actor_json (name : bytes) (needed : list bytes) : jval :=
  JObj ([(B"name", JStr name); (B"purpose", JStr B"work")] ++
        match needed with [] => [] | _ => [(B"depends_on", JArr (map JStr needed))] end).
Definition swarm_json (agents : list jval) : jval :=
  JObj [(B"version", JNum (JUint 2)); (B"purpose", JStr B"ship"); (B"coordinator", actor_json B"lead" []);
        (B"agents", JArr agents); (B"swarms", JArr [])].
Definition chain_json : jval := swarm_json [actor_json B"test" [B"build"]; actor_json B"build" []].
Definition cycle_json : jval := swarm_json [actor_json B"test" [B"build"]; actor_json B"build" [B"test"]].

Example swarm_manifest_type_witness :
  exists p, tny_swarm_manifest_parse (fun _ => true) 8 (fun _ => inr chain_json) (Some B"{}") true = inr p /\
    map (fun q => dependencies (p_contract q)) (participants p) = [[1%nat]; []] /\ manifest_ok 8 p.
Proof.
  assert (match tny_swarm_manifest_parse (fun _ => true) 8 (fun _ => inr chain_json) (Some B"{}") true with
          | inr p => Some (map (fun q => dependencies (p_contract q)) (participants p)) | inl _ => None end = Some [[1%nat]; []])
    as H by (vm_compute; reflexivity).
  destruct (tny_swarm_manifest_parse _ _ _ _ _) as [e|p] eqn:E; [discriminate H|]. injection H as H.
  exists p. split; [done|]. split; [exact H|exact (proj2 (swarm_manifest_type _ _ _ _ _ p E))].
Defined.

Definition returns {A} (f : A -> bool) (r : swarm_error + A) : bool := match r with inr x => f x | inl _ => false end.

Lemma run_inr {A} (r : swarm_error + A) (f : A -> bool) : returns f r = true -> exists x, r = inr x /\ f x = true.
Proof. destruct r as [|x]; [done|]. by exists x. Qed.

Definition finds_cycle (r : unit * manifest_parser) : bool :=
  match resolve_dependencies (snd r) with inl DependencyCycle => true | _ => false end.

Lemma finds_cycle_true r : finds_cycle r = true -> resolve_dependencies (snd r) = inl DependencyCycle.
Proof. unfold finds_cycle. destruct (resolve_dependencies (snd r)) as [e|]; [|done]. by destruct e. Qed.

Lemma cycle_runs : returns finds_cycle (parse_group (fun _ => true) 8 6 (Some cycle_json) 1 None state0) = true.
Proof. vm_compute. reflexivity. Qed.

Lemma ensures_inr {A} (m : M A) p Q a p' : ensures m p Q -> m p = inr (a, p') -> Q a p'.
Proof. unfold ensures. intros H E. by rewrite E in H. Qed.

Lemma cycle_well_formed : exists p, well_formed 8 p /\ resolve_dependencies p = inl DependencyCycle.
Proof.
  destruct (run_inr _ _ cycle_runs) as ([[] p] & E & Hf). exists p. split; [|by apply finds_cycle_true in Hf].
  refine (proj1 (ensures_inr _ _ _ _ _ (parse_group_ok _ _ _ _ _ _ _ _) E)). by split_and!.
Qed.

Example swarm_dependency_errors_witness :
  exists p, well_formed 8 p /\ known_dependencies p /\
    ~ exists t, launch_order (length (participants p)) (depends_on p) t.
Proof.
  destruct cycle_well_formed as (p & Hw & E). exists p. split; [done|].
  apply (swarm_dependency_errors 8 p Hw ltac:(vm_compute; lia)). exact E.
Defined.
