(* ===== verification/JsonValue.v ===== *)
(** Operations of src/third_party/yyjson on whole values that the callers
    rely on: comparison, and the edits of an object's members. *)
From S2P Require Import Prelude Json.

Open Scope Z_scope.

(** ** Comparison *)

(** Numbers are equal when their values and signs agree; doubles, bit by bit. *)
Definition num_equals (a b : jnum) : bool :=
  match a, b with
  | JUint a, JUint b | JSint a, JSint b => a =? b
  | JSint a, JUint b | JUint b, JSint a => (0 <=? a) && (a =? b)
  | JReal m e, JReal m' e' => (m =? m') && (e =? e')
  | _, _ => false
  end.

(** Objects compare by key, whatever the order of their members. *)
Fixpoint yyjson_equals (a b : jval) {struct a} : bool :=
  match a, b with
  | JNull, JNull => true
  | JBool a, JBool b => eqb a b
  | JNum a, JNum b => num_equals a b
  | JStr a, JStr b => str_eq a b
  | JArr vs, JArr ws =>
    (fix all (vs ws : list jval) : bool :=
       match vs, ws with
       | [], [] => true
       | v :: vs, w :: ws => yyjson_equals v w && all vs ws
       | _, _ => false
       end) vs ws
  | JObj ms, JObj ns =>
    (length ms =? length ns)%nat &&
    (fix all (ms : list (bytes * jval)) : bool :=
       match ms with
       | [] => true
       | (k, v) :: ms => match assoc k ns with Some w => yyjson_equals v w | None => false end && all ms
       end) ms
  | _, _ => false
  end.

(** NULL equals nothing. *)
Definition equals (a b : option jval) : bool :=
  match a, b with Some a, Some b => yyjson_equals a b | _, _ => false end.

(** ** Sizes; anything else has none *)

Definition arr_items (v : option jval) : list jval := match v with Some (JArr vs) => vs | _ => [] end.
Definition obj_members (v : option jval) : list (bytes * jval) := match v with Some (JObj ms) => ms | _ => [] end.
Definition is_obj (v : option jval) : bool := match v with Some (JObj _) => true | _ => false end.
Definition is_arr (v : option jval) : bool := match v with Some (JArr _) => true | _ => false end.
Definition is_bool (v : option jval) : bool := match v with Some (JBool _) => true | _ => false end.
Definition is_null (v : option jval) : bool := match v with Some JNull => true | _ => false end.
Definition uint_of (v : option jval) : option Z := match v with Some (JNum (JUint n)) => Some n | _ => None end.
Definition bool_of (v : option jval) : bool := match v with Some (JBool b) => b | _ => false end.

(** A [uint64_t] or [int64_t] cut to an [int], which is all that
    [yyjson_mut_get_int] gives. *)
Definition to_int (n : Z) : Z := (n + 2147483648) mod 4294967296 - 2147483648.

Definition get_int (v : option jval) : Z :=
  match v with Some (JNum (JUint n)) | Some (JNum (JSint n)) => to_int n | _ => 0 end.

(** ** Edits *)

(** All members with the key, or without it. *)
Definition obj_remove (key : bytes) (ms : list (bytes * jval)) : list (bytes * jval) :=
  List.filter (fun '(k, _) => negb (str_eq k key)) ms.

(** The first member with the key takes the value, further ones go; without one
    the member is added at the end. *)
Fixpoint obj_put (key : bytes) (v : jval) (ms : list (bytes * jval)) : list (bytes * jval) :=
  match ms with
  | [] => [(key, v)]
  | (k, w) :: ms => if str_eq k key then (k, v) :: obj_remove key ms else (k, w) :: obj_put key v ms
  end.

(** The value of the first member with the key is changed in place. *)
Fixpoint obj_update (key : bytes) (f : jval -> jval) (ms : list (bytes * jval)) : list (bytes * jval) :=
  match ms with
  | [] => []
  | (k, w) :: ms => if str_eq k key then (k, f w) :: ms else (k, w) :: obj_update key f ms
  end.

(** ** Writing and reading back *)

(** What the reader makes of a written value: a number that is not negative is
    unsigned. *)
Fixpoint wire (v : jval) : jval :=
  match v with
  | JNum (JSint n) => if 0 <=? n then JNum (JUint n) else v
  | JArr vs => JArr (map wire vs)
  | JObj ms => JObj (map (fun '(k, v) => (k, wire v)) ms)
  | _ => v
  end.

Definition wire_members (ms : list (bytes * jval)) : list (bytes * jval) := map (fun '(k, v) => (k, wire v)) ms.

(** ** Induction over nested values *)

Section nested.
Context (P : jval -> Prop)
  (Hnull : P JNull) (Hbool : forall b, P (JBool b)) (Hnum : forall n, P (JNum n)) (Hstr : forall s, P (JStr s))
  (Harr : forall vs, Forall P vs -> P (JArr vs)) (Hobj : forall ms, Forall (fun m => P m.2) ms -> P (JObj ms)).

Fixpoint jval_nested (v : jval) : P v :=
  match v with
  | JNull => Hnull
  | JBool b => Hbool b
  | JNum n => Hnum n
  | JStr s => Hstr s
  | JArr vs =>
    Harr vs ((fix all (vs : list jval) : Forall P vs :=
      match vs with [] => List.Forall_nil P | v :: vs => List.Forall_cons P v vs (jval_nested v) (all vs) end) vs)
  | JObj ms =>
    Hobj ms ((fix all (ms : list (bytes * jval)) : Forall (fun m => P m.2) ms :=
      match ms with [] => List.Forall_nil _ | m :: ms => List.Forall_cons _ m ms (jval_nested m.2) (all ms) end) ms)
  end.
End nested.

(** ** Lemmas: integers *)

Lemma to_int_small n : -2147483648 <= n <= 2147483647 -> to_int n = n.
Proof. unfold to_int. intros H. rewrite Z.mod_small; lia. Qed.

(** ** Lemmas: members *)

Definition keys (ms : list (bytes * jval)) : list bytes := map fst ms.

Lemma assoc_in key ms v : assoc key ms = Some v -> In (key, v) ms.
Proof.
  induction ms as [|[k w] ms IH]; cbn [assoc]; [done|]. destruct (str_eq k key) eqn:E; [apply str_eq_true in E|].
  - intros [= <-]. subst k. by left.
  - intros H. right. by apply IH.
Qed.

Lemma assoc_key key ms v : assoc key ms = Some v -> In key (keys ms).
Proof. intros H%assoc_in. apply in_map_iff. by exists (key, v). Qed.

Lemma assoc_none key ms : assoc key ms = None <-> ~ In key (keys ms).
Proof.
  induction ms as [|[k w] ms IH]; cbn [assoc keys map fst]; [split; [by intros _ []|done]|].
  destruct (str_eq k key) eqn:E; [apply str_eq_true in E|apply str_eq_false in E].
  - split; [done|]. intros []. by left.
  - rewrite IH. split; [intros H [?|?]; naive_solver|intros H ?; apply H; by right].
Qed.

Lemma assoc_nodup key v ms : NoDup (keys ms) -> In (key, v) ms -> assoc key ms = Some v.
Proof.
  induction ms as [|[k w] ms IH]; [by intros _ []|]. intros Hnd [E|Hin]; cbn [assoc].
  - injection E as -> ->. by rewrite str_eq_refl.
  - apply list.NoDup_cons in Hnd as [Hk Hnd].
    destruct (str_eq k key) eqn:E; [|by apply IH]. apply str_eq_true in E as ->. destruct Hk.
    apply list_elem_of_In, in_map_iff. by exists (key, v).
Qed.

Lemma keys_app ms ns : keys (ms ++ ns) = keys ms ++ keys ns.
Proof. apply map_app. Qed.

Lemma wire_obj ms : wire (JObj ms) = JObj (wire_members ms).
Proof. done. Qed.

Lemma assoc_wire key ms : assoc key (wire_members ms) = wire <$> assoc key ms.
Proof. induction ms as [|[k v] ms IH]; [done|]. cbn [wire_members map assoc]. destruct (str_eq k key); [done|exact IH]. Qed.

Lemma keys_wire ms : keys (wire_members ms) = keys ms.
Proof. unfold keys, wire_members. rewrite map_map. apply map_ext. by intros []. Qed.

Lemma assoc_app key ms ns : assoc key (ms ++ ns) = match assoc key ms with Some v => Some v | None => assoc key ns end.
Proof. induction ms as [|[k w] ms IH]; cbn [app assoc]; [done|]. by destruct (str_eq k key). Qed.

Lemma assoc_remove key key' ms : assoc key' (obj_remove key ms) = if str_eq key key' then None else assoc key' ms.
Proof.
  induction ms as [|[k w] ms IH]; cbn [obj_remove List.filter assoc]; [by destruct (str_eq key key')|].
  fold (obj_remove key ms). destruct (str_eq k key) eqn:E; cbn [negb].
  - apply str_eq_true in E as ->. rewrite IH. by destruct (str_eq key key').
  - cbn [assoc]. rewrite IH. destruct (str_eq k key') eqn:E'; [|done]. apply str_eq_true in E' as ->.
    destruct (str_eq key key') eqn:E2; [|done]. apply str_eq_true in E2 as ->. by rewrite str_eq_refl in E.
Qed.

Lemma assoc_put key v key' ms : assoc key' (obj_put key v ms) = if str_eq key key' then Some v else assoc key' ms.
Proof.
  induction ms as [|[k w] ms IH]; cbn [obj_put assoc]; [by destruct (str_eq key key')|].
  destruct (str_eq k key) eqn:E; cbn [assoc].
  - apply str_eq_true in E as ->. rewrite assoc_remove. by destruct (str_eq key key').
  - rewrite IH. destruct (str_eq k key') eqn:E'; [|done]. apply str_eq_true in E' as ->.
    destruct (str_eq key key') eqn:E2; [|done]. apply str_eq_true in E2 as ->. by rewrite str_eq_refl in E.
Qed.

Lemma assoc_update key f key' ms :
  assoc key' (obj_update key f ms) = if str_eq key key' then f <$> assoc key ms else assoc key' ms.
Proof.
  induction ms as [|[k w] ms IH]; cbn [obj_update assoc]; [by destruct (str_eq key key')|].
  destruct (str_eq k key) eqn:E; cbn [assoc].
  - apply str_eq_true in E as ->. by destruct (str_eq key key').
  - rewrite IH. destruct (str_eq k key') eqn:E'; [|done]. apply str_eq_true in E' as ->.
    destruct (str_eq key key') eqn:E2; [|done]. apply str_eq_true in E2 as ->. by rewrite str_eq_refl in E.
Qed.

(** ** Lemmas: comparison *)

(** No key twice, at any depth. *)
Fixpoint distinct (v : jval) : Prop :=
  match v with
  | JArr vs => (fix all (vs : list jval) := match vs with [] => True | v :: vs => distinct v /\ all vs end) vs
  | JObj ms =>
    NoDup (keys ms) /\
    (fix all (ms : list (bytes * jval)) := match ms with [] => True | m :: ms => distinct m.2 /\ all ms end) ms
  | _ => True
  end.

Lemma distinct_arr vs : distinct (JArr vs) <-> Forall distinct vs.
Proof.
  cbn [distinct]. induction vs as [|v vs IH]; [split; [constructor|done]|]. rewrite IH, Forall_cons_iff. done.
Qed.

Lemma distinct_obj ms : distinct (JObj ms) <-> NoDup (keys ms) /\ Forall (fun m => distinct m.2) ms.
Proof.
  cbn [distinct]. apply and_iff_compat_l. induction ms as [|m ms IH]; [split; [constructor|done]|]. rewrite IH, Forall_cons_iff. done.
Qed.

Lemma equals_arr vs ws : yyjson_equals (JArr vs) (JArr ws) = true <-> Forall2 (fun v w => yyjson_equals v w = true) vs ws.
Proof.
  cbn [yyjson_equals]. revert ws. induction vs as [|v vs IH]; intros [|w ws]; try (split; [done|by inversion 1]).
  rewrite andb_true_iff, IH. split; [by intros []; constructor|by inversion 1].
Qed.

Lemma equals_obj ms ns :
  yyjson_equals (JObj ms) (JObj ns) = true <->
  length ms = length ns /\ Forall (fun m => exists w, assoc m.1 ns = Some w /\ yyjson_equals m.2 w = true) ms.
Proof.
  cbn [yyjson_equals]. rewrite andb_true_iff, Nat.eqb_eq. apply and_iff_compat_l.
  induction ms as [|[k v] ms IH]; [split; [constructor|done]|]. rewrite andb_true_iff, IH, Forall_cons_iff. cbn [fst snd].
  apply and_iff_compat_r. destruct (assoc k ns) as [w|]; [|split; [done|by intros (? & ? & _)]].
  split; [by exists w|by intros (? & [= ->] & ?)].
Qed.

Lemma num_equals_refl n : num_equals n n = true.
Proof. destruct n; cbn; by rewrite ?Z.eqb_refl. Qed.

Lemma equals_refl v : distinct v -> yyjson_equals v v = true.
Proof.
  induction v as [| | | |vs IH|ms IH] using jval_nested; intros Hd; try done.
  - by destruct b.
  - apply num_equals_refl.
  - apply str_eq_refl.
  - apply distinct_arr in Hd. apply equals_arr. induction IH as [|v vs Hv _ IH']; [constructor|].
    apply Forall_cons_iff in Hd as [Hd1 Hd2]. constructor; auto.
  - apply distinct_obj in Hd as [Hnd Hd]. apply equals_obj. split; [done|].
    rewrite Forall_forall in *. intros [k v] Hin. exists v. split; [by apply assoc_nodup|]. apply (IH (k, v) Hin), (Hd (k, v) Hin).
Qed.

Lemma num_equals_sym a b : num_equals a b = num_equals b a.
Proof.
  destruct a as [a|a|m e], b as [b|b|m' e']; cbn; rewrite ?(Z.eqb_sym a b), ?(Z.eqb_sym m m'), ?(Z.eqb_sym e e'); try done.
Qed.

Lemma str_eq_sym a b : str_eq a b = str_eq b a.
Proof. apply eq_true_iff_eq. rewrite !str_eq_true. split; intros ->; done. Qed.

Lemma Forall2_flip_ind {A} (P : A -> Prop) (R : A -> A -> Prop) vs ws :
  Forall (fun v => forall w, P v -> P w -> R v w -> R w v) vs -> Forall P vs -> Forall P ws ->
  Forall2 R vs ws -> Forall2 R ws vs.
Proof.
  intros IH Hv Hw H. revert IH Hv Hw. induction H as [|v w vs ws Hr _ IHl]; intros IH Hv Hw; [constructor|].
  apply Forall_cons_iff in IH as [IH1 IH2], Hv as [Hv1 Hv2], Hw as [Hw1 Hw2]. constructor; auto.
Qed.

Lemma equals_sym v w : distinct v -> distinct w -> yyjson_equals v w = true -> yyjson_equals w v = true.
Proof.
  revert w. induction v as [|b|n|s|vs IH|ms IH] using jval_nested; intros [|b'|n'|s'|ws|ns] Hv Hw; try done.
  - by destruct b, b'.
  - cbn. by rewrite num_equals_sym.
  - cbn. by rewrite str_eq_sym.
  - rewrite !equals_arr. apply distinct_arr in Hv, Hw. by apply (Forall2_flip_ind distinct).
  - rewrite !equals_obj. apply distinct_obj in Hv as [Hmd Hmv], Hw as [Hnd Hnv]. intros [Hl Hm].
    split; [done|]. rewrite Forall_forall in *. intros [k w] Hin.
    assert (incl (keys ns) (keys ms)) as Hincl.
    { apply NoDup_length_incl; [by apply NoDup_ListNoDup|unfold keys; rewrite !length_map; lia|]. intros k' Hk'.
      apply in_map_iff in Hk' as ([k2 v2] & <- & Hk'). destruct (Hm _ Hk') as (w2 & E & _). by eapply assoc_key. }
    assert (In k (keys ms)) as Hk by (apply Hincl, in_map_iff; by exists (k, w)).
    apply in_map_iff in Hk as ([k' v] & E & Hk). cbn in E. subst k'. exists v. split; [by apply assoc_nodup|].
    destruct (Hm _ Hk) as (w' & E & He). cbn [fst snd] in *. rewrite (assoc_nodup k w ns) in E by done. injection E as <-.
    apply (IH _ Hk); [apply (Hmv _ Hk)|apply (Hnv _ Hin)|done].
Qed.
