(* ===== verification/ExecProtocol.v ===== *)
(** The private execution protocol (src/src/core/execution_protocol.c): the
    admission of messages, the limits on their values, and the envelope. *)
From S2P Require Import Prelude Json JsonValue.

Open Scope Z_scope.

Definition TNY_EXEC_PROTOCOL_VERSION : Z := 1.

Inductive tny_exec_phase := WAIT_START | WAIT_RESULT | WAIT_REPLY | DONE.
Inductive tny_exec_kind :=
  | INVALID | EXECUTE | CONTROL | EVENT | PROMPT | ASK | STATE | RESULT | READ_RESULT | SEARCH_TRANSCRIPT
  | MATERIALIZE_TRANSCRIPT.

#[export] Instance exec_phase_eq : EqDecision tny_exec_phase.
Proof. solve_decision. Defined.
#[export] Instance exec_kind_eq : EqDecision tny_exec_kind.
Proof. solve_decision. Defined.

Definition exec_kinds : list tny_exec_kind :=
  [INVALID; EXECUTE; CONTROL; EVENT; PROMPT; ASK; STATE; RESULT; READ_RESULT; SEARCH_TRANSCRIPT; MATERIALIZE_TRANSCRIPT].

(** A request of the server: [CONTROL] to [STATE] and the last three. *)
Definition callback_kind (kind : tny_exec_kind) : bool :=
  match kind with
  | CONTROL | EVENT | PROMPT | ASK | STATE | READ_RESULT | SEARCH_TRANSCRIPT | MATERIALIZE_TRANSCRIPT => true
  | _ => false
  end.

Definition tny_exec_protocol_admit (phase : tny_exec_phase) (kind : tny_exec_kind) (id expected : Z) : bool :=
  if (id =? 0) || (expected =? 0) then false
  else
    match phase with
    | WAIT_START => bool_decide (kind = EXECUTE) && (id =? 1) && (expected =? 1)
    | WAIT_REPLY => bool_decide (kind = RESULT) && (id =? expected)
    | WAIT_RESULT =>
      if bool_decide (kind = RESULT) then id =? 1 else (2 <=? expected) && (id =? expected) && callback_kind kind
    | DONE => false
    end.

(** ** Limits *)

Definition VALUE_DEPTH : Z := 64.
Definition OBJECT_MEMBERS : nat := 512.
Definition VALUE_COUNT : Z := 200000.

(** One value is entered: what is left of the budget. *)
Definition enter (depth left : Z) : option Z := if (left =? 0) || (VALUE_DEPTH <? depth) then None else Some (left - 1).

Definition valid_string (s : bytes) (depth left : Z) : option Z :=
  left ← enter depth left; if mem_byte NUL s then None else Some left.

(** What is left of the budget, [None] when the value is refused. *)
Fixpoint valid_value (v : jval) (depth left : Z) {struct v} : option Z :=
  match v with
  | JStr s => valid_string s depth left
  | JArr vs =>
    left ← enter depth left;
    (fix items (vs : list jval) (left : Z) : option Z :=
       match vs with
       | [] => Some left
       | v :: vs => left ← valid_value v (depth + 1) left; items vs left
       end) vs left
  | JObj ms =>
    left ← enter depth left;
    if (OBJECT_MEMBERS <? length ms)%nat then None
    else
      (fix members (seen : list bytes) (ms : list (bytes * jval)) (left : Z) : option Z :=
         match ms with
         | [] => Some left
         | (k, v) :: ms =>
           left ← valid_string k (depth + 1) left;
           left ← valid_value v (depth + 1) left;
           if existsb (str_eq k) seen then None else members (k :: seen) ms left
         end) [] ms left
  | _ => enter depth left
  end.

Definition tny_exec_json_valid (root : option jval) : bool :=
  match root with
  | Some v => bool_decide (is_Some (valid_value v 0 VALUE_COUNT))
  | None => false
  end.

(** ** The envelope *)

Definition method_name (kind : tny_exec_kind) : option bytes :=
  match kind with
  | EXECUTE => Some B"execute" | CONTROL => Some B"control" | EVENT => Some B"event" | PROMPT => Some B"prompt"
  | ASK => Some B"ask" | STATE => Some B"state" | READ_RESULT => Some B"read_result"
  | SEARCH_TRANSCRIPT => Some B"search_transcript" | MATERIALIZE_TRANSCRIPT => Some B"materialize_transcript"
  | INVALID | RESULT => None
  end.

(** The kind whose method has the name; [INVALID] when none has. *)
Definition method_kind (method : bytes) : tny_exec_kind :=
  fold_left (fun kind i => match method_name i with Some name => if str_eq method name then i else kind | None => kind end)
    exec_kinds INVALID.

(** Refused: [id] and [body] stay as they were. *)
Definition exec_refused : tny_exec_kind * Z * option jval := (INVALID, 0, None).

Definition tny_exec_envelope (root : option jval) : tny_exec_kind * Z * option jval :=
  if negb (is_obj root) || negb (tny_exec_json_valid root) then exec_refused
  else
    match jget_str root B"jsonrpc", uint_of (jget root B"version"), uint_of (jget root B"id") with
    | Some rpc, Some version, Some id =>
      if negb (str_eq rpc B"2.0") || negb (version =? TNY_EXEC_PROTOCOL_VERSION) || (id =? 0) then exec_refused
      else
        match jget_str root B"method" with
        | None =>
          match jget root B"result" with
          | Some result => if (length (obj_members root) =? 4)%nat then (RESULT, id, Some result) else exec_refused
          | None => exec_refused
          end
        | Some method =>
          if (length (obj_members root) =? 5)%nat && is_obj (jget root B"params")
          then (method_kind method, id, jget root B"params")
          else exec_refused
        end
    | _, _, _ => exec_refused
    end.

(** The document a message is written from. *)
Definition message_doc (id : Z) (kind : tny_exec_kind) (body : option jval) : option jval :=
  let head := [(B"jsonrpc", JStr B"2.0"); (B"version", JNum (JUint TNY_EXEC_PROTOCOL_VERSION)); (B"id", JNum (JUint id))] in
  let value := default (JObj []) body in
  match method_name kind with
  | Some method => Some (JObj (head ++ [(B"method", JStr method); (B"params", value)]))
  | None => if bool_decide (kind = RESULT) then Some (JObj (head ++ [(B"result", value)])) else None
  end.

Section writer.
(** The writer of documents. *)
Context (jwrite : jval -> option bytes).

Definition tny_exec_message (id : Z) (kind : tny_exec_kind) (body : option jval) : option bytes :=
  message_doc id kind body ≫= jwrite.

End writer.

(** ** What the limits mean *)

(** Values and keys. *)
Fixpoint value_count (v : jval) : Z :=
  1 + match v with
      | JArr vs => (fix all (vs : list jval) := match vs with [] => 0 | v :: vs => value_count v + all vs end) vs
      | JObj ms =>
        (fix all (ms : list (bytes * jval)) := match ms with [] => 0 | m :: ms => 1 + value_count m.2 + all ms end) ms
      | _ => 0
      end.

(** How deep the deepest value or key lies below this one. *)
Fixpoint value_depth (v : jval) : Z :=
  match v with
  | JArr vs => (fix all (vs : list jval) := match vs with [] => 0 | v :: vs => Z.max (1 + value_depth v) (all vs) end) vs
  | JObj ms =>
    (fix all (ms : list (bytes * jval)) := match ms with [] => 0 | m :: ms => Z.max (1 + value_depth m.2) (all ms) end) ms
  | _ => 0
  end.

(** No NUL, no key twice, no object too large, at any depth. *)
Fixpoint wholesome (v : jval) : Prop :=
  match v with
  | JStr s => mem_byte NUL s = false
  | JArr vs => (fix all (vs : list jval) := match vs with [] => True | v :: vs => wholesome v /\ all vs end) vs
  | JObj ms =>
    (length ms <= OBJECT_MEMBERS)%nat /\ NoDup (keys ms) /\
    (fix all (ms : list (bytes * jval)) :=
       match ms with [] => True | m :: ms => (mem_byte NUL m.1 = false /\ wholesome m.2) /\ all ms end) ms
  | _ => True
  end.

Definition items_count (vs : list jval) : Z := fold_right (fun v n => value_count v + n) 0 vs.
Definition items_depth (vs : list jval) : Z := fold_right (fun v n => Z.max (1 + value_depth v) n) 0 vs.
Definition members_count (ms : list (bytes * jval)) : Z := fold_right (fun m n => 1 + value_count m.2 + n) 0 ms.
Definition members_depth (ms : list (bytes * jval)) : Z := fold_right (fun m n => Z.max (1 + value_depth m.2) n) 0 ms.

Lemma wholesome_arr vs : wholesome (JArr vs) <-> Forall wholesome vs.
Proof. cbn [wholesome]. induction vs as [|v vs IH]; [split; [constructor|done]|]. by rewrite IH, Forall_cons_iff. Qed.

Lemma wholesome_obj ms : wholesome (JObj ms) <->
  (length ms <= OBJECT_MEMBERS)%nat /\ NoDup (keys ms) /\ Forall (fun m => mem_byte NUL m.1 = false /\ wholesome m.2) ms.
Proof.
  cbn [wholesome]. do 2 apply and_iff_compat_l. induction ms as [|m ms IH]; [split; [constructor|done]|]. by rewrite IH, Forall_cons_iff.
Qed.

Lemma value_count_pos v : 1 <= value_count v.
Proof.
  induction v as [| | | |vs IH|ms IH] using jval_nested; cbn [value_count]; try lia.
  - change (1 <= 1 + items_count vs). enough (0 <= items_count vs) by lia.
    induction IH as [|v vs Hv _ IH]; cbn [items_count fold_right]; [lia|]. fold (items_count vs). lia.
  - change (1 <= 1 + members_count ms). enough (0 <= members_count ms) by lia.
    induction IH as [|m ms Hv _ IH]; cbn [members_count fold_right]; [lia|]. fold (members_count ms). lia.
Qed.

Lemma value_depth_nonneg v : 0 <= value_depth v.
Proof.
  destruct v as [| | | |vs|ms]; cbn [value_depth]; try lia.
  - change (0 <= items_depth vs). induction vs; cbn [items_depth fold_right]; [lia|]. fold (items_depth vs). lia.
  - change (0 <= members_depth ms). induction ms; cbn [members_depth fold_right]; [lia|]. fold (members_depth ms). lia.
Qed.

(** ** Lemmas: the check *)

Definition within (ok : Prop) (deep : Z) (count depth left : Z) : Prop := ok /\ depth + deep <= VALUE_DEPTH /\ count <= left.

(** A check that spends [count] when the value is in order and there is room. *)
Definition spends (r : option Z) (ok : Prop) (deep count depth left : Z) : Prop :=
  match r with
  | Some rest => within ok deep count depth left /\ rest = left - count
  | None => ~ within ok deep count depth left
  end.

#[export] Instance spends_proper : Proper (eq ==> iff ==> eq ==> eq ==> eq ==> eq ==> iff) spends.
Proof.
  intros r ? <- ok ok' Hok deep ? <- count ? <- depth ? <- left ? <-. unfold spends, within. destruct r; by rewrite Hok.
Qed.

Lemma enter_spec depth left : 0 <= left -> spends (enter depth left) True 0 1 depth left.
Proof.
  intros H. unfold enter, spends, within. destruct (Z.eqb_spec left 0); cbn [orb]; [lia|].
  destruct (Z.ltb_spec VALUE_DEPTH depth); lia.
Qed.

Lemma valid_string_spec s depth left : 0 <= left -> spends (valid_string s depth left) (mem_byte NUL s = false) 0 1 depth left.
Proof.
  intros H. unfold valid_string. pose proof (enter_spec depth left H) as He. unfold spends, within in *.
  destruct (enter depth left) as [rest|]; cbn [mbind option_bind]; [|naive_solver].
  destruct (mem_byte NUL s); [naive_solver|]. naive_solver.
Qed.

Definition items_check (depth : Z) := fix items (vs : list jval) (left : Z) : option Z :=
  match vs with [] => Some left | v :: vs => left ← valid_value v (depth + 1) left; items vs left end.

Definition members_check (depth : Z) := fix members (seen : list bytes) (ms : list (bytes * jval)) (left : Z) : option Z :=
  match ms with
  | [] => Some left
  | (k, v) :: ms =>
    left ← valid_string k (depth + 1) left;
    left ← valid_value v (depth + 1) left;
    if existsb (str_eq k) seen then None else members (k :: seen) ms left
  end.

Definition spends_value (v : jval) : Prop := forall depth left,
  0 <= left -> spends (valid_value v depth left) (wholesome v) (value_depth v) (value_count v) depth left.

Lemma items_check_spec vs depth left : depth <= VALUE_DEPTH ->
  Forall spends_value vs -> 0 <= left ->
  spends (items_check depth vs left) (Forall wholesome vs) (items_depth vs) (items_count vs) depth left.
Proof.
  intros Hd Hvs. revert left. induction Hvs as [|v vs Hv _ IH]; intros left Hl; cbn [items_check items_depth items_count fold_right].
  { split; [split; [constructor|lia]|lia]. }
  fold (items_depth vs) (items_count vs) (items_check depth). specialize (Hv (depth + 1) left Hl). unfold spends, within in *.
  destruct (valid_value v (depth + 1) left) as [rest|]; cbn [mbind option_bind].
  - destruct Hv as [(Hw & Hd1 & Hc) ->]. specialize (IH (left - value_count v) ltac:(lia)).
    destruct (items_check depth vs (left - value_count v)) as [rest|]; rewrite Forall_cons_iff; [|intuition lia]. intuition lia.
  - rewrite Forall_cons_iff. assert (0 <= items_count vs).
    { clear. induction vs as [|v vs IH]; cbn [items_count fold_right]; [lia|]. fold (items_count vs). pose proof (value_count_pos v). lia. }
    intuition lia.
Qed.

Definition member_ok (m : bytes * jval) : Prop := mem_byte NUL m.1 = false /\ wholesome m.2.

Lemma members_count_nonneg ms : 0 <= members_count ms.
Proof. induction ms as [|m ms IH]; cbn [members_count fold_right]; [lia|]. fold (members_count ms). pose proof (value_count_pos m.2). lia. Qed.

Lemma seen_before k seen : existsb (str_eq k) seen = true <-> In k seen.
Proof. rewrite existsb_exists. split; [intros (x & Hx & E); apply str_eq_true in E; by subst|]. intros H. exists k. by rewrite str_eq_refl. Qed.

Definition fresh_keys (seen : list bytes) (ms : list (bytes * jval)) : Prop :=
  NoDup (keys ms) /\ Forall (fun k => ~ In k seen) (keys ms).

Lemma fresh_keys_cons seen k v ms : fresh_keys seen ((k, v) :: ms) <-> ~ In k seen /\ fresh_keys (k :: seen) ms.
Proof.
  unfold fresh_keys. cbn [keys map fst]. fold (keys ms). rewrite list.NoDup_cons, Forall_cons_iff, !Forall_forall, list_elem_of_In.
  split.
  - intros [[H1 H2] [H3 H4]]. split_and!; try done. intros x Hx [->|?]; [done|]. by apply (H4 x).
  - intros (H1 & H2 & H3). split_and!; try done; [intros Hk; by apply (H3 k Hk); left|]. intros x Hx Hs. apply (H3 x Hx). by right.
Qed.

Lemma members_check_spec ms seen depth left : depth <= VALUE_DEPTH ->
  Forall (fun m => spends_value m.2) ms -> 0 <= left ->
  spends (members_check depth seen ms left) (fresh_keys seen ms /\ Forall member_ok ms)
    (members_depth ms) (members_count ms) depth left.
Proof.
  intros Hd Hms. revert seen left. induction Hms as [|[k v] ms Hv _ IH]; intros seen left Hl;
    cbn [members_check members_depth members_count fold_right snd].
  { split; [split; [split; [split; constructor|constructor]|lia]|lia]. }
  fold (members_depth ms) (members_count ms) (members_check depth). cbn [snd] in Hv. rewrite fresh_keys_cons, Forall_cons_iff.
  unfold member_ok at 1. cbn [fst snd]. pose proof (members_count_nonneg ms). pose proof (value_count_pos v). pose proof (value_depth_nonneg v).
  pose proof (valid_string_spec k (depth + 1) left Hl) as Hk. unfold spends, within in *.
  destruct (valid_string k (depth + 1) left) as [rest|]; cbn [mbind option_bind]; [|intuition lia]. destruct Hk as [Hk ->].
  specialize (Hv (depth + 1) (left - 1) ltac:(lia)). unfold spends, within in Hv.
  destruct (valid_value v (depth + 1) (left - 1)) as [rest|]; cbn [mbind option_bind]; [|intuition lia]. destruct Hv as [Hv ->].
  destruct (existsb (str_eq k) seen) eqn:Es; [apply seen_before in Es; intuition lia|].
  assert (~ In k seen) by (rewrite <- seen_before, Es; done).
  specialize (IH (k :: seen) (left - 1 - value_count v) ltac:(lia)).
  destruct (members_check depth (k :: seen) ms _) as [rest|]; intuition lia.
Qed.

Lemma valid_value_spec v : spends_value v.
Proof.
  induction v as [| | | s |vs IH|ms IH] using jval_nested; intros depth left Hl; try by apply enter_spec.
  - by apply valid_string_spec.
  - cbn [valid_value value_depth value_count]. pose proof (enter_spec depth left Hl) as He. unfold spends, within in He.
    change (spends (left ← enter depth left; items_check depth vs left) (wholesome (JArr vs)) (items_depth vs) (1 + items_count vs) depth left).
    assert (0 <= items_depth vs) by (apply (value_depth_nonneg (JArr vs))).
    assert (1 <= 1 + items_count vs) by (apply (value_count_pos (JArr vs))).
    rewrite wholesome_arr. unfold spends, within. destruct (enter depth left) as [rest|]; cbn [mbind option_bind]; [|intuition lia].
    destruct He as [He ->]. pose proof (items_check_spec vs depth (left - 1) ltac:(lia) IH ltac:(lia)) as Hi. unfold spends, within in Hi.
    destruct (items_check depth vs (left - 1)) as [rest|]; intuition lia.
  - cbn [valid_value value_depth value_count]. pose proof (enter_spec depth left Hl) as He. unfold spends, within in He.
    change (spends (left ← enter depth left; if (OBJECT_MEMBERS <? length ms)%nat then None else members_check depth [] ms left)
      (wholesome (JObj ms)) (members_depth ms) (1 + members_count ms) depth left).
    assert (0 <= members_depth ms) by (apply (value_depth_nonneg (JObj ms))). pose proof (members_count_nonneg ms).
    assert (wholesome (JObj ms) <-> (length ms <= OBJECT_MEMBERS)%nat /\ fresh_keys [] ms /\ Forall member_ok ms) as Hw.
    { rewrite wholesome_obj. unfold fresh_keys. assert (Forall (fun k => ~ In k []) (keys ms)) by (apply Forall_forall; by intros ? ? []).
      intuition. }
    rewrite Hw. unfold spends, within. destruct (enter depth left) as [rest|]; cbn [mbind option_bind]; [|intuition lia].
    destruct He as [He ->]. destruct (Nat.ltb_spec OBJECT_MEMBERS (length ms)); [intuition lia|].
    pose proof (members_check_spec ms [] depth (left - 1) ltac:(lia) IH ltac:(lia)) as Hi. unfold spends, within in Hi.
    destruct (members_check depth [] ms (left - 1)) as [rest|]; intuition lia.
Qed.

(** What the limits admit. *)
Definition exec_value (v : jval) : Prop := wholesome v /\ value_depth v <= VALUE_DEPTH /\ value_count v <= VALUE_COUNT.

Lemma exec_json_valid_spec v : tny_exec_json_valid (Some v) = true <-> exec_value v.
Proof.
  unfold tny_exec_json_valid, exec_value. rewrite bool_decide_eq_true.
  pose proof (valid_value_spec v 0 VALUE_COUNT ltac:(unfold VALUE_COUNT; lia)) as H. unfold spends, within in H.
  destruct (valid_value v 0 VALUE_COUNT) as [rest|].
  - destruct H as [H _]. split; [intros _; exact H|by eexists].
  - split; [by intros []|]. intros Hv. destruct (H Hv).
Qed.

(** ** Lemmas: the envelope *)

(** The members of a message. *)
Definition message_members (id : Z) (kind : tny_exec_kind) (body : jval) : list (bytes * jval) :=
  [(B"jsonrpc", JStr B"2.0"); (B"version", JNum (JUint TNY_EXEC_PROTOCOL_VERSION)); (B"id", JNum (JUint id))] ++
  match method_name kind with
  | Some method => [(B"method", JStr method); (B"params", body)]
  | None => [(B"result", body)]
  end.

Lemma message_keys_nodup id kind body : NoDup (keys (message_members id kind body)).
Proof. apply (bool_decide_unpack _). unfold message_members. destruct (method_name kind); vm_compute; exact I. Qed.

Lemma message_keys_length id kind body :
  length (message_members id kind body) = match method_name kind with Some _ => 5%nat | None => 4%nat end.
Proof. unfold message_members. by destruct (method_name kind). Qed.

Lemma method_kind_name kind : is_Some (method_name kind) -> method_kind (default [] (method_name kind)) = kind.
Proof. destruct kind; intros [? ?]; vm_compute in *; done. Qed.

Lemma method_kind_sound method kind : method_kind method = kind -> kind <> INVALID -> method_name kind = Some method.
Proof.
  unfold method_kind. enough (forall ks start, (start <> INVALID -> method_name start = Some method) ->
    fold_left (fun kind i => match method_name i with Some name => if str_eq method name then i else kind | None => kind end) ks start = kind ->
    kind <> INVALID -> method_name kind = Some method) as H by (by apply H).
  induction ks as [|k ks IH]; intros start Hs; cbn [fold_left]; [by intros <-|]. apply IH. intros H.
  destruct (method_name k) as [name|] eqn:E; [|by apply Hs]. destruct (str_eq method name) eqn:En; [|by apply Hs].
  apply str_eq_true in En. by subst.
Qed.

Lemma c_str_plain s : mem_byte NUL s = false -> c_str s = s.
Proof.
  unfold mem_byte. induction s as [|c s IH]; cbn [existsb c_str]; [done|]. rewrite orb_false_iff. intros [E H].
  rewrite (Z.eqb_sym c NUL), E, IH by done. done.
Qed.

(** The string of a wholesome object's member. *)
Lemma wholesome_str ms key s : wholesome (JObj ms) -> jget_str (Some (JObj ms)) key = Some s <-> assoc key ms = Some (JStr s).
Proof.
  intros (_ & _ & Hms)%wholesome_obj. unfold jget_str, jget_strn, jget.
  assert (forall t, assoc key ms = Some (JStr t) -> c_str t = t) as Hc.
  { intros t E%assoc_in. rewrite Forall_forall in Hms. destruct (Hms _ E) as [_ Ht]. by apply c_str_plain. }
  destruct (assoc key ms) as [[| | |t| |]|]; try done. cbn [fst]. rewrite fmap_Some. specialize (Hc t eq_refl).
  split; [intros (x & [= <-] & ->); by rewrite Hc|intros [= <-]; exists t; by rewrite Hc].
Qed.

Lemma wholesome_no_str ms key : wholesome (JObj ms) ->
  jget_str (Some (JObj ms)) key = None <-> forall s, assoc key ms <> Some (JStr s).
Proof.
  intros Hw. unfold jget_str, jget_strn, jget. destruct (assoc key ms) as [[| | |t| |]|]; try (split; [by intros _ s|done]).
  cbn. split; [done|]. intros H. by destruct (H t).
Qed.

Lemma uint_of_some v n : uint_of v = Some n <-> v = Some (JNum (JUint n)).
Proof. destruct v as [[| |[m|m|]| | |]|]; cbn; naive_solver. Qed.

Lemma permutation_members ms ns : NoDup (keys ns) -> length ms = length ns ->
  Forall (fun m => assoc m.1 ms = Some m.2) ns -> Permutation ns ms.
Proof.
  intros Hnd Hl Hin. apply NoDup_Permutation_bis; [|lia|].
  - apply NoDup_ListNoDup. eapply NoDup_fmap_1. exact Hnd.
  - intros [k v] H. rewrite Forall_forall in Hin. by apply assoc_in, (Hin (k, v)).
Qed.

Lemma members_permutation ms ns : NoDup (keys ms) -> Permutation ns ms -> Forall (fun m => assoc m.1 ms = Some m.2) ns.
Proof.
  intros Hnd Hp. apply Forall_forall. intros [k v] Hin. apply assoc_nodup; [done|]. by apply (Permutation_in _ Hp).
Qed.

Lemma envelope_sound ms id kind body :
  tny_exec_envelope (Some (JObj ms)) = (kind, id, Some body) -> kind <> INVALID ->
  exec_value (JObj ms) /\ id <> 0 /\ (kind <> RESULT -> is_obj (Some body) = true) /\ Permutation (message_members id kind body) ms.
Proof.
  unfold tny_exec_envelope. cbn [is_obj negb orb]. destruct (tny_exec_json_valid _) eqn:Ev; cbn [negb]; [|by intros [= <-]].
  apply exec_json_valid_spec in Ev. pose proof Ev as (Hw & _).
  destruct (jget_str _ B"jsonrpc") as [rpc|] eqn:Er; [|by intros [= <-]]. apply (wholesome_str _ _ _ Hw) in Er.
  destruct (uint_of (jget _ B"version")) as [version|] eqn:Eve; [|by intros [= <-]]. apply uint_of_some in Eve.
  destruct (uint_of (jget _ B"id")) as [id'|] eqn:Ei; [|by intros [= <-]]. apply uint_of_some in Ei.
  destruct (negb _ || _ || _) eqn:Eg; [by intros [= <-]|]. rewrite !orb_false_iff, !negb_false_iff, str_eq_true, Z.eqb_eq, Z.eqb_neq in Eg.
  destruct Eg as [[-> ->] Hid]. cbn [jget] in Eve, Ei.
  destruct (jget_str _ B"method") as [method|] eqn:Em.
  - apply (wholesome_str _ _ _ Hw) in Em. destruct (Nat.eqb_spec (length (obj_members (Some (JObj ms)))) 5) as [Hl|]; [|by intros [= <-]].
    destruct (is_obj (jget _ B"params")) eqn:Ep; [|by intros [= <-]]. cbn [andb]. intros [= Hk <- Hb] Hne.
    apply (method_kind_sound _ _ Hk) in Hne as Hn. split_and!; [done|done|intros _; cbn [jget] in Ep; by rewrite Hb in Ep|].
    apply permutation_members; [apply message_keys_nodup|by rewrite message_keys_length, Hn|].
    unfold message_members. rewrite Hn. cbn [app]. by repeat constructor.
  - destruct (jget _ B"result") as [result|] eqn:Eres; [|by intros [= <-]].
    destruct (Nat.eqb_spec (length (obj_members (Some (JObj ms)))) 4) as [Hl|]; [|by intros [= <-]]. intros [= <- <- <-] _.
    split_and!; [done..|]. apply permutation_members; [apply message_keys_nodup|done|]. cbn. by repeat constructor.
Qed.

Lemma envelope_complete ms id kind body :
  exec_value (JObj ms) -> id <> 0 -> kind <> INVALID -> (kind <> RESULT -> is_obj (Some body) = true) ->
  Permutation (message_members id kind body) ms -> tny_exec_envelope (Some (JObj ms)) = (kind, id, Some body).
Proof.
  intros Hv Hid Hk Hb Hp. pose proof Hv as (Hw & _). pose proof Hw as (_ & Hnd & _)%wholesome_obj.
  pose proof (members_permutation _ _ Hnd Hp) as Hm. apply Permutation_length in Hp. rewrite message_keys_length in Hp.
  unfold tny_exec_envelope. cbn [is_obj negb orb]. rewrite (proj2 (exec_json_valid_spec _) Hv). cbn [negb].
  unfold message_members in Hm. cbn [app] in Hm. rewrite !Forall_cons_iff in Hm. cbn [fst snd] in Hm. destruct Hm as (E1 & E2 & E3 & Hm).
  rewrite (proj2 (wholesome_str _ _ _ Hw) E1). cbn [jget obj_members]. rewrite E2, E3. cbn [uint_of].
  rewrite str_eq_refl, Z.eqb_refl, (proj2 (Z.eqb_neq id 0)) by done. cbn [negb orb].
  destruct (method_name kind) as [method|] eqn:En.
  - rewrite !Forall_cons_iff in Hm. cbn [fst snd] in Hm. destruct Hm as (E4 & E5 & _). rewrite (proj2 (wholesome_str _ _ _ Hw) E4).
    rewrite E5, <- Hp, Hb by (by intros ->). cbn [Nat.eqb andb]. pose proof (method_kind_name kind ltac:(by rewrite En)) as Hmk.
    rewrite En in Hmk. change (method_kind method = kind) in Hmk. by rewrite Hmk.
  - rewrite !Forall_cons_iff in Hm. cbn [fst snd] in Hm. destruct Hm as [E4 _].
    rewrite (proj2 (wholesome_no_str ms B"method" Hw)), E4, <- Hp; [by destruct kind|]. intros s Es.
    assert (length [B"jsonrpc"; B"version"; B"id"; B"result"; B"method"] <= length (keys ms))%nat as Hlen;
      [|unfold keys in Hlen; rewrite length_map in Hlen; cbn in Hlen; lia].
    apply NoDup_incl_length; [apply NoDup_ListNoDup; by apply (bool_decide_unpack _)|].
    intros x Hx. cbn [In] in Hx. destruct Hx as [<-|[<-|[<-|[<-|[<-|[]]]]]]; eauto using assoc_key.
Qed.

(** ** Properties *)

(** C36: a value is accepted exactly when it has no NUL in a string or key, no
    key twice and at most 512 members in an object, lies at most 64 levels
    deep, and has at most 200000 values and keys. *)
Theorem exec_json_valid_iff (root : option jval) :
  tny_exec_json_valid root = true <->
  exists v, root = Some v /\ wholesome v /\ value_depth v <= 64 /\ value_count v <= 200000.
Proof.
  destruct root as [v|]; [|split; [done|by intros (? & [=] & _)]].
  rewrite exec_json_valid_spec. split; [intros H; by exists v|by intros (? & [= <-] & ?)].
Qed.

(** A document is taken for a message of some kind exactly when it is, up
    to the order of its members, the message that is written for that kind,
    identifier and body: a nonzero identifier, an object as the body of a
    request, nothing else in it, and all of it within the limits. *)
Theorem exec_envelope_iff (jwrite : jval -> option bytes) (root : option jval) (kind : tny_exec_kind) (id : Z) (body : jval)
    (Hk : kind <> INVALID) :
  (tny_exec_envelope root = (kind, id, Some body) <->
   exists ms, root = Some (JObj ms) /\ exec_value (JObj ms) /\ id <> 0 /\ (kind <> RESULT -> is_obj (Some body) = true) /\
     Permutation (message_members id kind body) ms) /\
  tny_exec_message jwrite id kind (Some body) = jwrite (JObj (message_members id kind body)).
Proof.
  split; [split|].
  - intros E. destruct root as [[| | | | |ms]|]; try (unfold tny_exec_envelope, exec_refused in E; cbn in E; congruence).
    exists ms. split; [done|]. by apply envelope_sound.
  - intros (ms & -> & Hv & Hid & Hb & Hp). by apply envelope_complete.
  - unfold tny_exec_message, message_doc, message_members. by destruct kind.
Qed.

(** ** Concrete instances *)

Example exec_envelope_iff_witness :
  tny_exec_envelope (Some (JObj [(B"version", JNum (JUint 1)); (B"jsonrpc", JStr B"2.0"); (B"id", JNum (JUint 7));
    (B"method", JStr B"ask"); (B"params", JObj [])])) = (ASK, 7, Some (JObj [])).
Proof.
  apply (proj1 (exec_envelope_iff (fun _ => None) _ ASK 7 (JObj []) ltac:(discriminate))).
  eexists. split; [reflexivity|]. split; [apply exec_json_valid_spec; vm_compute; reflexivity|].
  split; [discriminate|]. split; [reflexivity|]. apply perm_swap.
Defined.
