(* ===== verification/ExecControl.v ===== *)
(** Control requests and responses of a nested execution
    (src/src/core/execution_control.c): both encodings and both decoders. *)
From S2P Require Import Prelude Json JsonValue ExecProtocol.

Open Scope Z_scope.

(** ** Data (src/src/backends/openai/openai.h) *)

Definition CONTROL_TEXT_MAX : Z := 4 * 1024 * 1024.
Definition CONTROL_TOTAL_MAX : Z := 8 * 1024 * 1024.
Definition CONTROL_ID_MAX : Z := 4096.
Definition PERMISSION_MASK : Z := Z.lor (Z.lor 1 2) 4.

Inductive tny_openai_control_kind :=
  | PRE_TOOL | PERMISSION | POST_TOOL | TOOL_BATCH | PROVIDER_REQUEST | PROVIDER_RESPONSE | SUBAGENT_START | SUBAGENT_END.
Inductive tny_openai_permission_decision := PERMISSION_ABSTAIN | PERMISSION_ALLOW_ONCE | PERMISSION_DENY.

#[export] Instance control_kind_eq : EqDecision tny_openai_control_kind.
Proof. solve_decision. Defined.

Record tny_openai_control_request := mk_request {
  kind : tny_openai_control_kind; tool_id : option bytes; tool_name : option bytes; arguments_json : option bytes;
  original_arguments_json : option bytes; result : option bytes; original_ok : bool; control_extension : option bytes;
  control_reason : option bytes; permission_summary : option bytes; permission_options : Z; tool_ids_json : option bytes;
  failed_tools : Z; method : option bytes; endpoint : option bytes; status : Z; stream : bool; connection_reused : bool;
  wire_api : option bytes; step : Z; logical_request_id : option bytes; attempt : Z; subagent_id : option bytes;
  subagent_action : option bytes; subagent_outcome : option bytes; subagent_ok : bool }.

Record tny_openai_control_response := mk_response {
  r_arguments_json : option bytes; r_result : option bytes; r_extension : option bytes; r_reason : option bytes;
  r_deny : bool; r_stop : bool; r_result_replaced : bool; r_result_is_error : bool;
  r_permission : tny_openai_permission_decision }.

Definition kind_code (k : tny_openai_control_kind) : Z :=
  match k with
  | PRE_TOOL => 1 | PERMISSION => 2 | POST_TOOL => 3 | TOOL_BATCH => 4 | PROVIDER_REQUEST => 5 | PROVIDER_RESPONSE => 6
  | SUBAGENT_START => 7 | SUBAGENT_END => 8
  end.
Definition kind_of (n : Z) : option tny_openai_control_kind :=
  List.find (fun k => kind_code k =? n)
    [PRE_TOOL; PERMISSION; POST_TOOL; TOOL_BATCH; PROVIDER_REQUEST; PROVIDER_RESPONSE; SUBAGENT_START; SUBAGENT_END].
Definition permission_code (p : tny_openai_permission_decision) : Z :=
  match p with PERMISSION_ABSTAIN => 0 | PERMISSION_ALLOW_ONCE => 1 | PERMISSION_DENY => 2 end.
Definition permission_of (n : Z) : option tny_openai_permission_decision :=
  List.find (fun p => permission_code p =? n) [PERMISSION_ABSTAIN; PERMISSION_ALLOW_ONCE; PERMISSION_DENY].

(** A string field: its key, where it is kept, its limit. *)
Record control_string (R : Type) := mk_string { key : bytes; field : R -> option bytes; limit : Z }.
Arguments mk_string {R}.
Arguments key {R}.
Arguments field {R}.
Arguments limit {R}.

Definition request_strings : list (control_string tny_openai_control_request) :=
  [mk_string B"tool_id" tool_id CONTROL_ID_MAX; mk_string B"tool_name" tool_name CONTROL_ID_MAX;
   mk_string B"arguments_json" arguments_json CONTROL_TEXT_MAX;
   mk_string B"original_arguments_json" original_arguments_json CONTROL_TEXT_MAX;
   mk_string B"result" result CONTROL_TEXT_MAX; mk_string B"control_extension" control_extension CONTROL_ID_MAX;
   mk_string B"control_reason" control_reason CONTROL_TEXT_MAX;
   mk_string B"permission_summary" permission_summary CONTROL_TEXT_MAX;
   mk_string B"subagent_id" subagent_id CONTROL_ID_MAX; mk_string B"subagent_action" subagent_action CONTROL_ID_MAX;
   mk_string B"subagent_outcome" subagent_outcome CONTROL_ID_MAX].

Definition response_strings : list (control_string tny_openai_control_response) :=
  [mk_string B"arguments_json" r_arguments_json CONTROL_TEXT_MAX; mk_string B"result" r_result CONTROL_TEXT_MAX;
   mk_string B"extension" r_extension CONTROL_ID_MAX; mk_string B"reason" r_reason CONTROL_TEXT_MAX].

(** ** Checks *)

Definition supported_kind (k : tny_openai_control_kind) : bool :=
  match k with PRE_TOOL | PERMISSION | POST_TOOL | SUBAGENT_START | SUBAGENT_END => true | _ => false end.

(** A string that is there and not empty. *)
Definition given (s : option bytes) : bool := match s with Some (_ :: _) => true | _ => false end.

Definition valid_request (r : tny_openai_control_request) : bool :=
  if negb (supported_kind (kind r)) || (permission_options r <? 0) ||
     negb (Z.land (permission_options r) (Z.lnot PERMISSION_MASK) =? 0)
  then false
  else
    match kind r with
    | SUBAGENT_START | SUBAGENT_END => given (subagent_id r) && given (subagent_action r)
    | _ => given (tool_id r) && given (tool_name r)
    end.

Definition valid_response (r : tny_openai_control_response) : bool :=
  negb (r_result_replaced r) || bool_decide (is_Some (r_result r)).

(** ** Strings *)

Section strings.
Context {R : Type}.

(** The members, in the order of the table; [total] bytes are used already. *)
Fixpoint encode_strings (record : R) (fields : list (control_string R)) (total : Z) : option (list (bytes * jval)) :=
  match fields with
  | [] => Some []
  | f :: fields =>
    match field f record with
    | None => rest ← encode_strings record fields total; Some ((key f, JNull) :: rest)
    | Some str =>
      let len := Z.of_nat (length str) in
      if (limit f <? len) || (CONTROL_TOTAL_MAX - total <? len) then None
      else rest ← encode_strings record fields (total + len); Some ((key f, JStr str) :: rest)
    end
  end.

Fixpoint decode_strings (value : option jval) (fields : list (control_string R)) (total : Z) : option (list (option bytes)) :=
  match fields with
  | [] => Some []
  | f :: fields =>
    match jget value (key f) with
    | Some JNull => rest ← decode_strings value fields total; Some (None :: rest)
    | Some (JStr str) =>
      let len := Z.of_nat (length str) in
      if (limit f <? len) || (CONTROL_TOTAL_MAX - total <? len) || mem_byte NUL str then None
      else rest ← decode_strings value fields (total + len); Some (Some str :: rest)
    | _ => None
    end
  end.

End strings.

Definition integer (value : option jval) (key : bytes) (min max : Z) : option Z :=
  match jget value key with
  | Some (JNum (JUint n)) => if (max <? n) || (n <? min) then None else Some n
  | Some (JNum (JSint n)) => if (n <? min) || (max <? n) then None else Some n
  | _ => None
  end.

Definition boolean (value : option jval) (key : bytes) : option bool :=
  match jget value key with Some (JBool b) => Some b | _ => None end.

(** ** Requests *)

(** The members after the strings. *)
Definition request_tail (r : tny_openai_control_request) : list (bytes * jval) :=
  [(B"kind", JNum (JSint (kind_code (kind r)))); (B"permission_options", JNum (JSint (permission_options r)));
   (B"original_ok", JBool (original_ok r)); (B"subagent_ok", JBool (subagent_ok r))].

(** [memory]: yyjson had memory for every member. *)
Definition tny_execution_control_encode_request (memory : bool) (request : option tny_openai_control_request) : option jval :=
  r ← request;
  if negb (valid_request r) || negb memory then None
  else members ← encode_strings r request_strings 0; Some (JObj (members ++ request_tail r)).

(** A request with these strings and nothing else that is not carried. *)
Definition request_from (k : tny_openai_control_kind) (options : Z) (ok sub : bool) (strings : list (option bytes)) :
    option tny_openai_control_request :=
  match strings with
  | [id; name; args; original; res; ext; reason; summary; sid; action; outcome] =>
    Some (mk_request k id name args original res ok ext reason summary options None 0 None None 0 false false None 0 None 0
      sid action outcome sub)
  | _ => None
  end.

Definition tny_execution_control_decode_request (value : option jval) : option tny_openai_control_request :=
  if negb (is_obj value) || negb (length (obj_members value) =? length request_strings + 4)%nat then None
  else
    strings ← decode_strings value request_strings 0;
    code ← integer value B"kind" (kind_code PRE_TOOL) (kind_code SUBAGENT_END);
    options ← integer value B"permission_options" 0 PERMISSION_MASK;
    ok ← boolean value B"original_ok";
    sub ← boolean value B"subagent_ok";
    k ← kind_of code;
    decoded ← request_from k options ok sub strings;
    if valid_request decoded then Some decoded else None.

(** ** Responses *)

Definition response_tail (r : tny_openai_control_response) : list (bytes * jval) :=
  [(B"permission", JNum (JSint (permission_code (r_permission r)))); (B"deny", JBool (r_deny r)); (B"stop", JBool (r_stop r));
   (B"result_replaced", JBool (r_result_replaced r)); (B"result_is_error", JBool (r_result_is_error r))].

Definition tny_execution_control_encode_response (memory : bool) (response : option tny_openai_control_response) : option jval :=
  r ← response;
  if negb (valid_response r) || negb memory then None
  else members ← encode_strings r response_strings 0; Some (JObj (members ++ response_tail r)).

Definition response_from (p : tny_openai_permission_decision) (deny stop replaced error : bool) (strings : list (option bytes)) :
    option tny_openai_control_response :=
  match strings with
  | [args; res; ext; reason] => Some (mk_response args res ext reason deny stop replaced error p)
  | _ => None
  end.

(** [memory]: the strings could be copied; without it the response is zeroed. *)
Definition tny_execution_control_decode_response (memory : bool) (value : option jval) : option tny_openai_control_response :=
  if negb (is_obj value) || negb (length (obj_members value) =? length response_strings + 5)%nat then None
  else
    strings ← decode_strings value response_strings 0;
    code ← integer value B"permission" (permission_code PERMISSION_ABSTAIN) (permission_code PERMISSION_DENY);
    deny ← boolean value B"deny";
    stop ← boolean value B"stop";
    replaced ← boolean value B"result_replaced";
    error ← boolean value B"result_is_error";
    p ← permission_of code;
    decoded ← response_from p deny stop replaced error strings;
    if valid_response decoded && (memory || forallb (fun s => negb (bool_decide (is_Some s))) strings) then Some decoded else None.

(** ** Lemmas: strings *)

Definition string_json (s : option bytes) : jval := match s with Some s => JStr s | None => JNull end.

(** Strings that fit the fields, after [total] bytes. *)
Fixpoint fit {R} (fields : list (control_string R)) (strings : list (option bytes)) (total : Z) : Prop :=
  match fields, strings with
  | [], [] => True
  | f :: fields, None :: strings => fit fields strings total
  | f :: fields, Some s :: strings =>
    Z.of_nat (length s) <= limit f /\ total + Z.of_nat (length s) <= CONTROL_TOTAL_MAX /\
    fit fields strings (total + Z.of_nat (length s))
  | _, _ => False
  end.

Definition strings_of {R} (record : R) (fields : list (control_string R)) : list (option bytes) := map (fun f => field f record) fields.

(** The members of a record's strings. *)
Definition string_members {R} (fields : list (control_string R)) (strings : list (option bytes)) : list (bytes * jval) :=
  zip_with (fun f s => (key f, string_json s)) fields strings.

Definition no_nul (s : option bytes) : Prop := match s with Some s => mem_byte NUL s = false | None => True end.

Lemma encode_strings_spec {R} (record : R) fields total :
  match encode_strings record fields total with
  | Some ms => fit fields (strings_of record fields) total /\ ms = string_members fields (strings_of record fields)
  | None => ~ fit fields (strings_of record fields) total
  end.
Proof.
  revert total. induction fields as [|f fields IH]; intros total; cbn [encode_strings strings_of map fit]; [done|].
  fold (strings_of record fields). destruct (field f record) as [str|].
  - destruct (Z.ltb_spec (limit f) (Z.of_nat (length str))); cbn [orb]; [lia|].
    destruct (Z.ltb_spec (CONTROL_TOTAL_MAX - total) (Z.of_nat (length str))); [lia|].
    specialize (IH (total + Z.of_nat (length str))). destruct (encode_strings record fields _); cbn [mbind option_bind]; [|tauto].
    destruct IH as [? ->]. split; [split_and!; [done|lia|done]|done].
  - specialize (IH total). destruct (encode_strings record fields total); cbn [mbind option_bind]; [|done].
    by destruct IH as [? ->].
Qed.

Lemma decode_strings_spec {R} value (fields : list (control_string R)) total strings :
  decode_strings value fields total = Some strings <->
  fit fields strings total /\ Forall2 (fun f s => jget value (key f) = Some (string_json s) /\ no_nul s) fields strings.
Proof.
  revert total strings. induction fields as [|f fields IH]; intros total strings; cbn [decode_strings].
  { split; [intros [= <-]; by split|]. intros [_ H]. by inversion H. }
  split.
  - destruct (jget value (key f)) as [[| | |str| |]|] eqn:E; try done; cbn [mbind option_bind].
    + destruct (decode_strings value fields total) as [rest|] eqn:Er; [|done]. intros [= <-]. apply IH in Er as [Hf Hr].
      split; [done|]. by constructor.
    + destruct (Z.ltb_spec (limit f) (Z.of_nat (length str))); [done|].
      destruct (Z.ltb_spec (CONTROL_TOTAL_MAX - total) (Z.of_nat (length str))); [done|]. cbn [orb].
      destruct (mem_byte NUL str) eqn:En; [done|]. destruct (decode_strings value fields (total + _)) as [rest|] eqn:Er; [|done].
      intros [= <-]. apply IH in Er as [Hf Hr]. split; [cbn [fit]; split_and!; [done|lia|done]|]. by constructor.
  - intros [Hf H]. destruct strings as [|s strings]; [by inversion H|]. apply list.Forall2_cons in H as [[E Hn] H]. rewrite E.
    destruct s as [str|]; cbn [string_json fit no_nul] in *.
    + destruct Hf as (H1 & H2 & H3). rewrite (proj2 (Z.ltb_ge (limit f) _)), (proj2 (Z.ltb_ge (CONTROL_TOTAL_MAX - total) _)), Hn by lia.
      cbn [orb]. by rewrite (proj2 (IH _ strings)).
    + cbn [mbind option_bind]. by rewrite (proj2 (IH _ strings)).
Qed.

Lemma fit_length {R} (fields : list (control_string R)) strings total : fit fields strings total -> length strings = length fields.
Proof.
  revert strings total. induction fields as [|f fields IH]; intros [|s strings] total; cbn [fit]; try done.
  destruct s; [intros (_ & _ & H)|intros H]; cbn [length]; f_equal; by eapply IH.
Qed.

(** ** Lemmas: members *)

Lemma wire_string y s : wire y = string_json s <-> y = string_json s.
Proof.
  destruct y as [| |[n|n|]| | |]; destruct s; cbn; try done. all: destruct (0 <=? n); done.
Qed.

Lemma wire_bool y b : wire y = JBool b <-> y = JBool b.
Proof. destruct y as [| |[n|n|]| | |]; cbn; try done. destruct (0 <=? n); done. Qed.

(** A member of the object as the reader sees it. *)
Definition wired (value : option jval) (key : bytes) (v : jval) : Prop := wire <$> jget value key = Some v.

Lemma wired_string value key s : wired value key (string_json s) <-> jget value key = Some (string_json s).
Proof.
  unfold wired. destruct (jget value key) as [y|]; cbn; [|done]. split; [intros [= E]|intros [= ->]]; [by apply wire_string in E as ->|].
  by destruct s.
Qed.

Lemma boolean_spec value key b : boolean value key = Some b <-> wired value key (JBool b).
Proof.
  unfold boolean, wired. destruct (jget value key) as [y|]; cbn; [|done]. destruct y as [| |[n|n|]| | |]; cbn; try done.
  - split; [by intros [= ->]|by intros [= ->]].
  - destruct (0 <=? n); done.
Qed.

Lemma integer_spec value key min max n : 0 <= min ->
  integer value key min max = Some n <-> wired value key (JNum (JUint n)) /\ min <= n <= max.
Proof.
  intros Hm. unfold integer, wired. destruct (jget value key) as [y|]; cbn; [|split; [done|by intros []]].
  destruct y as [| |[k|k|]| | |]; cbn; try (by split; [|intros [? _]]).
  - destruct (Z.ltb_spec max k), (Z.ltb_spec k min); cbn [orb]; (split; [intros E|intros [E ?]]); try discriminate E;
      injection E as ->; first [lia | done | by split].
  - destruct (Z.ltb_spec max k), (Z.ltb_spec k min), (Z.leb_spec 0 k); cbn [orb]; (split; [intros E|intros [E ?]]); try discriminate E;
      injection E as ->; first [lia | done | by split].
Qed.

Lemma wired_members ms ns : NoDup (keys ns) ->
  (length ms = length ns /\ Forall (fun m => wired (Some (JObj ms)) m.1 m.2) ns) <-> Permutation ns (wire_members ms).
Proof.
  intros Hnd. unfold wired. cbn [jget]. split.
  - intros [Hl H]. apply permutation_members; [done|by unfold wire_members; rewrite length_map|].
    eapply Forall_impl; [|exact H]. intros m. cbv beta. by rewrite assoc_wire.
  - intros Hp. split; [apply Permutation_length in Hp; unfold wire_members in Hp; by rewrite length_map in Hp|].
    assert (NoDup (keys (wire_members ms))) as Hnd'.
    { apply NoDup_ListNoDup, (Permutation_NoDup (l := keys ns)); [by apply Permutation_map|by apply NoDup_ListNoDup]. }
    eapply Forall_impl; [|exact (members_permutation _ _ Hnd' Hp)]. intros m. cbv beta. by rewrite assoc_wire.
Qed.

Lemma strings_wired {R} value (fields : list (control_string R)) strings : length strings = length fields ->
  Forall (fun m => wired value m.1 m.2) (string_members fields strings) /\ Forall no_nul strings <->
  Forall2 (fun f s => jget value (key f) = Some (string_json s) /\ no_nul s) fields strings.
Proof.
  revert strings. induction fields as [|f fields IH]; intros [|s strings] Hl; try done.
  cbn [length] in Hl. injection Hl as Hl. specialize (IH strings Hl). unfold string_members in *. cbn [zip_with].
  rewrite !Forall_cons_iff, list.Forall2_cons, <- IH. cbn [fst snd]. rewrite wired_string. tauto.
Qed.

(** ** Lemmas: requests *)

Definition request_members (r : tny_openai_control_request) : list (bytes * jval) :=
  string_members request_strings (strings_of r request_strings) ++
  [(B"kind", JNum (JUint (kind_code (kind r)))); (B"permission_options", JNum (JUint (permission_options r)));
   (B"original_ok", JBool (original_ok r)); (B"subagent_ok", JBool (subagent_ok r))].

(** Nothing is set but what the encoding carries. *)
Definition carried (r : tny_openai_control_request) : Prop :=
  request_from (kind r) (permission_options r) (original_ok r) (subagent_ok r) (strings_of r request_strings) = Some r.

Lemma request_keys r : NoDup (keys (request_members r)).
Proof. apply (bool_decide_unpack _). vm_compute. exact I. Qed.

Lemma kind_of_code n k : kind_of n = Some k <-> n = kind_code k.
Proof.
  unfold kind_of. split; [|by intros ->; destruct k]. intros H. apply List.find_some in H as [_ H]. by apply Z.eqb_eq in H.
Qed.

Lemma valid_options r : valid_request r = true -> 0 <= permission_options r <= PERMISSION_MASK.
Proof.
  unfold valid_request. destruct (negb _ || _ || _) eqn:E; [done|]. intros _. rewrite !orb_false_iff, !negb_false_iff, Z.eqb_eq in E.
  destruct E as [[_ Hn] Hm]. apply Z.ltb_ge in Hn. split; [done|]. change PERMISSION_MASK with (Z.ones 3) in *.
  assert (permission_options r = Z.land (permission_options r) (Z.ones 3)) as ->.
  { rewrite <- (Z.lor_0_r (Z.land _ (Z.ones 3))), <- Hm, <- Z.land_lor_distr_r, Z.lor_lnot_diag. by rewrite Z.land_m1_r. }
  rewrite Z.land_ones by lia. change (Z.ones 3) with 7. change (2 ^ 3) with 8. pose proof (Z.mod_pos_bound (permission_options r) 8). lia.
Qed.

Lemma decode_request_spec ms r :
  tny_execution_control_decode_request (Some (JObj ms)) = Some r <->
  carried r /\ Forall no_nul (strings_of r request_strings) /\ valid_request r = true /\
  fit request_strings (strings_of r request_strings) 0 /\ Permutation (request_members r) (wire_members ms).
Proof.
  rewrite <- (wired_members ms (request_members r)) by apply request_keys. unfold tny_execution_control_decode_request.
  cbn [is_obj negb orb obj_members]. change (length request_strings + 4)%nat with 15%nat.
  change (length (request_members r)) with 15%nat. split.
  - destruct (Nat.eqb_spec (length ms) 15) as [Hl|]; [|done]. cbn [negb].
    destruct (decode_strings _ _ _) as [strings|] eqn:Es; [|done]. apply decode_strings_spec in Es as [Hfit Hs]. cbn [mbind option_bind].
    destruct (integer _ B"kind" _ _) as [code|] eqn:Ek; [|done]. cbn [mbind option_bind].
    destruct (integer _ B"permission_options" _ _) as [options|] eqn:Eo; [|done]. cbn [mbind option_bind].
    destruct (boolean _ B"original_ok") as [ok|] eqn:Eok; [|done]. destruct (boolean _ B"subagent_ok") as [sub|] eqn:Esub; [|done].
    cbn [mbind option_bind]. destruct (kind_of code) as [k|] eqn:Ekk; [|done]. apply kind_of_code in Ekk as ->. cbn [mbind option_bind].
    destruct (request_from k options ok sub strings) as [d|] eqn:Ed; [|done]. cbn [mbind option_bind].
    destruct (valid_request d) eqn:Ev; [|done]. intros [= <-].
    apply integer_spec in Ek as [Ek _]; [|done]. apply integer_spec in Eo as [Eo _]; [|done]. apply boolean_spec in Eok, Esub.
    assert (strings = strings_of d request_strings /\ k = kind d /\ options = permission_options d /\ ok = original_ok d /\ sub = subagent_ok d)
      as (-> & -> & -> & -> & ->).
    { clear -Ed. unfold request_from in Ed.
      repeat match type of Ed with match ?l with _ => _ end = _ => destruct l; try done end. by injection Ed as <-. }
    pose proof (fit_length _ _ _ Hfit) as Hlen. apply (strings_wired _ _ _ Hlen) in Hs as [Hw Hn].
    split_and!; try done. apply Forall_app. split; [done|]. by repeat constructor.
  - intros (Hc & Hn & Hv & Hfit & Hl & Hw). rewrite Hl. cbn [Nat.eqb negb]. apply Forall_app in Hw as [Hw Ht].
    rewrite !Forall_cons_iff in Ht. cbn [fst snd] in Ht. destruct Ht as (Ek & Eo & Eok & Esub & _).
    assert (Hlen : length (strings_of r request_strings) = length request_strings) by done.
    rewrite (proj2 (decode_strings_spec (Some (JObj ms)) request_strings 0 _) (conj Hfit (proj1 (strings_wired _ _ _ Hlen) (conj Hw Hn)))).
    cbn [mbind option_bind]. pose proof (valid_options r Hv).
    rewrite (proj2 (integer_spec (Some (JObj ms)) B"kind" (kind_code PRE_TOOL) (kind_code SUBAGENT_END) (kind_code (kind r)) ltac:(done))) by (split; [done|by destruct (kind r)]).
    cbn [mbind option_bind].
    rewrite (proj2 (integer_spec (Some (JObj ms)) B"permission_options" 0 PERMISSION_MASK (permission_options r) ltac:(lia))) by done.
    cbn [mbind option_bind]. rewrite (proj2 (boolean_spec _ _ _) Eok), (proj2 (boolean_spec _ _ _) Esub). cbn [mbind option_bind].
    rewrite (proj2 (kind_of_code _ _) eq_refl). cbn [mbind option_bind]. rewrite Hc. cbn [mbind option_bind]. by rewrite Hv.
Qed.

Lemma encode_request_spec r v :
  tny_execution_control_encode_request true (Some r) = Some v <->
  valid_request r = true /\ fit request_strings (strings_of r request_strings) 0 /\
  v = JObj (string_members request_strings (strings_of r request_strings) ++ request_tail r).
Proof.
  unfold tny_execution_control_encode_request. cbn [mbind option_bind]. rewrite orb_false_r.
  destruct (valid_request r); cbn [negb]; [|by split; [|intros []]].
  pose proof (encode_strings_spec r request_strings 0) as H. destruct (encode_strings r request_strings 0) as [ms|]; cbn [mbind option_bind].
  - destruct H as [Hf ->]. split; [by intros [= <-]|by intros (_ & _ & ->)].
  - split; [done|]. by intros (_ & ? & _).
Qed.

Lemma wire_members_app ms ns : wire_members (ms ++ ns) = wire_members ms ++ wire_members ns.
Proof. apply map_app. Qed.

Lemma wire_strings {R} (fields : list (control_string R)) strings :
  wire_members (string_members fields strings) = string_members fields strings.
Proof.
  revert strings. induction fields as [|f fields IH]; intros [|s strings]; [done..|]. unfold string_members in *. cbn [zip_with wire_members map].
  f_equal; [by destruct s|]. apply IH.
Qed.

(** ** Lemmas: responses *)

Definition response_members (r : tny_openai_control_response) : list (bytes * jval) :=
  string_members response_strings (strings_of r response_strings) ++
  [(B"permission", JNum (JUint (permission_code (r_permission r)))); (B"deny", JBool (r_deny r)); (B"stop", JBool (r_stop r));
   (B"result_replaced", JBool (r_result_replaced r)); (B"result_is_error", JBool (r_result_is_error r))].

Lemma response_keys r : NoDup (keys (response_members r)).
Proof. apply (bool_decide_unpack _). vm_compute. exact I. Qed.

Lemma permission_of_code n p : permission_of n = Some p <-> n = permission_code p.
Proof.
  unfold permission_of. split; [|by intros ->; destruct p]. intros H. apply List.find_some in H as [_ H]. by apply Z.eqb_eq in H.
Qed.

Lemma decode_response_spec ms r :
  tny_execution_control_decode_response true (Some (JObj ms)) = Some r <->
  Forall no_nul (strings_of r response_strings) /\ valid_response r = true /\
  fit response_strings (strings_of r response_strings) 0 /\ Permutation (response_members r) (wire_members ms).
Proof.
  rewrite <- (wired_members ms (response_members r)) by apply response_keys. unfold tny_execution_control_decode_response.
  cbn [is_obj negb orb obj_members]. change (length response_strings + 5)%nat with 9%nat.
  change (length (response_members r)) with 9%nat. split.
  - destruct (Nat.eqb_spec (length ms) 9) as [Hl|]; [|done]. cbn [negb].
    destruct (decode_strings _ _ _) as [strings|] eqn:Es; [|done]. apply decode_strings_spec in Es as [Hfit Hs]. cbn [mbind option_bind].
    destruct (integer _ B"permission" _ _) as [code|] eqn:Ep; [|done]. cbn [mbind option_bind].
    destruct (boolean _ B"deny") as [deny|] eqn:E1; [|done]. destruct (boolean _ B"stop") as [stop|] eqn:E2; [|done].
    cbn [mbind option_bind]. destruct (boolean _ B"result_replaced") as [repl|] eqn:E3; [|done].
    destruct (boolean _ B"result_is_error") as [err|] eqn:E4; [|done]. cbn [mbind option_bind].
    destruct (permission_of code) as [p|] eqn:Epp; [|done]. apply permission_of_code in Epp as ->. cbn [mbind option_bind].
    destruct (response_from p deny stop repl err strings) as [d|] eqn:Ed; [|done]. cbn [mbind option_bind orb]. rewrite andb_true_r.
    destruct (valid_response d) eqn:Ev; [|done]. intros [= <-].
    apply integer_spec in Ep as [Ep _]; [|done]. apply boolean_spec in E1, E2, E3, E4.
    assert (strings = strings_of d response_strings /\ p = r_permission d /\ deny = r_deny d /\ stop = r_stop d /\
      repl = r_result_replaced d /\ err = r_result_is_error d) as (-> & -> & -> & -> & -> & ->).
    { clear -Ed. unfold response_from in Ed.
      repeat match type of Ed with match ?l with _ => _ end = _ => destruct l; try done end. by injection Ed as <-. }
    pose proof (fit_length _ _ _ Hfit) as Hlen. apply (strings_wired _ _ _ Hlen) in Hs as [Hw Hn].
    split_and!; try done. apply Forall_app. split; [done|]. by repeat constructor.
  - intros (Hn & Hv & Hfit & Hl & Hw). rewrite Hl. cbn [Nat.eqb negb]. apply Forall_app in Hw as [Hw Ht].
    rewrite !Forall_cons_iff in Ht. cbn [fst snd] in Ht. destruct Ht as (Ep & E1 & E2 & E3 & E4 & _).
    assert (Hlen : length (strings_of r response_strings) = length response_strings) by done.
    rewrite (proj2 (decode_strings_spec (Some (JObj ms)) response_strings 0 _) (conj Hfit (proj1 (strings_wired _ _ _ Hlen) (conj Hw Hn)))).
    cbn [mbind option_bind].
    rewrite (proj2 (integer_spec (Some (JObj ms)) B"permission" (permission_code PERMISSION_ABSTAIN) (permission_code PERMISSION_DENY)
      (permission_code (r_permission r)) ltac:(done))) by (split; [done|by destruct (r_permission r)]).
    rewrite (proj2 (boolean_spec _ _ _) E1), (proj2 (boolean_spec _ _ _) E2), (proj2 (boolean_spec _ _ _) E3), (proj2 (boolean_spec _ _ _) E4).
    cbn [mbind option_bind]. rewrite (proj2 (permission_of_code _ _) eq_refl). cbn [mbind option_bind].
    assert (response_from (r_permission r) (r_deny r) (r_stop r) (r_result_replaced r) (r_result_is_error r)
      (strings_of r response_strings) = Some r) as -> by by destruct r. cbn [mbind option_bind orb]. by rewrite Hv.
Qed.

Lemma encode_response_spec r v :
  tny_execution_control_encode_response true (Some r) = Some v <->
  valid_response r = true /\ fit response_strings (strings_of r response_strings) 0 /\
  v = JObj (string_members response_strings (strings_of r response_strings) ++ response_tail r).
Proof.
  unfold tny_execution_control_encode_response. cbn [mbind option_bind]. rewrite orb_false_r.
  destruct (valid_response r); cbn [negb]; [|by split; [|intros []]].
  pose proof (encode_strings_spec r response_strings 0) as H. destruct (encode_strings r response_strings 0) as [ms|]; cbn [mbind option_bind].
  - destruct H as [Hf ->]. split; [by intros [= <-]|by intros (_ & _ & ->)].
  - split; [done|]. by intros (_ & ? & _).
Qed.

Lemma encoded_request r ms : valid_request r = true ->
  ms = string_members request_strings (strings_of r request_strings) ++ request_tail r -> wire_members ms = request_members r.
Proof.
  intros Hv ->. rewrite wire_members_app, wire_strings. unfold request_members. f_equal. pose proof (valid_options r Hv).
  cbn [request_tail wire_members map wire]. rewrite (proj2 (Z.leb_le 0 (permission_options r))) by lia. by destruct (kind r).
Qed.

Lemma encoded_response r ms :
  ms = string_members response_strings (strings_of r response_strings) ++ response_tail r -> wire_members ms = response_members r.
Proof.
  intros ->. rewrite wire_members_app, wire_strings. unfold response_members, response_tail. f_equal. by destruct (r_permission r).
Qed.

(** ** Lemmas: decoding is the inverse of encoding *)

Lemma control_request_decoded (value : jval) (r : tny_openai_control_request) :
  tny_execution_control_decode_request (Some value) = Some r <->
  carried r /\ Forall no_nul (strings_of r request_strings) /\
  exists ms ns, value = JObj ms /\ tny_execution_control_encode_request true (Some r) = Some (JObj ns) /\
    Permutation (wire_members ns) (wire_members ms).
Proof.
  destruct value as [| | | | |ms]; try (split; [done|by intros (_ & _ & ? & ? & [=] & _)]). rewrite decode_request_spec. split.
  - intros (Hc & Hn & Hv & Hf & Hp). split; [done|]. split; [done|]. exists ms. eexists. split; [done|].
    split; [by apply encode_request_spec|]. by rewrite (encoded_request r _ Hv eq_refl).
  - intros (Hc & Hn & ? & ns & [= <-] & He & Hp). apply encode_request_spec in He as (Hv & Hf & [= E]).
    by rewrite (encoded_request r ns Hv E) in Hp.
Qed.

Lemma control_response_decoded (value : jval) (r : tny_openai_control_response) :
  tny_execution_control_decode_response true (Some value) = Some r <->
  Forall no_nul (strings_of r response_strings) /\
  exists ms ns, value = JObj ms /\ tny_execution_control_encode_response true (Some r) = Some (JObj ns) /\
    Permutation (wire_members ns) (wire_members ms).
Proof.
  destruct value as [| | | | |ms]; try (split; [done|by intros (_ & ? & ? & [=] & _)]). rewrite decode_response_spec. split.
  - intros (Hn & Hv & Hf & Hp). split; [done|]. exists ms. eexists. split; [done|].
    split; [by apply encode_response_spec|]. by rewrite (encoded_response r _ eq_refl).
  - intros (Hn & ? & ns & [= <-] & He & Hp). apply encode_response_spec in He as (Hv & Hf & [= E]).
    by rewrite (encoded_response r ns E) in Hp.
Qed.

(** ** Properties *)

(** A control request is decoded from a value exactly when the value is, up
    to the order of its members and to how numbers are written, the encoding of
    that request, and likewise a response: the encodings carry everything the
    records hold, and nothing but an encoding is ever taken for either. *)
Theorem control_roundtrip :
  (forall (value : jval) (r : tny_openai_control_request),
     tny_execution_control_decode_request (Some value) = Some r <->
     carried r /\ Forall no_nul (strings_of r request_strings) /\
     exists ms ns, value = JObj ms /\ tny_execution_control_encode_request true (Some r) = Some (JObj ns) /\
       Permutation (wire_members ns) (wire_members ms)) /\
  (forall (value : jval) (r : tny_openai_control_response),
     tny_execution_control_decode_response true (Some value) = Some r <->
     Forall no_nul (strings_of r response_strings) /\
     exists ms ns, value = JObj ms /\ tny_execution_control_encode_response true (Some r) = Some (JObj ns) /\
       Permutation (wire_members ns) (wire_members ms)).
Proof. split; [exact control_request_decoded|exact control_response_decoded]. Qed.

(** A request to run a tool, as it arrives. *)
Definition demo_request : tny_openai_control_request :=
  mk_request PRE_TOOL (Some B"t1") (Some B"read_file") (Some B"{}") (Some B"{}") None false None None None 0 None 0 None None 0
    false false None 0 None 0 None None None false.

Example demo_request_decodes :
  (v ← tny_execution_control_encode_request true (Some demo_request); tny_execution_control_decode_request (Some (wire v))) = Some demo_request.
Proof. vm_compute. reflexivity. Qed.
