(* ===== verification/ExecRun.v ===== *)
(** One run of the execution server (src/src/core/execution.c): the owner's
    loop over its messages, and the server's side of each exchange. *)
From S2P Require Import Prelude Json JsonValue ExecProtocol ExecControl.

Open Scope Z_scope.

Definition TNY_CODE_OUTPUT_BYTES : Z := 65536.

(** ** The owner *)

Inductive exec_rc := RC_OK | RC_EPROTO | RC_ENOMEM | RC_ERRNO (errno : Z).

#[export] Instance exec_rc_eq : EqDecision exec_rc.
Proof. solve_decision. Defined.

Record client := mk_client {
  rc : exec_rc; output : option bytes; expected : Z; completed : bool; settling : bool; finished : bool }.

Definition client0 : client := mk_client RC_OK None 2 false false false.

(** What the host and the owner's callbacks do in one round: the message that
    arrives and what it parses to ([r_received] is [None] when receiving failed),
    what [client_callback] answers, and how sending that ends (0, or an errno). *)
Record exec_round := mk_exec_round {
  r_received : option (option jval); r_errno : Z; r_reply : option jval; r_memory : bool; r_written : bool; r_send : option Z }.

(** What the owner is seen to do. *)
Inductive exec_action := Called (kind : tny_exec_kind) (body : jval) | Answered (id : Z) (reply : jval).

Definition set_rc (c : client) (rc : exec_rc) : client := mk_client rc (output c) (expected c) (completed c) (settling c) (finished c).

Definition errno_rc (e : Z) : exec_rc := if e =? 0 then RC_EPROTO else RC_ERRNO e.

(** What may still arrive once the owner has said stop. *)
Definition settles (kind : tny_exec_kind) (body : option jval) : bool :=
  match kind with
  | STATE | EVENT => true
  | CONTROL =>
    match tny_execution_control_decode_request body with
    | Some r => bool_decide (ExecControl.kind r = POST_TOOL) || bool_decide (ExecControl.kind r = SUBAGENT_END)
    | None => false
    end
  | _ => false
  end.

Definition stops (kind : tny_exec_kind) (reply : option jval) : bool :=
  bool_decide (kind = CONTROL) && bool_of (jget reply B"stop").

Definition client_result (c : client) (w : exec_round) (body : option jval) : client :=
  match jget_str body B"output" with
  | Some text =>
    if negb (length (obj_members body) =? 1)%nat || (TNY_CODE_OUTPUT_BYTES + 1024 <? Z.of_nat (length text)) then set_rc c RC_EPROTO
    else if r_memory w then mk_client (rc c) (Some text) (expected c) true (settling c) (finished c)
    else set_rc c RC_ENOMEM
  | None => set_rc c RC_EPROTO
  end.

(** A request of the server: [client_callback], then its acknowledgement. *)
Definition client_request (c : client) (w : exec_round) (kind : tny_exec_kind) (id : Z) (body : jval) : client * list exec_action :=
  if finished c then (set_rc c RC_EPROTO, [])
  else if settling c && negb (settles kind (Some body)) then (set_rc c RC_EPROTO, [])
  else
    let fin := bool_decide (kind = STATE) && jget_bool (Some body) B"finished" false in
    let settling := settling c || stops kind (r_reply w) in
    let next rc := mk_client rc (output c) (expected c + 1) (completed c) settling fin in
    match r_reply w with
    | Some reply =>
      if negb (r_written w) then (next RC_EPROTO, [Called kind body])
      else
        match r_send w with
        | None => (next (rc c), [Called kind body; Answered id reply])
        | Some e => (next (errno_rc e), [Called kind body])
        end
    | None => (next RC_EPROTO, [Called kind body])
    end.

Definition client_step (c : client) (w : exec_round) : client * list exec_action :=
  match r_received w with
  | None => (set_rc c (errno_rc (r_errno w)), [])
  | Some doc =>
    let '(kind, id, body) := tny_exec_envelope doc in
    if negb (tny_exec_protocol_admit WAIT_RESULT kind id (expected c)) then (set_rc c RC_EPROTO, [])
    else if bool_decide (kind = RESULT) then (client_result c w body, [])
    else match body with Some body => client_request c w kind id body | None => (set_rc c RC_EPROTO, []) end
  end.

(** The loop: it ends on an error or with the result. *)
Fixpoint client_loop (c : client) (rounds : list exec_round) : client * list exec_action :=
  match rounds with
  | [] => (c, [])
  | w :: rounds =>
    if negb (bool_decide (rc c = RC_OK)) || completed c then (c, [])
    else
      let '(c, done) := client_step c w in
      let '(c, later) := client_loop c rounds in
      (c, done ++ later)
  end.

(** The result, none when an error is reported: [eof] is how waiting for the
    end of the stream ended, [cleanup] how closing the host did. *)
Definition client_end (c : client) (eof : option Z) (cleanup : bool) : option bytes :=
  let rc := if completed c && bool_decide (rc c = RC_OK)
            then match eof with Some e => errno_rc e | None => RC_OK end else rc c in
  if negb (bool_decide (rc = RC_OK)) || negb (completed c) || cleanup then None else output c.

(** ** The server *)

Record server := mk_server { next_id : Z; failed : bool }.

Definition server0 : server := mk_server 2 false.

(** [message] is the request's text, when it could be built; [sent] whether it
    was sent, [received] the answer, as for the owner. *)
Definition server_rpc (s : server) (message : option bytes) (sent : bool) (received : option (option jval)) :
    server * option jval :=
  let id := next_id s in
  let fail := (mk_server (id + 1) true, None) in
  match message, received with
  | Some _, Some doc =>
    if failed s || negb sent then fail
    else
      let '(kind, got, _) := tny_exec_envelope doc in
      if tny_exec_protocol_admit WAIT_REPLY kind got id then (mk_server (id + 1) (failed s), doc) else fail
  | _, _ => fail
  end.

Definition rpc_result (doc : option jval) : option jval := match doc with Some d => jget (Some d) B"result" | None => None end.

(** ** What an orderly run looks like *)

(** Exchanges numbered from [n]: each request is answered before the next one
    is heard; after a stop only settlement is heard, after the finished state
    nothing. Only the last request may stay unanswered. *)
Inductive orderly : Z -> bool -> bool -> list exec_action -> Prop :=
  | orderly_end n settling fin : orderly n settling fin []
  | orderly_exchange n settling kind body reply acts :
      callback_kind kind = true -> (settling = true -> settles kind (Some body) = true) ->
      orderly (n + 1) (settling || stops kind (Some reply))
        (bool_decide (kind = STATE) && jget_bool (Some body) B"finished" false) acts ->
      orderly n settling false (Called kind body :: Answered n reply :: acts)
  | orderly_broken n settling kind body :
      callback_kind kind = true -> (settling = true -> settles kind (Some body) = true) ->
      orderly n settling false [Called kind body].

(** ** Lemmas: the owner *)

Lemma admit_result kind id n : tny_exec_protocol_admit WAIT_RESULT kind id n = true ->
  (kind = RESULT /\ id = 1) \/ (kind <> RESULT /\ callback_kind kind = true /\ id = n /\ 2 <= n).
Proof.
  unfold tny_exec_protocol_admit. destruct ((id =? 0) || (n =? 0)) eqn:E; [done|].
  destruct (bool_decide (kind = RESULT)) eqn:Ek; [apply bool_decide_eq_true in Ek|apply bool_decide_eq_false in Ek].
  - intros H. left. split; [done|lia].
  - intros H. right. rewrite !andb_true_iff in H. split_and!; try done; lia || apply H.
Qed.

(** What a step of a loop that is still running does. *)
Variant stepped (c : client) : client * list exec_action -> Prop :=
  | stepped_failed c' : rc c' <> RC_OK -> completed c' = false -> stepped c (c', [])
  | stepped_result c' text : rc c' = RC_OK -> completed c' = true -> output c' = Some text ->
      Z.of_nat (length text) <= TNY_CODE_OUTPUT_BYTES + 1024 -> stepped c (c', [])
  | stepped_broken c' kind body : rc c' <> RC_OK -> completed c' = false ->
      callback_kind kind = true -> (settling c = true -> settles kind (Some body) = true) -> finished c = false ->
      stepped c (c', [Called kind body])
  | stepped_exchange c' kind body reply : rc c' = RC_OK -> completed c' = false -> expected c' = expected c + 1 ->
      settling c' = settling c || stops kind (Some reply) ->
      finished c' = bool_decide (kind = STATE) && jget_bool (Some body) B"finished" false ->
      callback_kind kind = true -> (settling c = true -> settles kind (Some body) = true) -> finished c = false ->
      stepped c (c', [Called kind body; Answered (expected c) reply]).

Lemma errno_rc_failed e : errno_rc e <> RC_OK.
Proof. unfold errno_rc. by case_if. Qed.

Lemma client_step_spec c w : rc c = RC_OK -> completed c = false -> stepped c (client_step c w).
Proof.
  intros Hrc Hc. unfold client_step. destruct (r_received w) as [doc|]; [|apply stepped_failed; [apply errno_rc_failed|done]].
  destruct (tny_exec_envelope doc) as [[kind id] body].
  destruct (tny_exec_protocol_admit WAIT_RESULT kind id (expected c)) eqn:Ea; cbn [negb]; [|by apply stepped_failed].
  apply admit_result in Ea as [[-> ->]|(Hk & Hcb & -> & Hn)].
  - rewrite bool_decide_eq_true_2 by done. unfold client_result. destruct (jget_str body B"output") as [text|]; [|by apply stepped_failed].
    destruct (negb _ || _) eqn:E; [by apply stepped_failed|]. apply orb_false_iff in E as [_ E]. apply Z.ltb_ge in E.
    destruct (r_memory w); [by apply (stepped_result _ _ text)|by apply stepped_failed].
  - rewrite bool_decide_eq_false_2 by done. destruct body as [body|]; [|by apply stepped_failed]. unfold client_request.
    destruct (finished c) eqn:Ef; [by apply stepped_failed|].
    destruct (settling c && negb (settles kind (Some body))) eqn:Es; [by apply stepped_failed|].
    assert (settling c = true -> settles kind (Some body) = true) as Hs by (intros H; rewrite H in Es; by apply negb_false_iff in Es).
    destruct (r_reply w) as [reply|]; [|by apply stepped_broken]. destruct (r_written w); cbn [negb]; [|by apply stepped_broken].
    destruct (r_send w) as [e|]; [|by apply stepped_exchange]. apply stepped_broken; try done. apply errno_rc_failed.
Qed.

Lemma client_loop_stopped c rounds : rc c <> RC_OK \/ completed c = true -> client_loop c rounds = (c, []).
Proof.
  destruct rounds as [|w rounds]; [done|]. cbn [client_loop]. intros H.
  destruct (negb (bool_decide (rc c = RC_OK)) || completed c) eqn:E; [done|]. apply orb_false_iff in E as [E1 E2].
  apply negb_false_iff, bool_decide_eq_true in E1. destruct H as [H|H]; congruence.
Qed.

Lemma client_loop_running c w rounds : rc c = RC_OK -> completed c = false ->
  client_loop c (w :: rounds) =
  let '(c, done) := client_step c w in let '(c, later) := client_loop c rounds in (c, done ++ later).
Proof. intros H1 H2. cbn [client_loop]. rewrite bool_decide_eq_true_2, H2 by done. done. Qed.

(** Every request has its answer. *)
Definition answered (acts : list exec_action) : Prop :=
  length (List.filter (fun a => match a with Called _ _ => true | _ => false end) acts) =
  length (List.filter (fun a => match a with Answered _ _ => true | _ => false end) acts).

Lemma client_loop_spec c rounds : rc c = RC_OK -> completed c = false ->
  let '(c', acts) := client_loop c rounds in
  orderly (expected c) (settling c) (finished c) acts /\ (rc c' = RC_OK -> answered acts) /\
  (completed c' = true -> exists text, output c' = Some text /\ Z.of_nat (length text) <= TNY_CODE_OUTPUT_BYTES + 1024).
Proof.
  revert c. induction rounds as [|w rounds IH]; intros c Hrc Hc.
  { cbn. split; [constructor|]. by rewrite Hc. }
  rewrite client_loop_running by done. pose proof (client_step_spec c w Hrc Hc) as Hs. destruct (client_step c w) as [c1 acts].
  inversion Hs as [c' H1 H2|c' text H1 H2 H3 H4|c' kind body H1 H2 H3 H4 H5|c' kind body reply H1 H2 H3 H4 H5 H6 H7 H8]; subst.
  - rewrite client_loop_stopped by by left. cbn [app]. split; [constructor|]. by rewrite H2.
  - rewrite client_loop_stopped by by right. cbn [app]. split; [constructor|]. split; [done|]. intros _. by exists text.
  - rewrite client_loop_stopped by by left. cbn [app]. rewrite H5. split; [by constructor|]. by rewrite H2.
  - specialize (IH c1 H1 H2). destruct (client_loop c1 rounds) as [c2 later]. destruct IH as (IH1 & IH2 & IH3).
    cbn [app]. rewrite H8. split; [constructor; [done..|]; by rewrite <- H3, <- H4, <- H5|]. split; [|done].
    intros H. unfold answered in *. cbn [List.filter length]. by rewrite (IH2 H).
Qed.

(** ** Lemmas: a faithful conversation *)

(** One exchange: what the server asks, and what the owner answers. *)
Record exchange := mk_exchange { x_kind : tny_exec_kind; x_body : jval; x_reply : jval }.

(** The document of a message, as the other side reads it. *)
Definition frame (id : Z) (kind : tny_exec_kind) (body : jval) : option jval := Some (JObj (message_members id kind body)).

Fixpoint exchange_rounds (id : Z) (xs : list exchange) : list exec_round :=
  match xs with
  | [] => []
  | x :: xs => mk_exec_round (Some (frame id (x_kind x) (x_body x))) 0 (Some (x_reply x)) true true None :: exchange_rounds (id + 1) xs
  end.

Definition result_round (text : bytes) : exec_round :=
  mk_exec_round (Some (frame 1 RESULT (JObj [(B"output", JStr text)]))) 0 None true true None.

Fixpoint exchange_actions (id : Z) (xs : list exchange) : list exec_action :=
  match xs with
  | [] => []
  | x :: xs => Called (x_kind x) (x_body x) :: Answered id (x_reply x) :: exchange_actions (id + 1) xs
  end.

(** The server asks and reads the owner's answers; what it makes of them. *)
Fixpoint server_asks (s : server) (xs : list exchange) : server * list (option jval) :=
  match xs with
  | [] => (s, [])
  | x :: xs =>
    let '(s, doc) := server_rpc s (Some []) true (Some (frame (next_id s) RESULT (x_reply x))) in
    let '(s, docs) := server_asks s xs in
    (s, rpc_result doc :: docs)
  end.

(** A message within the limits. *)
Definition carriable (kind : tny_exec_kind) (body : jval) : Prop := exec_value (JObj (message_members 1 kind body)).

Lemma carriable_id id kind body : carriable kind body -> exec_value (JObj (message_members id kind body)).
Proof.
  unfold carriable, message_members. intros H. destruct (method_name kind); exact H.
Qed.

Lemma frame_read id kind body : carriable kind body -> id <> 0 -> kind <> INVALID -> (kind <> RESULT -> is_obj (Some body) = true) ->
  tny_exec_envelope (frame id kind body) = (kind, id, Some body).
Proof. intros Hc Hid Hk Hb. apply envelope_complete; [by apply carriable_id|exact Hid|exact Hk|exact Hb|reflexivity]. Qed.

(** What the server may ask, given what the owner has answered: requests with
    objects; after a stop only settlement; nothing after the finished state. *)
Fixpoint conversation (settling fin : bool) (xs : list exchange) : Prop :=
  match xs with
  | [] => True
  | x :: xs =>
    fin = false /\ callback_kind (x_kind x) = true /\ is_obj (Some (x_body x)) = true /\
    (settling = true -> settles (x_kind x) (Some (x_body x)) = true) /\
    carriable (x_kind x) (x_body x) /\ carriable RESULT (x_reply x) /\
    conversation (settling || stops (x_kind x) (Some (x_reply x)))
      (bool_decide (x_kind x = STATE) && jget_bool (Some (x_body x)) B"finished" false) xs
  end.

Lemma callback_not_result kind : callback_kind kind = true -> kind <> INVALID /\ kind <> RESULT.
Proof. by destruct kind. Qed.

Lemma admit_callback kind n : callback_kind kind = true -> 2 <= n -> tny_exec_protocol_admit WAIT_RESULT kind n n = true.
Proof.
  intros Hk Hn. destruct (callback_not_result _ Hk) as [_ Hr]. unfold tny_exec_protocol_admit.
  rewrite (proj2 (Z.eqb_neq n 0)), bool_decide_eq_false_2, Z.eqb_refl, Hk by (done || lia). cbn [orb].
  by rewrite (proj2 (Z.leb_le 2 n)) by lia.
Qed.

Lemma client_converses c xs rounds : rc c = RC_OK -> completed c = false -> 2 <= expected c ->
  conversation (settling c) (finished c) xs ->
  exists c', client_loop c (exchange_rounds (expected c) xs ++ rounds) =
    (let '(c2, acts) := client_loop c' rounds in (c2, exchange_actions (expected c) xs ++ acts)) /\
    rc c' = RC_OK /\ completed c' = false /\ 2 <= expected c'.
Proof.
  revert c. induction xs as [|x xs IH]; intros c Hrc Hc Hn Hx.
  { exists c. cbn [exchange_rounds exchange_actions app]. split; [by destruct (client_loop c rounds)|done]. }
  cbn [conversation] in Hx. destruct Hx as (Hf & Hk & Hb & Hs & Hcar & _ & Hx). cbn [exchange_rounds exchange_actions app].
  rewrite client_loop_running by done. destruct (callback_not_result _ Hk) as [Hk1 Hk2].
  unfold client_step. cbn [r_received]. rewrite frame_read by (done || lia). rewrite admit_callback, bool_decide_eq_false_2 by done.
  cbn [negb]. unfold client_request. cbn [r_reply r_written r_send negb]. rewrite Hf.
  assert (settling c && negb (settles (x_kind x) (Some (x_body x))) = false) as ->.
  { destruct (settling c); [|done]. by rewrite Hs. }
  set (c1 := mk_client _ _ _ _ _ _). destruct (IH c1 Hrc Hc ltac:(cbn; lia) Hx) as (c' & E & H'). exists c'. split; [|done].
  change (expected c1) with (expected c + 1) in E. rewrite E. by destruct (client_loop c' rounds).
Qed.

Lemma server_converses s xs : failed s = false -> 2 <= next_id s -> Forall (fun x => carriable RESULT (x_reply x)) xs ->
  server_asks s xs = (mk_server (next_id s + Z.of_nat (length xs)) false, map (fun x => Some (x_reply x)) xs).
Proof.
  intros Hf Hn Hx. revert s Hf Hn. induction Hx as [|x xs Hc _ IH]; intros s Hf Hn; cbn [server_asks length map].
  { rewrite Z.add_0_r. by destruct s; cbn in *; subst. }
  unfold server_rpc. rewrite Hf. cbn [orb negb]. rewrite frame_read by (done || lia).
  unfold tny_exec_protocol_admit. rewrite (proj2 (Z.eqb_neq (next_id s) 0)), Z.eqb_refl by lia. cbn [orb].
  rewrite bool_decide_eq_true_2 by done. cbn [andb]. rewrite IH by (cbn; lia || done). cbn [next_id].
  replace (next_id s + 1 + Z.of_nat (length xs)) with (next_id s + Z.of_nat (S (length xs))) by lia. reflexivity.
Qed.

Lemma conversation_replies settling fin xs : conversation settling fin xs -> Forall (fun x => carriable RESULT (x_reply x)) xs.
Proof.
  revert settling fin. induction xs as [|x xs IH]; intros settling fin; [constructor|]. cbn [conversation].
  intros (_ & _ & _ & _ & _ & H & Hx). constructor; [done|by eapply IH].
Qed.

(** The message that carries a text is within the limits. *)
Lemma result_carriable text : mem_byte NUL text = false -> carriable RESULT (JObj [(B"output", JStr text)]).
Proof.
  intros Hn. unfold carriable. split_and!; [|done|done].
  cbn [message_members method_name app]. rewrite wholesome_obj. split_and!; [by apply Nat.leb_le|apply (message_keys_nodup 1 RESULT JNull)|].
  repeat (apply List.Forall_cons; [split; [reflexivity|first [exact I|reflexivity|idtac]]|]); [|constructor].
  cbn [snd]. rewrite wholesome_obj. split_and!; [by apply Nat.leb_le|by apply (bool_decide_unpack _)|by repeat constructor].
Qed.

Lemma client_result_round c text : Z.of_nat (length text) <= TNY_CODE_OUTPUT_BYTES + 1024 -> mem_byte NUL text = false ->
  2 <= expected c -> rc c = RC_OK ->
  client_step c (result_round text) = (mk_client RC_OK (Some text) (expected c) true (settling c) (finished c), []).
Proof.
  intros Hl Hn He Hrc. unfold client_step, result_round. cbn [r_received].
  rewrite frame_read by (try done; by apply result_carriable). unfold tny_exec_protocol_admit.
  rewrite (proj2 (Z.eqb_neq (expected c) 0)) by lia. cbn [Z.eqb orb]. rewrite bool_decide_eq_true_2 by done. cbn [negb].
  unfold client_result, jget_str, jget_strn. cbn [jget assoc fst]. rewrite str_eq_refl. cbn [fmap option_fmap option_map fst].
  rewrite c_str_plain by done. cbn [obj_members length Nat.eqb negb orb]. rewrite (proj2 (Z.ltb_ge _ _)) by lia.
  cbn [r_memory]. by rewrite Hrc.
Qed.

(** ** Properties *)

(** C13: however the host and the server behave, the owner hears the requests one
    at a time and in their order, answers each with its own number before it
    hears the next, hears only settlement after it has said stop and nothing
    after the finished state; and a result it reports is the whole text of an
    exchange in which every request was answered, within the output limit. *)
Theorem exec_client_safe (rounds : list exec_round) (eof : option Z) (cleanup : bool) :
  let '(c, acts) := client_loop client0 rounds in
  orderly 2 false false acts /\
  forall text, client_end c eof cleanup = Some text ->
    rc c = RC_OK /\ completed c = true /\ eof = None /\ cleanup = false /\ answered acts /\
    Z.of_nat (length text) <= TNY_CODE_OUTPUT_BYTES + 1024.
Proof.
  pose proof (client_loop_spec client0 rounds eq_refl eq_refl) as H. destruct (client_loop client0 rounds) as [c acts].
  destruct H as (Ho & Ha & Ht). split; [done|]. intros text. unfold client_end.
  destruct (completed c) eqn:Ec; [|by rewrite orb_true_r]. destruct (bool_decide (rc c = RC_OK)) eqn:Er; cbn [andb].
  - apply bool_decide_eq_true in Er. destruct eof as [e|].
    + rewrite (bool_decide_eq_false_2 _ (errno_rc_failed e)). done.
    + rewrite bool_decide_eq_true_2 by done. cbn [negb orb]. destruct cleanup; [done|]. intros E.
      destruct (Ht eq_refl) as (text' & E' & Hl). rewrite E in E'. injection E' as ->. split_and!; by auto.
  - rewrite Er. done.
Qed.

(** C32: a run in which the server asks only what it may, and then gives its
    result, goes to its end: the owner is called once for each request, in
    order, the server gets every answer, and the owner reports the result. *)
Theorem exec_conversation_completes (xs : list exchange) (text : bytes)
    (Hxs : conversation false false xs) (Htext : Z.of_nat (length text) <= TNY_CODE_OUTPUT_BYTES + 1024)
    (Hnul : mem_byte NUL text = false) :
  (exists c, client_loop client0 (exchange_rounds 2 xs ++ [result_round text]) = (c, exchange_actions 2 xs) /\
     client_end c None false = Some text) /\
  server_asks server0 xs = (mk_server (2 + Z.of_nat (length xs)) false, map (fun x => Some (x_reply x)) xs).
Proof.
  split; [|apply server_converses; [done|cbn; lia|by eapply conversation_replies]].
  destruct (client_converses client0 xs [result_round text] eq_refl eq_refl ltac:(cbn; lia) Hxs) as (c & E & Hrc & Hc & He).
  change (expected client0) with 2 in E. rewrite E, client_loop_running by done. rewrite (client_result_round c text) by done.
  cbn [client_loop app]. eexists. split; [by rewrite app_nil_r|]. reflexivity.
Qed.

(** ** Concrete instances *)

(** One tool call approved, its event, the finished state. *)
Definition demo_exchanges : list exchange :=
  [mk_exchange PROMPT (JObj [(B"tool", JStr B"bash")]) (JObj [(B"decision", JNum (JUint 1))]);
   mk_exchange EVENT (JObj [(B"name", JStr B"tool")]) (JObj [(B"ok", JBool true)]);
   mk_exchange STATE (JObj [(B"finished", JBool true)]) (JObj [(B"ok", JBool true)])].

Example exec_conversation_completes_witness :
  server_asks server0 demo_exchanges = (mk_server 5 false, map (fun x => Some (x_reply x)) demo_exchanges).
Proof.
  apply (exec_conversation_completes demo_exchanges B"done").
  - cbn [conversation demo_exchanges].
    repeat match goal with
    | |- _ /\ _ => split
    | |- carriable _ _ => apply exec_json_valid_spec; vm_compute; reflexivity
    | |- _ -> _ => discriminate
    | |- _ => reflexivity || exact I
    end.
  - vm_compute. discriminate.
  - reflexivity.
Defined.

(** After a stop a prompt is not heard. *)
Example demo_stopped :
  snd (client_loop client0
    [mk_exec_round (Some (frame 2 CONTROL (JObj []))) 0 (Some (JObj [(B"stop", JBool true)])) true true None;
     mk_exec_round (Some (frame 3 PROMPT (JObj []))) 0 (Some (JObj [])) true true None]) =
  [Called CONTROL (JObj []); Answered 2 (JObj [(B"stop", JBool true)])].
Proof. vm_compute. reflexivity. Qed.
