(* ===== verification/ExecDelta.v ===== *)
(** Changes of a session's document between the execution server's copy and the
    owner's (the session part of src/src/core/execution_state.c): what of it is
    sent, what the changes are, and how the owner merges them into a document
    that may have changed as well. *)
From S2P Require Import Prelude Json JsonValue ExecProtocol.

Open Scope Z_scope.

(** ** Fields *)

Definition session_fields : list bytes :=
  [B"task"; B"swarm_cap"; B"swarm_definition"; B"team_runs"; B"team_receipts"; B"team_cursors"; B"acp_pending_context"].

Definition session_field (key : option bytes) : bool :=
  match key with Some key => str_in key session_fields | None => false end.

(** A session field or the outbox. *)
Definition carried_field (key : bytes) : bool := session_field (Some key) || str_eq key B"messages".

Definition str_of (v : jval) : option bytes := match v with JStr s => Some (c_str s) | _ => None end.

Fixpoint items_equal (vs ws : list jval) : bool :=
  match vs, ws with
  | [], _ => true
  | v :: vs, w :: ws => yyjson_equals v w && items_equal vs ws
  | _ :: _, [] => false
  end.

(** [after] is [before], or nothing, with items added at the end. *)
Definition array_prefix (before after : option jval) : bool :=
  match after with
  | Some (JArr ws) =>
    match before with
    | None => true
    | Some (JArr vs) => (length vs <=? length ws)%nat && items_equal vs ws
    | Some _ => false
    end
  | _ => false
  end.

(** What the server starts from: the fields, and no messages. *)
Definition session_projection (root : jval) : option jval :=
  match root with
  | JObj ms =>
    Some (JObj ((B"messages", JArr []) ::
      map (fun '(k, v) => (c_str k, v)) (List.filter (fun '(k, _) => session_field (Some (c_str k))) ms)))
  | _ => None
  end.

(** ** The changes *)

(** The members to set, and the arrays to extend with what. *)
Fixpoint delta_members (baseline : option jval) (ms : list (bytes * jval)) :
    option (list (bytes * jval) * list (bytes * jval)) :=
  match ms with
  | [] => Some ([], [])
  | (k, v) :: ms =>
    let key := c_str k in
    let previous := jget baseline key in
    if negb (carried_field key) then None
    else if equals (Some v) previous then delta_members baseline ms
    else if array_prefix previous (Some v) then
      '(set, append) ← delta_members baseline ms;
      Some (set, (key, JArr (drop (length (arr_items previous)) (arr_items (Some v)))) :: append)
    else if str_eq key B"messages" then None
    else
      '(set, append) ← delta_members baseline ms;
      Some ((key, v) :: set, append)
  end.

(** The members that are gone. *)
Fixpoint delta_removed (root : option jval) (bs : list (bytes * jval)) : option (list bytes) :=
  match bs with
  | [] => Some []
  | (k, _) :: bs =>
    let key := c_str k in
    if bool_decide (is_Some (jget root key)) then delta_removed root bs
    else if session_field (Some key) then rest ← delta_removed root bs; Some (key :: rest)
    else None
  end.

Definition session_delta (baseline : option jval) (root : jval) : option jval :=
  match root, baseline with
  | JObj ms, Some (JObj bs) =>
    '(set, append) ← delta_members baseline ms;
    removed ← delta_removed (Some root) bs;
    Some (JObj [(B"set", JObj set); (B"remove", JArr (map JStr removed)); (B"append", JObj append)])
  | _, _ => None
  end.

(** ** Merging *)

Definition has (v : option jval) (key : bytes) : bool := bool_decide (is_Some (jget v key)).

Definition session_delta_valid (delta : option jval) : bool :=
  let set := jget delta B"set" in
  let remove := jget delta B"remove" in
  let append := jget delta B"append" in
  (length (obj_members delta) =? 3)%nat && is_obj set && is_arr remove && is_obj append &&
  forallb (fun '(k, _) => session_field (Some (c_str k))) (obj_members set) &&
  forallb (fun '(k, v) => carried_field (c_str k) && is_arr (Some v) && negb (has set (c_str k))) (obj_members append) &&
  forallb (fun v => match str_of v with
                    | Some name => session_field (Some name) && negb (has set name) && negb (has append name)
                    | None => false
                    end) (arr_items remove).

Definition session_delta_changed (delta : option jval) : bool :=
  negb (length (obj_members (jget delta B"set")) =? 0)%nat || negb (length (arr_items (jget delta B"remove")) =? 0)%nat ||
  negb (length (obj_members (jget delta B"append")) =? 0)%nat.

Definition append_items (items : list jval) (v : jval) : jval := match v with JArr us => JArr (us ++ items) | _ => v end.

Fixpoint merge_appends (set : option jval) (append ms : list (bytes * jval)) : option (list (bytes * jval)) :=
  match append with
  | [] => Some ms
  | (k, v) :: append =>
    let name := c_str k in
    match v with
    | JArr items =>
      if has set name then None
      else
        match assoc name ms with
        | None => merge_appends set append (ms ++ [(name, JArr items)])
        | Some (JArr _) => merge_appends set append (obj_update name (append_items items) ms)
        | Some _ => None
        end
    | _ => None
    end
  end.

Fixpoint merge_removes (set append : option jval) (removed : list jval) (ms : list (bytes * jval)) : option (list (bytes * jval)) :=
  match removed with
  | [] => Some ms
  | v :: removed =>
    match str_of v with
    | Some name => if has set name || has append name then None else merge_removes set append removed (obj_remove name ms)
    | None => None
    end
  end.

(** [doc] is the owner's document, none without a session. *)
Definition merge_doc (doc : option jval) (delta : option jval) : option jval :=
  let set := jget delta B"set" in
  let remove := jget delta B"remove" in
  let append := jget delta B"append" in
  if negb (length (obj_members delta) =? 3)%nat || negb (is_obj set) || negb (is_arr remove) || negb (is_obj append) then None
  else
    match doc with
    | Some (JObj ms) =>
      let ms := fold_left (fun ms '(k, v) => obj_put k v ms) (obj_members set) ms in
      ms ← merge_appends set (obj_members append) ms;
      ms ← merge_removes set append (arr_items remove) ms;
      Some (JObj ms)
    | _ => None
    end.

(** ** What a merge means, field by field *)

Inductive field_change := Kept | Extended (suffix : list jval) | Replaced (v : jval) | Removed.

(** How the copy's value differs from the one it started from. *)
Definition change_of (base mine : option jval) : field_change :=
  match mine with
  | None => match base with Some _ => Removed | None => Kept end
  | Some v =>
    if equals mine base then Kept
    else if array_prefix base mine then Extended (drop (length (arr_items base)) (arr_items mine))
    else Replaced v
  end.

(** The change made to the owner's value. *)
Definition change (c : field_change) (theirs : option jval) : option (option jval) :=
  match c with
  | Kept => Some theirs
  | Removed => Some None
  | Replaced v => Some (Some v)
  | Extended suffix =>
    match theirs with
    | None => Some (Some (JArr suffix))
    | Some (JArr us) => Some (Some (JArr (us ++ suffix)))
    | Some _ => None
    end
  end.

(** Keys that are never cut at a NUL, none twice. *)
Definition plain_keys (ms : list (bytes * jval)) : Prop := NoDup (keys ms) /\ Forall (fun k => mem_byte NUL k = false) (keys ms).

(** ** Lemmas: keys *)

Lemma plain_keys_cons k v ms : plain_keys ((k, v) :: ms) <-> ~ In k (keys ms) /\ mem_byte NUL k = false /\ plain_keys ms.
Proof.
  unfold plain_keys. cbn [keys map fst]. fold (keys ms). rewrite list.NoDup_cons, Forall_cons_iff, list_elem_of_In. tauto.
Qed.

Lemma plain_key ms k v : plain_keys ms -> assoc k ms = Some v -> mem_byte NUL k = false.
Proof. intros [_ H] E%assoc_key. rewrite Forall_forall in H. by apply H. Qed.

Lemma assoc_cons k v ms key : assoc key ((k, v) :: ms) = if str_eq k key then Some v else assoc key ms.
Proof. done. Qed.

(** The part of a change that is sent under [set], and under [append]. *)
Definition set_part (c : field_change) : option jval := match c with Replaced v => Some v | _ => None end.
Definition append_part (c : field_change) : option jval := match c with Extended s => Some (JArr s) | _ => None end.

(** ** Lemmas: the changes *)

(** A value the copy may have, given the one it started from: only fields and
    messages, the messages never rewritten. *)
Definition sendable (base : option jval) (key : bytes) (v : jval) : Prop :=
  carried_field key = true /\ (key = B"messages" -> set_part (change_of base (Some v)) = None).

Definition all_keys (f : bytes -> bool) (ms : list (bytes * jval)) : Prop := Forall (fun k => f k = true) (keys ms).

Lemma all_keys_cons f k v ms : all_keys f ((k, v) :: ms) <-> f k = true /\ all_keys f ms.
Proof. unfold all_keys. cbn [keys map fst]. by rewrite Forall_cons_iff. Qed.

(** How one member is sent. *)
Lemma delta_member bs k v ms : mem_byte NUL k = false ->
  delta_members (Some (JObj bs)) ((k, v) :: ms) =
  if carried_field k && negb (str_eq k B"messages" && bool_decide (is_Some (set_part (change_of (assoc k bs) (Some v)))))
  then
    '(set, append) ← delta_members (Some (JObj bs)) ms;
    let c := change_of (assoc k bs) (Some v) in
    Some (from_option (fun v => (k, v) :: set) set (set_part c), from_option (fun v => (k, v) :: append) append (append_part c))
  else None.
Proof.
  intros Hk. cbn [delta_members]. rewrite c_str_plain by done. cbn [jget].
  destruct (carried_field k); cbn [negb andb]; [|done]. unfold change_of.
  destruct (equals (Some v) (assoc k bs)); [|destruct (array_prefix (assoc k bs) (Some v))].
  - rewrite andb_false_r. cbn [negb]. by destruct (delta_members _ ms) as [[]|].
  - rewrite andb_false_r. cbn [negb]. by destruct (delta_members _ ms) as [[]|].
  - rewrite bool_decide_eq_true_2, andb_true_r by by eexists. destruct (str_eq k B"messages"); [done|].
    by destruct (delta_members _ ms) as [[]|].
Qed.

Lemma delta_members_spec bs ms : plain_keys ms ->
  match delta_members (Some (JObj bs)) ms with
  | Some (set, append) =>
    (forall k v, assoc k ms = Some v -> sendable (assoc k bs) k v) /\
    plain_keys set /\ plain_keys append /\ all_keys (fun k => session_field (Some k)) set /\ all_keys carried_field append /\
    (forall k, assoc k ms = None -> assoc k set = None /\ assoc k append = None) /\
    (forall k v, assoc k ms = Some v ->
       assoc k set = set_part (change_of (assoc k bs) (Some v)) /\ assoc k append = append_part (change_of (assoc k bs) (Some v)))
  | None => exists k v, assoc k ms = Some v /\ ~ sendable (assoc k bs) k v
  end.
Proof.
  induction ms as [|[k v] ms IH]; intros Hp.
  { cbn. split_and!; try done; try constructor; constructor. }
  apply plain_keys_cons in Hp as (Hk & Hnul & Hp). specialize (IH Hp). rewrite delta_member by done.
  set (c := change_of (assoc k bs) (Some v)) in *.
  destruct (carried_field k && _) eqn:Es.
  - apply andb_true_iff in Es as [Hc Hm]. destruct (delta_members (Some (JObj bs)) ms) as [[set append]|]; cbn [mbind option_bind].
    2:{ destruct IH as (k' & v' & E & H). exists k', v'. split; [|done]. rewrite assoc_cons. destruct (str_eq k k') eqn:Ek; [|done].
        apply str_eq_true in Ek as ->. by apply assoc_key in E. }
    destruct IH as (Hsend & Hset & Happ & Hfs & Hca & Hnone & Hsome).
    apply assoc_none in Hk. destruct (Hnone k Hk) as [Hks Hka].
    assert (sendable (assoc k bs) k v) as Hkv.
    { split; [done|]. intros ->. rewrite str_eq_refl in Hm. fold c. destruct (set_part c); [done|done]. }
    split; [|split; [|split; [|split; [|split; [|split]]]]].
    + intros k' v'. rewrite assoc_cons. destruct (str_eq k k') eqn:Ek; [|by apply Hsend]. apply str_eq_true in Ek as <-. by intros [= <-].
    + destruct (set_part c); [|done]. apply plain_keys_cons. split_and!; [by apply assoc_none|done..].
    + destruct (append_part c); [|done]. apply plain_keys_cons. split_and!; [by apply assoc_none|done..].
    + destruct (set_part c) eqn:E; [|done]. apply all_keys_cons. split; [|done].
      unfold carried_field in Hc. apply orb_true_iff in Hc as [Hc|Hc]; [done|]. apply str_eq_true in Hc. subst k. by rewrite str_eq_refl in Hm.
    + destruct (append_part c); [|done]. by apply all_keys_cons.
    + intros k'. rewrite assoc_cons. destruct (str_eq k k') eqn:Ek; [done|]. intros E. destruct (Hnone k' E).
      destruct (set_part c), (append_part c); cbn [from_option]; rewrite ?assoc_cons, ?Ek; done.
    + intros k' v'. rewrite assoc_cons. destruct (str_eq k k') eqn:Ek.
      * apply str_eq_true in Ek as <-. intros [= <-]. fold c.
        destruct (set_part c), (append_part c); cbn [from_option]; rewrite ?assoc_cons, ?str_eq_refl; done.
      * intros E. destruct (Hsome k' v' E).
        destruct (set_part c), (append_part c); cbn [from_option]; rewrite ?assoc_cons, ?Ek; done.
  - exists k, v. rewrite assoc_cons, str_eq_refl. split; [done|]. intros [Hc Hm]. rewrite Hc in Es. cbn [andb] in Es.
    apply negb_false_iff, andb_true_iff in Es as [Ek Es]. apply str_eq_true in Ek. fold c in Hm. by rewrite (Hm Ek) in Es.
Qed.

Lemma delta_removed_spec ms bs : Forall (fun k => mem_byte NUL k = false) (keys bs) ->
  match delta_removed (Some (JObj ms)) bs with
  | Some removed =>
    Forall (fun k => mem_byte NUL k = false /\ session_field (Some k) = true) removed /\
    (forall k, In k removed <-> In k (keys bs) /\ assoc k ms = None)
  | None => exists k, In k (keys bs) /\ assoc k ms = None /\ session_field (Some k) = false
  end.
Proof.
  induction bs as [|[k w] bs IH]; intros Hp.
  { cbn. split; [constructor|]. intros k. split; [done|by intros []]. }
  cbn [keys map fst] in *. fold (keys bs) in *. apply Forall_cons_iff in Hp as [Hk Hp]. specialize (IH Hp).
  cbn [delta_removed]. rewrite c_str_plain by done. cbn [jget].
  destruct (bool_decide_reflect (is_Some (assoc k ms))) as [[v E]|E].
  - destruct (delta_removed (Some (JObj ms)) bs) as [removed|].
    + destruct IH as [H1 H2]. split; [done|]. intros k'. rewrite H2. cbn [In]. split; [tauto|].
      intros [[<-|H] E']; [by rewrite E in E'|done].
    + destruct IH as (k' & H1 & H2). exists k'. by split; [right|].
  - apply eq_None_not_Some in E. destruct (session_field (Some k)) eqn:Ef; [|exists k; by split; [left|]].
    destruct (delta_removed (Some (JObj ms)) bs) as [removed|]; cbn [mbind option_bind].
    + destruct IH as [H1 H2]. split; [by constructor|]. intros k'. cbn [In]. rewrite H2. split.
      * intros [<-|[]]; tauto.
      * intros [[<-|H] E']; tauto.
    + destruct IH as (k' & H1 & H2). exists k'. by split; [right|].
Qed.

(** ** Lemmas: merging *)

Lemma assoc_puts set ms k : NoDup (keys set) ->
  assoc k (fold_left (fun ms '(k, v) => obj_put k v ms) set ms) = match assoc k set with Some v => Some v | None => assoc k ms end.
Proof.
  revert ms. induction set as [|[k' v] set IH]; intros ms; cbn [fold_left keys map fst]; [done|].
  intros [Hk Hnd]%list.NoDup_cons. rewrite IH by done. rewrite assoc_cons, assoc_put.
  destruct (str_eq k' k) eqn:E; [|done]. apply str_eq_true in E as <-.
  rewrite (proj2 (assoc_none k' set)); [done|]. by rewrite <- list_elem_of_In.
Qed.

Definition arrays (append : list (bytes * jval)) : Prop := Forall (fun m => exists items, m.2 = JArr items) append.

Definition append_change (append : list (bytes * jval)) (k : bytes) : field_change :=
  match assoc k append with Some (JArr items) => Extended items | _ => Kept end.

(** One array is extended. *)
Lemma merge_appends_cons set k items append ms : mem_byte NUL k = false -> assoc k set = None ->
  merge_appends (Some (JObj set)) ((k, JArr items) :: append) ms =
  match change (Extended items) (assoc k ms) with
  | Some _ => merge_appends (Some (JObj set)) append
                (if bool_decide (is_Some (assoc k ms)) then obj_update k (append_items items) ms else ms ++ [(k, JArr items)])
  | None => None
  end.
Proof.
  intros Hk Hs. cbn [merge_appends]. rewrite c_str_plain by done. unfold has. cbn [jget]. rewrite Hs.
  rewrite bool_decide_eq_false_2 by (by intros [? ?]). cbn [change]. destruct (assoc k ms) as [[]|]; done.
Qed.

Lemma assoc_extended k items ms v key : change (Extended items) (assoc k ms) = Some v ->
  assoc key (if bool_decide (is_Some (assoc k ms)) then obj_update k (append_items items) ms else ms ++ [(k, JArr items)]) =
  if str_eq k key then v else assoc key ms.
Proof.
  cbn [change]. destruct (assoc k ms) as [w|] eqn:E.
  - rewrite bool_decide_eq_true_2, assoc_update by done. intros H. destruct (str_eq k key) eqn:Ek; [|done].
    rewrite E. destruct w; try done. by injection H as <-.
  - rewrite bool_decide_eq_false_2, assoc_app by (by intros [? ?]). intros [= <-]. cbn [assoc].
    destruct (str_eq k key) eqn:Ek; [apply str_eq_true in Ek as <-; by rewrite E|]. by destruct (assoc key ms).
Qed.

Lemma merge_appends_spec set append ms : plain_keys append -> arrays append -> (forall k, In k (keys append) -> assoc k set = None) ->
  match merge_appends (Some (JObj set)) append ms with
  | Some rs => forall k, change (append_change append k) (assoc k ms) = Some (assoc k rs)
  | None => exists k, change (append_change append k) (assoc k ms) = None
  end.
Proof.
  intros Hp Ha Hs. revert ms. induction append as [|[k v] append IH]; intros ms; [done|].
  apply plain_keys_cons in Hp as (Hk & Hnul & Hp). apply Forall_cons_iff in Ha as [[items Ev] Ha]. cbn [snd] in Ev. subst v.
  assert (forall k', In k' (keys append) -> assoc k' set = None) as Hs' by (intros k' H; apply Hs; by right).
  specialize (IH Hp Ha Hs'). rewrite merge_appends_cons by (done || apply Hs; by left).
  assert (append_change ((k, JArr items) :: append) k = Extended items) as Eself by (unfold append_change; by rewrite assoc_cons, str_eq_refl).
  assert (append_change append k = Kept) as Eout by (unfold append_change; by rewrite (proj2 (assoc_none _ _) Hk)).
  destruct (change (Extended items) (assoc k ms)) as [v|] eqn:Ec; [|exists k; by rewrite Eself].
  specialize (IH (if bool_decide (is_Some (assoc k ms)) then obj_update k (append_items items) ms else ms ++ [(k, JArr items)])).
  assert (forall k', k <> k' -> append_change ((k, JArr items) :: append) k' = append_change append k') as Eother.
  { intros k' Hne%str_eq_false. unfold append_change. by rewrite assoc_cons, Hne. }
  destruct (merge_appends _ append _) as [rs|].
  - intros k'. specialize (IH k'). rewrite (assoc_extended _ _ _ _ _ Ec) in IH. destruct (str_eq k k') eqn:E.
    + apply str_eq_true in E as <-. rewrite Eout in IH. cbn [change] in IH. injection IH as <-. by rewrite Eself.
    + apply str_eq_false in E. by rewrite Eother.
  - destruct IH as [k' IH]. exists k'. rewrite (assoc_extended _ _ _ _ _ Ec) in IH. destruct (str_eq k k') eqn:E.
    + apply str_eq_true in E as <-. by rewrite Eout in IH.
    + apply str_eq_false in E. by rewrite Eother.
Qed.

Lemma merge_removes_spec set append removed ms : Forall (fun k => mem_byte NUL k = false) removed ->
  (forall k, In k removed -> assoc k set = None /\ assoc k append = None) ->
  exists rs, merge_removes (Some (JObj set)) (Some (JObj append)) (map JStr removed) ms = Some rs /\
    forall k, assoc k rs = if str_in k removed then None else assoc k ms.
Proof.
  revert ms. induction removed as [|r removed IH]; intros ms Hp Hs; [by exists ms|].
  apply Forall_cons_iff in Hp as [Hr Hp]. cbn [map merge_removes str_of]. rewrite c_str_plain by done.
  destruct (Hs r (or_introl eq_refl)) as [H1 H2]. unfold has. cbn [jget]. rewrite H1, H2.
  rewrite bool_decide_eq_false_2 by (by intros [? ?]). cbn [orb].
  destruct (IH (obj_remove r ms) Hp) as (rs & E & H); [intros k Hk; apply Hs; by right|]. exists rs. split; [done|].
  intros k. rewrite H, assoc_remove. unfold str_in. cbn [existsb]. destruct (existsb (str_eq k) removed); [by rewrite orb_true_r|].
  rewrite orb_false_r. destruct (str_eq r k) eqn:Er; [apply str_eq_true in Er as ->; by rewrite str_eq_refl|].
  destruct (str_eq k r) eqn:E2; [|done]. apply str_eq_true in E2 as ->. by rewrite str_eq_refl in Er.
Qed.

(** ** Lemmas: a delta and its merge *)

Lemma change_of_cases base mine :
  set_part (change_of base mine) = None \/ append_part (change_of base mine) = None.
Proof. destruct (change_of base mine); auto. Qed.

(** What a delta holds, for each key. *)
Record delta_of (bs ms : list (bytes * jval)) (set append : list (bytes * jval)) (removed : list bytes) : Prop := {
  delta_set_plain : plain_keys set; delta_append_plain : plain_keys append;
  delta_set_fields : all_keys (fun k => session_field (Some k)) set; delta_append_fields : all_keys carried_field append;
  delta_removed_fields : Forall (fun k => mem_byte NUL k = false /\ session_field (Some k) = true) removed;
  delta_set k : assoc k set = set_part (change_of (assoc k bs) (assoc k ms));
  delta_append k : assoc k append = append_part (change_of (assoc k bs) (assoc k ms));
  delta_gone k : In k removed <-> change_of (assoc k bs) (assoc k ms) = Removed }.

Lemma gone_iff bs ms k : In k (keys bs) /\ assoc k ms = None <-> change_of (assoc k bs) (assoc k ms) = Removed.
Proof.
  unfold change_of. split.
  - intros [Hk ->]. destruct (assoc k bs) eqn:E; [done|]. by apply assoc_none in E.
  - destruct (assoc k ms) as [v|]; [by repeat case_match|]. destruct (assoc k bs) eqn:E; [|done]. by apply assoc_key in E.
Qed.

Lemma session_delta_spec bs ms : plain_keys bs -> plain_keys ms ->
  match session_delta (Some (JObj bs)) (JObj ms) with
  | Some delta => exists set append removed, delta_of bs ms set append removed /\
      delta = JObj [(B"set", JObj set); (B"remove", JArr (map JStr removed)); (B"append", JObj append)]
  | None => (exists k v, assoc k ms = Some v /\ ~ sendable (assoc k bs) k v) \/
      (exists k, In k (keys bs) /\ assoc k ms = None /\ session_field (Some k) = false)
  end.
Proof.
  intros [_ Hb] Hm. unfold session_delta. pose proof (delta_members_spec bs ms Hm) as H1. pose proof (delta_removed_spec ms bs Hb) as H2.
  destruct (delta_members (Some (JObj bs)) ms) as [[set append]|]; cbn [mbind option_bind]; [|by left].
  destruct (delta_removed (Some (JObj ms)) bs) as [removed|]; cbn [mbind option_bind]; [|by right].
  destruct H1 as (_ & Hset & Happ & Hfs & Hca & Hnone & Hsome). destruct H2 as [Hr Hgone].
  exists set, append, removed. split; [|done]. constructor; try done.
  - intros k. destruct (assoc k ms) as [v|] eqn:E; [by apply Hsome|]. destruct (Hnone k E) as [-> _]. cbn. by destruct (assoc k bs).
  - intros k. destruct (assoc k ms) as [v|] eqn:E; [by apply Hsome|]. destruct (Hnone k E) as [_ ->]. cbn. by destruct (assoc k bs).
  - intros k. by rewrite Hgone, gone_iff.
Qed.

Section delta.
Context (bs ms set append : list (bytes * jval)) (removed : list bytes) (D : delta_of bs ms set append removed).
Let delta : jval := JObj [(B"set", JObj set); (B"remove", JArr (map JStr removed)); (B"append", JObj append)].

Lemma delta_part key : jget (Some delta) key =
  if str_eq B"set" key then Some (JObj set) else if str_eq B"remove" key then Some (JArr (map JStr removed))
  else if str_eq B"append" key then Some (JObj append) else None.
Proof. reflexivity. Qed.

Lemma delta_arrays : arrays append.
Proof.
  apply Forall_forall. intros [k v] Hin. cbn [snd]. pose proof (delta_append _ _ _ _ _ D k) as E.
  rewrite (assoc_nodup k v) in E by (done || apply (delta_append_plain _ _ _ _ _ D)).
  destruct (change_of (assoc k bs) (assoc k ms)); try done. injection E as ->. by eexists.
Qed.

Lemma delta_disjoint k : In k (keys append) -> assoc k set = None.
Proof.
  intros Hk. rewrite (delta_set _ _ _ _ _ D). pose proof (delta_append _ _ _ _ _ D k) as E.
  destruct (change_of_cases (assoc k bs) (assoc k ms)) as [H|H]; [done|]. rewrite H in E. by apply assoc_none in E.
Qed.

Lemma delta_removed_alone k : In k removed -> assoc k set = None /\ assoc k append = None.
Proof. intros H%(delta_gone _ _ _ _ _ D). by rewrite (delta_set _ _ _ _ _ D), (delta_append _ _ _ _ _ D), H. Qed.

Lemma forallb_keys (f : bytes -> bool) l : plain_keys l -> all_keys f l -> forallb (fun '(k, _) => f (c_str k)) l = true.
Proof.
  intros [_ Hp] Hf. apply forallb_forall. intros [k v] Hin. unfold all_keys in Hf. rewrite Forall_forall in Hp, Hf.
  assert (In k (keys l)) as Hk by (apply in_map_iff; by exists (k, v)). rewrite c_str_plain by (by apply Hp). by apply Hf.
Qed.

Lemma delta_is_valid : session_delta_valid (Some delta) = true.
Proof.
  unfold session_delta_valid. rewrite !delta_part. cbn [str_eq list_eq_dec obj_members arr_items is_obj is_arr length Nat.eqb].
  change (str_eq B"set" B"set") with true. change (str_eq B"set" B"remove") with false. change (str_eq B"remove" B"remove") with true.
  change (str_eq B"set" B"append") with false. change (str_eq B"remove" B"append") with false. change (str_eq B"append" B"append") with true.
  cbn [is_obj is_arr obj_members arr_items andb]. apply andb_true_iff. split; [apply andb_true_iff; split|].
  - apply (forallb_keys (fun k => session_field (Some k))); [apply (delta_set_plain _ _ _ _ _ D)|apply (delta_set_fields _ _ _ _ _ D)].
  - pose proof (delta_append_plain _ _ _ _ _ D) as [_ Hp]. pose proof (delta_append_fields _ _ _ _ _ D) as Hf.
    apply forallb_forall. intros [k v] Hin. unfold all_keys in Hf. rewrite Forall_forall in Hp, Hf.
    assert (In k (keys append)) as Hk by (apply in_map_iff; by exists (k, v)). rewrite c_str_plain, (Hf k) by auto.
    pose proof delta_arrays as Ha. unfold arrays in Ha. rewrite Forall_forall in Ha. destruct (Ha _ Hin) as [items E]. cbn in E. subst v.
    unfold has. cbn [jget is_arr andb]. by rewrite (delta_disjoint k Hk).
  - apply forallb_forall. intros v (k & <- & Hin)%in_map_iff. pose proof (delta_removed_fields _ _ _ _ _ D) as Hr.
    rewrite Forall_forall in Hr. destruct (Hr _ Hin) as [Hn Hf]. cbn [str_of]. rewrite c_str_plain, Hf by done.
    destruct (delta_removed_alone k Hin) as [E1 E2]. unfold has. cbn [jget]. by rewrite E1, E2.
Qed.

Lemma delta_merge os :
  match merge_doc (Some (JObj os)) (Some delta) with
  | Some merged => exists rs, merged = JObj rs /\
      forall k, change (change_of (assoc k bs) (assoc k ms)) (assoc k os) = Some (assoc k rs)
  | None => exists k, change (change_of (assoc k bs) (assoc k ms)) (assoc k os) = None
  end.
Proof.
  unfold merge_doc. change (jget (Some delta) B"set") with (Some (JObj set)).
  change (jget (Some delta) B"remove") with (Some (JArr (map JStr removed))). change (jget (Some delta) B"append") with (Some (JObj append)).
  cbn [obj_members arr_items is_obj is_arr length Nat.eqb negb orb]. change (length (obj_members (Some delta))) with 3%nat. cbn [Nat.eqb negb orb].
  set (puts := fold_left _ set os).
  assert (forall k, assoc k puts = match set_part (change_of (assoc k bs) (assoc k ms)) with Some v => Some v | None => assoc k os end) as Hputs.
  { intros k. unfold puts. rewrite assoc_puts by apply (delta_set_plain _ _ _ _ _ D). by rewrite (delta_set _ _ _ _ _ D). }
  assert (forall k, append_change append k = match change_of (assoc k bs) (assoc k ms) with Extended s => Extended s | _ => Kept end) as Happ.
  { intros k. unfold append_change. rewrite (delta_append _ _ _ _ _ D). by destruct (change_of _ _). }
  pose proof (merge_appends_spec set append puts (delta_append_plain _ _ _ _ _ D) delta_arrays delta_disjoint) as H.
  destruct (merge_appends _ append puts) as [rs|]; cbn [mbind option_bind].
  - destruct (merge_removes_spec set append removed rs) as (rs' & -> & Hrs).
    { eapply List.Forall_impl; [|apply (delta_removed_fields _ _ _ _ _ D)]. by intros k []. }
    { exact delta_removed_alone. }
    exists rs'. split; [done|]. intros k. specialize (H k). rewrite Happ, Hputs in H. rewrite Hrs.
    destruct (str_in k removed) eqn:Ek.
    + apply str_in_true, (delta_gone _ _ _ _ _ D) in Ek. by rewrite Ek.
    + destruct (change_of _ _) eqn:Ec; cbn [set_part change] in *; try done.
      apply (delta_gone _ _ _ _ _ D), str_in_true in Ec. congruence.
  - destruct H as [k H]. exists k. rewrite Happ, Hputs in H. by destruct (change_of _ _).
Qed.

End delta.

(** ** Lemmas: nothing changed meanwhile *)

(** Equal values, or none on both sides. *)
Definition same_value (a b : option jval) : Prop :=
  match a, b with Some v, Some w => yyjson_equals v w = true | None, None => True | _, _ => False end.

Lemma items_equal_spec vs ws : Forall distinct vs -> Forall distinct ws ->
  (length vs <=? length ws)%nat && items_equal vs ws = true ->
  Forall2 (fun v w => yyjson_equals v w = true) (vs ++ drop (length vs) ws) ws.
Proof.
  revert ws. induction vs as [|v vs IH]; intros ws Hv Hw H.
  - cbn [length app]. rewrite drop_0. clear H Hv. induction Hw; constructor; [by apply equals_refl|done].
  - destruct ws as [|w ws]; [done|]. apply Forall_cons_iff in Hv as [_ Hv], Hw as [_ Hw].
    cbn [length items_equal drop app] in *. apply andb_true_iff in H as [Hl H]. apply andb_true_iff in H as [H1 H].
    constructor; [done|]. apply IH; [done..|]. by rewrite H, andb_true_r.
Qed.

Lemma change_same base mine v : (forall w, base = Some w -> distinct w) -> (forall w, mine = Some w -> distinct w) ->
  change (change_of base mine) base = Some v -> same_value v mine.
Proof.
  intros Hb Hm. unfold change_of. destruct mine as [w|]; [|destruct base; cbn; by intros [= <-]].
  specialize (Hm w eq_refl). destruct (equals (Some w) base) eqn:Ee.
  { destruct base as [u|]; [|done]. intros [= <-]. cbn in *. by apply equals_sym; [|apply Hb|]. }
  destruct (array_prefix base (Some w)) eqn:Ep; [|intros [= <-]; by apply equals_refl].
  destruct w as [| | | |ws|]; try done. apply distinct_arr in Hm. cbn [array_prefix arr_items change] in *.
  destruct base as [[| | | |us|]|]; try done.
  - specialize (Hb _ eq_refl). apply distinct_arr in Hb. intros [= <-]. apply equals_arr. by apply items_equal_spec.
  - intros [= <-]. cbn [same_value length]. rewrite drop_0. apply equals_refl. by apply distinct_arr.
Qed.

Lemma change_total base mine : is_Some (change (change_of base mine) base).
Proof.
  unfold change_of. destruct mine as [w|]; [|by destruct base]. destruct (equals _ base); [done|].
  destruct (array_prefix base (Some w)) eqn:Ep; [|done]. destruct w; try done. destruct base as [[]|]; done.
Qed.

Lemma distinct_assoc ms k v : distinct (JObj ms) -> assoc k ms = Some v -> distinct v.
Proof. intros [_ H]%distinct_obj E%assoc_in. rewrite Forall_forall in H. apply (H _ E). Qed.

Lemma outbox_change outbox history :
  change (change_of (Some (JArr [])) (Some (JArr outbox))) (Some (JArr history)) = Some (Some (JArr (history ++ outbox))) /\
  set_part (change_of (Some (JArr [])) (Some (JArr outbox))) = None.
Proof.
  unfold change_of. destruct outbox as [|v outbox]; [by rewrite app_nil_r|]. done.
Qed.

Section transfer.
Context (bs ms os : list (bytes * jval)) (outbox history : list jval)
  (Hbd : distinct (JObj bs)) (Hmd : distinct (JObj ms)) (Hbk : all_keys carried_field bs) (Hmk : all_keys carried_field ms)
  (Hempty : assoc B"messages" bs = Some (JArr [])) (Houtbox : assoc B"messages" ms = Some (JArr outbox))
  (Hhistory : assoc B"messages" os = Some (JArr history))
  (Hsame : forall k, session_field (Some k) = true -> assoc k os = assoc k bs).

Lemma copy_sendable :
  ~ ((exists k v, assoc k ms = Some v /\ ~ sendable (assoc k bs) k v) \/
     (exists k, In k (keys bs) /\ assoc k ms = None /\ session_field (Some k) = false)).
Proof using Hbk Hmk Hempty Houtbox.
  unfold all_keys in *. rewrite Forall_forall in Hbk, Hmk. intros [(k & v & E & H)|(k & Hk & E & Hf)].
  - apply H. split; [apply Hmk; by eapply assoc_key|]. intros ->. rewrite Hempty. rewrite Houtbox in E. injection E as <-.
    apply (outbox_change outbox []).
  - specialize (Hbk k Hk). unfold carried_field in Hbk. rewrite Hf in Hbk. apply str_eq_true in Hbk. subst k. by rewrite Houtbox in E.
Qed.

Lemma copy_changes k : exists v, change (change_of (assoc k bs) (assoc k ms)) (assoc k os) = Some v /\
  (k = B"messages" -> v = Some (JArr (history ++ outbox))) /\
  (session_field (Some k) = true -> same_value v (assoc k ms)) /\
  (carried_field k = false -> v = assoc k os).
Proof using All.
  unfold all_keys in *. rewrite Forall_forall in Hbk, Hmk. destruct (session_field (Some k)) eqn:Ef.
  - destruct (change_total (assoc k bs) (assoc k ms)) as [v E]. exists v. rewrite (Hsame k Ef). split_and!; [done| | |].
    + by intros ->.
    + intros _. by apply (change_same (assoc k bs)); [intros w; by apply distinct_assoc..|].
    + unfold carried_field. by rewrite Ef.
  - unfold carried_field. rewrite Ef. cbn [orb]. destruct (str_eq k B"messages") eqn:Ek.
    + apply str_eq_true in Ek as ->. rewrite Hempty, Houtbox, Hhistory. eexists. split; [apply outbox_change|]. done.
    + assert (assoc k bs = None /\ assoc k ms = None) as [-> ->].
      { split; apply assoc_none; intros Hin; [apply Hbk in Hin|apply Hmk in Hin]; unfold carried_field in Hin; by rewrite Ef, Ek in Hin. }
      exists (assoc k os). split_and!; [done| |done|done]. intros ->. by rewrite str_eq_refl in Ek.
Qed.
End transfer.

(** ** Properties *)

(** C14: merging what a copy changed into the owner's document is the three-way
    merge of the two, field by field: a field the copy left alone keeps the
    owner's value, a list it extended is extended by the same items, a field it
    replaced or removed is replaced or removed; the merge is refused exactly
    when a list to be extended is no list any more; and a delta that was
    encoded is always a valid one. *)
Theorem exec_delta_merges (bs ms os : list (bytes * jval)) (delta : jval) (Hb : plain_keys bs) (Hm : plain_keys ms)
    (Hdelta : session_delta (Some (JObj bs)) (JObj ms) = Some delta) :
  session_delta_valid (Some delta) = true /\
  match merge_doc (Some (JObj os)) (Some delta) with
  | Some merged => exists rs, merged = JObj rs /\
      forall k, change (change_of (assoc k bs) (assoc k ms)) (assoc k os) = Some (assoc k rs)
  | None => exists k, change (change_of (assoc k bs) (assoc k ms)) (assoc k os) = None
  end.
Proof.
  pose proof (session_delta_spec bs ms Hb Hm) as H. rewrite Hdelta in H. destruct H as (set & append & removed & D & ->).
  split; [by apply (delta_is_valid bs ms)|by apply delta_merge].
Qed.

(** A copy that holds only session fields and an outbox that began empty is
    always encoded, and when the owner's session fields have not changed since,
    merging gives the owner the copy's fields, the outbox after its own
    messages, and everything else as it was. *)
Theorem exec_delta_transfers (bs ms os : list (bytes * jval)) (outbox history : list jval)
    (Hb : plain_keys bs) (Hm : plain_keys ms) (Hbd : distinct (JObj bs)) (Hmd : distinct (JObj ms))
    (Hbk : all_keys carried_field bs) (Hmk : all_keys carried_field ms)
    (Hempty : assoc B"messages" bs = Some (JArr [])) (Houtbox : assoc B"messages" ms = Some (JArr outbox))
    (Hhistory : assoc B"messages" os = Some (JArr history))
    (Hsame : forall k, session_field (Some k) = true -> assoc k os = assoc k bs) :
  exists delta rs, session_delta (Some (JObj bs)) (JObj ms) = Some delta /\
    merge_doc (Some (JObj os)) (Some delta) = Some (JObj rs) /\
    assoc B"messages" rs = Some (JArr (history ++ outbox)) /\
    (forall k, session_field (Some k) = true -> same_value (assoc k rs) (assoc k ms)) /\
    (forall k, carried_field k = false -> assoc k rs = assoc k os).
Proof.
  pose proof (session_delta_spec bs ms Hb Hm) as H. destruct (session_delta _ _) as [delta|].
  2:{ by destruct (copy_sendable bs ms outbox Hbk Hmk Hempty Houtbox). }
  destruct H as (set & append & removed & D & ->). eexists. pose proof (delta_merge bs ms set append removed D os) as Hmerge.
  pose proof (copy_changes bs ms os outbox history Hbd Hmd Hbk Hmk Hempty Houtbox Hhistory Hsame) as Hc.
  destruct (merge_doc _ _) as [merged|] eqn:E; [|destruct Hmerge as [k Hk]; by destruct (Hc k) as (v & Ev & _); rewrite Ev in Hk].
  destruct Hmerge as (rs & -> & Hrs). exists rs. split; [done|]. split; [exact E|].
  assert (forall k, (k = B"messages" -> assoc k rs = Some (JArr (history ++ outbox))) /\
    (session_field (Some k) = true -> same_value (assoc k rs) (assoc k ms)) /\ (carried_field k = false -> assoc k rs = assoc k os)) as Hk.
  { intros k. destruct (Hc k) as (v & Ev & H). rewrite Hrs in Ev. injection Ev as <-. exact H. }
  split_and!; [by apply Hk|intros k; apply Hk..].
Qed.

(** ** Concrete instances *)

(** A copy that took a task, recorded a receipt and wrote a message. *)
Definition demo_base : list (bytes * jval) :=
  [(B"messages", JArr []); (B"team_receipts", JArr [JStr B"r1"]); (B"swarm_cap", JNum (JUint 4))].
Definition demo_copy : list (bytes * jval) :=
  [(B"messages", JArr [JStr B"hello"]); (B"team_receipts", JArr [JStr B"r1"; JStr B"r2"]); (B"task", JStr B"t")].
Definition demo_owner : list (bytes * jval) :=
  [(B"messages", JArr [JStr B"m1"]); (B"title", JStr B"x"); (B"team_receipts", JArr [JStr B"r1"]); (B"swarm_cap", JNum (JUint 4))].

Lemma demo_plain : plain_keys demo_base /\ plain_keys demo_copy.
Proof. split; split; by apply (bool_decide_unpack _). Defined.

Definition demo_delta : jval :=
  JObj [(B"set", JObj [(B"task", JStr B"t")]); (B"remove", JArr [JStr B"swarm_cap"]);
        (B"append", JObj [(B"messages", JArr [JStr B"hello"]); (B"team_receipts", JArr [JStr B"r2"])])].

Example exec_delta_merges_witness : session_delta_valid (Some demo_delta) = true.
Proof. apply (exec_delta_merges demo_base demo_copy demo_owner demo_delta (proj1 demo_plain) (proj2 demo_plain)). reflexivity. Defined.

Example demo_merge :
  merge_doc (Some (JObj demo_owner)) (Some demo_delta) =
  Some (JObj [(B"messages", JArr [JStr B"m1"; JStr B"hello"]); (B"title", JStr B"x");
    (B"team_receipts", JArr [JStr B"r1"; JStr B"r2"]); (B"task", JStr B"t")]).
Proof. vm_compute. reflexivity. Qed.

Example exec_delta_transfers_witness :
  exists delta rs, session_delta (Some (JObj demo_base)) (JObj demo_copy) = Some delta /\
    merge_doc (Some (JObj demo_owner)) (Some delta) = Some (JObj rs) /\
    assoc B"messages" rs = Some (JArr ([JStr B"m1"] ++ [JStr B"hello"])) /\
    (forall k, session_field (Some k) = true -> same_value (assoc k rs) (assoc k demo_copy)) /\
    (forall k, carried_field k = false -> assoc k rs = assoc k demo_owner).
Proof.
  apply (exec_delta_transfers demo_base demo_copy demo_owner); [apply demo_plain|apply demo_plain| | | | |reflexivity..|].
  - apply distinct_obj. split; [apply demo_plain|by repeat constructor].
  - apply distinct_obj. split; [apply demo_plain|by repeat constructor].
  - by repeat constructor.
  - by repeat constructor.
  - intros k Hk. apply str_in_true in Hk. cbn [In session_fields] in Hk.
    repeat destruct Hk as [<-|Hk]; reflexivity || destruct Hk.
Defined.
