(* ===== verification/ExecState.v ===== *)
(** The state that the execution server's copy of the tools and the owner's
    exchange (src/src/core/execution_state.c): what is sent, and how it is
    checked, staged and committed as a whole. *)
From S2P Require Import Prelude Codec Digest Json JsonValue ExecProtocol ExecDelta.

Open Scope Z_scope.

(** ** Data *)

Definition TNY_EXEC_FRAME_MAX : Z := 8 * 1024 * 1024.
Definition STATE_IMAGE_BYTES : Z := 4 * 1024 * 1024.
Definition STATE_RESULT_BYTES : Z := TNY_EXEC_FRAME_MAX.
Definition STATE_ENTRIES : Z := 4096.
Definition IMAGES_MAX : nat := 8.
Definition HANDLE_MAX : nat := 256.
Definition TNY_LEARN_OTHER : Z := 4.
Definition TNY_IMAGE_QUEUE_PREVIEW : Z := 1.

(** A large result that is kept in memory. *)
Record session_mem_result := mk_result { handle : bytes; data : bytes }.

#[export] Instance session_mem_result_eq : EqDecision session_mem_result.
Proof. solve_decision. Defined.

(** The fields of [tny_session_state] that are sent; [doc] is its document. *)
Record session_state := mk_session {
  id : option bytes; dir : option bytes; doc : jval; task_body : option bytes; start_reason : option bytes;
  previous_session_id : option bytes; event_sequence : Z; agent_sequence : Z; session_started : bool; persisted : bool;
  mem_results : list session_mem_result }.

Record tools_learning_fact := mk_fact { valid : bool; ok : bool; event : Z; scope : Z; intent : Z }.

(** An entry of the image queue: a path and what was captured of it. *)
Record pending_image := mk_image {
  path : option bytes; cap_data : option bytes; mime : option bytes; sha256_hex : bytes; origin : Z }.

(** The state of [tools_env] that is exchanged; [has_ctx]: it has a context;
    [grants] are those of its permission engine. *)
Record tools_env := mk_env {
  has_ctx : bool; learning_fact : tools_learning_fact; session : option session_state; grants : option (list bytes);
  perm_blocked : bool; pending_images : list pending_image }.

Definition result_bytes (rs : list session_mem_result) : Z := fold_right (fun r n => Z.of_nat (length (data r)) + n) 0 rs.
Definition image_len (p : pending_image) : Z := match cap_data p with Some d => Z.of_nat (length d) | None => 0 end.
Definition image_bytes (ps : list pending_image) : Z := fold_right (fun p n => image_len p + n) 0 ps.

(** ** Image types (src/src/core/image.c) *)

Definition at_byte (d : bytes) (i : nat) (b : Z) : bool := nth i d NUL =? b.

Definition image_mime (d : bytes) : option bytes :=
  let at_ (i : nat) (s : bytes) := str_eq (take (length s) (drop i d)) s in
  if (length d <? 12)%nat then None
  else if at_ 0%nat [0x89; 0x50; 0x4e; 0x47; 0x0d; 0x0a; 0x1a; 0x0a] then Some B"image/png"
  else if at_ 0%nat [0xff; 0xd8; 0xff] then Some B"image/jpeg"
  else if at_ 0%nat B"GIF8" && (at_byte d 4 (C"7") || at_byte d 4 (C"9")) && at_byte d 5 (C"a") then Some B"image/gif"
  else if at_ 0%nat B"RIFF" && at_ 8%nat B"WEBP" then Some B"image/webp"
  else None.

(** The digest in hexadecimal (src/src/util/image_io.c). *)
Definition tny_image_io_sha256_hex (calloc_ok : bool) (d : bytes) : option bytes :=
  digest ← Digest.sha256 calloc_ok d;
  Some (concat (map (fun b => [hex_lower (Z.shiftr b 4); hex_lower (Z.land b 15)]) digest)).

(** ** Sending *)

Definition optional (text : option bytes) : jval := match text with Some s => JStr s | None => JNull end.
Definition uint (n : Z) : jval := JNum (JUint n).

Definition encode_session (s : option session_state) (baseline : option jval) (initial : bool) : option jval :=
  match s with
  | None => Some JNull
  | Some s =>
    if initial then
      projection ← session_projection (doc s);
      Some (JObj [(B"id", optional (id s)); (B"dir", optional (dir s)); (B"projection", uint 1); (B"doc", projection);
        (B"task_body", optional (task_body s)); (B"extension_start_reason", optional (start_reason s));
        (B"extension_previous_session_id", optional (previous_session_id s));
        (B"extension_event_sequence", uint (event_sequence s)); (B"extension_agent_sequence", uint (agent_sequence s));
        (B"extension_session_started", JBool (session_started s)); (B"persisted", JBool (persisted s))])
    else session_delta baseline (doc s)
  end.

Definition encode_result (r : session_mem_result) : jval :=
  JObj [(B"handle", JStr (handle r)); (B"len", uint (Z.of_nat (length (data r)))); (B"data", JStr (b64_encode (data r)))].

(** [total] bytes are used already. *)
Fixpoint encode_results (rs : list session_mem_result) (total : Z) : option (list jval) :=
  match rs with
  | [] => Some []
  | r :: rs =>
    if STATE_RESULT_BYTES - total <? Z.of_nat (length (data r)) then None
    else rest ← encode_results rs (total + Z.of_nat (length (data r))); Some (encode_result r :: rest)
  end.

Fixpoint encode_images (ps : list pending_image) (total : Z) : option (list jval) :=
  match ps with
  | [] => Some []
  | p :: ps =>
    match cap_data p, mime p, path p with
    | Some d, Some m, Some path =>
      let len := Z.of_nat (length d) in
      if (len =? 0) || (STATE_IMAGE_BYTES - total <? len) then None
      else
        rest ← encode_images ps (total + len);
        Some (JObj [(B"path", JStr path); (B"mime", JStr m); (B"sha256", JStr (sha256_hex p)); (B"origin", uint (origin p));
          (B"len", uint len); (B"data", JStr (b64_encode d))] :: rest)
    | _, _, _ => None
    end
  end.

Definition encode_fact (fact : tools_learning_fact) : jval :=
  JObj [(B"valid", JBool (valid fact)); (B"ok", JBool (ok fact)); (B"event", uint (event fact)); (B"scope", uint (scope fact));
    (B"intent", uint (intent fact))].

(** [memory]: there was memory for all of it. *)
Definition tny_execution_state_encode (memory : bool) (env : tools_env) (baseline : option jval) (initial : bool) : option jval :=
  if (IMAGES_MAX <? length (pending_images env))%nat || negb memory then None
  else
    session_json ← encode_session (session env) baseline initial;
    let grants := default [] (grants env) in
    let results := from_option mem_results [] (session env) in
    if (STATE_ENTRIES <? Z.of_nat (length grants)) || (STATE_ENTRIES <? Z.of_nat (length results)) then None
    else
      results_json ← encode_results results 0;
      images_json ← (if initial then Some [] else encode_images (pending_images env) 0);
      Some (JObj [(B"session", session_json); (B"grants", JArr (map JStr grants)); (B"mem_results", JArr results_json);
        (B"images", JArr images_json);
        (B"learning", encode_fact (learning_fact env));
        (B"pending_count", uint (Z.of_nat (length (pending_images env)))); (B"perm_blocked", JBool (perm_blocked env))]).

(** ** Receiving *)

(** Only what the encoder writes for the bytes is taken. *)
Definition read_bytes (item : option jval) (max : Z) : option bytes :=
  match uint_of (jget item B"len"), jget_str item B"data" with
  | Some len, Some encoded =>
    if (max <? len) || negb (Z.of_nat (length encoded) =? (len + 2) / 3 * 4) then None
    else
      let got := b64_decode encoded (Z.to_nat len) in
      if (Z.of_nat (length got) =? len) && str_eq encoded (b64_encode got) then Some got else None
  | _, _ => None
  end.

(** [None] is a value of another type. *)
Definition optional_string (obj : option jval) (key : bytes) : option (option bytes) :=
  match jget obj key with
  | Some JNull => Some None
  | Some (JStr s) => Some (Some (c_str s))
  | _ => None
  end.

Definition restore_session (v : option jval) : option session_state :=
  match uint_of (jget v B"projection"), jget_str v B"id", jget_str v B"dir", jget v B"doc",
        uint_of (jget v B"extension_event_sequence"), uint_of (jget v B"extension_agent_sequence"),
        jget v B"extension_session_started", jget v B"persisted" with
  | Some 1, Some id, Some dir, Some (JObj ms), Some event, Some agent, Some (JBool started), Some (JBool persisted) =>
    if negb (forallb (fun '(k, _) => carried_field (c_str k)) ms) then None
    else
      match jget (Some (JObj ms)) B"messages" with
      | Some (JArr []) =>
        task ← optional_string v B"task_body";
        reason ← optional_string v B"extension_start_reason";
        previous ← optional_string v B"extension_previous_session_id";
        Some (mk_session (Some id) (Some dir) (JObj ms) task reason previous event agent started persisted [])
      | _ => None
      end
  | _, _, _, _, _, _, _, _ => None
  end.

Fixpoint merge_grants (have : list bytes) (items : list jval) : option (list bytes) :=
  match items with
  | [] => Some have
  | item :: items =>
    match str_of item with
    | Some ((_ :: _) as grant) =>
      if str_in grant have then merge_grants have items
      else if STATE_ENTRIES <=? Z.of_nat (length have) then None
      else merge_grants (have ++ [grant]) items
    | _ => None
    end
  end.

(** The last result with the handle. *)
Definition find_result (h : bytes) (rs : list session_mem_result) : option session_mem_result :=
  List.find (fun r => str_eq h (handle r)) (rev rs).

Fixpoint merge_results (have : list session_mem_result) (items : list jval) : option (list session_mem_result) :=
  match items with
  | [] => Some have
  | item :: items =>
    match jget_str (Some item) B"handle", read_bytes (Some item) STATE_RESULT_BYTES with
    | Some ((_ :: _) as h), Some d =>
      if (HANDLE_MAX <? length h)%nat then None
      else
        match find_result h have with
        | Some r => if str_eq d (data r) then merge_results have items else None
        | None =>
          if (STATE_RESULT_BYTES - result_bytes have <? Z.of_nat (length d)) || (STATE_ENTRIES <=? Z.of_nat (length have)) then None
          else merge_results (have ++ [mk_result h d]) items
        end
    | _, _ => None
    end
  end.

(** The new images; [total] bytes are queued before them. *)
Fixpoint stage_images (total : Z) (items : list jval) : option (list pending_image) :=
  match items with
  | [] => Some []
  | item :: items =>
    let v := Some item in
    match jget_str v B"path", jget_str v B"mime", jget_str v B"sha256", uint_of (jget v B"origin") with
    | Some ((_ :: _) as path), Some m, Some hash, Some origin =>
      if negb (length hash =? 64)%nat || (TNY_IMAGE_QUEUE_PREVIEW <? origin) then None
      else
        match read_bytes v (STATE_IMAGE_BYTES - total) with
        | Some ((_ :: _) as d) =>
          match image_mime d, tny_image_io_sha256_hex true d with
          | Some found, Some digest =>
            if str_eq found m && str_eq digest hash then
              rest ← stage_images (total + Z.of_nat (length d)) items;
              Some (mk_image (Some path) (Some d) (Some found) digest origin :: rest)
            else None
          | _, _ => None
          end
        | _ => None
        end
    | _, _, _, _ => None
    end
  end.

Definition read_fact (fact : option jval) : option tools_learning_fact :=
  match jget fact B"valid", jget fact B"ok", uint_of (jget fact B"event"), uint_of (jget fact B"scope"),
        uint_of (jget fact B"intent") with
  | Some (JBool valid), Some (JBool ok), Some event, Some scope, Some intent =>
    if TNY_LEARN_OTHER <? event then None else Some (mk_fact valid ok event scope intent)
  | _, _, _, _, _ => None
  end.

(** The types and bounds of the members. *)
Definition state_shape (state : option jval) (initial : bool) : bool :=
  let session := jget state B"session" in
  (is_obj session || is_null session) && is_arr (jget state B"grants") && is_arr (jget state B"mem_results") &&
  is_arr (jget state B"images") && is_obj (jget state B"learning") && is_bool (jget state B"perm_blocked") &&
  match uint_of (jget state B"pending_count") with Some n => n <=? 8 | None => false end &&
  (Z.of_nat (length (arr_items (jget state B"grants"))) <=? STATE_ENTRIES) &&
  (Z.of_nat (length (arr_items (jget state B"mem_results"))) <=? STATE_ENTRIES) &&
  (length (arr_items (jget state B"images")) <=? IMAGES_MAX)%nat &&
  negb (initial && negb (length (arr_items (jget state B"images")) =? 0)%nat).

(** The session that receives the results, with its merged document. *)
Definition stage_session (env : tools_env) (v : option jval) (initial : bool) : option (option session_state) :=
  if is_obj v then
    if initial then s ← restore_session v; Some (Some s)
    else
      match session env with
      | Some s =>
        if negb (session_delta_valid v) then None
        else if session_delta_changed v then
          doc ← merge_doc (Some (doc s)) v;
          Some (Some (mk_session (id s) (dir s) doc (task_body s) (start_reason s) (previous_session_id s) (event_sequence s)
            (agent_sequence s) (session_started s) (persisted s) (mem_results s)))
        else Some (Some s)
      | None => None
      end
  else if negb initial && bool_decide (is_Some (session env)) then None
  else Some None.

Definition set_results (s : session_state) (rs : list session_mem_result) : session_state :=
  mk_session (id s) (dir s) (doc s) (task_body s) (start_reason s) (previous_session_id s) (event_sequence s)
    (agent_sequence s) (session_started s) (persisted s) rs.

(** Everything checked and built, nothing changed yet. *)
Definition stage_state (env : tools_env) (state : option jval) (initial : bool) : option tools_env :=
  if negb (has_ctx env) || negb (is_obj state) || negb (tny_exec_json_valid state) || (initial && bool_decide (is_Some (session env)))
  then None
  else if negb (state_shape state initial) then None
  else
    fact ← read_fact (jget state B"learning");
    target ← stage_session env (jget state B"session") initial;
    let results := arr_items (jget state B"mem_results") in
    let grant_items := arr_items (jget state B"grants") in
    let images := arr_items (jget state B"images") in
    let have := default [] (grants env) in
    let kept := from_option mem_results [] target in
    if negb (length results =? 0)%nat && negb (bool_decide (is_Some target)) then None
    else if (STATE_ENTRIES <? Z.of_nat (length have)) || (negb (bool_decide (is_Some (grants env))) && negb (length grant_items =? 0)%nat)
    then None
    else
      new_grants ← merge_grants have grant_items;
      if (STATE_ENTRIES <? Z.of_nat (length kept)) || (STATE_RESULT_BYTES <? result_bytes kept) then None
      else
        new_results ← merge_results kept results;
        if (IMAGES_MAX <? length (pending_images env) + length images)%nat || (STATE_IMAGE_BYTES <? image_bytes (pending_images env))
        then None
        else
          staged ← stage_images (image_bytes (pending_images env)) images;
          Some (mk_env true fact (match target with Some s => Some (set_results s new_results) | None => None end)
            (match grants env with Some _ => Some new_grants | None => None end)
            (perm_blocked env || bool_of (jget state B"perm_blocked")) (pending_images env ++ staged)).

(** [memory]: there was memory for the staging; [saved]: the document of an
    owner whose session changed could be saved. *)
Definition tny_execution_state_apply (memory saved : bool) (env : tools_env) (state : option jval) (initial : bool) : tools_env * bool :=
  if negb memory then (env, false)
  else
    match stage_state env state initial with
    | None => (env, false)
    | Some next =>
      let publish := negb initial && bool_decide (is_Some (session env)) && is_obj (jget state B"session") &&
                     session_delta_changed (jget state B"session") in
      (next, negb publish || saved)
    end.

(** ** The invariant, and what a commit may change *)

Definition unique_handles (rs : list session_mem_result) : Prop := NoDup (map handle rs).

(** Grants and handles are not repeated, and everything is within its bounds. *)
Record env_ok (env : tools_env) : Prop := {
  ok_grants : forall gs, grants env = Some gs -> NoDup gs /\ Z.of_nat (length gs) <= STATE_ENTRIES;
  ok_results : forall s, session env = Some s ->
    unique_handles (mem_results s) /\ Z.of_nat (length (mem_results s)) <= STATE_ENTRIES /\ result_bytes (mem_results s) <= STATE_RESULT_BYTES;
  ok_images : (length (pending_images env) <= IMAGES_MAX)%nat /\ image_bytes (pending_images env) <= STATE_IMAGE_BYTES }.

(** A captured image: its type and digest are those of its bytes. *)
Definition captured (p : pending_image) : Prop :=
  exists name d m, path p = Some name /\ name <> [] /\ cap_data p = Some d /\ d <> [] /\ mime p = Some m /\ image_mime d = Some m /\
    tny_image_io_sha256_hex true d = Some (sha256_hex p) /\ origin p <= TNY_IMAGE_QUEUE_PREVIEW.

(** A session after a commit: nothing but its document and further results. *)
Definition session_grows (s s' : session_state) : Prop :=
  (exists added, mem_results s' = mem_results s ++ added) /\
  s' = mk_session (id s) (dir s) (doc s') (task_body s) (start_reason s) (previous_session_id s) (event_sequence s)
         (agent_sequence s) (session_started s) (persisted s) (mem_results s').

Record env_grows (env env' : tools_env) (state : option jval) (initial : bool) : Prop := {
  grows_grants : match grants env, grants env' with
    | Some gs, Some gs' => exists added, gs' = gs ++ added /\ Forall (fun g => ~ In g gs) added
    | None, None => True
    | _, _ => False
    end;
  grows_images : exists added, pending_images env' = pending_images env ++ added /\ Forall captured added;
  grows_blocked : perm_blocked env = true -> perm_blocked env' = true;
  grows_session : match session env, session env' with
    | Some s, Some s' => initial = false /\ session_grows s s' /\
        (if session_delta_changed (jget state B"session") then merge_doc (Some (doc s)) (jget state B"session") = Some (doc s')
         else doc s' = doc s)
    | None, Some _ => initial = true
    | None, None => True
    | Some _, None => False
    end }.

(** ** Lemmas: merging grants and results *)

Lemma str_in_false a t : str_in a t = false <-> ~ In a t.
Proof. rewrite <- str_in_true. by destruct (str_in a t). Qed.

Lemma merge_grants_spec have items gs : merge_grants have items = Some gs ->
  exists added, gs = have ++ added /\ Forall (fun g => ~ In g have) added /\ (NoDup have -> NoDup gs) /\
    (Z.of_nat (length have) <= STATE_ENTRIES -> Z.of_nat (length gs) <= STATE_ENTRIES).
Proof.
  revert have. induction items as [|item items IH]; intros have; cbn [merge_grants].
  { intros [= <-]. exists []. rewrite app_nil_r. by split_and!. }
  destruct (str_of item) as [[|c g]|]; try done. destruct (str_in (c :: g) have) eqn:Ein; [apply IH|].
  apply str_in_false in Ein. destruct (Z.leb_spec STATE_ENTRIES (Z.of_nat (length have))); [done|].
  intros (added & -> & Hnew & Hnd & Hlen)%IH. exists ((c :: g) :: added). rewrite <- app_assoc in *. cbn [app] in *. split_and!.
  - done.
  - constructor; [done|]. eapply List.Forall_impl; [|exact Hnew]. intros g' Hg' Hin. apply Hg', in_app_iff. by left.
  - intros Hh. apply Hnd, list.NoDup_app. split_and!; [done| |apply NoDup_singleton]. intros x Hx ->%list_elem_of_singleton.
    by apply list_elem_of_In in Hx.
  - intros _. apply Hlen. rewrite length_app. cbn [length]. lia.
Qed.

Lemma find_result_none h rs : find_result h rs = None -> ~ In h (map handle rs).
Proof.
  unfold find_result. intros H (r & <- & Hin)%in_map_iff. apply in_rev in Hin.
  pose proof (find_none _ _ H r Hin) as E. cbn in E. by rewrite str_eq_refl in E.
Qed.

Lemma bytes_of_app rs rs' : result_bytes (rs ++ rs') = result_bytes rs + result_bytes rs'.
Proof. induction rs as [|r rs IH]; cbn [app result_bytes fold_right]; [done|]. fold (result_bytes (rs ++ rs')) (result_bytes rs). lia. Qed.

Lemma image_bytes_app ps ps' : image_bytes (ps ++ ps') = image_bytes ps + image_bytes ps'.
Proof. induction ps as [|p ps IH]; cbn [app image_bytes fold_right]; [done|]. fold (image_bytes (ps ++ ps')) (image_bytes ps). lia. Qed.

Lemma merge_results_spec have items rs : merge_results have items = Some rs ->
  exists added, rs = have ++ added /\ (unique_handles have -> unique_handles rs) /\
    (Z.of_nat (length have) <= STATE_ENTRIES -> Z.of_nat (length rs) <= STATE_ENTRIES) /\
    (result_bytes have <= STATE_RESULT_BYTES -> result_bytes rs <= STATE_RESULT_BYTES).
Proof.
  revert have. induction items as [|item items IH]; intros have; cbn [merge_results].
  { intros [= <-]. exists []. rewrite app_nil_r. done. }
  destruct (jget_str (Some item) B"handle") as [[|c h]|]; try done.
  destruct (read_bytes (Some item) STATE_RESULT_BYTES) as [d|]; [|done]. destruct (HANDLE_MAX <? length (c :: h))%nat; [done|].
  destruct (find_result (c :: h) have) as [r|] eqn:Ef; [destruct (str_eq d (data r)); [apply IH|done]|].
  apply find_result_none in Ef. destruct (Z.ltb_spec (STATE_RESULT_BYTES - result_bytes have) (Z.of_nat (length d))); [done|].
  destruct (Z.leb_spec STATE_ENTRIES (Z.of_nat (length have))); [done|]. cbn [orb].
  intros (added & -> & Hnd & Hlen & Hb)%IH. exists (mk_result (c :: h) d :: added). rewrite <- app_assoc in *. cbn [app] in *. split_and!.
  - done.
  - intros Hh. apply Hnd. unfold unique_handles. rewrite map_app. apply list.NoDup_app. split_and!; [done| |apply NoDup_singleton].
    intros x Hx ->%list_elem_of_singleton. by apply list_elem_of_In in Hx.
  - intros _. apply Hlen. rewrite length_app. cbn [length]. lia.
  - intros _. apply Hb. rewrite bytes_of_app. cbn [result_bytes fold_right data]. lia.
Qed.

Lemma stage_images_spec total items ps : stage_images total items = Some ps ->
  length ps = length items /\ Forall captured ps /\ (total <= STATE_IMAGE_BYTES -> total + image_bytes ps <= STATE_IMAGE_BYTES).
Proof.
  revert total ps. induction items as [|item items IH]; intros total ps; cbn [stage_images].
  { intros [= <-]. cbn. split_and!; [done|constructor|lia]. }
  destruct (jget_str _ B"path") as [[|c name]|]; try done. destruct (jget_str _ B"mime") as [m|]; [|done].
  destruct (jget_str _ B"sha256") as [hash|]; [|done]. destruct (uint_of _) as [o|]; [|done].
  destruct (_ || _) eqn:Eo; [done|]. apply orb_false_iff in Eo as [_ Eo]. apply Z.ltb_ge in Eo.
  destruct (read_bytes _ _) as [[|b d]|] eqn:Er; try done. destruct (image_mime (b :: d)) as [found|] eqn:Em; [|done].
  destruct (tny_image_io_sha256_hex true (b :: d)) as [digest|] eqn:Ed; [|done].
  destruct (str_eq found m && str_eq digest hash); [|done].
  destruct (stage_images _ items) as [rest|] eqn:Es; [|done]. cbn [mbind option_bind]. intros [= <-].
  apply IH in Es as (Hl & Hc & Hb). split_and!.
  - cbn [length]. by rewrite Hl.
  - constructor; [|done]. by exists (c :: name), (b :: d), found.
  - intros Ht. cbn [image_bytes fold_right]. fold (image_bytes rest). unfold image_len at 1. cbn [cap_data].
    unfold read_bytes in Er. destruct (uint_of _) as [len|]; [|done]. destruct (jget_str _ _) as [encoded|]; [|done].
    destruct (Z.ltb_spec (STATE_IMAGE_BYTES - total) len); [done|]. destruct (negb _); [done|]. cbn [orb] in Er.
    destruct (Z.eqb_spec (Z.of_nat (length (b64_decode encoded (Z.to_nat len)))) len) as [El|]; [|done].
    destruct (str_eq _ _); [|done]. cbn [andb] in Er. injection Er as E. rewrite E in El. lia.
Qed.

(** ** Lemmas: staging *)

Definition with_doc (s : session_state) (d : jval) : session_state :=
  mk_session (id s) (dir s) d (task_body s) (start_reason s) (previous_session_id s) (event_sequence s)
    (agent_sequence s) (session_started s) (persisted s) (mem_results s).

Lemma with_doc_same s : with_doc s (doc s) = s.
Proof. by destruct s. Qed.

Lemma restore_session_fresh v s : restore_session v = Some s -> mem_results s = [].
Proof.
  unfold restore_session. intros H. repeat (case_match; try discriminate). by simplify_option_eq.
Qed.

Lemma stage_session_spec env v initial target :
  stage_session env v initial = Some target -> (initial = true -> session env = None) ->
  match session env, target with
  | Some s, Some s' => initial = false /\ exists d, s' = with_doc s d /\
      (if session_delta_changed v then merge_doc (Some (doc s)) v = Some d else d = doc s)
  | None, Some s' => initial = true /\ mem_results s' = []
  | None, None => True
  | Some _, None => False
  end.
Proof.
  unfold stage_session. intros H Hi. destruct (is_obj v).
  - destruct initial.
    + rewrite (Hi eq_refl). destruct (restore_session v) as [s|] eqn:Er; [|done]. injection H as <-.
      split; [done|by eapply restore_session_fresh].
    + destruct (session env) as [s|]; [|done]. destruct (negb (session_delta_valid v)); [done|].
      destruct (session_delta_changed v).
      * destruct (merge_doc _ v) as [d|]; [|done]. injection H as <-. split; [done|]. by exists d.
      * injection H as <-. split; [done|]. exists (doc s). by rewrite with_doc_same.
  - destruct initial; [by rewrite (Hi eq_refl); injection H as <-|].
    destruct (session env); cbn in H; [done|]. by injection H as <-.
Qed.

(** What a staged state was made from. *)
Lemma stage_state_inv env state initial next : stage_state env state initial = Some next ->
  tny_exec_json_valid state = true /\ (initial = true -> session env = None) /\
  exists target gs rs ps fact,
    stage_session env (jget state B"session") initial = Some target /\
    (result_bytes (from_option mem_results [] target) <= STATE_RESULT_BYTES /\
     Z.of_nat (length (from_option mem_results [] target)) <= STATE_ENTRIES /\
     Z.of_nat (length (default [] (grants env))) <= STATE_ENTRIES /\
     image_bytes (pending_images env) <= STATE_IMAGE_BYTES /\
     (length (pending_images env) + length (arr_items (jget state B"images")) <= IMAGES_MAX)%nat) /\
    merge_grants (default [] (grants env)) (arr_items (jget state B"grants")) = Some gs /\
    merge_results (from_option mem_results [] target) (arr_items (jget state B"mem_results")) = Some rs /\
    stage_images (image_bytes (pending_images env)) (arr_items (jget state B"images")) = Some ps /\
    next = mk_env true fact (match target with Some s => Some (set_results s rs) | None => None end)
      (match grants env with Some _ => Some gs | None => None end)
      (perm_blocked env || bool_of (jget state B"perm_blocked")) (pending_images env ++ ps).
Proof.
  unfold stage_state. destruct (negb (has_ctx env) || _ || _ || _) eqn:E1; [done|]. rewrite !orb_false_iff in E1.
  destruct E1 as [[_ Ev] Ei]. apply negb_false_iff in Ev. destruct (negb (state_shape state initial)); [done|].
  destruct (read_fact _) as [fact|]; [|done]. cbn [mbind option_bind].
  destruct (stage_session _ _ _) as [target|] eqn:Et; [|done]. cbn [mbind option_bind]. destruct (negb _ && negb _); [done|].
  destruct (_ || _) eqn:Eg; [done|]. apply orb_false_iff in Eg as [Eg _]. apply Z.ltb_ge in Eg.
  destruct (merge_grants _ _) as [gs|] eqn:Egs; [|done]. cbn [mbind option_bind].
  destruct (_ || _) eqn:Er; [done|]. apply orb_false_iff in Er as [Er1 Er2]. apply Z.ltb_ge in Er1, Er2.
  destruct (merge_results _ _) as [rs|] eqn:Ers; [|done]. cbn [mbind option_bind].
  destruct (_ || _) eqn:Ep; [done|]. apply orb_false_iff in Ep as [Ep1 Ep2]. apply Nat.ltb_ge in Ep1. apply Z.ltb_ge in Ep2.
  destruct (stage_images _ _) as [ps|] eqn:Eps; [|done]. cbn [mbind option_bind]. intros [= <-].
  split; [done|]. split; [intros ->; by destruct (session env)|]. by exists target, gs, rs, ps, fact.
Qed.

Lemma stage_state_grows env state initial next : stage_state env state initial = Some next -> env_grows env next state initial.
Proof.
  intros H. apply stage_state_inv in H as (_ & Hi & target & gs & rs & ps & fact & Hs & _ & Hg & Hr & Hp & ->).
  constructor; cbn [grants session pending_images perm_blocked].
  - apply merge_grants_spec in Hg as (added & -> & Hnew & _). destruct (grants env) as [have|]; [|done]. by exists added.
  - exists ps. split; [done|]. by apply stage_images_spec in Hp as (_ & ? & _).
  - by intros ->.
  - pose proof (stage_session_spec _ _ _ _ Hs Hi) as H. apply merge_results_spec in Hr as (added & -> & _).
    destruct (session env) as [s|], target as [s'|]; [|done|by destruct H|done]. destruct H as (-> & d & -> & Hd).
    split; [done|]. split; [split; [by exists added|done]|]. by destruct (session_delta_changed _).
Qed.

Lemma stage_state_ok env state initial next : stage_state env state initial = Some next -> env_ok env -> env_ok next.
Proof.
  intros H [Hgs Hrs [Hps1 Hps2]]. apply stage_state_inv in H as (_ & Hi & target & gs & rs & ps & fact & Hs & Hb & Hg & Hr & Hp & ->).
  destruct Hb as (Hb1 & Hb2 & Hb3 & Hb4 & Hb5). constructor; cbn [grants session pending_images].
  - apply merge_grants_spec in Hg as (added & -> & _ & Hnd & Hlen). destruct (grants env) as [have|]; [|done].
    intros gs' [= <-]. split; [by apply Hnd, Hgs|by apply Hlen].
  - pose proof (stage_session_spec _ _ _ _ Hs Hi) as H. apply merge_results_spec in Hr as (added & -> & Hnd & Hlen & Hbytes).
    destruct target as [s'|]; [|done]. intros s2 [= <-]. cbn [mem_results set_results from_option] in *.
    split_and!; [|by apply Hlen|by apply Hbytes]. apply Hnd. destruct (session env) as [s|].
    + destruct H as (_ & d & -> & _). by apply (Hrs s).
    + destruct H as [_ ->]. constructor.
  - apply stage_images_spec in Hp as (Hl & _ & Hbytes). rewrite length_app, Hl, image_bytes_app. split; [done|]. by apply Hbytes.
Qed.

(** ** Lemmas: what is sent is taken *)

Lemma b64_length d : Z.of_nat (length (b64_encode d)) = (Z.of_nat (length d) + 2) / 3 * 4.
Proof.
  induction d as [|a|a b|a b c d IH] using b64_ind; try reflexivity. cbn [b64_encode]. rewrite length_app. cbn [b64_quad length].
  replace (Z.of_nat (S (S (S (length d)))) + 2) with (Z.of_nat (length d) + 2 + 1 * 3) by lia. rewrite Z.div_add by lia. lia.
Qed.

(** An encoded item with the bytes [d]. *)
Lemma read_bytes_encoded ms d max : wholesome (JObj ms) -> assoc B"len" ms = Some (uint (Z.of_nat (length d))) ->
  assoc B"data" ms = Some (JStr (b64_encode d)) -> Forall is_byte d -> Z.of_nat (length d) <= max ->
  read_bytes (Some (JObj ms)) max = Some d.
Proof.
  intros Hw Hlen Hdata Hd Hmax. unfold read_bytes. cbn [jget]. rewrite Hlen. cbn [uint uint_of].
  rewrite (proj2 (wholesome_str _ _ _ Hw) Hdata), (proj2 (Z.ltb_ge _ _) Hmax), b64_length, Z.eqb_refl. cbn [negb orb].
  rewrite Nat2Z.id, b64_roundtrip by done. by rewrite Z.eqb_refl, str_eq_refl.
Qed.

Lemma wholesome_member ms key v : wholesome (JObj ms) -> assoc key ms = Some v -> wholesome v.
Proof. intros (_ & _ & H)%wholesome_obj E%assoc_in. rewrite Forall_forall in H. by apply (H _ E). Qed.

Lemma wholesome_items vs : wholesome (JArr vs) -> Forall wholesome vs.
Proof. apply wholesome_arr. Qed.

Lemma merge_grants_all have gs : wholesome (JArr (map JStr gs)) -> Forall (fun g => g <> []) gs -> NoDup (have ++ gs) ->
  Z.of_nat (length (have ++ gs)) <= STATE_ENTRIES -> merge_grants have (map JStr gs) = Some (have ++ gs).
Proof.
  intros Hw%wholesome_items. revert have. induction gs as [|g gs IH]; intros have Hg Hnd Hlen; [by rewrite app_nil_r|].
  cbn [map] in *. apply Forall_cons_iff in Hw as [Hw1 Hw], Hg as [Hg1 Hg]. cbn [merge_grants str_of]. cbn in Hw1.
  rewrite c_str_plain by done. destruct g as [|c g]; [done|].
  assert (str_in (c :: g) have = false) as ->.
  { apply str_in_false. intros Hin. apply list.NoDup_app in Hnd as (_ & Hnd & _). apply (Hnd (c :: g)); [by apply list_elem_of_In|left]. }
  rewrite length_app in Hlen. cbn [length] in Hlen. rewrite (proj2 (Z.leb_gt _ _)) by lia. rewrite IH; [by rewrite <- app_assoc|done|done| |].
  - by rewrite <- app_assoc.
  - rewrite !length_app. cbn [length]. lia.
Qed.

Definition result_ok (r : session_mem_result) : Prop :=
  handle r <> [] /\ (length (handle r) <= HANDLE_MAX)%nat /\ Forall is_byte (data r).

Lemma find_result_fresh h rs : ~ In h (map handle rs) -> find_result h rs = None.
Proof.
  intros H. unfold find_result. destruct (List.find _ _) as [r|] eqn:E; [|done]. destruct H.
  apply find_some in E as [Hin Heq]. apply str_eq_true in Heq as ->. apply in_map, in_rev. done.
Qed.

Lemma bytes_of_nonneg rs : 0 <= result_bytes rs.
Proof. induction rs as [|r rs IH]; cbn [result_bytes fold_right]; [done|]. fold (result_bytes rs). lia. Qed.

Lemma merge_results_all have rs : wholesome (JArr (map encode_result rs)) -> Forall result_ok rs -> unique_handles (have ++ rs) ->
  result_bytes (have ++ rs) <= STATE_RESULT_BYTES -> Z.of_nat (length (have ++ rs)) <= STATE_ENTRIES ->
  merge_results have (map encode_result rs) = Some (have ++ rs).
Proof.
  intros Hw%wholesome_items. revert have. induction rs as [|r rs IH]; intros have Hr Hnd Hb Hlen; [by rewrite app_nil_r|].
  cbn [map] in *. apply Forall_cons_iff in Hw as [Hw1 Hw], Hr as [(Hr1 & Hr2 & Hr3) Hr].
  rewrite bytes_of_app in Hb. cbn [result_bytes fold_right] in Hb. fold (result_bytes rs) in Hb.
  pose proof (bytes_of_nonneg rs). pose proof (bytes_of_nonneg have). rewrite length_app in Hlen. cbn [length] in Hlen.
  cbn [merge_results]. unfold encode_result in Hw1 |- * at 1 2. rewrite (proj2 (wholesome_str _ B"handle" (handle r) Hw1)) by reflexivity.
  rewrite (read_bytes_encoded _ (data r)) by (done || reflexivity || lia).
  destruct (handle r) as [|c h] eqn:Eh; [done|]. rewrite (proj2 (Nat.ltb_ge _ _) Hr2).
  rewrite find_result_fresh.
  2:{ unfold unique_handles in Hnd. rewrite map_app in Hnd. cbn [map] in Hnd. rewrite Eh in Hnd. intros Hin.
      apply list.NoDup_app in Hnd as (_ & Hnd & _). apply (Hnd (c :: h)); [by apply list_elem_of_In|left]. }
  rewrite (proj2 (Z.ltb_ge _ _)), (proj2 (Z.leb_gt _ _)) by lia. cbn [orb].
  rewrite <- Eh. replace (mk_result (handle r) (data r)) with r by (by destruct r).
  rewrite IH; [by rewrite <- app_assoc|done|done|by rewrite <- app_assoc| |].
  - rewrite !bytes_of_app. cbn [result_bytes fold_right]. lia.
  - rewrite !length_app. cbn [length]. lia.
Qed.

Lemma encode_results_map rs total js : encode_results rs total = Some js -> js = map encode_result rs.
Proof.
  revert total js. induction rs as [|r rs IH]; intros total js; cbn [encode_results]; [by intros [= <-]|].
  case_match; [done|]. destruct (encode_results rs _) as [rest|] eqn:E; [|done]. intros [= <-]. apply IH in E as ->. done.
Qed.

Lemma optional_string_encoded ms key text : wholesome (JObj ms) -> assoc key ms = Some (optional text) ->
  optional_string (Some (JObj ms)) key = Some text.
Proof.
  intros Hw E. unfold optional_string. cbn [jget]. rewrite E. destruct text as [s|]; cbn [optional]; [|done].
  pose proof (wholesome_member _ _ _ Hw E) as Hs. cbn in Hs. by rewrite c_str_plain.
Qed.

Lemma projection_carried root ms : session_projection root = Some (JObj ms) ->
  forallb (fun '(k, _) => carried_field (c_str k)) ms = true /\ assoc B"messages" ms = Some (JArr []).
Proof.
  unfold session_projection. destruct root as [| | | | |rs]; try done. intros [= <-]. split; [|reflexivity].
  cbn [forallb]. apply andb_true_iff. split; [done|]. apply forallb_forall. intros [k v] ([k' v'] & [= <- <-] & Hin)%in_map_iff.
  apply filter_In in Hin as [_ H]. change (session_field (Some (c_str k')) = true) in H.
  unfold carried_field. by rewrite c_str_idem, H.
Qed.

Lemma projection_obj root p : session_projection root = Some p -> exists ms, p = JObj ms.
Proof. destruct root; try done. intros [= <-]. by eexists. Qed.

Lemma restore_encoded s v : encode_session (Some s) None true = Some v -> wholesome v -> is_Some (id s) -> is_Some (dir s) ->
  exists p, session_projection (doc s) = Some p /\ is_obj (Some v) = true /\
    restore_session (Some v) = Some (set_results (with_doc s p) []).
Proof.
  cbn [encode_session]. destruct (session_projection (doc s)) as [p|] eqn:Ep; [|done]. cbn [mbind option_bind].
  intros [= <-] Hw [i Hi] [d Hd]. exists p. split; [done|]. split; [done|]. destruct (projection_obj _ _ Ep) as [ms ->].
  apply projection_carried in Ep as [Hc Hm]. match type of Hw with wholesome (JObj ?ms) => set (members := ms) in * end.
  assert (jget_str (Some (JObj members)) B"id" = Some i) as E1 by (apply (wholesome_str _ _ _ Hw); change (Some (optional (id s)) = Some (JStr i)); by rewrite Hi).
  assert (jget_str (Some (JObj members)) B"dir" = Some d) as E2 by (apply (wholesome_str _ _ _ Hw); change (Some (optional (dir s)) = Some (JStr d)); by rewrite Hd).
  unfold restore_session. rewrite E1, E2.
  change (jget (Some (JObj members)) B"projection") with (Some (uint 1)). change (jget (Some (JObj members)) B"doc") with (Some (JObj ms)).
  change (jget (Some (JObj members)) B"extension_event_sequence") with (Some (uint (event_sequence s))).
  change (jget (Some (JObj members)) B"extension_agent_sequence") with (Some (uint (agent_sequence s))).
  change (jget (Some (JObj members)) B"extension_session_started") with (Some (JBool (session_started s))).
  change (jget (Some (JObj members)) B"persisted") with (Some (JBool (persisted s))).
  cbn [uint uint_of]. rewrite Hc. cbn [negb jget]. rewrite Hm.
  rewrite (optional_string_encoded members B"task_body" (task_body s)), (optional_string_encoded members B"extension_start_reason" (start_reason s)),
    (optional_string_encoded members B"extension_previous_session_id" (previous_session_id s)) by (done || reflexivity).
  cbn [mbind option_bind]. unfold set_results, with_doc. cbn. by rewrite Hi, Hd.
Qed.

(** The document of a state. *)
Definition state_members (session results images : jval) (env : tools_env) : list (bytes * jval) :=
  [(B"session", session); (B"grants", JArr (map JStr (default [] (grants env)))); (B"mem_results", results); (B"images", images);
   (B"learning", encode_fact (learning_fact env));
   (B"pending_count", uint (Z.of_nat (length (pending_images env)))); (B"perm_blocked", JBool (perm_blocked env))].

Lemma state_encode_inv env baseline v : tny_execution_state_encode true env baseline true = Some v ->
  (length (pending_images env) <= IMAGES_MAX)%nat /\
  exists session_json, encode_session (session env) baseline true = Some session_json /\
    v = JObj (state_members session_json (JArr (map encode_result (from_option mem_results [] (session env)))) (JArr []) env).
Proof.
  unfold tny_execution_state_encode. destruct (_ || _) eqn:E1; [done|]. apply orb_false_iff in E1 as [E1%Nat.ltb_ge _].
  destruct (encode_session _ _ _) as [sj|]; [|done]. cbn [mbind option_bind]. destruct (_ || _); [done|].
  destruct (encode_results _ _) as [rj|] eqn:Er; [|done]. cbn [mbind option_bind]. apply encode_results_map in Er as ->.
  intros [= <-]. split; [done|]. by exists sj.
Qed.

Lemma read_fact_encoded fact : event fact <= TNY_LEARN_OTHER -> read_fact (Some (encode_fact fact)) = Some fact.
Proof.
  intros H. unfold read_fact. change (jget (Some (encode_fact fact)) B"valid") with (Some (JBool (valid fact))).
  change (jget (Some (encode_fact fact)) B"ok") with (Some (JBool (ok fact))).
  change (jget (Some (encode_fact fact)) B"event") with (Some (uint (event fact))).
  change (jget (Some (encode_fact fact)) B"scope") with (Some (uint (scope fact))).
  change (jget (Some (encode_fact fact)) B"intent") with (Some (uint (intent fact))).
  cbn [uint uint_of]. rewrite (proj2 (Z.ltb_ge _ _) H). by destruct fact.
Qed.

(** A state that holds what the tables allow is staged as it is. *)
Lemma stage_initial f blocked sj env p s gs :
  let members := state_members sj (JArr (map encode_result (mem_results s))) (JArr []) env in
  tny_exec_json_valid (Some (JObj members)) = true -> is_obj (Some sj) = true ->
  restore_session (Some sj) = Some (set_results (with_doc s p) []) -> grants env = Some gs ->
  (length (pending_images env) <= IMAGES_MAX)%nat -> event (learning_fact env) <= TNY_LEARN_OTHER ->
  Z.of_nat (length gs) <= STATE_ENTRIES -> Z.of_nat (length (mem_results s)) <= STATE_ENTRIES ->
  merge_grants [] (map JStr gs) = Some gs -> merge_results [] (map encode_result (mem_results s)) = Some (mem_results s) ->
  stage_state (mk_env true f None (Some []) blocked []) (Some (JObj members)) true =
  Some (mk_env true (learning_fact env) (Some (with_doc s p)) (Some gs) (blocked || perm_blocked env) []).
Proof.
  intros members Hvalid Hobj Hrestore Hg Hcount Hevent Hgl Hrl Hmg Hmr. unfold stage_state. rewrite Hvalid.
  change (jget (Some (JObj members)) B"session") with (Some sj).
  change (jget (Some (JObj members)) B"perm_blocked") with (Some (JBool (perm_blocked env))).
  change (arr_items (jget (Some (JObj members)) B"grants")) with (map JStr (default [] (grants env))).
  change (arr_items (jget (Some (JObj members)) B"mem_results")) with (map encode_result (mem_results s)).
  change (arr_items (jget (Some (JObj members)) B"images")) with (@nil jval). rewrite Hg.
  cbn [is_obj has_ctx negb orb andb session]. rewrite bool_decide_eq_false_2 by (by intros [? ?]).
  assert (state_shape (Some (JObj members)) true = true) as ->.
  { unfold state_shape. change (jget (Some (JObj members)) B"session") with (Some sj). rewrite Hobj.
    change (uint_of (jget (Some (JObj members)) B"pending_count")) with (Some (Z.of_nat (length (pending_images env)))).
    change (arr_items (jget (Some (JObj members)) B"grants")) with (map JStr (default [] (grants env))).
    change (arr_items (jget (Some (JObj members)) B"mem_results")) with (map encode_result (mem_results s)).
    rewrite Hg, !length_map. change (default [] (Some gs)) with gs. rewrite (proj2 (Z.leb_le _ _) Hgl), (proj2 (Z.leb_le _ _) Hrl).
    rewrite (proj2 (Z.leb_le _ 8)) by (unfold IMAGES_MAX in *; lia). reflexivity. }
  cbn [negb]. assert (read_fact (jget (Some (JObj members)) B"learning") = Some (learning_fact env)) as ->.
  { change (jget (Some (JObj members)) B"learning") with (Some (encode_fact (learning_fact env))). by apply read_fact_encoded. }
  cbn [mbind option_bind]. unfold stage_session. rewrite Hobj, Hrestore.
  cbn [mbind option_bind from_option mem_results set_results grants pending_images length]. change (default [] (Some [])) with (@nil bytes). change (default [] (Some gs)) with gs.
  rewrite bool_decide_eq_true_2 by done. cbn [negb]. rewrite andb_false_r. rewrite bool_decide_eq_true_2 by done. cbn [negb andb orb].
  rewrite (proj2 (Z.ltb_ge _ _)) by done. cbn [Datatypes.id]. rewrite Hmg. cbn [mbind option_bind result_bytes fold_right length].
  rewrite (proj2 (Z.ltb_ge STATE_ENTRIES _)), (proj2 (Z.ltb_ge STATE_RESULT_BYTES _)) by done. cbn [orb]. rewrite Hmr.
  cbn [mbind option_bind image_bytes fold_right stage_images length Nat.add app]. cbn. by destruct s.
Qed.

(** ** Properties *)

(** C11: applying a state changes nothing at all unless every part of it is
    accepted; then it only adds: the grants, results and images that were there
    stay, what is added is new, captured correctly and within every bound, the
    session keeps its identity and gets the merged document, a block stays, and
    the invariant is kept. A refusal after that is only that of an owner whose
    changed document could not be saved. *)
Theorem exec_state_apply_safe (memory saved initial : bool) (env : tools_env) (state : option jval) :
  let '(env', ok) := tny_execution_state_apply memory saved env state initial in
  (env_ok env -> env_ok env') /\
  (env' = env /\ ok = false \/
   env_grows env env' state initial /\ tny_exec_json_valid state = true /\ (initial = true -> session env = None) /\
     (ok = false -> saved = false /\ initial = false /\ session_delta_changed (jget state B"session") = true)).
Proof.
  unfold tny_execution_state_apply. destruct (negb memory); [by auto|].
  destruct (stage_state env state initial) as [next|] eqn:E; [|by auto].
  split; [by apply (stage_state_ok _ _ _ _ E)|]. right. split; [by apply stage_state_grows|].
  apply stage_state_inv in E as (Hv & Hi & _). split_and!; [done..|]. intros H. apply orb_false_iff in H as [H ->].
  rewrite negb_false_iff, !andb_true_iff in H. destruct H as [[[H _] _] ?]. by apply negb_true_iff in H.
Qed.

(** The state that an owner sends when a run begins, applied in a new
    process, gives that process the owner's session with the projected document
    and no messages, its grants, its large results byte for byte, its learning
    fact and its block. *)
Theorem exec_state_initial_transfer (env : tools_env) (s : session_state) (gs : list bytes) (v : jval) (f : tools_learning_fact)
    (blocked saved : bool)
    (Hsession : session env = Some s) (Hid : is_Some (id s)) (Hdir : is_Some (dir s)) (Hgrants : grants env = Some gs)
    (Hok : env_ok env) (Hresults : Forall result_ok (mem_results s)) (Hnonempty : Forall (fun g => g <> []) gs)
    (Hevent : event (learning_fact env) <= TNY_LEARN_OTHER)
    (Hencode : tny_execution_state_encode true env None true = Some v) (Hvalid : tny_exec_json_valid (Some v) = true) :
  exists p, session_projection (doc s) = Some p /\
    tny_execution_state_apply true saved (mk_env true f None (Some []) blocked []) (Some v) true =
    (mk_env true (learning_fact env) (Some (with_doc s p)) (Some gs) (blocked || perm_blocked env) [], true).
Proof.
  apply state_encode_inv in Hencode as (Hcount & sj & Hsj & ->). rewrite Hsession in *. cbn [from_option] in *.
  set (members := state_members _ _ _ env) in *. pose proof (proj1 (exec_json_valid_spec _) Hvalid) as (Hw & _).
  destruct (restore_encoded s sj Hsj (wholesome_member _ B"session" _ Hw eq_refl) Hid Hdir) as (p & Hp & Hobj & Hrestore).
  exists p. split; [done|]. destruct (ok_grants _ Hok _ Hgrants) as [Hg1 Hg2]. destruct (ok_results _ Hok _ Hsession) as (Hr1 & Hr2 & Hr3).
  pose proof (wholesome_member _ B"grants" _ Hw eq_refl) as Hwg. pose proof (wholesome_member _ B"mem_results" _ Hw eq_refl) as Hwr.
  unfold tny_execution_state_apply. cbn [negb].
  assert (merge_grants [] (map JStr gs) = Some gs) as Hmg.
  { apply (merge_grants_all [] gs); [|done..]. by rewrite Hgrants in Hwg. }
  assert (merge_results [] (map encode_result (mem_results s)) = Some (mem_results s)) as Hmr.
  { by apply (merge_results_all [] (mem_results s)). }
  unfold members. rewrite (stage_initial f blocked sj env p s gs) by done. reflexivity.
Qed.

(** ** Concrete instances *)

Definition demo_session : session_state :=
  mk_session (Some B"s1") (Some B"/h/s1") (JObj [(B"title", JStr B"x"); (B"messages", JArr [JStr B"m"]); (B"swarm_cap", uint 4)])
    None (Some B"new") None 7 2 true true [mk_result B"r1" [0; 255; 10]].
Definition demo_env : tools_env := mk_env true (mk_fact true false 1 5 0) (Some demo_session) (Some [B"bash:git"]) true [].
Definition demo_fresh : tools_env := mk_env true (mk_fact false false 0 0 0) None (Some []) false [].
Definition demo_state : jval := default JNull (tny_execution_state_encode true demo_env None true).

Lemma demo_env_ok : env_ok demo_env.
Proof.
  constructor; cbn [grants session pending_images demo_env].
  - intros gs [= <-]. split; [by apply (bool_decide_unpack _)|by vm_compute].
  - intros s [= <-]. split; [by apply (bool_decide_unpack _)|by vm_compute].
  - split; [apply (bool_decide_unpack _); exact I|by vm_compute].
Defined.

Example exec_state_initial_transfer_witness :
  exists p, session_projection (doc demo_session) = Some p /\
    tny_execution_state_apply true false (mk_env true (mk_fact false false 0 0 0) None (Some []) false []) (Some demo_state) true =
    (mk_env true (learning_fact demo_env) (Some (with_doc demo_session p)) (Some [B"bash:git"]) (false || true) [], true).
Proof.
  apply (exec_state_initial_transfer demo_env demo_session [B"bash:git"] demo_state (mk_fact false false 0 0 0) false false);
    try reflexivity; try by eexists.
  - exact demo_env_ok.
  - repeat constructor; unfold is_byte; cbn; (discriminate || lia).
  - by repeat constructor.
  - by vm_compute.
Defined.

(** An image whose bytes are not what its digest says is refused, and nothing
    is changed. *)
Definition demo_png : bytes := [0x89; 0x50; 0x4e; 0x47; 0x0d; 0x0a; 0x1a; 0x0a; 0; 0; 0; 13].
Definition demo_image (digest : bytes) : tools_env :=
  mk_env true (mk_fact false false 0 0 0) None (Some []) false [mk_image (Some B"/t/a.png") (Some demo_png) (Some B"image/png") digest 0].

Example demo_images :
  let digest := default [] (tny_image_io_sha256_hex true demo_png) in
  let send digest := tny_execution_state_apply true true demo_fresh (tny_execution_state_encode true (demo_image digest) None false) false in
  send digest = (demo_image digest, true) /\ send (replicate 64 (C"0")) = (demo_fresh, false).
Proof. vm_compute. split; reflexivity. Qed.
