(* ===== verification/ToolCalls.v ===== *)
(** Assembly of tool calls from the fragments a provider streams
    (src/src/backends/openai/toolcalls.cpp). *)
From S2P Require Import Prelude Decimal Json JsonValue.

Open Scope Z_scope.

(** ** Data *)

Definition OA_MAX_TOOL_CALLS : nat := 32.
Definition INT_MAX : Z := 2147483647.
Definition INT_MIN : Z := - 2147483648.
Definition TNY_PARSE_OK : Z := 0.
Definition TNY_PARSE_INVALID : Z := -1.
Definition TNY_PARSE_OOM : Z := -2.

(** A call: what has arrived of it; [None] is a flag that is not set. *)
Record call := mk_call { id : option bytes; name : option bytes; args : option bytes; index : Z }.

(** The borrowed view of a call. *)
Record oa_call := mk_oa_call { v_id : option bytes; v_name : option bytes; v_data : option bytes; v_len : Z; wire_index : Z }.

(** [owner] is the assembled state, made by the first fragment. *)
Record oa_callset := mk_callset { calls : list oa_call; n : nat; owner : option (list call); status : Z }.

Definition no_view : oa_call := mk_oa_call None None None 0 0.
Definition oa_calls_reset : oa_callset := mk_callset (replicate OA_MAX_TOOL_CALLS no_view) 0 None TNY_PARSE_OK.

(** ** Slots *)

Definition has_id (i : bytes) (c : call) : bool := match id c with Some i' => str_eq i' i | None => false end.

Fixpoint by_id (items : list call) (i : bytes) : option nat :=
  match items with
  | [] => None
  | c :: items => if has_id i c then Some 0%nat else S <$> by_id items i
  end.

(** The last one. *)
Fixpoint by_index (items : list call) (ix : Z) : option nat :=
  match items with
  | [] => None
  | c :: items =>
    match by_index items ix with
    | Some k => Some (S k)
    | None => if index c =? ix then Some 0%nat else None
    end
  end.

Definition add (items : list call) (ix : Z) : list call * option nat :=
  if (length items =? OA_MAX_TOOL_CALLS)%nat then (items, None)
  else (items ++ [mk_call None None None ix], Some (length items)).

(** A string that is there and not empty. *)
Definition present (s : option bytes) : option bytes := match s with Some (_ :: _) => s | _ => None end.

Definition select (items : list call) (i : option bytes) (ix : option Z) (append_only : bool) : list call * option nat :=
  match present i with
  | Some i =>
    let c := by_id items i in
    let c := match c, ix with
             | None, Some ix =>
               match by_index items ix with
               | Some k => match items !! k with Some q => if bool_decide (is_Some (id q)) then None else Some k | None => None end
               | None => None
               end
             | _, _ => c
             end in
    match c with
    | Some k => (items, Some k)
    | None => if append_only then (items, None) else add items (default (Z.of_nat (length items)) ix)
    end
  | None =>
    match ix with
    | Some ix =>
      match by_index items ix with
      | Some k => (items, Some k)
      | None => if append_only then (items, None) else add items ix
      end
    | None => (items, match length items with O => None | S k => Some k end)
    end
  end.

Definition update (i nm a : option bytes) (replace : bool) (c : call) : call :=
  mk_call (match present i, id c with Some i, None => Some i | _, have => have end)
    (match nm, name c with Some nm, None => Some nm | _, have => have end)
    (match a with Some a => Some (if replace then a else default [] (args c) ++ a) | None => args c end)
    (index c).

(** ** The views *)

Definition view_of (c : call) : oa_call :=
  mk_oa_call (id c) (name c) (args c) (Z.of_nat (length (default [] (args c)))) (index c).

Definition view (cs : oa_callset) (items : list call) (slot : option nat) : oa_callset :=
  mk_callset
    (match slot with
     | Some k => match items !! k with Some c => <[k := view_of c]> (calls cs) | None => calls cs end
     | None => calls cs
     end) (length items) (Some items) (status cs).

Definition views (cs : oa_callset) (items : list call) : oa_callset :=
  fold_left (fun cs k => view cs items (Some k)) (seq 0 (length items)) (mk_callset (calls cs) (n cs) (Some items) (status cs)).

(** Nothing half assembled is shown, and the failure stays. *)
Definition failed : oa_callset := mk_callset (calls oa_calls_reset) 0 None TNY_PARSE_OOM.

(** ** Fragments *)

(** [select], [update] and [view] with one fragment. *)
Definition take_in (cs : oa_callset) (items : list call) (i nm a : option bytes) (ix : option Z) (replace append_only : bool) : oa_callset :=
  let '(items, slot) := select items i ix append_only in
  let items := match slot with Some k => alter (update i nm a replace) k items | None => items end in
  view cs items slot.

(** [0 <= m * 2^e <= INT_MAX]. *)
Definition real_in_int (m e : Z) : bool :=
  if 0 <=? e then (0 <=? m * 2 ^ e) && (m * 2 ^ e <=? INT_MAX)
  else (0 <=? m) && (m <=? INT_MAX * 2 ^ (- e)).

(** A [uint64_t] read as [int64_t]. *)
Definition as_sint (k : Z) : Z := if k <=? INT64_MAX then k else k - 2 ^ 64.

(** The index of a fragment that has one; -1 when it is no index. *)
Definition wire_number (v : jval) : Z :=
  match v with
  | JNum (JUint k) => as_sint k
  | JNum (JSint k) => k
  | JNum (JReal m e) => if real_in_int m e then real_trunc m e else -1
  | _ => -1
  end.

Definition valid_index (k : Z) : bool := (0 <=? k) && (k <=? INT_MAX).

Definition feed_one (cs : oa_callset) (tc : jval) : oa_callset :=
  let i := jget_str (Some tc) B"id" in
  let iv := jget (Some tc) B"index" in
  let fn := jget (Some tc) B"function" in
  match iv with
  | Some v =>
    if valid_index (wire_number v)
    then take_in cs (default [] (owner cs)) i (jget_str fn B"name") (jget_str fn B"arguments") (Some (wire_number v)) false false
    else cs
  | None =>
    match present i, owner cs with
    | None, None => cs
    | _, _ => take_in cs (default [] (owner cs)) i (jget_str fn B"name") (jget_str fn B"arguments") None false false
    end
  end.

(** [memory]: no allocation failed. *)
Definition oa_calls_feed (memory : bool) (cs : oa_callset) (tool_calls : option jval) : oa_callset * Z :=
  if negb (status cs =? TNY_PARSE_OK) then (cs, status cs)
  else
    match tool_calls with
    | Some (JArr ((_ :: _) as tcs)) =>
      if memory then (fold_left feed_one tcs cs, TNY_PARSE_OK) else (failed, TNY_PARSE_OOM)
    | _ => (cs, TNY_PARSE_OK)
    end.

Definition oa_calls_item (memory : bool) (cs : oa_callset) (ix : Z) (i nm a : option bytes) (replace append_only : bool) : oa_callset * Z :=
  if negb (status cs =? TNY_PARSE_OK) then (cs, status cs)
  else if negb (valid_index ix) || (append_only && negb (bool_decide (is_Some (owner cs)))) then (cs, TNY_PARSE_OK)
  else if memory then (take_in cs (default [] (owner cs)) i nm a (Some ix) replace append_only, TNY_PARSE_OK)
  else (failed, TNY_PARSE_OOM).

Definition restore_index (v : option jval) : Z :=
  match v with
  | Some (JNum (JUint k)) => if (INT_MIN <=? as_sint k) && (as_sint k <=? INT_MAX) then as_sint k else -1
  | Some (JNum (JSint k)) => if (INT_MIN <=? k) && (k <=? INT_MAX) then k else -1
  | _ => -1
  end.

Definition restore_one (items : list call) (record : jval) : list call :=
  let v := Some record in
  let '(items, slot) := add items (restore_index (jget v B"index")) in
  let a := Some (default B"{}" (jget_str v B"args")) in
  match slot with Some k => alter (update (jget_str v B"id") (jget_str v B"name") a true) k items | None => items end.

Definition oa_calls_restore (memory : bool) (records : option jval) : oa_callset * Z :=
  match records with
  | Some (JArr rs) =>
    if (OA_MAX_TOOL_CALLS <? length rs)%nat then (oa_calls_reset, TNY_PARSE_INVALID)
    else if (length rs =? 0)%nat then (oa_calls_reset, TNY_PARSE_OK)
    else if memory then (views oa_calls_reset (fold_left restore_one rs []), TNY_PARSE_OK)
    else (failed, TNY_PARSE_OOM)
  | _ => (oa_calls_reset, TNY_PARSE_INVALID)
  end.

(** The identifier that is sent upstream. *)
Definition oa_call_id (pc : oa_call) (slot : nat) (buflen : nat) : bytes :=
  match v_id pc with
  | Some i => i
  | None => take (buflen - 1) (B"call_" ++ dec (Z.of_nat slot))
  end.

(** ** Lemmas: slots *)

Lemma by_id_some items i k : by_id items i = Some k -> exists c, items !! k = Some c /\ id c = Some i.
Proof.
  revert k. induction items as [|c items IH]; intros k; cbn [by_id]; [done|]. unfold has_id at 1.
  destruct (id c) as [i'|] eqn:Ei.
  - destruct (str_eq i' i) eqn:E; [apply str_eq_true in E; subst; intros [= <-]; by exists c|].
    destruct (by_id items i) as [k'|]; [|done]. intros [= <-]. by apply IH.
  - destruct (by_id items i) as [k'|]; [|done]. intros [= <-]. by apply IH.
Qed.

Lemma by_id_none items i : by_id items i = None <-> Forall (fun c => id c <> Some i) items.
Proof.
  induction items as [|c items IH]; cbn [by_id]; [split; [constructor|done]|]. rewrite Forall_cons_iff. unfold has_id at 1.
  destruct (id c) as [i'|] eqn:Ei.
  - destruct (str_eq i' i) eqn:E.
    + apply str_eq_true in E. subst. split; [done|]. by intros [? _].
    + apply str_eq_false in E. rewrite fmap_None, IH. split; [|by intros []]. intros H. split; [congruence|done].
  - rewrite fmap_None, IH. split; [|by intros []]. by intros H.
Qed.

Lemma by_index_some items ix k : by_index items ix = Some k -> exists c, items !! k = Some c /\ index c = ix.
Proof.
  revert k. induction items as [|c items IH]; intros k; cbn [by_index]; [done|].
  destruct (by_index items ix) as [k'|]; [intros [= <-]; by apply IH|]. destruct (Z.eqb_spec (index c) ix); [|done].
  intros [= <-]. by exists c.
Qed.

Lemma by_index_none items ix : by_index items ix = None <-> Forall (fun c => index c <> ix) items.
Proof.
  induction items as [|c items IH]; cbn [by_index]; [split; [constructor|done]|]. rewrite Forall_cons_iff, <- IH.
  destruct (by_index items ix); [split; [done|by intros []]|]. destruct (Z.eqb_spec (index c) ix); split; naive_solver.
Qed.

(** What a selection does: an old slot, a new call, or none. *)
Variant selected (items : list call) (ix : option Z) : list call * option nat -> Prop :=
  | selected_old k c : items !! k = Some c -> selected items ix (items, Some k)
  | selected_new ix' : (length items < OA_MAX_TOOL_CALLS)%nat -> ix' = default (Z.of_nat (length items)) ix ->
      selected items ix (items ++ [mk_call None None None ix'], Some (length items))
  | selected_none : selected items ix (items, None).

Lemma add_selected items ix ix' : (length items <= OA_MAX_TOOL_CALLS)%nat -> ix' = default (Z.of_nat (length items)) ix ->
  selected items ix (add items ix').
Proof. intros Hl ->. unfold add. destruct (Nat.eqb_spec (length items) OA_MAX_TOOL_CALLS); [constructor|]. apply selected_new; [lia|done]. Qed.

Lemma select_selected items i ix append_only : (length items <= OA_MAX_TOOL_CALLS)%nat -> selected items ix (select items i ix append_only).
Proof.
  intros Hl. unfold select. destruct (present i) as [i'|].
  - match goal with |- selected _ _ (match ?c with _ => _ end) => destruct c as [k|] eqn:E end.
    + assert (exists c, items !! k = Some c) as [c Hc]; [|by apply (selected_old _ _ k c)].
      destruct (by_id items i') as [k'|] eqn:Eb.
      * assert (k' = k) as -> by (destruct ix; congruence). apply by_id_some in Eb as (c & ? & _). by exists c.
      * destruct ix as [ix|]; [|done]. destruct (by_index items ix) as [k'|]; [|done].
        destruct (items !! k') as [q|] eqn:Eq; [|done]. destruct (bool_decide _); [done|]. injection E as ->. by exists q.
    + destruct append_only; [constructor|by apply add_selected].
  - destruct ix as [ix|].
    + destruct (by_index items ix) as [k|] eqn:Eb; [apply by_index_some in Eb as (c & ? & _); by apply (selected_old _ _ k c)|].
      destruct append_only; [constructor|by apply add_selected].
    + destruct items as [|c items]; [constructor|]. cbn [length].
      destruct (lookup_lt_is_Some_2 (c :: items) (length items) ltac:(cbn; lia)) as [q Hq]. by apply (selected_old _ _ _ q).
Qed.

(** ** Lemmas: the invariant *)

(** The calls are shown as they are, in the first slots; an identifier that was
    taken in is not empty. *)
Record callset_ok (cs : oa_callset) : Prop := {
  ok_status : status cs = TNY_PARSE_OK \/ status cs = TNY_PARSE_OOM /\ owner cs = None;
  ok_count : n cs = length (default [] (owner cs)) /\ (n cs <= OA_MAX_TOOL_CALLS)%nat;
  ok_views : calls cs = map view_of (default [] (owner cs)) ++ replicate (OA_MAX_TOOL_CALLS - n cs) no_view;
  ok_ids : Forall (fun c => id c <> Some []) (default [] (owner cs)) }.

Lemma given_some s i : present s = Some i <-> s = Some i /\ i <> [].
Proof. destruct s as [[|b s]|]; cbn; split; try done; try (intros [= <-]; done); naive_solver. Qed.

Lemma update_id_ok i nm a replace c : id c <> Some [] -> id (update i nm a replace c) <> Some [].
Proof. intros H. cbn. destruct (present i) eqn:E; [|done]. apply given_some in E as [_ E]. destruct (id c); [done|]. congruence. Qed.

Lemma view_ok cs items slot c f : callset_ok cs -> status cs = TNY_PARSE_OK -> default [] (owner cs) = items ->
  items !! slot = Some c -> (id c <> Some [] -> id (f c) <> Some []) -> callset_ok (view cs (alter f slot items) (Some slot)).
Proof.
  intros Hok Hs Ho Hc Hf. destruct Hok as [_ [Hn Hle] Hv Hids]. rewrite Ho in *.
  pose proof (lookup_lt_Some _ _ _ Hc) as Hlt. unfold view. rewrite list_lookup_alter_eq, Hc. cbn [fmap option_fmap option_map].
  constructor; cbn [status owner n calls default]; unfold Datatypes.id.
  - by left.
  - rewrite length_alter. split; [done|lia].
  - rewrite length_alter, Hv, Hn. rewrite insert_app_l by (rewrite length_map; lia). f_equal.
    apply list_eq. intros j. rewrite list_lookup_fmap. destruct (decide (j = slot)) as [->|Hne].
    + rewrite list_lookup_alter_eq, Hc, list_lookup_insert_eq by (rewrite length_map; lia). done.
    + rewrite list_lookup_alter_ne, list_lookup_insert_ne, list_lookup_fmap by done. done.
  - apply Forall_lookup. intros j c' Hj. rewrite Forall_lookup in Hids. destruct (decide (j = slot)) as [->|Hne].
    + rewrite list_lookup_alter_eq, Hc in Hj. injection Hj as <-. apply Hf. by apply (Hids slot).
    + rewrite list_lookup_alter_ne in Hj by done. by apply (Hids j).
Qed.

Lemma alter_last {A} (f : A -> A) xs x : alter f (length xs) (xs ++ [x]) = xs ++ [f x].
Proof. rewrite alter_app_r_alt, Nat.sub_diag by done. done. Qed.

Lemma view_new_ok cs items c : callset_ok cs -> status cs = TNY_PARSE_OK -> default [] (owner cs) = items ->
  (length items < OA_MAX_TOOL_CALLS)%nat -> id c <> Some [] -> callset_ok (view cs (items ++ [c]) (Some (length items))).
Proof.
  intros [_ [Hn Hle] Hv Hids] Hs Ho Hlt Hc. rewrite Ho in *. unfold view.
  rewrite lookup_app_r, Nat.sub_diag by lia. cbn [lookup list_lookup].
  constructor; cbn [status owner n calls default]; unfold Datatypes.id.
  - by left.
  - rewrite length_app. cbn [length]. lia.
  - rewrite length_app, Hv, Hn. cbn [length]. rewrite map_app, <- app_assoc. rewrite insert_app_r_alt by (rewrite length_map; lia).
    f_equal. rewrite length_map, Nat.sub_diag.
    replace (OA_MAX_TOOL_CALLS - length items)%nat with (S (OA_MAX_TOOL_CALLS - (length items + 1)))%nat by lia. done.
  - apply Forall_app. split; [done|by constructor].
Qed.

Lemma view_none_ok cs items : callset_ok cs -> status cs = TNY_PARSE_OK -> default [] (owner cs) = items -> callset_ok (view cs items None).
Proof.
  intros [_ [Hn Hle] Hv Hids] Hs Ho. rewrite Ho in *. unfold view. constructor; cbn [status owner n calls default]; unfold Datatypes.id; try done.
  - by left.
  - split; [done|lia].
  - by rewrite Hv, Hn.
Qed.

Lemma take_in_ok cs i nm a ix replace append_only : callset_ok cs -> status cs = TNY_PARSE_OK ->
  callset_ok (take_in cs (default [] (owner cs)) i nm a ix replace append_only) /\
  status (take_in cs (default [] (owner cs)) i nm a ix replace append_only) = TNY_PARSE_OK.
Proof.
  intros Hok Hs. pose proof (ok_count _ Hok) as [Hn Hle]. unfold take_in.
  pose proof (select_selected (default [] (owner cs)) i ix append_only ltac:(lia)) as Hsel.
  destruct (select _ i ix append_only) as [items slot]. inversion Hsel as [k c Hc|ix' Hl Hix|]; subst; split; try exact Hs.
  - eapply view_ok; try done. apply update_id_ok.
  - rewrite alter_last. apply view_new_ok; try done. by apply update_id_ok.
  - by apply view_none_ok.
Qed.

Lemma feed_one_ok cs tc : callset_ok cs -> status cs = TNY_PARSE_OK -> callset_ok (feed_one cs tc) /\ status (feed_one cs tc) = TNY_PARSE_OK.
Proof.
  intros Hok Hs. unfold feed_one. destruct (jget (Some tc) B"index"); [destruct (valid_index _); [by apply take_in_ok|done]|].
  destruct (present _), (owner cs) eqn:Eo; try done; rewrite <- Eo; by apply take_in_ok.
Qed.

Lemma feed_all_ok tcs cs : callset_ok cs -> status cs = TNY_PARSE_OK ->
  callset_ok (fold_left feed_one tcs cs) /\ status (fold_left feed_one tcs cs) = TNY_PARSE_OK.
Proof.
  revert cs. induction tcs as [|tc tcs IH]; intros cs Hok Hs; [done|]. cbn [fold_left].
  destruct (feed_one_ok cs tc Hok Hs). by apply IH.
Qed.

Lemma reset_ok : callset_ok oa_calls_reset.
Proof. constructor; cbn; [by left|lia|done|constructor]. Qed.

Lemma failed_ok : callset_ok failed.
Proof. constructor; cbn; [by right|lia|done|constructor]. Qed.

(** Records are restored into one slot each. *)
Definition restored (record : jval) : call :=
  update (jget_str (Some record) B"id") (jget_str (Some record) B"name") (Some (default B"{}" (jget_str (Some record) B"args"))) true
    (mk_call None None None (restore_index (jget (Some record) B"index"))).

Lemma restore_all items rs : (length items + length rs <= OA_MAX_TOOL_CALLS)%nat ->
  fold_left restore_one rs items = items ++ map restored rs.
Proof.
  revert items. induction rs as [|r rs IH]; intros items Hl; cbn [fold_left map]; [by rewrite app_nil_r|].
  cbn [length] in Hl. unfold restore_one at 2. unfold add. rewrite (proj2 (Nat.eqb_neq _ _)) by lia. rewrite alter_last.
  rewrite IH by (rewrite length_app; cbn [length]; lia). by rewrite <- app_assoc.
Qed.

Lemma views_spec shown k st items m : length shown = OA_MAX_TOOL_CALLS -> (length items <= OA_MAX_TOOL_CALLS)%nat -> (k + m = length items)%nat ->
  take k shown = take k (map view_of items) ->
  fold_left (fun cs k => view cs items (Some k)) (seq k m) (mk_callset shown (length items) (Some items) st) =
  mk_callset (map view_of items ++ drop (length items) shown) (length items) (Some items) st.
Proof.
  revert shown k. induction m as [|m IH]; intros shown k Hl Hle Hk Htake; cbn [seq fold_left].
  - rewrite <- (take_drop (length items) shown) at 1. replace (length items) with k at 1 by lia. rewrite Htake.
    rewrite (take_ge (map view_of items)) by (rewrite length_map; lia). done.
  - unfold view at 2. cbn [calls status]. destruct (lookup_lt_is_Some_2 items k ltac:(lia)) as [c Hc]. rewrite Hc.
    rewrite IH; [|rewrite length_insert; lia|lia|lia|].
    + f_equal. f_equal. by rewrite drop_insert_lt by lia.
    + rewrite (take_S_r _ _ (view_of c)) by (rewrite list_lookup_insert_eq; [done|lia]).
      rewrite (take_S_r (map view_of items) _ (view_of c)) by (by rewrite list_lookup_fmap, Hc).
      rewrite take_insert_ge by lia. by rewrite Htake.
Qed.

Lemma restore_spec rs : (0 < length rs <= OA_MAX_TOOL_CALLS)%nat ->
  oa_calls_restore true (Some (JArr rs)) =
  (mk_callset (map view_of (map restored rs) ++ replicate (OA_MAX_TOOL_CALLS - length rs) no_view) (length rs) (Some (map restored rs)) TNY_PARSE_OK,
   TNY_PARSE_OK).
Proof.
  intros [Hpos Hle]. unfold oa_calls_restore. rewrite (proj2 (Nat.ltb_ge _ _)), (proj2 (Nat.eqb_neq _ _)) by lia. f_equal.
  rewrite restore_all by done. cbn [app]. unfold views. set (items := map restored rs).
  assert (length items = length rs) as Hlen by apply length_map. rewrite <- Hlen in *.
  assert (seq 0 (length items) = seq 0 1 ++ seq 1 (length items - 1)) as -> by (rewrite <- seq_app; f_equal; lia).
  rewrite fold_left_app. cbn [seq fold_left]. unfold view at 2. cbn [calls status].
  destruct (lookup_lt_is_Some_2 items 0 Hpos) as [c Hc]. rewrite Hc. cbn [oa_calls_reset calls status owner n].
  rewrite views_spec; [..|lia|].
  - f_equal. f_equal. destruct items as [|c' items]; [done|]. cbn [length OA_MAX_TOOL_CALLS] in *. rewrite drop_insert_lt by lia.
    by rewrite drop_replicate.
  - by rewrite length_insert, length_replicate.
  - lia.
  - destruct items as [|c' items]; [done|]. injection Hc as ->. done.
Qed.

Lemma restore_ok memory records : callset_ok (fst (oa_calls_restore memory records)).
Proof.
  destruct records as [[| | | |rs|]|]; try apply reset_ok. destruct memory.
  - destruct (Nat.le_gt_cases (length rs) OA_MAX_TOOL_CALLS) as [Hle|Hgt].
    + destruct rs as [|r rs]; [apply reset_ok|]. rewrite restore_spec by (cbn [length] in *; lia). cbn [fst].
      constructor; cbn [status owner n calls default]; unfold Datatypes.id.
      * by left.
      * rewrite length_map. split; [done|lia].
      * done.
      * apply Forall_forall. intros c (r' & <- & _)%in_map_iff. by apply update_id_ok.
    + unfold oa_calls_restore. rewrite (proj2 (Nat.ltb_lt _ _)) by lia. apply reset_ok.
  - unfold oa_calls_restore. destruct (_ <? _)%nat; [apply reset_ok|]. destruct (_ =? _)%nat; [apply reset_ok|apply failed_ok].
Qed.

(** ** Streams of fragments *)

Record fragment := mk_fragment { f_id : option bytes; f_index : option Z; f_name : option bytes; f_args : option bytes }.

(** What a streamed object holds; [None] when its index is no index. *)
Definition fragment_of (tc : jval) : option fragment :=
  let fn := jget (Some tc) B"function" in
  let mk ix := mk_fragment (present (jget_str (Some tc) B"id")) ix (jget_str fn B"name") (jget_str fn B"arguments") in
  match jget (Some tc) B"index" with
  | Some v => if valid_index (wire_number v) then Some (mk (Some (wire_number v))) else None
  | None => Some (mk None)
  end.

(** The fragments of the [tool_calls] arrays, in order. *)
Definition fragments (deltas : list (option jval)) : list fragment := omap fragment_of (concat (map arr_items deltas)).

(** The set after the arrays, with memory for them. *)
Definition feed_deltas (deltas : list (option jval)) : oa_callset :=
  fold_left (fun cs d => fst (oa_calls_feed true cs d)) deltas oa_calls_reset.

Definition step (items : list call) (f : fragment) : list call :=
  let '(items, slot) := select items (f_id f) (f_index f) false in
  match slot with Some k => alter (update (f_id f) (f_name f) (f_args f) false) k items | None => items end.

Definition items_of (cs : oa_callset) : list call := default [] (owner cs).

Lemma given_given s : present (present s) = present s.
Proof. by destruct s as [[]|]. Qed.

Lemma select_given items i ix append_only : select items (present i) ix append_only = select items i ix append_only.
Proof. unfold select. by rewrite given_given. Qed.

Lemma update_given i nm a replace : update (present i) nm a replace = update i nm a replace.
Proof. unfold update. by rewrite given_given. Qed.

Lemma take_in_items cs i nm a ix : items_of (take_in cs (items_of cs) i nm a ix false false) = step (items_of cs) (mk_fragment (present i) ix nm a).
Proof.
  unfold take_in, step. cbn [f_id f_index f_name f_args]. rewrite select_given, update_given.
  by destruct (select (items_of cs) i ix false) as [items [k|]].
Qed.

Lemma feed_one_items cs tc : items_of (feed_one cs tc) = from_option (step (items_of cs)) (items_of cs) (fragment_of tc).
Proof.
  unfold feed_one, fragment_of. destruct (jget (Some tc) B"index") as [v|].
  - destruct (valid_index (wire_number v)); [|done]. cbn [from_option]. by rewrite <- take_in_items.
  - cbn [from_option]. destruct (present (jget_str (Some tc) B"id")) as [i|] eqn:Eg, (owner cs) as [items|] eqn:Eo.
    all: try (rewrite <- Eg, <- take_in_items; unfold items_of; by rewrite Eo).
    unfold items_of. rewrite Eo. done.
Qed.

Lemma feed_all_items tcs cs : items_of (fold_left feed_one tcs cs) = fold_left step (omap fragment_of tcs) (items_of cs).
Proof.
  revert cs. induction tcs as [|tc tcs IH]; intros cs; [done|]. cbn [fold_left omap list_omap]. rewrite IH, feed_one_items.
  by destruct (fragment_of tc).
Qed.

Lemma feed_deltas_from cs deltas : callset_ok cs -> status cs = TNY_PARSE_OK ->
  items_of (fold_left (fun cs d => fst (oa_calls_feed true cs d)) deltas cs) = fold_left step (fragments deltas) (items_of cs) /\
  callset_ok (fold_left (fun cs d => fst (oa_calls_feed true cs d)) deltas cs).
Proof.
  revert cs. induction deltas as [|d deltas IH]; intros cs Hok Hs; [done|]. cbn [fold_left]. unfold fragments. cbn [map concat].
  rewrite omap_app, fold_left_app. fold (fragments deltas).
  assert (fst (oa_calls_feed true cs d) = fold_left feed_one (arr_items d) cs) as ->.
  { unfold oa_calls_feed. rewrite Hs. cbn [Z.eqb negb TNY_PARSE_OK]. by destruct d as [[| | | |[|]|]|]. }
  rewrite <- feed_all_items. destruct (feed_all_ok (arr_items d) cs Hok Hs). by apply IH.
Qed.

Lemma feed_deltas_items deltas : items_of (feed_deltas deltas) = fold_left step (fragments deltas) [] /\ callset_ok (feed_deltas deltas).
Proof. apply (feed_deltas_from oa_calls_reset); [apply reset_ok|done]. Qed.

(** ** What a stream says *)

(** The first identifier and name, and all arguments in order. *)
Definition first_of {A} (g : fragment -> option A) (fs : list fragment) : option A := head (omap g fs).
Definition pieces (fs : list fragment) : option bytes := match omap f_args fs with [] => None | ps => Some (concat ps) end.
Definition assembled (fs : list fragment) : option bytes * option bytes * option bytes :=
  (first_of f_id fs, first_of f_name fs, pieces fs).
Definition core (c : call) : option bytes * option bytes * option bytes := (id c, name c, args c).

(** Values in the order of their first occurrence. *)
Definition seen {K} `{EqDecision K} (ks : list K) : list K :=
  fold_left (fun acc k => if decide (k ∈ acc) then acc else acc ++ [k]) ks [].

(** The calls of a stream whose fragments are told apart by [label]. *)
Definition calls_of {K} `{EqDecision K} (label : fragment -> K) (fs : list fragment) : list (option bytes * option bytes * option bytes) :=
  map (fun k => assembled (List.filter (fun f => bool_decide (label f = k)) fs)) (take OA_MAX_TOOL_CALLS (seen (map label fs))).

Lemma first_of_snoc {A} (g : fragment -> option A) fs f :
  first_of g (fs ++ [f]) = match first_of g fs with Some a => Some a | None => g f end.
Proof.
  unfold first_of. rewrite omap_app. destruct (omap g fs); [|done]. cbn. by destruct (g f).
Qed.

Lemma pieces_snoc fs f : pieces (fs ++ [f]) = match f_args f with Some a => Some (default [] (pieces fs) ++ a) | None => pieces fs end.
Proof.
  unfold pieces. rewrite omap_app. cbn [omap list_omap]. destruct (f_args f) as [a|]; [|by rewrite app_nil_r].
  destruct (omap f_args fs) as [|p ps]; [cbn; by rewrite app_nil_r|]. cbn [app default]. unfold Datatypes.id.
  f_equal. rewrite app_comm_cons, concat_app. cbn [concat]. by rewrite app_nil_r.
Qed.

Lemma core_update fs f c : present (f_id f) = f_id f -> core c = assembled fs ->
  core (update (f_id f) (f_name f) (f_args f) false c) = assembled (fs ++ [f]).
Proof.
  intros Hg [= Ei En Ea]. unfold core, assembled, update. cbn [id name args]. rewrite !first_of_snoc, pieces_snoc, Hg, Ei, En, Ea.
  by destruct (f_id f), (first_of f_id fs), (f_name f), (first_of f_name fs).
Qed.

(** ** Lemmas: first occurrences *)

Lemma seen_snoc {K} `{EqDecision K} (ks : list K) k : seen (ks ++ [k]) = if decide (k ∈ seen ks) then seen ks else seen ks ++ [k].
Proof. unfold seen. by rewrite fold_left_app. Qed.

Lemma seen_elem {K} `{EqDecision K} (ks : list K) k : k ∈ seen ks <-> k ∈ ks.
Proof.
  induction ks as [|k' ks IH] using rev_ind; [done|]. rewrite seen_snoc, elem_of_app, list_elem_of_singleton.
  destruct (decide (k' ∈ seen ks)) as [Hin|Hin]; [|by rewrite elem_of_app, list_elem_of_singleton, IH].
  rewrite IH. split; [by left|]. intros [?| ->]; [done|by apply IH].
Qed.

Lemma seen_nodup {K} `{EqDecision K} (ks : list K) : NoDup (seen ks).
Proof.
  induction ks as [|k ks IH] using rev_ind; [constructor|]. rewrite seen_snoc. destruct (decide (k ∈ seen ks)) as [|Hk]; [done|].
  apply list.NoDup_app. split_and!; [done| |apply NoDup_singleton]. by intros x Hx ->%list_elem_of_singleton.
Qed.

(** ** Lemmas: attribution *)

Section attribution.
Context {K : Type} `{EqDecision K} (label : fragment -> K).

Definition labelled (fs : list fragment) (c : call) (k : K) : Prop :=
  core c = assembled (List.filter (fun f => bool_decide (label f = k)) fs).

Definition known (fs : list fragment) : list K := take OA_MAX_TOOL_CALLS (seen (map label fs)).

(** The calls so far, each under its label. *)
Definition sorted_out (fs : list fragment) (items : list call) : Prop := Forall2 (labelled fs) items (known fs).

(** The fragment goes to the call with its label, or to a new one. *)
Definition attributed (fs : list fragment) (items : list call) (f : fragment) : Prop :=
  match list_find (fun k => k = label f) (known fs) with
  | Some (j, _) => select items (f_id f) (f_index f) false = (items, Some j)
  | None => exists ix, (forall ix', f_index f = Some ix' -> ix = ix') /\ select items (f_id f) (f_index f) false = add items ix
  end.

Lemma filter_snoc fs f k :
  List.filter (fun f => bool_decide (label f = k)) (fs ++ [f]) =
  List.filter (fun f => bool_decide (label f = k)) fs ++ (if decide (label f = k) then [f] else []).
Proof. rewrite List.filter_app. cbn [List.filter]. by destruct (decide (label f = k)) as [H|H]; [rewrite bool_decide_eq_true_2|rewrite bool_decide_eq_false_2]. Qed.

Lemma labelled_other fs f c k : label f <> k -> labelled fs c k -> labelled (fs ++ [f]) c k.
Proof. unfold labelled. intros H ->. rewrite filter_snoc, decide_False, app_nil_r by done. done. Qed.

Lemma known_nodup fs : NoDup (known fs).
Proof. apply (sublist_NoDup _ (seen (map label fs))); [apply seen_nodup|apply sublist_take]. Qed.

(** One step, for any relation between calls and labels. *)
Lemma step_related (R R' : call -> K -> Prop) fs items f :
  (forall c k, k <> label f -> R c k -> R' c k) ->
  (forall c, R c (label f) -> R' (update (f_id f) (f_name f) (f_args f) false c) (label f)) ->
  (forall ix, (forall ix', f_index f = Some ix' -> ix = ix') -> label f ∉ seen (map label fs) ->
     R' (update (f_id f) (f_name f) (f_args f) false (mk_call None None None ix)) (label f)) ->
  Forall2 R items (known fs) -> attributed fs items f -> Forall2 R' (step items f) (known (fs ++ [f])).
Proof.
  intros Hother Hsame Hnewcall Hs Ha. pose proof (Forall2_length Hs) as Hlen. pose proof (known_nodup fs) as Hnd.
  unfold attributed in Ha. unfold step. assert (known (fs ++ [f]) = if decide (label f ∈ seen (map label fs)) then known fs
    else take OA_MAX_TOOL_CALLS (seen (map label fs) ++ [label f])) as Ek.
  { unfold known. rewrite map_app. cbn [map]. rewrite seen_snoc. by destruct (decide _). }
  destruct (list_find _ (known fs)) as [[j k]|] eqn:Ef.
  - apply list_find_Some in Ef as (Hj & -> & _). rewrite Ha, Ek, decide_True.
    2:{ apply list_elem_of_lookup_2 in Hj. unfold known in Hj. by apply elem_of_take in Hj as (i & Hi & _); apply list_elem_of_lookup_2 in Hi. }
    apply Forall2_same_length_lookup_2; [by rewrite length_alter|]. intros i c k Hc Hk.
    destruct (decide (i = j)) as [->|Hne].
    + rewrite list_lookup_alter_eq in Hc. apply fmap_Some in Hc as (c0 & Hc0 & ->). rewrite Hj in Hk. injection Hk as <-.
      apply Hsame. by apply (Forall2_lookup_lr _ _ _ _ _ _ Hs Hc0 Hj).
    + rewrite list_lookup_alter_ne in Hc by done. apply Hother; [|by apply (Forall2_lookup_lr _ _ _ _ _ _ Hs Hc Hk)].
      intros ->. by apply Hne, (NoDup_lookup _ _ _ _ Hnd Hk Hj).
  - destruct Ha as (ix & Hix & ->). apply list_find_None in Ef. rewrite Forall_forall in Ef.
    assert (Forall2 R' items (known fs)) as Hold.
    { apply Forall2_same_length_lookup_2; [done|]. intros i c k Hc Hk. apply Hother; [|by apply (Forall2_lookup_lr _ _ _ _ _ _ Hs Hc Hk)].
      intros ->. apply (Ef (label f)); [|done]. apply list_elem_of_In. by eapply list_elem_of_lookup_2. }
    unfold add. destruct (Nat.eqb_spec (length items) OA_MAX_TOOL_CALLS) as [Hfull|Hroom].
    + assert (known (fs ++ [f]) = known fs) as ->; [|done]. rewrite Ek. destruct (decide _); [done|]. unfold known in *.
      rewrite Hlen, length_take in Hfull. by rewrite take_app_le by lia.
    + assert (length items <= OA_MAX_TOOL_CALLS)%nat by (rewrite Hlen; unfold known; rewrite length_take; lia).
      assert (known fs = seen (map label fs)) as Hall.
      { unfold known in *. rewrite Hlen, length_take in Hroom. apply take_ge. lia. }
      assert (label f ∉ seen (map label fs)) as Hnew.
      { rewrite <- Hall. intros Hin. by apply (Ef (label f)); [apply list_elem_of_In|]. }
      rewrite Ek, decide_False by done. rewrite <- Hall, take_ge by (rewrite length_app; cbn [length]; lia).
      rewrite alter_last. apply Forall2_app; [done|]. constructor; [by apply Hnewcall|constructor].
Qed.

Lemma step_sorted fs items f : present (f_id f) = f_id f -> sorted_out fs items -> attributed fs items f -> sorted_out (fs ++ [f]) (step items f).
Proof.
  intros Hg. apply step_related.
  - intros c k Hne. apply labelled_other. congruence.
  - intros c Hl. unfold labelled in *. rewrite filter_snoc, decide_True by done. by apply core_update.
  - intros ix _ Hnew. unfold labelled. rewrite filter_snoc, decide_True by done. apply (core_update); [done|].
    rewrite filter_none_of; [done|]. apply Forall_forall. intros g Hg'. apply bool_decide_eq_false_2. intros Heq.
    apply Hnew, seen_elem. rewrite <- Heq. apply list_elem_of_In, in_map. done.
Qed.

Lemma steps_sorted (Inv : list fragment -> list call -> Prop) fs :
  Inv [] [] -> Forall (fun f => present (f_id f) = f_id f) fs ->
  (forall pre f post items, fs = pre ++ f :: post -> Inv pre items -> sorted_out pre items ->
     attributed pre items f /\ Inv (pre ++ [f]) (step items f)) ->
  map core (fold_left step fs []) = calls_of label fs.
Proof.
  intros H0 Hg Hstep. assert (Inv fs (fold_left step fs []) /\ sorted_out fs (fold_left step fs [])) as [_ H].
  { assert (forall pre post, fs = pre ++ post -> Inv pre (fold_left step pre []) /\ sorted_out pre (fold_left step pre [])) as H.
    { intros pre. induction pre as [|f pre IH] using rev_ind; intros post E; [split; [done|constructor]|].
      rewrite <- app_assoc in E. cbn [app] in E. destruct (IH _ E) as [Hi Hs]. destruct (Hstep _ _ _ _ E Hi Hs) as [Ha Hi'].
      rewrite fold_left_app. cbn [fold_left]. split; [done|]. apply step_sorted; [|done..]. rewrite E, Forall_app in Hg.
      destruct Hg as [_ Hg]. by apply Forall_cons_iff in Hg as [? _]. }
    apply (H fs []). by rewrite app_nil_r. }
  unfold calls_of. fold (known fs). clear -H. unfold sorted_out in H.
  generalize dependent (known fs). intros ks H. induction H as [|c k cs ks Hl _ IH]; [done|]. cbn [map]. by rewrite Hl, IH.
Qed.

End attribution.

(** ** Lemmas: streams keyed by identifier, and by index *)

Lemma by_id_find items ks i : Forall2 (fun c k => id c = k) items ks -> by_id items i = fst <$> list_find (fun k => k = Some i) ks.
Proof.
  induction 1 as [|c k items ks Hc _ IH]; [done|]. cbn [by_id list_find]. unfold has_id. rewrite Hc.
  destruct (decide (k = Some i)) as [->|Hne]; [by rewrite str_eq_refl|].
  assert (match k with Some i' => str_eq i' i | None => false end = false) as ->.
  { destruct k as [i'|]; [|done]. apply str_eq_false. congruence. }
  rewrite IH. by destruct (list_find _ ks) as [[]|].
Qed.

Lemma by_index_find items ks ix : Forall2 (fun c k => Some (index c) = k) items ks -> NoDup ks ->
  by_index items ix = fst <$> list_find (fun k => k = Some ix) ks.
Proof.
  induction 1 as [|c k items ks Hc _ IH]; [done|]. intros [Hk Hnd]%list.NoDup_cons. cbn [by_index list_find]. rewrite (IH Hnd).
  destruct (decide (k = Some ix)) as [->|Hne].
  - destruct (list_find _ ks) as [[j k]|] eqn:Ef.
    + apply list_find_Some in Ef as (Hj & -> & _). destruct Hk. by eapply list_elem_of_lookup_2.
    + cbn. injection Hc as ->. by rewrite Z.eqb_refl.
  - destruct (list_find _ ks) as [[j k']|]; [done|]. cbn. rewrite (proj2 (Z.eqb_neq _ _)); [done|]. congruence.
Qed.

Lemma first_of_elem {A} (g : fragment -> option A) fs a : first_of g fs = Some a -> exists f, In f fs /\ g f = Some a.
Proof.
  unfold first_of. intros H. apply head_Some in H as [rest H]. assert (a ∈ omap g fs) as Hin by (rewrite H; left).
  apply list_elem_of_omap in Hin as (f & Hf & Ha). exists f. by rewrite <- list_elem_of_In.
Qed.

Lemma known_first {K} `{EqDecision K} (label : fragment -> K) fs k : k ∈ known label fs -> exists f, In f fs /\ label f = k.
Proof.
  intros H. unfold known in H. apply elem_of_take in H as (i & H & _). apply list_elem_of_lookup_2 in H. apply (proj1 (seen_elem _ _)) in H.
  apply list_elem_of_In, in_map_iff in H as (f & ? & ?). by exists f.
Qed.

(** Every call has the identifier it is labelled with. *)
Lemma labels_are_ids fs items : Forall (fun f => is_Some (f_id f)) fs -> sorted_out f_id fs items ->
  Forall2 (fun c k => id c = k) items (known f_id fs).
Proof.
  intros Hf Hs. apply Forall2_same_length_lookup_2; [by apply (Forall2_length Hs)|]. intros i c k Hc Hk.
  pose proof (Forall2_lookup_lr _ _ _ _ _ _ Hs Hc Hk) as Hl. injection Hl as -> _ _.
  apply list_elem_of_lookup_2, known_first in Hk as (f & Hin & Hlab).
  destruct (first_of f_id _) as [i'|] eqn:E.
  - apply first_of_elem in E as (g & Hg & Hi'). apply filter_In in Hg as [_ Hg]. apply bool_decide_eq_true in Hg. congruence.
  - exfalso. rewrite Forall_forall in Hf. destruct (Hf f Hin) as [i' Hi']. unfold first_of in E. apply head_None in E.
    assert (i' ∈ omap f_id (List.filter (fun f => bool_decide (f_id f = k)) fs)) as Hin'; [|by rewrite E in Hin'; apply not_elem_of_nil in Hin'].
    apply list_elem_of_omap. exists f. split; [|done]. apply list_elem_of_In, filter_In. split; [done|by apply bool_decide_eq_true_2].
Qed.

Lemma attributed_by_id pre f items : Forall (fun f => is_Some (f_id f)) (pre ++ [f]) -> present (f_id f) = f_id f -> sorted_out f_id pre items ->
  attributed f_id pre items f.
Proof.
  intros [Hpre Hf]%Forall_app Hg Hs. apply Forall_cons_iff in Hf as [[i Hi] _]. pose proof (labels_are_ids pre items Hpre Hs) as Hids.
  assert (Forall (fun c => is_Some (id c)) items) as Hall.
  { apply Forall_lookup. intros j c Hc. destruct (lookup_lt_is_Some_2 (known f_id pre) j) as [k Hk].
    { rewrite <- (Forall2_length Hs). by eapply lookup_lt_Some. }
    rewrite (Forall2_lookup_lr _ _ _ _ _ _ Hids Hc Hk). apply list_elem_of_lookup_2, known_first in Hk as (g & Hin & <-).
    rewrite Forall_forall in Hpre. by apply Hpre. }
  unfold attributed, select. rewrite Hg, Hi, (by_id_find _ _ _ Hids). destruct (list_find _ _) as [[j k]|] eqn:E; cbn [fmap option_fmap option_map fst].
  - by destruct (f_index f).
  - exists (default (Z.of_nat (length items)) (f_index f)). split; [by intros ix ->|]. destruct (f_index f) as [ix|]; [|done].
    destruct (by_index items ix) as [k|] eqn:Eb; [|done]. destruct (items !! k) as [q|] eqn:Eq; [|done].
    rewrite bool_decide_eq_true_2; [done|]. rewrite Forall_lookup in Hall. by eapply Hall.
Qed.

(** Every fragment has an index; an identifier goes with one index, and an index
    with at most one identifier. *)
Definition indexed (fs : list fragment) : Prop :=
  Forall (fun f => is_Some (f_index f)) fs /\
  forall f g, In f fs -> In g fs -> is_Some (f_id f) -> is_Some (f_id g) -> (f_id f = f_id g <-> f_index f = f_index g).

Lemma attributed_by_index pre f items : indexed (pre ++ [f]) -> present (f_id f) = f_id f -> sorted_out f_index pre items ->
  Forall2 (fun c k => Some (index c) = k) items (known f_index pre) -> attributed f_index pre items f.
Proof.
  intros [Hix Hids] Hg Hs Hi. apply Forall_app in Hix as [_ Hix]. apply Forall_cons_iff in Hix as [[ix Eix] _].
  pose proof (by_index_find _ _ ix Hi (known_nodup f_index pre)) as Hbi.
  assert (forall j c i, items !! j = Some c -> id c = Some i -> exists g, In g pre /\ f_id g = Some i /\ known f_index pre !! j = Some (f_index g)) as Hcid.
  { intros j c i Hc Hci. destruct (lookup_lt_is_Some_2 (known f_index pre) j) as [k Hk].
    { rewrite <- (Forall2_length Hs). by eapply lookup_lt_Some. }
    pose proof (Forall2_lookup_lr _ _ _ _ _ _ Hs Hc Hk) as Hl. injection Hl as Hl _ _. rewrite Hci in Hl. symmetry in Hl.
    apply first_of_elem in Hl as (g & Hin & Hgi). apply filter_In in Hin as [Hin Hlab]. apply bool_decide_eq_true in Hlab. exists g. by subst k. }
  assert (forall g, In g pre -> is_Some (f_id g) -> is_Some (f_id f) -> (f_id g = f_id f <-> f_index g = f_index f)) as Hcons.
  { intros g Hin ? ?. apply Hids; [apply in_or_app; by left|apply in_or_app; right; by left|done..]. }
  unfold attributed, select. rewrite Hg, Eix. destruct (f_id f) as [i|] eqn:Ei.
  - destruct (by_id items i) as [k|] eqn:Eb.
    + apply by_id_some in Eb as (c & Hc & Hci). destruct (Hcid k c _ Hc Hci) as (g & Hin & Hgi & Hk).
      assert (f_index g = Some ix) as Egi by (rewrite <- Eix; apply Hcons; [done|by eexists|done|done]). rewrite Egi in Hk.
      destruct (list_find _ _) as [[j k']|] eqn:Ef.
      * apply list_find_Some in Ef as (Hj & -> & _). by rewrite (NoDup_lookup _ _ _ _ (known_nodup f_index pre) Hj Hk).
      * apply list_find_None in Ef. rewrite Forall_forall in Ef. destruct (Ef (Some ix)); [|done]. apply list_elem_of_In. by eapply list_elem_of_lookup_2.
    + rewrite Hbi. destruct (list_find _ _) as [[j k']|] eqn:Ef; cbn [fmap option_fmap option_map fst]; [|by exists ix; split; [congruence|]].
      apply list_find_Some in Ef as (Hj & -> & _). destruct (lookup_lt_is_Some_2 items j) as [q Hq].
      { rewrite (Forall2_length Hs). by eapply lookup_lt_Some. }
      rewrite Hq. rewrite bool_decide_eq_false_2; [done|]. intros [i' Hi']. destruct (Hcid j q _ Hq Hi') as (g & Hin & Hgi & Hk).
      rewrite Hk in Hj. injection Hj as Hj. assert (f_id g = Some i) as E by (apply Hcons; [done|by eexists|done|congruence]).
      apply by_id_none in Eb. rewrite Forall_lookup in Eb. apply (Eb j q Hq). congruence.
  - rewrite Hbi. destruct (list_find _ _) as [[j k']|]; cbn [fmap option_fmap option_map fst]; [done|by exists ix; split; [congruence|]].
Qed.

Lemma fragment_given tc f : fragment_of tc = Some f -> present (f_id f) = f_id f.
Proof.
  unfold fragment_of. destruct (jget (Some tc) B"index"); [destruct (valid_index _); [|done]|]; intros [= <-]; apply given_given.
Qed.

Lemma fragments_given deltas : Forall (fun f => present (f_id f) = f_id f) (fragments deltas).
Proof.
  apply Forall_forall. intros f Hin%list_elem_of_In. unfold fragments in Hin. apply list_elem_of_omap in Hin as (tc & _ & H).
  by eapply fragment_given.
Qed.

(** ** Every sequence of operations *)

Inductive calls_op :=
  | Feed (memory : bool) (tool_calls : option jval)
  | Item (memory : bool) (ix : Z) (i nm a : option bytes) (replace append_only : bool)
  | Restore (memory : bool) (records : option jval)
  | Reset.

Definition run_op (cs : oa_callset) (op : calls_op) : oa_callset * Z :=
  match op with
  | Feed memory v => oa_calls_feed memory cs v
  | Item memory ix i nm a replace append_only => oa_calls_item memory cs ix i nm a replace append_only
  | Restore memory records => oa_calls_restore memory records
  | Reset => (oa_calls_reset, TNY_PARSE_OK)
  end.

Definition run_ops (ops : list calls_op) : oa_callset := fold_left (fun cs op => fst (run_op cs op)) ops oa_calls_reset.

Definition streams (op : calls_op) : bool := match op with Restore _ _ => false | _ => true end.

(** No identifier twice. *)
Definition unique_ids (items : list call) : Prop := NoDup (omap id items).

Lemma run_op_ok cs op : callset_ok cs -> callset_ok (fst (run_op cs op)).
Proof.
  intros Hok. destruct op as [memory v|memory ix i nm a replace append_only|memory records|]; cbn [run_op].
  - unfold oa_calls_feed. destruct (Z.eqb_spec (status cs) TNY_PARSE_OK) as [Hs|]; [cbn [negb]|done].
    destruct v as [[| | | |[|tc tcs]|]|]; try done. destruct memory; [by apply feed_all_ok|apply failed_ok].
  - unfold oa_calls_item. destruct (Z.eqb_spec (status cs) TNY_PARSE_OK) as [Hs|]; [cbn [negb]|done].
    destruct (_ || _); [done|]. destruct memory; [by apply take_in_ok|apply failed_ok].
  - apply restore_ok.
  - apply reset_ok.
Qed.

Lemma omap_alter_same (items : list call) (k : nat) c (f : call -> call) : items !! k = Some c -> id (f c) = id c -> omap id (alter f k items) = omap id items.
Proof.
  revert k. induction items as [|c' items IH]; intros [|k]; cbn; try done; [by intros [= ->] ->|]. intros Hk Hf. by rewrite (IH k).
Qed.

Lemma unique_alter (items : list call) (k : nat) c i (f : call -> call) : unique_ids items -> items !! k = Some c -> id c = None -> id (f c) = Some i ->
  Forall (fun c => id c <> Some i) items -> unique_ids (alter f k items).
Proof.
  unfold unique_ids. intros Hu Hk Hc Hf Hnew. assert (alter f k items = take k items ++ f c :: drop (S k) items) as ->.
  { pose proof (lookup_lt_Some _ _ _ Hk). rewrite <- (take_drop_middle items k c Hk) at 1.
    rewrite alter_app_r_alt by (rewrite length_take; lia). by replace (k - length (take k items))%nat with 0%nat by (rewrite length_take; lia). }
  rewrite <- (take_drop_middle items k c Hk) in Hu, Hnew. rewrite omap_app in *. cbn [omap list_omap] in *. rewrite Hc in Hu. rewrite Hf.
  apply Forall_app in Hnew as [H1 H2]. apply Forall_cons_iff in H2 as [_ H2].
  assert (forall l, Forall (fun c => id c <> Some i) l -> i ∉ omap id l) as Hout.
  { intros l Hl (c' & Hin & Hi)%list_elem_of_omap. rewrite Forall_forall in Hl. by apply (Hl c'); [apply list_elem_of_In|]. }
  apply list.NoDup_app in Hu as (Hu1 & Hu2 & Hu3). apply list.NoDup_app. split_and!; [done| |].
  - intros x Hx [->|Hx']%elem_of_cons; [by apply (Hout _ H1)|by apply (Hu2 x)].
  - apply list.NoDup_cons. split; [by apply Hout|done].
Qed.

Lemma take_in_unique cs i nm a ix replace append_only : callset_ok cs -> unique_ids (items_of cs) ->
  unique_ids (items_of (take_in cs (items_of cs) i nm a ix replace append_only)).
Proof.
  intros Hok Hu. pose proof (ok_count _ Hok) as [Hn Hle]. unfold take_in. destruct (select (items_of cs) i ix append_only) as [items slot] eqn:Es.
  pose proof (select_selected (items_of cs) i ix append_only ltac:(unfold items_of; lia)) as Hsel. rewrite Es in Hsel.
  assert (forall i', present i = Some i' -> forall k c, slot = Some k -> items !! k = Some c -> id c = None -> Forall (fun c => id c <> Some i') (items_of cs)) as Hnone.
  { intros i' Hi k c -> Hc Hcn. apply by_id_none. destruct (by_id (items_of cs) i') as [k'|] eqn:Eb; [|done]. unfold select in Es. rewrite Hi, Eb in Es.
    assert (items = items_of cs /\ k' = k) as [-> ->] by (by destruct ix; injection Es as <- <-).
    apply by_id_some in Eb as (c' & Hc' & Hi'). rewrite Hc in Hc'. injection Hc' as <-. congruence. }
  inversion Hsel as [k c Hc|ix' Hl Hix|]; subst; cbn [view items_of owner default] in *; unfold Datatypes.id in *; [| |done].
  - destruct (id c) as [have|] eqn:Ec; [|destruct (present i) as [i'|] eqn:Ei].
    + unfold unique_ids. rewrite (omap_alter_same _ _ c); [done..|]. cbn. rewrite Ec. by destruct (present i).
    + eapply unique_alter; [done|done|done| |by eapply Hnone]. cbn. by rewrite Ei, Ec.
    + unfold unique_ids. rewrite (omap_alter_same _ _ c); [done..|]. cbn. by rewrite Ei.
  - rewrite alter_last. unfold unique_ids. rewrite omap_app. cbn [omap list_omap update id]. destruct (present i) as [i'|] eqn:Ei; [|by rewrite app_nil_r].
    apply list.NoDup_app. split_and!; [done| |apply NoDup_singleton]. intros x (c & Hin & Hc)%list_elem_of_omap ->%list_elem_of_singleton.
    specialize (Hnone i' eq_refl (length (items_of cs)) (mk_call None None None (default (Z.of_nat (length (items_of cs))) ix)) eq_refl).
    rewrite lookup_app_r, Nat.sub_diag in Hnone by lia. specialize (Hnone eq_refl eq_refl). rewrite Forall_forall in Hnone.
    by apply (Hnone c); [apply list_elem_of_In|].
Qed.

Lemma feed_all_unique tcs cs : callset_ok cs -> status cs = TNY_PARSE_OK -> unique_ids (items_of cs) -> unique_ids (items_of (fold_left feed_one tcs cs)).
Proof.
  revert cs. induction tcs as [|tc tcs IH]; intros cs Hok Hs Hu; [done|]. cbn [fold_left]. destruct (feed_one_ok cs tc Hok Hs).
  apply IH; [done..|]. unfold feed_one. destruct (jget (Some tc) B"index"); [destruct (valid_index _); [by apply take_in_unique|done]|].
  destruct (present _), (owner cs) eqn:Eo; try done; rewrite <- Eo; by apply take_in_unique.
Qed.

Lemma run_op_unique cs op : callset_ok cs -> streams op = true -> unique_ids (items_of cs) -> unique_ids (items_of (fst (run_op cs op))).
Proof.
  intros Hok Hst Hu. destruct op as [memory v|memory ix i nm a replace append_only|memory records|]; cbn [run_op]; try done; [| |constructor].
  - unfold oa_calls_feed. destruct (Z.eqb_spec (status cs) TNY_PARSE_OK) as [Hs|]; [cbn [negb]|done].
    destruct v as [[| | | |[|tc tcs]|]|]; try done. destruct memory; [by apply feed_all_unique|constructor].
  - unfold oa_calls_item. destruct (Z.eqb_spec (status cs) TNY_PARSE_OK) as [Hs|]; [cbn [negb]|done].
    destruct (_ || _); [done|]. destruct memory; [by apply take_in_unique|constructor].
Qed.

Lemma run_ops_from ops cs : callset_ok cs -> callset_ok (fold_left (fun cs op => fst (run_op cs op)) ops cs) /\
  (forallb streams ops = true -> unique_ids (items_of cs) -> unique_ids (items_of (fold_left (fun cs op => fst (run_op cs op)) ops cs))).
Proof.
  revert cs. induction ops as [|op ops IH]; intros cs Hok; [done|]. cbn [fold_left forallb].
  destruct (IH (fst (run_op cs op)) (run_op_ok cs op Hok)) as [H1 H2]. split; [done|]. intros [Ho Hr]%andb_true_iff Hu.
  apply H2; [done|]. by apply run_op_unique.
Qed.

(** ** Properties *)

(** C31: when every fragment carries its call's identifier, the calls are put
    together by identifier whatever the indices say, even missing, repeated or
    wrong: one call for each identifier, in the order they first appear and up
    to 32, with the first name and all argument pieces in order. *)
Theorem calls_assembled_by_id (deltas : list (option jval)) (Hid : Forall (fun f => is_Some (f_id f)) (fragments deltas)) :
  map core (items_of (feed_deltas deltas)) = calls_of f_id (fragments deltas) /\
  calls (feed_deltas deltas) = map view_of (items_of (feed_deltas deltas)) ++ replicate (OA_MAX_TOOL_CALLS - n (feed_deltas deltas)) no_view.
Proof.
  destruct (feed_deltas_items deltas) as [E Hok]. split; [|apply (ok_views _ Hok)]. rewrite E.
  apply (steps_sorted f_id (fun _ _ => True)); [done|apply fragments_given|]. intros pre f post items Ef _ Hs. split; [|done].
  pose proof (fragments_given deltas) as Hg. rewrite Ef in Hid, Hg. change (f :: post) with ([f] ++ post) in Hid. rewrite app_assoc in Hid. apply Forall_app in Hid as [Hid _].
  apply Forall_app in Hg as [_ Hg]. apply Forall_cons_iff in Hg as [Hg _]. by apply attributed_by_id.
Qed.

(** When every fragment has an index, and an identifier goes with one index
    only, the calls are put together by index, however the fragments of
    different calls are interleaved and wherever the identifiers arrive. *)
Theorem calls_assembled_by_index (deltas : list (option jval)) (Hix : indexed (fragments deltas)) :
  map core (items_of (feed_deltas deltas)) = calls_of f_index (fragments deltas) /\
  calls (feed_deltas deltas) = map view_of (items_of (feed_deltas deltas)) ++ replicate (OA_MAX_TOOL_CALLS - n (feed_deltas deltas)) no_view.
Proof.
  destruct (feed_deltas_items deltas) as [E Hok]. split; [|apply (ok_views _ Hok)]. rewrite E.
  apply (steps_sorted f_index (fun pre items => Forall2 (fun c k => Some (index c) = k) items (known f_index pre))); [constructor|apply fragments_given|].
  intros pre f post items Ef Hi Hs. pose proof (fragments_given deltas) as Hg. rewrite Ef in Hg.
  apply Forall_app in Hg as [_ Hg]. apply Forall_cons_iff in Hg as [Hg _].
  assert (indexed (pre ++ [f])) as Hpre.
  { rewrite Ef in Hix. change (f :: post) with ([f] ++ post) in Hix. rewrite app_assoc in Hix. destruct Hix as [Hix Hids]. split; [by apply Forall_app in Hix as [? _]|].
    intros g h Hgin Hhin. apply Hids; apply in_or_app; by left. }
  pose proof (attributed_by_index pre f items Hpre Hg Hs Hi) as Ha. split; [done|].
  apply (step_related f_index (fun c k => Some (index c) = k)); try done. intros ix H _. cbn [update index].
  destruct Hpre as [Hpre _]. apply Forall_app in Hpre as [_ Hpre]. apply Forall_cons_iff in Hpre as [[ix' Eix] _]. by rewrite Eix, (H ix' Eix).
Qed.

(** After any operations, whatever ran out of memory, what is shown is what
    was assembled, at most 32 calls and no empty identifier; a failure shows
    nothing and stays until a reset; and calls that were streamed never share
    an identifier. *)
Theorem calls_run_ok (ops : list calls_op) :
  let cs := run_ops ops in
  callset_ok cs /\
  (status cs <> TNY_PARSE_OK -> n cs = 0%nat /\ forall op, match op with Feed _ _ | Item _ _ _ _ _ _ _ => run_op cs op = (cs, status cs) | _ => True end) /\
  (forallb streams ops = true -> unique_ids (items_of cs)).
Proof.
  cbn zeta. destruct (run_ops_from ops oa_calls_reset reset_ok) as [Hok Hu]. fold (run_ops ops) in *. split; [done|]. split.
  - intros Hs. destruct Hok as [[?|[Hst Ho]] [Hn _] _ _]; [done|]. rewrite Ho in Hn. split; [done|]. intros op.
    destruct op; try done; cbn [run_op]; unfold oa_calls_feed, oa_calls_item; by rewrite (proj2 (Z.eqb_neq _ _) Hs).
  - intros Hst. apply Hu; [done|constructor].
Qed.

(** ** Examples *)

(** A fragment on the wire. *)
Definition demo_fragment (i : option bytes) (ix : option Z) (nm a : option bytes) : jval :=
  let str key s := match s with Some s => [(key, JStr s)] | None => [] end in
  JObj (str B"id" i ++ match ix with Some k => [(B"index", JNum (JUint k))] | None => [] end ++
        [(B"function", JObj (str B"name" nm ++ str B"arguments" a))]).

(** Two calls under one index, told apart by their identifiers. *)
Definition demo_by_id : list (option jval) :=
  [Some (JArr [demo_fragment (Some B"a") (Some 0) (Some B"read") (Some B"{"); demo_fragment (Some B"b") (Some 0) (Some B"write") None]);
   Some (JArr [demo_fragment (Some B"a") None None (Some B"}")])].

Example calls_assembled_by_id_witness :
  map core (items_of (feed_deltas demo_by_id)) = calls_of f_id (fragments demo_by_id) /\
  calls (feed_deltas demo_by_id) = map view_of (items_of (feed_deltas demo_by_id)) ++ replicate (OA_MAX_TOOL_CALLS - n (feed_deltas demo_by_id)) no_view.
Proof. apply (calls_assembled_by_id demo_by_id). vm_compute. repeat constructor; by eexists. Defined.

(** Two calls interleaved, an identifier that comes late. *)
Definition demo_by_index : list (option jval) :=
  [Some (JArr [demo_fragment None (Some 1) (Some B"read") (Some B"{"); demo_fragment (Some B"b") (Some 0) (Some B"write") None]);
   Some (JArr [demo_fragment (Some B"a") (Some 1) None (Some B"}"); demo_fragment None (Some 0) None (Some B"[]")])].

Example calls_assembled_by_index_witness :
  map core (items_of (feed_deltas demo_by_index)) = calls_of f_index (fragments demo_by_index) /\
  calls (feed_deltas demo_by_index) = map view_of (items_of (feed_deltas demo_by_index)) ++ replicate (OA_MAX_TOOL_CALLS - n (feed_deltas demo_by_index)) no_view.
Proof.
  apply (calls_assembled_by_index demo_by_index). split; [vm_compute; repeat constructor; by eexists|].
  intros f g Hf Hg. vm_compute in Hf, Hg. intros [i Hi] [j Hj].
  destruct Hf as [<-|[<-|[<-|[<-|[]]]]], Hg as [<-|[<-|[<-|[<-|[]]]]]; cbn in *; try done.
Defined.

Example demo_by_index_calls :
  map core (items_of (feed_deltas demo_by_index)) = [(Some B"a", Some B"read", Some B"{}"); (Some B"b", Some B"write", Some B"[]")].
Proof. by vm_compute. Qed.

(** The name made up for a call without identifier can be another's identifier. *)
Example fallback_collides :
  let cs := feed_deltas [Some (JArr [demo_fragment (Some B"call_1") (Some 0) None None; demo_fragment None (Some 1) None None])] in
  (fun slot => match calls cs !! slot with Some pc => oa_call_id pc slot 32 | None => [] end) <$> [0; 1]%nat = [B"call_1"; B"call_1"].
Proof. by vm_compute. Qed.
