(* ===== verification/StreamDecode.v ===== *)
(** The decoder of provider streams (src/src/backends/openai/stream_decode.cpp):
    Chat Completions and Responses documents become events, tool calls and the
    reasoning that is sent back with the next request. *)
From S2P Require Import Prelude Json JsonValue ToolCalls.

Open Scope Z_scope.

(** ** Events *)

Inductive tny_stop_reason := STOP_DONE | STOP_INTERRUPTED | STOP_DENIED | STOP_STEP_LIMIT | STOP_ERROR.

(** The counts that are there. *)
Record oa_usage := mk_usage { input_tokens : option Z; output_tokens : option Z; cached_tokens : option Z; cache_write_tokens : option Z }.

Inductive oa_decoded_event :=
  | TEXT (text : bytes)
  | THINKING (text : bytes)
  | USAGE (u : oa_usage)
  | ERROR (value : option jval)
  | FINISH (reason : option bytes) (stop : tny_stop_reason)
  | DONE
  | HOSTED_START (hid : bytes)
  | HOSTED_END (hid : bytes) (hok : bool).

(** What is kept for the next request; an array that was not made is empty. *)
Record decoder_state := mk_decoder { details : list jval; items : list jval; hosted_items : list jval; reasoning : bytes }.

Definition decoder0 : decoder_state := mk_decoder [] [] [] [].

(** ** Values *)

(** The string of the member is the expected one. *)
Definition is_string (value : option jval) (key expected : bytes) : bool :=
  match jget_str value key with Some s => str_eq s expected | None => false end.

Definition error_value (v : option jval) : bool :=
  match v with Some (JObj _) => true | Some (JStr (_ :: _)) => true | _ => false end.

Definition int_of (v : option jval) : option Z :=
  match v with Some (JNum (JUint k)) => Some (as_sint k) | Some (JNum (JSint k)) => Some k | _ => None end.

Definition number (v : option jval) : option Z :=
  match v with
  | Some (JNum (JReal m e)) => if real_in_int64 m e then Some (real_trunc m e) else None
  | _ => int_of v
  end.

(** An event for a text that is not empty. *)
Definition text_event (kind : bytes -> oa_decoded_event) (text : option bytes) : list oa_decoded_event :=
  match text with Some ((_ :: _) as s) => [kind s] | _ => [] end.

Definition failure (err : option jval) : list oa_decoded_event := [ERROR err; DONE].

Definition usage (value : option jval) (chat : bool) : list oa_decoded_event :=
  let input := jget value (if chat then B"prompt_tokens" else B"input_tokens") in
  let output := jget value (if chat then B"completion_tokens" else B"output_tokens") in
  let d := jget value (if chat then B"prompt_tokens_details" else B"input_tokens_details") in
  if negb (bool_decide (is_Some (int_of input))) && negb (bool_decide (is_Some (int_of output))) then []
  else [USAGE (mk_usage (number input) (number output) (number (jget d B"cached_tokens")) (number (jget d B"cache_write_tokens")))].

(** ** Reasoning details *)

Definition textual (name : bytes) : bool := str_eq name B"text" || str_eq name B"summary" || str_eq name B"data".

(** A fragment's member goes into the item it belongs to. *)
Definition merge_member (item : list (bytes * jval)) (m : bytes * jval) : list (bytes * jval) :=
  let name := c_str m.1 in
  match m.2, assoc name item with
  | JNull, _ => item
  | v, None | v, Some JNull => obj_put name v item
  | JStr s, Some (JStr have) => if textual name then obj_put name (JStr (have ++ s)) item else item
  | _, Some _ => item
  end.

Definition has_index (ix : Z) (v : jval) : bool :=
  match int_of (jget (Some v) B"index") with Some k => k =? ix | None => false end.

(** The first item for which [p] holds is changed. *)
Fixpoint change_first (p : jval -> bool) (f : jval -> jval) (vs : list jval) : option (list jval) :=
  match vs with
  | [] => None
  | v :: vs => if p v then Some (f v :: vs) else cons v <$> change_first p f vs
  end.

Definition merge_into (frag : list (bytes * jval)) (v : jval) : jval :=
  match v with JObj ms => JObj (fold_left merge_member frag ms) | _ => v end.

Definition merge_detail (arr : list jval) (frag : jval) : list jval :=
  match frag with
  | JObj ms =>
    let ix := default (-1) (int_of (jget (Some frag) B"index")) in
    if ix <? 0 then arr ++ [frag]
    else default (arr ++ [frag]) (change_first (has_index ix) (merge_into ms) arr)
  | _ => arr
  end.

Definition merge_details (arr details : list jval) : list jval := fold_left merge_detail details arr.

(** ** Reasoning items *)

Definition has_item_id (i : bytes) (v : jval) : bool :=
  match jget_str (Some v) B"id" with Some i' => str_eq i' i | None => false end.

(** Every member but the status. *)
Definition put_members (ms item : list (bytes * jval)) : list (bytes * jval) :=
  fold_left (fun item '(k, v) => if str_eq (c_str k) B"status" then item else obj_put (c_str k) v item) ms item.

Definition put_into (ms : list (bytes * jval)) (v : jval) : jval := match v with JObj item => JObj (put_members ms item) | _ => v end.

Definition reasoning_item (s : decoder_state) (item : option jval) : decoder_state :=
  match jget_str item B"encrypted_content" with
  | Some (_ :: _) =>
    let ms := obj_members item in
    let fresh := items s ++ [JObj (put_members ms [])] in
    let found := match jget_str item B"id" with Some i => change_first (has_item_id i) (put_into ms) (items s) | None => None end in
    mk_decoder (details s) (default fresh found) (hosted_items s) (reasoning s)
  | _ => s
  end.

(** ** Hosted searches and messages *)

Definition finished (v : option jval) : bool := is_string v B"status" B"completed" || is_string v B"status" B"failed".

Definition url_prefix (url : bytes) : bool :=
  str_eq (take 8 url) B"https://" || str_eq (take 7 url) B"http://".

Definition citation (annotation : jval) : list oa_decoded_event :=
  let v := Some annotation in
  match jget_str v B"url" with
  | Some url =>
    if is_string v B"type" B"url_citation" && url_prefix url
    then [TEXT ([LF] ++ B"[" ++ default B"Source" (jget_str v B"title") ++ B"](" ++ url ++ B")" ++ [LF])]
    else []
  | None => []
  end.

Definition citations (item : option jval) : list oa_decoded_event :=
  flat_map (fun part => flat_map citation (arr_items (jget (Some part) B"annotations"))) (arr_items (jget item B"content")).

Definition hosted_item (s : decoder_state) (item : option jval) (hosted : bool) : decoder_state * list oa_decoded_event :=
  if negb hosted then (s, if is_string item B"type" B"web_search_call" then failure (jget item B"type") else [])
  else
    match jget_str item B"type", jget_str item B"id", item with
    | Some type, Some i, Some v =>
      let search := str_eq type B"web_search_call" in
      let done := finished item in
      if negb search && negb (str_eq type B"message") then (s, [])
      else if negb search && negb done then (s, [])
      else
        let old := List.find (has_item_id i) (hosted_items s) in
        let was_done := match old with Some o => finished (Some o) | None => false end in
        let hosted_items :=
          match old with
          | Some _ => if negb was_done || done then default (hosted_items s) (change_first (has_item_id i) (fun _ => v) (hosted_items s)) else hosted_items s
          | None => hosted_items s ++ [v]
          end in
        (mk_decoder (details s) (items s) hosted_items (reasoning s),
         if search
         then (if bool_decide (is_Some old) then [] else [HOSTED_START i]) ++
              (if done && negb was_done then [HOSTED_END i (is_string item B"status" B"completed")] else [])
         else if negb was_done then citations item else [])
    | _, _, _ => (s, [])
    end.

Definition hosted_output (s : decoder_state) (response : option jval) (hosted : bool) : decoder_state * list oa_decoded_event :=
  fold_left (fun '(s, evs) item =>
      let '(s, new) := hosted_item s (Some item) hosted in
      (if is_string (Some item) B"type" B"reasoning" then reasoning_item s (Some item) else s, evs ++ new))
    (arr_items (jget response B"output")) (s, []).

(** ** Chat Completions *)

(** A tool name with a NUL in it. *)
Definition cut_name (tc : jval) : option jval :=
  match jget (jget (Some tc) B"function") B"name" with
  | Some (JStr s) => if mem_byte NUL s then Some (JStr s) else None
  | _ => None
  end.

Fixpoint first_cut (tcs : list jval) : option jval :=
  match tcs with
  | [] => None
  | tc :: tcs => match cut_name tc with Some v => Some v | None => first_cut tcs end
  end.

Definition chat_finish (choice : option jval) : list oa_decoded_event :=
  match jget_str choice B"finish_reason" with
  | Some fr =>
    if str_eq fr B"length" then [FINISH (Some fr) STOP_STEP_LIMIT]
    else if str_eq fr B"content_filter" then [FINISH (Some fr) STOP_DENIED]
    else (if str_eq fr B"error" then failure None else []) ++ [FINISH (Some fr) STOP_DONE]
  | None => []
  end.

Definition strn (v : option jval) (key : bytes) : option bytes := fst (jget_strn v key).

(** The reasoning of a delta: what is kept, and what is shown. *)
Definition chat_reasoning (s : decoder_state) (delta : option jval) : decoder_state * list oa_decoded_event :=
  match strn delta B"reasoning_content" with
  | Some ((_ :: _) as r) => (mk_decoder (details s) (items s) (hosted_items s) (reasoning s ++ r), [THINKING r])
  | _ => (s, text_event THINKING (strn delta B"reasoning"))
  end.

Definition chat_details (s : decoder_state) (delta : option jval) : decoder_state * list oa_decoded_event :=
  match jget delta B"reasoning_details" with
  | Some (JArr ds) =>
    (mk_decoder (merge_details (details s) ds) (items s) (hosted_items s) (reasoning s),
     match strn delta B"reasoning_content", jget delta B"reasoning" with
     | None, None =>
       flat_map (fun d => text_event THINKING (match strn (Some d) B"text" with Some t => Some t | None => strn (Some d) B"summary" end)) ds
     | _, _ => []
     end)
  | _ => (s, [])
  end.

(** What decoding gives: [None] is an allocation failure. *)
Definition decoded : Type := option (decoder_state * list oa_decoded_event * oa_callset).

Definition chat_decode (s : decoder_state) (calls : oa_callset) (root : option jval) : decoded :=
  let err := jget root B"error" in
  if error_value err then Some (s, failure err, calls)
  else
    let use := usage (jget root B"usage") true in
    match arr_items (jget root B"choices") with
    | [] => Some (s, use, calls)
    | choice :: _ =>
      let choice := Some choice in
      let delta := match jget choice B"delta" with Some d => Some d | None => jget choice B"message" end in
      let text := text_event TEXT (strn delta B"content") in
      let '(s, thinking) := chat_reasoning s delta in
      let '(s, detailed) := chat_details s delta in
      let evs := use ++ chat_finish choice ++ text ++ thinking ++ detailed in
      match first_cut (arr_items (jget delta B"tool_calls")) with
      | Some name => Some (s, evs ++ failure (Some name), calls)
      | None =>
        let '(calls, rc) := oa_calls_feed true calls (jget delta B"tool_calls") in
        if rc =? TNY_PARSE_OK then Some (s, evs, calls) else None
      end
    end.

(** ** Responses *)

Definition incomplete (response : option jval) : oa_decoded_event :=
  let denied := match jget_str (jget response B"incomplete_details") B"reason" with
                | Some reason => contains B"content_filter" reason
                | None => false
                end in
  FINISH None (if denied then STOP_DENIED else STOP_STEP_LIMIT).

Definition output_index (root : option jval) (fallback : Z) : Z :=
  match jget root B"output_index" with
  | Some v => default (-1) (number (Some v))
  | None => fallback
  end.

Definition call_item (calls : oa_callset) (ix : Z) (item : option jval) (whole : bool) : option oa_callset :=
  let name := match strn item B"name" with
              | Some s => Some (if mem_byte NUL s then B"invalid tool name" else s)
              | None => None
              end in
  let args := match jget_str item B"arguments" with
              | Some [] => if whole then Some [] else None
              | args => args
              end in
  let '(calls, rc) := oa_calls_item true calls ix (jget_str item B"call_id") name args true false in
  if rc =? TNY_PARSE_OK then Some calls else None.

Definition message_texts (item : option jval) : list oa_decoded_event :=
  flat_map (fun part => if is_string (Some part) B"type" B"output_text" then text_event TEXT (strn (Some part) B"text") else [])
    (arr_items (jget item B"content")).

(** One item of a response that comes as a whole. *)
Definition whole_item (r : decoded) (item : jval) : decoded :=
  '(s, evs, calls) ← r;
  let v := Some item in
  if is_string v B"type" B"message" then Some (s, evs ++ message_texts v, calls)
  else if is_string v B"type" B"function_call" then calls ← call_item calls (Z.of_nat (n calls)) v true; Some (s, evs, calls)
  else if is_string v B"type" B"reasoning" then Some (reasoning_item s v, evs, calls)
  else Some (s, evs, calls).

Definition whole_response (s : decoder_state) (calls : oa_callset) (root : option jval) (hosted : bool) : decoded :=
  '(s, evs, calls) ← fold_left whole_item (arr_items (jget root B"output")) (Some (s, [], calls));
  let '(s, new) := hosted_output s root hosted in
  let ending :=
    if is_string root B"status" B"failed" then [ERROR (match jget root B"error" with Some err => Some err | None => root end)]
    else if is_string root B"status" B"incomplete" then [incomplete root]
    else [] in
  Some (s, evs ++ new ++ usage (jget root B"usage") false ++ ending ++ [DONE], calls).

Definition responses_decode (s : decoder_state) (calls : oa_callset) (root : option jval) (hosted : bool) : decoded :=
  let response := jget root B"response" in
  match jget_str root B"type" with
  | None =>
    let err := jget root B"error" in
    if error_value err then Some (s, failure err, calls)
    else match jget root B"output" with Some (JArr _) => whole_response s calls root hosted | _ => Some (s, [], calls) end
  | Some type =>
    if str_eq type B"response.output_text.delta" then Some (s, text_event TEXT (strn root B"delta"), calls)
    else if str_eq type B"response.reasoning_summary_text.delta" || str_eq type B"response.reasoning_text.delta" then
      let evs := text_event THINKING (strn root B"delta") in
      Some (match evs with
            | [THINKING r] => if hosted then mk_decoder (details s) (items s) (hosted_items s) (reasoning s ++ r) else s
            | _ => s
            end, evs, calls)
    else if str_eq type B"response.output_item.added" || str_eq type B"response.output_item.done" then
      let item := jget root B"item" in
      let '(s, evs) := hosted_item s item hosted in
      let s := if is_string item B"type" B"reasoning" then reasoning_item s item else s in
      if is_string item B"type" B"function_call"
      then calls ← call_item calls (output_index root (Z.of_nat (n calls))) item false; Some (s, evs, calls)
      else Some (s, evs, calls)
    else if str_eq type B"response.function_call_arguments.delta" then
      let '(calls, rc) := oa_calls_item true calls (output_index root (-1)) None None (jget_str root B"delta") false true in
      if rc =? TNY_PARSE_OK then Some (s, [], calls) else None
    else if str_eq type B"response.completed" then
      let '(s, evs) := hosted_output s response hosted in
      Some (s, evs ++ usage (jget response B"usage") false ++ [DONE], calls)
    else if str_eq type B"response.incomplete" then
      Some (s, usage (jget response B"usage") false ++ [incomplete response; DONE], calls)
    else if str_eq type B"response.failed" || str_eq type B"error" then
      let err := match jget response B"error" with Some err => Some err | None => jget root B"error" end in
      Some (s, usage (jget response B"usage") false ++ failure (match err with Some err => Some err | None => root end), calls)
    else Some (s, [], calls)
  end.

(** ** The decoder *)

(** [state] is made by the first document; [dstatus] stays. *)
Record oa_decoder := mk_oa_decoder { state : option decoder_state; dstatus : Z }.

Definition oa_decoder_reset : oa_decoder := mk_oa_decoder None TNY_PARSE_OK.

Section decoder.
(** The JSON reader, the JSON writer and the consumer of events. *)
Context (jparse : bytes -> option jval) (jwrite : jval -> option bytes) {U : Type} (cb : U -> oa_decoded_event -> U * Z).

Fixpoint dispatch (u : U) (evs : list oa_decoded_event) : U * Z :=
  match evs with
  | [] => (u, TNY_PARSE_OK)
  | e :: evs => let '(u, rc) := cb u e in if rc =? 0 then dispatch u evs else (u, rc)
  end.

(** [oom]: an allocation failed, and what it left of the calls. *)
Definition oa_decoder_feed (oom : option oa_callset) (d : oa_decoder) (calls : oa_callset) (chat hosted : bool) (data : bytes) (u : U) :
    oa_decoder * oa_callset * U * Z :=
  let deliver s evs calls := let '(u, rc) := dispatch u evs in (mk_oa_decoder s rc, calls, u, rc) in
  if negb (dstatus d =? TNY_PARSE_OK) then (d, calls, u, dstatus d)
  else
    match oom with
    | Some calls => (mk_oa_decoder (state d) TNY_PARSE_OOM, calls, u, TNY_PARSE_OOM)
    | None =>
      if chat && (str_eq data B"[DONE]" || str_eq data B"DONE") then deliver (state d) [DONE] calls
      else
        match jparse data with
        | None => (d, calls, u, TNY_PARSE_INVALID)
        | Some root =>
          let s := default decoder0 (state d) in
          let r := if chat then chat_decode s calls (Some root) else responses_decode s calls (Some root) hosted in
          match r with
          | Some (s, evs, calls) => deliver (Some s) evs calls
          | None => (mk_oa_decoder (Some s) TNY_PARSE_OOM, calls, u, TNY_PARSE_OOM)
          end
        end
    end.

Definition extras (s : decoder_state) : list (bytes * jval) :=
  let arr key vs := match vs with [] => [] | _ => [(key, JArr vs)] end in
  arr B"reasoning_details" (details s) ++ arr B"reasoning_items" (items s) ++ arr B"responses_items" (hosted_items s) ++
  match reasoning s with [] => [] | r => [(B"reasoning_content", JStr r)] end.

(** The extras, and the status. *)
Definition oa_decoder_extras (d : oa_decoder) : oa_decoder * option bytes * Z :=
  match state d with
  | Some s =>
    if negb (dstatus d =? TNY_PARSE_OK) then (d, None, dstatus d)
    else
      match extras s with
      | [] => (d, None, TNY_PARSE_OK)
      | ms =>
        match jwrite (JObj ms) with
        | Some text => (d, Some text, TNY_PARSE_OK)
        | None => (mk_oa_decoder (state d) TNY_PARSE_OOM, None, TNY_PARSE_OOM)
        end
      end
  | None => (d, None, dstatus d)
  end.

End decoder.

(** ** A response in pieces *)

(** The documents one after another; [None] is an allocation failure. *)
Fixpoint decode_docs (s : decoder_state) (calls : oa_callset) (docs : list jval) (hosted : bool) : decoded :=
  match docs with
  | [] => Some (s, [], calls)
  | d :: docs =>
    '(s, evs, calls) ← responses_decode s calls (Some d) hosted;
    '(s, later, calls) ← decode_docs s calls docs hosted;
    Some (s, evs ++ later, calls)
  end.

Definition type_of (d : jval) : option bytes := jget_str (Some d) B"type".

(** An event about an output item, about a piece of text, of arguments. *)
Definition item_doc (d : jval) (k : Z) (item : jval) : Prop :=
  (type_of d = Some B"response.output_item.added" \/ type_of d = Some B"response.output_item.done") /\
  jget (Some d) B"output_index" = Some (JNum (JUint k)) /\ jget (Some d) B"item" = Some item.
Definition text_doc (d : jval) (t : bytes) : Prop := type_of d = Some B"response.output_text.delta" /\ strn (Some d) B"delta" = Some t.
Definition args_doc (d : jval) (k : Z) : Prop :=
  type_of d = Some B"response.function_call_arguments.delta" /\ jget (Some d) B"output_index" = Some (JNum (JUint k)).

Definition text_of (evs : list oa_decoded_event) : bytes := concat (omap (fun e => match e with TEXT t => Some t | _ => None end) evs).
Definition others (evs : list oa_decoded_event) : list oa_decoded_event := List.filter (fun e => match e with TEXT _ => false | _ => true end) evs.

(** A call that names itself. *)
Record call_value (item : jval) (cid nm a : bytes) : Prop := {
  cv_type : type_of item = Some B"function_call";
  cv_id : jget_str (Some item) B"call_id" = Some cid; cv_given : cid <> [];
  cv_name : strn (Some item) B"name" = Some nm; cv_plain : mem_byte NUL nm = false;
  cv_args : jget_str (Some item) B"arguments" = Some a; cv_some : a <> [] }.

(** What announces it: the same call without arguments. *)
Record call_start (skel : jval) (cid nm : bytes) : Prop := {
  cs_type : type_of skel = Some B"function_call";
  cs_id : jget_str (Some skel) B"call_id" = Some cid;
  cs_name : strn (Some skel) B"name" = Some nm;
  cs_args : jget_str (Some skel) B"arguments" = None \/ jget_str (Some skel) B"arguments" = Some [] }.

(** The documents of output item [k]; [used] are the identifiers of calls
    before it, and after it. *)
Inductive segment (k : Z) (item : jval) : list bytes -> list jval -> list bytes -> Prop :=
  | segment_message used ds pieces :
      type_of item = Some B"message" -> Forall2 (fun d p => text_doc d p \/ p = [] /\ exists skel, type_of skel = Some B"message" /\ item_doc d k skel) ds pieces ->
      concat pieces = text_of (message_texts (Some item)) -> segment k item used ds used
  | segment_call used added skel deltas finish cid nm a :
      call_value item cid nm a -> call_start skel cid nm -> ~ In cid used ->
      item_doc added k skel -> Forall (fun d => args_doc d k) deltas -> item_doc finish k item ->
      segment k item used (added :: deltas ++ [finish]) (cid :: used)
  | segment_reasoning used starts skel finish :
      type_of item = Some B"reasoning" -> type_of skel = Some B"reasoning" -> jget_str (Some skel) B"encrypted_content" = None ->
      Forall (fun d => item_doc d k skel) starts -> item_doc finish k item -> segment k item used (starts ++ [finish]) used.

(** The documents of all items from number [k]. *)
Inductive pieces_of (k : Z) (used : list bytes) : list jval -> list jval -> Prop :=
  | pieces_none : pieces_of k used [] []
  | pieces_item item items ds docs used' :
      k <= INT_MAX -> segment k item used ds used' -> pieces_of (k + 1) used' items docs ->
      pieces_of k used (item :: items) (ds ++ docs).

(** ** Lemmas: single documents *)

Lemma is_string_true v key s t : jget_str v key = Some s -> is_string v key t = str_eq s t.
Proof. unfold is_string. by intros ->. Qed.

Lemma text_of_app a b : text_of (a ++ b) = text_of a ++ text_of b.
Proof. unfold text_of. by rewrite omap_app, concat_app. Qed.

Lemma others_app a b : others (a ++ b) = others a ++ others b.
Proof. apply List.filter_app. Qed.

Lemma text_event_text t : text_of (text_event TEXT (Some t)) = t /\ others (text_event TEXT (Some t)) = [].
Proof. destruct t as [|c t]; [done|]. unfold text_of. cbn. by rewrite app_nil_r. Qed.

(** Items that are not searches change nothing by themselves. *)
Lemma hosted_item_off s item t : type_of item = Some t -> str_eq t B"web_search_call" = false -> hosted_item s (Some item) false = (s, []).
Proof. intros Ht Hw. unfold hosted_item. cbn [negb]. by rewrite (is_string_true _ _ _ _ Ht), Hw. Qed.

Lemma decode_text s calls d t : text_doc d t -> responses_decode s calls (Some d) false = Some (s, text_event TEXT (Some t), calls).
Proof. intros [Ht Hd]. unfold responses_decode. unfold type_of in Ht. rewrite Ht, Hd. done. Qed.

(** An item event, by the type of its item. *)
Lemma decode_item s calls d k item t : item_doc d k item -> type_of item = Some t -> str_eq t B"web_search_call" = false ->
  responses_decode s calls (Some d) false =
  (let s := if str_eq t B"reasoning" then reasoning_item s (Some item) else s in
   if str_eq t B"function_call" then calls ← call_item calls (as_sint k) (Some item) false; Some (s, [], calls) else Some (s, [], calls)).
Proof.
  intros (Hty & Hk & Hi) Ht Hw. unfold responses_decode. unfold type_of in Hty.
  assert (output_index (Some d) (Z.of_nat (n calls)) = as_sint k) as Ho by (unfold output_index; by rewrite Hk).
  destruct Hty as [->| ->]; cbn -[jget is_string hosted_item call_item output_index]; rewrite Hi, (hosted_item_off _ _ _ Ht Hw), Ho, !(is_string_true _ _ _ _ Ht); done.
Qed.

Lemma decode_args s calls d k : args_doc d k -> status calls = TNY_PARSE_OK ->
  exists a, responses_decode s calls (Some d) false = Some (s, [], fst (oa_calls_item true calls (as_sint k) None None a false true)).
Proof.
  intros [Hty Hk] Hs. exists (jget_str (Some d) B"delta"). unfold responses_decode. unfold type_of in Hty. rewrite Hty.
  cbn -[jget jget_str oa_calls_item output_index]. assert (output_index (Some d) (-1) = as_sint k) as -> by (unfold output_index; by rewrite Hk).
  unfold oa_calls_item. rewrite Hs. cbn [Z.eqb negb TNY_PARSE_OK]. by destruct (negb (valid_index _) || _).
Qed.

(** ** Lemmas: the calls *)

Definition item_step (cs : list call) (ix : Z) (i nm a : option bytes) (replace append_only : bool) : list call :=
  let '(cs, slot) := select cs i (Some ix) append_only in
  match slot with Some k => alter (update i nm a replace) k cs | None => cs end.

(** A set of calls that is in use. *)
Definition in_use (cs : oa_callset) : Prop := callset_ok cs /\ status cs = TNY_PARSE_OK.

Lemma take_in_item_step cs i nm a ix replace append_only :
  items_of (take_in cs (items_of cs) i nm a (Some ix) replace append_only) = item_step (items_of cs) ix i nm a replace append_only.
Proof. unfold take_in, item_step. by destruct (select (items_of cs) i (Some ix) append_only) as [its [k|]]. Qed.

Lemma calls_item_step cs ix i nm a replace append_only : in_use cs -> 0 <= ix <= INT_MAX -> (append_only = true -> i = None) ->
  snd (oa_calls_item true cs ix i nm a replace append_only) = TNY_PARSE_OK /\
  in_use (fst (oa_calls_item true cs ix i nm a replace append_only)) /\
  items_of (fst (oa_calls_item true cs ix i nm a replace append_only)) = item_step (items_of cs) ix i nm a replace append_only.
Proof.
  intros [Hok Hs] Hix Hi. unfold oa_calls_item. rewrite Hs. cbn [Z.eqb negb TNY_PARSE_OK].
  assert (valid_index ix = true) as -> by (unfold valid_index; rewrite (proj2 (Z.leb_le _ _)), (proj2 (Z.leb_le _ _)) by lia; done). cbn [negb orb].
  destruct append_only; cbn [andb].
  - destruct (owner cs) as [its|] eqn:Eo; cbn [negb].
    + rewrite bool_decide_eq_true_2 by done. cbn [negb fst snd default]. split; [done|]. split; [split|].
      * pose proof (take_in_ok cs i nm a (Some ix) replace true Hok Hs) as [H _]. by rewrite Eo in H.
      * pose proof (take_in_ok cs i nm a (Some ix) replace true Hok Hs) as [_ H]. by rewrite Eo in H.
      * rewrite <- take_in_item_step. assert (items_of cs = its) as -> by (unfold items_of; by rewrite Eo). done.
    + rewrite bool_decide_eq_false_2 by (by intros [? ?]). cbn [negb fst snd]. split; [done|]. split; [done|].
      unfold items_of. rewrite Eo, (Hi eq_refl). done.
  - cbn [fst snd]. split; [done|]. split; [by apply take_in_ok|]. apply take_in_item_step.
Qed.

Definition with_call (its : list call) (k : Z) (cid nm a : bytes) : list call :=
  if (length its =? OA_MAX_TOOL_CALLS)%nat then its else its ++ [mk_call (Some cid) (Some nm) (Some a) k].

Lemma given_nonempty cid : cid <> [] -> present (Some cid) = Some cid.
Proof. by destruct cid. Qed.

Lemma by_id_last its c cid : Forall (fun c => id c <> Some cid) its -> id c = Some cid -> by_id (its ++ [c]) cid = Some (length its).
Proof.
  intros H Hc. induction H as [|c' its Hc' _ IH]; cbn [app by_id length].
  - unfold ToolCalls.has_id. by rewrite Hc, str_eq_refl.
  - rewrite IH. unfold ToolCalls.has_id. destruct (id c') as [i|]; [|done].
    assert (str_eq i cid = false) as -> by (apply str_eq_false; congruence). done.
Qed.

Lemma by_index_last its c : by_index (its ++ [c]) (index c) = Some (length its).
Proof. induction its as [|c' its IH]; cbn [app by_index length]; [by rewrite Z.eqb_refl|]. by rewrite IH. Qed.

(** A call that is not there yet. *)
Lemma item_step_fresh its ix cid nm a replace : cid <> [] -> Forall (fun c => id c <> Some cid) its -> Forall (fun c => index c <> ix) its ->
  item_step its ix (Some cid) (Some nm) a replace false =
  if (length its =? OA_MAX_TOOL_CALLS)%nat then its
  else its ++ [mk_call (Some cid) (Some nm) (match a with Some a => Some a | None => None end) ix].
Proof.
  intros Hg Hid Hix. unfold item_step, select. rewrite (given_nonempty _ Hg), (proj2 (by_id_none _ _) Hid), (proj2 (by_index_none _ _) Hix).
  cbn [default]. unfold add. destruct (length its =? OA_MAX_TOOL_CALLS)%nat; [done|]. rewrite alter_last. unfold update. rewrite (given_nonempty _ Hg).
  cbn. destruct a; [|done]. by destruct replace.
Qed.

Lemma item_step_last its c ix a : index c = ix ->
  item_step (its ++ [c]) ix None None a false true = its ++ [update None None a false c].
Proof. intros <-. unfold item_step, select. cbn [present]. rewrite by_index_last. by rewrite alter_last. Qed.

Lemma item_step_finish its c ix cid nm a : cid <> [] -> Forall (fun c => id c <> Some cid) its -> id c = Some cid ->
  item_step (its ++ [c]) ix (Some cid) (Some nm) (Some a) true false = its ++ [update (Some cid) (Some nm) (Some a) true c].
Proof.
  intros Hg Hid Hc. unfold item_step, select. rewrite (given_nonempty _ Hg), (by_id_last _ _ _ Hid Hc). by rewrite alter_last.
Qed.

Lemma item_step_missing its ix a : Forall (fun c => index c <> ix) its -> item_step its ix None None a false true = its.
Proof. intros Hix. unfold item_step, select. cbn [present]. by rewrite (proj2 (by_index_none _ _) Hix). Qed.

(** [call_item] on a callset in use. *)
Lemma call_item_live cs ix item (whole : bool) cid nm a : in_use cs -> 0 <= ix <= INT_MAX ->
  jget_str (Some item) B"call_id" = Some cid -> strn (Some item) B"name" = Some nm -> mem_byte NUL nm = false ->
  match jget_str (Some item) B"arguments" with Some [] => if whole then @Some bytes [] else None | args => args end = a ->
  exists cs', call_item cs ix (Some item) whole = Some cs' /\ in_use cs' /\ items_of cs' = item_step (items_of cs) ix (Some cid) (Some nm) a true false.
Proof.
  intros Hl Hix Hc Hn Hp Ha. unfold call_item. rewrite Hc, Hn, Hp, Ha.
  destruct (calls_item_step cs ix (Some cid) (Some nm) a true false Hl Hix ltac:(done)) as (Hrc & Hl' & Hit).
  destruct (oa_calls_item _ _ _ _ _ _ _ _) as [cs' rc]. cbn [fst snd] in *. rewrite Hrc. exists cs'. done.
Qed.

(** ** Lemmas: the documents of one item *)

Lemma decode_docs_app s calls a b hosted :
  decode_docs s calls (a ++ b) hosted =
  ('(s, evs, calls) ← decode_docs s calls a hosted; '(s, later, calls) ← decode_docs s calls b hosted; Some (s, evs ++ later, calls)).
Proof.
  revert s calls. induction a as [|d a IH]; intros s calls; cbn [app decode_docs mbind option_bind].
  - by destruct (decode_docs s calls b hosted) as [[[] ]|].
  - destruct (responses_decode s calls (Some d) hosted) as [[[s1 evs] c1]|]; cbn [mbind option_bind]; [|done]. rewrite IH.
    destruct (decode_docs s1 c1 a hosted) as [[[s2 evs2] c2]|]; cbn [mbind option_bind]; [|done].
    destruct (decode_docs s2 c2 b hosted) as [[[s3 evs3] c3]|]; cbn [mbind option_bind]; [|done]. by rewrite app_assoc.
Qed.

Lemma decode_docs_one s calls d hosted : decode_docs s calls [d] hosted = responses_decode s calls (Some d) hosted.
Proof. cbn. destruct (responses_decode s calls (Some d) hosted) as [[[s1 evs] c1]|]; [|done]. cbn. by rewrite app_nil_r. Qed.

Lemma as_sint_small k : 0 <= k <= INT_MAX -> as_sint k = k.
Proof. intros H. unfold as_sint. rewrite (proj2 (Z.leb_le _ _)); [done|]. unfold INT_MAX, INT64_MAX in *. lia. Qed.

(** Argument pieces only change the arguments of the call they belong to. *)
Lemma decode_deltas s calls deltas k its c : in_use calls -> 0 <= k <= INT_MAX -> Forall (fun d => args_doc d k) deltas ->
  items_of calls = its ++ [c] -> index c = k ->
  exists calls' c', decode_docs s calls deltas false = Some (s, [], calls') /\ in_use calls' /\ items_of calls' = its ++ [c'] /\
    index c' = k /\ id c' = id c /\ name c' = name c.
Proof.
  intros Hl Hk Hd. revert calls c Hl. induction Hd as [|d deltas Hd _ IH]; intros calls c Hl Hi Hc; [by exists calls, c|].
  cbn [decode_docs]. destruct (decode_args s calls d k Hd (proj2 Hl)) as [a ->]. cbn [mbind option_bind]. rewrite as_sint_small by done.
  destruct (calls_item_step calls k None None a false true Hl Hk ltac:(done)) as (_ & Hl' & Hit). rewrite Hi, item_step_last in Hit by done.
  destruct (IH _ _ Hl' Hit) as (calls' & c' & -> & Hl2 & Hi2 & H1 & H2 & H3); [done|]. cbn [mbind option_bind app]. by exists calls', c'.
Qed.

Lemma decode_deltas_missing s calls deltas k : in_use calls -> 0 <= k <= INT_MAX -> Forall (fun d => args_doc d k) deltas ->
  Forall (fun c => index c <> k) (items_of calls) ->
  exists calls', decode_docs s calls deltas false = Some (s, [], calls') /\ in_use calls' /\ items_of calls' = items_of calls.
Proof.
  intros Hl Hk Hd. revert calls Hl. induction Hd as [|d deltas Hd _ IH]; intros calls Hl Hi; [by exists calls|].
  cbn [decode_docs]. destruct (decode_args s calls d k Hd (proj2 Hl)) as [a ->]. cbn [mbind option_bind]. rewrite as_sint_small by done.
  destruct (calls_item_step calls k None None a false true Hl Hk ltac:(done)) as (_ & Hl' & Hit). rewrite item_step_missing in Hit by done.
  rewrite <- Hit in Hi. destruct (IH _ Hl' Hi) as (calls' & -> & Hl2 & Hi2). cbn [mbind option_bind app]. exists calls'. by rewrite Hi2, Hit.
Qed.

Lemma decode_call_doc s calls d k item cid nm a : in_use calls -> 0 <= k <= INT_MAX -> item_doc d k item -> type_of item = Some B"function_call" ->
  jget_str (Some item) B"call_id" = Some cid -> strn (Some item) B"name" = Some nm -> mem_byte NUL nm = false ->
  match jget_str (Some item) B"arguments" with Some [] => None | args => args end = a ->
  exists calls', responses_decode s calls (Some d) false = Some (s, [], calls') /\ in_use calls' /\
    items_of calls' = item_step (items_of calls) k (Some cid) (Some nm) a true false.
Proof.
  intros Hl Hk Hd Ht Hc Hn Hp Ha. rewrite (decode_item s calls d k item _ Hd Ht eq_refl), as_sint_small by done.
  change (str_eq B"function_call" B"reasoning") with false. change (str_eq B"function_call" B"function_call") with true. cbn zeta iota.
  destruct (call_item_live calls k item false cid nm a Hl Hk Hc Hn Hp Ha) as (calls' & -> & Hl' & Hi). by exists calls'.
Qed.

Lemma decode_call_segment s calls added skel deltas finish k item cid nm a : in_use calls -> 0 <= k <= INT_MAX ->
  call_value item cid nm a -> call_start skel cid nm -> item_doc added k skel -> Forall (fun d => args_doc d k) deltas -> item_doc finish k item ->
  Forall (fun c => id c <> Some cid) (items_of calls) -> Forall (fun c => index c <> k) (items_of calls) ->
  exists calls', decode_docs s calls (added :: deltas ++ [finish]) false = Some (s, [], calls') /\ in_use calls' /\
    items_of calls' = with_call (items_of calls) k cid nm a.
Proof.
  intros Hl Hk Hv Hs Hadd Hdel Hfin Hid Hix. destruct Hv as [Ht Hcid Hg Hn Hp Ha Hne].
  destruct (decode_call_doc s calls added k skel cid nm None Hl Hk Hadd (cs_type _ _ _ Hs) (cs_id _ _ _ Hs) (cs_name _ _ _ Hs) Hp) as (c1 & E1 & Hl1 & Hi1).
  { destruct (cs_args _ _ _ Hs) as [->| ->]; done. }
  rewrite item_step_fresh in Hi1 by done. cbn [decode_docs]. rewrite E1. cbn [mbind option_bind]. rewrite decode_docs_app.
  assert (match jget_str (Some item) B"arguments" with Some [] => None | args => args end = Some a) as Ha' by (rewrite Ha; by destruct a).
  unfold with_call. destruct (length (items_of calls) =? OA_MAX_TOOL_CALLS)%nat eqn:Efull.
  - rewrite <- Hi1 in Hix, Hid. destruct (decode_deltas_missing s c1 deltas k Hl1 Hk Hdel Hix) as (c2 & -> & Hl2 & Hi2). cbn [mbind option_bind]. rewrite decode_docs_one.
    rewrite <- Hi2 in Hix, Hid.
    destruct (decode_call_doc s c2 finish k item cid nm (Some a) Hl2 Hk Hfin Ht Hcid Hn Hp Ha') as (c3 & -> & Hl3 & Hi3). cbn [mbind option_bind app].
    exists c3. split; [done|]. split; [done|]. by rewrite Hi3, item_step_fresh, Hi2, Hi1, Efull.
  - destruct (decode_deltas s c1 deltas k _ _ Hl1 Hk Hdel Hi1 eq_refl) as (c2 & c' & -> & Hl2 & Hi2 & H1 & H2 & H3). cbn [mbind option_bind]. rewrite decode_docs_one.
    destruct (decode_call_doc s c2 finish k item cid nm (Some a) Hl2 Hk Hfin Ht Hcid Hn Hp Ha') as (c3 & -> & Hl3 & Hi3). cbn [mbind option_bind app].
    exists c3. split; [done|]. split; [done|]. rewrite Hi3, Hi2, item_step_finish by done. f_equal. f_equal.
    unfold update. cbn in H2, H3. rewrite (given_nonempty _ Hg), H1, H2, H3. done.
Qed.

Lemma decode_message_segment s calls ds pieces k : Forall2 (fun d p => text_doc d p \/ p = [] /\ exists skel, type_of skel = Some B"message" /\ item_doc d k skel) ds pieces ->
  exists evs, decode_docs s calls ds false = Some (s, evs, calls) /\ text_of evs = concat pieces /\ others evs = [].
Proof.
  induction 1 as [|d p ds pieces Hd _ (evs & E & Ht & Ho)]; [by exists []|]. cbn [decode_docs].
  destruct Hd as [Hd|[-> (skel & Hsk & Hd)]].
  - rewrite (decode_text s calls d p Hd). cbn [mbind option_bind]. rewrite E. cbn [mbind option_bind]. eexists. split; [done|].
    destruct (text_event_text p) as [H1 H2]. by rewrite text_of_app, others_app, H1, H2, Ht, Ho.
  - rewrite (decode_item s calls d k skel _ Hd Hsk eq_refl). change (str_eq B"message" B"reasoning") with false.
    change (str_eq B"message" B"function_call") with false. cbn iota. cbn [mbind option_bind]. rewrite E. cbn [mbind option_bind app]. by exists evs.
Qed.

Lemma decode_reasoning_segment s calls starts skel finish item k : type_of item = Some B"reasoning" -> type_of skel = Some B"reasoning" ->
  jget_str (Some skel) B"encrypted_content" = None -> Forall (fun d => item_doc d k skel) starts -> item_doc finish k item ->
  decode_docs s calls (starts ++ [finish]) false = Some (reasoning_item s (Some item), [], calls).
Proof.
  intros Ht Hsk He Hst Hfin. induction Hst as [|d starts Hd _ IH]; cbn [app].
  - rewrite decode_docs_one, (decode_item s calls finish k item _ Hfin Ht eq_refl). done.
  - cbn [decode_docs]. rewrite (decode_item s calls d k skel _ Hd Hsk eq_refl). change (str_eq B"reasoning" B"reasoning") with true.
    change (str_eq B"reasoning" B"function_call") with false. cbn iota. cbn [mbind option_bind].
    assert (reasoning_item s (Some skel) = s) as -> by (unfold reasoning_item; by rewrite He). by rewrite IH.
Qed.

(** ** Lemmas: pieces against the whole *)

(** The calls of a stream at item [k] and those of the response so far. *)
Record alike (k : Z) (used : list bytes) (stream whole : oa_callset) : Prop := {
  al_stream : in_use stream; al_whole : in_use whole;
  al_core : map core (items_of stream) = map core (items_of whole);
  al_index : Forall (fun c => index c < k) (items_of stream);
  al_slots : Forall (fun c => index c < Z.of_nat (length (items_of whole))) (items_of whole);
  al_used : Forall (fun c => exists cid, id c = Some cid /\ In cid used) (items_of stream) }.

Lemma alike_weaken k k' used stream whole : alike k used stream whole -> k <= k' -> alike k' used stream whole.
Proof. intros [] Hk. constructor; try done. eapply Forall_impl; [|exact al_index0]. cbn beta. lia. Qed.

Lemma core_ids its its' cid : map core its = map core its' -> Forall (fun c => id c <> Some cid) its -> Forall (fun c => id c <> Some cid) its'.
Proof.
  revert its'. induction its as [|c its IH]; intros [|c' its'] E H; try done. injection E as Ei _ _ E.
  apply Forall_cons_iff in H as [H1 H2]. constructor; [congruence|by apply IH].
Qed.

Lemma with_call_core its its' k k' cid nm a : map core its = map core its' -> map core (with_call its k cid nm a) = map core (with_call its' k' cid nm a).
Proof.
  intros E. assert (length its = length its') as Hl by (rewrite <- (length_map core its), E; apply length_map).
  unfold with_call. rewrite Hl. destruct (_ =? _)%nat; [done|]. rewrite !map_app. by rewrite E.
Qed.

Lemma Forall_with_call (P : call -> Prop) its k cid nm a : Forall P its -> P (mk_call (Some cid) (Some nm) (Some a) k) -> Forall P (with_call its k cid nm a).
Proof. intros H1 H2. unfold with_call. destruct (_ =? _)%nat; [done|]. apply Forall_app. split; [done|by constructor]. Qed.

Lemma live_count cs : in_use cs -> n cs = length (items_of cs) /\ (length (items_of cs) <= OA_MAX_TOOL_CALLS)%nat.
Proof. intros [[_ [Hn Hle] _ _] _]. unfold items_of. split; [done|lia]. Qed.

(** A call item in pieces and as a whole. *)
Lemma alike_call k used stream whole s item added skel deltas finish cid nm a : 0 <= k <= INT_MAX -> alike k used stream whole ->
  call_value item cid nm a -> call_start skel cid nm -> ~ In cid used ->
  item_doc added k skel -> Forall (fun d => args_doc d k) deltas -> item_doc finish k item ->
  exists stream' whole', decode_docs s stream (added :: deltas ++ [finish]) false = Some (s, [], stream') /\
    call_item whole (Z.of_nat (n whole)) (Some item) true = Some whole' /\ alike (k + 1) (cid :: used) stream' whole'.
Proof.
  intros Hk [Hls Hlw Hcore Hix Hsl Hus] Hv Hst Hnew Hadd Hdel Hfin. destruct (live_count _ Hlw) as [Hn Hle].
  assert (Forall (fun c => id c <> Some cid) (items_of stream)) as Hid.
  { eapply Forall_impl; [|exact Hus]. intros c (cid' & Hc & Hin) Hc'. congruence. }
  destruct (decode_call_segment s stream added skel deltas finish k item cid nm a) as (stream' & E1 & Hl1 & Hi1); try done.
  { eapply Forall_impl; [|exact Hix]; cbn beta; lia. }
  destruct (call_item_live whole (Z.of_nat (n whole)) item true cid nm (Some a)) as (whole' & E2 & Hl2 & Hi2);
    [done|unfold INT_MAX, OA_MAX_TOOL_CALLS in *; lia|by apply (cv_id _ _ _ _ Hv)|apply (cv_name _ _ _ _ Hv)|apply (cv_plain _ _ _ _ Hv)| |].
  { rewrite (cv_args _ _ _ _ Hv). by destruct a. }
  rewrite item_step_fresh in Hi2; [|apply (cv_given _ _ _ _ Hv)|by eapply core_ids|eapply Forall_impl; [|exact Hsl]; cbn beta; lia].
  fold (with_call (items_of whole) (Z.of_nat (n whole)) cid nm a) in Hi2. exists stream', whole'. split; [done|]. split; [done|].
  constructor; [done..| | | |].
  - rewrite Hi1, Hi2. by apply with_call_core.
  - rewrite Hi1. apply Forall_with_call; [|cbn; lia]. eapply Forall_impl; [|exact Hix]; cbn beta; lia.
  - rewrite Hi2. unfold with_call. destruct (_ =? _)%nat; [done|]. rewrite length_app. cbn [length]. apply Forall_app. split.
    + eapply Forall_impl; [|exact Hsl]; cbn beta; lia.
    + constructor; [cbn; lia|done].
  - rewrite Hi1. apply Forall_with_call; [|by exists cid; split; [|left]]. eapply Forall_impl; [|exact Hus]. intros c (cid' & ? & ?). exists cid'. split; [done|by right].
Qed.

Lemma whole_item_type s evs calls item t : type_of item = Some t ->
  whole_item (Some (s, evs, calls)) item =
  if str_eq t B"message" then Some (s, evs ++ message_texts (Some item), calls)
  else if str_eq t B"function_call" then calls ← call_item calls (Z.of_nat (n calls)) (Some item) true; Some (s, evs, calls)
  else if str_eq t B"reasoning" then Some (reasoning_item s (Some item), evs, calls)
  else Some (s, evs, calls).
Proof. intros Ht. cbn [whole_item mbind option_bind]. by rewrite !(is_string_true _ _ _ _ Ht). Qed.

Lemma message_texts_text item : others (message_texts item) = [].
Proof.
  unfold message_texts. induction (arr_items (jget item B"content")) as [|part parts IH]; [done|]. cbn [flat_map]. rewrite others_app, IH, app_nil_r.
  destruct (is_string _ _ _); [|done]. by destruct (strn (Some part) B"text") as [[|c t]|].
Qed.

(** One item: the same state, the same texts, calls alike. *)
Lemma alike_segment k used stream whole s item ds used' evsw : 0 <= k <= INT_MAX -> alike k used stream whole -> segment k item used ds used' ->
  exists s' evs new stream' whole', decode_docs s stream ds false = Some (s', evs, stream') /\
    whole_item (Some (s, evsw, whole)) item = Some (s', evsw ++ new, whole') /\
    text_of evs = text_of new /\ others evs = [] /\ others new = [] /\ alike (k + 1) used' stream' whole'.
Proof.
  intros Hk Hal Hseg. inversion Hseg; subst.
  - rewrite (whole_item_type _ _ _ _ _ H). destruct (decode_message_segment s stream ds pieces k H0) as (evs & E & Ht & Ho).
    exists s, evs, (message_texts (Some item)), stream, whole. split; [done|]. split; [done|]. split; [congruence|]. split; [done|].
    split; [apply message_texts_text|]. apply (alike_weaken k); [done|lia].
  - rewrite (whole_item_type _ _ _ _ _ (cv_type _ _ _ _ H)). change (str_eq B"function_call" B"message") with false.
    change (str_eq B"function_call" B"function_call") with true. cbn iota.
    destruct (alike_call k used stream whole s item added skel deltas finish cid nm a) as (stream' & whole' & E1 & E2 & Hal'); try done.
    rewrite E1, E2. exists s, [], [], stream', whole'. rewrite app_nil_r. done.
  - rewrite (whole_item_type _ _ _ _ _ H), (decode_reasoning_segment s stream starts skel finish item k) by done.
    exists (reasoning_item s (Some item)), [], [], stream, whole. rewrite app_nil_r. do 5 (split; [done|]). apply (alike_weaken k); [done|lia].
Qed.

Lemma alike_items k used items docs stream whole s evsw : 0 <= k -> alike k used stream whole -> pieces_of k used items docs ->
  exists s' evs new stream' whole', decode_docs s stream docs false = Some (s', evs, stream') /\
    fold_left whole_item items (Some (s, evsw, whole)) = Some (s', evsw ++ new, whole') /\
    text_of evs = text_of new /\ others evs = [] /\ others new = [] /\ map core (items_of stream') = map core (items_of whole').
Proof.
  intros Hk Hal Hp. revert stream whole s evsw Hk Hal. induction Hp as [k used|k used item items ds docs used' Hle Hseg _ IH]; intros stream whole s evsw Hk Hal.
  - exists s, [], [], stream, whole. rewrite app_nil_r. do 5 (split; [done|]). apply (al_core _ _ _ _ Hal).
  - destruct (alike_segment k used stream whole s item ds used' evsw ltac:(lia) Hal Hseg) as (s1 & evs1 & new1 & st1 & wh1 & E1 & F1 & T1 & O1 & N1 & Hal1).
    destruct (IH st1 wh1 s1 (evsw ++ new1) ltac:(lia) Hal1) as (s2 & evs2 & new2 & st2 & wh2 & E2 & F2 & T2 & O2 & N2 & Hc).
    exists s2, (evs1 ++ evs2), (new1 ++ new2), st2, wh2. rewrite decode_docs_app, E1. cbn [mbind option_bind]. rewrite E2. cbn [mbind option_bind fold_left].
    rewrite F1, F2, <- app_assoc, !text_of_app, !others_app, T1, T2, O1, O2, N1, N2. done.
Qed.

(** What ends a response. *)
Lemma hosted_output_events s root items : arr_items (jget root B"output") = items ->
  Forall (fun item => exists t, type_of item = Some t /\ str_eq t B"web_search_call" = false) items ->
  exists s', hosted_output s root false = (s', []).
Proof.
  intros E H. unfold hosted_output. rewrite E. clear E. revert s. induction H as [|item items (t & Ht & Hw) _ IH]; intros s; [by exists s|].
  cbn [fold_left]. rewrite (hosted_item_off _ _ _ Ht Hw), app_nil_r. apply IH.
Qed.

Lemma pieces_types k used items docs : pieces_of k used items docs ->
  Forall (fun item => exists t, type_of item = Some t /\ str_eq t B"web_search_call" = false) items.
Proof.
  induction 1 as [|k used item items ds docs used' _ Hseg _ IH]; constructor; [|done]. inversion Hseg; subst; [by eexists| |by eexists].
  eexists. split; [eapply cv_type; eassumption|done].
Qed.

(** ** The decoder fed document by document *)

(** A consumer that keeps every event. *)
Definition collect (u : list oa_decoded_event) (e : oa_decoded_event) : list oa_decoded_event * Z := (u ++ [e], 0).

Fixpoint feed_texts (jparse : bytes -> option jval) (d : oa_decoder) (calls : oa_callset) (u : list oa_decoded_event) (texts : list bytes) :
    oa_decoder * oa_callset * list oa_decoded_event * Z :=
  match texts with
  | [] => (d, calls, u, TNY_PARSE_OK)
  | text :: texts =>
    let '(d, calls, u, rc) := oa_decoder_feed jparse collect None d calls false false text u in
    if rc =? TNY_PARSE_OK then feed_texts jparse d calls u texts else (d, calls, u, rc)
  end.

Lemma dispatch_collect u evs : dispatch collect u evs = (u ++ evs, TNY_PARSE_OK).
Proof. revert u. induction evs as [|e evs IH]; intros u; cbn [dispatch collect]; [by rewrite app_nil_r|]. cbn [Z.eqb]. by rewrite IH, <- app_assoc. Qed.

Lemma feed_texts_docs jparse d calls u texts docs s evs calls' :
  dstatus d = TNY_PARSE_OK -> docs <> [] -> Forall2 (fun text doc => jparse text = Some doc) texts docs ->
  decode_docs (default decoder0 (state d)) calls docs false = Some (s, evs, calls') ->
  feed_texts jparse d calls u texts = (mk_oa_decoder (Some s) TNY_PARSE_OK, calls', u ++ evs, TNY_PARSE_OK).
Proof.
  intros Hd Hne H. revert d calls u evs Hd Hne. induction H as [|text doc texts docs Hp Ht IH]; intros d calls u evs Hd Hne E; [done|].
  cbn [decode_docs] in E. cbn [feed_texts]. unfold oa_decoder_feed. rewrite Hd. cbn [Z.eqb TNY_PARSE_OK negb andb]. rewrite Hp.
  destruct (responses_decode _ _ _ _) as [[[s1 evs1] c1]|]; [|done]. cbn [mbind option_bind] in E. rewrite dispatch_collect. cbn [Z.eqb TNY_PARSE_OK].
  destruct docs as [|doc' docs].
  - inversion Ht; subst. cbn [decode_docs mbind option_bind] in E. injection E as -> <- ->. by rewrite app_nil_r.
  - destruct (decode_docs s1 c1 (doc' :: docs) false) as [[[s2 evs2] c2]|] eqn:E2; [|done]. cbn [mbind option_bind] in E. injection E as -> <- ->.
    rewrite (IH (mk_oa_decoder (Some s1) TNY_PARSE_OK) c1 (u ++ evs1) evs2); [by rewrite app_assoc|done|done|exact E2].
Qed.

(** ** Reasoning details in pieces *)

Definition non_null (v : option jval) : option jval := match v with Some JNull => None | _ => v end.

Definition detail_index (v : jval) : option Z := int_of (jget (Some v) B"index").

Definition is_str (v : jval) : bool := match v with JStr _ => true | _ => false end.

(** A piece of item [k], its keys distinct; texts are strings. *)
Definition detail_ok (v : jval) : Prop :=
  exists ms k, v = JObj ms /\ detail_index v = Some k /\ 0 <= k /\ NoDup (map fst ms) /\ Forall (fun m => c_str m.1 = m.1) ms /\
    forall nm w, textual nm = true -> non_null (assoc nm ms) = Some w -> is_str w = true.

(** What the pieces say about a member: all of a text, the first value of
    anything else. *)
Definition told (nm : bytes) (pieces : list jval) : option jval :=
  let vs := omap (fun v => non_null (jget (Some v) nm)) pieces in
  if textual nm then match vs with [] => None | _ => Some (JStr (concat (omap (fun v => match v with JStr s => Some s | _ => None end) vs))) end
  else head vs.

Definition pieces_at (k : Z) (pieces : list jval) : list jval := List.filter (fun v => bool_decide (detail_index v = Some k)) pieces.

(** The item the pieces with index [k] make. *)
Definition reassembled (pieces : list jval) (v : jval) (k : Z) : Prop :=
  exists ms, v = JObj ms /\ detail_index v = Some k /\ forall nm, non_null (assoc nm ms) = told nm (pieces_at k pieces).

Definition join_member (nm : bytes) (have v : option jval) : option jval :=
  match non_null v, non_null have with
  | None, _ => have
  | v, None => v
  | Some (JStr s), Some (JStr h) => if textual nm then Some (JStr (h ++ s)) else have
  | _, _ => have
  end.

Lemma merge_member_assoc item m nm : c_str m.1 = m.1 ->
  assoc nm (merge_member item m) = if str_eq m.1 nm then join_member nm (assoc nm item) (Some m.2) else assoc nm item.
Proof.
  intros Hc. unfold merge_member, join_member. rewrite Hc. destruct (str_eq m.1 nm) eqn:E.
  - apply str_eq_true in E as ->. destruct m.2, (assoc nm item) as [[]|] eqn:Ea; cbn [non_null]; try done; rewrite ?assoc_put, ?str_eq_refl; try done.
    all: destruct (textual nm); rewrite ?assoc_put, ?str_eq_refl; done.
  - destruct m.2, (assoc m.1 item) as [[]|]; try done; rewrite ?assoc_put, ?E; try done.
    all: destruct (textual m.1); rewrite ?assoc_put, ?E; done.
Qed.

Lemma assoc_fresh nm (ms : list (bytes * jval)) : ~ In nm (map fst ms) -> assoc nm ms = None.
Proof.
  induction ms as [|[k v] ms IH]; [done|]. cbn [map fst In assoc]. intros H. destruct (str_eq k nm) eqn:E; [apply str_eq_true in E; tauto|].
  apply IH. tauto.
Qed.

Lemma merge_members_assoc ms item nm : NoDup (map fst ms) -> Forall (fun m => c_str m.1 = m.1) ms ->
  assoc nm (fold_left merge_member ms item) = join_member nm (assoc nm item) (assoc nm ms).
Proof.
  revert item. induction ms as [|m ms IH]; intros item Hnd Hc; [done|]. cbn [map] in Hnd. apply list.NoDup_cons in Hnd as [Hn Hnd].
  apply Forall_cons_iff in Hc as [Hm Hc]. cbn [fold_left]. rewrite IH, merge_member_assoc by done. destruct m as [k v]. cbn [assoc fst snd] in *.
  destruct (str_eq k nm) eqn:E; [|done]. apply str_eq_true in E as ->. rewrite (assoc_fresh nm ms); [done|]. by rewrite <- list_elem_of_In.
Qed.

Lemma told_snoc nm pieces v : (forall w, textual nm = true -> non_null (jget (Some v) nm) = Some w -> is_str w = true) ->
  told nm (pieces ++ [v]) = non_null (join_member nm (told nm pieces) (jget (Some v) nm)).
Proof.
  intros Hs. unfold told, join_member. rewrite omap_app. cbn [omap list_omap]. set (vs := omap _ pieces).
  assert (Forall (fun w => non_null (Some w) = Some w) vs) as Hvs.
  { apply Forall_forall. intros w Hw%list_elem_of_In. subst vs. apply list_elem_of_omap in Hw as (x & _ & Hw). by destruct (jget (Some x) nm) as [[]|]; simplify_eq/=. }
  destruct (textual nm) eqn:Et.
  - destruct (non_null (jget (Some v) nm)) as [w|] eqn:Ew.
    + specialize (Hs w eq_refl eq_refl). destruct w; try done. destruct vs as [|w vs]; [cbn; by rewrite app_nil_r|].
      cbn [app non_null]. rewrite app_comm_cons, omap_app, concat_app. cbn. by rewrite app_nil_r.
    + rewrite app_nil_r. by destruct vs.
  - destruct vs as [|w vs]; cbn [app head].
    + destruct (jget (Some v) nm) as [[]|]; done.
    + apply Forall_cons_iff in Hvs as [Hw _]. destruct w; try done; destruct (jget (Some v) nm) as [[]|]; done.
Qed.

Lemma change_first_related (R R' : jval -> Z -> Prop) ix f vs ks : Forall2 R vs ks -> NoDup ks ->
  (forall v k, R v k -> has_index ix v = (k =? ix)) -> (forall v k, k <> ix -> R v k -> R' v k) -> (forall v, R v ix -> R' (f v) ix) ->
  match change_first (has_index ix) f vs with Some vs' => ix ∈ ks /\ Forall2 R' vs' ks | None => ix ∉ ks /\ Forall2 R' vs ks end.
Proof.
  intros H Hnd Hix Hother Hsame. induction H as [|v k vs ks Hv Hvs IH]; cbn [change_first]; [split; [apply not_elem_of_nil|constructor]|].
  apply list.NoDup_cons in Hnd as [Hk Hnd]. rewrite (Hix _ _ Hv). destruct (Z.eqb_spec k ix) as [->|Hne].
  - split; [left|]. constructor; [by apply Hsame|]. apply Forall2_same_length_lookup_2; [by apply (Forall2_length Hvs)|]. intros i v' k' Hv' Hk'.
    apply Hother; [|by apply (Forall2_lookup_lr _ _ _ _ _ _ Hvs Hv' Hk')]. intros ->. by apply Hk, (list_elem_of_lookup_2 _ i).
  - specialize (IH Hnd). destruct (change_first _ f vs) as [vs'|]; cbn [fmap option_fmap option_map]; destruct IH as [H1 H2].
    + split; [by right|]. constructor; [by apply Hother|done].
    + split; [by intros [?|?]%elem_of_cons|]. constructor; [by apply Hother|done].
Qed.

Lemma has_index_spec v k ix : detail_index v = Some k -> has_index ix v = (k =? ix).
Proof. unfold detail_index, has_index. by intros ->. Qed.

Lemma pieces_at_snoc k ps d : pieces_at k (ps ++ [d]) = pieces_at k ps ++ (if bool_decide (detail_index d = Some k) then [d] else []).
Proof. unfold pieces_at. by rewrite List.filter_app. Qed.

Lemma pieces_at_none k ps : k ∉ omap detail_index ps -> pieces_at k ps = [].
Proof.
  intros H. unfold pieces_at. destruct (List.filter _ ps) as [|v vs] eqn:E; [done|]. exfalso. apply H, list_elem_of_omap. exists v.
  assert (In v (v :: vs)) as Hin by by left. rewrite <- E in Hin. apply filter_In in Hin as [Hin Hv]. apply bool_decide_eq_true in Hv.
  by rewrite list_elem_of_In.
Qed.

Lemma merge_into_reassembled ps d v k : detail_ok d -> detail_index d = Some k -> reassembled ps v k ->
  exists ms, d = JObj ms /\ reassembled (ps ++ [d]) (merge_into ms v) k.
Proof.
  intros (ms & k' & -> & Hk' & _ & Hnd & Hc & Hs) Hk (item & -> & Hix & Ht). exists ms. split; [done|]. cbn [merge_into].
  exists (fold_left merge_member ms item). split; [done|].
  assert (non_null (assoc B"index" item) = assoc B"index" item) as Hnn by (unfold detail_index in Hix; cbn [jget] in Hix; by destruct (assoc B"index" item) as [[]|]).
  split.
  - unfold detail_index in *. cbn [jget] in *. rewrite merge_members_assoc by done. unfold join_member. rewrite Hnn. change (textual B"index") with false.
    destruct (assoc B"index" item) as [[]|], (non_null (assoc B"index" ms)) as [[]|]; done.
  - intros nm. rewrite merge_members_assoc by done. rewrite pieces_at_snoc, bool_decide_eq_true_2 by done.
    rewrite told_snoc by (intros w; apply Hs). rewrite <- Ht. cbn [jget]. unfold join_member.
    destruct (assoc nm item) as [[]|], (assoc nm ms) as [[]|]; cbn [non_null]; try done; by destruct (textual nm).
Qed.

Lemma reassembled_other ps d v k : detail_index d <> Some k -> reassembled ps v k -> reassembled (ps ++ [d]) v k.
Proof.
  intros Hd (ms & -> & Hk & Ht). exists ms. split; [done|]. split; [done|]. intros nm. by rewrite pieces_at_snoc, bool_decide_eq_false_2, app_nil_r.
Qed.

Lemma reassembled_first ps d k : detail_ok d -> detail_index d = Some k -> k ∉ omap detail_index ps -> reassembled (ps ++ [d]) d k.
Proof.
  intros (ms & k' & -> & _ & _ & _ & _ & Hs) Hk Hnew. exists ms. split; [done|]. split; [done|]. intros nm.
  rewrite pieces_at_snoc, bool_decide_eq_true_2, (pieces_at_none k ps Hnew) by done. rewrite told_snoc by (intros w; apply Hs).
  unfold join_member, told. cbn [jget]. destruct (textual nm), (assoc nm ms) as [[]|]; done.
Qed.

Lemma merge_detail_step arr ps d : detail_ok d -> Forall2 (reassembled ps) arr (seen (omap detail_index ps)) ->
  Forall2 (reassembled (ps ++ [d])) (merge_detail arr d) (seen (omap detail_index (ps ++ [d]))).
Proof.
  intros Hd H. destruct Hd as (ms & k & -> & Hk & Hpos & Hrest). set (d := JObj ms) in *. assert (detail_ok d) as Hd by by exists ms, k.
  rewrite omap_app. cbn [omap list_omap]. rewrite Hk, seen_snoc. unfold merge_detail. fold d. unfold detail_index in Hk. subst d. rewrite Hk. cbn [default]. unfold Datatypes.id.
  rewrite (proj2 (Z.ltb_ge _ _)) by done. set (d := JObj ms) in *.
  pose proof (change_first_related (reassembled ps) (reassembled (ps ++ [d])) k (merge_into ms) arr _ H (seen_nodup _)) as Hch.
  destruct (change_first _ _ arr) as [arr'|]; destruct Hch as [Hin Hch].
  all: try (intros v k' (? & ? & Hv & _); by apply has_index_spec).
  all: try (intros v k' Hne; apply reassembled_other; unfold detail_index; congruence).
  all: try (intros v Hv; by destruct (merge_into_reassembled ps d v k Hd Hk Hv) as (ms' & [= <-] & ?)).
  - by rewrite decide_True.
  - rewrite decide_False by done. cbn [default]. apply Forall2_app; [done|]. constructor; [|constructor].
    apply reassembled_first; [done..|]. by rewrite <- seen_elem.
Qed.

Lemma details_steps ps : Forall detail_ok ps -> Forall2 (reassembled ps) (merge_details [] ps) (seen (omap detail_index ps)).
Proof.
  induction ps as [|d ps IH] using rev_ind; [constructor|]. intros [H1 H2]%Forall_app. apply Forall_cons_iff in H2 as [Hd _].
  unfold merge_details. rewrite fold_left_app. cbn [fold_left]. apply merge_detail_step; [done|by apply IH].
Qed.

(** ** Properties *)

(** A response that was completed. *)
Record completed_response (root : jval) (items : list jval) : Prop := {
  cr_type : type_of root = None;
  cr_error : error_value (jget (Some root) B"error") = false;
  cr_output : jget (Some root) B"output" = Some (JArr items);
  cr_failed : is_string (Some root) B"status" B"failed" = false;
  cr_incomplete : is_string (Some root) B"status" B"incomplete" = false }.

Lemma others_usage value chat : others (usage value chat ++ [DONE]) = usage value chat ++ [DONE] /\ text_of (usage value chat ++ [DONE]) = [].
Proof. unfold usage. by destruct (_ && _). Qed.

Lemma alike_reset : alike 0 [] oa_calls_reset oa_calls_reset.
Proof. constructor; try done; try constructor; try done; apply reset_ok. Qed.

(** C10: a response that is streamed in pieces gives what the same response gives
    as a whole: the same text, the same usage and end, the same tool calls,
    each with its identifier, name and arguments, and the same reasoning items
    for the next request; however the pieces of text and arguments were cut. *)
Theorem stream_equals_whole (jparse : bytes -> option jval) (items docs : list jval) (root last : jval) (texts : list bytes) (whole : bytes)
    (Hpieces : pieces_of 0 [] items docs) (Hroot : completed_response root items)
    (Hlast : type_of last = Some B"response.completed" /\ jget (Some last) B"response" = Some root)
    (Htexts : Forall2 (fun text doc => jparse text = Some doc) texts (docs ++ [last])) (Hwhole : jparse whole = Some root) :
  exists s evs evs' calls calls',
    feed_texts jparse oa_decoder_reset oa_calls_reset [] texts = (mk_oa_decoder (Some s) TNY_PARSE_OK, calls, evs, TNY_PARSE_OK) /\
    feed_texts jparse oa_decoder_reset oa_calls_reset [] [whole] = (mk_oa_decoder (Some s) TNY_PARSE_OK, calls', evs', TNY_PARSE_OK) /\
    text_of evs = text_of evs' /\
    others evs = usage (jget (Some root) B"usage") false ++ [DONE] /\ others evs' = others evs /\
    map core (items_of calls) = map core (items_of calls').
Proof.
  destruct Hroot as [Htype Herr Hout Hfail Hinc], Hlast as [Hlt Hlr].
  destruct (alike_items 0 [] items docs oa_calls_reset oa_calls_reset decoder0 [] ltac:(lia) alike_reset Hpieces)
    as (s1 & evs & new & calls & calls' & E1 & F1 & Ht & Ho & Hn & Hc).
  destruct (hosted_output_events s1 (Some root) items) as [s2 Es2]; [by rewrite Hout|by eapply pieces_types|].
  set (ending := usage (jget (Some root) B"usage") false ++ [DONE]). destruct (others_usage (jget (Some root) B"usage") false) as [Oe Te]. fold ending in Oe, Te.
  exists s2, (evs ++ ending), (new ++ ending), calls, calls'. split; [|split].
  - rewrite (feed_texts_docs jparse _ _ _ _ (docs ++ [last]) s2 (evs ++ ending) calls); [done|done|by destruct docs|done|].
    change (default decoder0 (state oa_decoder_reset)) with decoder0. rewrite decode_docs_app, E1. cbn [mbind option_bind]. rewrite decode_docs_one.
    unfold responses_decode. unfold type_of in Hlt. rewrite Hlt. cbn -[jget hosted_output usage]. rewrite Hlr, Es2. done.
  - rewrite (feed_texts_docs jparse _ _ _ _ [root] s2 (new ++ ending) calls'); [done|done|done|by constructor|].
    change (default decoder0 (state oa_decoder_reset)) with decoder0. rewrite decode_docs_one. unfold responses_decode. unfold type_of in Htype.
    rewrite Htype, Herr, Hout. unfold whole_response. rewrite Hout. cbn [arr_items]. rewrite F1. cbn [mbind option_bind]. rewrite Es2, Hfail, Hinc. done.
  - by rewrite !text_of_app, !others_app, Ht, Ho, Hn, Oe, Te.
Qed.

(** The reasoning details of a streamed reply are put together by their
    index: one item for each index, in the order they first appear; its texts
    are the pieces of the stream joined in order, any other member has the first
    value that came for it. *)
Theorem details_reassembled (deltas : list (option jval)) (pieces : list jval)
    (Hpieces : concat (map (fun d => arr_items (jget d B"reasoning_details")) deltas) = pieces) (Hok : Forall detail_ok pieces) :
  Forall2 (reassembled pieces) (details (fold_left (fun s d => fst (chat_details s d)) deltas decoder0)) (seen (omap detail_index pieces)).
Proof.
  assert (forall s, details (fold_left (fun s d => fst (chat_details s d)) deltas s) = merge_details (details s) pieces) as E.
  { subst pieces. clear Hok. induction deltas as [|d deltas IH]; intros s; [done|]. cbn [fold_left map concat]. rewrite IH.
    unfold merge_details. rewrite fold_left_app. f_equal. unfold chat_details. by destruct (jget d _) as [[]|]. }
  rewrite E. by apply details_steps.
Qed.

(** The calls that a decoder fed by anything can leave. *)
Definition calls_sound (calls : oa_callset) : Prop := callset_ok calls /\ unique_ids (items_of calls).

Lemma calls_item_status calls ix i nm a replace append_only : callset_ok calls -> status calls = TNY_PARSE_OK ->
  status (fst (oa_calls_item true calls ix i nm a replace append_only)) = TNY_PARSE_OK /\ snd (oa_calls_item true calls ix i nm a replace append_only) = TNY_PARSE_OK.
Proof.
  intros Hok Hs. unfold oa_calls_item. rewrite Hs. cbn [Z.eqb negb TNY_PARSE_OK]. destruct (_ || _); [done|]. cbn [fst snd]. split; [by apply take_in_ok|done].
Qed.

Lemma call_item_sound calls ix item whole : calls_sound calls -> status calls = TNY_PARSE_OK ->
  exists calls', call_item calls ix item whole = Some calls' /\ calls_sound calls' /\ status calls' = TNY_PARSE_OK.
Proof.
  intros [Hok Hu] Hs. unfold call_item.
  match goal with |- context [oa_calls_item true calls ix ?i ?nm ?a true false] =>
    pose proof (run_op_ok calls (Item true ix i nm a true false) Hok) as H1; pose proof (run_op_unique calls (Item true ix i nm a true false) Hok eq_refl Hu) as H2;
    pose proof (calls_item_status calls ix i nm a true false Hok Hs) as [H3 H4]; cbn [run_op] in H1, H2; destruct (oa_calls_item true calls ix i nm a true false) as [calls' rc] end.
  cbn [fst snd] in *. rewrite H4. by exists calls'.
Qed.

Lemma whole_items_sound its s evs calls : calls_sound calls -> status calls = TNY_PARSE_OK ->
  exists s' evs' calls', fold_left whole_item its (Some (s, evs, calls)) = Some (s', evs', calls') /\ calls_sound calls' /\ status calls' = TNY_PARSE_OK.
Proof.
  revert s evs calls. induction its as [|item its IH]; intros s evs calls Hok Hs; [by exists s, evs, calls|]. cbn [fold_left whole_item mbind option_bind].
  destruct (is_string _ _ B"message"); [by apply IH|]. destruct (is_string _ _ B"function_call"); [|destruct (is_string _ _ _); by apply IH].
  destruct (call_item_sound calls (Z.of_nat (n calls)) (Some item) true Hok Hs) as (calls' & -> & Hok' & Hs'). by apply IH.
Qed.

(** A document that was read is always decoded. *)
Lemma responses_decode_sound s calls root hosted : calls_sound calls -> status calls = TNY_PARSE_OK ->
  exists s' evs calls', responses_decode s calls root hosted = Some (s', evs, calls') /\ calls_sound calls' /\ status calls' = TNY_PARSE_OK.
Proof.
  intros Hok Hs. unfold responses_decode. destruct (jget_str root B"type") as [type|].
  - destruct (str_eq type _); [by eauto 7|]. destruct (_ || _); [by eauto 7|]. destruct (_ || _).
    { destruct (hosted_item s (jget root B"item") hosted) as [s1 evs]. destruct (is_string _ _ B"function_call"); [|by eauto 7].
      destruct (call_item_sound calls (output_index root (Z.of_nat (n calls))) (jget root B"item") false Hok Hs) as (calls' & -> & ? & ?).
      cbn [mbind option_bind]. by eauto 7. }
    destruct (str_eq type _).
    { match goal with |- context [oa_calls_item true calls ?ix None None ?a false true] =>
        pose proof (run_op_ok calls (Item true ix None None a false true) (proj1 Hok)) as H1;
        pose proof (run_op_unique calls (Item true ix None None a false true) (proj1 Hok) eq_refl (proj2 Hok)) as H2;
        pose proof (calls_item_status calls ix None None a false true (proj1 Hok) Hs) as [H3 H4]; cbn [run_op] in H1, H2; destruct (oa_calls_item true calls ix None None a false true) as [calls' rc] end.
      cbn [fst snd] in *. rewrite H4. cbn. by exists s, [], calls'. }
    destruct (str_eq type _); [destruct (hosted_output s _ hosted); by eauto 7|]. destruct (str_eq type _); [by eauto 7|]. destruct (_ || _); by eauto 7.
  - destruct (error_value _); [by eauto 7|]. destruct (jget root B"output") as [[]|]; try by eauto 7.
    unfold whole_response. destruct (whole_items_sound (arr_items (jget root B"output")) s [] calls Hok Hs) as (s1 & evs & calls' & -> & ? & ?).
    cbn [mbind option_bind]. destruct (hosted_output s1 root hosted). by eauto 7.
Qed.

Lemma chat_decode_sound s calls root : calls_sound calls -> status calls = TNY_PARSE_OK ->
  exists s' evs calls', chat_decode s calls root = Some (s', evs, calls') /\ calls_sound calls' /\ status calls' = TNY_PARSE_OK.
Proof.
  intros Hok Hs. unfold chat_decode. destruct (error_value _); [by eauto 7|]. destruct (arr_items _) as [|choice rest]; [by eauto 7|].
  destruct (chat_reasoning s _) as [s1 thinking]. destruct (chat_details s1 _) as [s2 detailed]. destruct (first_cut _); [by eauto 7|].
  match goal with |- context [oa_calls_feed true calls ?v] => set (tcs := v) end.
  pose proof (run_op_ok calls (Feed true tcs) (proj1 Hok)) as H1. pose proof (run_op_unique calls (Feed true tcs) (proj1 Hok) eq_refl (proj2 Hok)) as H2. cbn [run_op] in H1, H2.
  assert (snd (oa_calls_feed true calls tcs) = TNY_PARSE_OK /\ status (fst (oa_calls_feed true calls tcs)) = TNY_PARSE_OK) as [H3 H4].
  { unfold oa_calls_feed. rewrite Hs. cbn [Z.eqb negb TNY_PARSE_OK]. destruct tcs as [[| | | |[|tc l]|]|]; try done. split; [done|]. by apply feed_all_ok; [apply Hok|]. }
  destruct (oa_calls_feed true calls tcs) as [calls' rc]. cbn [fst snd] in *. rewrite H3. eexists _, _, _. split; [reflexivity|]. done.
Qed.

(** ** Every sequence of feeds *)

Section feeds.
Context (jparse : bytes -> option jval) {U : Type} (cb : U -> oa_decoded_event -> U * Z).

(** A call of the decoder; [w_oom] is what a failed allocation left. *)
Record feed_call := mk_wire { w_oom : option oa_callset; w_chat : bool; w_hosted : bool; w_data : bytes }.

Definition feed_wire (st : oa_decoder * oa_callset * U) (w : feed_call) : oa_decoder * oa_callset * U :=
  let '(d, calls, u) := st in
  let '(d, calls, u, _) := oa_decoder_feed jparse cb (w_oom w) d calls (w_chat w) (w_hosted w) (w_data w) u in (d, calls, u).

Definition feed_wires (u : U) (ws : list feed_call) : oa_decoder * oa_callset * U := fold_left feed_wire ws (oa_decoder_reset, oa_calls_reset, u).

Definition decoder_sound (st : oa_decoder * oa_callset * U) : Prop :=
  let '(d, calls, _) := st in calls_sound calls /\ (dstatus d = TNY_PARSE_OK -> status calls = TNY_PARSE_OK).

Lemma dispatch_accepts u evs : (forall u e, snd (cb u e) = 0) -> snd (dispatch cb u evs) = TNY_PARSE_OK.
Proof using U cb.
  intros H. revert u. induction evs as [|e evs IH]; intros u; [done|]. cbn [dispatch]. specialize (H u e). destruct (cb u e) as [u' rc].
  cbn [snd] in H. subst rc. apply IH.
Qed.

(** Decoding one text, with memory for it. *)
Lemma feed_decodes d calls chat hosted data u : dstatus d = TNY_PARSE_OK -> calls_sound calls -> status calls = TNY_PARSE_OK ->
  exists s evs calls' rc, calls_sound calls' /\ status calls' = TNY_PARSE_OK /\
    (oa_decoder_feed jparse cb None d calls chat hosted data u = (d, calls, u, rc) \/
     oa_decoder_feed jparse cb None d calls chat hosted data u =
       (mk_oa_decoder s (snd (dispatch cb u evs)), calls', fst (dispatch cb u evs), snd (dispatch cb u evs))).
Proof using Type.
  intros Hd Hok Hs. unfold oa_decoder_feed. rewrite Hd. cbn [Z.eqb negb TNY_PARSE_OK].
  destruct (chat && (str_eq data B"[DONE]" || str_eq data B"DONE")).
  { exists (state d), [DONE], calls, 0. split; [done|]. split; [done|]. right. by destruct (dispatch cb u [DONE]). }
  destruct (jparse data) as [root|]; [|exists None, [], calls, TNY_PARSE_INVALID; by repeat (split; [done|]); left].
  destruct chat.
  - destruct (chat_decode_sound (default decoder0 (state d)) calls (Some root) Hok Hs) as (s & evs & calls' & -> & H1 & H2).
    exists (Some s), evs, calls', 0. repeat (split; [done|]). right. by destruct (dispatch cb u evs).
  - destruct (responses_decode_sound (default decoder0 (state d)) calls (Some root) hosted Hok Hs) as (s & evs & calls' & -> & H1 & H2).
    exists (Some s), evs, calls', 0. repeat (split; [done|]). right. by destruct (dispatch cb u evs).
Qed.

Lemma feed_wire_sound st w : decoder_sound st -> from_option calls_sound True (w_oom w) -> decoder_sound (feed_wire st w).
Proof using Type.
  destruct st as [[d calls] u]. intros [Hok Hs] Hoom. unfold feed_wire.
  destruct (Z.eqb_spec (dstatus d) TNY_PARSE_OK) as [Hd|Hd].
  - destruct (w_oom w) as [left|]; [unfold oa_decoder_feed; rewrite Hd; cbn; by split|].
    destruct (feed_decodes d calls (w_chat w) (w_hosted w) (w_data w) u Hd Hok (Hs Hd)) as (s & evs & calls' & rc & H1 & H2 & [->| ->]); by split.
  - unfold oa_decoder_feed. by rewrite (proj2 (Z.eqb_neq _ _) Hd).
Qed.

Lemma feed_wire_works st w : decoder_sound st -> (forall u e, snd (cb u e) = 0) -> w_oom w = None ->
  dstatus (fst (fst st)) = TNY_PARSE_OK -> dstatus (fst (fst (feed_wire st w))) = TNY_PARSE_OK.
Proof using Type.
  destruct st as [[d calls] u]. intros [Hok Hs] Hcb Hw Hd. cbn [fst] in Hd. unfold feed_wire. rewrite Hw.
  destruct (feed_decodes d calls (w_chat w) (w_hosted w) (w_data w) u Hd Hok (Hs Hd)) as (s & evs & calls' & rc & H1 & H2 & [->| ->]); [done|].
  cbn [fst dstatus]. by apply dispatch_accepts.
Qed.

(** C19: whatever a provider sends, in either protocol, and whatever the consumer
    answers: the calls stay well formed, at most 32 and with distinct
    identifiers; after a failed allocation or a refusal by the consumer nothing
    more is decoded or delivered and there are no extras; and with memory and a
    consumer that accepts, no sequence of documents breaks the decoder. *)
Theorem decoder_feeds_safe (u : U) (ws : list feed_call) (Hoom : Forall (fun w => from_option calls_sound True (w_oom w)) ws) :
  let '(d, calls, u') := feed_wires u ws in
  calls_sound calls /\ (n calls <= OA_MAX_TOOL_CALLS)%nat /\ (dstatus d = TNY_PARSE_OK -> status calls = TNY_PARSE_OK) /\
  (dstatus d <> TNY_PARSE_OK ->
     (forall w, feed_wire (d, calls, u') w = (d, calls, u')) /\ forall jwrite, oa_decoder_extras jwrite d = (d, None, dstatus d)) /\
  (Forall (fun w => w_oom w = None) ws -> (forall u e, snd (cb u e) = 0) -> dstatus d = TNY_PARSE_OK).
Proof using Type.
  assert (forall st, decoder_sound st -> decoder_sound (fold_left feed_wire ws st) /\
    (Forall (fun w => w_oom w = None) ws -> (forall u e, snd (cb u e) = 0) -> dstatus (fst (fst st)) = TNY_PARSE_OK ->
     dstatus (fst (fst (fold_left feed_wire ws st))) = TNY_PARSE_OK)) as H.
  { induction Hoom as [|w ws Hw _ IH]; intros st Hst; [done|]. cbn [fold_left]. destruct (IH (feed_wire st w)) as [H1 H2]; [by apply feed_wire_sound|].
    split; [done|]. intros [? ?]%Forall_cons_iff Hcb Hd. apply H2; [done..|]. by apply feed_wire_works. }
  destruct (H (oa_decoder_reset, oa_calls_reset, u)) as [H1 H2]; [split; [split; [apply reset_ok|constructor]|done]|].
  unfold feed_wires. destruct (fold_left feed_wire ws _) as [[d calls] u']. destruct H1 as [Hok Hs]. split; [done|]. split; [apply (ok_count _ (proj1 Hok))|].
  split; [done|]. split; [|intros Hw Hcb; by apply H2]. intros Hd. split.
  - intros w. unfold feed_wire, oa_decoder_feed. by rewrite (proj2 (Z.eqb_neq _ _) Hd).
  - intros jwrite. unfold oa_decoder_extras. destruct (state d); [|done]. by rewrite (proj2 (Z.eqb_neq _ _) Hd).
Qed.

End feeds.

(** ** Examples *)

Definition str_member (key s : bytes) : bytes * jval := (key, JStr s).
Definition demo_text (t : bytes) : jval := JObj [str_member B"type" B"response.output_text.delta"; str_member B"delta" t].
Definition demo_event (kind : bytes) (k : Z) (item : jval) : jval :=
  JObj [str_member B"type" kind; (B"output_index", JNum (JUint k)); (B"item", item)].
Definition demo_args (k : Z) (t : bytes) : jval :=
  JObj [str_member B"type" B"response.function_call_arguments.delta"; (B"output_index", JNum (JUint k)); str_member B"delta" t].
Definition demo_item : jval :=
  JObj [str_member B"type" B"message"; (B"content", JArr [JObj [str_member B"type" B"output_text"; str_member B"text" B"Hello"]])].
Definition demo_reasoning : jval := JObj [str_member B"type" B"reasoning"; str_member B"id" B"r1"; str_member B"encrypted_content" B"xyz"].
Definition demo_call (a : bytes) : jval :=
  JObj [str_member B"type" B"function_call"; str_member B"call_id" B"c1"; str_member B"name" B"read"; str_member B"arguments" a].
Definition demo_root : jval :=
  JObj [str_member B"status" B"completed"; (B"output", JArr [demo_item; demo_reasoning; demo_call B"{}"]);
        (B"usage", JObj [(B"input_tokens", JNum (JUint 7))])].
Definition demo_docs : list jval :=
  [demo_text B"Hel"; demo_event B"response.output_item.added" 0 demo_item; demo_text B"lo";
   demo_event B"response.output_item.done" 1 demo_reasoning;
   demo_event B"response.output_item.added" 2 (demo_call []); demo_args 2 B"{"; demo_event B"response.output_item.done" 2 (demo_call B"{}")].
Definition demo_last : jval := JObj [str_member B"type" B"response.completed"; (B"response", demo_root)].
Definition demo_parse (text : bytes) : option jval :=
  match text with [k] => (demo_docs ++ [demo_last; demo_root]) !! Z.to_nat k | _ => None end.

Example stream_equals_whole_witness :
  exists s evs evs' calls calls',
    feed_texts demo_parse oa_decoder_reset oa_calls_reset [] [[0]; [1]; [2]; [3]; [4]; [5]; [6]; [7]] = (mk_oa_decoder (Some s) TNY_PARSE_OK, calls, evs, TNY_PARSE_OK) /\
    feed_texts demo_parse oa_decoder_reset oa_calls_reset [] [[8]] = (mk_oa_decoder (Some s) TNY_PARSE_OK, calls', evs', TNY_PARSE_OK) /\
    text_of evs = text_of evs' /\
    others evs = usage (jget (Some demo_root) B"usage") false ++ [DONE] /\ others evs' = others evs /\
    map core (items_of calls) = map core (items_of calls').
Proof.
  apply (stream_equals_whole demo_parse [demo_item; demo_reasoning; demo_call B"{}"] demo_docs demo_root demo_last).
  - apply (pieces_item 0 [] _ _ [demo_text B"Hel"; demo_event B"response.output_item.added" 0 demo_item; demo_text B"lo"] _ []); [by vm_compute| |].
    + apply (segment_message _ _ _ _ [B"Hel"; []; B"lo"]); [done| |done]. constructor; [by left|]. constructor; [|constructor; [by left|constructor]].
      right. split; [done|]. exists demo_item. split; [done|]. split; [by left|done].
    + apply (pieces_item 1 [] _ _ [demo_event B"response.output_item.done" 1 demo_reasoning] _ []); [by vm_compute| |].
      * apply (segment_reasoning _ _ _ [] (JObj [str_member B"type" B"reasoning"])); [done..|constructor|]. split; [by right|done].
      * apply (pieces_item 2 [] _ _ [demo_event B"response.output_item.added" 2 (demo_call []); demo_args 2 B"{"; demo_event B"response.output_item.done" 2 (demo_call B"{}")] _ [B"c1"]);
          [by vm_compute| |constructor].
        apply (segment_call _ _ _ _ (demo_call []) [demo_args 2 B"{"] _ B"c1" B"read" B"{}");
          [by constructor|constructor; [done..|by right]|by intros []|split; [by left|done]|by repeat constructor|split; [by right|done]].
  - by constructor.
  - done.
  - by repeat constructor.
  - done.
Defined.

Definition demo_detail (k : Z) (t : bytes) : jval := JObj [(B"index", JNum (JUint k)); str_member B"type" B"reasoning.text"; str_member B"text" t].
Definition demo_details (ds : list jval) : option jval := Some (JObj [(B"reasoning_details", JArr ds)]).

Example details_reassembled_witness :
  Forall2 (reassembled [demo_detail 0 B"a"; demo_detail 1 B"b"; demo_detail 0 B"c"])
    (details (fold_left (fun s d => fst (chat_details s d)) [demo_details [demo_detail 0 B"a"; demo_detail 1 B"b"]; demo_details [demo_detail 0 B"c"]] decoder0))
    (seen (omap detail_index [demo_detail 0 B"a"; demo_detail 1 B"b"; demo_detail 0 B"c"])).
Proof.
  apply (details_reassembled [demo_details [demo_detail 0 B"a"; demo_detail 1 B"b"]; demo_details [demo_detail 0 B"c"]]); [done|].
  assert (forall k t, 0 <= k <= 1 -> detail_ok (demo_detail k t)) as H; [|repeat constructor; by apply H].
  intros k t Hk. exists [(B"index", JNum (JUint k)); str_member B"type" B"reasoning.text"; str_member B"text" t], k. split; [done|]. split.
  { change (Some (as_sint k) = Some k). f_equal. apply as_sint_small. unfold INT_MAX. lia. }
  split; [lia|]. split; [by apply (bool_decide_eq_true_1 _)|]. split; [by repeat constructor|].
  intros nm w Hnm. cbn [assoc str_member]. destruct (str_eq B"index" nm) eqn:E; [apply str_eq_true in E as <-; done|].
  destruct (str_eq B"type" nm) eqn:E2; [intros [= <-]; done|]. destruct (str_eq B"text" nm) eqn:E3; [intros [= <-]; done|done].
Defined.

Example decoder_feeds_safe_witness :
  let '(d, calls, u') := feed_wires demo_parse collect [] [mk_wire None false false [4]; mk_wire (Some failed) false false [0]] in
  calls_sound calls /\ (n calls <= OA_MAX_TOOL_CALLS)%nat /\ (dstatus d = TNY_PARSE_OK -> status calls = TNY_PARSE_OK) /\
  (dstatus d <> TNY_PARSE_OK ->
     (forall w, feed_wire demo_parse collect (d, calls, u') w = (d, calls, u')) /\ forall jwrite, oa_decoder_extras jwrite d = (d, None, dstatus d)) /\
  (Forall (fun w => w_oom w = None) [mk_wire None false false [4]; mk_wire (Some failed) false false [0]] -> (forall u e, snd (collect u e) = 0) -> dstatus d = TNY_PARSE_OK).
Proof.
  apply (decoder_feeds_safe demo_parse collect [] [mk_wire None false false [4]; mk_wire (Some failed) false false [0]]).
  constructor; [done|]. constructor; [split; [apply failed_ok|constructor]|constructor].
Defined.
