(* ===== verification/Context.v ===== *)
(** The resolved context of a run: [tny_ctx] of src/src/core/config.h, its
    deterministic constructor (core/config.c) and the end of the Grok profile
    (core/profiles.c). *)
From S2P Require Import Prelude Text Codec Digest Json.
From S2P Require Perm.

Open Scope Z_scope.

(** ** Data *)

(** Members of one type, told apart by a tag as the code does by a pointer to
    the member. *)
Inductive string_member :=
  | cwd | provider_name | model | base_url | api_key | auth_header_name | auth_header_prefix | max_tokens_field | wire_api
  | output_schema | xai_api_key | chatgpt_token | chatgpt_account_id | codex_base_url | acp_cleanup_file | ssh_host | ssh_cwd
  | ssh_control | service_tier | system_prompt | retrieval_state | task_name | task_source | task_instructions
  | swarm_definition | swarm_source | reasoning_effort | instructions_snapshot | sandbox_mode | tny_dir | settings_path.

Inductive bool_member :=
  | model_from_flag | json_out | no_save | no_self_improve | no_color | force_color | library_mode | agent_from_profile
  | acp_require_tools_authority | prompt_optimisation | extensions_enabled | service_tier_explicit | service_tier_from_settings
  | task_explicit | swarm_explicit | effort_explicit | effort_from_settings | context_enabled | workspace_read_only
  | instructions_snapshot_ready | mcp_disabled | mcp_import_warned | openai_signin.

Inductive int_member :=
  | backend | max_extension_iterations | extension_timeout_ms | swarm_cap | swarm_participants | max_steps.

(** Character arrays. *)
Inductive array_member := ws_hash | ssh_port | task_digest | instructions_digest | swarm_definition_digest.

Inductive tny_image_input_policy := TNY_IMAGE_INPUT_UNKNOWN | TNY_IMAGE_INPUT_CONFIGURED_SUPPORTED | TNY_IMAGE_INPUT_CONFIGURED_UNSUPPORTED.
Inductive tny_tool_profile := TNY_TOOLS_ALL | TNY_TOOLS_TERMINAL_EDIT | TNY_TOOLS_TERMINAL.

#[export] Instance string_member_eq : EqDecision string_member.
Proof. solve_decision. Defined.
#[export] Instance bool_member_eq : EqDecision bool_member.
Proof. solve_decision. Defined.
#[export] Instance int_member_eq : EqDecision int_member.
Proof. solve_decision. Defined.
#[export] Instance array_member_eq : EqDecision array_member.
Proof. solve_decision. Defined.

Definition TNY_BK_OPENAI : Z := 0.
Definition TNY_BK_ACP : Z := 1.
Definition TNY_BK_COUNT : Z := 2.
Definition TNY_TASK_DIGEST_HEX_LEN : nat := 40.

Definition array_size_of (m : array_member) : nat :=
  match m with
  | ws_hash | instructions_digest => 17
  | ssh_port => 6
  | task_digest => TNY_TASK_DIGEST_HEX_LEN + 1
  | swarm_definition_digest => 65
  end.

(** An array with a count is the list of its entries, [None] an entry that is
    NULL; an array that ends with NULL is a list, [None] when it is not there.
    [settings] and [repo_cfg] are the roots of the documents; [extensions]: the
    host was made. *)
Record tny_ctx := mk_ctx {
  str : string_member -> option bytes; flag : bool_member -> bool; num : int_member -> Z; array : array_member -> bytes;
  perm_mode : Perm.tny_perm_mode; tool_profile : tny_tool_profile; image_input : tny_image_input_policy;
  max_tool_result_bytes : Z; mcp_import_mask : Z; openai_signin_key : Z; openai_signin_expires_at : Z;
  extra_dirs : list (option bytes); instruction_paths : list (option bytes);
  extra_headers : option (list bytes); agent_argv : option (list bytes); mcp_import_order : list Z;
  settings : option jval; repo_cfg : option jval; extensions : bool }.

(** ** Enums as integers *)

Definition mode_number (m : Perm.tny_perm_mode) : Z := match m with Perm.TNY_MODE_ASK => 0 | Perm.TNY_MODE_AUTO => 1 | Perm.TNY_MODE_YOLO => 2 end.
Definition profile_number (p : tny_tool_profile) : Z := match p with TNY_TOOLS_ALL => 0 | TNY_TOOLS_TERMINAL_EDIT => 1 | TNY_TOOLS_TERMINAL => 2 end.
Definition policy_number (p : tny_image_input_policy) : Z :=
  match p with TNY_IMAGE_INPUT_UNKNOWN => 0 | TNY_IMAGE_INPUT_CONFIGURED_SUPPORTED => 1 | TNY_IMAGE_INPUT_CONFIGURED_UNSUPPORTED => 2 end.

Definition mode_of (n : Z) : option Perm.tny_perm_mode :=
  if n =? 0 then Some Perm.TNY_MODE_ASK else if n =? 1 then Some Perm.TNY_MODE_AUTO else if n =? 2 then Some Perm.TNY_MODE_YOLO else None.
Definition profile_of (n : Z) : option tny_tool_profile :=
  if n =? 0 then Some TNY_TOOLS_ALL else if n =? 1 then Some TNY_TOOLS_TERMINAL_EDIT else if n =? 2 then Some TNY_TOOLS_TERMINAL else None.
Definition policy_of (n : Z) : option tny_image_input_policy :=
  if n =? 0 then Some TNY_IMAGE_INPUT_UNKNOWN else if n =? 1 then Some TNY_IMAGE_INPUT_CONFIGURED_SUPPORTED
  else if n =? 2 then Some TNY_IMAGE_INPUT_CONFIGURED_UNSUPPORTED else None.

(** ** Names *)

Definition tny_backend_name (id : Z) : bytes := if id =? TNY_BK_OPENAI then B"openai" else if id =? TNY_BK_ACP then B"acp" else B"unknown".

Definition tny_provider_name (c : tny_ctx) : bytes := default (tny_backend_name (num c backend)) (str c provider_name).

(** ** The constructor *)

(** One member of many. *)
Definition set {M V} `{EqDecision M} (m : M) (v : V) (f : M -> V) : M -> V := fun m' => if decide (m = m') then v else f m'.

(** [snprintf] of a text into an array that held [old]. *)
Definition write_array (old text : bytes) : bytes := text ++ NUL :: drop (length text + 1) old.

(** The operating system: directories, resolved paths, and the instruction files
    of a workspace with their paths. *)
Record host := mk_host {
  dir_exists : bytes -> bool; path_abs : bytes -> option bytes; collect : bytes -> bytes * list (option bytes) }.

Definition instructions_refresh (h : host) (c : tny_ctx) : tny_ctx :=
  let '(text, paths) := collect h (default [] (str c cwd)) in
  mk_ctx (set instructions_snapshot (Some text) (str c)) (set instructions_snapshot_ready true (flag c)) (num c)
    (set instructions_digest (write_array (array c instructions_digest) (hex16 (fnv1a text))) (array c))
    (perm_mode c) (tool_profile c) (image_input c) (max_tool_result_bytes c) (mcp_import_mask c) (openai_signin_key c) (openai_signin_expires_at c)
    (extra_dirs c) paths (extra_headers c) (agent_argv c) (mcp_import_order c) (settings c) (repo_cfg c) (extensions c).

Definition tny_ctx_new_explicit (h : host) (dir state_dir : bytes) : option tny_ctx :=
  if negb (dir_exists h dir) then None
  else
    cwd' ← path_abs h dir;
    tny_dir' ← path_abs h state_dir;
    let strings :=
      set settings_path (Some (path_join tny_dir' B"settings.json")) $ set provider_name (Some B"openai") $ set sandbox_mode (Some B"auto") $
      set base_url (Some B"https://api.openai.com/v1") $ set auth_header_name (Some B"Authorization") $ set auth_header_prefix (Some B"Bearer ") $
      set cwd (Some cwd') $ set tny_dir (Some tny_dir') (fun _ => None) in
    let flags := set context_enabled true $ set mcp_disabled true $ set library_mode true (fun _ => false) in
    let zeros m := replicate (array_size_of m) NUL in
    Some (instructions_refresh h (mk_ctx strings flags (set extension_timeout_ms 5000 (fun _ => 0))
      (set ws_hash (write_array (zeros ws_hash) (hex16 (fnv1a cwd'))) zeros)
      Perm.TNY_MODE_ASK TNY_TOOLS_ALL TNY_IMAGE_INPUT_UNKNOWN 32768 0 0 0 [] [] None None [] None None false)).

(** ** Headers *)

Definition with_headers (c : tny_ctx) (hs : option (list bytes)) : tny_ctx :=
  mk_ctx (str c) (flag c) (num c) (array c) (perm_mode c) (tool_profile c) (image_input c) (max_tool_result_bytes c) (mcp_import_mask c)
    (openai_signin_key c) (openai_signin_expires_at c) (extra_dirs c) (instruction_paths c) hs (agent_argv c) (mcp_import_order c)
    (settings c) (repo_cfg c) (extensions c).

Definition with_extensions (c : tny_ctx) (e : bool) : tny_ctx :=
  mk_ctx (str c) (flag c) (num c) (array c) (perm_mode c) (tool_profile c) (image_input c) (max_tool_result_bytes c) (mcp_import_mask c)
    (openai_signin_key c) (openai_signin_expires_at c) (extra_dirs c) (instruction_paths c) (extra_headers c) (agent_argv c) (mcp_import_order c)
    (settings c) (repo_cfg c) e.

(** The lines, of an array that may be missing. *)
Definition header_lines (c : tny_ctx) : list bytes := default [] (extra_headers c).

Definition tny_ctx_add_extra_header (c : tny_ctx) (line : bytes) : tny_ctx :=
  match line with [] => c | _ => with_headers c (Some (header_lines c ++ [line])) end.

Definition TNY_GROK_PROXY_HEADER : bytes := B"X-XAI-Token-Auth: xai-grok-cli".

Definition tny_finish_builtin_profile (c : tny_ctx) : tny_ctx :=
  if negb (bool_decide (str c provider_name = Some B"grok")) then c
  else
    match str c model with
    | Some ((_ :: _) as m) =>
      if existsb (str_eq TNY_GROK_PROXY_HEADER) (header_lines c) then tny_ctx_add_extra_header c (B"x-grok-model-override: " ++ m) else c
    | _ => c
    end.

(** ** Contexts that hold the same *)

(** What follows the end of a string in its array, a missing or empty array of
    lines, the expiry that is read again and the extension host make no
    difference. *)
Record ctx_equiv (c c' : tny_ctx) : Prop := {
  eq_str m : str c m = str c' m; eq_flag m : flag c m = flag c' m; eq_num m : num c m = num c' m;
  eq_array m : c_str (array c m) = c_str (array c' m);
  eq_mode : perm_mode c = perm_mode c'; eq_profile : tool_profile c = tool_profile c'; eq_image : image_input c = image_input c';
  eq_bytes : max_tool_result_bytes c = max_tool_result_bytes c'; eq_mask : mcp_import_mask c = mcp_import_mask c';
  eq_key : openai_signin_key c = openai_signin_key c';
  eq_dirs : extra_dirs c = extra_dirs c'; eq_paths : instruction_paths c = instruction_paths c';
  eq_headers : header_lines c = header_lines c'; eq_argv : default [] (agent_argv c) = default [] (agent_argv c');
  eq_order : mcp_import_order c = mcp_import_order c';
  eq_settings : settings c = settings c'; eq_repo : repo_cfg c = repo_cfg c' }.

#[export] Instance ctx_equiv_equivalence : Equivalence ctx_equiv.
Proof.
  split.
  - intros c. by constructor.
  - intros c c' []. by constructor.
  - intros c1 c2 c3 [] []. constructor; congruence.
Qed.

#[export] Instance tny_provider_name_proper : Proper (ctx_equiv ==> eq) tny_provider_name.
Proof. intros c c' []. unfold tny_provider_name. by rewrite eq_str0, eq_num0. Qed.

Lemma finish_builtin_equiv c c' : ctx_equiv c c' -> header_lines (tny_finish_builtin_profile c) = header_lines (tny_finish_builtin_profile c').
Proof.
  intros H. unfold tny_finish_builtin_profile. rewrite <- !(eq_str _ _ H), <- (eq_headers _ _ H). destruct (negb _); [apply (eq_headers _ _ H)|].
  destruct (str c model) as [[|b m]|]; try apply (eq_headers _ _ H). destruct (existsb _ _); [|apply (eq_headers _ _ H)].
  cbn. by rewrite <- (eq_headers _ _ H).
Qed.

(** ** Lemmas *)

Lemma set_same {M V} `{EqDecision M} (m : M) (v : V) f : set m v f m = v.
Proof. unfold set. by rewrite decide_True. Qed.

Lemma set_other {M V} `{EqDecision M} (m m' : M) (v : V) f : m <> m' -> set m v f m' = f m'.
Proof. intros H. unfold set. by rewrite decide_False. Qed.

Lemma c_str_write old text : mem_byte NUL text = false -> c_str (write_array old text) = text.
Proof.
  unfold write_array. induction text as [|b text IH]; [done|]. cbn [mem_byte existsb app c_str]. intros [Hb Ht]%orb_false_iff.
  rewrite Z.eqb_sym, Hb. f_equal. change (drop (length (b :: text) + 1) old) with (drop (S (length text + 1)) old) in *.
  clear IH Hb. revert Ht. generalize (drop (S (length text + 1)) old). intros rest. induction text as [|c text IH]; [done|].
  cbn [mem_byte existsb app c_str]. intros [Hc Ht]%orb_false_iff. rewrite Z.eqb_sym, Hc. by rewrite IH.
Qed.

Lemma c_str_clean s : mem_byte NUL (c_str s) = false.
Proof.
  induction s as [|b s IH]; [done|]. cbn [c_str]. destruct (b =? NUL) eqn:E; [done|]. cbn [mem_byte existsb]. rewrite Z.eqb_sym, E. exact IH.
Qed.

Lemma mode_roundtrip m : mode_of (mode_number m) = Some m.
Proof. by destruct m. Qed.
Lemma profile_roundtrip p : profile_of (profile_number p) = Some p.
Proof. by destruct p. Qed.
Lemma policy_roundtrip p : policy_of (policy_number p) = Some p.
Proof. by destruct p. Qed.

Lemma mode_of_number n m : mode_of n = Some m -> mode_number m = n.
Proof. unfold mode_of. destruct (Z.eqb_spec n 0), (Z.eqb_spec n 1), (Z.eqb_spec n 2); naive_solver. Qed.
Lemma profile_of_number n p : profile_of n = Some p -> profile_number p = n.
Proof. unfold profile_of. destruct (Z.eqb_spec n 0), (Z.eqb_spec n 1), (Z.eqb_spec n 2); naive_solver. Qed.
