(* ===== verification/Checkpoint.v ===== *)
(** Restart snapshots of a context (src/src/core/checkpoint.cpp): the private
    one that carries credentials to a new process, the public one that is saved
    with a session, and the recovery of a session under freshly resolved
    authority. *)
From S2P Require Import Prelude Text Codec Digest Json JsonValue Context.
From S2P Require Perm.

Open Scope Z_scope.

(** ** The fields *)

Definition INT_MAX : Z := 2147483647.
Definition INT_MIN : Z := - 2147483648.
Definition UINT64_MAX : Z := 18446744073709551615.
Definition ARGV_MAX : nat := 128.

(** Name, member, and whether it is private. *)
Definition strings : list (bytes * string_member * bool) :=
  [(B"cwd", cwd, false); (B"provider_name", provider_name, false); (B"model", model, false); (B"base_url", base_url, true);
   (B"api_key", api_key, true); (B"auth_header_name", auth_header_name, true); (B"auth_header_prefix", auth_header_prefix, true);
   (B"max_tokens_field", max_tokens_field, false); (B"wire_api", wire_api, false); (B"output_schema", output_schema, false);
   (B"xai_api_key", xai_api_key, true); (B"chatgpt_token", chatgpt_token, true); (B"chatgpt_account_id", chatgpt_account_id, true);
   (B"codex_base_url", codex_base_url, true); (B"acp_cleanup_file", acp_cleanup_file, true); (B"ssh_host", ssh_host, false);
   (B"ssh_cwd", ssh_cwd, false); (B"ssh_control", ssh_control, false); (B"service_tier", service_tier, false);
   (B"system_prompt", system_prompt, false); (B"retrieval_state", retrieval_state, false); (B"task_name", task_name, false);
   (B"task_source", task_source, false); (B"task_instructions", task_instructions, false); (B"swarm_definition", swarm_definition, false);
   (B"swarm_source", swarm_source, false); (B"reasoning_effort", reasoning_effort, false); (B"instructions_snapshot", instructions_snapshot, false);
   (B"sandbox_mode", sandbox_mode, false); (B"tny_dir", tny_dir, false); (B"settings_path", settings_path, false)].

Definition bools : list (bytes * bool_member) :=
  [(B"model_from_flag", model_from_flag); (B"json_out", json_out); (B"no_save", no_save); (B"no_self_improve", no_self_improve);
   (B"no_color", no_color); (B"force_color", force_color); (B"library_mode", library_mode); (B"agent_from_profile", agent_from_profile);
   (B"acp_require_tools_authority", acp_require_tools_authority); (B"prompt_optimisation", prompt_optimisation);
   (B"extensions_enabled", extensions_enabled); (B"service_tier_explicit", service_tier_explicit);
   (B"service_tier_from_settings", service_tier_from_settings); (B"task_explicit", task_explicit); (B"swarm_explicit", swarm_explicit);
   (B"effort_explicit", effort_explicit); (B"effort_from_settings", effort_from_settings); (B"context_enabled", context_enabled);
   (B"workspace_read_only", workspace_read_only); (B"instructions_snapshot_ready", instructions_snapshot_ready); (B"mcp_disabled", mcp_disabled);
   (B"mcp_import_warned", mcp_import_warned); (B"openai_signin", openai_signin)].

Definition ints : list (bytes * int_member) :=
  [(B"backend", backend); (B"max_extension_iterations", max_extension_iterations); (B"extension_timeout_ms", extension_timeout_ms);
   (B"swarm_cap", swarm_cap); (B"swarm_participants", swarm_participants); (B"max_steps", max_steps)].

Definition arrays : list (bytes * array_member) :=
  [(B"ws_hash", ws_hash); (B"ssh_port", ssh_port); (B"task_digest", task_digest); (B"instructions_digest", instructions_digest);
   (B"swarm_definition_digest", swarm_definition_digest)].

(** ** Encoding *)

Definition json_int (n : Z) : jval := JNum (JSint n).
Definition json_uint (n : Z) : jval := JNum (JUint n).
Definition json_strings (vs : list (option bytes)) : jval := JArr (map (fun v => JStr (default [] v)) vs).

(** The text of a member, as it is shown. *)
Definition shown (c : tny_ctx) (public_only : bool) (m : string_member) : option bytes :=
  if public_only && bool_decide (m = provider_name) then Some (tny_provider_name c) else str c m.

(** Every member, in order; one without a value is not added. *)
Definition string_entries (c : tny_ctx) (public_only : bool) : list (bytes * option jval) :=
  map (fun '(name, m, private) => (name,
    if public_only && private then None
    else match shown c public_only m with Some text => Some (JStr text) | None => if public_only then Some JNull else None end)) strings.

Definition other_entries (c : tny_ctx) (public_only : bool) : list (bytes * option jval) :=
  map (fun '(name, m) => (name, Some (JStr (c_str (array c m))))) arrays ++
  map (fun '(name, m) => (name, Some (JBool (flag c m)))) bools ++
  map (fun '(name, m) => (name, Some (json_int (num c m)))) ints ++
  [(B"perm_mode", Some (json_int (mode_number (perm_mode c)))); (B"tool_profile", Some (json_int (profile_number (tool_profile c))));
   (B"image_input", Some (json_int (policy_number (image_input c)))); (B"max_tool_result_bytes", Some (json_uint (max_tool_result_bytes c)));
   (B"mcp_import_mask", Some (json_uint (mcp_import_mask c)));
   (B"extra_dirs", Some (json_strings (extra_dirs c))); (B"instruction_paths", Some (json_strings (instruction_paths c)))] ++
  (if public_only then []
   else [(B"openai_signin_key", Some (json_uint (openai_signin_key c))); (B"extra_headers", Some (json_strings (map Some (header_lines c))));
         (B"agent_argv", Some (json_strings (map Some (default [] (agent_argv c)))))]) ++
  [(B"mcp_import_order", Some (JArr (map json_uint (mcp_import_order c))))] ++
  (if public_only then [] else [(B"settings", settings c); (B"repo_cfg", repo_cfg c)]).

Definition entries (c : tny_ctx) (public_only : bool) : list (bytes * option jval) := string_entries c public_only ++ other_entries c public_only.

Definition members (es : list (bytes * option jval)) : list (bytes * jval) := omap (fun '(k, v) => pair k <$> v) es.

Definition all_there (vs : list (option bytes)) : bool := forallb (fun v => bool_decide (is_Some v)) vs.

(** What is checked on the way. *)
Definition encodable (c : tny_ctx) (public_only : bool) : bool :=
  forallb (fun '(_, m) => mem_byte NUL (array c m)) arrays && all_there (extra_dirs c) && all_there (instruction_paths c) &&
  (public_only || ((Z.of_nat (length (header_lines c)) <=? INT_MAX) && (length (default [] (agent_argv c)) <=? ARGV_MAX)%nat)) &&
  (length (mcp_import_order c) <=? 4)%nat.

Definition encode (c : tny_ctx) (public_only : bool) : option (list (bytes * jval)) :=
  if encodable c public_only then Some (members (entries c public_only)) else None.

(** ** Restoring; [None] is a snapshot that is refused *)

Definition absent (v : option jval) : bool := match v with None | Some JNull => true | _ => false end.

Definition optional_string (v : option jval) : option (option bytes) :=
  match v with
  | None | Some JNull => Some None
  | Some (JStr s) => if mem_byte NUL s then None else Some (Some s)
  | _ => None
  end.

Definition restore_fixed (size : nat) (old : bytes) (v : option jval) : option bytes :=
  text ← optional_string v;
  if (length (default [] text) <? size)%nat then Some (write_array old (default [] text)) else None.

Definition restore_bool (v : option jval) : option bool :=
  match v with None | Some JNull => Some false | Some (JBool b) => Some b | _ => None end.

(** [restore_number] of an [int], and of an unsigned type up to [max]. *)
Definition restore_int (v : option jval) : option Z :=
  match v with
  | None | Some JNull => Some 0
  | Some (JNum (JUint n)) => if n <=? INT_MAX then Some n else None
  | Some (JNum (JSint n)) => if (INT_MIN <=? n) && (n <=? INT_MAX) then Some n else None
  | _ => None
  end.

Definition restore_uint (max : Z) (v : option jval) (fallback : Z) : option Z :=
  match v with
  | None | Some JNull => Some fallback
  | Some (JNum (JUint n)) => if n <=? max then Some n else None
  | Some (JNum (JSint n)) => if (0 <=? n) && (n <=? max) then Some n else None
  | _ => None
  end.

Definition restore_enum {E} (to_enum : Z -> option E) (v : option jval) : option E := n ← restore_int v; to_enum n.

Definition array_size (v : option jval) : option nat :=
  if absent v || is_arr v
  then let n := length (arr_items v) in if (Z.of_nat n <=? INT_MAX) && (Z.of_nat n <? SIZE_MAX / 8) then Some n else None
  else None.

Definition item_text (item : jval) : option bytes := text ← optional_string (Some item); text.

Definition restore_array (v : option jval) : option (list bytes) :=
  _ ← array_size v;
  mapM item_text (arr_items v).

(** An array that may stay as it was. *)
Definition restore_argv (old : option (list bytes)) (v : option jval) : option (option (list bytes)) :=
  match v with Some v => Some <$> restore_array (Some v) | None => Some old end.

(** Member after member. *)
Fixpoint set_all {M V} `{EqDecision M} (rows : list (M * option V)) (f : M -> V) : option (M -> V) :=
  match rows with
  | [] => Some f
  | (m, v) :: rows => v ← v; set_all rows (set m v f)
  end.

Definition swarm_consistent (str : string_member -> option bytes) (digest : bytes) (cap participants : Z) : bool :=
  match str swarm_definition, str swarm_source with
  | None, None => (length digest =? 0)%nat && (participants =? 0)
  | Some _, Some source => negb (length source =? 0)%nat && (length digest =? 64)%nat && (1 <=? participants) && (cap =? participants)
  | _, _ => false
  end.

Definition restore_order (v : option jval) : option (list Z) :=
  n ← array_size v;
  if (n <=? 4)%nat then mapM (fun item => if absent (Some item) then None else restore_uint UINT32_MAX (Some item) 0) (arr_items v) else None.

Section checkpoint.
(** The JSON reader and writer, the file system, whether the extension host was
    made for a directory, a workspace and a timeout, and whether the digest had
    memory. *)
Context (jparse : bytes -> option jval) (jwrite : jval -> option bytes) (h : host) (extensions_new : option bytes -> option bytes -> Z -> bool) (calloc_ok : bool).

Definition restore_document (old v : option jval) : option (option jval) :=
  match v with
  | None => Some old
  | Some v => json ← jwrite v; doc ← jparse json; Some (Some doc)
  end.

Definition enable_extensions (c : tny_ctx) : option tny_ctx :=
  if flag c extensions_enabled
  then if extensions_new (str c tny_dir) (str c cwd) (num c extension_timeout_ms) then Some (with_extensions c true) else None
  else Some c.

Definition restore (r : option jval) : option tny_ctx :=
  if negb (is_obj r) then None
  else
    dir ← optional_string (jget r B"cwd"); dir ← dir;
    state ← optional_string (jget r B"tny_dir"); state ← state;
    c ← tny_ctx_new_explicit h dir state;
    if negb (forallb (fun m => bool_decide (is_Some (str c m)))
               [settings_path; provider_name; sandbox_mode; base_url; auth_header_name; auth_header_prefix; instructions_snapshot]) then None
    else
      strs ← set_all (map (fun '(name, m, _) => (m, optional_string (jget r name))) strings) (str c);
      arrs ← set_all (map (fun '(name, m) => (m, restore_fixed (array_size_of m) (array c m) (jget r name))) arrays) (array c);
      flags ← set_all (map (fun '(name, m) => (m, restore_bool (jget r name))) bools) (flag c);
      nums ← set_all (map (fun '(name, m) => (m, restore_int (jget r name))) ints) (num c);
      if negb ((-1 <=? nums backend) && (nums backend <? TNY_BK_COUNT) && (-1 <=? nums swarm_cap) && (nums swarm_cap <=? 16) &&
               (0 <=? nums swarm_participants) && (nums swarm_participants <=? 16) &&
               swarm_consistent strs (c_str (arrs swarm_definition_digest)) (nums swarm_cap) (nums swarm_participants)) then None
      else
        mode ← restore_enum mode_of (jget r B"perm_mode");
        profile ← restore_enum profile_of (jget r B"tool_profile");
        image ← restore_enum policy_of (jget r B"image_input");
        result_bytes ← restore_uint SIZE_MAX (jget r B"max_tool_result_bytes") 32768;
        mask ← restore_uint UINT32_MAX (jget r B"mcp_import_mask") 0;
        key ← restore_uint UINT64_MAX (jget r B"openai_signin_key") 0;
        dirs ← restore_array (jget r B"extra_dirs");
        paths ← restore_array (jget r B"instruction_paths");
        argc ← array_size (jget r B"agent_argv");
        if (ARGV_MAX <? argc)%nat then None
        else
          argv ← restore_argv (agent_argv c) (jget r B"agent_argv");
          headers ← restore_array (jget r B"extra_headers");
          order ← restore_order (jget r B"mcp_import_order");
          settings' ← restore_document (settings c) (jget r B"settings");
          repo ← restore_document (repo_cfg c) (jget r B"repo_cfg");
          Some (mk_ctx strs flags nums arrs mode profile image result_bytes mask key 0 (map Some dirs) (map Some paths) (Some headers) argv order
                  settings' repo (extensions c)).

(** ** The identity of a connection *)

(** A settings document without what a run remembers in it. *)
Definition without_memory (v : jval) : jval :=
  match v with JObj ms => JObj (obj_remove B"models" (obj_remove B"last_backend" (obj_remove B"last_provider" ms))) | _ => v end.

Definition escape_document (b : bytes) (v : option jval) : option bytes :=
  match v with
  | None => jescape b (Some B"{}")
  | Some v => text ← jwrite v; jescape b (Some text)
  end.

Definition hex_pairs (digest : bytes) : bytes := concat (map (fun b => [hex_lower (Z.shiftr b 4); hex_lower (Z.land b 15)]) digest).

Definition identity_text (c : tny_ctx) : option bytes :=
  b ← jescape [] (Some (default [] (str c base_url)));
  b ← jescape b (Some (default [] (str c auth_header_name)));
  b ← jescape b (Some (default [] (str c auth_header_prefix)));
  b ← jescape b (Some (c_str (array c swarm_definition_digest)));
  b ← fold_left (fun b line => b ← b; jescape b (Some line)) (header_lines c) (Some b);
  b ← escape_document b (without_memory <$> settings c);
  escape_document b (repo_cfg c).

Definition identity (c : tny_ctx) : option bytes :=
  text ← identity_text c;
  digest ← Digest.sha256 calloc_ok text;
  Some (hex_pairs digest).

(** ** Recovery *)

Definition public_key (name : bytes) : bool :=
  existsb (fun '(f, _, private) => negb private && str_eq name f) strings || existsb (fun '(f, _) => str_eq name f) bools ||
  str_in name
    [B"backend"; B"max_extension_iterations"; B"extension_timeout_ms"; B"max_steps"; B"swarm_cap"; B"swarm_participants"; B"perm_mode";
   B"tool_profile"; B"image_input"; B"ws_hash"; B"ssh_port"; B"task_digest"; B"instructions_digest"; B"swarm_definition_digest";
   B"max_tool_result_bytes"; B"mcp_import_mask"; B"extra_dirs"; B"instruction_paths"; B"mcp_import_order"; B"identity"].

Definition routing_prefix : bytes := B"x-grok-model-override: ".

(** The first line that routes the model. *)
Fixpoint routing_at (hs : list bytes) : option nat :=
  match hs with
  | [] => None
  | line :: hs => if has_prefix routing_prefix line then Some 0%nat else S <$> routing_at hs
  end.

(** The routing line is made again, where it was. *)
Definition finish_profile (c : tny_ctx) : option tny_ctx :=
  if negb (bool_decide (str c provider_name = Some B"grok")) || negb (contains B"cli-chat-proxy" (default [] (str c base_url))) then Some c
  else
    let kept := List.filter (fun line => negb (has_prefix routing_prefix line)) (header_lines c) in
    let n := length kept in
    let c' := with_headers c (const kept <$> extra_headers c) in
    match str c model with
    | Some ((_ :: _) as m) =>
      if INT_MAX - 2 <? Z.of_nat n then None
      else
        let c2 := tny_finish_builtin_profile c' in
        let hs := header_lines c2 in
        if negb ((length hs =? n + 1)%nat && str_eq (nth n hs []) (routing_prefix ++ m)) then None
        else
          match routing_at (header_lines c) with
          | Some k => if (k <? n)%nat then Some (with_headers c2 (Some (take k hs ++ nth n hs [] :: drop k (take n hs)))) else Some c2
          | None => Some c2
          end
    | _ => Some c'
    end.

(** The members of the saved document, each once, over those of the context. *)
Fixpoint put_saved (saved : list (bytes * jval)) (seen : list bytes) (merged : list (bytes * jval)) : option (list (bytes * jval)) :=
  match saved with
  | [] => Some merged
  | (k, v) :: saved =>
    if mem_byte NUL k || negb (public_key k) || str_in k seen then None
    else put_saved saved (k :: seen) (obj_put k v merged)
  end.

Definition recover (resolved : tny_ctx) (saved : option jval) : option tny_ctx :=
  if negb (bool_decide (is_Some (str resolved cwd))) || negb (is_obj saved) then None
  else
    saved_identity ← optional_string (jget saved B"identity"); saved_identity ← saved_identity;
    provider ← optional_string (jget saved B"provider_name"); provider ← provider;
    dir ← optional_string (jget saved B"cwd"); dir ← dir;
    if negb (bool_decide (str resolved cwd = Some dir) && str_eq provider (tny_provider_name resolved) &&
             (num resolved backend =? TNY_BK_OPENAI) && (jget_int saved B"backend" (-1) =? TNY_BK_OPENAI) &&
             negb (jget_bool saved B"no_save" true) && negb (jget_bool saved B"library_mode" true) &&
             (mode_number Perm.TNY_MODE_ASK <=? jget_int saved B"perm_mode" (-1)) &&
             (jget_int saved B"tool_profile" 99 <=? profile_number TNY_TOOLS_TERMINAL)) then None
    else if negb ((jget_int saved B"perm_mode" 99 <=? mode_number (perm_mode resolved)) &&
                  (profile_number (tool_profile resolved) <=? jget_int saved B"tool_profile" (-1))) then None
    else if flag resolved workspace_read_only && negb (jget_bool saved B"workspace_read_only" false) then None
    else
      merged ← encode resolved false;
      merged ← put_saved (obj_members saved) [] merged;
      c ← restore (Some (JObj merged));
      c ← finish_profile c;
      digest ← identity c;
      if str_eq saved_identity digest then enable_extensions c else None.

(** ** The entry points; [memory]: no allocation failed *)

Definition tny_checkpoint_context (memory : bool) (c : tny_ctx) : option jval :=
  if memory then JObj <$> encode c false else None.

Definition tny_checkpoint_context_restore (memory : bool) (r : option jval) : option tny_ctx :=
  if memory then c ← restore r; enable_extensions c else None.

Definition tny_checkpoint_public (memory : bool) (c : tny_ctx) : option jval :=
  if memory then ms ← encode c true; digest ← identity c; Some (JObj (ms ++ [(B"identity", JStr digest)])) else None.

Definition tny_checkpoint_recover (memory : bool) (resolved : tny_ctx) (saved : option jval) : option tny_ctx :=
  if memory then recover resolved saved else None.

End checkpoint.

(** ** Lemmas: the tables *)

Definition entry_keys (public_only : bool) : list bytes :=
  map (fun '(name, _, _) => name) strings ++ map fst arrays ++ map fst bools ++ map fst ints ++
  [B"perm_mode"; B"tool_profile"; B"image_input"; B"max_tool_result_bytes"; B"mcp_import_mask"; B"extra_dirs"; B"instruction_paths"] ++
  (if public_only then [] else [B"openai_signin_key"; B"extra_headers"; B"agent_argv"]) ++
  [B"mcp_import_order"] ++ (if public_only then [] else [B"settings"; B"repo_cfg"]).

Lemma entries_keys c p : map fst (entries c p) = entry_keys p.
Proof. by destruct p. Qed.

Lemma entry_keys_nodup p : NoDup (entry_keys p).
Proof. destruct p; by apply (bool_decide_eq_true_1 _). Qed.

Lemma string_row m : exists name p, In (name, m, p) strings.
Proof.
  destruct (List.find (fun '(_, m', _) => bool_decide (m' = m)) strings) as [[[name m'] p]|] eqn:E.
  - apply List.find_some in E as [Hin Hm]. apply bool_decide_eq_true in Hm as ->. by exists name, p.
  - destruct m; vm_compute in E; discriminate.
Qed.

Lemma array_row m : exists name, In (name, m) arrays.
Proof. destruct m; eexists; cbn; tauto. Qed.

Lemma bool_row m : exists name, In (name, m) bools.
Proof.
  destruct (List.find (fun '(_, m') => bool_decide (m' = m)) bools) as [[name m']|] eqn:E.
  - apply List.find_some in E as [Hin Hm]. apply bool_decide_eq_true in Hm as ->. by exists name.
  - destruct m; vm_compute in E; discriminate.
Qed.

Lemma int_row m : exists name, In (name, m) ints.
Proof. destruct m; eexists; cbn; tauto. Qed.

Lemma members_some es k : In k (keys (members es)) -> exists v, In (k, Some v) es.
Proof.
  intros H. apply in_map_iff in H as ([k' v] & <- & H). apply list_elem_of_In, list_elem_of_omap in H as ([k v'] & Hin & H).
  destruct v' as [v'|]; [|done]. injection H as -> ->. apply list_elem_of_In in Hin. by exists v.
Qed.

Lemma members_keys es k : In k (keys (members es)) -> In k (map fst es).
Proof. intros (v & H)%members_some. by apply (in_map fst) in H. Qed.

Lemma members_nodup es : NoDup (map fst es) -> NoDup (keys (members es)).
Proof.
  induction es as [|[k [v|]] es IH]; [constructor| |]; cbn [map fst]; intros [Hk Hnd]%list.NoDup_cons; cbn [members omap list_omap fmap option_fmap option_map];
    fold (members es); [|by apply IH].
  cbn [keys map fst]. apply list.NoDup_cons. split; [|by apply IH]. intros H%list_elem_of_In%members_keys. by apply Hk, list_elem_of_In.
Qed.

Lemma members_assoc es k v : NoDup (map fst es) -> In (k, v) es -> assoc k (members es) = v.
Proof.
  induction es as [|[k' v'] es IH]; [done|]. cbn [map fst]. intros [Hk Hnd]%list.NoDup_cons [[= -> ->]|Hin]; cbn [members omap list_omap].
  - fold (members es). destruct v as [v|]; cbn [fmap option_fmap option_map assoc]; [by rewrite str_eq_refl|].
    apply assoc_none. intros H%members_keys. by apply Hk, list_elem_of_In.
  - fold (members es). destruct v' as [v'|]; cbn [fmap option_fmap option_map assoc]; [|by apply IH].
    destruct (str_eq k' k) eqn:E; [|by apply IH]. apply str_eq_true in E as ->. destruct Hk. apply list_elem_of_In. by apply (in_map fst) in Hin.
Qed.

Lemma entry_assoc c p k v : In (k, v) (entries c p) -> assoc k (members (entries c p)) = v.
Proof. apply members_assoc. rewrite entries_keys. apply entry_keys_nodup. Qed.

Lemma string_entry c p name m private : In (name, m, private) strings ->
  assoc name (members (entries c p)) =
  if p && private then None else match shown c p m with Some text => Some (JStr text) | None => if p then Some JNull else None end.
Proof. intros H. apply entry_assoc. unfold entries. apply in_or_app. left. apply in_map_iff. by exists (name, m, private). Qed.

Lemma other_entry c p k v : In (k, v) (other_entries c p) -> assoc k (members (entries c p)) = v.
Proof. intros H. apply entry_assoc, in_or_app. by right. Qed.

Lemma array_other c p name m : In (name, m) arrays -> In (name, Some (JStr (c_str (array c m)))) (other_entries c p).
Proof. intros H. unfold other_entries. apply in_or_app. left. apply in_map_iff. by exists (name, m). Qed.

Lemma bool_other c p name m : In (name, m) bools -> In (name, Some (JBool (flag c m))) (other_entries c p).
Proof. intros H. unfold other_entries. apply in_or_app. right. apply in_or_app. left. apply in_map_iff. by exists (name, m). Qed.

Lemma int_other c p name m : In (name, m) ints -> In (name, Some (json_int (num c m))) (other_entries c p).
Proof. intros H. unfold other_entries. do 2 (apply in_or_app; right). apply in_or_app. left. apply in_map_iff. by exists (name, m). Qed.

(** A member that has a row of its own. *)
Ltac own_entry := unfold other_entries; do 3 (apply in_or_app; right); cbn [app In]; tauto.

(** ** Lemmas: the loop over a table *)

Lemma set_all_get {M V} `{EqDecision M} (rows : list (M * option V)) f f' : set_all rows f = Some f' -> NoDup (map fst rows) ->
  (forall m v, In (m, v) rows -> v = Some (f' m)) /\ forall m, ~ In m (map fst rows) -> f' m = f m.
Proof.
  revert f. induction rows as [|[m [v|]] rows IH]; intros f; cbn [set_all mbind option_bind map fst]; [|intros E|done].
  - intros [= <-] _. split; [by intros ? ? []|done].
  - intros [Hm Hnd]%list.NoDup_cons. destruct (IH _ E Hnd) as [H1 H2]. assert (~ In m (map fst rows)) as Hm' by by rewrite <- list_elem_of_In.
    split.
    + intros m' v' [[= <- <-]|Hin]; [|by apply H1]. by rewrite H2, set_same.
    + intros m' Hm2. cbn [In] in Hm2. rewrite H2 by tauto. apply set_other. tauto.
Qed.

Lemma set_all_total {M V} `{EqDecision M} (rows : list (M * option V)) f (g : M -> V) : (forall m v, In (m, v) rows -> v = Some (g m)) ->
  exists f', set_all rows f = Some f'.
Proof.
  revert f. induction rows as [|[m v] rows IH]; intros f H; [by exists f|]. cbn [set_all]. rewrite (H m v) by by left. cbn [mbind option_bind].
  apply IH. intros m' v' Hin. apply H. by right.
Qed.

Lemma arrays_nodup : NoDup (map snd arrays).
Proof. by apply (bool_decide_eq_true_1 _). Qed.
Lemma bools_nodup : NoDup (map snd bools).
Proof. by apply (bool_decide_eq_true_1 _). Qed.
Lemma ints_nodup : NoDup (map snd ints).
Proof. by apply (bool_decide_eq_true_1 _). Qed.

(** The loop over a table of named members. *)
Lemma set_table {M V} `{EqDecision M} (table : list (bytes * M)) (get : bytes -> M -> option V) f f' :
  NoDup (map snd table) -> set_all (map (fun '(name, m) => (m, get name m)) table) f = Some f' ->
  forall name m, In (name, m) table -> get name m = Some (f' m).
Proof.
  intros Hnd E name m Hin. destruct (set_all_get _ _ _ E) as [H _].
  - rewrite map_map. rewrite (map_ext _ snd); [done|by intros []].
  - apply H, in_map_iff. by exists (name, m).
Qed.

Lemma set_table_total {M V} `{EqDecision M} (table : list (bytes * M)) (get : bytes -> M -> option V) (g : M -> V) f :
  (forall name m, In (name, m) table -> get name m = Some (g m)) -> exists f', set_all (map (fun '(name, m) => (m, get name m)) table) f = Some f'.
Proof. intros H. apply (set_all_total _ f g). intros m v Hin. apply in_map_iff in Hin as ([name m'] & [= -> <-] & Hin). by apply H. Qed.

(** A loop over a table with every member. *)
Lemma set_table_exact {M V} `{EqDecision M} (table : list (bytes * M)) (get : bytes -> M -> option V) (g : M -> V) f :
  NoDup (map snd table) -> (forall m, exists name, In (name, m) table) -> (forall name m, In (name, m) table -> get name m = Some (g m)) ->
  exists f', set_all (map (fun '(name, m) => (m, get name m)) table) f = Some f' /\ forall m, f' m = g m.
Proof.
  intros Hnd Hall Hget. destruct (set_table_total table get g f Hget) as [f' E]. exists f'. split; [done|]. intros m. destruct (Hall m) as [name Hin].
  pose proof (set_table _ _ _ _ Hnd E name m Hin) as H. rewrite (Hget _ _ Hin) in H. congruence.
Qed.

(** The table of strings, without the marks. *)
Definition string_names : list (bytes * string_member) := map fst strings.

Lemma strings_as_table {V} (get : bytes -> string_member -> V) :
  map (fun '(name, m, _) => (m, get name m)) strings = map (fun '(name, m) => (m, get name m)) string_names.
Proof. unfold string_names. rewrite map_map. apply map_ext. by intros [[] ?]. Qed.

Lemma string_names_nodup : NoDup (map snd string_names).
Proof. by apply (bool_decide_eq_true_1 _). Qed.

Lemma string_names_in name m : In (name, m) string_names <-> exists p, In (name, m, p) strings.
Proof.
  unfold string_names. rewrite in_map_iff. split.
  - intros ([[n' m'] p] & [= -> ->] & H). by exists p.
  - intros [p H]. by exists (name, m, p).
Qed.

Lemma encode_members c p ms : encode c p = Some ms -> ms = members (entries c p).
Proof. unfold encode. destruct (encodable c p); [|discriminate]. intros H. symmetry. exact (Some_inj _ _ H). Qed.

(** ** Lemmas: what a restored context has read *)

Lemma new_explicit_fresh h dir state c : tny_ctx_new_explicit h dir state = Some c ->
  settings c = None /\ repo_cfg c = None /\ agent_argv c = None /\ extensions c = false /\
  forallb (fun m => bool_decide (is_Some (str c m)))
    [settings_path; provider_name; sandbox_mode; base_url; auth_header_name; auth_header_prefix; instructions_snapshot] = true.
Proof.
  unfold tny_ctx_new_explicit. destruct (negb _); [done|]. destruct (path_abs h dir) as [a|]; [|done]. destruct (path_abs h state) as [b|]; [|done].
  cbn [mbind option_bind]. intros [= <-]. unfold instructions_refresh. cbn [str flag num array default]. destruct (collect h _) as [text paths]. done.
Qed.

Definition in_ranges (c : tny_ctx) : bool :=
  (-1 <=? num c backend) && (num c backend <? TNY_BK_COUNT) && (-1 <=? num c swarm_cap) && (num c swarm_cap <=? 16) &&
  (0 <=? num c swarm_participants) && (num c swarm_participants <=? 16) &&
  swarm_consistent (str c) (c_str (array c swarm_definition_digest)) (num c swarm_cap) (num c swarm_participants).

Lemma string_name_row m : exists name, In (name, m) string_names.
Proof. destruct (string_row m) as (name & p & H). exists name. apply string_names_in. by exists p. Qed.

Section restoring.
Context (jparse : bytes -> option jval) (jwrite : jval -> option bytes) (h : host).

(** The context is what the members say. *)
Record reads (get : bytes -> option jval) (c : tny_ctx) : Prop := {
  rd_str name m : In (name, m) string_names -> optional_string (get name) = Some (str c m);
  rd_array name m : In (name, m) arrays -> exists text, optional_string (get name) = Some text /\ default [] text = c_str (array c m) /\
    (length (c_str (array c m)) < array_size_of m)%nat;
  rd_bool name m : In (name, m) bools -> restore_bool (get name) = Some (flag c m);
  rd_int name m : In (name, m) ints -> restore_int (get name) = Some (num c m);
  rd_ranges : in_ranges c = true;
  rd_mode : restore_enum mode_of (get B"perm_mode") = Some (perm_mode c);
  rd_profile : restore_enum profile_of (get B"tool_profile") = Some (tool_profile c);
  rd_image : restore_enum policy_of (get B"image_input") = Some (image_input c);
  rd_bytes : restore_uint SIZE_MAX (get B"max_tool_result_bytes") 32768 = Some (max_tool_result_bytes c);
  rd_mask : restore_uint UINT32_MAX (get B"mcp_import_mask") 0 = Some (mcp_import_mask c);
  rd_key : restore_uint UINT64_MAX (get B"openai_signin_key") 0 = Some (openai_signin_key c);
  rd_dirs : fmap (map Some) (restore_array (get B"extra_dirs")) = Some (extra_dirs c);
  rd_paths : fmap (map Some) (restore_array (get B"instruction_paths")) = Some (instruction_paths c);
  rd_argv : restore_array (get B"agent_argv") = Some (default [] (agent_argv c)) /\ (length (default [] (agent_argv c)) <= ARGV_MAX)%nat;
  rd_headers : restore_array (get B"extra_headers") = Some (header_lines c);
  rd_order : restore_order (get B"mcp_import_order") = Some (mcp_import_order c);
  rd_settings : restore_document jparse jwrite None (get B"settings") = Some (settings c);
  rd_repo : restore_document jparse jwrite None (get B"repo_cfg") = Some (repo_cfg c) }.

Lemma optional_string_clean v text : optional_string v = Some text -> mem_byte NUL (default [] text) = false.
Proof. destruct v as [[| | |s| |]|]; cbn; try done; try (by intros [= <-]). destruct (mem_byte NUL s) eqn:E; [done|]. by intros [= <-]. Qed.

Lemma restore_fixed_some size old v a : restore_fixed size old v = Some a ->
  exists text, optional_string v = Some text /\ default [] text = c_str a /\ (length (c_str a) < size)%nat.
Proof.
  unfold restore_fixed. destruct (optional_string v) as [text|] eqn:E; [|done]. cbn [mbind option_bind].
  destruct (Nat.ltb_spec (length (default [] text)) size); [|done]. intros [= <-]. exists text.
  rewrite c_str_write by by eapply optional_string_clean. done.
Qed.

Lemma restore_array_size v vs : restore_array v = Some vs -> array_size v = Some (length vs).
Proof.
  unfold restore_array. destruct (array_size v) as [n|] eqn:E; [|done]. cbn [mbind option_bind]. intros H. unfold array_size in E.
  destruct (_ || _); [|done]. destruct (_ && _); [|done]. injection E as <-. f_equal. apply mapM_Some in H. by apply Forall2_length in H.
Qed.

(** The strings of the table, for any loop over it. *)
Lemma strings_loop r f f' : set_all (map (fun '(name, m, _) => (m, optional_string (jget r name))) strings) f = Some f' ->
  forall name m, In (name, m) string_names -> optional_string (jget r name) = Some (f' m).
Proof.
  rewrite (strings_as_table (fun name _ => optional_string (jget r name))). intros E. apply (set_table _ _ _ _ string_names_nodup E).
Qed.

Lemma restore_argv_some v argv : restore_argv None v = Some argv -> restore_array v = Some (default [] argv).
Proof. unfold restore_argv. destruct v as [v|]; [|by intros [= <-]]. destruct (restore_array (Some v)); [|done]. by intros [= <-]. Qed.

Lemma restore_reads r c : restore jparse jwrite h r = Some c -> reads (jget r) c /\ extensions c = false.
Proof.
  unfold restore. destruct (is_obj r); [|done]. cbn [negb]. intros H.
  apply bind_Some in H as (dir' & _ & H). apply bind_Some in H as (dir & _ & H). apply bind_Some in H as (state' & _ & H).
  apply bind_Some in H as (state & _ & H). apply bind_Some in H as (c0 & Ec0 & H).
  destruct (new_explicit_fresh _ _ _ _ Ec0) as (Hset & Hrepo & Hargv & Hext & Hreq). rewrite Hset, Hrepo, Hargv, Hext, Hreq in H. cbn [negb] in H.
  apply bind_Some in H as (strs & Es & H). apply bind_Some in H as (arrs & Ea & H). apply bind_Some in H as (flags & Ef & H).
  apply bind_Some in H as (nums & En & H). destruct (negb _) eqn:Er in H; [done|]. apply negb_false_iff in Er.
  apply bind_Some in H as (mode & E1 & H). apply bind_Some in H as (profile & E2 & H). apply bind_Some in H as (image & E3 & H).
  apply bind_Some in H as (rb & E4 & H). apply bind_Some in H as (mask & E5 & H). apply bind_Some in H as (key & E6 & H).
  apply bind_Some in H as (dirs & E7 & H). apply bind_Some in H as (paths & E8 & H). apply bind_Some in H as (argc & E9 & H).
  destruct (Nat.ltb_spec ARGV_MAX argc) as [|Hargc]; [done|]. apply bind_Some in H as (argv & E10%restore_argv_some & H).
  apply bind_Some in H as (headers & E11 & H). apply bind_Some in H as (order & E12 & H). apply bind_Some in H as (st & E13 & H).
  apply bind_Some in H as (rp & E14 & H). injection H as <-. split; [|done].
  pose proof (set_table arrays (fun name m => restore_fixed (array_size_of m) (array c0 m) (jget r name)) _ _ arrays_nodup Ea) as Ha.
  constructor; cbn [str array flag num perm_mode tool_profile image_input max_tool_result_bytes mcp_import_mask openai_signin_key
    extra_dirs instruction_paths agent_argv extra_headers mcp_import_order settings repo_cfg header_lines default]; try done.
  - by eapply strings_loop.
  - intros name m Hin. eapply restore_fixed_some. by apply Ha.
  - apply (set_table bools (fun name m => restore_bool (jget r name)) _ _ bools_nodup Ef).
  - apply (set_table ints (fun name m => restore_int (jget r name)) _ _ ints_nodup En).
  - by rewrite E7.
  - by rewrite E8.
  - split; [done|]. apply restore_array_size in E10. rewrite E10 in E9. injection E9 as <-. done.
Qed.

Lemma restore_fixed_total get t old m name : reads get t -> In (name, m) arrays ->
  restore_fixed (array_size_of m) old (get name) = Some (write_array old (c_str (array t m))).
Proof.
  intros Hr Hin. destruct (rd_array _ _ Hr name m Hin) as (text & E & Et & Hl). unfold restore_fixed. rewrite E. cbn [mbind option_bind].
  rewrite Et, (proj2 (Nat.ltb_lt _ _)) by done. done.
Qed.

Lemma in_ranges_ext c strs nums digest : (forall m, strs m = str c m) -> (forall m, nums m = num c m) -> digest = c_str (array c swarm_definition_digest) ->
  (-1 <=? nums backend) && (nums backend <? TNY_BK_COUNT) && (-1 <=? nums swarm_cap) && (nums swarm_cap <=? 16) &&
  (0 <=? nums swarm_participants) && (nums swarm_participants <=? 16) &&
  swarm_consistent strs digest (nums swarm_cap) (nums swarm_participants) = in_ranges c.
Proof. intros Hs Hn ->. unfold in_ranges, swarm_consistent. by rewrite !Hs, !Hn. Qed.

(** What a context says is restored. *)
Lemma reads_restore r t dir state c0 : is_obj r = true -> reads (jget r) t -> str t cwd = Some dir -> str t tny_dir = Some state ->
  tny_ctx_new_explicit h dir state = Some c0 -> exists c, restore jparse jwrite h r = Some c /\ ctx_equiv c t.
Proof.
  intros Ho Hr Hdir Hstate Ec0. destruct (new_explicit_fresh _ _ _ _ Ec0) as (Hset & Hrepo & Hargv & Hext & Hreq).
  unfold restore. rewrite Ho. cbn [negb]. rewrite (rd_str _ _ Hr B"cwd" cwd), Hdir by (cbn; tauto). cbn [mbind option_bind].
  rewrite (rd_str _ _ Hr B"tny_dir" tny_dir), Hstate by (cbn; tauto). cbn [mbind option_bind]. rewrite Ec0. cbn [mbind option_bind]. rewrite Hreq. cbn [negb].
  rewrite (strings_as_table (fun name _ => optional_string (jget r name))).
  destruct (set_table_exact string_names (fun name _ => optional_string (jget r name)) (str t) (str c0)) as (strs & -> & Hs);
    [apply string_names_nodup|apply string_name_row|apply (rd_str _ _ Hr)|].
  destruct (set_table_exact arrays (fun name m => restore_fixed (array_size_of m) (array c0 m) (jget r name))
    (fun m => write_array (array c0 m) (c_str (array t m))) (array c0)) as (arrs & -> & Ha);
    [apply arrays_nodup|apply array_row|intros name m; by apply restore_fixed_total|].
  destruct (set_table_exact bools (fun name m => restore_bool (jget r name)) (flag t) (flag c0)) as (flags & -> & Hf);
    [apply bools_nodup|apply bool_row|apply (rd_bool _ _ Hr)|].
  destruct (set_table_exact ints (fun name m => restore_int (jget r name)) (num t) (num c0)) as (nums & -> & Hn);
    [apply ints_nodup|apply int_row|apply (rd_int _ _ Hr)|].
  assert (forall m, c_str (arrs m) = c_str (array t m)) as Ha' by (intros m; rewrite Ha; apply c_str_write, c_str_clean).
  cbn [mbind option_bind]. rewrite (in_ranges_ext t _ _ _ Hs Hn (Ha' _)), (rd_ranges _ _ Hr). cbn [negb].
  rewrite (rd_mode _ _ Hr), (rd_profile _ _ Hr), (rd_image _ _ Hr), (rd_bytes _ _ Hr), (rd_mask _ _ Hr), (rd_key _ _ Hr). cbn [mbind option_bind].
  destruct (restore_array (jget r B"extra_dirs")) as [dirs|] eqn:Ed; [|by pose proof (rd_dirs _ _ Hr); rewrite Ed in *].
  destruct (restore_array (jget r B"instruction_paths")) as [paths|] eqn:Ep; [|by pose proof (rd_paths _ _ Hr); rewrite Ep in *].
  cbn [mbind option_bind]. destruct (rd_argv _ _ Hr) as [Hav Hle]. rewrite (restore_array_size _ _ Hav). cbn [mbind option_bind].
  rewrite (proj2 (Nat.ltb_ge _ _)) by done. rewrite Hset, Hrepo, Hargv, (rd_headers _ _ Hr), (rd_order _ _ Hr), (rd_settings _ _ Hr), (rd_repo _ _ Hr).
  assert (exists argv, restore_argv None (jget r B"agent_argv") = Some argv /\ default [] argv = default [] (agent_argv t)) as (argv & -> & Eargv).
  { unfold restore_argv. destruct (jget r B"agent_argv") as [v|]; [rewrite Hav; by eexists|]. exists None. split; [done|].
    change (Some (default [] (@None (list bytes))) = Some (default [] (agent_argv t))) in Hav. congruence. }
  cbn [mbind option_bind]. eexists. split; [done|]. pose proof (rd_dirs _ _ Hr) as H1. pose proof (rd_paths _ _ Hr) as H2. rewrite Ed in H1. rewrite Ep in H2.
  cbn [fmap option_fmap option_map] in H1, H2. constructor; try done; cbn; congruence.
Qed.

End restoring.

(** ** Lemmas: reading what was written *)

Definition clean (s : bytes) : Prop := mem_byte NUL s = false.

Lemma restore_int_written n : INT_MIN <= n <= INT_MAX ->
  restore_int (Some (json_int n)) = Some n /\ restore_int (Some (wire (json_int n))) = Some n.
Proof.
  intros [H1%Z.leb_le H2%Z.leb_le]. unfold restore_int, json_int. cbn [wire]. rewrite H1, H2. split; [done|].
  destruct (0 <=? n); by rewrite ?H1, H2.
Qed.

Lemma restore_enum_written {E} (to_enum : Z -> option E) n e : INT_MIN <= n <= INT_MAX -> to_enum n = Some e ->
  restore_enum to_enum (Some (json_int n)) = Some e /\ restore_enum to_enum (Some (wire (json_int n))) = Some e.
Proof. intros H He. unfold restore_enum. destruct (restore_int_written n H) as [-> ->]. done. Qed.

Lemma restore_uint_written max n d : n <= max -> restore_uint max (Some (json_uint n)) d = Some n.
Proof. intros H. unfold restore_uint, json_uint. by rewrite (proj2 (Z.leb_le _ _) H). Qed.

Lemma wire_json_strings vs : wire (json_strings vs) = json_strings vs.
Proof. unfold json_strings. cbn [wire]. f_equal. rewrite map_map. by apply map_ext. Qed.

Lemma array_size_written vs : Z.of_nat (length vs) <= INT_MAX -> array_size (Some (JArr vs)) = Some (length vs).
Proof.
  intros H. unfold array_size. cbn [absent is_arr arr_items orb]. rewrite (proj2 (Z.leb_le _ _) H), (proj2 (Z.ltb_lt _ _)); [done|].
  change (SIZE_MAX / 8) with 2305843009213693951. unfold INT_MAX in H. lia.
Qed.

Lemma item_text_clean s : clean s -> item_text (JStr s) = Some s.
Proof. unfold clean, item_text, optional_string. by intros ->. Qed.

Lemma restore_array_written vs : Forall clean vs -> Z.of_nat (length vs) <= INT_MAX -> restore_array (Some (json_strings (map Some vs))) = Some vs.
Proof.
  intros Hc Hl. unfold restore_array, json_strings. rewrite array_size_written by by rewrite !length_map. cbn [mbind option_bind arr_items].
  clear Hl. induction Hc as [|s vs Hs _ IH]; [done|]. cbn [map mapM].
  change (JStr (default [] (Some s))) with (JStr s). rewrite (item_text_clean s Hs). cbn [mbind option_bind].
  by rewrite IH.
Qed.

(** Nothing else is read. *)
Lemma restore_array_exact vs l : restore_array (Some (json_strings (map Some vs))) = Some l -> l = vs.
Proof.
  unfold restore_array. destruct (array_size _); [|done]. cbn [mbind option_bind]. intros H. apply mapM_Some in H. unfold json_strings in H.
  cbn [arr_items] in H. rewrite !map_map in H. revert l H. induction vs as [|v vs IH]; intros l H; inversion H as [|? ? ? ? H1 H2]; subst; [done|].
  f_equal; [|by apply IH]. unfold item_text, optional_string in H1. cbn [default] in H1. unfold Datatypes.id in H1.
  destruct (mem_byte NUL v); [done|]. by injection H1.
Qed.

Lemma restore_order_written o : (length o <= 4)%nat -> Forall (fun n => n <= UINT32_MAX) o -> restore_order (Some (JArr (map json_uint o))) = Some o.
Proof.
  intros Hl Ho. unfold restore_order. rewrite array_size_written by (rewrite length_map; unfold INT_MAX; lia). cbn [mbind option_bind arr_items].
  rewrite (proj2 (Nat.leb_le _ _)) by by rewrite length_map. clear Hl. induction Ho as [|n o Hn _ IH]; [done|]. cbn [map mapM].
  change (absent (Some (json_uint n))) with false. cbn iota. rewrite restore_uint_written by done. cbn [mbind option_bind]. by rewrite IH.
Qed.

Lemma wire_order o : wire (JArr (map json_uint o)) = JArr (map json_uint o).
Proof. cbn [wire]. f_equal. rewrite map_map. by apply map_ext. Qed.

(** ** Contexts as the program makes them *)

Section faithful.
Context (jparse : bytes -> option jval) (jwrite : jval -> option bytes).

(** A document that was read from a text and can be written. *)
Definition kept (v : jval) : Prop := wire v = v /\ exists text, jwrite v = Some text /\ jparse text = Some v.

(** Strings have no NUL, arrays are terminated, numbers fit their types and the
    limits, and a swarm is selected as a whole. *)
Record ctx_ok (c : tny_ctx) : Prop := {
  ok_text m s : str c m = Some s -> clean s;
  ok_array m : mem_byte NUL (array c m) = true /\ (length (array c m) <= array_size_of m)%nat;
  ok_int m : INT_MIN <= num c m <= INT_MAX;
  ok_ranges : in_ranges c = true;
  ok_bytes : max_tool_result_bytes c <= SIZE_MAX; ok_mask : mcp_import_mask c <= UINT32_MAX; ok_key : openai_signin_key c <= UINT64_MAX;
  ok_dirs : exists vs, extra_dirs c = map Some vs /\ Forall clean vs /\ Z.of_nat (length vs) <= INT_MAX;
  ok_paths : exists vs, instruction_paths c = map Some vs /\ Forall clean vs /\ Z.of_nat (length vs) <= INT_MAX;
  ok_headers : Forall clean (header_lines c) /\ Z.of_nat (length (header_lines c)) <= INT_MAX;
  ok_argv : Forall clean (default [] (agent_argv c)) /\ (length (default [] (agent_argv c)) <= ARGV_MAX)%nat;
  ok_order : Forall (fun n => n <= UINT32_MAX) (mcp_import_order c) /\ (length (mcp_import_order c) <= 4)%nat;
  ok_settings : from_option kept True (settings c); ok_repo : from_option kept True (repo_cfg c) }.

Lemma all_there_some vs : all_there (map Some vs) = true.
Proof. unfold all_there. apply forallb_forall. intros v (s & <- & _)%in_map_iff. done. Qed.

Lemma ok_encodable c p : ctx_ok c -> encode c p = Some (members (entries c p)).
Proof.
  intros []. unfold encode. assert (encodable c p = true) as ->; [|done]. unfold encodable.
  destruct ok_dirs0 as (d & -> & _), ok_paths0 as (q & -> & _). rewrite !all_there_some.
  assert (forallb (fun '(_, m) => mem_byte NUL (array c m)) arrays = true) as ->.
  { apply forallb_forall. intros [name m] _. apply ok_array0. }
  destruct ok_headers0 as [_ H1], ok_argv0 as [_ H2], ok_order0 as [_ H3].
  rewrite (proj2 (Z.leb_le _ _) H1), (proj2 (Nat.leb_le _ _) H2), (proj2 (Nat.leb_le _ _) H3). by destruct p.
Qed.

Lemma array_fits c m : ctx_ok c -> (length (c_str (array c m)) < array_size_of m)%nat.
Proof.
  intros H. destruct (ok_array _ H m) as [Hn Hl]. revert Hn Hl. generalize (array_size_of m). induction (array c m) as [|b a IH]; intros n; [done|].
  cbn [mem_byte existsb c_str length]. intros Hn Hl. rewrite Z.eqb_sym. destruct (NUL =? b) eqn:E; cbn [length orb] in *; [lia|].
  specialize (IH (n - 1)%nat Hn ltac:(lia)). lia.
Qed.

Lemma optional_string_text s : clean s -> optional_string (Some (JStr s)) = Some (Some s).
Proof. unfold clean, optional_string. by intros ->. Qed.

(** A document comes back. *)
Lemma restore_document_kept v : from_option kept True v -> restore_document jparse jwrite None v = Some v /\ wire <$> v = v.
Proof. destruct v as [v|]; [|done]. intros (Hw & text & E1 & E2). cbn. by rewrite E1, Hw; cbn; rewrite E2. Qed.

(** Reading the members of an encoded context, written as they are or as a
    reader sees them, gives the context. *)
Lemma entries_read c (get : bytes -> option jval) : ctx_ok c ->
  (forall name m p, In (name, m, p) strings -> optional_string (get name) = Some (str c m)) ->
  (forall k v, In (k, v) (other_entries c false) -> get k = v \/ get k = wire <$> v) -> reads jparse jwrite get c.
Proof.
  intros Hok Hstr Hget.
  assert (forall A (read : option jval -> option A) k v x, In (k, v) (other_entries c false) -> read v = Some x -> read (wire <$> v) = Some x -> read (get k) = Some x) as Hread.
  { intros A read k v x Hin H1 H2. by destruct (Hget k v Hin) as [->| ->]. }
  assert (forall m, -1 <= mode_number m <= 2) as Hmode by (by intros []).
  constructor.
  - intros name m Hin. apply string_names_in in Hin as [p Hin]. by eapply Hstr.
  - intros name m Hin. exists (Some (c_str (array c m))). split; [|split; [done|by apply array_fits]].
    apply (Hread _ optional_string name _ _ (array_other c false name m Hin)); apply optional_string_text, c_str_clean.
  - intros name m Hin. by apply (Hread _ restore_bool name _ _ (bool_other c false name m Hin)).
  - intros name m Hin. apply (Hread _ restore_int name _ _ (int_other c false name m Hin)); by apply restore_int_written, (ok_int _ Hok).
  - apply (ok_ranges _ Hok).
  - apply (Hread _ (restore_enum mode_of) _ (Some (json_int (mode_number (perm_mode c))))); [own_entry|..];
      apply restore_enum_written; try apply mode_roundtrip; by destruct (perm_mode c).
  - apply (Hread _ (restore_enum profile_of) _ (Some (json_int (profile_number (tool_profile c))))); [own_entry|..];
      apply restore_enum_written; try apply profile_roundtrip; by destruct (tool_profile c).
  - apply (Hread _ (restore_enum policy_of) _ (Some (json_int (policy_number (image_input c))))); [own_entry|..];
      apply restore_enum_written; try apply policy_roundtrip; by destruct (image_input c).
  - apply (Hread _ (fun v => restore_uint _ v _) _ (Some (json_uint (max_tool_result_bytes c)))); [own_entry|..]; apply restore_uint_written, (ok_bytes _ Hok).
  - apply (Hread _ (fun v => restore_uint _ v _) _ (Some (json_uint (mcp_import_mask c)))); [own_entry|..]; apply restore_uint_written, (ok_mask _ Hok).
  - apply (Hread _ (fun v => restore_uint _ v _) _ (Some (json_uint (openai_signin_key c)))); [own_entry|..]; apply restore_uint_written, (ok_key _ Hok).
  - destruct (ok_dirs _ Hok) as (vs & E & Hc & Hl).
    rewrite (Hread _ restore_array _ (Some (json_strings (extra_dirs c))) vs); [by rewrite E|own_entry|..]; cbn [fmap option_fmap option_map]; rewrite ?wire_json_strings, E; by apply restore_array_written.
  - destruct (ok_paths _ Hok) as (vs & E & Hc & Hl).
    rewrite (Hread _ restore_array _ (Some (json_strings (instruction_paths c))) vs); [by rewrite E|own_entry|..]; cbn [fmap option_fmap option_map]; rewrite ?wire_json_strings, E; by apply restore_array_written.
  - destruct (ok_argv _ Hok) as [Hc Hl]. split; [|done].
    apply (Hread _ restore_array _ (Some (json_strings (map Some (default [] (agent_argv c)))))); [own_entry|..]; cbn [fmap option_fmap option_map];
      rewrite ?wire_json_strings; apply restore_array_written; try done; unfold ARGV_MAX, INT_MAX in *; lia.
  - destruct (ok_headers _ Hok) as [Hc Hl].
    apply (Hread _ restore_array _ (Some (json_strings (map Some (header_lines c))))); [own_entry|..]; cbn [fmap option_fmap option_map];
      rewrite ?wire_json_strings; by apply restore_array_written.
  - destruct (ok_order _ Hok) as [Ho Hl].
    apply (Hread _ restore_order _ (Some (JArr (map json_uint (mcp_import_order c))))); [own_entry|..]; cbn [fmap option_fmap option_map];
      rewrite ?wire_order; by apply restore_order_written.
  - destruct (restore_document_kept _ (ok_settings _ Hok)) as [H1 H2].
    apply (Hread _ (restore_document jparse jwrite None) _ (settings c)); [own_entry|done|by rewrite H2].
  - destruct (restore_document_kept _ (ok_repo _ Hok)) as [H1 H2].
    apply (Hread _ (restore_document jparse jwrite None) _ (repo_cfg c)); [own_entry|done|by rewrite H2].
Qed.

End faithful.

(** ** Lemmas: what depends on a context only up to [ctx_equiv] *)

Section equivalence.
Context (jwrite : jval -> option bytes) (calloc_ok : bool).

#[export] Instance identity_proper : Proper (ctx_equiv ==> eq) (identity jwrite calloc_ok).
Proof.
  intros c c' H. unfold identity, identity_text. rewrite !(eq_str _ _ H), (eq_array _ _ H), (eq_headers _ _ H), (eq_settings _ _ H), (eq_repo _ _ H).
  done.
Qed.

End equivalence.

Lemma with_headers_equiv c c' hs hs' : ctx_equiv c c' -> default [] hs = default [] hs' -> ctx_equiv (with_headers c hs) (with_headers c' hs').
Proof. intros [] H. by constructor. Qed.

Lemma with_headers_self c : with_headers c (extra_headers c) = c.
Proof. by destruct c. Qed.

(** Only the headers change. *)
Lemma finish_builtin_headers c : tny_finish_builtin_profile c = with_headers c (extra_headers (tny_finish_builtin_profile c)).
Proof.
  unfold tny_finish_builtin_profile. destruct (negb _); [by rewrite with_headers_self|]. destruct (str c model) as [[|b m]|]; try by rewrite with_headers_self.
  destruct (existsb _ _); [|by rewrite with_headers_self]. done.
Qed.

Lemma finish_profile_headers c c1 : finish_profile c = Some c1 -> c1 = with_headers c (extra_headers c1).
Proof.
  unfold finish_profile. destruct (_ || _); [intros [= <-]; by rewrite with_headers_self|].
  destruct (str c model) as [[|b m]|]; try by intros [= <-]. cbn zeta. destruct (_ <? _); [done|]. destruct (negb _); [done|].
  rewrite finish_builtin_headers. destruct (routing_at _) as [k|]; [destruct (k <? _)%nat|]; by intros [= <-].
Qed.

Lemma finish_profile_equiv c c' c1 : ctx_equiv c c' -> finish_profile c = Some c1 -> exists c1', finish_profile c' = Some c1' /\ ctx_equiv c1 c1'.
Proof.
  intros H. unfold finish_profile. rewrite <- !(eq_str _ _ H), <- (eq_headers _ _ H). destruct (_ || _).
  { intros [= <-]. by exists c'. }
  set (kept_lines := List.filter _ _). set (d := with_headers c _). set (d' := with_headers c' _).
  assert (ctx_equiv d d') as Hd.
  { apply with_headers_equiv; [done|]. assert (header_lines c = [] -> kept_lines = []) as H1 by by subst kept_lines; intros ->.
    pose proof (eq_headers _ _ H) as H2. unfold header_lines in *. destruct (extra_headers c), (extra_headers c'); cbn in *; try done;
      first [by apply H1|symmetry; by apply H1]. }
  destruct (str c model) as [[|b m]|]; [by intros [= <-]; exists d'| |by intros [= <-]; exists d'].
  cbn zeta. destruct (_ <? _); [done|]. pose proof (finish_builtin_equiv d d' Hd) as Hh. rewrite <- Hh. destruct (negb _); [done|].
  assert (ctx_equiv (tny_finish_builtin_profile d) (tny_finish_builtin_profile d')) as He.
  { rewrite (finish_builtin_headers d), (finish_builtin_headers d'). by apply with_headers_equiv. }
  destruct (routing_at _) as [k|]; [destruct (k <? _)%nat|]; intros [= <-]; eexists; (split; [done|]); try exact He. by apply with_headers_equiv.
Qed.

(** ** Lemmas: the saved document *)

Lemma put_saved_spec saved seen ms merged : put_saved saved seen ms = Some merged ->
  Forall (fun k => clean k /\ public_key k = true) (keys saved) /\
  forall k, assoc k merged = match assoc k saved with Some v => Some v | None => assoc k ms end.
Proof.
  revert seen ms. induction saved as [|[k v] saved IH]; intros seen ms; cbn [put_saved]; [by intros [= <-]|].
  destruct (mem_byte NUL k) eqn:Ec; [done|]. destruct (public_key k) eqn:Ep; [|done]. destruct (str_in k seen); [done|]. cbn [orb negb].
  intros H. apply IH in H as H'. destruct H' as [H1 H2]. split; [constructor; [done|exact H1]|]. intros k'. rewrite H2, assoc_put. cbn [assoc].
  destruct (str_eq k k') eqn:E; [|done]. apply str_eq_true in E as ->. destruct (assoc k' saved) as [w|] eqn:Ew; [|done].
  exfalso. clear IH H1 H2. apply assoc_key in Ew. assert (forall seen ms, str_in k' seen = true -> put_saved saved seen ms <> Some merged) as Hdup.
  { clear H. induction saved as [|[k2 v2] saved IH]; [done|]. intros seen' ms' Hseen. cbn [put_saved]. destruct Ew as [Ek|Hin].
    - cbn in Ek. subst k2. rewrite Hseen, orb_true_r. done.
    - destruct (_ || _); [done|]. apply IH; [done|]. apply orb_true_iff. by right. }
  apply (Hdup _ _) in H; [done|]. apply orb_true_iff. left. apply str_eq_refl.
Qed.

Lemma put_saved_total saved seen ms : Forall (fun k => clean k /\ public_key k = true) (keys saved) -> NoDup (keys saved) ->
  Forall (fun k => str_in k seen = false) (keys saved) -> exists merged, put_saved saved seen ms = Some merged.
Proof.
  revert seen ms. induction saved as [|[k v] saved IH]; intros seen ms Hk Hnd Hs; [by exists ms|]. cbn [keys map fst] in *.
  apply Forall_cons_iff in Hk as [[Hc Hp] Hk]. apply list.NoDup_cons in Hnd as [Hn Hnd]. apply Forall_cons_iff in Hs as [Hs1 Hs].
  cbn [put_saved]. rewrite Hc, Hp, Hs1. apply IH; [done..|]. rewrite Forall_forall in Hs. apply Forall_forall. intros k' Hin.
  apply orb_false_iff. split; [|by apply Hs]. apply str_eq_false. intros ->. apply Hn. by apply list_elem_of_In.
Qed.

(** Private members have no public name. *)
Lemma private_not_public name m : In (name, m, true) strings -> public_key name = false.
Proof.
  intros H. assert (forallb (fun '(n, _, p) => negb p || negb (public_key n)) strings = true) as Hall by by vm_compute.
  rewrite forallb_forall in Hall. specialize (Hall _ H). cbn in Hall. by apply negb_true_iff in Hall.
Qed.

Lemma not_saved saved k : Forall (fun k => clean k /\ public_key k = true) (keys saved) -> public_key k = false -> assoc k saved = None.
Proof. intros H Hk. apply assoc_none. intros Hin. rewrite Forall_forall in H. destruct (H k Hin). congruence. Qed.

(** ** Lemmas: numbers read twice *)

(** The two readings of a number agree when it is there. *)
Lemma restore_int_jget ms k d n : restore_int (assoc k ms) = Some n -> jget_int (Some (JObj ms)) k d = n \/ jget_int (Some (JObj ms)) k d = d.
Proof.
  unfold restore_int, jget_int, jget. destruct (assoc k ms) as [[| |[u|i|]| | |]|]; try done; try (by right).
  - destruct (Z.leb_spec u INT_MAX); [|done]. intros [= <-]. rewrite (proj2 (Z.leb_le _ _)); [by left|]. unfold INT_MAX, INT64_MAX in *. lia.
  - destruct (_ && _); [|done]. intros [= <-]. by left.
Qed.

Lemma restore_bool_jget ms k b : restore_bool (assoc k ms) = Some b -> jget_bool (Some (JObj ms)) k (negb b) = b \/ absent (assoc k ms) = true.
Proof. unfold restore_bool, jget_bool, jget. destruct (assoc k ms) as [[]|]; try done; try (by right). intros [= <-]. by left. Qed.

Lemma restore_uint_exact max n d x : restore_uint max (Some (json_uint n)) d = Some x -> x = n.
Proof. unfold restore_uint, json_uint. destruct (_ <=? _); [|done]. by intros [= <-]. Qed.

(** What a public snapshot may depend on besides the identity. *)
Record same_public (c c' : tny_ctx) : Prop := {
  sp_str name m : In (name, m, false) strings -> str c m = str c' m;
  sp_flag m : flag c m = flag c' m; sp_num m : num c m = num c' m; sp_array m : array c m = array c' m;
  sp_mode : perm_mode c = perm_mode c'; sp_profile : tool_profile c = tool_profile c'; sp_image : image_input c = image_input c';
  sp_bytes : max_tool_result_bytes c = max_tool_result_bytes c'; sp_mask : mcp_import_mask c = mcp_import_mask c';
  sp_dirs : extra_dirs c = extra_dirs c'; sp_paths : instruction_paths c = instruction_paths c'; sp_order : mcp_import_order c = mcp_import_order c' }.

Lemma public_entries_same c c' : same_public c c' -> encode c true = encode c' true.
Proof.
  intros H. unfold encode, encodable, entries, other_entries.
  assert (string_entries c true = string_entries c' true) as ->.
  { unfold string_entries. apply map_ext_in. intros [[name m] private] Hin. destruct private; [done|]. cbn [andb]. unfold shown. cbn [andb].
    unfold tny_provider_name. rewrite (sp_num _ _ H), <- (sp_str _ _ H name m Hin). rewrite (sp_str _ _ H B"provider_name" provider_name) by (cbn; tauto). done. }
  rewrite !(sp_mode _ _ H), !(sp_profile _ _ H), !(sp_image _ _ H), !(sp_bytes _ _ H), !(sp_mask _ _ H), !(sp_dirs _ _ H), !(sp_paths _ _ H), !(sp_order _ _ H).
  assert (map (fun '(name, m) => (name, Some (JStr (c_str (array c m))))) arrays = map (fun '(name, m) => (name, Some (JStr (c_str (array c' m))))) arrays) as ->
    by (apply map_ext; intros [name m]; by rewrite (sp_array _ _ H)).
  assert (map (fun '(name, m) => (name, Some (JBool (flag c m)))) bools = map (fun '(name, m) => (name, Some (JBool (flag c' m)))) bools) as ->
    by (apply map_ext; intros [name m]; by rewrite (sp_flag _ _ H)).
  assert (map (fun '(name, m) => (name, Some (json_int (num c m)))) ints = map (fun '(name, m) => (name, Some (json_int (num c' m)))) ints) as ->
    by (apply map_ext; intros [name m]; by rewrite (sp_num _ _ H)).
  assert (forallb (fun '(_, m) => mem_byte NUL (array c m)) arrays = forallb (fun '(_, m) => mem_byte NUL (array c' m)) arrays) as ->; [|done].
  unfold arrays. cbn [forallb]. by rewrite !(sp_array _ _ H).
Qed.

(** The names in a public snapshot. *)
Lemma public_members c k : In k (keys (members (entries c true))) -> clean k /\ public_key k = true.
Proof.
  intros [v Hin]%members_some. apply in_app_or in Hin as [Hin|Hin].
  - unfold string_entries in Hin. apply in_map_iff in Hin as ([[name m] private] & [= <- Hv] & Hin). destruct private; [done|].
    assert (forallb (fun '(n, _, p) => p || (negb (mem_byte NUL n) && public_key n)) strings = true) as H by by vm_compute.
    rewrite forallb_forall in H. specialize (H _ Hin). cbn in H. apply andb_true_iff in H as [H1 H2]. by apply negb_true_iff in H1.
  - apply (in_map fst) in Hin. cbn [fst] in Hin. assert (forallb (fun k => negb (mem_byte NUL k) && public_key k) (map fst (other_entries c true)) = true) as H by reflexivity.
    rewrite forallb_forall in H. specialize (H _ Hin). apply andb_true_iff in H as [H1 H2]. by apply negb_true_iff in H1.
Qed.

(** ** Lemmas: recovery *)

Definition unrouted (hs : list bytes) : list bytes := List.filter (fun line => negb (has_prefix routing_prefix line)) hs.

(** The Grok proxy, which takes the model from a header line of its own. *)
Definition grok_proxy (c : tny_ctx) : Prop :=
  str c provider_name = Some B"grok" /\ contains B"cli-chat-proxy" (default [] (str c base_url)) = true.

(** The routing lines are gone, and there is one for the model if there is one. *)
Definition rerouted (m : option bytes) (hs hs' : list bytes) : Prop :=
  match m with
  | Some ((_ :: _) as m) => exists a b, a ++ b = unrouted hs /\ hs' = a ++ (routing_prefix ++ m) :: b
  | _ => hs' = unrouted hs
  end.

(** Finishing a profile only touches the line that routes the model. *)
Lemma finish_profile_lines c c1 : finish_profile c = Some c1 ->
  header_lines c1 = header_lines c \/ grok_proxy c /\ rerouted (str c model) (header_lines c) (header_lines c1).
Proof.
  unfold finish_profile. destruct (_ || _) eqn:Eg; [intros [= <-]; by left|]. intros H. right.
  apply orb_false_iff in Eg as [Eg1%negb_false_iff%bool_decide_eq_true Eg2%negb_false_iff]. split; [done|]. revert H.
  fold (unrouted (header_lines c)). set (kept_lines := unrouted (header_lines c)).
  set (c' := with_headers c _). assert (header_lines c' = kept_lines) as Hc'.
  { subst c' kept_lines. unfold header_lines. cbn [extra_headers with_headers]. by destruct (extra_headers c). }
  assert (str c' model = str c model) as Em by done. unfold rerouted.
  destruct (str c model) as [[|b m]|]; [by intros [= <-]| |by intros [= <-]]. cbn zeta. destruct (_ <? _); [done|].
  set (n := length kept_lines). assert (header_lines (tny_finish_builtin_profile c') = kept_lines \/
    header_lines (tny_finish_builtin_profile c') = kept_lines ++ [routing_prefix ++ b :: m]) as Hhs.
  { unfold tny_finish_builtin_profile. destruct (negb _); [by left|]. rewrite Em.
    destruct (existsb _ _); [right|by left]. rewrite <- Hc'. reflexivity. }
  destruct (negb _) eqn:E; [done|]. apply negb_false_iff, andb_true_iff in E as [El%Nat.eqb_eq _].
  destruct Hhs as [Hhs|Hhs]; [rewrite Hhs in El; unfold n in El; lia|].
  destruct (routing_at _) as [k|]; [destruct (Nat.ltb_spec k n)|]; intros [= <-].
  - exists (take k kept_lines), (drop k kept_lines). split; [apply take_drop|]. unfold header_lines at 1. cbn [extra_headers with_headers default].
    rewrite Hhs. unfold n in *. rewrite (app_nth2 kept_lines), Nat.sub_diag, take_app_le, take_app_length by lia. done.
  - exists kept_lines, []. by rewrite app_nil_r, Hhs.
  - exists kept_lines, []. by rewrite app_nil_r, Hhs.
Qed.

(** Members that are not stored are private. *)
Lemma other_split c k v : In (k, v) (other_entries c false) ->
  (In (k, v) (other_entries c true) /\ is_Some v) \/ public_key k = false.
Proof.
  unfold other_entries. intros H. repeat (apply in_app_or in H as [H|H]).
  - left. split; [by repeat (first [apply in_or_app; left; exact H|apply in_or_app; right])|]. apply in_map_iff in H as ([name m] & [= <- <-] & _). done.
  - left. split; [by repeat (first [apply in_or_app; left; exact H|apply in_or_app; right])|]. apply in_map_iff in H as ([name m] & [= <- <-] & _). done.
  - left. split; [by repeat (first [apply in_or_app; left; exact H|apply in_or_app; right])|]. apply in_map_iff in H as ([name m] & [= <- <-] & _). done.
  - left. split; [by repeat (first [apply in_or_app; left; exact H|apply in_or_app; right])|]. by repeat (destruct H as [[= <- <-]|H]; [done|]).
  - right. by repeat (destruct H as [[= <- <-]|H]; [by vm_compute|]).
  - left. split; [by do 4 (apply in_or_app; right); left; destruct H as [H|[]]|]. by destruct H as [[= <- <-]|[]].
  - right. by repeat (destruct H as [[= <- <-]|H]; [by vm_compute|]).
Qed.

Lemma hex_pairs_clean d : Forall is_byte d -> clean (hex_pairs d).
Proof.
  unfold hex_pairs, clean. induction 1 as [|b d Hb _ IH]; [done|]. cbn [map concat app]. unfold mem_byte in *. cbn [existsb]. rewrite IH, orb_false_r.
  assert (forall n, 0 <= n -> (NUL =? hex_lower n) = false) as Hn by (intros n Hn; unfold hex_lower; destruct (n <? 10) eqn:E; apply Z.eqb_neq; lia).
  rewrite !Hn; [done|apply Z.land_nonneg; lia|apply Z.shiftr_nonneg; unfold is_byte in Hb; lia].
Qed.

Lemma sha256_bytes calloc_ok s d : Digest.sha256 calloc_ok s = Some d -> Forall is_byte d.
Proof.
  unfold Digest.sha256. destruct calloc_ok; [|done]. intros [= <-]. rewrite store_words_digest. unfold Fips.digest.
  induction (fold_left _ _ _) as [|w ws IH]; [constructor|]. cbn [map concat]. apply Forall_app. split; [apply big_endian_bytes|exact IH].
Qed.

Lemma identity_clean jwrite calloc_ok c digest : identity jwrite calloc_ok c = Some digest -> clean digest.
Proof.
  unfold identity. intros H. apply bind_Some in H as (text & _ & H). apply bind_Some in H as (d & Hd & [= <-]). by eapply hex_pairs_clean, sha256_bytes.
Qed.

#[local] Opaque entries.

(** The document that is stored. *)
Definition stored (c : tny_ctx) (digest : bytes) : list (bytes * jval) := members (entries c true) ++ [(B"identity", JStr digest)].

Lemma stored_keys c digest : Forall (fun k => clean k /\ public_key k = true) (keys (stored c digest)) /\ NoDup (keys (stored c digest)).
Proof.
  unfold stored. rewrite keys_app. split.
  - apply Forall_app. split; [|by repeat constructor]. apply Forall_forall. apply public_members.
  - apply list.NoDup_app. split; [|split; [|apply NoDup_singleton]].
    + apply members_nodup. rewrite entries_keys. apply entry_keys_nodup.
    + intros k Hk%list_elem_of_In%members_keys Hk'. rewrite entries_keys in Hk. apply list_elem_of_singleton in Hk' as ->.
      assert (str_in B"identity" (entry_keys true) = false) as H by by vm_compute. unfold str_in in H.
      assert (existsb (fun w => str_eq B"identity" w) (entry_keys true) = true) as H'; [|congruence]. apply existsb_exists. eexists. split; [exact Hk|apply str_eq_refl].
Qed.

(** What a reader finds in the stored document. *)
Lemma stored_assoc c digest k : public_key k = true -> str_eq B"identity" k = false ->
  assoc k (wire_members (stored c digest)) = wire <$> assoc k (members (entries c true)).
Proof.
  intros _ Hk. rewrite assoc_wire. unfold stored. rewrite assoc_app. destruct (assoc k (members (entries c true))) as [v|]; [done|].
  cbn [assoc]. by rewrite Hk.
Qed.

Lemma stored_string c digest name m : In (name, m, false) strings -> is_Some (str c provider_name) ->
  assoc name (wire_members (stored c digest)) = Some (match str c m with Some s => JStr s | None => JNull end).
Proof.
  intros Hin [pn Hpn].
  assert (forallb (fun '(n, _, p) => p || (public_key n && negb (str_eq B"identity" n))) strings = true) as Hall by by vm_compute.
  rewrite forallb_forall in Hall. specialize (Hall _ Hin). cbn beta iota in Hall. apply andb_true_iff in Hall as [Hk Hid%negb_true_iff].
  rewrite stored_assoc, (string_entry c true name m false Hin) by done. cbn [andb]. unfold shown. cbn [andb].
  case_bool_decide as Hm; [subst m; unfold tny_provider_name; by rewrite Hpn|]. by destruct (str c m).
Qed.

Lemma stored_other c digest k v : In (k, v) (other_entries c true) -> is_Some v -> assoc k (wire_members (stored c digest)) = wire <$> v.
Proof.
  intros Hin Hv. assert (forallb (fun k => public_key k && negb (str_eq B"identity" k)) (map fst (other_entries c true)) = true) as Hall by reflexivity.
  rewrite forallb_forall in Hall. specialize (Hall k (in_map fst _ _ Hin)). apply andb_true_iff in Hall as [Hk Hid%negb_true_iff].
  by rewrite stored_assoc, (other_entry c true k v Hin) by done.
Qed.

Lemma stored_identity c digest : assoc B"identity" (wire_members (stored c digest)) = Some (JStr digest).
Proof.
  rewrite assoc_wire. unfold stored. rewrite assoc_app, (proj2 (assoc_none _ _)); [done|]. intros Hin%members_keys. rewrite entries_keys in Hin.
  assert (str_in B"identity" (entry_keys true) = false) as H by by vm_compute.
  assert (existsb (fun w => str_eq B"identity" w) (entry_keys true) = true) as H'; [|unfold str_in in H; congruence].
  apply existsb_exists. eexists. split; [exact Hin|apply str_eq_refl].
Qed.

(** Numbers and flags as the checks of recovery read them. *)
Lemma jget_int_written ms k n d : assoc k ms = wire <$> Some (json_int n) -> jget_int (Some (JObj ms)) k d = n \/ INT64_MAX < n.
Proof.
  intros E. unfold jget_int. cbn [jget]. rewrite E. cbn [fmap option_fmap option_map json_int wire]. destruct (0 <=? n); [|by left].
  destruct (Z.leb_spec n INT64_MAX); [by left|by right].
Qed.

Lemma jget_bool_written ms k b d : assoc k ms = wire <$> Some (JBool b) -> jget_bool (Some (JObj ms)) k d = b.
Proof. intros E. unfold jget_bool. cbn [jget]. by rewrite E. Qed.

(** The checks of recovery on the stored document. *)
Lemma stored_int c digest k n d : In (k, Some (json_int n)) (other_entries c true) -> n <= INT_MAX -> jget_int (Some (JObj (wire_members (stored c digest)))) k d = n.
Proof.
  intros Hin Hn. destruct (jget_int_written (wire_members (stored c digest)) k n d) as [H|H]; [by apply stored_other|done|].
  unfold INT_MAX, INT64_MAX in *. lia.
Qed.

(** ** Properties *)

Section properties.
Context (jparse : bytes -> option jval) (jwrite : jval -> option bytes) (h : host) (extensions_new : option bytes -> option bytes -> Z -> bool) (calloc_ok : bool).

(** Where a context can be made again. *)
Definition host_ok (c : tny_ctx) : Prop :=
  (exists dir state c0, str c cwd = Some dir /\ str c tny_dir = Some state /\ tny_ctx_new_explicit h dir state = Some c0) /\
  (flag c extensions_enabled = true -> extensions_new (str c tny_dir) (str c cwd) (num c extension_timeout_ms) = true).

Lemma enable_extensions_ok c c' : host_ok c -> ctx_equiv c c' -> exists c2, enable_extensions extensions_new c' = Some c2 /\ ctx_equiv c c2.
Proof using Type.
  intros [_ He] H. unfold enable_extensions. rewrite <- (eq_flag _ _ H), <- !(eq_str _ _ H), <- (eq_num _ _ H).
  destruct (flag c extensions_enabled); [|by exists c']. rewrite He by done. eexists. split; [done|]. destruct H. by constructor.
Qed.

(** C29: the private snapshot, written and read by another process, gives the
    context back: every string, credentials included, every flag, number and
    list, and both configuration documents. *)
Theorem context_snapshot_roundtrip (c : tny_ctx) (Hok : ctx_ok jparse jwrite c) (Hhost : host_ok c) :
  exists r c', tny_checkpoint_context true c = Some r /\
    tny_checkpoint_context_restore jparse jwrite h extensions_new true (Some (wire r)) = Some c' /\ ctx_equiv c c'.
Proof using Type.
  unfold tny_checkpoint_context. rewrite (ok_encodable jparse jwrite c false Hok). cbn [fmap option_fmap option_map].
  exists (JObj (members (entries c false))). rewrite wire_obj.
  destruct Hhost as [(dir & state & c0 & Hdir & Hstate & E0) Hext].
  destruct (reads_restore jparse jwrite h (Some (JObj (wire_members (members (entries c false))))) c dir state c0) as (c1 & E1 & H1); [done| |done..|].
  - apply entries_read; [done| |].
    + intros name m p Hin. cbn [jget]. rewrite assoc_wire, (string_entry c false name m p Hin). cbn [andb shown].
      destruct (str c m) as [s|] eqn:Es; [|done]. cbn [fmap option_fmap option_map wire]. apply optional_string_text. by apply (ok_text _ _ _ Hok m).
    + intros k v Hin. right. cbn [jget]. by rewrite assoc_wire, (other_entry c false k v Hin).
  - unfold tny_checkpoint_context_restore. rewrite E1. cbn [mbind option_bind].
    destruct (enable_extensions_ok c c1) as (c2 & E2 & H2); [by split; [exists dir, state, c0|]|by symmetry|]. by exists c2.
Qed.

(** C17: the public snapshot, which is stored with the session, holds public
    members only, none of the private ones, and two contexts that differ in
    private values alone (credentials, endpoints, headers, commands and
    configuration documents) have the same one unless their identity digests
    differ. *)
Theorem public_snapshot_private (memory : bool) (c : tny_ctx) :
  (forall r, tny_checkpoint_public jwrite calloc_ok memory c = Some r ->
     Forall (fun k => public_key k = true) (keys (obj_members (Some r))) /\ forall name m, In (name, m, true) strings -> jget (Some r) name = None) /\
  (forall c', same_public c c' -> identity jwrite calloc_ok c = identity jwrite calloc_ok c' ->
     tny_checkpoint_public jwrite calloc_ok memory c = tny_checkpoint_public jwrite calloc_ok memory c').
Proof using Type.
  split.
  - intros r. unfold tny_checkpoint_public. destruct memory; [|done]. unfold encode. destruct (encodable c true); [|done]. cbn [mbind option_bind].
    destruct (identity _ _ c) as [digest|]; [|done]. cbn [mbind option_bind]. intros [= <-].
    destruct (stored_keys c digest) as [Hk _]. assert (Forall (fun k => public_key k = true) (keys (stored c digest))) as Hk'.
    { eapply Forall_impl; [|exact Hk]. by intros k []. }
    split; [exact Hk'|]. intros name m Hin. cbn [jget]. apply (not_saved _ _ Hk). by eapply private_not_public.
  - intros c' H Hid. unfold tny_checkpoint_public. by rewrite (public_entries_same c c' H), Hid.
Qed.

(** What recovery takes from the context that was resolved anew: the headers but
    for the line that routes the Grok proxy. *)
Record under_authority (resolved c : tny_ctx) : Prop := {
  ua_cwd : str c cwd = str resolved cwd;
  ua_provider : str c provider_name = Some (tny_provider_name resolved);
  ua_backend : num c backend = TNY_BK_OPENAI;
  ua_mode : mode_number (perm_mode c) <= mode_number (perm_mode resolved);
  ua_profile : profile_number (tool_profile resolved) <= profile_number (tool_profile c);
  ua_read_only : flag resolved workspace_read_only = true -> flag c workspace_read_only = true;
  ua_saved : flag c no_save = false /\ flag c library_mode = false;
  ua_private name m : In (name, m, true) strings -> str c m = str resolved m;
  ua_key : openai_signin_key c = openai_signin_key resolved;
  ua_argv : default [] (agent_argv c) = default [] (agent_argv resolved);
  ua_headers : header_lines c = header_lines resolved \/
    grok_proxy c /\ rerouted (str c model) (header_lines resolved) (header_lines c);
  ua_settings : restore_document jparse jwrite None (settings resolved) = Some (settings c);
  ua_repo : restore_document jparse jwrite None (repo_cfg resolved) = Some (repo_cfg c) }.

(** A member of the saved document, or of the resolved context where that has
    none. *)
Definition taken (resolved : tny_ctx) (saved : list (bytes * jval)) (k : bytes) : option jval :=
  match assoc k saved with Some v => Some v | None => assoc k (members (entries resolved false)) end.

(** A private entry of the resolved context is what is read. *)
Lemma merged_private resolved saved merged k : put_saved saved [] (members (entries resolved false)) = Some merged -> public_key k = false ->
  assoc k merged = assoc k (members (entries resolved false)).
Proof using Type. intros [Hk H]%put_saved_spec Hp. by rewrite H, (not_saved saved k Hk Hp). Qed.

(** A public one that was saved. *)
Lemma merged_saved resolved saved merged k v : put_saved saved [] (members (entries resolved false)) = Some merged -> assoc k saved = Some v ->
  assoc k merged = Some v.
Proof using Type. intros [_ H]%put_saved_spec Hv. by rewrite H, Hv. Qed.

Lemma saved_int resolved saved merged k d n : put_saved saved [] (members (entries resolved false)) = Some merged ->
  jget_int (Some (JObj saved)) k d <> d -> restore_int (assoc k merged) = Some n -> jget_int (Some (JObj saved)) k d = n.
Proof using Type.
  intros Hm Hd H. destruct (assoc k saved) as [v|] eqn:E; [|unfold jget_int in Hd; cbn [jget] in Hd; by rewrite E in Hd].
  rewrite (merged_saved _ _ _ _ _ Hm E), <- E in H. by destruct (restore_int_jget saved k d n H).
Qed.

Lemma saved_bool resolved saved merged k b b' : put_saved saved [] (members (entries resolved false)) = Some merged ->
  jget_bool (Some (JObj saved)) k (negb b) = b -> restore_bool (assoc k merged) = Some b' -> b' = b.
Proof using Type.
  intros Hm Hb H. unfold jget_bool in Hb. cbn [jget] in Hb. destruct (assoc k saved) as [v|] eqn:E; [|by destruct b].
  rewrite (merged_saved _ _ _ _ _ Hm E) in H. destruct v; try (by destruct b). injection H as <-. done.
Qed.

(** Before the profile is finished. *)
Lemma merged_authority resolved saved merged c dir provider : encode resolved false = Some (members (entries resolved false)) ->
  put_saved saved [] (members (entries resolved false)) = Some merged -> reads jparse jwrite (fun k => assoc k merged) c ->
  optional_string (assoc B"cwd" saved) = Some (Some dir) -> str resolved cwd = Some dir ->
  optional_string (assoc B"provider_name" saved) = Some (Some provider) -> provider = tny_provider_name resolved ->
  jget_int (Some (JObj saved)) B"backend" (-1) = TNY_BK_OPENAI ->
  jget_bool (Some (JObj saved)) B"no_save" true = false -> jget_bool (Some (JObj saved)) B"library_mode" true = false ->
  0 <= jget_int (Some (JObj saved)) B"perm_mode" (-1) -> jget_int (Some (JObj saved)) B"perm_mode" 99 <= mode_number (perm_mode resolved) ->
  jget_int (Some (JObj saved)) B"tool_profile" 99 <= 2 -> profile_number (tool_profile resolved) <= jget_int (Some (JObj saved)) B"tool_profile" (-1) ->
  flag resolved workspace_read_only && negb (jget_bool (Some (JObj saved)) B"workspace_read_only" false) = false ->
  under_authority resolved c.
Proof using Type.
  intros Henc Hm Hr Hcwd Hcwd' Hprov Hprov' Hback Hsave Hlib Hm0 Hm1 Hp0 Hp1 Hro.
  assert (forall name m, In (name, m, true) strings -> str c m = str resolved m) as Hpriv.
  { intros name m Hin. assert (In (name, m) string_names) as Hin' by (apply string_names_in; by exists true).
    pose proof (rd_str _ _ _ _ Hr name m Hin') as H. cbn beta in H. rewrite (merged_private _ _ _ _ Hm (private_not_public _ _ Hin)) in H.
    rewrite (string_entry resolved false name m true Hin) in H. cbn [andb shown] in H. destruct (str resolved m) as [s|]; [|by injection H].
    cbn [optional_string] in H. destruct (mem_byte NUL s); [done|]. by injection H. }
  assert (forall k v, public_key k = false -> In (k, v) (other_entries resolved false) -> assoc k merged = v) as Hother.
  { intros k v Hk Hin. rewrite (merged_private _ _ _ _ Hm Hk). by apply other_entry. }
  constructor; try done.
  - rewrite Hcwd'. pose proof (rd_str _ _ _ _ Hr B"cwd" cwd ltac:(cbn; tauto)) as H. cbn beta in H. destruct (assoc B"cwd" saved) as [v|] eqn:E; [|done].
    rewrite (merged_saved _ _ _ _ _ Hm E) in H. congruence.
  - pose proof (rd_str _ _ _ _ Hr B"provider_name" provider_name ltac:(cbn; tauto)) as H. cbn beta in H. destruct (assoc B"provider_name" saved) as [v|] eqn:E; [|done].
    rewrite (merged_saved _ _ _ _ _ Hm E) in H. congruence.
  - pose proof (rd_int _ _ _ _ Hr B"backend" backend ltac:(cbn; tauto)) as H. cbn beta in H.
    by rewrite <- (saved_int _ _ _ _ _ _ Hm ltac:(by rewrite Hback) H).
  - pose proof (rd_mode _ _ _ _ Hr) as H. cbn beta in H. unfold restore_enum in H. apply bind_Some in H as (n & Hn & Hmode). apply mode_of_number in Hmode.
    assert (jget_int (Some (JObj saved)) B"perm_mode" 99 = n) as <-; [|by rewrite Hmode].
    apply (saved_int _ _ _ _ _ _ Hm); [|done]. assert (mode_number (perm_mode resolved) <= 2) by (by destruct (perm_mode resolved)). lia.
  - pose proof (rd_profile _ _ _ _ Hr) as H. cbn beta in H. unfold restore_enum in H. apply bind_Some in H as (n & Hn & Hprofile). apply profile_of_number in Hprofile.
    assert (jget_int (Some (JObj saved)) B"tool_profile" (-1) = n) as <-; [|by rewrite Hprofile].
    apply (saved_int _ _ _ _ _ _ Hm); [|done]. assert (0 <= profile_number (tool_profile resolved)) by (by destruct (tool_profile resolved)). lia.
  - intros Ht. rewrite Ht in Hro. apply negb_false_iff in Hro.
    apply (saved_bool _ _ _ _ true _ Hm Hro), (rd_bool _ _ _ _ Hr). cbn; tauto.
  - split; [apply (saved_bool _ _ _ B"no_save" false _ Hm Hsave), (rd_bool _ _ _ _ Hr); cbn; tauto|].
    apply (saved_bool _ _ _ B"library_mode" false _ Hm Hlib), (rd_bool _ _ _ _ Hr); cbn; tauto.
  - pose proof (rd_key _ _ _ _ Hr) as H. cbn beta in H. rewrite (Hother _ (Some (json_uint (openai_signin_key resolved)))) in H; [by apply restore_uint_exact in H|done|own_entry].
  - pose proof (rd_argv _ _ _ _ Hr) as [H _]. cbn beta in H.
    rewrite (Hother _ (Some (json_strings (map Some (default [] (agent_argv resolved)))))) in H; [by apply restore_array_exact in H|done|own_entry].
  - pose proof (rd_headers _ _ _ _ Hr) as H. cbn beta in H.
    rewrite (Hother _ (Some (json_strings (map Some (header_lines resolved))))) in H; [apply restore_array_exact in H; by left|done|own_entry].
  - pose proof (rd_settings _ _ _ _ Hr) as H. cbn beta in H. by rewrite (Hother _ (settings resolved)) in H; [|done|own_entry].
  - pose proof (rd_repo _ _ _ _ Hr) as H. cbn beta in H. by rewrite (Hother _ (repo_cfg resolved)) in H; [|done|own_entry].
Qed.

Lemma merged_headers resolved saved merged c : put_saved saved [] (members (entries resolved false)) = Some merged ->
  reads jparse jwrite (fun k => assoc k merged) c -> header_lines c = header_lines resolved.
Proof using Type.
  intros Hm Hr. pose proof (rd_headers _ _ _ _ Hr) as H. cbn beta in H.
  rewrite (merged_private _ _ _ _ Hm) in H by done.
  rewrite (other_entry resolved false B"extra_headers" (Some (json_strings (map Some (header_lines resolved))))) in H by own_entry.
  by apply restore_array_exact in H.
Qed.

Lemma reads_ext get get' c : (forall k, get' k = get k) -> reads jparse jwrite get c -> reads jparse jwrite get' c.
Proof using Type. intros E []. constructor; intros; rewrite ?E; eauto. Qed.

(** All that is not the resolved context's is read from the saved document. *)
Lemma recovered_reads resolved saved merged c1 c2 c : put_saved saved [] (members (entries resolved false)) = Some merged ->
  reads jparse jwrite (fun k => assoc k merged) c1 -> finish_profile c1 = Some c2 -> enable_extensions extensions_new c2 = Some c ->
  exists hs e, reads jparse jwrite (taken resolved saved) (with_headers (with_extensions c e) hs).
Proof using Type.
  intros [_ Hk]%put_saved_spec Hr Hf He. exists (extra_headers c1), (extensions c1).
  replace (with_headers (with_extensions c (extensions c1)) (extra_headers c1)) with c1.
  - eapply reads_ext; [|exact Hr]. intros k. unfold taken. by rewrite Hk.
  - apply finish_profile_headers in Hf. assert (exists e, c = with_extensions c2 e) as [e ->].
    { unfold enable_extensions in He. destruct (flag c2 _); [destruct (extensions_new _ _ _); [|done]|]; injection He as <-; [by eexists|].
      exists (extensions c2). by destruct c2. }
    rewrite Hf. by destruct c1.
Qed.

Lemma authority_headers resolved c c' : under_authority resolved c -> header_lines c = header_lines resolved ->
  finish_profile c = Some c' -> under_authority resolved c'.
Proof using Type.
  intros [] Hl Hf. pose proof (finish_profile_headers _ _ Hf) as E. apply finish_profile_lines in Hf. rewrite Hl in Hf.
  assert (str c' = str c) as Es by by rewrite E. unfold grok_proxy in *. rewrite <- Es in Hf. rewrite E in *. constructor; cbn in *; try done.
Qed.

Lemma authority_extensions resolved c e : under_authority resolved c -> under_authority resolved (with_extensions c e).
Proof using Type. intros []. by constructor. Qed.

Lemma extensions_equiv c c' : enable_extensions extensions_new c = Some c' -> ctx_equiv c c' /\ (forall resolved, under_authority resolved c -> under_authority resolved c').
Proof using Type.
  unfold enable_extensions. destruct (flag c _); [destruct (extensions_new _ _ _); [|done]|]; intros [= <-]; [|done].
  split; [by constructor|]. intros resolved. apply authority_extensions.
Qed.

(** C6: a session is only recovered under the authority that was resolved anew:
    same workspace, provider and backend; a permission mode no wider and a tool
    profile no larger; a read-only workspace stays read-only; whatever the saved
    document says, every credential, endpoint, command and configuration document
    is the resolved one, and so is every header, but for the line that routes the
    Grok proxy, which is made anew for the recovered model. The connection is the
    one whose identity was saved. Every other member, the sandbox mode, the extra
    directories and the switches of MCP and of extensions among them, is the saved
    document's, or the resolved context's where that has none. *)
Theorem recover_keeps_authority (memory : bool) (resolved : tny_ctx) (saved : option jval) (c : tny_ctx)
    (Hrec : tny_checkpoint_recover jparse jwrite h extensions_new calloc_ok memory resolved saved = Some c) :
  under_authority resolved c /\
  exists ms digest, saved = Some (JObj ms) /\ assoc B"identity" ms = Some (JStr digest) /\ identity jwrite calloc_ok c = Some digest /\
    exists hs e, reads jparse jwrite (taken resolved ms) (with_headers (with_extensions c e) hs).
Proof using Type.
  unfold tny_checkpoint_recover in Hrec. destruct memory; [|done]. unfold recover in Hrec.
  destruct saved as [[| | | | |ms]|]; try (by rewrite orb_true_r in Hrec). destruct (negb _ || negb _); [done|]. cbn [jget] in Hrec.
  apply bind_Some in Hrec as (id' & Eid & Hrec). apply bind_Some in Hrec as (id & -> & Hrec).
  apply bind_Some in Hrec as (provider' & Eprov & Hrec). apply bind_Some in Hrec as (provider & -> & Hrec).
  apply bind_Some in Hrec as (dir' & Edir & Hrec). apply bind_Some in Hrec as (dir & -> & Hrec).
  destruct (negb _) eqn:G1 in Hrec; [done|]. apply negb_false_iff in G1. rewrite !andb_true_iff in G1.
  destruct G1 as [[[[[[[G1%bool_decide_eq_true G2%str_eq_true] G3%Z.eqb_eq] G4%Z.eqb_eq] G5%negb_true_iff] G6%negb_true_iff] G7%Z.leb_le] G8%Z.leb_le].
  destruct (negb _) eqn:G9 in Hrec; [done|]. apply negb_false_iff, andb_true_iff in G9 as [G9%Z.leb_le G10%Z.leb_le].
  destruct (_ && _) eqn:G11 in Hrec; [done|].
  apply bind_Some in Hrec as (enc & Eenc & Hrec). apply bind_Some in Hrec as (merged & Em & Hrec).
  apply bind_Some in Hrec as (c1 & E1 & Hrec). apply bind_Some in Hrec as (c2 & E2 & Hrec). apply bind_Some in Hrec as (digest & E3 & Hrec).
  destruct (str_eq id digest) eqn:Eq; [|done]. apply str_eq_true in Eq as ->. apply restore_reads in E1 as [Hr _].
  pose proof (encode_members _ _ _ Eenc) as ->.
  assert (under_authority resolved c1) as H1 by (by apply (merged_authority resolved ms merged c1 dir provider)).
  assert (under_authority resolved c2) as H2.
  { apply (authority_headers _ c1); [done|by eapply merged_headers|done]. }
  destruct (extensions_equiv _ _ Hrec) as [Heq Hau]. split; [by apply Hau|]. exists ms, digest. split; [done|]. split_and!.
  - destruct (assoc B"identity" ms) as [[| | |s| |]|]; try done. cbn [optional_string] in Eid. destruct (mem_byte NUL s); [done|]. by injection Eid as ->.
  - by rewrite <- Heq.
  - by eapply recovered_reads.
Qed.

(** The stored document, put over the private one, says what the context is. *)
Lemma stored_reads c digest : ctx_ok jparse jwrite c -> is_Some (str c provider_name) ->
  exists merged, put_saved (wire_members (stored c digest)) [] (members (entries c false)) = Some merged /\
    reads jparse jwrite (jget (Some (JObj merged))) c.
Proof using Type.
  intros Hok Hname. destruct (stored_keys c digest) as [Hk Hnd]. destruct (put_saved_total (wire_members (stored c digest)) [] (members (entries c false))) as [merged Em].
  { by rewrite keys_wire. } { by rewrite keys_wire. } { apply Forall_forall. done. }
  exists merged. split; [done|]. apply entries_read; [done| |].
  - intros name m p Hin. cbn [jget]. destruct p.
    + rewrite (merged_private _ _ _ _ Em (private_not_public _ _ Hin)), (string_entry c false name m true Hin). cbn [andb shown].
      destruct (str c m) as [s|] eqn:Es; [|done]. apply optional_string_text. by apply (ok_text _ _ _ Hok m).
    + rewrite (merged_saved _ _ _ _ _ Em (stored_string c digest name m Hin Hname)).
      destruct (str c m) as [s|] eqn:Es; [|done]. apply optional_string_text. by apply (ok_text _ _ _ Hok m).
  - intros k v Hin. cbn [jget]. destruct (other_split c k v Hin) as [[Hin' [w ->]]|Hp].
    + right. rewrite (merged_saved _ _ _ _ (wire w) Em); [done|]. rewrite (stored_other c digest k (Some w) Hin'); done.
    + left. rewrite (merged_private _ _ _ _ Em Hp). by apply other_entry.
Qed.

(** Recovery, guard by guard. *)
Lemma recover_steps resolved ms digest provider dir merged c1 c2 c3 :
  optional_string (assoc B"identity" ms) = Some (Some digest) -> optional_string (assoc B"provider_name" ms) = Some (Some provider) ->
  optional_string (assoc B"cwd" ms) = Some (Some dir) -> str resolved cwd = Some dir -> provider = tny_provider_name resolved ->
  num resolved backend = TNY_BK_OPENAI -> (forall d, jget_int (Some (JObj ms)) B"backend" d = TNY_BK_OPENAI) ->
  (forall d, jget_bool (Some (JObj ms)) B"no_save" d = false) -> (forall d, jget_bool (Some (JObj ms)) B"library_mode" d = false) ->
  (forall d, jget_int (Some (JObj ms)) B"perm_mode" d = mode_number (perm_mode resolved)) ->
  (forall d, jget_int (Some (JObj ms)) B"tool_profile" d = profile_number (tool_profile resolved)) ->
  (forall d, jget_bool (Some (JObj ms)) B"workspace_read_only" d = flag resolved workspace_read_only) ->
  (x ← encode resolved false; put_saved ms [] x) = Some merged -> restore jparse jwrite h (Some (JObj merged)) = Some c1 ->
  finish_profile c1 = Some c2 -> identity jwrite calloc_ok c2 = Some digest -> enable_extensions extensions_new c2 = Some c3 ->
  recover jparse jwrite h extensions_new calloc_ok resolved (Some (JObj ms)) = Some c3.
Proof using Type.
  intros Hid Hpr Hd Hcwd -> Hback Hb Hs Hl Hm Hp Hro Hmerged E1 E2 E3 E4. unfold recover. cbn [is_obj negb jget obj_members].
  rewrite Hcwd, bool_decide_eq_true_2 by done. cbn [negb orb]. rewrite Hid, Hpr, Hd. cbn [mbind option_bind].
  rewrite bool_decide_eq_true_2, str_eq_refl, Hback, !Hb, Hs, Hl, !Hm, !Hp, Hro, !Z.leb_refl by done.
  assert ((mode_number Perm.TNY_MODE_ASK <=? mode_number (perm_mode resolved)) && (profile_number (tool_profile resolved) <=? profile_number TNY_TOOLS_TERMINAL) = true) as Hr
    by (by destruct (perm_mode resolved), (tool_profile resolved)).
  apply andb_true_iff in Hr as [-> ->]. rewrite Z.eqb_refl, andb_negb_r. cbn [andb negb].
  apply bind_Some in Hmerged as (x & -> & Em). cbn [mbind option_bind]. rewrite Em. cbn [mbind option_bind]. rewrite E1. cbn [mbind option_bind].
  rewrite E2. cbn [mbind option_bind]. rewrite E3. cbn [mbind option_bind]. by rewrite str_eq_refl.
Qed.

(** A context of the native backend with a provider's name, that is to be
    saved, is no library's, and whose headers its provider's profile would leave
    as they are, is recovered whole under itself: the stored public document, read
    back, with the same context resolved anew gives that context. *)
Theorem public_snapshot_recovers (c : tny_ctx) (r : jval) (Hok : ctx_ok jparse jwrite c) (Hhost : host_ok c)
    (Hname : is_Some (str c provider_name)) (Hback : num c backend = TNY_BK_OPENAI)
    (Hsaved : flag c no_save = false /\ flag c library_mode = false)
    (Hprofile : exists c1, finish_profile c = Some c1 /\ header_lines c1 = header_lines c)
    (Hpublic : tny_checkpoint_public jwrite calloc_ok true c = Some r) :
  exists c', tny_checkpoint_recover jparse jwrite h extensions_new calloc_ok true c (Some (wire r)) = Some c' /\ ctx_equiv c c'.
Proof using Type.
  unfold tny_checkpoint_public in Hpublic. rewrite (ok_encodable jparse jwrite c true Hok) in Hpublic. cbn [mbind option_bind] in Hpublic.
  apply bind_Some in Hpublic as (digest & Eid & Hr). apply Some_inj in Hr as <-. fold (stored c digest). rewrite wire_obj.
  pose proof Hhost as [(dir & state & c0 & Hdir & Hstate & E0) _]. pose proof Hname as [pn Hpn].
  destruct (stored_reads c digest Hok Hname) as (merged & Em & Hreads).
  destruct (reads_restore jparse jwrite h (Some (JObj merged)) c dir state c0) as (c1 & E1 & H1); [done..|].
  destruct Hprofile as (cf & Ef & Hf). destruct (finish_profile_equiv c c1 cf) as (c2 & E2 & H2); [by symmetry|done|].
  assert (ctx_equiv c c2) as H3.
  { rewrite <- H2, (finish_profile_headers _ _ Ef). rewrite <- (with_headers_self c) at 1. apply with_headers_equiv; [done|by symmetry]. }
  destruct (enable_extensions_ok c c2 Hhost H3) as (c3 & E3 & H4). exists c3. split; [|done].
  assert (forall name m, In (name, m) bools -> forall d, jget_bool (Some (JObj (wire_members (stored c digest)))) name d = flag c m) as Hflag.
  { intros name m Hin d. apply jget_bool_written. apply stored_other; [by apply bool_other|done]. }
  assert (forall name m s, In (name, m, false) strings -> str c m = Some s -> optional_string (assoc name (wire_members (stored c digest))) = Some (Some s)) as Htext.
  { intros name m s Hin Hs. rewrite (stored_string c digest name m Hin Hname), Hs. by apply optional_string_text, (ok_text _ _ _ Hok m). }
  unfold tny_checkpoint_recover. apply (recover_steps c _ digest pn dir merged c1 c2 c3); try done.
  - rewrite stored_identity. apply optional_string_text. by eapply identity_clean.
  - apply (Htext _ provider_name); [cbn; tauto|done].
  - apply (Htext _ cwd); [cbn; tauto|done].
  - unfold tny_provider_name. by rewrite Hpn.
  - intros d. rewrite <- Hback. apply stored_int; [apply int_other; cbn; tauto|by rewrite Hback].
  - intros d. rewrite (Hflag _ no_save) by (cbn; tauto). apply Hsaved.
  - intros d. rewrite (Hflag _ library_mode) by (cbn; tauto). apply Hsaved.
  - intros d. apply stored_int; [own_entry|by destruct (perm_mode c)].
  - intros d. apply stored_int; [own_entry|by destruct (tool_profile c)].
  - intros d. apply Hflag. cbn; tauto.
  - rewrite (ok_encodable jparse jwrite c false Hok). exact Em.
  - by rewrite <- H3.
Qed.

End properties.

(** ** Examples *)

Definition demo_read (text : bytes) : option jval := Some (JObj []).
Definition demo_write (v : jval) : option bytes := Some B"{}".
Definition demo_host : host := mk_host (fun _ => true) Some (fun _ => ([], [])).
Definition demo_extensions (dir ws : option bytes) (timeout : Z) : bool := true.

Definition demo_context : tny_ctx :=
  mk_ctx (fun m => match m with cwd => Some B"/w" | tny_dir => Some B"/t" | provider_name => Some B"openai" | model => Some B"m" | api_key => Some B"secret" | _ => None end)
    (fun _ => false) (fun _ => 0) (fun m => replicate (array_size_of m) NUL) Perm.TNY_MODE_AUTO TNY_TOOLS_ALL TNY_IMAGE_INPUT_UNKNOWN
    32768 0 0 0 [Some B"/extra"] [] (Some [B"h: v"]) None [] (Some (JObj [])) None false.

Lemma demo_ok : ctx_ok demo_read demo_write demo_context.
Proof.
  constructor; try done.
  - intros m s. destruct m; try done; by intros [= <-].
  - intros m. by destruct m.
  - exists [B"/extra"]. split; [done|]. split; [by constructor|done].
  - by exists [].
  - split; [by constructor|done].
  - split; [done|]. cbn. lia.
  - split; [done|]. cbn. lia.
  - split; [done|]. by exists B"{}".
Qed.

Lemma demo_host_ok : host_ok demo_host demo_extensions demo_context.
Proof.
  split; [|done]. exists B"/w", B"/t". destruct (tny_ctx_new_explicit demo_host B"/w" B"/t") as [c0|] eqn:E; [by exists c0|vm_compute in E; discriminate].
Qed.

Example context_snapshot_roundtrip_witness :
  exists r c', tny_checkpoint_context true demo_context = Some r /\
    tny_checkpoint_context_restore demo_read demo_write demo_host demo_extensions true (Some (wire r)) = Some c' /\ ctx_equiv demo_context c'.
Proof. apply (context_snapshot_roundtrip demo_read demo_write demo_host demo_extensions demo_context); [apply demo_ok|apply demo_host_ok]. Defined.

(** A saved document that asks for less. *)
Definition demo_stored : option jval := tny_checkpoint_public demo_write true true demo_context.

Example public_snapshot_recovers_witness :
  match demo_stored with
  | Some r => exists c', tny_checkpoint_recover demo_read demo_write demo_host demo_extensions true true demo_context (Some (wire r)) = Some c' /\ ctx_equiv demo_context c'
  | None => False
  end.
Proof.
  destruct demo_stored as [r|] eqn:E; [|vm_compute in E; discriminate].
  apply (public_snapshot_recovers demo_read demo_write demo_host demo_extensions true demo_context r); [apply demo_ok|apply demo_host_ok|by eexists|done|done| |exact E].
  exists demo_context. by split.
Defined.

Example recover_keeps_authority_witness :
  match tny_checkpoint_recover demo_read demo_write demo_host demo_extensions true true demo_context demo_stored with
  | Some c => under_authority demo_read demo_write demo_context c /\
      exists ms digest, demo_stored = Some (JObj ms) /\ assoc B"identity" ms = Some (JStr digest) /\ identity demo_write true c = Some digest /\
        exists hs e, reads demo_read demo_write (taken demo_context ms) (with_headers (with_extensions c e) hs)
  | None => False
  end.
Proof.
  destruct (tny_checkpoint_recover demo_read demo_write demo_host demo_extensions true true demo_context demo_stored) as [c|] eqn:E;
    [|vm_compute in E; discriminate].
  apply (recover_keeps_authority demo_read demo_write demo_host demo_extensions true true demo_context demo_stored c E).
Defined.

(** A saved document that asks for a wider mode is refused. *)
Example wider_mode_refused :
  tny_checkpoint_recover demo_read demo_write demo_host demo_extensions true true demo_context
    (match demo_stored with Some (JObj ms) => Some (JObj (obj_put B"perm_mode" (JNum (JUint 2)) ms)) | v => v end) = None.
Proof. by vm_compute. Qed.
