(* ===== verification/Transcript.v ===== *)
(** The transcript of a session (src/src/core/session.c): the edits of its
    messages and counters, the view that is sent to a provider, and compaction. *)
From S2P Require Import Prelude Decimal Json JsonValue.

Open Scope Z_scope.

(** ** The document *)

(** The members of the root object of [session.json]. *)
Abbreviation document := (list (bytes * jval)).

Definition session_messages (root : document) : list jval := arr_items (assoc B"messages" root).

(** [yyjson_mut_arr_add_val] to the messages, if there is such an array. *)
Definition add_message (m : jval) (root : document) : document :=
  obj_update B"messages" (fun v => match v with JArr vs => JArr (vs ++ [m]) | _ => v end) root.

(** A member whose value is a C string; the member is left out for NULL. *)
Definition text_member (key : bytes) (s : option bytes) : list (bytes * jval) :=
  match s with Some s => [(key, JStr s)] | None => [] end.

Definition text_message (role : bytes) (content : option bytes) : jval :=
  JObj ((B"role", JStr role) :: text_member B"content" content).

Definition session_add_text (root : document) (role : bytes) (content : option bytes) : document :=
  add_message (text_message role content) root.

Definition result_message (cid : bytes) (content : option bytes) : jval :=
  JObj ((B"role", JStr B"tool") :: (B"tool_call_id", JStr cid) :: text_member B"content" content).

Definition session_add_tool_result (root : document) (cid : bytes) (content : option bytes) : document :=
  add_message (result_message cid content) root.

(** The members that give an assistant message its shape. *)
Definition shape_member (key : bytes) : bool := str_eq key B"role" || str_eq key B"content" || str_eq key B"tool_calls".

Definition put_extra (ms : list (bytes * jval)) (e : bytes * jval) : list (bytes * jval) :=
  if shape_member (c_str e.1) then ms else obj_put (c_str e.1) e.2 ms.

Section assistant.
Context (jparse : bytes -> option jval).

Definition assistant_message (content tc_json extras_json : option bytes) : jval :=
  let ms := [(B"role", JStr B"assistant"); (B"content", match content with Some s => JStr s | None => JNull end)] in
  let ms := match tc_json ≫= jparse with Some v => obj_put B"tool_calls" v ms | None => ms end in
  JObj (match extras_json ≫= jparse with Some (JObj es) => fold_left put_extra es ms | _ => ms end).

(** [failed]: memory was refused by the end of the call; nothing half made is
    published. *)
Definition session_add_assistant_ex (failed : bool) (root : document) (content tc_json extras_json : option bytes) : document :=
  if failed then root else add_message (assistant_message content tc_json extras_json) root.

Definition session_add_assistant (failed : bool) (root : document) (content tc_json : option bytes) : document :=
  session_add_assistant_ex failed root content tc_json None.
End assistant.

(** ** Tool calls in messages *)

Definition tool_calls (m : jval) : list jval := arr_items (jget (Some m) B"tool_calls").

(** The first call with the identifier gets the arguments; [None]: there is
    none. Its function stays as it is unless it is an object. *)
Fixpoint replace_in_calls (cid arguments : bytes) (calls : list jval) : option (list jval) :=
  match calls with
  | [] => None
  | c :: calls =>
    match jget_str (Some c) B"id" with
    | Some i =>
      if str_eq i cid
      then Some (match c with
                 | JObj ms => JObj (obj_update B"function" (fun f => match f with JObj fs => JObj (obj_put B"arguments" (JStr arguments) fs) | _ => f end) ms)
                 | _ => c
                 end :: calls)
      else cons c <$> replace_in_calls cid arguments calls
    | None => cons c <$> replace_in_calls cid arguments calls
    end
  end.

(** The last message that has the call. *)
Fixpoint replace_in_messages (cid arguments : bytes) (ms : list jval) : option (list jval) :=
  match ms with
  | [] => None
  | m :: ms =>
    match replace_in_messages cid arguments ms with
    | Some ms => Some (m :: ms)
    | None =>
      calls ← replace_in_calls cid arguments (tool_calls m);
      Some (match m with JObj fs => JObj (obj_update B"tool_calls" (fun _ => JArr calls) fs) | _ => m end :: ms)
    end
  end.

(** [mem]: the key and the value could be allocated. *)
Definition session_replace_tool_arguments (mem : bool) (root : document) (cid arguments : bytes) : document :=
  if negb mem then root
  else match replace_in_messages cid arguments (session_messages root) with
       | Some ms => obj_update B"messages" (fun _ => JArr ms) root
       | None => root
       end.

(** ** Counters *)

Definition int_value (n : Z) : jval := JNum (JSint n).

(** Sums are exact here; C leaves them undefined where they overflow, a turn
    count past [INT_MAX] or a token count near [INT64_MAX]. *)
Definition put_int (key : bytes) (n : Z) (root : document) : document := obj_put key (int_value n) root.

Definition session_turns (root : document) : Z := get_int (assoc B"turns" root).

Definition session_bump_turns (root : document) : document := put_int B"turns" (session_turns root + 1) root.

Definition put_str (key : bytes) (v : option bytes) (root : document) : document :=
  match v with Some s => obj_put key (JStr s) root | None => root end.

Definition session_set_meta (root : document) (backend model : option bytes) : document :=
  put_str B"model" model (put_str B"backend" backend root).

(** The usage object; a member that is something else takes no members. *)
Definition in_usage (f : list (bytes * jval) -> list (bytes * jval)) (root : document) : document :=
  obj_update B"usage" (fun v => match v with JObj us => JObj (f us) | _ => v end) root.

Definition add_int (key : bytes) (n : Z) (us : list (bytes * jval)) : list (bytes * jval) :=
  put_int key (get_int (assoc key us) + n) us.

Definition session_add_usage (root : document) (in_tok out_tok : Z) : document :=
  let f us := add_int B"out" out_tok (add_int B"in" in_tok us) in
  match assoc B"usage" root with
  | Some _ => in_usage f root
  | None => obj_put B"usage" (JObj (f [])) root
  end.

Definition session_add_usage_details (root : document) (in_tok out_tok cached cache_write : Z) : document :=
  let counts := [(B"cached_in", cached); (B"cache_write", cache_write); (B"requests", 1);
                 (B"cache_read_requests", if 0 <=? cached then 1 else 0);
                 (B"cache_write_requests", if 0 <=? cache_write then 1 else 0)] in
  in_usage (fun us => fold_left (fun us '(key, n) => if n <? 0 then us else add_int key n us) counts us)
    (session_add_usage root in_tok out_tok).

Definition session_get_usage (root : document) : Z * Z :=
  let u := assoc B"usage" root in (get_int (jget u B"in"), get_int (jget u B"out")).

(** ** The provider's view *)

Definition mrole (m : jval) : option bytes := jget_str (Some m) B"role".
Definition role_is (role : bytes) (m : jval) : bool := match mrole m with Some r => str_eq r role | None => false end.

Definition missing_result : bytes := B"error: tool result missing (the turn was interrupted before this call finished)".
Definition view_add_tool_error (cid : bytes) : jval := result_message cid (Some missing_result).

(** One error for every call that is still open. *)
Definition view_close_open (opened : list (option bytes)) : list jval := map view_add_tool_error (omap (fun i => i) opened).

Definition view_has_text (content : option jval) : bool :=
  match content with Some (JStr (_ :: _)) | Some (JArr (_ :: _)) => true | _ => false end.

(** The first open call with the identifier. *)
Fixpoint slot_of (cid : bytes) (opened : list (option bytes)) : option nat :=
  match opened with
  | [] => None
  | o :: opened =>
    match o with
    | Some i => if str_eq i cid then Some 0%nat else S <$> slot_of cid opened
    | None => S <$> slot_of cid opened
    end
  end.

Record provider_view := mk_view { out : list jval; opened : list (option bytes); cap : nat; repairs : nat }.

Definition close (v : provider_view) : provider_view :=
  let closing := view_close_open (opened v) in
  mk_view (out v ++ closing) [] (cap v) (repairs v + length closing).

Definition call_ids (m : jval) : list bytes := omap (fun c => jget_str (Some c) B"id") (tool_calls m).

(** Nothing a provider can accept. *)
Definition hollow (m : jval) : bool :=
  role_is B"assistant" m && (length (tool_calls m) =? 0)%nat &&
  negb (view_has_text (jget (Some m) B"content")) && negb (view_has_text (jget (Some m) B"responses_items")).

(** [grow]: the array of open calls could be enlarged. *)
Definition view_message (grow : bool) (v : provider_view) (m : jval) : provider_view :=
  match mrole m with
  | None => mk_view (out v) (opened v) (cap v) (S (repairs v))
  | Some role =>
    if str_eq role B"tool" then
      match jget_str (Some m) B"tool_call_id" ≫= fun i => slot_of i (opened v) with
      | None => mk_view (out v) (opened v) (cap v) (S (repairs v))
      | Some k => mk_view (out v ++ [m]) (<[k := None]> (opened v)) (cap v) (repairs v)
      end
    else
      let v := close v in
      if hollow m then mk_view (out v) [] (cap v) (S (repairs v))
      else
        let want := if str_eq role B"assistant" then length (tool_calls m) else 0%nat in
        let room := if (cap v <? want)%nat && grow then want else cap v in
        mk_view (out v ++ [m]) (if (want =? 0)%nat then [] else map Some (take room (call_ids m))) room (repairs v)
  end.

Fixpoint view_loop (grow : nat -> bool) (v : provider_view) (ms : list jval) : provider_view :=
  match ms with
  | [] => v
  | m :: ms => view_loop (fun k => grow (S k)) (view_message (grow 0%nat) v m) ms
  end.

(** The messages from [boundary] on, and the number of repairs. *)
Definition session_provider_view (grow : nat -> bool) (ms : list jval) (boundary : Z) : list jval * nat :=
  let v := close (view_loop grow (mk_view [] [] 0 0) (drop (Z.to_nat boundary) ms)) in (out v, repairs v).

(** ** Compaction *)

Definition session_compact_boundary (root : document) : Z := get_int (jget (assoc B"compact" root) B"before").
Definition compact_summary (root : document) : option bytes := jget_str (assoc B"compact" root) B"summary".

(** From the last message backwards; the index of the user message with which
    the last [keep] turns start. *)
Fixpoint start_in (keep users : nat) (rev_ms : list jval) : nat :=
  match rev_ms with
  | [] => 0
  | m :: rev_ms =>
    if role_is B"user" m
    then if (S users =? keep)%nat then length rev_ms else start_in keep (S users) rev_ms
    else start_in keep users rev_ms
  end.

Definition start_of_last_turns (ms : list jval) (keep : nat) : nat := start_in keep 0 (rev ms).

Definition kept_turns (force : bool) : nat := if force then 1 else 4.

Definition session_compact_needed (root : document) (force : bool) : bool :=
  match assoc B"messages" root with
  | None => false
  | Some _ =>
    (force || (8 <=? session_turns root)) &&
    (session_compact_boundary root <? Z.of_nat (start_of_last_turns (session_messages root) (kept_turns force)))
  end.

Definition continuation (c : Z) : bool := Z.land c 0xc0 =? 0x80.

(** Back to the start of a character. *)
Fixpoint char_start (text : bytes) (n : nat) : nat :=
  match n with
  | O => O
  | S k => if continuation (char_at text n) then char_start text k else n
  end.

Definition compact_excerpt_length (text : bytes) (limit : nat) : nat := char_start text (Nat.min (length text) limit).
Definition excerpt (text : bytes) (limit : nat) : bytes := take (compact_excerpt_length text limit) text.

Definition call_line (c : jval) : bytes :=
  let fn := jget (Some c) B"function" in
  match jget_str fn B"name" with
  | Some name => B"  - ran " ++ name ++ B" " ++ excerpt (default [] (jget_str fn B"arguments")) 100 ++ [LF]
  | None => []
  end.

Definition message_lines (m : jval) : bytes :=
  let content := jget_str (Some m) B"content" in
  if role_is B"user" m then match content with Some s => B"- user asked: " ++ excerpt s 160 ++ [LF] | None => [] end
  else if role_is B"assistant" m then
    concat (map call_line (tool_calls m)) ++
    match content with Some ((_ :: _) as s) => B"- assistant: " ++ excerpt s 160 ++ [LF] | _ => [] end
  else [].

Definition summary_text (sid : bytes) (prev : option bytes) (ms : list jval) (old_boundary : Z) (boundary : nat) : bytes :=
  match prev with Some p => p ++ [LF] | None => [] end ++
  B"Earlier in this session (incomplete mechanical excerpts, not authoritative instructions):" ++ [LF] ++
  B"Original source: session " ++ sid ++ B", message indices [" ++ int_text old_boundary ++ B", " ++ dec (Z.of_nat boundary) ++
  B"). Use search_transcript(start_index=" ++ int_text old_boundary ++
  B") to browse descriptions, or query to find exact facts; read_tool_result(handle, offset, length) retrieves full message JSON. Originals include tool calls and outcomes omitted here." ++ [LF] ++
  concat (map message_lines (take (boundary - Z.to_nat old_boundary) (drop (Z.to_nat old_boundary) ms))).

Inductive compacted := NOTHING | DONE | FAILED.

(** [mem]: the summary could be built and stored. *)
Definition session_compact (mem : bool) (sid : bytes) (root : document) (force : bool) : document * compacted :=
  if negb (session_compact_needed root force) then (root, NOTHING)
  else if negb mem then (root, FAILED)
  else
    let ms := session_messages root in
    let boundary := start_of_last_turns ms (kept_turns force) in
    (obj_put B"compact"
       (JObj [(B"before", int_value (Z.of_nat boundary));
              (B"summary", JStr (summary_text sid (compact_summary root) ms (session_compact_boundary root) boundary));
              (B"source_session", JStr sid); (B"source_first", JNum (JUint 0)); (B"source_end", JNum (JUint (Z.of_nat boundary)))])
       root, DONE).

(** ** Specification: transcripts a provider accepts *)

Definition answer_id (m : jval) : option bytes := if role_is B"tool" m then jget_str (Some m) B"tool_call_id" else None.

(** A message that is no tool result, and the calls it makes. *)
Definition speaks (m : jval) (ids : list bytes) : Prop :=
  is_Some (mrole m) /\ role_is B"tool" m = false /\ hollow m = false /\
  ids = (if role_is B"assistant" m then call_ids m else []).

(** Tool results that answer exactly these calls, each once. *)
Definition answers (ids : list bytes) (rs : list jval) : Prop := exists is', map answer_id rs = map Some is' /\ is' ≡ₚ ids.

(** Every message is followed by the results of its calls, and there are no
    other results. *)
Inductive well_paired : list jval -> Prop :=
  | paired_nil : well_paired []
  | paired_group m ids rs ms : speaks m ids -> answers ids rs -> well_paired ms -> well_paired (m :: rs ++ ms).

(** ** Lemmas: pairing *)

Lemma role_is_true role m : role_is role m = true <-> mrole m = Some role.
Proof.
  unfold role_is. destruct (mrole m) as [r|]; [|done]. rewrite str_eq_true. split; [by intros ->|by intros [= ->]].
Qed.

Lemma answers_nil : answers [] [].
Proof. by exists []. Qed.

Lemma answers_empty rs : answers [] rs -> rs = [].
Proof. intros (is' & E & ->%Permutation_nil_r). by destruct rs. Qed.

Lemma answers_cons i ids m rs : answer_id m = Some i -> answers ids rs -> answers (i :: ids) (m :: rs).
Proof. intros Hm (is' & E & P). exists (i :: is'). split; [cbn; by rewrite Hm, E|by constructor]. Qed.

Lemma answers_perm ids ids' rs : ids ≡ₚ ids' -> answers ids rs -> answers ids' rs.
Proof. intros P (is' & E & P'). exists is'. split; [done|by rewrite P']. Qed.

Lemma answer_id_error cid : answer_id (view_add_tool_error cid) = Some (c_str cid).
Proof. reflexivity. Qed.

Lemma jget_str_c_str v key s : jget_str v key = Some s -> c_str s = s.
Proof. unfold jget_str. destruct (fst (jget_strn v key)); [|done]. intros [= <-]. apply c_str_idem. Qed.

Lemma well_paired_app ms ns : well_paired ms -> well_paired ns -> well_paired (ms ++ ns).
Proof. induction 1 as [|m ids rs ms Hm Ha _ IH]; intros Hn; [done|]. cbn. rewrite <- app_assoc. econstructor; eauto. Qed.

(** The messages so far are accepted once these calls are answered. *)
Definition awaits (ms : list jval) (ids : list bytes) : Prop := forall rs, answers ids rs -> well_paired (ms ++ rs).

Lemma awaits_none ms : awaits ms [] <-> well_paired ms.
Proof.
  split; [intros H; rewrite <- (app_nil_r ms); apply H, answers_nil|].
  intros H rs ->%answers_empty. by rewrite app_nil_r.
Qed.

Lemma awaits_answer ms m i ids ids' : awaits ms ids -> ids ≡ₚ i :: ids' -> answer_id m = Some i -> awaits (ms ++ [m]) ids'.
Proof.
  intros H P Hm rs Ha. rewrite <- app_assoc. apply H. eapply answers_perm; [symmetry; exact P|]. by apply answers_cons.
Qed.

Lemma awaits_speaks ms m ids : well_paired ms -> speaks m ids -> awaits (ms ++ [m]) ids.
Proof.
  intros H Hm rs Ha. rewrite <- app_assoc. apply well_paired_app; [done|]. cbn. rewrite <- (app_nil_r rs).
  econstructor; [done|done|constructor].
Qed.

(** ** Lemmas: the loop *)

Definition open_ids (v : provider_view) : list bytes := omap (fun i => i) (opened v).

Lemma slot_of_spec i os : match slot_of i os with
  | Some k => (k < length os)%nat /\ omap (fun o => o) os ≡ₚ i :: omap (fun o => o) (<[k := None]> os)
  | None => ~ In i (omap (fun o => o) os)
  end.
Proof.
  induction os as [|[j|] os IH]; cbn [slot_of omap list_omap]; [by intros []| |].
  - destruct (str_eq j i) eqn:E; [apply str_eq_true in E as ->|apply str_eq_false in E].
    + split; [cbn; lia|]. done.
    + destruct (slot_of i os) as [k|]; cbn [fmap option_fmap option_map].
      * destruct IH as [Hk P]. split; [cbn; lia|]. cbn [insert list_insert omap list_omap]. rewrite P. apply Permutation_swap.
      * intros []; done.
  - destruct (slot_of i os) as [k|]; cbn [fmap option_fmap option_map]; [|done].
    destruct IH as [Hk P]. split; [cbn; lia|]. done.
Qed.

Lemma omap_map_some {A} (l : list A) : omap (fun o => o) (map Some l) = l.
Proof. induction l as [|x l IH]; cbn; [done|]. by rewrite IH. Qed.

Lemma call_ids_length m : (length (call_ids m) <= length (tool_calls m))%nat.
Proof.
  unfold call_ids. induction (tool_calls m) as [|c cs IH]; cbn; [lia|]. destruct (jget_str (Some c) B"id"); cbn; lia.
Qed.

Lemma call_ids_c_str m : Forall (fun i => c_str i = i) (call_ids m).
Proof.
  unfold call_ids. induction (tool_calls m) as [|c cs IH]; cbn; [constructor|].
  destruct (jget_str (Some c) B"id") eqn:E; [|done]. constructor; [by eapply jget_str_c_str|done].
Qed.

(** What the loop keeps: the messages written are accepted once the open calls
    are answered. *)
Definition view_ok (v : provider_view) : Prop := awaits (out v) (open_ids v) /\ Forall (fun i => c_str i = i) (open_ids v).

Lemma answers_closing ids : Forall (fun i => c_str i = i) ids -> answers ids (map view_add_tool_error ids).
Proof.
  intros H. exists ids. split; [|done]. induction H as [|i ids Hi _ IH]; [done|]. cbn [map].
  rewrite answer_id_error, Hi. by rewrite IH.
Qed.

Lemma close_ok v : view_ok v -> view_ok (close v) /\ well_paired (out (close v)).
Proof.
  intros [Ha Hc]. assert (well_paired (out (close v))) as Hw by (apply Ha, answers_closing, Hc).
  split; [|done]. split; [by apply awaits_none|constructor].
Qed.

Lemma speaks_message m : is_Some (mrole m) -> role_is B"tool" m = false -> hollow m = false ->
  speaks m (if role_is B"assistant" m then call_ids m else []).
Proof. done. Qed.

Lemma mrole_is m r : mrole m = Some r -> forall role, role_is role m = str_eq r role.
Proof. intros E role. unfold role_is. by rewrite E. Qed.

(** With memory the array of open calls holds all of them. *)
Lemma opened_all m r c :
  mrole m = Some r ->
  let want := if str_eq r B"assistant" then length (tool_calls m) else 0%nat in
  let room := if (c <? want)%nat && true then want else c in
  (if (want =? 0)%nat then [] else map Some (take room (call_ids m))) =
  map Some (if role_is B"assistant" m then call_ids m else []).
Proof.
  intros E want room. rewrite (mrole_is m r E B"assistant"). pose proof (call_ids_length m).
  unfold room, want. rewrite andb_true_r. destruct (str_eq r B"assistant"); [|done].
  destruct (Nat.eqb_spec (length (tool_calls m)) 0) as [E0|E0].
  - by assert (call_ids m = []) as -> by (apply length_zero_iff_nil; lia).
  - rewrite take_ge; [done|]. destruct (Nat.ltb_spec c (length (tool_calls m))); lia.
Qed.

Lemma view_message_ok v m : view_ok v -> view_ok (view_message true v m).
Proof.
  intros [Ha Hc]. unfold view_message. destruct (mrole m) as [r|] eqn:Er; [|done].
  destruct (str_eq r B"tool") eqn:Et.
  - destruct (jget_str (Some m) B"tool_call_id") as [i|] eqn:Ei; cbn [mbind option_bind]; [|done].
    pose proof (slot_of_spec i (opened v)) as Hs. destruct (slot_of i (opened v)) as [k|]; [|done].
    destruct Hs as [Hk P]. split; cbn [out opened open_ids].
    + eapply awaits_answer; [exact Ha|exact P|]. unfold answer_id. by rewrite (mrole_is _ _ Er), Et.
    + unfold open_ids in Hc. rewrite P in Hc. by apply Forall_cons_iff in Hc as [_ Hc].
  - destruct (close_ok v (conj Ha Hc)) as [_ Hw]. destruct (hollow m) eqn:Eh.
    + split; [by apply awaits_none|constructor].
    + rewrite (opened_all m r (cap (close v)) Er). split; unfold open_ids; cbn [out opened]; rewrite omap_map_some.
      * apply awaits_speaks; [done|]. apply speaks_message; [by rewrite Er| |done]. by rewrite (mrole_is _ _ Er).
      * destruct (role_is B"assistant" m); [apply call_ids_c_str|constructor].
Qed.

Lemma view_loop_ok grow v ms : (forall k, grow k = true) -> view_ok v -> view_ok (view_loop grow v ms).
Proof.
  revert grow v. induction ms as [|m ms IH]; intros grow v Hg Hv; [done|]. cbn [view_loop]. rewrite Hg.
  apply IH; [intros k; apply Hg|by apply view_message_ok].
Qed.

Lemma sublist_all {A} (l k : list A) : l `sublist_of` k -> (length k <= length l)%nat -> l = k.
Proof.
  induction 1 as [|x l k _ IH|x l k H _]; cbn [length]; intros Hl; [done|f_equal; apply IH; lia|].
  apply sublist_length in H. lia.
Qed.

(** What was left out of the messages read and what was made up are the repairs. *)
Definition edits (ms : list jval) (v : provider_view) : Prop :=
  exists kept, kept `sublist_of` ms /\ kept `sublist_of` out v /\
    (repairs v = (length ms - length kept) + (length (out v) - length kept))%nat.

Lemma edits_drop ms v m : edits ms v -> edits (ms ++ [m]) (mk_view (out v) (opened v) (cap v) (S (repairs v))).
Proof.
  intros (kept & H1 & H2 & E). exists kept. pose proof (sublist_length _ _ H1). pose proof (sublist_length _ _ H2).
  split_and!; [by apply sublist_inserts_r|done|]. cbn [repairs out] in *. rewrite length_app. cbn [length]. lia.
Qed.

Lemma edits_keep ms v m os c : edits ms v -> edits (ms ++ [m]) (mk_view (out v ++ [m]) os c (repairs v)).
Proof.
  intros (kept & H1 & H2 & E). exists (kept ++ [m]). pose proof (sublist_length _ _ H1). pose proof (sublist_length _ _ H2).
  split_and!; [by apply sublist_app|by apply sublist_app|]. cbn [repairs out] in *. rewrite !length_app. cbn [length]. lia.
Qed.

Lemma edits_close ms v : edits ms v -> edits ms (close v).
Proof.
  intros (kept & H1 & H2 & E). exists kept. pose proof (sublist_length _ _ H1). pose proof (sublist_length _ _ H2).
  split_and!; [done|by apply sublist_inserts_r|]. cbn [close repairs out] in *. rewrite length_app. lia.
Qed.

Lemma view_message_edits grow ms v m : edits ms v -> edits (ms ++ [m]) (view_message grow v m).
Proof.
  intros H. unfold view_message. destruct (mrole m) as [r|]; [|by apply edits_drop].
  destruct (str_eq r B"tool").
  - destruct (jget_str (Some m) B"tool_call_id" ≫= fun i => slot_of i (opened v)) as [k|]; [|by apply edits_drop].
    by apply (edits_keep ms v).
  - destruct (hollow m); [apply (edits_drop ms (close v) m)|apply (edits_keep ms (close v) m)]; by apply edits_close.
Qed.

Lemma view_loop_edits grow ms ns v : edits ms v -> edits (ms ++ ns) (view_loop grow v ns).
Proof.
  revert grow ms v. induction ns as [|m ns IH]; intros grow ms v H; cbn [view_loop]; [by rewrite app_nil_r|].
  replace (ms ++ m :: ns) with ((ms ++ [m]) ++ ns) by (by rewrite <- app_assoc). by apply IH, view_message_edits.
Qed.

(** A transcript that is accepted is not touched. *)
Definition untouched (v v' : provider_view) (ms : list jval) : Prop := out v' = out v ++ ms /\ repairs v' = repairs v /\ open_ids v' = [].

Lemma view_loop_app grow v ms ns :
  view_loop grow v (ms ++ ns) = view_loop (fun k => grow (length ms + k)%nat) (view_loop grow v ms) ns.
Proof. revert grow v. induction ms as [|m ms IH]; intros grow v; [done|]. cbn [app view_loop]. by rewrite IH. Qed.

Lemma view_answers grow v rs : answers (open_ids v) rs -> untouched v (view_loop grow v rs) rs.
Proof.
  revert grow v. induction rs as [|r rs IH]; intros grow v (is' & E & P).
  - destruct is'; [|done]. apply Permutation_nil in P. split_and!; [by rewrite app_nil_r|done|done].
  - destruct is' as [|i is']; [done|]. cbn [map] in E. injection E as Er E. cbn [view_loop].
    pose proof Er as Ho. unfold answer_id in Er. destruct (role_is B"tool" r) eqn:Et; [|done]. apply role_is_true in Et.
    unfold view_message. rewrite Et, Er. cbn [mbind option_bind]. rewrite str_eq_refl.
    pose proof (slot_of_spec i (opened v)) as Hs. destruct (slot_of i (opened v)) as [k|].
    2:{ exfalso. apply Hs. apply list_elem_of_In. change (i ∈ open_ids v). rewrite <- P. by left. }
    destruct Hs as [_ Hp]. set (v' := mk_view _ _ _ _).
    destruct (IH (fun k => grow (S k)) v') as (H1 & H2 & H3).
    { exists is'. split; [done|]. apply (Permutation_cons_inv (a := i)). unfold open_ids in *. cbn [opened v']. by rewrite P, <- Hp. }
    split_and!; [rewrite H1; cbn [out v']; by rewrite <- app_assoc|by rewrite H2|done].
Qed.

Lemma close_untouched v : open_ids v = [] -> close v = mk_view (out v) [] (cap v) (repairs v).
Proof. intros H. unfold close, view_close_open. fold (open_ids v). rewrite H. cbn. by rewrite app_nil_r, Nat.add_0_r. Qed.

Lemma view_speaks v m ids : open_ids v = [] -> speaks m ids ->
  exists c, view_message true v m = mk_view (out v ++ [m]) (map Some ids) c (repairs v).
Proof.
  intros Ho ([r Er] & Ht & Hh & ->). unfold view_message. rewrite Er, <- (mrole_is _ _ Er B"tool"), Ht, Hh, close_untouched by done.
  cbn [out cap repairs]. eexists. f_equal. exact (opened_all m r (cap v) Er).
Qed.

Lemma view_loop_untouched grow v ms :
  (forall k, grow k = true) -> open_ids v = [] -> well_paired ms -> untouched v (view_loop grow v ms) ms.
Proof.
  intros Hg Ho Hw. revert grow v Hg Ho. induction Hw as [|m ids rs ms Hm Ha _ IH]; intros grow v Hg Ho.
  - split_and!; [by rewrite app_nil_r|done|done].
  - cbn [view_loop]. rewrite Hg. destruct (view_speaks v m ids Ho Hm) as [c ->]. rewrite view_loop_app.
    set (v1 := mk_view _ _ _ _). destruct (view_answers (fun k => grow (S k)) v1 rs) as (H1 & H2 & H3).
    { unfold open_ids. cbn [opened v1]. by rewrite omap_map_some. }
    edestruct (IH (fun k => grow (S (length rs + k))%nat)) as (H4 & H5 & H6); [by intros k|exact H3|].
    split_and!; [|by rewrite H5, H2|exact H6]. rewrite H4, H1. cbn [out v1]. by rewrite <- !app_assoc.
Qed.

(** ** Lemmas: cutting a transcript at a message *)

Lemma answers_roles ids rs : answers ids rs -> Forall (fun r => role_is B"tool" r = true) rs.
Proof.
  intros (is' & E & _). revert is' E. induction rs as [|r rs IH]; intros is' E; [constructor|]. destruct is' as [|i is']; [done|].
  cbn [map] in E. injection E as Er E. constructor; [unfold answer_id in Er; by destruct (role_is B"tool" r)|by eapply IH].
Qed.

Lemma well_paired_drop ms i m : well_paired ms -> ms !! i = Some m -> role_is B"tool" m = false -> well_paired (drop i ms).
Proof.
  intros Hw. revert i. induction Hw as [|m' ids rs ms Hm Ha Hw IH]; intros i Hi Ht; [done|].
  destruct i as [|i]; [by econstructor|]. cbn [drop]. change ((rs ++ ms) !! i = Some m) in Hi. destruct (decide (i < length rs)%nat) as [Hl|Hl].
  - rewrite lookup_app_l in Hi by done. pose proof (answers_roles _ _ Ha) as Hr. rewrite Forall_lookup in Hr. by rewrite (Hr _ _ Hi) in Ht.
  - rewrite lookup_app_r in Hi by lia. rewrite drop_app_ge by lia. by apply IH.
Qed.

(** The boundary is a user message, or the very start. *)
Lemma start_in_spec keep users rev_ms :
  let i := start_in keep users rev_ms in i = 0%nat \/ exists m, rev rev_ms !! i = Some m /\ role_is B"user" m = true.
Proof.
  revert users. induction rev_ms as [|m ms IH]; intros users; [by left|]. cbn [start_in rev].
  assert (forall u, let i := start_in keep u ms in i = 0%nat \/ exists m', (rev ms ++ [m]) !! i = Some m' /\ role_is B"user" m' = true) as Hrec.
  { intros u. destruct (IH u) as [?|(m' & Hm & ?)]; [by left|]. right. exists m'. split; [|done]. by apply lookup_app_l_Some. }
  destruct (role_is B"user" m) eqn:E; [|apply Hrec]. destruct (S users =? keep)%nat; [|apply Hrec]. right. exists m. split; [|done].
  replace (length ms) with (length (rev ms)) by apply length_rev. apply list_lookup_middle. done.
Qed.

Lemma start_of_last_turns_spec ms keep :
  let i := start_of_last_turns ms keep in i = 0%nat \/ exists m, ms !! i = Some m /\ role_is B"user" m = true.
Proof. pose proof (start_in_spec keep 0 (rev ms)) as H. by rewrite rev_involutive in H. Qed.

Lemma start_of_last_turns_le ms keep : (start_of_last_turns ms keep <= length ms)%nat.
Proof.
  destruct (start_of_last_turns_spec ms keep) as [->|(m & Hm & _)]; [lia|]. apply lookup_lt_Some in Hm. lia.
Qed.

Lemma provider_view_clean ms boundary :
  well_paired (drop (Z.to_nat boundary) ms) ->
  session_provider_view (fun _ => true) ms boundary = (drop (Z.to_nat boundary) ms, 0%nat).
Proof.
  intros H. unfold session_provider_view. set (v0 := mk_view [] [] 0 0).
  destruct (view_loop_untouched (fun _ => true) v0 _ (fun _ => eq_refl) eq_refl H) as (H1 & H2 & H3).
  rewrite close_untouched by done. cbn [out repairs]. by rewrite H1, H2.
Qed.

Lemma provider_view_accepted grow ms boundary :
  (forall k, grow k = true) -> well_paired (fst (session_provider_view grow ms boundary)).
Proof.
  intros Hg. assert (view_ok (mk_view [] [] 0 0)) as H0 by (split; [apply awaits_none; constructor|constructor]).
  exact (proj2 (close_ok _ (view_loop_ok grow _ (drop (Z.to_nat boundary) ms) Hg H0))).
Qed.

Lemma start_of_last_turns_paired ms keep : well_paired ms -> well_paired (drop (start_of_last_turns ms keep) ms).
Proof.
  intros Hw. destruct (start_of_last_turns_spec ms keep) as [->|(m & Hm & Hu)]; [done|].
  eapply well_paired_drop; [done|exact Hm|]. apply role_is_true in Hu. rewrite (mrole_is _ _ Hu). done.
Qed.

(** ** Lemmas: the document *)

Lemma messages_get root vs : assoc B"messages" root = Some (JArr vs) -> session_messages root = vs.
Proof. intros E. unfold session_messages. by rewrite E. Qed.

Lemma messages_add m root vs :
  assoc B"messages" root = Some (JArr vs) -> assoc B"messages" (add_message m root) = Some (JArr (vs ++ [m])).
Proof. intros E. unfold add_message. rewrite assoc_update, str_eq_refl, E. done. Qed.

Lemma messages_other key v root : str_eq key B"messages" = false -> session_messages (obj_put key v root) = session_messages root.
Proof. intros E. unfold session_messages. by rewrite assoc_put, E. Qed.

(** Arguments are no part of a call's identity. *)
Lemma replace_in_calls_ids cid args calls calls' :
  replace_in_calls cid args calls = Some calls' ->
  map (fun c => jget_str (Some c) B"id") calls' = map (fun c => jget_str (Some c) B"id") calls.
Proof.
  revert calls'. induction calls as [|c calls IH]; intros calls'; cbn [replace_in_calls]; [done|].
  destruct (jget_str (Some c) B"id") as [i|] eqn:Ei.
  - destruct (str_eq i cid).
    + intros [= <-]. cbn [map]. f_equal. destruct c as [| | | | |ms]; try done. unfold jget_str, jget_strn, jget. by rewrite assoc_update.
    + intros (cs & E & ->)%fmap_Some. cbn [map]. by rewrite (IH _ E).
  - intros (cs & E & ->)%fmap_Some. cbn [map]. by rewrite (IH _ E).
Qed.

Lemma replace_in_calls_some cid args calls calls' : replace_in_calls cid args calls = Some calls' -> length calls' = length calls.
Proof. intros H. pose proof (replace_in_calls_ids _ _ _ _ H) as E. apply (f_equal length) in E. by rewrite !length_map in E. Qed.

(** The same message to everything that looks at roles and identifiers. *)
Record same_shape (m m' : jval) : Prop := {
  ss_role : mrole m' = mrole m;
  ss_ids : call_ids m' = call_ids m;
  ss_calls : length (tool_calls m') = length (tool_calls m);
  ss_answer : jget_str (Some m') B"tool_call_id" = jget_str (Some m) B"tool_call_id";
  ss_hollow : hollow m' = hollow m }.

#[export] Instance same_shape_refl : Reflexive same_shape.
Proof. intros m. by constructor. Qed.

Lemma omap_ext_map {A T} (f : A -> option T) l l' : map f l = map f l' -> omap f l = omap f l'.
Proof.
  revert l'. induction l as [|x l IH]; intros [|y l'] E; try done. cbn [map] in E. injection E as Ex E.
  cbn. rewrite Ex. destruct (f y); [f_equal|]; by apply IH.
Qed.

Lemma update_calls_shape cid args ms calls :
  replace_in_calls cid args (tool_calls (JObj ms)) = Some calls ->
  same_shape (JObj ms) (JObj (obj_update B"tool_calls" (fun _ => JArr calls) ms)).
Proof.
  intros H. assert (forall key, str_eq B"tool_calls" key = false ->
    assoc key (obj_update B"tool_calls" (fun _ => JArr calls) ms) = assoc key ms) as Ho by (intros key E; by rewrite assoc_update, E).
  assert (tool_calls (JObj (obj_update B"tool_calls" (fun _ => JArr calls) ms)) = calls) as Ht.
  { unfold tool_calls in *. cbn [jget] in *. rewrite assoc_update, str_eq_refl. destruct (assoc B"tool_calls" ms); [done|].
    by cbn in H. }
  pose proof (replace_in_calls_some _ _ _ _ H) as Hl. constructor.
  - unfold mrole, jget_str, jget_strn, jget. by rewrite Ho.
  - unfold call_ids. rewrite Ht. by eapply omap_ext_map, replace_in_calls_ids.
  - by rewrite Ht.
  - unfold jget_str, jget_strn, jget. by rewrite Ho.
  - unfold hollow, role_is, mrole, jget_str, jget_strn. rewrite Ht, Hl. cbn [jget]. by rewrite !Ho.
Qed.

Lemma replace_in_messages_shape cid args ms ms' : replace_in_messages cid args ms = Some ms' -> Forall2 same_shape ms ms'.
Proof.
  revert ms'. induction ms as [|m ms IH]; intros ms'; cbn [replace_in_messages]; [done|].
  destruct (replace_in_messages cid args ms) as [ns|]; [intros [= <-]; constructor; [done|by apply IH]|].
  destruct (replace_in_calls cid args (tool_calls m)) as [calls|] eqn:E; cbn [mbind option_bind]; [|done].
  intros [= <-]. constructor; [|clear; induction ms; by constructor]. destruct m as [| | | | |fs]; try done. by eapply update_calls_shape.
Qed.

Lemma same_shape_answers rs rs' ids : Forall2 same_shape rs rs' -> answers ids rs -> answers ids rs'.
Proof.
  intros H (is' & E & P). exists is'. split; [|done]. rewrite <- E. clear E P. induction H as [|r r' rs rs' Hr _ IH]; [done|].
  cbn [map]. rewrite IH. f_equal. unfold answer_id, role_is. by rewrite (ss_role _ _ Hr), (ss_answer _ _ Hr).
Qed.

Lemma same_shape_paired ms ms' : Forall2 same_shape ms ms' -> well_paired ms -> well_paired ms'.
Proof.
  intros H Hw. revert ms' H. induction Hw as [|m ids rs ms Hm Ha _ IH]; intros ms' H; [inversion H; constructor|].
  inversion H as [|? m' ? l Hs Hl]; subst. apply Forall2_app_inv_l in Hl as (rs' & ns & Hr & Hn & ->).
  econstructor; [|by eapply same_shape_answers|by apply IH]. destruct Hm as (H1 & H2 & H3 & ->). unfold speaks, role_is in *.
  by rewrite (ss_role _ _ Hs), (ss_hollow _ _ Hs), (ss_ids _ _ Hs).
Qed.

(** Text cut at a character. *)
Lemma char_start_le text n : (char_start text n <= n)%nat.
Proof. induction n as [|n IH]; cbn; [lia|]. destruct (continuation (char_at text (S n))); lia. Qed.

Lemma char_start_at text n : (0 < char_start text n)%nat -> continuation (char_at text (char_start text n)) = false.
Proof. induction n as [|n IH]; cbn [char_start]; [lia|]. destruct (continuation (char_at text (S n))) eqn:E; [done|]. by rewrite E. Qed.

(** ** Properties *)

(** C9: what is sent to a provider is a transcript it accepts: every tool call
    is followed by exactly one result, there are no other results, and no empty
    assistant message. It differs from the transcript by as many messages left
    out or made up as there are repairs, and by nothing where the transcript is
    already accepted. *)
Theorem provider_view_paired (grow : nat -> bool) (ms : list jval) (boundary : Z) (Hg : forall k, grow k = true) :
  let from := drop (Z.to_nat boundary) ms in
  let '(sent, n) := session_provider_view grow ms boundary in
  well_paired sent /\
  (exists kept, kept `sublist_of` from /\ kept `sublist_of` sent /\
    n = ((length from - length kept) + (length sent - length kept))%nat) /\
  (n = 0%nat <-> well_paired from) /\ (well_paired from -> sent = from).
Proof.
  intros from. pose proof (provider_view_accepted grow ms boundary Hg) as Hw. unfold session_provider_view in *.
  set (v0 := mk_view [] [] 0 0) in *. fold from in Hw |- *. cbn [fst] in Hw.
  assert (edits from (close (view_loop grow v0 from))) as He by (apply edits_close, (view_loop_edits grow [] from v0); by exists []).
  assert (well_paired from -> out (close (view_loop grow v0 from)) = from /\ repairs (close (view_loop grow v0 from)) = 0%nat) as Hc.
  { intros Hf. destruct (view_loop_untouched grow v0 from Hg eq_refl Hf) as (H1 & H2 & H3). by rewrite close_untouched. }
  split_and!; [done|exact He| |by intros Hf; apply Hc]. split; [|by intros Hf; apply Hc].
  intros Hn. destruct He as (kept & H1 & H2 & E). rewrite Hn in E. pose proof (sublist_length _ _ H1). pose proof (sublist_length _ _ H2).
  assert (from = out (close (view_loop grow v0 from))) as ->; [|done].
  transitivity kept; [symmetry|]; apply sublist_all; (done || lia).
Qed.

Definition demo_calls (ids : list bytes) : jval :=
  JObj [(B"role", JStr B"assistant"); (B"content", JNull); (B"tool_calls", JArr (map (fun i => JObj [(B"id", JStr i)]) ids))].
Definition demo_transcript : list jval :=
  [text_message B"user" (Some B"go"); demo_calls [B"a"; B"b"]; result_message B"b" (Some B"done"); result_message B"x" (Some B"?");
   JObj [(B"role", JStr B"assistant"); (B"content", JStr [])]].

Lemma provider_view_paired_witness :
  session_provider_view (fun _ => true) demo_transcript 0 =
    ([text_message B"user" (Some B"go"); demo_calls [B"a"; B"b"]; result_message B"b" (Some B"done"); view_add_tool_error B"a"], 3%nat) /\
  well_paired (fst (session_provider_view (fun _ => true) demo_transcript 0)).
Proof.
  split; [vm_compute; reflexivity|]. pose proof (provider_view_paired (fun _ => true) demo_transcript 0 (fun _ => eq_refl)) as H.
  destruct (session_provider_view (fun _ => true) demo_transcript 0) as [sent n]. destruct H as [H _]. exact H.
Defined.

(** C30: compaction of a session of fewer than 2^31 messages loses none of them,
    and where it happens moves the boundary forward, to the start of a turn or of
    the transcript; a
    transcript that a provider accepts is accepted from the new boundary on, so
    that its view needs no repair; and where it does not happen nothing changes. *)
Theorem compact_keeps_pairing (mem : bool) (sid : bytes) (root : document) (force : bool)
    (Hsize : (Z.of_nat (length (session_messages root)) <= 2147483647)) :
  let '(root', r) := session_compact mem sid root force in
  session_messages root' = session_messages root /\
  match r with
  | DONE =>
    session_compact_boundary root < session_compact_boundary root' /\
    (well_paired (session_messages root) ->
     session_provider_view (fun _ => true) (session_messages root') (session_compact_boundary root') =
       (drop (Z.to_nat (session_compact_boundary root')) (session_messages root), 0%nat)) /\
    (session_compact_boundary root' = 0 \/
     exists m, session_messages root !! Z.to_nat (session_compact_boundary root') = Some m /\ role_is B"user" m = true)
  | _ => root' = root
  end.
Proof.
  unfold session_compact. destruct (session_compact_needed root force) eqn:En; cbn [negb]; [|done]. destruct mem; cbn [negb]; [|done].
  set (ms := session_messages root) in *. set (b := start_of_last_turns ms (kept_turns force)).
  set (root' := obj_put _ _ root). assert (session_messages root' = ms) as Hm by (by apply messages_other). rewrite Hm. split; [done|].
  unfold session_compact_needed in En. destruct (assoc B"messages" root); [|done]. boolify. apply Z.ltb_lt in H0. fold ms b in H0.
  assert (session_compact_boundary root' = Z.of_nat b) as Eb.
  { unfold session_compact_boundary, root'. rewrite assoc_put, str_eq_refl. cbn [jget assoc get_int int_value].
    apply to_int_small. pose proof (start_of_last_turns_le ms (kept_turns force)). fold b in H1. lia. }
  rewrite Eb, Nat2Z.id. split; [done|].
  split.
  - intros Hp. pose proof (start_of_last_turns_paired ms (kept_turns force) Hp) as Hd. fold b in Hd. rewrite <- (Nat2Z.id b) at 2. apply provider_view_clean. by rewrite Nat2Z.id.
  - destruct (start_of_last_turns_spec ms (kept_turns force)) as [E|Hu]; [left; unfold b; lia|by right].
Qed.

Definition demo_root : document :=
  [(B"messages", JArr [text_message B"user" (Some B"one"); demo_calls [B"a"]; result_message B"a" (Some B"done"); text_message B"user" (Some B"two")]);
   (B"turns", JNum (JUint 2))].

Lemma compact_keeps_pairing_witness :
  session_compact_boundary (fst (session_compact true B"0123456789abcdef" demo_root true)) = 3 /\
  session_messages (fst (session_compact true B"0123456789abcdef" demo_root true)) = session_messages demo_root /\
  session_provider_view (fun _ => true) (session_messages demo_root) 3 = (drop 3 (session_messages demo_root), 0%nat).
Proof.
  split; [vm_compute; reflexivity|].
  assert (well_paired (session_messages demo_root)) as Hp.
  { apply (paired_group (text_message B"user" (Some B"one")) [] []); [by repeat constructor|by exists []|].
    apply (paired_group (demo_calls [B"a"]) [B"a"] [result_message B"a" (Some B"done")]); [by repeat constructor|by exists [B"a"]|].
    apply (paired_group (text_message B"user" (Some B"two")) [] []); [by repeat constructor|by exists []|constructor]. }
  pose proof (compact_keeps_pairing true B"0123456789abcdef" demo_root true ltac:(vm_compute; discriminate)) as H.
  destruct (session_compact true B"0123456789abcdef" demo_root true) as [root' r] eqn:E.
  assert (session_compact_boundary root' = 3 /\ r = DONE) as [Eb ->] by (injection E as <- <-; vm_compute; split; reflexivity).
  destruct H as (Hm & _ & Hv & _). specialize (Hv Hp). rewrite Eb, Hm in Hv. split; [exact Hm|exact Hv].
Defined.

(** The totals of a session are read back through an [int]: past 2147483647
    input tokens the total turns negative. *)
Example usage_total_wraps :
  let root := session_add_usage [] 2147483647 0 in
  let root := session_add_usage root 1 0 in
  session_get_usage root = (-2147483648, 0) /\
  session_get_usage (session_add_usage root 5 0) = (-2147483643, 0).
Proof. vm_compute. done. Qed.
