(* ===== verification/WorkingView.v ===== *)
(** What of a transcript goes into a request when it grows too large, and how
    what was left out is read back (src/src/core/session.c). *)
From S2P Require Import Prelude Decimal Codec Digest Json JsonValue Transcript.

Open Scope Z_scope.

(** ** Handles *)

Definition transcript_reference (index : nat) (text : bytes) : bytes :=
  B"transcript:" ++ dec (Z.of_nat index) ++ C":" :: hex16 (fnv1a text).

(** [snprintf] into 128 bytes. *)
Definition message_handle (sid : bytes) (index : nat) (json : bytes) : bytes :=
  take 127 (B"transcript:message:" ++ sid ++ C":" :: dec (Z.of_nat index) ++ C":" :: hex16 (fnv1a json)).

Definition hex_digit_lower (c : Z) : bool := is_digit c || ((C"a" <=? c) && (c <=? C"f")).

Definition valid_session_id (i : bytes) : bool := (length i =? 16)%nat && forallb hex_digit_lower i.

(** ** The working view *)

Definition TNY_WORKING_CONTEXT_BYTES : Z := 65536.

(** Where the protected messages start: the one but last message with calls;
    and how many such messages there are. *)
Fixpoint newest_batches (i protect latest batches : nat) (ms : list jval) : nat * nat :=
  match ms with
  | [] => (protect, batches)
  | m :: ms =>
    if (length (tool_calls m) =? 0)%nat then newest_batches (S i) protect latest batches ms
    else newest_batches (S i) latest i (S batches) ms
  end.

(** The original of a tool result, searched from [j] on, and where the search
    goes on. *)
Fixpoint find_source (boundary : Z) (i : option bytes) (text : bytes) (j : nat) (source : list jval) : option nat * list jval * nat :=
  match source with
  | [] => (None, [], j)
  | m :: source =>
    if (0 <? boundary) && (Z.of_nat j <? boundary) then find_source boundary i text (S j) source
    else
      match i, jget_str (Some m) B"tool_call_id", jget_str (Some m) B"content" with
      | Some i, Some i', Some text' =>
        if role_is B"tool" m && str_eq i i' && str_eq text text' then (Some j, source, S j) else find_source boundary (Some i) text (S j) source
      | _, _, _ => find_source boundary i text (S j) source
      end
  end.

(** Forwards past the bytes that continue a character. *)
Fixpoint skip_continuation (s : bytes) : bytes :=
  match s with
  | [] => []
  | c :: r => if continuation c then skip_continuation r else s
  end.

Definition elision_notice (bytes_ : Z) (reference : bytes) : bytes :=
  B"[Older tool output: " ++ dec bytes_ ++
  B" bytes. Excerpts only, not proof of success. Recover exact bytes with read_tool_result(handle=" ++ DQUOTE :: reference ++
  DQUOTE :: B", offset=0, length=16384).]" ++ [LF].

Definition compact_result (text reference : bytes) : bytes :=
  elision_notice (Z.of_nat (length text)) reference ++ take (char_start text 256) text ++
  LF :: B"[... middle retained in transcript ...]" ++ [LF] ++ skip_continuation (drop (length text - 256) text).

Definition with_content (text : bytes) (m : jval) : jval :=
  match m with JObj ms => JObj (obj_put B"content" (JStr text) ms) | _ => m end.

Section view.
Context (jwrite : jval -> option bytes).

(** The text of a result that may be shortened. *)
Definition long_result (m : jval) : option bytes :=
  match jget_str (Some m) B"content" with
  | Some text => if role_is B"tool" m && (2048 <? length text)%nat then Some text else None
  | None => None
  end.

(** The messages before the protected ones, until the budget is met; [None]: a
    text could not be written. *)
Fixpoint elide (boundary budget : Z) (old_ones : nat) (written : Z) (source : list jval) (j : nat) (ms : list jval) : option (list jval) :=
  match old_ones, ms with
  | O, _ | _, [] => Some ms
  | S old_ones, m :: ms' =>
    if written <=? budget then Some ms
    else
      match long_result m with
      | None => cons m <$> elide boundary budget old_ones written source j ms'
      | Some text =>
        let '(found, source, j) := find_source boundary (jget_str (Some m) B"tool_call_id") text j source in
        match found with
        | None => cons m <$> elide boundary budget old_ones written source j ms'
        | Some at_ =>
          let short := compact_result text (transcript_reference at_ text) in
          before ← jwrite (default JNull (jget (Some m) B"content"));
          after ← jwrite (JStr short);
          let old := Z.of_nat (length before) in
          let new := Z.of_nat (length after) in
          if new <? old then cons (with_content short m) <$> elide boundary budget old_ones (written - (old - new)) source j ms'
          else cons m <$> elide boundary budget old_ones written source j ms'
        end
      end
  end.

(** [all_tools]: the profile with every tool, or an embedding program; a
    restricted agent could not read anything back. *)
Definition session_working_view (grow : nat -> bool) (all_tools : bool) (ms : list jval) (boundary budget : Z) : option (list jval) * nat :=
  let '(sent, n) := session_provider_view grow ms boundary in
  (if (budget =? 0) || negb all_tools then Some sent
   else
     serialized ← jwrite (JArr sent);
     let written := Z.of_nat (length serialized) in
     if written <=? budget then Some sent
     else
       let '(protect, batches) := newest_batches 0 0 0 0 sent in
       if (batches <? 2)%nat then Some sent else elide boundary budget protect written ms 0 sent, n).

(** ** Reading back *)

(** [strtoull]: the number and what follows it; [None] where the source gives
    up, on something else than a digit and on [ERANGE]. *)
Fixpoint digits (s : bytes) : bytes * bytes :=
  match s with
  | c :: r => if is_digit c then let '(ds, r) := digits r in (c :: ds, r) else ([], s)
  | [] => ([], [])
  end.

Definition numeral (s : bytes) : option (Z * bytes) :=
  match digits s with
  | ([], _) => None
  | (ds, r) => if digits_value ds 0 <=? SIZE_MAX then Some (digits_value ds 0, r) else None
  end.

Definition hex_number (ds : bytes) : Z := fold_left (fun n c => n * 16 + (if is_digit c then c - C"0" else c - C"a" + 10)) ds 0.

(** A session's results: by handle, in memory or as files. *)
Record session := mk_session {
  sid : bytes; messages : list jval; no_save : bool; mem_results : list (bytes * bytes); files : bytes -> option bytes }.

Fixpoint find_handle (handle : bytes) (rs : list (bytes * bytes)) : option bytes :=
  match rs with
  | [] => None
  | (h, data) :: rs => if str_eq h handle then Some data else find_handle handle rs
  end.

Definition part (text : bytes) (off maxlen : nat) : bytes := take maxlen (drop off text).

(** A stored result: handles are hexadecimal, nothing like a path. *)
Definition stored_result (s : session) (handle : bytes) (off maxlen : nat) : option bytes :=
  if negb (forallb hex_digit_lower handle) then None
  else
    data ← (if no_save s then find_handle handle (mem_results s) else files s handle);
    Some (part data off maxlen).

(** The message a handle names, unless it has changed. *)
Definition message_json (s : session) (handle : bytes) : option bytes :=
  let rest := drop (length B"transcript:message:") handle in
  if negb (has_prefix (sid s) rest) || negb (char_at rest (length (sid s)) =? C":") then None
  else
    '(index, r) ← numeral (drop (S (length (sid s))) rest);
    if negb (cur r =? C":") || (Z.of_nat (length (messages s)) <=? index) then None
    else
      m ← messages s !! Z.to_nat index;
      json ← jwrite m;
      if str_eq handle (message_handle (sid s) (Z.to_nat index) json) then Some json else None.

Definition session_read_result (s : session) (handle : bytes) (off maxlen : nat) : option bytes :=
  if negb (has_prefix B"transcript:" handle) then stored_result s handle off maxlen
  else if has_prefix B"transcript:artifact:" handle then
    let source := drop (length B"transcript:artifact:") handle in
    let artifact := drop (S (length (sid s))) source in
    if negb (has_prefix (sid s) source) || negb (char_at source (length (sid s)) =? C":") || negb (valid_session_id artifact) then None
    else stored_result s artifact off maxlen
  else if has_prefix B"transcript:message:" handle then
    json ← message_json s handle; Some (part json off maxlen)
  else
    '(index, r) ← numeral (drop (length B"transcript:") handle);
    if negb (cur r =? C":") || negb (length (tl r) =? 16)%nat || negb (forallb hex_digit_lower (tl r)) ||
       (Z.of_nat (length (messages s)) <=? index)
    then None
    else
      m ← messages s !! Z.to_nat index;
      text ← jget_str (Some m) B"content";
      if role_is B"tool" m && (fnv1a text =? hex_number (tl r)) then Some (part text off maxlen) else None.

(** ** Storing *)

(** [handle]: a fresh identifier, if there is memory; [ok]: the result could be
    kept in memory, or written. *)
Definition session_store_result (handle : option bytes) (ok : bool) (s : session) (data : bytes) : option (session * bytes) :=
  handle ← handle;
  if negb ok then None
  else if no_save s then Some (mk_session (sid s) (messages s) true (mem_results s ++ [(handle, data)]) (files s), handle)
  else Some (mk_session (sid s) (messages s) false (mem_results s) (fun h => if str_eq h handle then Some data else files s h), handle).

Definition RESULT_STREAM_MEMORY_BYTES : Z := 1048576.
Definition RESULT_STREAM_DISK_BYTES : Z := 67108864.

(** What is left of the memory for results, [reserved] being used otherwise. *)
Definition session_result_memory_available (reserved : Z) (s : session) : Z :=
  if RESULT_STREAM_MEMORY_BYTES <=? reserved then 0
  else fold_left (fun available r => if available <=? Z.of_nat (length r.2) then 0 else available - Z.of_nat (length r.2))
         (mem_results s) (RESULT_STREAM_MEMORY_BYTES - reserved).

(** A message becomes a stored result of its own. *)
Definition session_materialize_transcript (reserved : Z) (fresh : option bytes) (ok : bool) (s : session) (handle : bytes) :
    option (session * bytes * Z) :=
  if negb (has_prefix B"transcript:message:" handle) then None
  else
    json ← message_json s handle;
    let available := if no_save s then session_result_memory_available reserved s else RESULT_STREAM_DISK_BYTES in
    if negb (Z.of_nat (length json) <=? available) then None
    else
      '(s', artifact) ← session_store_result fresh ok s json;
      Some (s', take 127 (B"transcript:artifact:" ++ sid s ++ C":" :: artifact), Z.of_nat (length json)).

(** ** Searching *)

Definition known_roles : list bytes := [B"user"; B"assistant"; B"tool"; B"system"; B"developer"].

Definition hit (s : session) (index : nat) (m : jval) (json : bytes) : jval :=
  let role := match mrole m with Some r => if str_in r known_roles then r else B"unknown" | None => B"unknown" end in
  let text := default json (jget_str (Some m) B"content") in
  JObj [(B"index", JNum (JUint (Z.of_nat index))); (B"handle", JStr (message_handle (sid s) index json)); (B"role", JStr role);
        (B"bytes", JNum (JUint (Z.of_nat (length json)))); (B"excerpt", JStr (take (char_start text (Nat.min (length text) 160)) text))].

(** The messages from [index] on; [scans] and [wanted] are how many may still be
    looked at and found. *)
Fixpoint search_loop (s : session) (query : bytes) (scans wanted index scanned : nat) (ms : list jval) (hits : list jval) :
    option (list jval * nat * nat) :=
  match scans, wanted, ms with
  | S scans, S wanted', m :: ms =>
    json ← jwrite m;
    if negb (str_eq query []) && negb (contains query json) then search_loop s query scans wanted (S index) (S scanned) ms hits
    else search_loop s query scans wanted' (S index) (S scanned) ms (hits ++ [hit s index m json])
  | _, _, _ => Some (hits, index, scanned)
  end.

Definition session_search_transcript (s : session) (query : bytes) (start limit : nat) : option jval :=
  if (256 <? length query)%nat || (limit =? 0)%nat || (32 <? limit)%nat then None
  else
    let total := length (messages s) in
    let first := Nat.min start total in
    '(hits, next, scanned) ← search_loop s query 256 limit first 0 (drop first (messages s)) [];
    Some (JObj [(B"session_id", JStr (sid s)); (B"messages", JArr hits); (B"next_index", JNum (JUint (Z.of_nat next)));
                (B"total_messages", JNum (JUint (Z.of_nat total))); (B"scanned", JNum (JUint (Z.of_nat scanned)));
                (B"complete", JBool (next =? total)%nat)]).

End view.

(** ** Lemmas: numerals *)

Lemma digits_app ds r : Forall (fun c => is_digit c = true) ds -> is_digit (cur r) = false -> digits (ds ++ r) = (ds, r).
Proof.
  intros H Hr. induction H as [|c ds Hc _ IH]; cbn [app digits]; [|by rewrite Hc, IH].
  destruct r as [|c r]; [done|]. cbn [cur hd] in Hr. cbn [digits]. by rewrite Hr.
Qed.

Lemma numeral_dec n r : 0 <= n <= SIZE_MAX -> is_digit (cur r) = false -> numeral (dec n ++ r) = Some (n, r).
Proof.
  intros Hn Hr. destruct (dec_spec n) as (Hd & Hl & Hv & _); [unfold SIZE_MAX in Hn; lia|].
  unfold numeral. rewrite digits_app by done. rewrite Hv. destruct (dec n) as [|c ds]; [cbn in Hl; lia|].
  destruct (Z.leb_spec n SIZE_MAX); [done|lia].
Qed.

Lemma dec_digit n : 0 <= n <= SIZE_MAX -> exists c ds, dec n = c :: ds /\ is_digit c = true.
Proof.
  intros Hn. destruct (dec_spec n) as (Hd & Hl & _); [unfold SIZE_MAX in Hn; lia|].
  destruct (dec n) as [|c ds]; [cbn in Hl; lia|]. apply Forall_cons_iff in Hd as [Hc _]. by exists c, ds.
Qed.

Lemma fnv1a_range s : 0 <= fnv1a s <= SIZE_MAX.
Proof.
  unfold fnv1a. assert (forall h, 0 <= h <= SIZE_MAX -> 0 <= fold_left (fun h b => u64 (Z.lxor h b * 1099511628211)) s h <= SIZE_MAX) as H.
  { induction s as [|b s IH]; intros h Hh; [done|]. cbn [fold_left]. apply IH. unfold u64, SIZE_MAX. lia. }
  apply H. unfold SIZE_MAX. lia.
Qed.

(** One digit after the other. *)
Fixpoint hexs (k : nat) (h : Z) : bytes := match k with O => [] | S k => hexs k (h / 16) ++ [hex_lower (h mod 16)] end.

Lemma hex_step h k : 0 <= h -> 0 <= k -> Z.land (Z.shiftr h (4 * k)) 15 = h / 16 ^ k mod 16.
Proof.
  intros Hh Hk. rewrite Z.shiftr_div_pow2, Bits.land_15 by lia. by rewrite Z.pow_mul_r by lia.
Qed.

Lemma hexs_map k h : 0 <= h -> hexs k h = map (fun i => hex_lower (h / 16 ^ (Z.of_nat k - 1 - Z.of_nat i) mod 16)) (seq 0 k).
Proof.
  revert h. induction k as [|k IH]; intros h Hh; [done|]. cbn [hexs]. rewrite IH by (apply Z.div_pos; lia).
  rewrite seq_S, map_app. cbn [map]. f_equal.
  - apply map_ext_in. intros i Hi%in_seq. do 2 f_equal. rewrite Z.div_div by lia.
    replace (Z.of_nat (S k) - 1 - Z.of_nat i) with (Z.succ (Z.of_nat k - 1 - Z.of_nat i)) by lia. by rewrite Z.pow_succ_r by lia.
  - do 2 f_equal. replace (Z.of_nat (S k) - 1 - Z.of_nat (0 + k)) with 0 by lia. by rewrite Z.pow_0_r, Z.div_1_r.
Qed.

Lemma hex16_hexs h : 0 <= h -> hex16 h = hexs 16 h.
Proof.
  intros Hh. rewrite hexs_map by done. unfold hex16. apply map_ext_in. intros i Hi%in_seq.
  replace (60 - 4 * Z.of_nat i) with (4 * (Z.of_nat 16 - 1 - Z.of_nat i)) by lia. by rewrite hex_step by lia.
Qed.

Lemma hex_lower_digit d : 0 <= d < 16 ->
  hex_digit_lower (hex_lower d) = true /\ (if is_digit (hex_lower d) then hex_lower d - C"0" else hex_lower d - C"a" + 10) = d.
Proof.
  intros Hd. unfold hex_digit_lower, hex_lower, is_digit. destruct (Z.ltb_spec d 10).
  - destruct (Z.leb_spec 48 (48 + d)), (Z.leb_spec (48 + d) 57); cbn [andb orb]; lia.
  - destruct (Z.leb_spec 48 (97 + (d - 10))), (Z.leb_spec (97 + (d - 10)) 57); cbn [andb orb]; try lia.
Qed.

Lemma hexs_spec k h : 0 <= h < 16 ^ Z.of_nat k ->
  length (hexs k h) = k /\ forallb hex_digit_lower (hexs k h) = true /\ hex_number (hexs k h) = h.
Proof.
  revert h. induction k as [|k IH]; intros h Hh; cbn [hexs]; [cbn in *; split_and!; (done || lia)|].
  rewrite Nat2Z.inj_succ, Z.pow_succ_r in Hh by lia.
  destruct (IH (h / 16)) as (H1 & H2 & H3); [split; [apply Z.div_pos; lia|apply Z.div_lt_upper_bound; lia]|].
  destruct (hex_lower_digit (h mod 16)) as [H4 H5]; [lia|].
  split_and!; [rewrite length_app, H1; cbn; lia|by rewrite forallb_app, H2; cbn [forallb]; rewrite H4|].
  unfold hex_number in *. rewrite fold_left_app, H3. cbn [fold_left]. rewrite H5. lia.
Qed.

Lemma hex16_spec h : 0 <= h <= SIZE_MAX ->
  length (hex16 h) = 16%nat /\ forallb hex_digit_lower (hex16 h) = true /\ hex_number (hex16 h) = h.
Proof.
  intros Hh. rewrite hex16_hexs by lia. apply hexs_spec. unfold SIZE_MAX in Hh. change (16 ^ Z.of_nat 16) with 18446744073709551616. lia.
Qed.

(** ** Lemmas: handles *)

Definition source_of (s : session) (k : nat) (text : bytes) : Prop :=
  exists m, messages s !! k = Some m /\ role_is B"tool" m = true /\ jget_str (Some m) B"content" = Some text.

(** What the index of a message can be. *)
Definition indexable (s : session) : Prop := Z.of_nat (length (messages s)) <= SIZE_MAX.

Lemma has_prefix_differs p x q c r : x <> c -> has_prefix (p ++ x :: q) (p ++ c :: r) = false.
Proof.
  intros H. induction p as [|y p IH]; cbn [app has_prefix]; [by rewrite (proj2 (Z.eqb_neq x c) H)|by rewrite Z.eqb_refl].
Qed.

Lemma reference_prefix k rest : 0 <= k <= SIZE_MAX ->
  has_prefix B"transcript:artifact:" (B"transcript:" ++ dec k ++ rest) = false /\
  has_prefix B"transcript:message:" (B"transcript:" ++ dec k ++ rest) = false.
Proof.
  intros Hk. destruct (dec_digit k Hk) as (c & ds & -> & Hc). apply is_digit_range in Hc.
  split; [apply (has_prefix_differs B"transcript:" C"a" B"rtifact:" c)|apply (has_prefix_differs B"transcript:" C"m" B"essage:" c)]; lia.
Qed.

Lemma reference_reads jwrite s k text off maxlen :
  indexable s -> source_of s k text ->
  session_read_result jwrite s (transcript_reference k text) off maxlen = Some (part text off maxlen).
Proof.
  intros Hi (m & Hm & Hr & Ht). pose proof (lookup_lt_Some _ _ _ Hm) as Hk. unfold indexable in Hi.
  unfold session_read_result, transcript_reference. rewrite has_prefix_app. cbn [negb].
  destruct (reference_prefix (Z.of_nat k) (C":" :: hex16 (fnv1a text))) as [-> ->]; [lia|].
  rewrite drop_app_exact, numeral_dec by (done || lia). cbn [mbind option_bind cur hd tl].
  destruct (hex16_spec (fnv1a text) (fnv1a_range text)) as (H1 & H2 & H3). rewrite H1, H2, H3.
  replace (Z.of_nat (length (messages s)) <=? Z.of_nat k) with false by (symmetry; apply Z.leb_gt; lia).
  cbn [negb orb]. rewrite Z.eqb_refl. cbn [negb orb Nat.eqb]. rewrite Nat2Z.id, Hm. cbn [mbind option_bind]. rewrite Ht. cbn [mbind option_bind].
  by rewrite Hr, Z.eqb_refl.
Qed.

(** ** Lemmas: shortening *)

Lemma find_source_spec boundary i text j source k source' j' ms :
  find_source boundary i text j source = (k, source', j') -> drop j ms = source ->
  drop j' ms = source' /\
  match k with
  | Some k => exists m, ms !! k = Some m /\ role_is B"tool" m = true /\ jget_str (Some m) B"content" = Some text
  | None => True
  end.
Proof.
  revert j. induction source as [|m source IH]; intros j H Hd; cbn [find_source] in H.
  - injection H as <- <- <-. split; [|done]. exact Hd.
  - assert (drop (S j) ms = source) as Hs by (change (S j) with (1 + j)%nat; rewrite Nat.add_comm, <- drop_drop, Hd; done).
    assert (ms !! j = Some m) as Hm by (rewrite <- (Nat.add_0_r j), <- lookup_drop, Hd; done).
    destruct ((0 <? boundary) && (Z.of_nat j <? boundary)); [by apply (IH (S j))|].
    destruct i as [i|]; [|by apply (IH (S j))].
    destruct (jget_str (Some m) B"tool_call_id") as [i'|]; [|by apply (IH (S j))].
    destruct (jget_str (Some m) B"content") as [text'|] eqn:Et; [|by apply (IH (S j))].
    destruct (role_is B"tool" m && str_eq i i' && str_eq text text') eqn:E; [|by apply (IH (S j))].
    injection H as <- <- <-. split; [done|]. exists m. boolify. apply str_eq_true in H0 as ->. done.
Qed.

(** A message of the view is as it was, or an old result whose whole text can be
    read back with the handle that stands in it. *)
Definition recoverable (jwrite : jval -> option bytes) (s : session) (m m' : jval) : Prop :=
  m' = m \/
  exists text k, long_result m = Some text /\
    m' = with_content (compact_result text (transcript_reference k text)) m /\
    (forall off maxlen, session_read_result jwrite s (transcript_reference k text) off maxlen = Some (part text off maxlen)) /\
    exists before after, jwrite (default JNull (jget (Some m) B"content")) = Some before /\
      jwrite (JStr (compact_result text (transcript_reference k text))) = Some after /\ (length after < length before)%nat.

Lemma Forall2_recoverable_refl jwrite s ms : Forall2 (recoverable jwrite s) ms ms.
Proof. induction ms; constructor; [by left|done]. Qed.

Lemma elide_spec jwrite s boundary budget old_ones written source j ms ms' :
  indexable s -> drop j (messages s) = source ->
  elide jwrite boundary budget old_ones written source j ms = Some ms' ->
  Forall2 (recoverable jwrite s) ms ms' /\ drop old_ones ms' = drop old_ones ms.
Proof.
  intros Hs. revert written source j ms ms'. induction old_ones as [|old_ones IH]; intros written source j ms ms' Hd; cbn [elide].
  - intros [= <-]. split; [apply Forall2_recoverable_refl|done].
  - destruct ms as [|m ms]; [intros [= <-]; by split|]. destruct (written <=? budget); [intros [= <-]; split; [apply Forall2_recoverable_refl|done]|].
    assert (forall written source j m', drop j (messages s) = source -> recoverable jwrite s m m' ->
      cons m' <$> elide jwrite boundary budget old_ones written source j ms = Some ms' ->
      Forall2 (recoverable jwrite s) (m :: ms) ms' /\ drop (S old_ones) ms' = drop (S old_ones) (m :: ms)) as Hcons.
    { intros w src k m' Hd' Hm (ms0 & E & ->)%fmap_Some. destruct (IH _ _ _ _ _ Hd' E) as [H1 H2]. split; [by constructor|done]. }
    destruct (long_result m) as [text|] eqn:El; [|by apply Hcons; [|left]].
    destruct (find_source boundary (jget_str (Some m) B"tool_call_id") text j source) as [[found source'] j'] eqn:Ef.
    destruct (find_source_spec _ _ _ _ _ _ _ _ _ Ef Hd) as [Hd' Hk]. destruct found as [k|]; [|by apply Hcons; [|left]].
    destruct (jwrite (default JNull (jget (Some m) B"content"))) as [before|] eqn:Eb; cbn [mbind option_bind]; [|done].
    destruct (jwrite (JStr (compact_result text (transcript_reference k text)))) as [after|] eqn:Ea; cbn [mbind option_bind]; [|done].
    destruct (Z.ltb_spec (Z.of_nat (length after)) (Z.of_nat (length before))); [|by apply Hcons; [|left]].
    apply Hcons; [done|]. right. exists text, k. split_and!; try done; [intros; by apply reference_reads|].
    exists before, after. split_and!; (done || lia).
Qed.

(** The newest two messages with calls are not among the old ones. *)
Definition batches_in (ms : list jval) : nat := length (List.filter (fun m => negb (length (tool_calls m) =? 0)%nat) ms).

Lemma newest_batches_spec ms i protect latest batches protect' batches' :
  newest_batches i protect latest batches ms = (protect', batches') ->
  batches' = (batches + batches_in ms)%nat /\
  match batches_in ms with
  | O => protect' = protect
  | S O => protect' = latest
  | _ => (i <= protect')%nat /\ batches_in (drop (protect' - i) ms) = 2%nat
  end.
Proof.
  revert i protect latest batches. induction ms as [|m ms IH]; intros i protect latest batches; cbn [newest_batches].
  - intros [= <- <-]. split; [cbn; lia|done].
  - assert (batches_in (m :: ms) = (if (length (tool_calls m) =? 0)%nat then 0 else 1) + batches_in ms)%nat as ->.
    { unfold batches_in. cbn [List.filter]. by destruct (length (tool_calls m) =? 0)%nat. }
    destruct (length (tool_calls m) =? 0)%nat eqn:E; intros H; destruct (IH _ _ _ _ H) as [-> Hp]; (split; [lia|]).
    + destruct (batches_in ms) as [|[|n]] eqn:Eb; cbn [Nat.add]; try done. destruct Hp as [H1 H2]. split; [lia|].
      by replace (protect' - i)%nat with (S (protect' - S i)) by lia.
    + destruct (batches_in ms) as [|[|n]] eqn:Eb; cbn [Nat.add]; try done.
      * subst protect'. split; [lia|]. rewrite Nat.sub_diag. cbn [drop]. unfold batches_in in *. cbn [List.filter]. rewrite E. cbn [negb length]. by rewrite Eb.
      * destruct Hp as [H1 H2]. split; [lia|]. by replace (protect' - i)%nat with (S (protect' - S i)) by lia.
Qed.

(** A shortened result still answers its call. *)
Lemma long_result_tool m text : long_result m = Some text -> role_is B"tool" m = true /\ jget_str (Some m) B"content" = Some text.
Proof.
  unfold long_result. destruct (jget_str (Some m) B"content") as [t|]; [|done]. destruct (role_is B"tool" m && _) eqn:E; [|done].
  intros [= <-]. by boolify.
Qed.

Lemma with_content_get text m key : str_eq B"content" key = false -> jget_str (Some (with_content text m)) key = jget_str (Some m) key.
Proof. intros E. destruct m as [| | | | |ms]; try done. unfold jget_str, jget_strn, jget. cbn [with_content]. by rewrite assoc_put, E. Qed.

(** What shortening may do to a message. *)
Definition shortened (m m' : jval) : Prop := m' = m \/ exists text t, long_result m = Some text /\ m' = with_content t m.

Lemma Forall2_shortened_refl ms : Forall2 shortened ms ms.
Proof. induction ms; constructor; [by left|done]. Qed.

Lemma recoverable_shortened jwrite s m m' : recoverable jwrite s m m' -> shortened m m'.
Proof. intros [->|(text & k & Hl & -> & _)]; [by left|]. right. eauto. Qed.

Lemma elide_shortened jwrite boundary budget old_ones written source j ms ms' :
  elide jwrite boundary budget old_ones written source j ms = Some ms' -> Forall2 shortened ms ms'.
Proof.
  revert written source j ms ms'. induction old_ones as [|old_ones IH]; intros written source j ms ms'; cbn [elide].
  { intros [= <-]. apply Forall2_shortened_refl. }
  destruct ms as [|m ms]; [by intros [= <-]|]. destruct (written <=? budget); [intros [= <-]; apply Forall2_shortened_refl|].
  assert (forall w src k m', shortened m m' -> cons m' <$> elide jwrite boundary budget old_ones w src k ms = Some ms' ->
    Forall2 shortened (m :: ms) ms') as Hcons.
  { intros w src k m' Hm (ms0 & E & ->)%fmap_Some. constructor; [done|by eapply IH]. }
  destruct (long_result m) as [text|] eqn:El; [|by apply Hcons; left].
  destruct (find_source _ _ _ _ _) as [[[k|] source'] j']; [|by apply Hcons; left].
  destruct (jwrite (default JNull _)) as [before|]; cbn [mbind option_bind]; [|done].
  destruct (jwrite (JStr _)) as [after|]; cbn [mbind option_bind]; [|done].
  destruct (_ <? _); apply Hcons; [right; eauto|by left].
Qed.

Lemma shortened_answer m m' : shortened m m' -> answer_id m' = answer_id m.
Proof.
  intros [->|(text & t & Hl & ->)]; [done|]. unfold answer_id, role_is, mrole. by rewrite !with_content_get.
Qed.

Lemma shortened_speaks m m' ids : shortened m m' -> speaks m ids -> speaks m' ids.
Proof.
  intros [->|(text & t & Hl & _)] Hs; [done|]. destruct (long_result_tool _ _ Hl) as [Ht _]. destruct Hs as (_ & Hf & _). by rewrite Ht in Hf.
Qed.

Lemma shortened_paired ms ms' : Forall2 shortened ms ms' -> well_paired ms -> well_paired ms'.
Proof.
  intros H Hw. revert ms' H. induction Hw as [|m ids rs ms Hm Ha _ IH]; intros ms' H; [inversion H; constructor|].
  inversion H as [|? m' ? l Hs Hl]; subst. apply Forall2_app_inv_l in Hl as (rs' & ns & Hr & Hn & ->).
  econstructor; [by eapply shortened_speaks| |by apply IH]. destruct Ha as (is' & E & P). exists is'. split; [|done].
  rewrite <- E. clear E P H. induction Hr as [|r r' rs rs' Hr _ IHr]; [done|]. cbn [map]. by rewrite (shortened_answer _ _ Hr), IHr.
Qed.

Lemma recoverable_paired jwrite s ms ms' : Forall2 (recoverable jwrite s) ms ms' -> well_paired ms -> well_paired ms'.
Proof. intros H. apply shortened_paired. revert H. apply Forall2_impl. intros m m'. apply recoverable_shortened. Qed.

Lemma working_view_accepted jwrite grow all_tools ms boundary budget sent n :
  (forall k, grow k = true) -> session_working_view jwrite grow all_tools ms boundary budget = (Some sent, n) -> well_paired sent.
Proof.
  intros Hg H. unfold session_working_view in H. pose proof (provider_view_accepted grow ms boundary Hg) as Hp.
  destruct (session_provider_view grow ms boundary) as [whole n']. cbn [fst] in Hp. injection H as H Hn.
  destruct ((budget =? 0) || negb all_tools); [by injection H as <-|].
  destruct (jwrite (JArr whole)) as [text|]; cbn [mbind option_bind] in H; [|done].
  destruct (Z.of_nat (length text) <=? budget); [by injection H as <-|].
  destruct (newest_batches 0 0 0 0 whole) as [protect batches]. destruct (batches <? 2)%nat; [by injection H as <-|].
  by eapply shortened_paired; [eapply elide_shortened|].
Qed.

(** ** Lemmas: searching *)

Lemma message_handle_whole s k json :
  valid_session_id (sid s) = true -> Z.of_nat k <= SIZE_MAX ->
  message_handle (sid s) k json = B"transcript:message:" ++ sid s ++ C":" :: dec (Z.of_nat k) ++ C":" :: hex16 (fnv1a json).
Proof.
  intros Hid Hk. unfold message_handle. apply take_ge. unfold valid_session_id in Hid. boolify.
  match goal with H : (length _ =? 16)%nat = true |- _ => apply Nat.eqb_eq in H; rename H into Hl end.
  destruct (hex16_spec (fnv1a json) (fnv1a_range json)) as (H1 & _). pose proof (dec_width64 (Z.of_nat k)).
  rewrite !length_app. cbn [length]. rewrite !length_app. cbn [length]. rewrite H1, Hl. lia.
Qed.

Lemma message_handle_reads jwrite s k m json off maxlen :
  indexable s -> valid_session_id (sid s) = true -> messages s !! k = Some m -> jwrite m = Some json ->
  session_read_result jwrite s (message_handle (sid s) k json) off maxlen = Some (part json off maxlen).
Proof.
  intros Hs Hid Hm Hj. pose proof (lookup_lt_Some _ _ _ Hm) as Hk. unfold indexable in Hs.
  pose proof (message_handle_whole s k json Hid ltac:(lia)) as E. unfold session_read_result.
  assert (has_prefix B"transcript:" (message_handle (sid s) k json) = true) as -> by (rewrite E; exact (has_prefix_app B"transcript:" (B"message:" ++ _))).
  assert (has_prefix B"transcript:artifact:" (message_handle (sid s) k json) = false) as ->.
  { rewrite E. apply (has_prefix_differs B"transcript:" C"a" B"rtifact:" C"m" (B"essage:" ++ _)). done. }
  assert (has_prefix B"transcript:message:" (message_handle (sid s) k json) = true) as -> by (rewrite E; apply has_prefix_app).
  cbn [negb]. enough (message_json jwrite s (message_handle (sid s) k json) = Some json) as -> by done. unfold message_json.
  set (h := message_handle (sid s) k json) in *. clearbody h. subst h. rewrite drop_app_exact, has_prefix_app.
  replace (drop (S (length (sid s))) (sid s ++ C":" :: dec (Z.of_nat k) ++ C":" :: hex16 (fnv1a json)))
    with (dec (Z.of_nat k) ++ C":" :: hex16 (fnv1a json)).
  2: { change (sid s ++ C":" :: ?x) with (sid s ++ [C":"] ++ x). rewrite app_assoc.
       replace (S (length (sid s))) with (length (sid s ++ [C":"])) by (rewrite length_app; cbn; lia). by rewrite drop_app_exact. }
  unfold char_at. rewrite app_nth2, Nat.sub_diag by lia. cbn [nth negb orb Z.eqb Pos.eqb].
  rewrite numeral_dec by (done || lia). cbn [mbind option_bind cur hd]. cbn [negb orb Z.eqb Pos.eqb].
  replace (Z.of_nat (length (messages s)) <=? Z.of_nat k) with false by (symmetry; apply Z.leb_gt; lia).
  rewrite Nat2Z.id, Hm. cbn [mbind option_bind]. rewrite Hj. cbn [mbind option_bind].
  rewrite message_handle_whole by (done || lia). by rewrite str_eq_refl.
Qed.

(** What a hit stands for. *)
Definition hit_of (jwrite : jval -> option bytes) (s : session) (query : bytes) (start : nat) (h : jval) : Prop :=
  exists k m json, (start <= k)%nat /\ messages s !! k = Some m /\ jwrite m = Some json /\ contains query json = true /\ h = hit s k m json.

Lemma search_loop_spec jwrite s query start scans wanted index scanned ms hits hits' next scanned' :
  (start <= index)%nat -> drop index (messages s) = ms ->
  search_loop jwrite s query scans wanted index scanned ms hits = Some (hits', next, scanned') ->
  exists new, hits' = hits ++ new /\ (length new <= wanted)%nat /\ Forall (hit_of jwrite s query start) new.
Proof.
  revert wanted index scanned ms hits. induction scans as [|scans IH]; intros wanted index scanned ms hits Hi Hd; cbn [search_loop].
  - intros [= <- _ _]. exists []. rewrite app_nil_r. split_and!; [done|cbn; lia|constructor].
  - assert (Some (hits, index, scanned) = Some (hits', next, scanned') ->
      exists new, hits' = hits ++ new /\ (length new <= wanted)%nat /\ Forall (hit_of jwrite s query start) new) as Hstop.
    { intros [= <- _ _]. exists []. rewrite app_nil_r. split_and!; [done|cbn; lia|constructor]. }
    destruct wanted as [|wanted]; [done|]. destruct ms as [|m ms]; [done|]. clear Hstop.
    destruct (jwrite m) as [json|] eqn:Ej; cbn [mbind option_bind]; [|done].
    assert (drop (S index) (messages s) = ms) as Hd' by (change (S index) with (1 + index)%nat; rewrite Nat.add_comm, <- drop_drop, Hd; done).
    assert (messages s !! index = Some m) as Hm by (rewrite <- (Nat.add_0_r index), <- lookup_drop, Hd; done).
    destruct (negb (str_eq query []) && negb (contains query json)) eqn:Ec; [apply IH; [lia|done]|].
    intros H. destruct (IH wanted (S index) (S scanned) ms (hits ++ [hit s index m json]) ltac:(lia) Hd' H) as (new & -> & Hl & Hf).
    exists (hit s index m json :: new). split_and!; [by rewrite <- app_assoc|cbn; lia|]. constructor; [|done].
    exists index, m, json. split_and!; try done. apply andb_false_iff in Ec as [Ec|Ec]; apply negb_false_iff in Ec; [|done].
    apply str_eq_true in Ec as ->. by destruct json.
Qed.

(** ** Properties *)

(** C16: a request that grows too large loses nothing: only results older than
    the two newest batches of calls are shortened, each to something shorter
    that names a handle with which any part of the whole text is read back; and
    what is sent is still a transcript that a provider accepts. *)
Theorem working_view_lossless (jwrite : jval -> option bytes) (s : session) (grow : nat -> bool) (all_tools : bool) (boundary budget : Z)
    (sent : list jval) (n : nat) (Hs : indexable s) (Hg : forall k, grow k = true)
    (H : session_working_view jwrite grow all_tools (messages s) boundary budget = (Some sent, n)) :
  let '(whole, n') := session_provider_view grow (messages s) boundary in
  n = n' /\ well_paired sent /\ Forall2 (recoverable jwrite s) whole sent /\
  (sent = whole \/ exists old_ones, drop old_ones sent = drop old_ones whole /\ batches_in (drop old_ones whole) = 2%nat).
Proof.
  unfold session_working_view in H. pose proof (provider_view_accepted grow (messages s) boundary Hg) as Hp.
  destruct (session_provider_view grow (messages s) boundary) as [whole n'] eqn:Ev. cbn [fst] in Hp.
  injection H as H Hn. split; [done|]. assert (sent = whole -> well_paired sent /\ Forall2 (recoverable jwrite s) whole sent /\
    (sent = whole \/ exists old_ones, drop old_ones sent = drop old_ones whole /\ batches_in (drop old_ones whole) = 2%nat)) as Hsame.
  { intros ->. split_and!; [done|apply Forall2_recoverable_refl|by left]. }
  destruct ((budget =? 0) || negb all_tools); [by apply Hsame; injection H as ->|].
  destruct (jwrite (JArr whole)) as [text|]; cbn [mbind option_bind] in H; [|done].
  destruct (Z.of_nat (length text) <=? budget); [by apply Hsame; injection H as ->|].
  destruct (newest_batches 0 0 0 0 whole) as [protect batches] eqn:Eb. destruct (newest_batches_spec _ _ _ _ _ _ _ Eb) as [-> Hb].
  destruct (Nat.ltb_spec (0 + batches_in whole) 2); [by apply Hsame; injection H as ->|].
  destruct (elide_spec _ s _ _ _ _ _ _ _ _ Hs (drop_0 _) H) as [H1 H2].
  split_and!; [by eapply recoverable_paired|done|]. right. exists protect. split; [done|].
  destruct (batches_in whole) as [|[|k]]; [lia|lia|]. destruct Hb as [_ Hb]. by rewrite Nat.sub_0_r in Hb.
Qed.

(** A result of 3000 bytes, older than two batches. *)
Definition demo_batch (cid : bytes) (text : bytes) : list jval :=
  [JObj [(B"role", JStr B"assistant"); (B"content", JNull); (B"tool_calls", JArr [JObj [(B"id", JStr cid)]])];
   result_message cid (Some text)].
Definition demo_session : session :=
  mk_session B"0123456789abcdef" (demo_batch B"a" (replicate 3000 C"x") ++ demo_batch B"b" B"done" ++ demo_batch B"c" B"done") false [] (fun _ => None).

(** A writer that is enough for the witness: only lengths matter. *)
Fixpoint demo_write (fuel : nat) (v : jval) : bytes :=
  match fuel with
  | O => []
  | S fuel =>
    match v with
    | JStr t => DQUOTE :: t ++ [DQUOTE]
    | JArr vs => C"[" :: concat (map (demo_write fuel) vs) ++ [C"]"]
    | JObj ms => C"{" :: concat (map (fun m => m.1 ++ demo_write fuel m.2) ms) ++ [C"}"]
    | _ => B"null"
    end
  end.
Definition demo_jwrite (v : jval) : option bytes := Some (demo_write 5 v).

Definition demo_view : option (list jval) * nat :=
  session_working_view demo_jwrite (fun _ => true) true (messages demo_session) 0 1000.

(** The length of the first result. *)
Definition first_length (ms : list jval) : Z := from_option (fun t => Z.of_nat (length t)) 0 (jget_str (Some (nth 1 ms JNull)) B"content").

Lemma working_view_lossless_witness :
  exists sent, demo_view = (Some sent, 0%nat) /\ well_paired sent /\ first_length sent = 730.
Proof.
  assert (match demo_view with (Some sent, n) => (first_length sent, n) = (730, 0%nat) | _ => False end) as Hc by (vm_compute; reflexivity).
  pose proof (fun sent n => working_view_lossless demo_jwrite demo_session (fun _ => true) true 0 1000 sent n
    ltac:(vm_compute; discriminate) (fun _ => eq_refl)) as H. fold demo_view in H.
  destruct (session_provider_view (fun _ => true) (messages demo_session) 0) as [whole n'].
  set (v := demo_view) in *. clearbody v. destruct v as [[sent|] n]; [|done].
  pose proof (f_equal fst Hc) as Hl. pose proof (f_equal snd Hc) as Hn. cbn [fst snd] in Hl, Hn. exists sent.
  destruct (H sent n eq_refl) as (_ & Hw & _). split; [by rewrite Hn|]. by split.
Defined.

(** A search hit is a way back: its handle reads any part of the message it
    stands for, as long as that message has not changed. *)
Theorem search_hits_read (jwrite : jval -> option bytes) (s : session) (query : bytes) (start limit : nat) (found : jval)
    (Hs : indexable s) (Hid : valid_session_id (sid s) = true)
    (H : session_search_transcript jwrite s query start limit = Some found) :
  let hits := arr_items (jget (Some found) B"messages") in
  (length hits <= limit)%nat /\
  Forall (fun h => exists k m json, (start <= k)%nat /\ messages s !! k = Some m /\ jwrite m = Some json /\ contains query json = true /\
    jget (Some h) B"handle" = Some (JStr (message_handle (sid s) k json)) /\
    forall off maxlen, session_read_result jwrite s (message_handle (sid s) k json) off maxlen = Some (part json off maxlen)) hits.
Proof.
  unfold session_search_transcript in H. destruct ((256 <? length query)%nat || (limit =? 0)%nat || (32 <? limit)%nat); [done|].
  set (first := Nat.min start (length (messages s))) in *.
  destruct (search_loop jwrite s query 256 limit first 0 (drop first (messages s)) []) as [[[hits next] scanned]|] eqn:E; [|done].
  destruct (search_loop_spec jwrite s query first _ _ _ _ _ _ _ _ _ (le_n _) eq_refl E) as (new & -> & Hl & Hf).
  injection H as <-. cbn [jget assoc arr_items app]. split; [exact Hl|]. eapply Forall_impl; [|exact Hf].
  intros h (k & m & json & Hk & Hm & Hj & Hc & ->). exists k, m, json. pose proof (lookup_lt_Some _ _ _ Hm).
  split_and!; try done; [lia|]. intros off maxlen. by eapply message_handle_reads.
Qed.

Lemma search_hits_read_witness :
  exists found, session_search_transcript demo_jwrite demo_session B"done" 1 1 = Some found /\
    length (arr_items (jget (Some found) B"messages")) = 1%nat /\
    (length (arr_items (jget (Some found) B"messages")) <= 1)%nat.
Proof.
  assert (from_option (fun found => length (arr_items (jget (Some found) B"messages"))) 0%nat
    (session_search_transcript demo_jwrite demo_session B"done" 1 1) = 1%nat) as Hc by (vm_compute; reflexivity).
  destruct (session_search_transcript demo_jwrite demo_session B"done" 1 1) as [found|] eqn:E; [|done]. exists found.
  pose proof (search_hits_read demo_jwrite demo_session B"done" 1 1 found ltac:(vm_compute; discriminate) ltac:(vm_compute; reflexivity) E) as [Hl _].
  split_and!; [done|exact Hc|exact Hl].
Defined.
