(* ===== verification/Errors.v ===== *)
(** What is told of a failed provider request, and whether it is tried again
    (src/src/backends/openai/errors.c). *)
From S2P Require Import Prelude Decimal Text Json JsonValue.

Open Scope Z_scope.

(** ** Categories *)

Definition category_char (c : Z) : option Z :=
  if is_lower c || is_digit c || (c =? C"_") then Some c
  else if is_upper c then Some (c + 32)
  else if (c =? C"-") || (c =? C".") || (c =? C" ") then Some C"_"
  else None.

(** [n]: the characters kept so far. *)
Fixpoint category_loop (cap n : nat) (raw : bytes) : option bytes :=
  match raw with
  | [] => Some []
  | c :: raw =>
    k ← category_char c;
    if (cap <=? n + 1)%nat then None else cons k <$> category_loop cap (S n) raw
  end.

Definition oa_error_token (cap : nat) (raw : option bytes) : bytes := default [] (raw ≫= category_loop cap 0).

Definition permanent : list bytes :=
  [B"invalid"; B"context_length"; B"insufficient"; B"model_not_found"; B"not_found"; B"unsupported"; B"unknown_model"; B"billing"].

Definition oa_error_token_is_permanent (token : bytes) : bool := existsb (fun p => has_prefix p token) permanent.

Definition oa_status_is_retryable (status : Z) : bool :=
  (status =? 408) || (status =? 409) || (status =? 425) || (status =? 429) || (500 <=? status).

(** ** Errors of a ChatGPT plan *)

Inductive oa_plan_error :=
  | PLAN_NONE | PLAN_USAGE_LIMIT | PLAN_UNAVAILABLE | PLAN_NOT_ELIGIBLE | PLAN_ROUTE | PLAN_GRANT | PLAN_INVALID_USER | PLAN_UNSUPPORTED.

#[export] Instance plan_eq_dec : EqDecision oa_plan_error.
Proof. solve_decision. Defined.

Definition oa_plan_codes : list (bytes * oa_plan_error) :=
  [(B"subscription_sharing_usage_limit_exceeded", PLAN_USAGE_LIMIT);
   (B"subscription_sharing_usage_unavailable", PLAN_UNAVAILABLE);
   (B"subscription_sharing_user_unavailable", PLAN_UNAVAILABLE);
   (B"subscription_sharing_user_not_eligible", PLAN_NOT_ELIGIBLE);
   (B"subscription_sharing_route_not_supported", PLAN_ROUTE);
   (B"chatpass_v2_scope_not_authorized", PLAN_GRANT);
   (B"chatpass_v2_invalid_authorization_context", PLAN_GRANT);
   (B"subscription_sharing_invalid_user", PLAN_INVALID_USER);
   (B"subscription_sharing_unsupported_capability", PLAN_UNSUPPORTED)].

Definition plan_row (code : bytes) : option (bytes * oa_plan_error) := List.find (fun row => str_eq code row.1) oa_plan_codes.

Definition oa_plan_error_of (code : option bytes) : oa_plan_error := default PLAN_NONE (snd <$> (code ≫= plan_row)).

(** The table's own copy of the code. *)
Definition plan_code_static (code : option bytes) : option bytes := fst <$> (code ≫= plan_row).

Definition oa_plan_error_retryable (e : oa_plan_error) : bool := bool_decide (e = PLAN_UNAVAILABLE).

Definition param_char (c : Z) : bool :=
  is_lower c || is_upper c || is_digit c || (c =? C"_") || (c =? C".") || (c =? C"[") || (c =? C"]") || (c =? C"-").

Definition oa_error_param (cap : nat) (raw : option bytes) : bytes :=
  match raw with
  | Some s => if (length s =? 0)%nat || (cap <=? length s)%nat || negb (forallb param_char s) then [] else s
  | None => []
  end.

(** ** The provider's own message, only on request *)

Definition blanked (c : Z) : Z := if (c <? 0x20) || (c =? 0x7f) then C" " else c.
Definition follows (c : Z) : bool := Z.land c 0xc0 =? 0x80.

(** The bytes from the last one on that continue a character. *)
Fixpoint skip_follows (r : bytes) : bytes :=
  match r with
  | [] => []
  | c :: r' => if follows c then skip_follows r' else r
  end.

(** Without the last character, unless that is ASCII. *)
Definition cut_character (s : bytes) : bytes :=
  rev (match skip_follows (rev s) with
       | c :: r => if negb (Z.land c 0x80 =? 0) then r else c :: r
       | [] => []
       end).

Definition set_error_detail (cap : nat) (debug : bool) (msg : option bytes) : bytes :=
  match msg with
  | Some msg =>
    if negb debug then []
    else
      let shown := map blanked (take (cap - 1) msg) in
      if (cap - 1 <? length msg)%nat then cut_character shown else shown
  | None => []
  end.

(** ** Classification *)

Record oa_error_info := mk_info {
  status : Z; code : Z; token : bytes; retryable : bool; retry_after_ms : Z;
  plan : oa_plan_error; plan_code : option bytes; param : bytes }.

Definition no_error : oa_error_info := mk_info 0 0 [] false 0 PLAN_NONE None [].

Definition worth_retrying (status code : Z) (token : bytes) (plan : oa_plan_error) : bool :=
  if negb (bool_decide (plan = PLAN_NONE)) then oa_plan_error_retryable plan
  else if 400 <=? status then oa_status_is_retryable status
  else if 400 <=? code then oa_status_is_retryable code
  else negb (oa_error_token_is_permanent token).

(** The number in the payload; gateways relay a status in either member. *)
Definition payload_code (err : option jval) : Z :=
  let n := get_int (jget err B"code") in
  if n =? 0 then to_int (jget_int err B"status" 0) else n.

Definition payload_token (err : option jval) : bytes :=
  let type := jget_str err B"type" in
  let code := jget_str err B"code" in
  match oa_error_token 33 (match type with Some t => Some t | None => code end), type, code with
  | [], Some _, Some _ => oa_error_token 33 code
  | t, _, _ => t
  end.

(** The detail, and what is known; a payload that is neither an object nor a
    string leaves the detail as it was. *)
Definition oa_error_classify (err : option jval) (http_status : Z) (debug : bool) (detail : bytes) (detail_cap : nat) : bytes * oa_error_info :=
  match err with
  | Some (JObj _) =>
    let pc := plan_code_static (match jget_str err B"code" with Some c => Some c | None => jget_str err B"type" end) in
    let p := oa_plan_error_of pc in
    let t := payload_token err in
    let n := payload_code err in
    (set_error_detail detail_cap debug (jget_str err B"message"),
     mk_info http_status n t (worth_retrying http_status n t p) 0 p pc
       (if bool_decide (p = PLAN_UNSUPPORTED) then oa_error_param 64 (jget_str err B"param") else []))
  | _ =>
    (match err with Some (JStr s) => set_error_detail detail_cap debug (Some (c_str s)) | _ => detail end,
     mk_info http_status 0 [] (worth_retrying http_status 0 [] PLAN_NONE) 0 PLAN_NONE None [])
  end.

(** ** The line for the user *)

Definition TNY_CHATGPT_USAGE_URL : bytes := B"https://chatgpt.com/settings/usage".

Definition plan_error_text (info : oa_error_info) (st : bytes) : bytes :=
  let code := default [] (plan_code info) in
  match plan info with
  | PLAN_USAGE_LIMIT =>
    B"ChatGPT plan usage limit reached (" ++ st ++ code ++ B"): tny paused requests on your plan; check usage at " ++ TNY_CHATGPT_USAGE_URL
  | PLAN_UNAVAILABLE => B"ChatGPT plan usage is temporarily unavailable (" ++ st ++ code ++ B")"
  | PLAN_NOT_ELIGIBLE =>
    B"ChatGPT plan usage is not available for this account, workspace or policy (" ++ st ++ code ++
    B"); signing in again will not change it — use an OpenAI API key instead"
  | PLAN_ROUTE => B"the ChatGPT plan does not serve this endpoint (" ++ st ++ code ++ B")"
  | PLAN_GRANT =>
    B"the ChatGPT sign-in does not authorize this request (" ++ st ++ code ++
    B"): sign in again with `tny --provider openai login` and allow ChatGPT plan use"
  | PLAN_INVALID_USER =>
    B"ChatGPT could not validate the signed-in user (" ++ st ++ code ++ B"): sign in again with `tny --provider openai login`"
  | PLAN_UNSUPPORTED =>
    match param info with
    | [] => B"the ChatGPT plan does not support part of this request (" ++ st ++ code ++ B")"
    | p => B"the ChatGPT plan does not support `" ++ p ++ B"` in this request (" ++ st ++ code ++ B")"
    end
  | PLAN_NONE => []
  end.

Definition error_line (info : oa_error_info) (plan_route grok_proxy : bool) : bytes :=
  let cat := take 47 (match token info with [] => [] | t => B", " ++ t end) in
  let st := if status info =? 0 then [] else take 23 (B"HTTP " ++ int_text (status info) ++ B", ") in
  if negb (bool_decide (plan info = PLAN_NONE)) then plan_error_text info st
  else if (status info =? 426) && grok_proxy then
    B"Grok requires a newer client version (HTTP 426" ++ cat ++
    B"): update tny or set TNY_GROK_CLIENT_VERSION to a supported Grok Build version"
  else if (status info =? 401) && plan_route then
    B"ChatGPT sign-in was not accepted (HTTP 401" ++ cat ++ B"): sign in again with `tny --provider openai login`"
  else if status info =? 401 then B"authentication failed (HTTP 401" ++ cat ++ B"): check the API key"
  else if (status info =? 403) && plan_route then
    B"ChatGPT plan request refused (HTTP 403" ++ cat ++ B"): a policy or permission check, such as the serving region, blocked it"
  else if status info =? 403 then
    B"provider refused the request (HTTP 403" ++ cat ++ B"): the key may lack access to this model, or a gateway blocked the request"
  else if status info =? 429 then B"provider rate limit (HTTP 429" ++ cat ++ B")"
  else if 500 <=? status info then B"provider error (HTTP " ++ int_text (status info) ++ cat ++ B")"
  else if 400 <=? status info then B"provider rejected the request (HTTP " ++ int_text (status info) ++ cat ++ B")"
  else if 400 <=? code info then B"provider stream reported an error (code " ++ int_text (code info) ++ cat ++ B")"
  else B"provider stream reported an error" ++ cat.

Definition oa_error_format (info : oa_error_info) (plan_route grok_proxy : bool) (detail : option bytes) (cap : nat) : bytes :=
  let out := take (cap - 1) (error_line info plan_route grok_proxy) in
  match detail with
  | Some ((_ :: _) as d) => if (length out <? cap)%nat then out ++ take (cap - length out - 1) (B": " ++ d) else out
  | _ => out
  end.

(** ** Retry-After *)

Definition OA_RETRY_MAX_MS : Z := 30000.
Definition LONG_MAX : Z := 9223372036854775807.

Fixpoint skip_spaces (s : bytes) : bytes :=
  match s with
  | [] => []
  | c :: r => if c =? C" " then skip_spaces r else s
  end.

(** [strtol] of digits. *)
Fixpoint leading_digits (s : bytes) : bytes :=
  match s with
  | [] => []
  | c :: r => if is_digit c then c :: leading_digits r else []
  end.

Definition oa_error_retry_after_ms (value : option bytes) : Z :=
  match value with
  | None => 0
  | Some v =>
    let v := skip_spaces v in
    if negb (is_digit (cur v)) then 0
    else
      let secs := Z.min (digits_value (leading_digits v) 0) LONG_MAX in
      if secs <=? 0 then 0 else Z.min secs (OA_RETRY_MAX_MS / 1000) * 1000
  end.

(** ** Lemmas: what may be shown *)

Definition token_char (c : Z) : bool := is_lower c || is_digit c || (c =? C"_").
Definition printable (c : Z) : bool := (0x20 <=? c) && negb (c =? 0x7f).

Lemma category_char_token c k : category_char c = Some k -> token_char k = true.
Proof.
  unfold category_char, token_char. destruct (is_lower c || is_digit c || (c =? C"_")) eqn:E; [by intros [= <-]|].
  destruct (is_upper c) eqn:Eu; [intros [= <-]|destruct ((c =? 45) || (c =? 46) || (c =? 32)); [by intros [= <-]|done]].
  unfold is_upper, is_lower, is_digit in *. boolify. lia.
Qed.

Lemma token_loop_spec cap n raw t : category_loop cap n raw = Some t -> Forall (fun c => token_char c = true) t /\ (t = [] \/ length t + n < cap)%nat.
Proof.
  revert n t. induction raw as [|c raw IH]; intros n t; cbn [category_loop]; [intros [= <-]; by split; [constructor|left]|].
  destruct (category_char c) as [k|] eqn:Ec; cbn [mbind option_bind]; [|done].
  destruct (Nat.leb_spec cap (n + 1)); [done|]. intros (u & Hu & ->)%fmap_Some. destruct (IH _ _ Hu) as [H1 H2].
  split; [constructor; [by eapply category_char_token|done]|]. right. cbn [length]. destruct H2 as [->|]; cbn [length]; lia.
Qed.

Lemma oa_error_token_spec cap raw : Forall (fun c => token_char c = true) (oa_error_token cap raw) /\ (length (oa_error_token cap raw) <= cap - 1)%nat.
Proof.
  unfold oa_error_token. destruct (raw ≫= category_loop cap 0) as [t|] eqn:E; cbn [default]; [|split; [constructor|cbn; lia]].
  apply bind_Some in E as (s & _ & E). destruct (token_loop_spec _ _ _ _ E) as [H1 H2]. split; [done|]. destruct H2 as [->|]; cbn; lia.
Qed.

Lemma payload_token_spec err : Forall (fun c => token_char c = true) (payload_token err) /\ (length (payload_token err) <= 32)%nat.
Proof.
  unfold payload_token. set (t := oa_error_token 33 _).
  assert (Forall (fun c => token_char c = true) t /\ (length t <= 32)%nat) as Ht by (apply (oa_error_token_spec 33)).
  destruct t, (jget_str err B"type"), (jget_str err B"code"); try exact Ht; apply (oa_error_token_spec 33).
Qed.

Lemma oa_error_param_spec cap raw : Forall (fun c => param_char c = true) (oa_error_param cap raw) /\ (length (oa_error_param cap raw) <= cap - 1)%nat.
Proof.
  unfold oa_error_param. destruct raw as [s|]; [|split; [constructor|cbn; lia]].
  destruct ((length s =? 0)%nat || (cap <=? length s)%nat || negb (forallb param_char s)) eqn:E; [split; [constructor|cbn; lia]|].
  boolify. split; [by apply Forall_forall, forallb_forall|]. match goal with H : (cap <=? _)%nat = false |- _ => apply Nat.leb_gt in H end. lia.
Qed.

Lemma plan_row_in s row : plan_row s = Some row -> In row oa_plan_codes.
Proof. intros H. by apply find_some in H as [H _]. Qed.

Lemma plan_code_in s c : plan_code_static s = Some c -> In c (map fst oa_plan_codes).
Proof.
  unfold plan_code_static. intros ([c' e] & E & ->)%fmap_Some. apply bind_Some in E as (s' & _ & E). apply (in_map fst), (plan_row_in _ _ E).
Qed.

Definition all_printable (s : bytes) : Prop := forallb printable s = true.

Lemma all_printable_app s t : all_printable s -> all_printable t -> all_printable (s ++ t).
Proof. unfold all_printable. intros Hs Ht. by rewrite forallb_app, Hs, Ht. Qed.

Lemma all_printable_take n s : all_printable s -> all_printable (take n s).
Proof.
  unfold all_printable. rewrite !forallb_forall. intros H c Hc. apply H. rewrite <- (take_drop n s). apply in_app_iff. by left.
Qed.

Lemma all_printable_forall (p : Z -> bool) s : Forall (fun c => p c = true) s -> (forall c, p c = true -> printable c = true) -> all_printable s.
Proof. intros H Hp. apply forallb_forall. intros c Hc. apply Hp. rewrite List.Forall_forall in H. by apply H. Qed.

Lemma printable_token c : token_char c = true -> printable c = true.
Proof. unfold token_char, printable, is_lower, is_digit. intros H. rewrite andb_true_iff, negb_true_iff, Z.eqb_neq, Z.leb_le. lia. Qed.

Lemma printable_param c : param_char c = true -> printable c = true.
Proof. unfold param_char, printable, is_lower, is_upper, is_digit. intros H. rewrite andb_true_iff, negb_true_iff, Z.eqb_neq, Z.leb_le. lia. Qed.

Lemma digits_printable fuel n : 0 <= n -> all_printable (digits_of fuel n).
Proof.
  revert n. induction fuel as [|fuel IH]; intros n Hn; cbn [digits_of]; [done|]. apply all_printable_app.
  - destruct (n <? 10); [done|]. apply IH, Z.div_pos; lia.
  - unfold all_printable, printable. cbn [forallb]. rewrite andb_true_r, andb_true_iff, negb_true_iff, Z.eqb_neq, Z.leb_le. lia.
Qed.

Lemma int_text_printable n : all_printable (int_text n).
Proof.
  unfold int_text, dec. destruct (Z.ltb_spec n 0).
  - change (C"-" :: ?x) with ([C"-"] ++ x). apply all_printable_app; [done|]. apply digits_printable. lia.
  - by apply digits_printable.
Qed.

(** All that a diagnostic takes from a payload: a category, a number, a plan code
    of the table and, where that says that a parameter is not supported, the path
    of a field. *)
Definition told (err : option jval) : bytes * Z * option bytes * bytes :=
  match err with
  | Some (JObj _) =>
    let pc := plan_code_static (match jget_str err B"code" with Some c => Some c | None => jget_str err B"type" end) in
    (payload_token err, payload_code err, pc,
     if bool_decide (oa_plan_error_of pc = PLAN_UNSUPPORTED) then oa_error_param 64 (jget_str err B"param") else [])
  | _ => ([], 0, None, [])
  end.

Lemma set_error_detail_off cap msg : set_error_detail cap false msg = [].
Proof. by destruct msg. Qed.

(** Without the switch. *)
Lemma classify_told err s cap :
  oa_error_classify err s false [] cap =
    ([], let '(t, n, pc, p) := told err in
         mk_info s n t (worth_retrying s n t (oa_plan_error_of pc)) 0 (oa_plan_error_of pc) pc p).
Proof. destruct err as [[| | | | |ms]|]; try done. cbn [oa_error_classify told]. by rewrite set_error_detail_off. Qed.

Lemma to_int_range n : -2147483648 <= to_int n < 2147483648.
Proof. unfold to_int. pose proof (Z.mod_pos_bound (n + 2147483648) 4294967296). lia. Qed.

Lemma payload_code_range err : -2147483648 <= payload_code err < 2147483648.
Proof.
  unfold payload_code. destruct (_ =? 0); [apply to_int_range|]. unfold get_int.
  destruct (jget err B"code") as [[| |[]| | |]|]; first [apply to_int_range|lia].
Qed.

(** A diagnostic record holds nothing of the provider's but these. *)
Record clean (info : oa_error_info) : Prop := {
  clean_code : -2147483648 <= code info < 2147483648;
  clean_token : Forall (fun c => token_char c = true) (token info) /\ (length (token info) <= 32)%nat;
  clean_param : Forall (fun c => param_char c = true) (param info) /\ (length (param info) <= 63)%nat;
  clean_plan : forall c, plan_code info = Some c -> In c (map fst oa_plan_codes) }.

Lemma classify_clean err s debug d cap : clean (snd (oa_error_classify err s debug d cap)).
Proof.
  assert (clean (mk_info s 0 [] (worth_retrying s 0 [] PLAN_NONE) 0 PLAN_NONE None [])) as H0.
  { constructor; cbn; [lia|split; [constructor|lia]|split; [constructor|lia]|done]. }
  destruct err as [[| | | | |ms]|]; try exact H0. cbn [oa_error_classify snd]. constructor; cbn [code token param plan_code].
  - apply payload_code_range.
  - apply payload_token_spec.
  - destruct (bool_decide _); [apply (oa_error_param_spec 64)|split; [constructor|cbn; lia]].
  - intros c. apply plan_code_in.
Qed.

Lemma plan_codes_printable c : In c (map fst oa_plan_codes) -> all_printable c.
Proof. intros H. pose proof (proj1 (forallb_forall (forallb printable) (map fst oa_plan_codes)) eq_refl c H) as Hc. exact Hc. Qed.

Ltac prove_shown :=
  repeat match goal with
  | |- all_printable (_ ++ _) => apply all_printable_app
  | |- all_printable (take _ _) => apply all_printable_take
  | |- all_printable (int_text _) => apply int_text_printable
  | |- all_printable (if ?b then _ else _) => destruct b
  | |- all_printable (match ?x with _ => _ end) => destruct x
  end; try assumption; try (vm_compute; reflexivity).

Lemma error_line_printable info pr gp : clean info -> all_printable (error_line info pr gp).
Proof.
  intros [_ [Ht _] [Hp _] Hc]. pose proof (all_printable_forall _ _ Ht printable_token) as H1.
  pose proof (all_printable_forall _ _ Hp printable_param) as H2.
  assert (all_printable (default [] (plan_code info))) as H3 by (destruct (plan_code info) as [c|] eqn:E; [by apply plan_codes_printable, Hc|done]).
  assert (all_printable (match token info with [] => [] | t => B", " ++ t end)) as H4 by (destruct (token info); [done|]; by apply all_printable_app).
  assert (forall st, all_printable st -> all_printable (plan_error_text info st)) as H5.
  { intros st Hst. unfold plan_error_text. destruct (plan info); prove_shown. }
  unfold error_line. set (cat := take 47 _). assert (all_printable cat) by (by apply all_printable_take).
  clearbody cat. destruct (negb (bool_decide (plan info = PLAN_NONE))); [apply H5; prove_shown|].
  repeat case_if; prove_shown.
Qed.

Lemma format_length info pr gp d cap : (1 <= cap)%nat -> (length (oa_error_format info pr gp d cap) <= cap - 1)%nat.
Proof.
  intros Hc. unfold oa_error_format. set (out := take (cap - 1) _). assert (length out <= cap - 1)%nat by (unfold out; rewrite length_take; lia).
  destruct d as [[|c d]|]; [done| |done]. destruct (length out <? cap)%nat; [|done]. rewrite length_app, length_take. lia.
Qed.

(** ** Lemmas: text cut between characters *)

Definition utf8_text (s : bytes) : Prop := exists cps, Forall scalar cps /\ s = concat (map utf8_encode cps).

Lemma utf8_text_app s t : utf8_text s -> utf8_text t -> utf8_text (s ++ t).
Proof. intros (c1 & H1 & ->) (c2 & H2 & ->). exists (c1 ++ c2). split; [by apply Forall_app|by rewrite map_app, concat_app]. Qed.

(** A character is ASCII, or a leading byte and bytes that continue it. *)
Lemma encode_shape cp : scalar cp ->
  (utf8_encode cp = [cp] /\ 1 <= cp < 0x80) \/
  exists c ds, utf8_encode cp = c :: ds /\ follows c = false /\ (Z.land c 0x80 =? 0) = false /\ Forall (fun d => follows d = true) ds.
Proof.
  intros [H1 H2]. assert (forall d, 0x80 <= d <= 0xbf -> follows d = true) as Hf.
  { intros d Hd. unfold follows. rewrite cont_byte by (unfold is_byte; lia). lia. }
  assert (forall c, 0xc0 <= c <= 0xff -> follows c = false /\ (Z.land c 0x80 =? 0) = false) as Hl.
  { intros c Hc. assert (negb (0xc0 <=? c) || (negb (follows c) && negb (Z.land c 0x80 =? 0)) = true) as E.
    { assert (is_byte c) as Hb by (unfold is_byte; lia). revert c Hb Hc. intros c Hb _. revert c Hb. Bits.by_all_bytes. }
    replace (0xc0 <=? c) with true in E by (symmetry; apply Z.leb_le; lia). cbn [negb orb] in E. by boolify. }
  unfold utf8_encode. destruct (Z.ltb_spec cp 0x80); [left; split; [done|lia]|]. right.
  repeat case_if; eexists _, _; (split; [reflexivity|]);
    repeat match goal with
    | |- _ /\ _ => split
    | |- follows _ = false => apply Hl; lia
    | |- (Z.land _ _ =? 0) = false => apply Hl; lia
    | |- Forall _ _ => repeat constructor; apply Hf; lia
    end.
Qed.

Lemma skip_follows_app r q : skip_follows r <> [] -> skip_follows (r ++ q) = skip_follows r ++ q.
Proof. induction r as [|c r IH]; cbn [skip_follows app]; [done|]. by destruct (follows c). Qed.

Lemma skip_follows_all r q : Forall (fun d => follows d = true) r -> skip_follows (r ++ q) = skip_follows q.
Proof. induction 1 as [|c r Hc _ IH]; [done|]. cbn [app skip_follows]. by rewrite Hc. Qed.

Lemma cut_app e c t : follows c = false -> cut_character (e ++ c :: t) = e ++ cut_character (c :: t).
Proof.
  intros Hc. unfold cut_character. rewrite rev_app_distr.
  assert (skip_follows (rev (c :: t)) <> []) as Hs.
  { cbn [rev]. destruct (decide (Forall (fun d => follows d = true) (rev t))) as [H|H].
    - rewrite skip_follows_all by done. cbn [skip_follows]. by rewrite Hc.
    - enough (skip_follows (rev t) <> []) by (rewrite skip_follows_app by done; by destruct (skip_follows (rev t))).
      intros E. apply H. revert E. generalize (rev t). induction l as [|d l IH]; [constructor|]. cbn [skip_follows].
      destruct (follows d) eqn:Ed; [|done]. intros E. constructor; auto. }
  rewrite skip_follows_app by done. destruct (skip_follows (rev (c :: t))) as [|d r]; [done|]. cbn [app].
  destruct (negb (Z.land d 0x80 =? 0)); [by rewrite rev_app_distr, rev_involutive|].
  change (d :: r ++ rev e) with ((d :: r) ++ rev e). by rewrite rev_app_distr, rev_involutive.
Qed.

Lemma cut_lead c ds : (Z.land c 0x80 =? 0) = false -> follows c = false -> Forall (fun d => follows d = true) ds -> cut_character (c :: ds) = [].
Proof.
  intros H1 H2 H. unfold cut_character. cbn [rev]. rewrite skip_follows_all by (by apply Forall_rev). cbn [skip_follows]. rewrite H2.
  by rewrite H1.
Qed.

Lemma cut_prefix s : exists r, s = cut_character s ++ r.
Proof.
  assert (forall l, exists q, l = q ++ skip_follows l) as H.
  { induction l as [|c l [q IH]]; [by exists []|]. cbn [skip_follows].
    destruct (follows c); [exists (c :: q); cbn; by rewrite <- IH|by exists []]. }
  destruct (H (rev s)) as [q Eq]. apply (f_equal (@rev Z)) in Eq. rewrite rev_involutive, rev_app_distr in Eq.
  enough (exists r, rev (skip_follows (rev s)) ++ rev q = cut_character s ++ r) as [r Er] by (exists r; by rewrite <- Er).
  unfold cut_character. clear Eq. destruct (skip_follows (rev s)) as [|c k]; [by exists (rev q)|].
  destruct (negb (Z.land c 0x80 =? 0)); [exists (c :: rev q); cbn [rev]; by rewrite <- app_assoc|by exists (rev q)].
Qed.

(** Whatever is left of a prefix of a text is a text. *)
Lemma cut_take_text cps n : Forall scalar cps -> utf8_text (cut_character (take n (concat (map utf8_encode cps)))).
Proof.
  intros H. revert n. induction H as [|cp cps Hcp Hcps IH]; intros n; cbn [map concat]; [rewrite take_nil; by exists []|].
  assert (utf8_text (utf8_encode cp)) as Hone by (exists [cp]; split; [by constructor|cbn [map concat]; by rewrite app_nil_r]).
  destruct (decide (n < length (utf8_encode cp))%nat) as [Hn|Hn].
  - rewrite take_app_le by lia. destruct (encode_shape cp Hcp) as [[E ?]|(c & ds & E & H1 & H2 & H3)]; rewrite E in *.
    + cbn [length] in Hn. replace n with 0%nat by lia. by exists [].
    + destruct n as [|n]; [by exists []|]. cbn [take]. rewrite cut_lead; [by exists []|done|done|]. by apply Forall_take.
  - rewrite take_app_ge by lia. specialize (IH (n - length (utf8_encode cp))%nat). remember (take (n - length (utf8_encode cp)) (concat (map utf8_encode cps))) as t eqn:Et.
    symmetry in Et. destruct t as [|c t].
    + rewrite app_nil_r. destruct (encode_shape cp Hcp) as [[E Hr]|(c & ds & E & H1 & H2 & H3)]; rewrite E in *.
      * unfold cut_character. cbn [rev app skip_follows]. unfold follows.
        assert ((Z.land cp 0xc0 =? 0x80) = false /\ (Z.land cp 0x80 =? 0) = true) as [-> ->]; [|exact Hone].
        assert (negb (cp <? 0x80) || (negb (Z.land cp 0xc0 =? 0x80) && (Z.land cp 0x80 =? 0)) = true) as Hb.
        { assert (is_byte cp) as Hb by (unfold is_byte; lia). clear -Hb. revert cp Hb. Bits.by_all_bytes. }
        replace (cp <? 0x80) with true in Hb by (symmetry; apply Z.ltb_lt; lia). cbn [negb orb] in Hb. by boolify.
      * rewrite cut_lead by done. by exists [].
    + rewrite cut_app; [by apply utf8_text_app|]. destruct cps as [|cp' cps]; [by cbn [map concat] in Et; rewrite take_nil in Et|]. cbn [map concat] in Et.
      apply Forall_cons_iff in Hcps as [Hcp' _]. destruct (encode_shape cp' Hcp') as [[E Hr]|(c' & ds & E & H1 & _)]; rewrite E in Et; cbn [app] in Et;
        (destruct (n - length (utf8_encode cp))%nat; cbn [take] in Et; [done|]); injection Et as <- _; [|done].
      unfold follows. assert (negb (cp' <? 0x80) || negb (Z.land cp' 0xc0 =? 0x80) = true) as Hb.
      { assert (is_byte cp') as Hb by (unfold is_byte; lia). clear -Hb. revert cp' Hb. Bits.by_all_bytes. }
      replace (cp' <? 0x80) with true in Hb by (symmetry; apply Z.ltb_lt; lia). cbn [negb orb] in Hb. by boolify.
Qed.

(** Blanking keeps characters characters. *)
Lemma blanked_text cps : Forall scalar cps ->
  exists cps', Forall scalar cps' /\ map blanked (concat (map utf8_encode cps)) = concat (map utf8_encode cps').
Proof.
  induction 1 as [|cp cps Hcp _ (cps' & H1 & IH)]; [by exists []|]. cbn [map concat]. rewrite map_app, IH.
  enough (exists cp', scalar cp' /\ map blanked (utf8_encode cp) = utf8_encode cp') as (cp' & Hs & ->) by (exists (cp' :: cps'); split; [by constructor|done]).
  assert (forall d, 0x80 <= d -> blanked d = d) as Hb.
  { intros d Hd. unfold blanked. destruct (Z.ltb_spec d 0x20); [lia|]. destruct (Z.eqb_spec d 0x7f); [lia|done]. }
  destruct Hcp as [H2 H3]. destruct (Z.ltb_spec cp 0x80) as [Hl|Hl].
  - exists (blanked cp). unfold blanked. unfold utf8_encode at 1. destruct (Z.ltb_spec cp 0x80); [|lia]. cbn [map]. unfold blanked.
    destruct ((cp <? 0x20) || (cp =? 0x7f)); (split; [unfold scalar; lia|]); [done|]. unfold utf8_encode. destruct (Z.ltb_spec cp 0x80); [done|lia].
  - exists cp. split; [done|]. unfold utf8_encode. destruct (Z.ltb_spec cp 0x80); [lia|]. repeat case_if; cbn [map]; rewrite !Hb by lia; done.
Qed.

(** ** Properties *)

(** C21: without the debug switch a failure is told without a word of the
    provider's: whatever its payload, the detail is empty, and the line fits its
    buffer, holds no control character, and takes from the payload at most a
    category of [a-z0-9_], a field path, a plan code of the table and a number of
    32 bits: another payload in which these are the same gives the same line. *)
Theorem diagnostic_is_clean (err : option jval) (http_status : Z) (plan_route grok_proxy : bool) (detail_cap cap : nat) (Hcap : (1 <= cap)%nat) :
  let tell err := let '(detail, info) := oa_error_classify err http_status false [] detail_cap in
                  (detail, info, oa_error_format info plan_route grok_proxy (Some detail) cap) in
  let '(detail, info, line) := tell err in
  detail = [] /\ clean info /\ (length line < cap)%nat /\ Forall (fun c => 0x20 <= c /\ c <> 0x7f) line /\
  (forall err', told err' = told err -> tell err' = tell err).
Proof.
  cbv zeta. pose proof (classify_clean err http_status false [] detail_cap) as Hc.
  assert (forall err', told err' = told err ->
    oa_error_classify err' http_status false [] detail_cap = oa_error_classify err http_status false [] detail_cap) as Ht
    by (intros err' E; by rewrite !classify_told, E).
  pose proof (classify_told err http_status detail_cap) as E.
  destruct (oa_error_classify err http_status false [] detail_cap) as [detail info] eqn:Ei. injection E as -> E. cbn [snd] in Hc.
  pose proof (format_length info plan_route grok_proxy (Some []) cap Hcap) as Hl.
  rewrite Ei. split_and!; [done|done|lia| |intros err' Et; by rewrite (Ht err' Et)]. cbn [oa_error_format].
  pose proof (all_printable_take (cap - 1) _ (error_line_printable info plan_route grok_proxy Hc)) as Hp.
  apply List.Forall_forall. intros c Hin. unfold all_printable in Hp. rewrite forallb_forall in Hp. specialize (Hp c Hin).
  unfold printable in Hp. boolify. lia.
Qed.

Definition demo_error : jval :=
  JObj [(B"type", JStr B"invalid_request_error"); (B"message", JStr B"key sk-secret was refused")].

Lemma diagnostic_is_clean_witness :
  let '(detail, info) := oa_error_classify (Some demo_error) 400 false [] 400 in
  oa_error_format info false false (Some detail) 512 = B"provider rejected the request (HTTP 400, invalid_request_error)" /\
  clean info.
Proof.
  pose proof (diagnostic_is_clean (Some demo_error) 400 false false 400 512 ltac:(lia)) as H. cbv zeta beta in H.
  destruct (oa_error_classify (Some demo_error) 400 false [] 400) as [detail info] eqn:E. destruct H as (_ & Hc & _).
  split; [|exact Hc]. injection E as <- <-. vm_compute. reflexivity.
Defined.

(** With the switch the provider's message is shown as text: the detail of a
    valid UTF-8 message is valid UTF-8 without control characters, fits its
    buffer, and is the whole message, blanked, whenever that fits. *)
Theorem error_detail_is_text (cap : nat) (cps : list Z) (Hcap : (1 <= cap)%nat) (Hs : Forall scalar cps) :
  let msg := concat (map utf8_encode cps) in
  let d := set_error_detail cap true (Some msg) in
  utf8_text d /\ (length d < cap)%nat /\ Forall (fun c => 0x20 <= c /\ c <> 0x7f) d /\
  ((length msg < cap)%nat -> d = map blanked msg).
Proof.
  intros msg. unfold set_error_detail. cbn [negb]. set (shown := map blanked (take (cap - 1) msg)).
  assert (length shown <= cap - 1)%nat as Hl by (unfold shown; rewrite length_map, length_take; lia).
  assert (Forall (fun c => 0x20 <= c /\ c <> 0x7f) shown) as Hp.
  { unfold shown. apply Forall_map, Forall_forall. intros c _. unfold blanked. destruct ((c <? 0x20) || (c =? 0x7f)) eqn:E; [lia|]. boolify. lia. }
  destruct (blanked_text cps Hs) as (cps' & Hs' & Em). fold msg in Em.
  assert (shown = take (cap - 1) (concat (map utf8_encode cps'))) as Et by (unfold shown; by rewrite <- Em, firstn_map).
  destruct (Nat.ltb_spec (cap - 1) (length msg)).
  - assert (exists r, shown = cut_character shown ++ r) as [r Er]. by apply cut_prefix.
    split_and!; [rewrite Et; by apply cut_take_text|apply (f_equal length) in Er; rewrite length_app in Er; lia| |lia].
    rewrite Er in Hp. by apply Forall_app in Hp as [Hp _].
  - assert (shown = map blanked msg) as E by (unfold shown; by rewrite take_ge by lia).
    split_and!; [exists cps'; split; [done|]; by rewrite E|lia|done|done].
Qed.

Lemma error_detail_is_text_witness :
  set_error_detail 4 true (Some (concat (map utf8_encode [0x61; 0xe9; 0x20ac]))) = concat (map utf8_encode [0x61]) /\
  utf8_text (set_error_detail 4 true (Some (concat (map utf8_encode [0x61; 0xe9; 0x20ac])))).
Proof.
  split; [vm_compute; reflexivity|]. apply (error_detail_is_text 4 [0x61; 0xe9; 0x20ac]); [lia|]. repeat constructor; unfold scalar; lia.
Defined.

(** Retry-After: seconds, no more than half a minute. *)
Lemma retry_after_bounds value : 0 <= oa_error_retry_after_ms value <= OA_RETRY_MAX_MS.
Proof.
  unfold oa_error_retry_after_ms, OA_RETRY_MAX_MS. destruct value as [v|]; [|lia]. cbn zeta.
  destruct (negb (is_digit (cur (skip_spaces v)))); [lia|]. change (30000 / 1000) with 30. case_if; lia.
Qed.
