(* ===== verification/Effects.v ===== *)
(** Programs with effects: a state monad, the weakest precondition of a program
    for a postcondition, a tactic that runs through a program symbolically, and
    updates of one field of a record. *)
From S2P Require Import Prelude.

Open Scope Z_scope.

(** ** Updating a field *)

(** The record rebuilt from its projections. *)
Class Eta (R : Type) := eta : R -> R.

(** A projection along which a record can be updated. *)
Class Field {R T : Type} (get : R -> T) := over : (T -> T) -> R -> R.
Arguments over {R T} get {Field} f r.

(** [over] for a projection: the rebuilt record, with the one member changed. *)
Ltac derive_field :=
  lazymatch goal with
  | |- @Field ?R ?T ?get =>
    let rebuilt := constr:(ltac:(typeclasses eauto) : Eta R) in
    let rebuilt := eval cbv beta in rebuilt in
    let rebuilt := lazymatch rebuilt with (?e : _) => e | ?e => e end in
    let body := eval red in rebuilt in
    let body := eval pattern get in body in
    lazymatch body with
    | ?g get =>
      let upd := eval cbv beta in (fun (f : T -> T) (r : R) => g (fun r' => f (get r')) r) in
      exact upd
    end
  end.
#[export] Hint Extern 0 (Field _) => derive_field : typeclass_instances.

Notation "r <| get := v |>" := (over get (fun _ => v) r) (at level 12, left associativity) : tny_scope.
Notation "r <| get ::= f |>" := (over get f r) (at level 12, left associativity) : tny_scope.

(** ** The monad *)

Definition M (S A : Type) : Type := S -> A * S.

#[export] Instance M_ret {S} : MRet (M S) := fun A a s => (a, s).
#[export] Instance M_bind {S} : MBind (M S) := fun A T f m s => let '(a, s) := m s in f a s.

Section operations.
Context {S : Type}.

Definition look {A} (f : S -> A) : M S A := fun s => (f s, s).
Definition change (f : S -> S) : M S unit := fun s => (tt, f s).
Definition when (b : bool) (m : M S unit) : M S unit := if b then m else mret tt.

(** The programs one after another. *)
Fixpoint each {A} (f : A -> M S unit) (l : list A) : M S unit :=
  match l with
  | [] => mret tt
  | a :: l => f a ;; each f l
  end.

(** ** Weakest preconditions *)

Definition wp {A} (m : M S A) (Q : A -> S -> Prop) (s : S) : Prop := Q (fst (m s)) (snd (m s)).

Lemma wp_ret {A} (a : A) Q s : Q a s -> wp (mret a) Q s.
Proof. done. Qed.

Lemma wp_bind {A T} (m : M S A) (f : A -> M S T) Q s : wp m (fun a => wp (f a) Q) s -> wp (m ≫= f) Q s.
Proof. unfold wp, mbind, M_bind. by destruct (m s). Qed.

Lemma wp_look {A} (f : S -> A) Q s : Q (f s) s -> wp (look f) Q s.
Proof. done. Qed.

Lemma wp_change (f : S -> S) Q s : Q tt (f s) -> wp (change f) Q s.
Proof. done. Qed.

Lemma wp_mono {A} (m : M S A) (Q Q' : A -> S -> Prop) s : wp m Q' s -> (forall a s, Q' a s -> Q a s) -> wp m Q s.
Proof. unfold wp. auto. Qed.

Lemma wp_each {A} (f : A -> M S unit) (I : S -> Prop) l s :
  (forall a s, I s -> wp (f a) (fun _ => I) s) -> I s -> wp (each f l) (fun _ => I) s.
Proof.
  intros H. revert s. induction l as [|a l IH]; intros s Hs; cbn [each]; [done|]. apply wp_bind.
  eapply wp_mono; [by apply H|]. cbn. intros _ s' Hs'. by apply IH.
Qed.

Lemma wp_run {A} (m : M S A) Q s : wp m Q s -> let '(a, s') := m s in Q a s'.
Proof. unfold wp. by destruct (m s). Qed.

End operations.
