(* ===== verification/Turn.v ===== *)
(** The turn of the native backend (src/src/backends/openai/openai.c): its
    state, what it asks of the outside, and its operations, from the prompt over
    requests, streams, tools, retries and interruptions to the end. *)
From S2P Require Import Prelude Decimal Effects Http Json JsonText JsonValue Text Perm Sse ToolCalls StreamDecode Errors Transcript WorkingView ExecControl.

Open Scope Z_scope.

(** ** Data *)

Inductive oa_state := ST_IDLE | ST_HEADERS | ST_BODY | ST_WAIT_PERMISSION | ST_WAIT_CUSTOM | ST_CHECKPOINT | ST_RETRY_WAIT.

#[export] Instance oa_state_eq : EqDecision oa_state.
Proof. solve_decision. Defined.

Definition OA_MAX_RETRIES : Z := 3.
Definition OA_RETRY_BASE_MS : Z := 1000.
Definition OA_STALL_SECS : Z := 300.
Definition OA_STALL_SECS_MAX : Z := 3600.
Definition OA_ERROR_BODY_WAIT_MS : Z := 1500.
Definition OA_ERROR_BODY_MAX : Z := 65536.
Definition OA_RAW_BODY_MAX : Z := 1048576.

Inductive tny_event_error_kind := ERROR_IO | ERROR_PROTOCOL | ERROR_AUTH | ERROR_INTERNAL | ERROR_OOM.

(** The events this backend emits. *)
Inductive tny_backend_event :=
  | EV_TEXT_DELTA (t : bytes)
  | EV_THINKING (t : bytes)
  | EV_TOOL_START (tool cid detail : bytes) (reason : option bytes)
  | EV_TOOL_END (tool cid detail : bytes) (ok : bool)
  | EV_PERMISSION (pid : bytes) (summary : option bytes)
  | EV_USAGE (input output used : Z)
  | EV_TURN_END (stop : tny_stop_reason)
  | EV_ERROR (kind : tny_event_error_kind) (t : bytes)
  | EV_STATUS (t : bytes)
  | EV_STEER_REJECTED (t : bytes).

Inductive tny_perm_decision := DECISION_ALLOW | DECISION_ALLOW_ALWAYS | DECISION_DENY.

#[export] Instance perm_decision_eq : EqDecision tny_perm_decision.
Proof. solve_decision. Defined.

(** A prepared call (src/src/core/tools.h), as far as the turn looks at it. *)
Record tools_call := mk_tools_call {
  c_name : bytes; c_args : option jval; c_verdict : perm_verdict; c_summary : option bytes; c_error : option bytes;
  c_label : option bytes }.

Record oa_pending := mk_pending {
  p_id : bytes; p_call : tools_call; p_decision : tny_perm_decision; p_original : bytes; p_effective : bytes;
  p_extension : option bytes; p_reason : option bytes }.

Record tny_openai_usage := mk_turn_usage {
  u_input : Z; u_output : Z; u_cached : Z; u_cache_write : Z; u_requests : Z; u_read_requests : Z; u_write_requests : Z }.

Definition no_usage : tny_openai_usage := mk_turn_usage 0 0 0 0 0 0 0.

(** The backend with the storage of its turn and what it uses of [tools_env]:
    whether a permission was refused, and for every captured image whether it is
    a preview. What it learns (core/learning.c) does not influence a turn and is
    left out. *)
Record oa_impl := mk_impl {
  conn : bool; sse : sse_parser; state : oa_state; calls : oa_callset; decoder : oa_decoder; decode_oom : bool;
  parser_active : bool; thinking_seen : bool; step : Z; cancelled : bool; turn_open : bool; retries : Z; retry_at_ms : Z;
  body_sniffed : bool; body_is_sse : bool; rawbody_overflow : bool; error_status : Z; error_deadline_ms : Z;
  error_detail : bytes; body_yielded : bool; conn_reused : bool; wire_chat : bool; stream_done : bool;
  stream_failed : bool; stream_error : oa_error_info; max_retries : Z; stall_ms : Z; last_byte_ms : Z; continuing : bool;
  repairs_noted : bool; final_stop : tny_stop_reason; finish_reason : bytes; usage_in : Z; usage_out : Z; usage_cached : Z;
  usage_cache_write : Z; usage_seen : bool; usage_recorded : bool; usage : tny_openai_usage; turn_state : bytes;
  provider_request_sequence : Z; provider_attempt : Z; tool_index : nat; tool_batch_failed : Z; tool_batch_active : bool;
  background_armed : bool; background_boundary : bool; unsent_preview : option nat;
  text : bytes; rawbody : bytes; toolcall_log : bytes; steer : option bytes; permission : option oa_pending;
  custom : option oa_pending; perm_blocked : bool; images : list bool }.

#[export] Instance eta_impl : Eta oa_impl := fun o =>
  mk_impl (conn o) (sse o) (state o) (calls o) (decoder o) (decode_oom o) (parser_active o) (thinking_seen o) (step o)
    (cancelled o) (turn_open o) (retries o) (retry_at_ms o) (body_sniffed o) (body_is_sse o) (rawbody_overflow o)
    (error_status o) (error_deadline_ms o) (error_detail o) (body_yielded o) (conn_reused o) (wire_chat o) (stream_done o)
    (stream_failed o) (stream_error o) (max_retries o) (stall_ms o) (last_byte_ms o) (continuing o) (repairs_noted o)
    (final_stop o) (finish_reason o) (usage_in o) (usage_out o) (usage_cached o) (usage_cache_write o) (usage_seen o)
    (usage_recorded o) (usage o) (turn_state o) (provider_request_sequence o) (provider_attempt o) (tool_index o)
    (tool_batch_failed o) (tool_batch_active o) (background_armed o) (background_boundary o) (unsent_preview o) (text o)
    (rawbody o) (toolcall_log o) (steer o) (permission o) (custom o) (perm_blocked o) (images o).

(** ** The outside *)

(** What a tool gave: its result, or that it goes on by itself; what the
    extensions answered to its nested calls; whether the turn was cancelled or a
    permission refused meanwhile; the images it captured. *)
Record execution := mk_execution {
  x_result : option bytes; x_pending : bool; x_controls : list (tny_openai_control_request * tny_openai_control_response);
  x_cancelled : bool; x_blocked : bool; x_images : list bool }.

Inductive body_read := READ (piece : bytes) | READ_END | READ_ERROR | READ_AGAIN.
Inductive async_result := ASYNC_WAIT | ASYNC_LOST | ASYNC_DONE (result : bytes) (is_error : bool).

Section outside.
Context {W : Type}.

(** Every answer may depend on all that was asked before, through [W]. *)
Record host := mk_host {
  h_memory : W -> bool * W;                                   (* whether an allocation has failed *)
  h_clock : W -> Z * W;
  h_event : tny_backend_event -> W -> W;
  h_control : option (tny_openai_control_request -> W -> tny_openai_control_response * W);
  h_save : document -> W -> bool * W;
  h_deliver : W -> (option bytes * list bytes) * W;           (* swarm and team messages: an error, texts for the transcript *)
  h_signin : W -> bool * W;
  h_tier_error : W -> option bytes * W;
  h_open : W -> (Z * bytes) * W;
  h_wire_chat : W -> bool * W;
  h_grow : W -> (nat -> bool) * W;
  h_request : bool -> list jval -> W -> bool * W;             (* the request is built and prepared *)
  h_send : W -> Z * W;
  h_status : W -> Z * W;
  h_header : bytes -> W -> option bytes * W;
  h_read : W -> body_read * W;
  h_decode : W -> option oa_callset * W;                      (* an allocation of the decoder failed *)
  h_prepare : bytes -> bytes -> W -> (bool * tools_call) * W;
  h_execute : tools_call -> W -> execution * W;
  h_take : oa_pending -> W -> async_result * W;
  h_bound : bytes -> W -> option bytes * W;
  h_grant : tools_call -> W -> W;
  h_prompt : option (tools_call -> W -> tny_perm_decision * W);
  h_flush : list bool -> W -> (option jval * bytes) * W;      (* the message with the captured images, or an error *)
  h_user_images : bytes -> list bytes -> W -> (option jval * bytes) * W;
  h_recovery : option bytes -> W -> W;
  h_lost : W -> bool * W }.                                   (* it was the text of the batch that got no memory *)

End outside.
Arguments host : clear implicits.

(** What can be seen of a turn: what it emits, and what it asks the outside. *)
Inductive item :=
  | Emitted (e : tny_backend_event)
  | Asked (r : tny_openai_control_request) (a : tny_openai_control_response)
  | Refused                                                   (* an allocation was seen to have failed *)
  | Saved (ok : bool)
  | Requested (messages : list jval)                          (* what a request says of the conversation *)
  | Sent (rc : Z)
  | PreparedCall (tool effective : bytes) (c : option tools_call)
  | Executed (c : tools_call)
  | Prompted (c : tools_call) (d : tny_perm_decision)
  | Granted (c : tools_call)
  | Decided (pid : bytes) (d : tny_perm_decision)             (* the user answers a permission event *)
  | Begun (prompt : bytes)
  | Interrupted
  | Settling.                                                 (* the runtime settles the turn after a failed allocation *)

(** The settings a turn depends on. *)
Record settings := mk_settings {
  max_steps : Z; all_tools : bool; debug_errors : bool; plan_route : bool; grok_proxy : bool;
  affinity : bool (* the route takes x-codex-turn-state *); model : bytes; sid : bytes; agent_sequence : Z }.

Record machine (W : Type) := mk_machine { imp : oa_impl; doc : document; oom : bool; world : W; trace : list item }.
Arguments mk_machine {W}.
Arguments imp {W}.
Arguments doc {W}.
Arguments oom {W}.
Arguments world {W}.
Arguments trace {W}.
#[export] Instance eta_machine {W} : Eta (machine W) := fun m => mk_machine (imp m) (doc m) (oom m) (world m) (trace m).

Section turn.
Context {W : Type} (H : host W) (cfg : settings) (jparse : bytes -> option jval) (jwrite : jval -> option bytes).

Abbreviation Turn := (M (machine W)).

Definition note (i : item) : Turn unit := change (fun m => m <| trace ::= cons i |>).
Definition ask {A} (f : W -> A * W) : Turn A := fun m => let '(a, w) := f (world m) in (a, m <| world := w |>).
Definition tell (f : W -> W) : Turn unit := change (fun m => m <| world ::= f |>).
Definition field {A} (f : oa_impl -> A) : Turn A := look (fun m => f (imp m)).
Definition put (f : oa_impl -> oa_impl) : Turn unit := change (fun m => m <| imp ::= f |>).
Definition edit (f : document -> document) : Turn unit := change (fun m => m <| doc ::= f |>).

(** [tny_alloc_scope_failed]: once seen, for the rest of the entry. *)
Definition alloc_failed : Turn bool :=
  seen ← look oom;
  if seen : bool then note Refused ;; mret true
  else
    failed ← ask (h_memory H);
    if failed : bool then change (fun m => m <| oom := true |>) ;; note Refused ;; mret true else mret false.

(** Marking the provider's failure has no effect on the turn. *)
Definition provider_oom : Turn bool := alloc_failed.

(** [k] unless an allocation has failed. *)
Definition unless_oom (k : Turn unit) : Turn unit := failed ← provider_oom; if failed : bool then mret tt else k.

Definition emit (e : tny_backend_event) : Turn unit := tell (h_event H e) ;; note (Emitted e).
Definition emit_error (kind : tny_event_error_kind) (t : bytes) : Turn unit := emit (EV_ERROR kind t).

Definition save : Turn bool :=
  d ← look doc;
  ok ← ask (h_save H d);
  note (Saved ok) ;; mret ok.

(** ** Controls *)

Definition no_response : tny_openai_control_response := mk_response None None None None false false false false PERMISSION_ABSTAIN.

Definition blank (k : tny_openai_control_kind) : tny_openai_control_request :=
  mk_request k None None None None None false None None None 0 None 0 None None 0 false false None 0 None 0 None None None false.

Definition control_call (r : tny_openai_control_request) : Turn tny_openai_control_response :=
  match h_control H with
  | None => mret no_response
  | Some f =>
    failed ← alloc_failed;
    if failed : bool then mret no_response
    else a ← ask (f r); note (Asked r a) ;; mret a
  end.

(** A member of a JSON object. *)
Definition json_member (key value : bytes) : bytes := quote key ++ C":" :: value.

Definition log_entry (name : bytes) (original_ok effective_ok transformed : bool) : bytes :=
  let word (ok : bool) := quote (if ok then B"success" else B"error") in
  C"{" :: json_member B"name" (literal name) ++ C"," :: json_member B"status" (word effective_ok) ++
  (if negb transformed && Bool.eqb original_ok effective_ok then []
   else C"," :: json_member B"original_status" (word original_ok) ++ C"," ::
        json_member B"result_transformed" (if transformed then B"true" else B"false")) ++ [C"}"].

Definition log_toolcall (name : bytes) (original_ok effective_ok transformed : bool) : Turn unit :=
  put (fun o => o <| toolcall_log ::= fun log =>
    log ++ (if (1 <? length log)%nat then [C","] else []) ++ log_entry name original_ok effective_ok transformed |>).

Definition differs (a b : option bytes) : bool := negb (str_eq (default B"{}" a) (default B"{}" b)).

(** What the extensions answered to a nested call. *)
Definition execution_control (r : tny_openai_control_request) (a : tny_openai_control_response) : Turn unit :=
  match kind r, tool_name r with
  | POST_TOOL, Some name =>
    let ok := if r_result_replaced a then negb (r_result_is_error a) else original_ok r in
    log_toolcall name (original_ok r) ok (r_result_replaced a || differs (arguments_json r) (original_arguments_json r))
  | _, _ => mret tt
  end ;;
  when (r_stop a) (put (fun o => o <| cancelled := true |>)).

Definition take_steer : Turn bool :=
  s ← field steer;
  match s with
  | None => mret false
  | Some t =>
    failed ← alloc_failed;
    if failed : bool then mret false
    else edit (fun d => session_add_text d B"user" (Some t)) ;; put (fun o => o <| steer := None |>) ;; mret true
  end.

(** ** The end of a turn *)

Definition count_usage (o : oa_impl) : oa_impl :=
  let u := usage o in
  let read := 0 <=? usage_cached o in
  let write := 0 <=? usage_cache_write o in
  o <| usage_recorded := true |>
    <| usage := mk_turn_usage (u_input u + usage_in o) (u_output u + usage_out o)
         (if read then u_cached u + usage_cached o else u_cached u)
         (if write then u_cache_write u + usage_cache_write o else u_cache_write u) (u_requests u + 1)
         (if read then u_read_requests u + 1 else u_read_requests u)
         (if write then u_write_requests u + 1 else u_write_requests u) |>.

Definition record_usage : Turn unit :=
  pending ← field (fun o => usage_seen o && negb (usage_recorded o));
  when pending (unless_oom (
    put count_usage ;;
    counts ← field (fun o => (usage_in o, usage_out o, usage_cached o, usage_cache_write o));
    let '(input, output, cached, write) := counts in
    edit (fun d => session_add_usage_details d input output cached write))).

(** The message with this index goes. *)
Definition remove_message (k : nat) (root : document) : document :=
  obj_update B"messages" (fun v => match v with JArr vs => JArr (delete k vs) | _ => v end) root.

Definition have_preview (o : oa_impl) : bool := existsb (fun preview => preview) (images o).

Definition preview_not_delivered (reason : bytes) : Turn unit :=
  unless_oom (
    o ← look imp;
    when (bool_decide (is_Some (unsent_preview o)) || have_preview o) (
      failed ← match unsent_preview o with
               | Some k =>
                 edit (remove_message k) ;; put (fun o => o <| unsent_preview := None |>) ;;
                 ok ← save;
                 if ok : bool then mret false
                 else
                   failed ← provider_oom;
                   if failed : bool then mret true
                   else emit_error ERROR_IO B"could not persist unsent preview removal" ;; mret false
               | None => mret false
               end;
      when (negb failed) (
        emit_error ERROR_INTERNAL (take 319 (B"IMAGE_PREVIEW_NOT_DELIVERED: " ++
          match reason with [] => B"the turn ended before the next request" | _ => reason end)) ;;
        put (fun o => o <| images := [] |>)))).

Definition free_response (o : oa_impl) : oa_impl :=
  o <| decoder := oa_decoder_reset |> <| calls := oa_calls_reset |> <| sse := sse_parser_init |> <| rawbody := [] |>.

(** Usage is shown and kept; false: an allocation failed. *)
Definition settle_usage : Turn bool :=
  u ← field usage;
  if u_requests u =? 0 then mret true
  else
    used ← field usage_in;
    emit (EV_USAGE (u_input u) (u_output u) used) ;;
    failed ← provider_oom;
    if failed : bool then mret false
    else _ ← save; failed ← provider_oom; mret (negb failed).

Definition emit_turn_end (stop : tny_stop_reason) : Turn unit :=
  unless_oom (
    open ← field turn_open;
    when open (
      put (fun o => o <| turn_open := false |> <| state := ST_IDLE |>) ;;
      preview_not_delivered B"the turn ended before the next request was sent" ;;
      unless_oom (
        record_usage ;;
        unless_oom (
          settled ← settle_usage;
          when settled (
            put (fun o => o <| turn_state := [] |> <| permission := None |> <| tool_batch_active := false |>) ;;
            parked ← field steer;
            match parked with
            | Some t => emit (EV_STEER_REJECTED t) ;; put (fun o => o <| steer := None |>)
            | None => mret tt
            end ;;
            put free_response ;;
            emit (EV_TURN_END stop)))))).

Definition conn_drop : Turn unit := put (fun o => o <| conn := false |>).

Definition reasoning_reset (o : oa_impl) : oa_impl :=
  o <| decoder := oa_decoder_reset |> <| thinking_seen := false |> <| decode_oom := false |>.

(** What the decoder kept for the next request. *)
Definition reasoning_extras_json : Turn (option bytes) := fun m =>
  let '(d, out, rc) := oa_decoder_extras jwrite (decoder (imp m)) in
  (out, m <| imp ::= fun o => let o := o <| decoder := d |> in if rc =? TNY_PARSE_OK then o else o <| decode_oom := true |> |>).

(** ** Completion and continuation *)

Definition oa_stream_complete (done chat : bool) (reason : option bytes) : bool :=
  done || chat && match reason with Some (_ :: _) => true | _ => false end.

(** [strtol] of the value. *)
Definition oa_stall_secs (value : option bytes) (strtol : bytes -> Z) : Z :=
  match value with
  | None | Some [] => OA_STALL_SECS
  | Some v => if strtol v <? 1 then 0 else if OA_STALL_SECS_MAX <? strtol v then OA_STALL_SECS_MAX else strtol v
  end.

Definition oa_continue_prompt : bytes :=
  B"The connection dropped while you were writing your previous message. The user has already seen it exactly as written above, ending mid-way. Continue from precisely where it stopped: do not repeat or rephrase anything already written, do not apologise, and do not mention the interruption.".

Definition oa_view_append_continuation (view : list jval) (partial : bytes) : list jval :=
  match c_str partial with
  | [] => view
  | t => view ++ [JObj [(B"role", JStr B"assistant"); (B"content", JStr t)];
                  JObj [(B"role", JStr B"user"); (B"content", JStr oa_continue_prompt)]]
  end.

(** ** Failures of the provider *)

Definition classify_error (err : option jval) (http_status : Z) : Turn oa_error_info :=
  old ← field error_detail;
  let '(detail, info) := oa_error_classify err http_status (debug_errors cfg) old 400 in
  put (fun o => o <| error_detail := detail |>) ;; mret info.

Definition error_text (info : oa_error_info) (final : bool) : Turn bytes :=
  detail ← field error_detail;
  mret (oa_error_format info (plan_route cfg) (grok_proxy cfg) (if final then Some detail else None) 512).

Definition backoff_ms (retries hint : Z) : Z := Z.min (Z.max (Z.shiftl OA_RETRY_BASE_MS retries) hint) OA_RETRY_MAX_MS.

(** What of an attempt is given up; text that was shown stays. *)
Definition drop_attempt (cont : bool) (o : oa_impl) : oa_impl :=
  reasoning_reset (o <| retries ::= fun r => r + 1 |> <| conn := false |> <| calls := oa_calls_reset |>
    <| text ::= fun t => if cont then t else [] |> <| continuing := cont |> <| rawbody := [] |>)
  <| sse := sse_parser_init |>.

Definition retry_note (what : bytes) (cont : bool) (backoff retries max : Z) : bytes :=
  take 255 (what ++ B": " ++ (if cont then B"continuing the answer" else B"retrying") ++ B" in " ++ int_text (backoff / 1000) ++
    C"." :: int_text (backoff mod 1000 / 100) ++ B"s (attempt " ++ int_text (retries + 1) ++ C"/" :: int_text (max + 1) ++ [C")"]).

Definition schedule_retry (what : bytes) (hint : Z) : Turn bool :=
  failed ← provider_oom;
  spent ← field (fun o => cancelled o || (max_retries o <=? retries o));
  if failed || spent then mret false
  else
    cont ← field (fun o => negb (length (text o) =? 0)%nat);
    record_usage ;;
    backoff ← field (fun o => backoff_ms (retries o) hint);
    put (drop_attempt cont) ;;
    o ← look imp;
    emit (EV_STATUS (retry_note what cont backoff (retries o) (max_retries o))) ;;
    put (fun o => o <| state := ST_RETRY_WAIT |>) ;;
    now ← ask (h_clock H);
    put (fun o => o <| retry_at_ms := now + backoff |>) ;; mret true.

(** An error that ends the turn. *)
Definition fail_turn (kind : tny_event_error_kind) (msg : bytes) : Turn Z :=
  emit_error kind msg ;; emit_turn_end STOP_ERROR ;; mret (-1).

(** The error in an error body, with or without a wrapper. *)
Definition body_error (root : option jval) : option jval :=
  match jget root B"error" with
  | Some e => Some e
  | None =>
    match root with
    | Some (JObj _) =>
      if bool_decide (is_Some (jget root B"message")) || bool_decide (is_Some (jget root B"type")) then root
      else match jget root B"detail" with Some (JStr s) => Some (JStr s) | _ => None end
    | _ => None
    end
  end.

Definition finish_error_response : Turn Z :=
  status ← field error_status;
  put (fun o => o <| error_status := 0 |>) ;;
  header ← ask (h_header H B"Retry-After");
  conn_drop ;;
  body ← field rawbody;
  failed ← provider_oom;
  if failed : bool then mret (-1)
  else
    let root := match body with [] => None | _ => jparse body end in
    info ← classify_error (body_error root) status;
    put (fun o => o <| rawbody := [] |>) ;;
    if (status =? 401) || (status =? 403) then msg ← error_text info true; fail_turn ERROR_AUTH msg
    else
      msg ← error_text info false;
      again ← (if retryable info then schedule_retry msg (oa_error_retry_after_ms header) else mret false);
      if again : bool then mret 0 else msg ← error_text info true; fail_turn ERROR_PROTOCOL msg.

(** The text that was shown is kept for recovery. *)
Definition recovery_write : Turn unit :=
  t ← field text;
  match t with [] => mret tt | _ => tell (h_recovery H (Some t)) end.

Definition fail_stream : Turn Z :=
  conn_drop ;;
  info ← field stream_error;
  msg ← error_text info false;
  again ← (if retryable info then schedule_retry msg 0 else mret false);
  if again : bool then mret 0 else msg ← error_text info true; recovery_write ;; fail_turn ERROR_PROTOCOL msg.

Definition stream_interrupted (what : bytes) : Turn Z :=
  conn_drop ;;
  again ← schedule_retry what 0;
  if again : bool then mret 0 else recovery_write ;; fail_turn ERROR_IO what.

Definition stream_stalled : Turn bool :=
  o ← look imp;
  if stall_ms o <=? 0 then mret false else now ← ask (h_clock H); mret (stall_ms o <=? now - last_byte_ms o).

Definition stalled_text (before after : bytes) : Turn bytes :=
  ms ← field stall_ms; mret (take 95 (before ++ int_text (ms / 1000) ++ after)).

(** ** Requests *)

Definition note_repairs (repairs : nat) : Turn unit :=
  noted ← field repairs_noted;
  when (negb (repairs =? 0)%nat && negb noted) (
    put (fun o => o <| repairs_noted := true |>) ;;
    emit (EV_STATUS (take 159 (B"repaired the transcript for the provider: " ++ dec (Z.of_nat repairs) ++
      B" unpaired tool call(s) or empty message(s)")))).

(** The conversation as the request gives it, in both protocols; the request is
    built around it outside. False: there was no memory for it. *)
Definition build_request : Turn bool :=
  d ← look doc;
  let '(view, repairs) := session_working_view jwrite (fun _ => true) (all_tools cfg) (session_messages d)
                            (session_compact_boundary d) TNY_WORKING_CONTEXT_BYTES in
  match view with
  | None => mret false
  | Some view =>
    note_repairs repairs ;;
    failed ← provider_oom;
    if failed : bool then mret false
    else
      o ← look imp;
      let view := if continuing o then oa_view_append_continuation view (text o) else view in
      note (Requested view) ;;
      ask (h_request H (wire_chat o) view)
  end.

Definition request_id (o : oa_impl) : bytes :=
  take 191 (sid cfg ++ C":" :: dec (agent_sequence cfg) ++ B":request:" ++ dec (provider_request_sequence o)).

Definition provider_request (k : tny_openai_control_kind) (http_status : Z) (o : oa_impl) : tny_openai_control_request :=
  mk_request k None None None None None false None None None 0 None 0 (Some B"POST")
    (Some (if wire_chat o then B"/chat/completions" else B"/responses")) http_status true (conn_reused o)
    (Some (if wire_chat o then B"chat" else B"responses")) (step o) (Some (request_id o)) (provider_attempt o) None None None false.

Definition provider_control (k : tny_openai_control_kind) (http_status : Z) : Turn tny_openai_control_response :=
  o ← look imp; control_call (provider_request k http_status o).

(** An answer to a response: false, an allocation failed. *)
Definition stop_on (a : tny_openai_control_response) : Turn unit := when (r_stop a) (put (fun o => o <| cancelled := true |>)).

Definition open_connection : Turn (Z * bytes) :=
  '(rc, err) ← ask (h_open H);
  put (fun o => o <| conn := (rc =? 0) |>) ;; mret (rc, err).

Definition send_request : Turn Z := rc ← ask (h_send H); note (Sent rc) ;; mret rc.

Definition request_oom : Turn (Z * bytes) := mret (-2, B"out of memory").
Definition interrupted : Turn (Z * bytes) := emit_turn_end STOP_INTERRUPTED ;; mret (0, []).

(** A response begins. *)
Definition begin_response (now : Z) (o : oa_impl) : oa_impl :=
  reasoning_reset (o <| unsent_preview := None |> <| state := ST_HEADERS |> <| last_byte_ms := now |> <| stream_done := false |>
    <| stream_failed := false |> <| stream_error := no_error |> <| error_detail := [] |> <| body_sniffed := false |>
    <| body_is_sse := true |> <| rawbody_overflow := false |> <| error_status := 0 |> <| final_stop := STOP_DONE |>
    <| finish_reason := [] |> <| usage_in := 0 |> <| usage_out := 0 |> <| usage_cached := -1 |> <| usage_cache_write := -1 |>
    <| usage_seen := false |> <| usage_recorded := false |> <| text ::= fun t => if continuing o then t else [] |>
    <| rawbody := [] |>)
  <| sse := sse_parser_init |>.

(** A request that could not be written goes out once more on a fresh
    connection; [None]: there is nothing more to do. *)
Definition send_again : Turn (Z + (Z * bytes)) :=
  a ← provider_control PROVIDER_RESPONSE 0;
  stop_on a ;;
  failed ← provider_oom;
  if failed : bool then r ← request_oom; mret (inr r)
  else
    stopped ← field cancelled;
    if stopped : bool then r ← interrupted; mret (inr r)
    else
      '(rc, _) ← open_connection;
      if rc =? -2 then r ← request_oom; mret (inr r)
      else
        put (fun o => o <| conn_reused := false |>) ;;
        if negb (rc =? 0) then mret (inl (-1))
        else
          put (fun o => o <| provider_attempt ::= fun a => a + 1 |>) ;;
          a ← provider_control PROVIDER_REQUEST 0;
          failed ← provider_oom;
          if failed : bool then r ← request_oom; mret (inr r)
          else
            stopped ← field cancelled;
            if r_stop a || stopped then put (fun o => o <| cancelled := true |>) ;; mret (inl (-1))
            else
              rc ← send_request;
              failed ← alloc_failed;
              if failed : bool then r ← request_oom; mret (inr r)
              else if rc =? 0 then mret (inl 0)
              else a ← provider_control PROVIDER_RESPONSE 0; stop_on a ;; mret (inl rc).

Definition finish_send (rc : Z) : Turn (Z * bytes) :=
  failed ← alloc_failed;
  if failed : bool then request_oom
  else
    stopped ← field cancelled;
    if stopped : bool then interrupted
    else if negb (rc =? 0) then
      when (rc =? -2) (emit_error ERROR_INTERNAL B"provider request failed" ;; emit_turn_end STOP_ERROR) ;;
      mret (rc, B"provider request failed")
    else now ← ask (h_clock H); put (begin_response now) ;; mret (0, []).

Definition submit : Turn (Z * bytes) :=
  chat ← ask (h_wire_chat H);
  put (fun o => o <| wire_chat := chat |>) ;;
  built ← build_request;
  if negb built then request_oom
  else
    a ← provider_control PROVIDER_REQUEST 0;
    failed ← alloc_failed;
    if failed : bool then request_oom
    else
      stopped ← field cancelled;
      if r_stop a || stopped then put (fun o => o <| cancelled := true |>) ;; interrupted
      else
        rc ← send_request;
        failed ← alloc_failed;
        if failed : bool then request_oom
        else
          stopped ← field cancelled;
          if (rc =? -1) && negb stopped then
            r ← send_again;
            match r with inl rc => finish_send rc | inr r => mret r end
          else finish_send rc.

Definition connect_text (err : bytes) : bytes :=
  if str_starts err B"TLS " || str_starts err B"https not built" then err else B"could not connect to provider".

(** The text in [errbuf] is read when the code is -1. *)
Definition start_post_mode (retry : bool) : Turn (Z * bytes) :=
  stopped ← field cancelled;
  if stopped : bool then interrupted
  else
    failed ← alloc_failed;
    if failed : bool then mret (-2, [])
    else
      ended ← ask (h_signin H);
      if ended : bool then
        emit_error ERROR_AUTH
          B"the ChatGPT sign-in ended (signed out, expired, or plan use withdrawn): run `tny --provider openai login`" ;;
        emit_turn_end STOP_ERROR ;; mret (0, [])
      else
        tier ← ask (h_tier_error H);
        match tier with
        | Some err => mret (-1, err)
        | None =>
          put (fun o => if retry then o <| provider_attempt ::= fun a => a + 1 |>
                        else o <| provider_request_sequence ::= fun k => k + 1 |> <| provider_attempt := 1 |> <| retries := 0 |>
                               <| continuing := false |>) ;;
          put (fun o => o <| conn_reused := conn o |>) ;;
          have ← field conn;
          if have : bool then submit
          else
            '(rc, err) ← open_connection;
            if rc =? 0 then submit
            else failed ← alloc_failed; if failed : bool then mret (-2, connect_text err) else mret (-1, connect_text err)
        end.

Definition start_post : Turn (Z * bytes) :=
  '(err, texts) ← ask (h_deliver H);
  each (fun t => edit (fun d => session_add_text d B"user" (Some t))) texts ;;
  match err with
  | Some err => mret (-1, err)
  | None => start_post_mode false
  end.

(** ** Interruption *)

Definition tool_err (t : bytes) : bytes := B"error: " ++ take 1023 t.

Definition emit_tool_end (cid name result : bytes) (ok : bool) : Turn unit := emit (EV_TOOL_END name cid result ok).

Definition post_tool (cid name : bytes) (original_args effective_args : bytes) (extension reason : option bytes) (result : bytes)
    (ok : bool) : tny_openai_control_request :=
  mk_request POST_TOOL (Some cid) (Some name) (Some effective_args) (Some original_args) (Some result) ok extension reason None 0
    None 0 None None 0 false false None 0 None 0 None None None false.

Definition complete_tool (cid name original_args effective_args : bytes) (extension reason : option bytes) (result : bytes) : Turn unit :=
  unless_oom (
    let ok := negb (str_starts result B"error:") in
    emit_tool_end cid name result ok ;;
    unless_oom (
      a ← control_call (post_tool cid name original_args effective_args extension reason result ok);
      unless_oom (
        let effective_ok := if r_result_replaced a then negb (r_result_is_error a) else ok in
        log_toolcall name ok effective_ok (r_result_replaced a || negb (str_eq original_args effective_args)) ;;
        when (negb effective_ok) (put (fun o => o <| tool_batch_failed ::= fun n => n + 1 |>)) ;;
        unless_oom (edit (fun d => session_add_tool_result d cid (if r_result_replaced a then r_result a else Some result))) ;;
        o ← look imp;
        when (background_armed o && negb (cancelled o)) (put (fun o => o <| background_boundary := true |>))))).

(** Learning is left out, so a rejected call is one that is completed. *)
Definition complete_rejected_tool (cid name original_args effective_args : bytes) (extension reason : option bytes) (result : bytes) : Turn unit :=
  complete_tool cid name original_args effective_args extension reason result.

Definition finish_cancelled_call (cid name args : bytes) : Turn unit :=
  complete_rejected_tool cid name args args None (Some B"cancelled") (tool_err (B"interrupted before " ++ name ++ B" ran")).

(** The calls of the batch as [oa_impl] sees them. *)
Definition batch (o : oa_impl) : list oa_call := take (n (calls o)) (ToolCalls.calls (calls o)).

Definition call_id (k : nat) (c : oa_call) : bytes := oa_call_id c k 16.
Definition call_name (c : oa_call) : bytes := default B"unknown" (v_name c).
Definition call_args (c : oa_call) : bytes := default B"{}" (v_data c).

Definition comma_list (ts : list bytes) : bytes :=
  C"[" :: match ts with [] => [] | t :: ts => t ++ concat (map (fun t => C"," :: t) ts) end ++ [C"]"].

Definition tool_batch_control : Turn bool :=
  failed ← provider_oom;
  if failed || negb (bool_decide (is_Some (h_control H))) then mret false
  else
    o ← look imp;
    let ids := comma_list (imap (fun k c => literal (call_id k c)) (batch o)) in
    a ← control_call (mk_request TOOL_BATCH None None None None None false None None None 0 (Some ids) (tool_batch_failed o)
                        None None 0 false false None 0 None 0 None None None false);
    mret (r_stop a).

(** The captured images become a message; without a preview they are dropped
    when that fails. [None]: it went well. *)
Definition tools_flush_images_ex : Turn (option bytes) :=
  o ← look imp;
  if (length (images o) =? 0)%nat then mret None
  else
    '(msg, err) ← ask (h_flush H (images o));
    match msg with
    | Some v => edit (add_message v) ;; put (fun o => o <| images := [] |>) ;; mret None
    | None => when (negb (have_preview o)) (put (fun o => o <| images := [] |>)) ;; mret (Some err)
    end.

Definition last_message (root : document) : option nat :=
  match session_messages root with [] => None | ms => Some (length ms - 1)%nat end.

Definition step_left (o : oa_impl) : bool := (max_steps cfg <=? 0) || (step o + 1 <? max_steps cfg).

(** After the tools of a batch, the next request. *)
Definition next_request (had_preview : bool) : Turn Z :=
  flushed ← (if had_preview then tools_flush_images_ex else mret None);
  match flushed with
  | Some err => preview_not_delivered err ;; emit_turn_end STOP_ERROR ;; mret (-1)
  | None =>
    d ← look doc;
    when had_preview (put (fun o => o <| unsent_preview := last_message d |>)) ;;
    put (fun o => o <| step ::= fun k => k + 1 |>) ;;
    taken ← take_steer;
    failed ← (if taken && negb had_preview then provider_oom else mret true);
    when (negb failed) (save ;; mret tt) ;;
    failed ← provider_oom;
    if failed : bool then mret (-1)
    else
      '(rc, err) ← start_post;
      if rc =? -2 then mret (-1)
      else if negb (rc =? 0) then
        emit_error ERROR_IO err ;;
        when had_preview (preview_not_delivered B"the next provider request failed") ;;
        emit_turn_end STOP_ERROR ;; mret (-1)
      else
        st ← field state;
        if had_preview && negb (bool_decide (st = ST_IDLE)) then
          ok ← save;
          if ok : bool then mret 0 else fail_turn ERROR_IO B"could not persist submitted image batch"
        else mret 0
  end.

(** [why]: the note on a preview that goes nowhere. *)
Definition end_batch (had_preview : bool) (why : bytes) (stop : tny_stop_reason) : Turn Z :=
  when had_preview (preview_not_delivered why) ;; emit_turn_end stop ;; mret 0.

Definition finish_tool_batch : Turn Z :=
  batch_stop ← tool_batch_control;
  failed ← provider_oom;
  if failed : bool then mret (-1)
  else
    o ← look imp;
    let had_preview := have_preview o in
    flushed ← (if had_preview then mret None else tools_flush_images_ex);
    match flushed with Some err => emit_error ERROR_INTERNAL err | None => mret tt end ;;
    failed ← provider_oom;
    if failed : bool then mret (-1)
    else
      put (fun o => o <| permission := None |> <| tool_batch_active := false |> <| tool_index := 0%nat |>
                      <| tool_batch_failed := 0 |> <| calls := oa_calls_reset |>) ;;
      saved ← save;
      o ← look imp;
      if negb saved then
        emit_error ERROR_IO B"could not persist completed tool batch" ;;
        when had_preview (preview_not_delivered B"the tool batch could not be persisted") ;;
        emit_turn_end STOP_ERROR ;; mret (-1)
      else if batch_stop : bool then
        end_batch had_preview B"an extension stopped the turn before the next request" STOP_INTERRUPTED
      else if cancelled o then end_batch had_preview B"the turn was cancelled before the next request" STOP_INTERRUPTED
      else if perm_blocked o then end_batch had_preview B"the turn ended denied before the next request" STOP_DENIED
      else if negb (step_left o) then
        emit_error ERROR_INTERNAL B"step limit reached" ;;
        when had_preview (preview_not_delivered B"the step budget ended the turn before the next request") ;;
        failed ← provider_oom;
        if failed : bool then mret (-1)
        else edit session_bump_turns ;; save ;; emit_turn_end STOP_STEP_LIMIT ;; mret 0
      else next_request had_preview.

(** The emergency: nothing is run, asked or kept, what is held is released. *)
Definition release (o : oa_impl) : oa_impl :=
  reasoning_reset (o <| custom := None |> <| permission := None |> <| unsent_preview := None |> <| images := [] |>
    <| conn := false |> <| sse := sse_parser_init |> <| calls := oa_calls_reset |> <| rawbody := [] |> <| text := [] |>
    <| steer := None |> <| tool_batch_active := false |> <| tool_index := 0%nat |> <| tool_batch_failed := 0 |>
    <| background_armed := false |> <| background_boundary := false |> <| turn_state := [] |> <| state := ST_IDLE |>
    <| turn_open := false |>).

(** A call that waits is answered. *)
Definition finish_pending (p : oa_pending) (word : bytes) : Turn unit :=
  complete_rejected_tool (p_id p) (c_name (p_call p)) (p_original p) (p_effective p) (p_extension p) (Some B"cancelled")
    (tool_err (B"interrupted before " ++ c_name (p_call p) ++ B" " ++ word)).

Definition cancel_batch : Turn unit :=
  c ← field custom;
  match c with
  | Some p => finish_pending p B"completed" ;; put (fun o => o <| custom := None |> <| tool_index ::= S |>)
  | None => mret tt
  end ;;
  p ← field permission;
  match p with
  | Some p => finish_pending p B"ran" ;; put (fun o => o <| permission := None |> <| tool_index ::= S |>)
  | None => mret tt
  end ;;
  o ← look imp;
  each (fun '(k, c) => finish_cancelled_call (call_id k c) (call_name c) (call_args c))
    (drop (tool_index o) (imap (fun k c => (k, c)) (batch o))) ;;
  put (fun o => o <| tool_index := n (calls o) |> <| conn := false |>) ;;
  finish_tool_batch ;; mret tt.

(** [settling]: the runtime ends the turn after an allocation failed. *)
Definition oa_cancel (settling : bool) : Turn unit :=
  o ← look imp;
  when (turn_open o || settling) (
    put (fun o => o <| cancelled := true |>) ;;
    when (negb (parser_active o)) (
      if settling then
        match unsent_preview o with Some k => edit (remove_message k) | None => mret tt end ;;
        put release ;; emit (EV_TURN_END STOP_ERROR)
      else if tool_batch_active o then cancel_batch
      else
        match text o with
        | [] => mret tt
        | t =>
          tell (h_recovery H (Some t)) ;;
          failed ← alloc_failed;
          edit (fun d => session_add_assistant jparse failed d (Some t) None) ;;
          save ;; mret tt
        end ;;
        conn_drop ;; emit_turn_end STOP_INTERRUPTED)).

Definition parser_oom : Turn Z :=
  emit_error ERROR_OOM B"out of memory decoding provider stream" ;; oa_cancel true ;; mret (-1).

(** ** Tools *)

(** What a call did besides giving its result. *)
Definition after_execution (x : execution) : Turn unit :=
  each (fun '(r, a) => execution_control r a) (x_controls x) ;;
  put (fun o => o <| cancelled ::= fun b => b || x_cancelled x |> <| perm_blocked ::= fun b => b || x_blocked x |>
                  <| images ::= fun l => l ++ x_images x |>).

Definition subagent_control (k : tny_openai_control_kind) (cid : bytes) (call : tools_call) (result : option bytes) (ok : bool) : Turn unit :=
  let action := jget_str (c_args call) B"action" in
  let known := match action with Some a => str_eq a B"create" || str_eq a B"message" | None => false end in
  when (bool_decide (is_Some (h_control H)) && str_eq (c_name call) B"subagent" && known) (
    let subagent := match jget_str (c_args call) B"id" with Some ((_ :: _) as i) => i | _ => cid end in
    let outcome := match k with SUBAGENT_END => Some (if ok then B"done" else B"error") | _ => None end in
    a ← control_call (mk_request k None None None None result false None None None 0 None 0 None None 0 false false None 0 None 0
                        (Some subagent) action outcome ok);
    stop_on a).

(** 0: done; 1: it goes on by itself; -1: it gave nothing. *)
Definition execute_call (cid original_args effective_args : bytes) (extension reason : option bytes) (call : tools_call) : Turn Z :=
  failed ← provider_oom;
  if failed : bool then mret (-1)
  else
    emit (EV_TOOL_START (c_name call) cid effective_args
            (if str_eq (c_name call) B"run_code" then jget_str (c_args call) B"reason" else c_label call)) ;;
    failed ← provider_oom;
    if failed : bool then mret (-1)
    else
      subagent_control SUBAGENT_START cid call None false ;;
      failed ← provider_oom;
      if failed : bool then mret (-1)
      else
        stopped ← field cancelled;
        x ← (if stopped : bool then mret (mk_execution (Some (tool_err (B"interrupted before " ++ c_name call ++ B" ran"))) false [] false false [])
             else note (Executed call) ;; x ← ask (h_execute H call); after_execution x ;; mret x);
        match x_result x with
        | None => mret (if x_pending x then 1 else -1)
        | Some result =>
          subagent_control SUBAGENT_END cid call (Some result) (negb (str_starts result B"error:")) ;;
          complete_tool cid (c_name call) original_args effective_args extension reason result ;; mret 0
        end.

(** The next call, or leaving the loop with a code. *)
Inductive flow := NEXT | LEAVE (rc : Z).

Definition execute_or_park (cid original_args effective_args : bytes) (extension reason : option bytes) (call : tools_call) : Turn flow :=
  status ← execute_call cid original_args effective_args extension reason call;
  failed ← provider_oom;
  if failed : bool then mret (LEAVE (-1))
  else if status =? 0 then mret NEXT
  else if negb (status =? 1) then mret (LEAVE (-1))
  else
    failed ← alloc_failed;
    if failed : bool then mret (LEAVE (-1))
    else
      put (fun o => o <| custom := Some (mk_pending cid call DECISION_ALLOW original_args effective_args extension reason) |>
                      <| state := ST_WAIT_CUSTOM |>) ;;
      mret (LEAVE 0).

(** A direct tool is refused before anything looks at it. *)
Definition refuse_direct (cid name : bytes) : Turn unit :=
  let result := B"error: only run_code is exposed; use tools.call inside Python" in
  log_toolcall name false false false ;;
  emit_tool_end cid name result false ;;
  edit (fun d => session_add_tool_result d cid (Some result)) ;;
  put (fun o => o <| tool_batch_failed ::= fun k => k + 1 |>).

Definition permission_block : Turn unit := put (fun o => o <| perm_blocked := true |>).

Definition denied_text (name : bytes) : bytes := tool_err (B"permission denied for " ++ name).

Definition grant (call : tools_call) : Turn unit := tell (h_grant H call) ;; note (Granted call).

(** A call that was proposed: the arguments as proposed and as the extensions
    left them, and whose doing that was. *)
Record proposal := mk_proposal { q_id : bytes; q_args : bytes; q_effective : bytes; q_extension : option bytes; q_reason : option bytes }.

Definition reject (q : proposal) (name : bytes) (reason : option bytes) (result : bytes) : Turn unit :=
  complete_rejected_tool (q_id q) name (q_args q) (q_effective q) (q_extension q) reason result.

Definition run_call (q : proposal) (call : tools_call) : Turn flow :=
  execute_or_park (q_id q) (q_args q) (q_effective q) (q_extension q) (q_reason q) call.

(** The user is asked: at once where there is a hook, else by an event. *)
Definition prompt_user (q : proposal) (call : tools_call) : Turn flow :=
  match h_prompt H with
  | Some prompt =>
    d ← ask (prompt call);
    note (Prompted call d) ;;
    when (bool_decide (d = DECISION_ALLOW_ALWAYS)) (grant call) ;;
    if bool_decide (d = DECISION_DENY) then
      permission_block ;; reject q (c_name call) (Some B"user denied") (denied_text (c_name call)) ;; mret NEXT
    else run_call q call
  | None =>
    failed ← alloc_failed;
    if failed : bool then mret (LEAVE (-1))
    else
      put (fun o => o <| permission := Some (mk_pending (q_id q) call DECISION_ALLOW (q_args q) (q_effective q) (q_extension q) (q_reason q)) |>
                      <| state := ST_WAIT_PERMISSION |>) ;;
      emit (EV_PERMISSION (q_id q) (c_summary call)) ;; mret (LEAVE 0)
  end.

(** The extensions decide first, where the rules leave it open. *)
Definition ask_permission (q : proposal) (call : tools_call) : Turn flow :=
  a ← control_call (mk_request PERMISSION (Some (q_id q)) (Some (c_name call)) (Some (q_effective q)) (Some (q_args q)) None false
                      None None (c_summary call) PERMISSION_MASK None 0 None None 0 false false None 0 None 0 None None None false);
  failed ← provider_oom;
  if failed : bool then mret (LEAVE (-1))
  else
    let q := mk_proposal (q_id q) (q_args q) (q_effective q)
               (match r_extension a with Some e => Some e | None => q_extension q end)
               (match r_reason a with Some r => Some r | None => q_reason q end) in
    match r_stop a, r_permission a with
    | true, _ => reject q (c_name call) (q_reason q) (tool_err (B"interrupted before " ++ c_name call ++ B" ran")) ;; mret NEXT
    | false, PERMISSION_DENY =>
      permission_block ;; reject q (c_name call) (q_reason q) (denied_text (c_name call)) ;; mret NEXT
    | false, PERMISSION_ALLOW_ONCE => run_call q call
    | false, PERMISSION_ABSTAIN => prompt_user q call
    end.

(** A prepared call: what runs is first kept in the transcript. *)
Definition admit_call (q : proposal) (call : tools_call) : Turn flow :=
  edit (fun d => session_replace_tool_arguments true d (q_id q) (q_effective q)) ;;
  failed ← provider_oom;
  saved ← (if failed : bool then mret false else save);
  if negb saved then
    failed ← provider_oom;
    when (negb failed) (reject q (c_name call) (q_reason q) (tool_err B"could not persist admitted tool call")) ;;
    rc ← fail_turn ERROR_IO B"could not persist admitted tool call"; mret (LEAVE rc)
  else
    match c_verdict call with
    | PERM_DENY =>
      permission_block ;; reject q (c_name call) (Some B"permission rule denied") (denied_text (c_name call)) ;; mret NEXT
    | PERM_ALLOW => run_call q call
    | PERM_PROMPT => ask_permission q call
    end.

Definition propose (cid name args : bytes) : Turn flow :=
  a ← control_call (mk_request PRE_TOOL (Some cid) (Some name) (Some args) (Some args) None false None None None 0 None 0 None None 0
                      false false None 0 None 0 None None None false);
  failed ← provider_oom;
  if failed : bool then mret (LEAVE (-1))
  else
    let q := mk_proposal cid args (default args (r_arguments_json a)) (r_extension a) (r_reason a) in
    if r_stop a || r_deny a then
      stop_on a ;;
      reject q name (q_reason q)
        (if r_stop a then tool_err (B"interrupted before " ++ name ++ B" ran")
         else tool_err (B"extension denied " ++ name ++ B": " ++ default B"denied" (r_reason a))) ;;
      mret NEXT
    else
      '(ok, call) ← ask (h_prepare H name (q_effective q));
      note (PreparedCall name (q_effective q) (if ok : bool then Some call else None)) ;;
      if negb ok then
        failed ← provider_oom;
        when (negb failed) (reject q name (q_reason q) (default (tool_err (B"cannot prepare tool call " ++ name)) (c_error call))) ;;
        mret NEXT
      else admit_call q call.

(** The user has decided on the parked call. *)
Definition resume_permission (p : oa_pending) : Turn flow :=
  let q := mk_proposal (p_id p) (p_original p) (p_effective p) (p_extension p) (p_reason p) in
  when (bool_decide (p_decision p = DECISION_ALLOW_ALWAYS)) (grant (p_call p)) ;;
  if bool_decide (p_decision p = DECISION_DENY) then
    permission_block ;;
    reject q (c_name (p_call p)) (Some B"user denied") (denied_text (c_name (p_call p))) ;;
    put (fun o => o <| permission := None |>) ;; mret NEXT
  else f ← run_call q (p_call p); put (fun o => o <| permission := None |>) ;; mret f.

Definition one_call (c : oa_call) : Turn flow :=
  o ← look imp;
  let cid := call_id (tool_index o) c in
  if negb (str_eq (call_name c) B"run_code") then refuse_direct cid (call_name c) ;; mret NEXT
  else if cancelled o then finish_cancelled_call cid (call_name c) (call_args c) ;; mret NEXT
  else match permission o with None => propose cid (call_name c) (call_args c) | Some p => resume_permission p end.

Definition park_background : Turn bool :=
  failed ← provider_oom;
  if failed : bool then mret false
  else
    o ← look imp;
    if negb (background_armed o) || negb (background_boundary o) || cancelled o || perm_blocked o then mret false
    else
      put (fun o => o <| background_armed := false |> <| background_boundary := false |>) ;;
      ok ← save;
      if ok : bool then conn_drop ;; put (fun o => o <| state := ST_CHECKPOINT |>) ;; mret true
      else
        failed ← provider_oom;
        when (negb failed) (emit (EV_STATUS B"background checkpoint failed; continuing in foreground")) ;; mret false.

Fixpoint tools_loop (fuel : nat) : Turn Z :=
  match fuel with
  | O => mret (-1)
  | S fuel =>
    o ← look imp;
    match batch o !! tool_index o with
    | None =>
      parked ← park_background;
      if parked : bool then mret 0
      else failed ← alloc_failed; if failed : bool then mret (-1) else finish_tool_batch
    | Some c =>
      parked ← park_background;
      if parked : bool then mret 0
      else
        failed ← alloc_failed;
        if failed : bool then mret (-1)
        else
          f ← one_call c;
          match f with
          | NEXT => put (fun o => o <| tool_index ::= S |>) ;; tools_loop fuel
          | LEAVE rc => mret rc
          end
    end
  end.

(** One round for every call that is left. *)
Definition run_tools : Turn Z := o ← look imp; tools_loop (S (length (batch o) - tool_index o)).

Definition finish_custom_completion : Turn Z :=
  pending ← field custom;
  match pending with
  | None => mret (-1)
  | Some p =>
    r ← ask (h_take H p);
    match r with
    | ASYNC_WAIT => mret 0
    | ASYNC_LOST => mret (-1)
    | ASYNC_DONE result is_error =>
      let result := if is_error && negb (str_starts result B"error:") then tool_err result else result in
      bounded ← ask (h_bound H result);
      match bounded with
      | None => mret (-1)
      | Some result =>
        complete_tool (p_id p) (c_name (p_call p)) (p_original p) (p_effective p) (p_extension p) (p_reason p) result ;;
        put (fun o => o <| custom := None |> <| tool_index ::= S |> <| state := ST_BODY |>) ;;
        run_tools
      end
    end
  end.

(** ** The end of a step *)

(** What the step leaves of its answer; false: an allocation failed. *)
Definition add_answer (extras : option bytes) : Turn unit :=
  failed ← provider_oom;
  t ← field text;
  when (negb failed && (negb (length t =? 0)%nat || bool_decide (is_Some extras))) (
    failed ← alloc_failed;
    edit (fun d => session_add_assistant_ex jparse failed d (Some t) None extras)).

Definition finish_turn_ok : Turn unit :=
  extras ← reasoning_extras_json;
  broken ← field decode_oom;
  if broken : bool then parser_oom ;; mret tt
  else
    add_answer extras ;;
    unless_oom (
      edit session_bump_turns ;;
      ok ← save;
      if ok : bool then
        tell (h_recovery H None) ;; stop ← field final_stop; emit_turn_end stop
      else unless_oom (emit_error ERROR_IO B"could not persist completed turn" ;; emit_turn_end STOP_ERROR)).

(** The answer came before the steer could ride along. *)
Definition answer_steer : Turn (option Z) :=
  extras ← reasoning_extras_json;
  broken ← field decode_oom;
  if broken : bool then rc ← parser_oom; mret (Some rc)
  else
    add_answer extras ;;
    failed ← provider_oom;
    if failed : bool then mret (Some (-1))
    else
      take_steer ;;
      failed ← provider_oom;
      if failed : bool then mret (Some (-1))
      else
        save ;;
        failed ← provider_oom;
        if failed : bool then mret (Some (-1))
        else
          o ← look imp;
          if step_left o then
            put (fun o => o <| step ::= fun k => k + 1 |>) ;;
            '(rc, err) ← start_post;
            if rc =? 0 then mret (Some 0)
            else if rc =? -2 then mret (Some (-1))
            else rc ← fail_turn ERROR_IO err; mret (Some rc)
          else mret None.

Definition call_record (k : nat) (c : oa_call) : bytes :=
  C"{" :: json_member B"id" (quote (call_id k c)) ++ C"," :: json_member B"type" (quote B"function") ++ C"," ::
  json_member B"function" (C"{" :: json_member B"name" (quote (call_name c)) ++ C"," ::
    json_member B"arguments" (literal (call_args c)) ++ [C"}"]) ++ [C"}"].

Definition batch_json (o : oa_impl) : bytes := comma_list (imap call_record (batch o)).

(** The batch is recorded once, before any of it runs; [Some]: the step is
    over. *)
Definition record_batch : Turn (option Z) :=
  failed ← provider_oom;
  extras ← (if failed : bool then mret None else reasoning_extras_json);
  lost ← (if failed : bool then ask (h_lost H) else mret false);
  o ← look imp;
  if decode_oom o || lost then rc ← parser_oom; mret (Some rc)
  else
    failed ← provider_oom;
    when (negb failed) (
      failed ← alloc_failed;
      edit (fun d => session_add_assistant_ex jparse failed d (match text o with [] => None | t => Some t end) (Some (batch_json o)) extras)) ;;
    failed ← provider_oom;
    if failed : bool then mret (Some (-1))
    else
      ok ← save;
      if ok : bool then put (fun o => o <| tool_batch_active := true |> <| tool_index := 0%nat |>) ;; mret None
      else rc ← fail_turn ERROR_IO B"could not persist proposed tool batch"; mret (Some rc).

Definition step_finished : Turn Z :=
  record_usage ;;
  failed ← provider_oom;
  if failed : bool then mret (-1)
  else
    o ← look imp;
    if (n (calls o) =? 0)%nat then
      r ← (if bool_decide (is_Some (steer o)) && negb (cancelled o) then answer_steer else mret None);
      match r with Some rc => mret rc | None => finish_turn_ok ;; mret 0 end
    else
      r ← (if tool_batch_active o then mret None else record_batch);
      match r with Some rc => mret rc | None => run_tools end.

(** ** The stream *)

Definition capture_usage (u : oa_usage) (o : oa_impl) : oa_impl :=
  let input := Z.max 0 (default (usage_in o) (input_tokens u)) in
  o <| usage_seen := true |> <| usage_in := input |> <| usage_out := Z.max 0 (default (usage_out o) (output_tokens u)) |>
    <| usage_cached := Z.min (default (usage_cached o) (cached_tokens u)) input |>
    <| usage_cache_write := Z.min (default (usage_cache_write o) (cache_write_tokens u)) input |>.

Definition on_decoded (e : oa_decoded_event) : Turn Z :=
  o ← look imp;
  if cancelled o then mret TNY_PARSE_OK
  else
    failed ← (if decode_oom o then mret true else alloc_failed);
    if failed : bool then mret TNY_PARSE_OOM
    else
      let over := failed ← alloc_failed; mret (if failed : bool then TNY_PARSE_OOM else TNY_PARSE_OK) in
      match e with
      | TEXT t =>
        put (fun o => o <| text ::= fun shown => shown ++ t |>) ;;
        failed ← alloc_failed;
        if failed : bool then mret TNY_PARSE_OOM else emit (EV_TEXT_DELTA t) ;; over
      | THINKING t => put (fun o => o <| thinking_seen := true |>) ;; emit (EV_THINKING t) ;; over
      | StreamDecode.USAGE u => put (capture_usage u) ;; over
      | StreamDecode.ERROR v => info ← classify_error v 0; put (fun o => o <| stream_error := info |> <| stream_failed := true |>) ;; over
      | FINISH reason stop =>
        put (fun o => o <| finish_reason ::= fun old => match reason with Some r => take 31 r | None => old end |>
                        <| final_stop ::= fun old => match stop with STOP_DONE => old | s => s end |>) ;;
        over
      | StreamDecode.DONE => put (fun o => o <| stream_done := true |>) ;; over
      | HOSTED_START _ | HOSTED_END _ _ => over
      end.

(** One document through the decoder, which calls back for every event. *)
Definition decode_document (refused : option oa_callset) (data : bytes) : Turn Z := fun m =>
  let '(d, cs, m', rc) :=
    oa_decoder_feed jparse (fun m e => let '(rc, m') := on_decoded e m in (m', rc)) refused (decoder (imp m)) (calls (imp m))
      (wire_chat (imp m)) false data m in
  (rc, m' <| imp ::= fun o => o <| decoder := d |> <| calls := cs |> |>).

Definition on_sse_event (data : bytes) : Turn unit :=
  o ← look imp;
  when (negb (decode_oom o || cancelled o)) (
    refused ← ask (h_decode H);
    rc ← decode_document refused data;
    when (rc =? TNY_PARSE_OOM) (put (fun o => o <| decode_oom := true |>))).

(** The first byte that is no blank decides. *)
Fixpoint sniff_body (piece : bytes) (o : oa_impl) : oa_impl :=
  match piece with
  | [] => o
  | c :: piece =>
    if (c =? C" ") || (c =? TAB) || (c =? CR) || (c =? LF) then sniff_body piece o
    else o <| body_is_sse := negb (c =? C"{") |> <| body_sniffed := true |>
  end.

(** The events of the parser; true: its memory ran out. *)
Definition sse_events (evs : list bytes) (p : sse_parser) : Turn unit :=
  put (fun o => o <| parser_active := true |> <| sse := p |>) ;;
  each on_sse_event evs ;;
  put (fun o => (match Sse.status p with Sse.TNY_PARSE_OOM => o <| decode_oom := true |> | _ => o end) <| parser_active := false |>).

Definition take_piece (piece : bytes) : Turn unit :=
  now ← ask (h_clock H);
  put (fun o => o <| last_byte_ms := now |>) ;;
  put (fun o => if body_sniffed o then o else sniff_body piece o) ;;
  o ← look imp;
  if body_is_sse o then
    mem ← ask (h_grow H);
    let '(p, evs, _) := sse_feed mem (sse o) piece 0 in sse_events evs p
  else
    let cap := if error_status o =? 0 then OA_RAW_BODY_MAX else OA_ERROR_BODY_MAX in
    put (fun o => if Z.of_nat (length (rawbody o) + length piece) <=? cap then o <| rawbody ::= fun b => b ++ piece |>
                  else o <| rawbody_overflow := true |>).

(** [strtok]-like: the words between commas, without blanks around them. *)
Fixpoint comma_words (word value : bytes) : list bytes :=
  match value with
  | [] => [word]
  | c :: value => if c =? C"," then word :: comma_words [] value else comma_words (word ++ [c]) value
  end.

Definition blank_char (c : Z) : bool := (c =? C" ") || (c =? TAB).
Fixpoint skip_blank_chars (s : bytes) : bytes := match s with c :: r => if blank_char c then skip_blank_chars r else s | [] => [] end.
Definition trim_blanks (s : bytes) : bytes := rev (skip_blank_chars (rev (skip_blank_chars s))).

Definition close_token (value : bytes) : bool :=
  existsb (fun w => same_ignoring_case (trim_blanks w) B"close") (comma_words [] value).

Definition response_requests_close : Turn bool :=
  have ← field conn;
  if have : bool then value ← ask (h_header H B"Connection"); mret (match value with Some v => close_token v | None => false end)
  else mret false.

(** ** Dispatch *)

(** A fresh attempt failed before anything was sent. *)
Definition retry_or_fail (err : bytes) : Turn Z :=
  stopped ← field cancelled;
  again ← (if stopped : bool then mret false else schedule_retry err 0);
  if again : bool then mret 0 else fail_turn ERROR_IO err.

Definition post_again : Turn Z :=
  '(rc, err) ← start_post_mode true;
  if rc =? 0 then mret 0 else if rc =? -2 then mret (-1) else retry_or_fail err.

(** Server affinity, kept where the value cannot have been cut. *)
Definition take_turn_state (status : Z) : Turn unit :=
  o ← look imp;
  when ((200 <=? status) && (status <? 300) && negb (wire_chat o) && affinity cfg && (length (turn_state o) =? 0)%nat) (
    value ← ask (h_header H B"x-codex-turn-state");
    match value with
    | Some v =>
      when ((length v <? 511)%nat && negb (mem_byte CR v) && negb (mem_byte LF v)) (put (fun o => o <| turn_state := v |>))
    | None => mret tt
    end).

(** The head of the response; [Some]: the dispatch is over. *)
Definition read_head : Turn (option Z) :=
  status ← ask (h_status H);
  failed ← provider_oom;
  if failed : bool then rc ← parser_oom; mret (Some rc)
  else if status =? -2 then
    stalled ← stream_stalled;
    if negb stalled then mret (Some 0)
    else
      what ← stalled_text B"provider sent no response for " B"s";
      a ← provider_control PROVIDER_RESPONSE 0;
      stop_on a ;;
      failed ← provider_oom;
      rc ← (if failed : bool then parser_oom else stream_interrupted what);
      mret (Some rc)
  else
    now ← ask (h_clock H);
    put (fun o => o <| last_byte_ms := now |>) ;;
    if status <? 0 then
      reused ← field conn_reused;
      conn_drop ;;
      a ← provider_control PROVIDER_RESPONSE 0;
      stop_on a ;;
      failed ← provider_oom;
      rc ← (if failed : bool then parser_oom
            else if reused : bool then post_again
            else
              again ← schedule_retry B"connection lost before response" 0;
              if again : bool then mret 0 else fail_turn ERROR_IO B"connection lost before response");
      mret (Some rc)
    else
      a ← provider_control PROVIDER_RESPONSE status;
      if r_stop a then
        put (fun o => o <| cancelled := true |>) ;; conn_drop ;; emit_turn_end STOP_INTERRUPTED ;; mret (Some 0)
      else
        failed ← provider_oom;
        if failed : bool then rc ← parser_oom; mret (Some rc)
        else
          take_turn_state status ;;
          now ← ask (h_clock H);
          put (fun o => (if 400 <=? status
                         then o <| error_status := status |> <| error_deadline_ms := now + OA_ERROR_BODY_WAIT_MS |>
                                <| body_sniffed := true |> <| body_is_sse := false |>
                         else o) <| state := ST_BODY |>) ;;
          mret None.

(** An allocation failed while a piece was taken in, or the turn was stopped. *)
Definition after_piece : Turn (option Z) :=
  o ← look imp;
  failed ← (if decode_oom o then mret true else alloc_failed);
  if failed : bool then rc ← parser_oom; mret (Some rc)
  else if cancelled o then oa_cancel false ;; mret (Some 0)
  else mret None.

(** The whole body as one document. *)
Definition whole_document : Turn unit :=
  body ← field rawbody;
  match body with
  | [] => mret tt
  | _ =>
    put (fun o => o <| parser_active := true |>) ;;
    on_sse_event body ;;
    put (fun o => o <| parser_active := false |> <| rawbody := [] |> <| stream_done := true |>)
  end.

Definition flush_body : Turn unit :=
  o ← look imp;
  if body_is_sse o then
    mem ← ask (h_grow H);
    let '(p, evs, _) := sse_flush mem (sse o) 0 in sse_events evs p
  else whole_document.

(** The body is over: [ok], or the transport broke. *)
Definition end_body (ok : bool) : Turn Z :=
  close ← (if ok then response_requests_close else mret true);
  when close conn_drop ;;
  o ← look imp;
  if ok && rawbody_overflow o then
    put (fun o => o <| rawbody := [] |>) ;; fail_turn ERROR_PROTOCOL B"provider response too large (over 1 MiB, not streamed)"
  else
    over ← (if ok then flush_body ;; after_piece else mret None);
    match over with
    | Some rc => mret rc
    | None =>
      o ← look imp;
      if ok && stream_failed o then fail_stream
      else if negb (oa_stream_complete (stream_done o) (wire_chat o) (Some (finish_reason o))) then
        stream_interrupted
          (if negb ok then B"stream aborted mid-response"
           else if (length (text o) =? 0)%nat && (n (calls o) =? 0)%nat && negb (thinking_seen o)
                then B"provider closed the stream without a response"
                else B"stream closed before completion")
      else step_finished
    end.

(** Nothing more for now. *)
Definition body_pause : Turn Z :=
  o ← look imp;
  late ← (if negb (error_status o =? 0) then now ← ask (h_clock H); mret (error_deadline_ms o <=? now) else mret false);
  if late : bool then finish_error_response
  else
    stalled ← (if error_status o =? 0 then stream_stalled else mret false);
    if stalled : bool then what ← stalled_text B"stream stalled (no data for " B"s)"; stream_interrupted what else mret 0.

(** At most [BODY_BATCH] bytes at a time, then the caller has its turn. *)
Definition BODY_BATCH : Z := 8192.

Fixpoint body_loop (fuel : nat) (got : Z) : Turn Z :=
  match fuel with
  | O => mret (-1)
  | S fuel =>
    if BODY_BATCH <=? got then put (fun o => o <| body_yielded := true |>) ;; mret 0
    else
      r ← ask (h_read H);
      failed ← provider_oom;
      if failed : bool then parser_oom
      else
        match r with
        | READ_AGAIN => body_pause
        | READ [] | READ_END | READ_ERROR =>
          status ← field error_status;
          if negb (status =? 0) then finish_error_response
          else end_body (match r with READ_ERROR => false | _ => true end)
        | READ piece =>
          take_piece piece ;;
          over ← after_piece;
          match over with
          | Some rc => mret rc
          | None =>
            o ← look imp;
            if (error_status o =? 0) && stream_failed o then fail_stream else body_loop fuel (got + Z.of_nat (length piece))
          end
        end
  end.

Definition read_body : Turn Z := put (fun o => o <| body_yielded := false |>) ;; body_loop (S (Z.to_nat BODY_BATCH)) 0.

Definition oa_dispatch : Turn Z :=
  o ← look imp;
  match state o with
  | ST_WAIT_CUSTOM => finish_custom_completion
  | ST_RETRY_WAIT =>
    if cancelled o then mret 0
    else now ← ask (h_clock H); if now <? retry_at_ms o then mret 0 else post_again
  | ST_HEADERS | ST_BODY =>
    if negb (conn o) then mret 0
    else
      over ← (if bool_decide (state o = ST_HEADERS) then read_head else mret None);
      match over with Some rc => mret rc | None => read_body end
  | _ => mret 0
  end.

(** ** The other entries *)

Definition begin_turn (o : oa_impl) : oa_impl :=
  o <| background_armed := false |> <| background_boundary := false |> <| step := 0 |> <| cancelled := false |> <| turn_open := true |>
    <| usage_in := 0 |> <| usage_out := 0 |> <| usage := no_usage |> <| usage_seen := false |> <| usage_recorded := false |>
    <| turn_state := [] |> <| perm_blocked := false |> <| permission := None |> <| custom := None |> <| tool_batch_active := false |>
    <| tool_index := 0%nat |> <| tool_batch_failed := 0 |> <| steer := None |> <| toolcall_log := [C"["] |>
    <| calls := oa_calls_reset |> <| repairs_noted := false |>.

(** The prompt with its images, if there are any; false: it cannot be kept. *)
Definition add_prompt (prompt : bytes) (paths : list bytes) : Turn (option bytes) :=
  match paths with
  | [] => edit (fun d => session_add_text d B"user" (Some prompt)) ;; mret None
  | _ =>
    '(msg, err) ← ask (h_user_images H prompt paths);
    match msg with Some v => edit (add_message v) ;; mret None | None => mret (Some err) end
  end.

Definition oa_send (prompt : bytes) (paths : list bytes) : Turn (Z * bytes) :=
  tier ← ask (h_tier_error H);
  match tier with
  | Some err => mret (-1, err)
  | None =>
    note (Begun prompt) ;;
    put begin_turn ;;
    edit (fun d => session_set_meta d (Some B"openai") (Some (model cfg))) ;;
    refused ← add_prompt prompt paths;
    match refused with
    | Some err => mret (-1, err)
    | None =>
      ok ← save;
      if ok : bool then start_post else mret (-1, B"could not persist user prompt")
    end
  end.

(** [memory]: for the two texts together. *)
Definition oa_steer (memory : bool) (t : bytes) : Turn (Z * bytes) :=
  o ← look imp;
  if bool_decide (state o = ST_IDLE) || cancelled o then mret (-1, B"no turn is running")
  else
    match steer o with
    | Some old => if memory then put (fun o => o <| steer := Some (old ++ [LF; LF] ++ t) |>) ;; mret (0, []) else mret (-1, B"out of memory")
    | None => put (fun o => o <| steer := Some t |>) ;; mret (0, [])
    end.

Definition oa_respond_permission (pid : bytes) (d : tny_perm_decision) : Turn unit :=
  o ← look imp;
  match permission o with
  | Some p =>
    when (str_eq pid (p_id p)) (
      note (Decided pid d) ;;
      put (fun o => o <| permission := Some (mk_pending (p_id p) (p_call p) d (p_original p) (p_effective p) (p_extension p) (p_reason p)) |>) ;;
      when (bool_decide (d = DECISION_DENY)) permission_block ;;
      run_tools ;; mret tt)
  | None => mret tt
  end.

(** In milliseconds; -1: no deadline. *)
Definition oa_poll_timeout (now : Z) (o : oa_impl) : Z :=
  let until (t : Z) := Z.max 0 (t - now) in
  match state o with
  | ST_BODY =>
    if body_yielded o then 0
    else if negb (error_status o =? 0) then until (error_deadline_ms o)
    else if conn o && (0 <? stall_ms o) then until (last_byte_ms o + stall_ms o)
    else -1
  | ST_RETRY_WAIT => until (retry_at_ms o)
  | ST_HEADERS => if conn o && (0 <? stall_ms o) then until (last_byte_ms o + stall_ms o) else -1
  | _ => -1
  end.

Definition tny_backend_openai_background (o : oa_impl) : oa_impl :=
  if negb (bool_decide (state o = ST_IDLE)) && negb (bool_decide (state o = ST_CHECKPOINT)) && negb (background_armed o)
  then o <| background_armed := true |> <| background_boundary := false |> else o.

Definition tny_backend_openai_parked (o : oa_impl) : bool := bool_decide (state o = ST_CHECKPOINT).

Definition tny_backend_openai_continue : Turn Z :=
  o ← look imp;
  if negb (bool_decide (state o = ST_CHECKPOINT)) then mret (-1)
  else put (fun o => o <| background_armed := false |> <| background_boundary := false |> <| state := ST_BODY |>) ;; run_tools.

Definition tny_backend_openai_steps (o : oa_impl) : Z := step o + 1.

(** Whether a preview can still ride along. *)
Definition preview_batch_ready (o : oa_impl) : bool :=
  tool_batch_active o && negb (cancelled o || perm_blocked o) && step_left o.

Definition tny_backend_openai_usage_json (u : tny_openai_usage) : bytes :=
  if u_requests u =? 0 then B"null"
  else
    let all_read := u_read_requests u =? u_requests u in
    let number (ok : bool) (v : Z) := if ok then int_text v else B"null" in
    C"{" :: json_member B"input_tokens" (int_text (u_input u)) ++ C"," :: json_member B"output_tokens" (int_text (u_output u)) ++
    C"," :: json_member B"requests" (int_text (u_requests u)) ++
    C"," :: json_member B"cached_input_tokens" (number all_read (u_cached u)) ++
    C"," :: json_member B"uncached_input_tokens" (number all_read (u_input u - u_cached u)) ++
    C"," :: json_member B"cache_write_tokens" (number (u_write_requests u =? u_requests u) (u_cache_write u)) ++ [C"}"].

Definition tny_backend_openai_toolcalls_json (o : oa_impl) : bytes :=
  match toolcall_log o with
  | [] => B"[]"
  | log => if List.last log NUL =? C"]" then log else log ++ [C"]"]
  end.

(** What the runtime may do with the backend; the event callback and the
    controls do not call back into it. *)
Inductive entry :=
  | Send (prompt : bytes) (paths : list bytes)
  | Dispatch
  | Respond (pid : bytes) (d : tny_perm_decision)
  | Steer (memory : bool) (t : bytes)
  | Cancel (settling : bool)
  | Background
  | Continue.

(** Every entry is an allocation scope of its own. *)
Definition enter (e : entry) : Turn unit :=
  change (fun m => m <| oom := false |>) ;;
  match e with
  | Send prompt paths => oa_send prompt paths ;; mret tt
  | Dispatch => oa_dispatch ;; mret tt
  | Respond pid d => oa_respond_permission pid d
  | Steer memory t => oa_steer memory t ;; mret tt
  | Cancel settling => note (if settling then Settling else Interrupted) ;; oa_cancel settling
  | Background => put tny_backend_openai_background
  | Continue => tny_backend_openai_continue ;; mret tt
  end.

End turn.

(** The backend as it is made. *)
Definition new_impl (retries stall : Z) : oa_impl :=
  mk_impl false sse_parser_init ST_IDLE oa_calls_reset oa_decoder_reset false false false 0 false false 0 0 false false false 0 0 [] false
    false false false false no_error retries stall 0 false false STOP_DONE [] 0 0 0 0 false false no_usage [] 0 0 0 0 false false
    false None [] [] [] None None None false [].

(** A run of entries from a fresh backend bound to a session. *)
Definition run {W} (H : host W) (cfg : settings) (jparse : bytes -> option jval) (jwrite : jval -> option bytes) (w : W)
    (d : document) (retries stall : Z) (es : list entry) : machine W :=
  snd (each (enter H cfg jparse jwrite) es (mk_machine (new_impl retries stall) d false w [])).
