(* ===== verification/TurnFrames.v ===== *)
(** What may follow in the trace of a turn of the native backend, the invariant
    that ensures it, and the programs in between: those that leave the turn, its
    place and its end as they are. *)
From S2P Require Import Prelude Decimal Effects Json JsonValue Perm ToolCalls StreamDecode Errors Transcript ExecControl Turn.

Open Scope Z_scope.

(** ** Specification: what may follow a trace (its newest item is first) *)

(** Since the turn began. *)
Fixpoint ended (t : list item) : bool :=
  match t with
  | [] => true
  | Begun _ :: _ => false
  | Emitted (EV_TURN_END _) :: _ => true
  | _ :: t => ended t
  end.

(** A stop that binds: the answer to a permission or a result is one for that
    call. *)
Definition binding (k : tny_openai_control_kind) : bool := match k with PERMISSION | POST_TOOL => false | _ => true end.

Fixpoint stopped (t : list item) : bool :=
  match t with
  | [] => false
  | Begun _ :: _ => false
  | Interrupted :: _ | Settling :: _ => true
  | Asked r a :: t => binding (kind r) && r_stop a || stopped t
  | _ :: t => stopped t
  end.

Fixpoint settled (t : list item) : bool :=
  match t with
  | [] | Begun _ :: _ => false
  | Settling :: _ => true
  | _ :: t => settled t
  end.

(** An allocation was seen to have failed. *)
Fixpoint refused (t : list item) : bool :=
  match t with
  | [] | Begun _ :: _ => false
  | Refused :: _ => true
  | _ :: t => refused t
  end.

(** The last answer of the extensions, to whatever question, was a stop. *)
Fixpoint last_stop (t : list item) : bool :=
  match t with
  | [] | Begun _ :: _ => false
  | Asked _ a :: _ => r_stop a
  | _ :: t => last_stop t
  end.

(** How far the last prepared call has come: prepared; kept in the transcript
    while its permission is open; cleared to run. *)
Inductive clearance := UNCLEARED | PREPARED (c : tools_call) | OPEN (c : tools_call) | CLEARED (c : tools_call).

Definition after_save (c : tools_call) : clearance :=
  match c_verdict c with PERM_ALLOW => CLEARED c | PERM_PROMPT => OPEN c | PERM_DENY => UNCLEARED end.

Definition after_permission (a : tny_openai_control_response) (cl : clearance) : clearance :=
  match cl, r_stop a, r_permission a with
  | OPEN c, false, PERMISSION_ALLOW_ONCE => CLEARED c
  | OPEN c, false, PERMISSION_ABSTAIN => OPEN c
  | OPEN _, _, _ => UNCLEARED
  | _, _, _ => cl
  end.

(** What the user said last counts. *)
Definition after_decision (d : tny_perm_decision) (cl : clearance) : clearance :=
  match cl with
  | OPEN c | CLEARED c => match d with DECISION_DENY => OPEN c | _ => CLEARED c end
  | _ => cl
  end.

Definition after_item (i : item) (cl : clearance) : clearance :=
  match i with
  | PreparedCall _ _ (Some c) => PREPARED c
  | PreparedCall _ _ None | Executed _ | Begun _ => UNCLEARED
  | Saved ok => match cl with PREPARED c => if ok then after_save c else UNCLEARED | _ => cl end
  | Asked r a => match kind r with PERMISSION => after_permission a cl | _ => cl end
  | Prompted _ d | Decided _ d => after_decision d cl
  | _ => cl
  end.

Fixpoint clear (t : list item) : clearance := match t with [] => UNCLEARED | i :: t => after_item i (clear t) end.

(** The last event of a turn is its end; only the settlement of a failed
    allocation may report the end again. *)
Definition event_allowed (t : list item) (i : item) : Prop :=
  match i with
  | Emitted e => ended t = false \/ (e = EV_TURN_END STOP_ERROR /\ settled t = true)
  | _ => True
  end.

(** Only [run_code] is prepared; the user is asked about a call that is open,
    and a grant is for one that was cleared; a call runs once for every time it
    was cleared; after the end nothing runs and nothing is sent, nor after a stop
    that binds; and where the last answer was a stop, no call is prepared and
    nothing is sent. *)
Definition action_allowed (t : list item) (i : item) : Prop :=
  match i with
  | PreparedCall name _ _ => name = B"run_code" /\ (last_stop t = false \/ refused t = true)
  | Executed c => clear t = CLEARED c /\ ended t = false /\ (stopped t = false \/ refused t = true)
  | Requested _ => ended t = false /\ (stopped t = false \/ refused t = true)
  | Sent _ => ended t = false /\ (stopped t = false /\ last_stop t = false \/ refused t = true)
  | Prompted c _ => clear t = OPEN c
  | Granted c => clear t = CLEARED c
  | _ => True
  end.

(** What a request says of the conversation is something a provider accepts. *)
Definition request_accepted (i : item) : Prop := match i with Requested ms => well_paired ms | _ => True end.

Fixpoint always (p : list item -> item -> Prop) (t : list item) : Prop :=
  match t with [] => True | i :: t => p t i /\ always p t end.

(** ** What of a machine the proofs look at *)

Record sight := mk_sight {
  open : bool; at_ : oa_state; halted : bool; parked : option oa_pending;
  over_ : bool; stop_ : bool; settled_ : bool; refused_ : bool; clear_ : clearance; last_ : bool }.

Definition seen (o : oa_impl) (t : list item) : sight :=
  mk_sight (turn_open o) (state o) (cancelled o) (permission o) (ended t) (stopped t) (settled t) (refused t) (clear t) (last_stop t).

(** An allocation has failed. *)
Definition short (v : sight) : sight :=
  mk_sight (open v) (at_ v) (halted v) (parked v) (over_ v) (stop_ v) (settled_ v) true (clear_ v) (last_ v).

Record shows {W} (H : host W) (m : machine W) (v : sight) : Prop := {
  s_seen : seen (imp m) (trace m) = v;
  s_silent : h_control H = None -> last_stop (trace m) = false;
  s_events : always event_allowed (trace m);
  s_actions : always (fun t i => action_allowed t i /\ request_accepted i) (trace m) }.

(** What the programs in between leave: the turn, its place and its end as they
    are; a stop they see they also heed. *)
Record eased (v v' : sight) : Prop := {
  e_open : open v' = open v; e_at : at_ v' = at_ v; e_parked : parked v' = parked v;
  e_over : over_ v' = over_ v; e_settled : settled_ v' = settled_ v;
  e_halted : halted v = true -> halted v' = true;
  e_stop : stop_ v' = true -> stop_ v = true \/ halted v' = true \/ refused_ v' = true;
  e_refused : refused_ v = true -> refused_ v' = true;
  e_clear : clear_ v' = clear_ v \/ exists c, clear_ v = PREPARED c }.

#[export] Instance eased_preorder : PreOrder eased.
Proof.
  split.
  - intros v. constructor; auto.
  - intros v1 v2 v3 [] []. constructor; try congruence; auto.
    + intros Hs. destruct (e_stop1 Hs) as [Hs'|]; [|by auto]. destruct (e_stop0 Hs') as [|[|]]; auto.
    + destruct e_clear0 as [E|]; [rewrite <- E; by auto|by right].
Qed.

Create HintDb turn_frames discriminated.
#[export] Hint Constants Opaque : turn_frames.

Section safe.
Context {W : Type} (H : host W) (cfg : settings) (jparse : bytes -> option jval) (jwrite : jval -> option bytes).

Abbreviation Turn := (M (machine W)).
Abbreviation shows := (shows H).

(** ** Programs *)

Definition spec {A} (P : sight -> Prop) (f : Turn A) (Q : sight -> A -> sight -> Prop) : Prop :=
  forall m v, shows m v -> P v -> wp f (fun a m' => exists v', shows m' v' /\ Q v a v') m.

Lemma wp_spec {A} P (f : Turn A) Q R (m : machine W) v :
  spec P f Q -> shows m v -> P v -> (forall a m' v', shows m' v' -> Q v a v' -> R a m') -> wp f R m.
Proof. intros Hf Hs HP HR. eapply wp_mono; [by apply (Hf m v)|]. intros a m' (v' & Hs' & HQ). by eapply HR. Qed.

Definition ok_event (v : sight) (i : item) : Prop :=
  match i with
  | Emitted e => over_ v = false \/ (e = EV_TURN_END STOP_ERROR /\ settled_ v = true)
  | _ => True
  end.

Definition ok_action (v : sight) (i : item) : Prop :=
  match i with
  | PreparedCall name _ _ => name = B"run_code" /\ (last_ v = false \/ refused_ v = true)
  | Executed c => clear_ v = CLEARED c /\ over_ v = false /\ (stop_ v = false \/ refused_ v = true)
  | Requested _ => over_ v = false /\ (stop_ v = false \/ refused_ v = true)
  | Sent _ => over_ v = false /\ (stop_ v = false /\ last_ v = false \/ refused_ v = true)
  | Prompted c _ => clear_ v = OPEN c
  | Granted c => clear_ v = CLEARED c
  | _ => True
  end.

Definition noted (i : item) (v : sight) : sight :=
  mk_sight (open v) (at_ v) (halted v) (parked v)
    (match i with Begun _ => false | Emitted (EV_TURN_END _) => true | _ => over_ v end)
    (match i with Begun _ => false | Interrupted | Settling => true | Asked r a => binding (kind r) && r_stop a || stop_ v | _ => stop_ v end)
    (match i with Begun _ => false | Settling => true | _ => settled_ v end)
    (match i with Begun _ => false | Refused => true | _ => refused_ v end) (after_item i (clear_ v))
    (match i with Begun _ => false | Asked _ a => r_stop a | _ => last_ v end).

Lemma wp_note i R (m : machine W) v :
  shows m v -> match i with Asked _ _ => h_control H <> None | _ => True end -> ok_event v i -> ok_action v i /\ request_accepted i -> (forall m', shows m' (noted i v) -> R tt m') -> wp (note i) R m.
Proof.
  intros [Hv Ho He Ha] Hi H1 H2 HR. apply wp_change, HR. subst v. constructor.
  - destruct i as [[]| | | | | | | | | | | | |]; reflexivity.
  - cbn. intros Hc. specialize (Ho Hc). by destruct i.
  - split; [|done]. by destruct i.
  - split; [|done]. destruct H2 as [H2 H2']. split; [by destruct i|done].
Qed.

(** What the proofs look at does not include the outside and the transcript. *)
Lemma shows_world (m : machine W) v (w : W) d : shows m v -> shows (mk_machine (imp m) d (oom m) w (trace m)) v.
Proof. intros [Hv Ho He Ha]. by constructor. Qed.

Lemma wp_ask {A} (f : W -> A * W) R (m : machine W) v : shows m v -> (forall a m', shows m' v -> R a m') -> wp (ask f) R m.
Proof. intros Hs HR. unfold wp, ask. destruct (f (world m)) as [a w]. apply HR. by apply shows_world. Qed.

Lemma wp_tell (f : W -> W) R (m : machine W) v : shows m v -> (forall m', shows m' v -> R tt m') -> wp (tell f) R m.
Proof. intros Hs HR. apply wp_change, HR. by apply shows_world. Qed.

Lemma wp_edit (f : document -> document) R (m : machine W) v : shows m v -> (forall m', shows m' v -> R tt m') -> wp (edit f) R m.
Proof. intros Hs HR. apply wp_change, HR. by apply shows_world. Qed.

Lemma wp_put (f : oa_impl -> oa_impl) R (m : machine W) v :
  shows m v ->
  (forall o m', open v = turn_open o -> at_ v = state o -> halted v = cancelled o -> parked v = permission o ->
     shows m' (mk_sight (turn_open (f o)) (state (f o)) (cancelled (f o)) (permission (f o)) (over_ v) (stop_ v) (settled_ v) (refused_ v) (clear_ v) (last_ v)) -> R tt m') ->
  wp (put f) R m.
Proof. intros [Hv Ho He Ha] HR. apply wp_change. apply (HR (imp m)); subst v; try done. Qed.

Lemma wp_imp R (m : machine W) v :
  shows m v ->
  (forall o, open v = turn_open o -> at_ v = state o -> halted v = cancelled o -> parked v = permission o -> imp m = o -> R o m) ->
  wp (look (@imp W)) R m.
Proof. intros [Hv Ho He Ha] HR. apply wp_look. apply (HR (imp m)); by subst v. Qed.

Lemma wp_alloc R (m : machine W) v :
  shows m v -> (forall m', shows m' v -> R false m') ->
  (forall m', shows m' (short v) -> R true m') ->
  wp (alloc_failed H) R m.
Proof.
  intros Hs Hf Ht. unfold alloc_failed. apply wp_bind, wp_look. destruct (oom m) eqn:Eo.
  - apply wp_bind, wp_change, wp_ret, Ht. destruct Hs as [Hv Ho He Ha]. subst v. by constructor.
  - apply wp_bind. eapply wp_ask; [exact Hs|]. intros [] m' Hs'; [|by apply wp_ret, Hf].
    apply wp_bind, wp_bind, wp_change, wp_ret, Ht. destruct Hs' as [Hv Ho He Ha]. subst v. by constructor.
Qed.

(** ** Programs in between *)

Definition frames {A} (f : Turn A) : Prop := spec (fun v => over_ v = false) f (fun v _ v' => eased v v').

Lemma frames_ret {A} (a : A) : frames (mret a).
Proof. intros m v Hs _. apply wp_ret. by exists v. Qed.

Lemma frames_bind {A T} (f : Turn A) (k : A -> Turn T) : frames f -> (forall a, frames (k a)) -> frames (f ≫= k).
Proof.
  intros Hf Hk m v Hs Ho. apply wp_bind. eapply wp_spec; [exact Hf|exact Hs|exact Ho|]. intros a m' v' Hs' He.
  eapply wp_mono; [apply (Hk a m' v' Hs')|]; [by rewrite (e_over _ _ He)|]. intros b m'' (v'' & Hs'' & He').
  exists v''. split; [done|exact (transitivity He He')].
Qed.

Lemma frames_look {A} (f : machine W -> A) : frames (look f).
Proof. intros m v Hs _. apply wp_look. by exists v. Qed.

Lemma frames_ask {A} (f : W -> A * W) : frames (ask f).
Proof. intros m v Hs _. eapply wp_ask; [exact Hs|]. intros a m' Hs'. by exists v. Qed.

Lemma frames_tell (f : W -> W) : frames (tell f).
Proof. intros m v Hs _. eapply wp_tell; [exact Hs|]. intros m' Hs'. by exists v. Qed.

Lemma frames_edit (f : document -> document) : frames (edit f).
Proof. intros m v Hs _. eapply wp_edit; [exact Hs|]. intros m' Hs'. by exists v. Qed.

Lemma frames_alloc : frames (alloc_failed H).
Proof.
  intros m v Hs _. eapply wp_alloc; [exact Hs| |]; intros m' Hs'; (eexists; split; [exact Hs'|]); [done|]. constructor; cbn; auto.
Qed.

(** Fields the proofs do not look at, and stops. *)
Definition aside (f : oa_impl -> oa_impl) : Prop := forall o,
  turn_open (f o) = turn_open o /\ state (f o) = state o /\ permission (f o) = permission o /\ (cancelled o = true -> cancelled (f o) = true).

Lemma frames_put (f : oa_impl -> oa_impl) : aside f -> frames (put f).
Proof.
  intros Hf m v Hs _. eapply wp_put; [exact Hs|]. intros o m' E1 E2 E3 E4 Hs'. eexists. split; [exact Hs'|].
  destruct (Hf o) as (F1 & F2 & F3 & F4). constructor; cbn; try congruence; auto. rewrite E3. done.
Qed.

Lemma frames_note (i : item) :
  match i with
  | Emitted (EV_TURN_END _) | Asked _ _ | PreparedCall _ _ _ | Executed _ | Sent _ | Requested _ | Prompted _ _ | Granted _ | Decided _ _
  | Begun _ | Interrupted | Settling => False
  | _ => True
  end -> frames (note i).
Proof.
  intros Hi m v Hs Ho. eapply wp_note; [exact Hs|by destruct i| | |intros m' Hs'; eexists; split; [exact Hs'|]].
  - destruct i as [[]| | | | | | | | | | | | |]; try done; by left.
  - by destruct i.
  - destruct i as [[]| | | | | | | | | | | | |]; try done; constructor; cbn; auto. destruct (clear_ v); eauto.
Qed.

Lemma frames_emit (e : tny_backend_event) : match e with EV_TURN_END _ => False | _ => True end -> frames (emit H e).
Proof. intros He. unfold emit. apply frames_bind; [apply frames_tell|intros _]. apply frames_note. by destruct e. Qed.

Lemma frames_save : frames (save H).
Proof.
  unfold save. apply frames_bind; [apply frames_look|intros d]. apply frames_bind; [apply frames_ask|intros ok].
  apply frames_bind; [by apply frames_note|intros _; apply frames_ret].
Qed.

Lemma frames_each {A} (f : A -> Turn unit) l : (forall a, frames (f a)) -> frames (each f l).
Proof. intros Hf. induction l as [|a l IH]; cbn [each]; [apply frames_ret|]. apply frames_bind; [apply Hf|by intros _]. Qed.

Lemma frames_when b (f : Turn unit) : frames f -> frames (when b f).
Proof. intros Hf. by destruct b; [|apply frames_ret]. Qed.

Lemma frames_unless (k : Turn unit) : frames k -> frames (unless_oom H k).
Proof. intros Hk. apply frames_bind; [apply frames_alloc|]. intros []; [apply frames_ret|done]. Qed.

(** A question to the extensions. *)
Lemma control_spec (r : tny_openai_control_request) :
  spec (fun _ => True) (control_call H r) (fun v a v' =>
    exists b l, (l = r_stop a \/ b = true) /\
      v' = mk_sight (open v) (at_ v) (halted v) (parked v) (over_ v) (binding (kind r) && r_stop a || stop_ v)
             (settled_ v) (refused_ v || b) (match kind r with PERMISSION => after_permission a (clear_ v) | _ => clear_ v end) l).
Proof.
  assert (forall v b, mk_sight (open v) (at_ v) (halted v) (parked v) (over_ v) (stop_ v) (settled_ v) b (clear_ v) (last_ v) =
    mk_sight (open v) (at_ v) (halted v) (parked v) (over_ v) (binding (kind r) && r_stop no_response || stop_ v)
                (settled_ v) b (match kind r with PERMISSION => after_permission no_response (clear_ v) | _ => clear_ v end) (last_ v)) as Hno.
  { intros v b. f_equal; [cbn; by rewrite andb_false_r|]. destruct (kind r); try done. by destruct (clear_ v). }
  intros m v Hs _. unfold control_call. destruct (h_control H) as [f|] eqn:Ec.
  - apply wp_bind. eapply wp_alloc; [exact Hs| |].
    + clear m Hs. intros m Hs. apply wp_bind. eapply wp_ask; [exact Hs|]. clear m Hs. intros a m Hs. apply wp_bind.
      eapply wp_note; [exact Hs|congruence|done|done|]. intros m' Hs'. apply wp_ret. eexists. split; [exact Hs'|]. exists false, (r_stop a).
      unfold noted. cbn. rewrite orb_false_r. auto.
    + clear m Hs. intros m Hs. apply wp_ret. eexists. split; [exact Hs|]. exists true, (last_ v). rewrite orb_true_r. split; [by right|]. apply Hno.
  - apply wp_ret. exists v. split; [done|]. exists false, (last_ v). rewrite orb_false_r, <- Hno. destruct Hs as [<- Hq _ _].
    split; [left; exact (Hq Ec)|done].
Qed.

Lemma frames_control (r : tny_openai_control_request) : kind r = POST_TOOL -> frames (control_call H r).
Proof.
  intros Hk m v Hs _. eapply wp_spec; [apply control_spec|exact Hs|done|]. intros a m' v' Hs' (b & l & _ & ->). rewrite Hk in Hs'. cbn in Hs'.
  eexists. split; [exact Hs'|]. constructor; cbn; auto. by intros ->.
Qed.

(** A stop is heeded at once. *)
Lemma frames_stop_on {T} (r : tny_openai_control_request) (k : tny_openai_control_response -> Turn T) :
  kind r <> PERMISSION -> (forall a, frames (k a)) -> frames (a ← control_call H r; stop_on a ;; k a).
Proof.
  intros Hk Hf m v Hs Ho. apply wp_bind. eapply wp_spec; [apply control_spec|exact Hs|done|]. intros a m' v' Hs' (b & l & _ & ->). apply wp_bind.
  assert (exists m'', stop_on a m' = (tt, m'') /\ exists v'', shows m'' v'' /\ eased v v'') as (m'' & E & v'' & Hs'' & He).
  { unfold stop_on. destruct (r_stop a) eqn:Ea; cbn [when].
    - eexists. split; [reflexivity|]. pose proof (fun R => wp_put (fun o => o <| cancelled := true |>) R m' _ Hs') as Hp.
      unfold wp in Hp. cbn [put change fst snd] in Hp. apply (Hp (fun _ m'' => exists v'', shows m'' v'' /\ eased v v'')).
      intros o m'' E1 E2 E3 E4 Hs''. eexists. split; [exact Hs''|]. cbn in *. constructor; cbn; try congruence; auto.
      { intros ->. done. } destruct (kind r); try done; by left.
    - eexists. split; [reflexivity|]. eexists. split; [exact Hs'|]. constructor; cbn; auto.
      { rewrite andb_false_r. by left. } { by intros ->. } destruct (kind r); try done; by left. }
  assert (over_ v'' = false) as Ho'' by (by rewrite (e_over _ _ He)). pose proof (Hf a m'' v'' Hs'' Ho'') as (v3 & Hs3 & He3).
  unfold wp. rewrite E. exists v3. split; [exact Hs3|exact (transitivity He He3)].
Qed.

Lemma frames_stop_last (r : tny_openai_control_request) :
  kind r <> PERMISSION -> frames (a ← control_call H r; stop_on a).
Proof.
  intros Hk m v Hs Ho. pose proof (frames_stop_on r (fun _ => mret tt) Hk (fun _ => frames_ret tt) m v Hs Ho) as X.
  unfold wp, mbind, M_bind in *. destruct (control_call H r m) as [a m']. unfold stop_on, when in *. by destruct (r_stop a).
Qed.

End safe.

#[export] Hint Extern 1 (_ <> PERMISSION) => discriminate : turn_frames.

Ltac frames_step :=
  lazymatch goal with
  | |- frames _ ?f =>
    lazymatch f with
    | mret _ => apply frames_ret
    | look _ => apply frames_look
    | field _ => apply frames_look
    | ask _ => apply frames_ask
    | tell _ => apply frames_tell
    | edit _ => apply frames_edit
    | alloc_failed _ => apply frames_alloc
    | provider_oom _ => apply frames_alloc
    | save _ => apply frames_save
    | emit _ _ => apply frames_emit; exact I
    | emit_error _ _ _ => apply frames_emit; exact I
    | when _ _ => apply frames_when
    | unless_oom _ _ => apply frames_unless
    | each _ _ => apply frames_each; intros ?
    | put _ => apply frames_put; intros ?; cbn; by auto 10
    | control_call _ _ => apply frames_control; reflexivity
    | if ?b then _ else _ => destruct b
    | match ?x with _ => _ end => destruct x
    | control_call _ _ ≫= _ => first
        [ apply frames_stop_last; discriminate | apply frames_stop_on; [discriminate|intros ?]
        | apply frames_bind; [apply frames_control; reflexivity|intros ?] ]
    | _ ≫= _ => apply frames_bind; [|intros ?; cbv beta]
    | _ => solve [eauto 2 with turn_frames nocore]
    end
  end.
Ltac frames := repeat frames_step.

Section between.
Context {W : Type} (H : host W) (cfg : settings) (jparse : bytes -> option jval) (jwrite : jval -> option bytes).

Abbreviation Turn := (M (machine W)).
Abbreviation shows := (shows H).
Abbreviation frames := (frames H).

Lemma frames_log name a b c : frames (log_toolcall (W := W) name a b c).
Proof. unfold log_toolcall. frames. Qed.

#[local] Hint Resolve frames_log : turn_frames.

Lemma frames_record_usage : frames (record_usage H).
Proof. unfold record_usage, field. frames. Qed.

Lemma frames_preview_not_delivered reason : frames (preview_not_delivered H reason).
Proof. unfold preview_not_delivered, emit_error, provider_oom. frames. Qed.

Lemma frames_settle_usage : frames (settle_usage H).
Proof. unfold settle_usage, field, provider_oom. frames. Qed.

Lemma frames_note_repairs n : frames (note_repairs H n).
Proof. unfold note_repairs, field. frames. Qed.

Lemma frames_complete_tool cid name a e x r t : frames (complete_tool H cid name a e x r t).
Proof. unfold complete_tool, emit_tool_end. frames. Qed.

Lemma frames_conn_drop : frames (conn_drop (W := W)).
Proof. unfold conn_drop. frames. Qed.

Lemma frames_permission_block : frames (permission_block (W := W)).
Proof. unfold permission_block. frames. Qed.

Lemma frames_rejected cid name a e x r t : frames (complete_rejected_tool H cid name a e x r t).
Proof. apply frames_complete_tool. Qed.

Lemma frames_reject q name r t : frames (reject H q name r t).
Proof. apply frames_rejected. Qed.

Lemma frames_cancelled_call cid name a : frames (finish_cancelled_call H cid name a).
Proof. apply frames_rejected. Qed.

Lemma frames_pending p word : frames (finish_pending H p word).
Proof. apply frames_rejected. Qed.

Lemma frames_subagent_control k cid c r ok : k <> PERMISSION -> frames (subagent_control H k cid c r ok).
Proof. intros Hk. unfold subagent_control. apply frames_when, frames_stop_last, Hk. Qed.

Lemma frames_flush : frames (tools_flush_images_ex H).
Proof. unfold tools_flush_images_ex. frames. Qed.

#[local] Hint Resolve frames_record_usage frames_preview_not_delivered frames_settle_usage frames_note_repairs frames_complete_tool frames_conn_drop frames_permission_block frames_subagent_control frames_rejected frames_reject frames_cancelled_call frames_pending frames_flush : turn_frames.

Lemma frames_after_execution x : frames (after_execution (W := W) x).
Proof.
  unfold after_execution, execution_control. frames. apply frames_put. intros o. cbn. split_and!; try done. by intros ->.
Qed.

Lemma frames_take_steer : frames (take_steer H).
Proof. unfold take_steer, field. frames. Qed.

Lemma frames_extras : frames (reasoning_extras_json (W := W) jwrite).
Proof.
  intros m v Hs Ho. unfold reasoning_extras_json, wp. destruct (oa_decoder_extras jwrite (decoder (imp m))) as [[d out] rc].
  pose proof (frames_put H (fun o => let o := o <| decoder := d |> in if rc =? TNY_PARSE_OK then o else o <| decode_oom := true |>)) as Hp.
  apply (Hp ltac:(intros o; cbn; destruct (rc =? TNY_PARSE_OK); cbn; auto 10) m v Hs Ho).
Qed.

Lemma frames_add_answer extras : frames (add_answer H jparse extras).
Proof. unfold add_answer, provider_oom, field. frames. Qed.

Lemma frames_classify err st : frames (classify_error (W := W) cfg err st).
Proof. unfold classify_error, field. frames. Qed.

Lemma frames_on_decoded e : frames (on_decoded H cfg e).
Proof. unfold on_decoded. frames. all: apply frames_classify. Qed.

Lemma frames_dispatch (u : machine W) v evs :
  shows u v -> over_ v = false ->
  exists v', shows (fst (StreamDecode.dispatch (fun m e => let '(rc, m') := on_decoded H cfg e m in (m', rc)) u evs)) v' /\ eased v v'.
Proof.
  revert u v. induction evs as [|e evs IH]; intros u v Hs Ho; cbn [StreamDecode.dispatch]; [by exists v|].
  pose proof (frames_on_decoded e u v Hs Ho) as X. unfold wp in X. destruct (on_decoded H cfg e u) as [rc u'].
  destruct X as (v' & Hs' & He). destruct (rc =? 0); [|by exists v'].
  destruct (IH u' v' Hs') as (v'' & Hs'' & He''); [by rewrite (e_over _ _ He)|]. exists v''. split; [done|exact (transitivity He He'')].
Qed.

Lemma frames_decode_document oomed data : frames (decode_document H cfg jparse oomed data).
Proof.
  intros m v Hs Ho. unfold decode_document, oa_decoder_feed, wp. set (cb := fun m e => _).
  set (fin := fun (r : oa_decoder * oa_callset * machine W * Z) => let '(d, cs, m', rc) := r in
    (rc, m' <| imp ::= fun o => o <| decoder := d |> <| calls := cs |> |>)).
  assert (forall m' v' d cs rc, shows m' v' -> eased v v' -> exists v3, shows (snd (fin (d, cs, m', rc))) v3 /\ eased v v3) as Hend.
  { intros m' v' d cs rc Hs' He. pose proof (frames_put H (fun o => o <| decoder := d |> <| calls := cs |>)) as Hp.
    destruct (Hp ltac:(intros o; cbn; auto 10) m' v' Hs') as (v3 & Hs3 & He3); [by rewrite (e_over _ _ He)|].
    exists v3. split; [exact Hs3|exact (transitivity He He3)]. }
  assert (forall s evs cs, exists v3, shows (snd (fin (let '(u, rc) := StreamDecode.dispatch cb m evs in (mk_oa_decoder s rc, cs, u, rc)))) v3 /\ eased v v3) as Hd.
  { intros s evs cs. destruct (frames_dispatch m v evs Hs Ho) as (v' & Hs' & He). fold cb in Hs'.
    destruct (StreamDecode.dispatch cb m evs) as [u rc]. by apply (Hend u v'). }
  destruct (negb (dstatus (decoder (imp m)) =? TNY_PARSE_OK)); [by apply (Hend m v)|].
  destruct oomed as [cs|]; [by apply (Hend m v)|].
  destruct (wire_chat (imp m) && (str_eq data B"[DONE]" || str_eq data B"DONE")); [apply Hd|].
  destruct (jparse data) as [root|]; [|by apply (Hend m v)].
  destruct (if wire_chat (imp m) then _ else _) as [[[s evs] cs]|]; [apply Hd|by apply (Hend m v)].
Qed.

Lemma frames_on_sse_event data : frames (on_sse_event H cfg jparse data).
Proof. unfold on_sse_event. frames. apply frames_decode_document. Qed.
#[local] Hint Resolve frames_on_sse_event : turn_frames.

Lemma frames_sse_events evs p : frames (sse_events H cfg jparse evs p).
Proof. unfold sse_events. frames. apply frames_put. intros o. destruct (Sse.status p); cbn; auto 10. Qed.
#[local] Hint Resolve frames_sse_events : turn_frames.

Lemma sniff_aside piece : aside (sniff_body piece).
Proof.
  intros o. induction piece as [|c piece IH]; cbn [sniff_body]; [by auto 10|]. destruct (_ || _); [done|]. cbn. by auto 10.
Qed.

Lemma frames_take_piece piece : frames (take_piece H cfg jparse piece).
Proof.
  unfold take_piece. frames.
  - apply frames_put. intros o. destruct (body_sniffed o); [by auto 10|apply sniff_aside].
  - apply frames_put. intros o. destruct (_ <=? _); cbn; auto 10.
Qed.

Lemma frames_flush_body : frames (flush_body H cfg jparse).
Proof. unfold flush_body, whole_document, field. frames. Qed.

Lemma frames_error_text info b : frames (error_text (W := W) cfg info b).
Proof. unfold error_text, field. frames. Qed.

Lemma frames_recovery_write : frames (recovery_write H).
Proof. unfold recovery_write, field. frames. Qed.

Lemma frames_stalled : frames (stream_stalled H).
Proof. unfold stream_stalled. frames. Qed.

Lemma frames_stalled_text before after : frames (stalled_text (W := W) before after).
Proof. unfold stalled_text. frames. Qed.

Lemma frames_requests_close : frames (response_requests_close H).
Proof. unfold response_requests_close. frames. Qed.

Lemma frames_take_turn_state status : frames (take_turn_state H cfg status).
Proof. unfold take_turn_state. frames. Qed.

Lemma frames_refuse_direct cid name : frames (refuse_direct H cid name).
Proof. unfold refuse_direct, emit_tool_end. frames. Qed.

#[local] Hint Resolve frames_after_execution frames_take_steer frames_extras frames_add_answer frames_classify frames_error_text
  frames_recovery_write frames_stalled frames_stalled_text frames_requests_close frames_take_turn_state frames_refuse_direct frames_take_piece frames_flush_body : turn_frames.

End between.

#[export] Hint Resolve frames_log frames_record_usage frames_preview_not_delivered frames_settle_usage frames_note_repairs frames_complete_tool frames_conn_drop frames_permission_block frames_subagent_control frames_rejected frames_reject frames_cancelled_call frames_pending frames_flush frames_on_sse_event frames_sse_events frames_after_execution frames_take_steer frames_extras frames_add_answer frames_classify frames_error_text frames_recovery_write frames_stalled frames_stalled_text frames_requests_close frames_take_turn_state frames_refuse_direct frames_take_piece frames_flush_body : turn_frames.
