(* ===== verification/TurnInv.v ===== *)
(** The invariant of the native backend between its entries and within one, and
    the rules that carry it through a program: a triple over what the proofs look
    at, with rules for every effect and for programs in between. *)
From S2P Require Import Prelude Decimal Effects Json JsonValue Perm ToolCalls StreamDecode Errors Transcript ExecControl Turn TurnFrames.

Open Scope Z_scope.

(** ** The invariant *)

(** The parked call may be resumed: the user has decided, or the turn was stopped
    and the call will not run. *)
Definition resumable (p : oa_pending) (v : sight) : Prop :=
  clear_ v = CLEARED (p_call p) \/ (p_decision p = DECISION_DENY /\ clear_ v = OPEN (p_call p)) \/ halted v = true.

Definition resumes (v : sight) : Prop := forall p, parked v = Some p -> resumable p v.

Record sound (v : sight) : Prop := {
  so_over : over_ v = true -> open v = false /\ at_ v = ST_IDLE /\ parked v = None;
  so_closed : open v = false -> over_ v = true \/ refused_ v = true;
  so_stop : stop_ v = true -> halted v = true \/ over_ v = true \/ refused_ v = true }.

(** Between two entries. *)
Definition inv (v : sight) : Prop :=
  sound v /\ forall p, parked v = Some p -> (at_ v = ST_WAIT_PERMISSION /\ clear_ v = OPEN (p_call p)) \/ resumable p v.

(** Within an entry: nothing waits for the user; the turn is not over; nothing
    else is parked than [P]. *)
Definition rest (v : sight) : Prop := sound v /\ resumes v.
Definition ready (v : sight) : Prop := sound v /\ over_ v = false /\ resumes v.
Definition holds (P : option oa_pending) (v : sight) : Prop := sound v /\ over_ v = false /\ parked v = P.

(** The turn is closed and its end not yet told. *)
Definition closing (v : sight) : Prop := open v = false /\ at_ v = ST_IDLE /\ resumes v /\ over_ v = false.

(** No stop is known of, or memory is short. *)
Definition going (v : sight) : Prop := ready v /\ (stop_ v = false \/ refused_ v = true).

Lemma rest_inv v : rest v -> inv v.
Proof. intros [H1 H2]. split; [done|]. auto. Qed.

Lemma ready_rest v : ready v -> rest v.
Proof. intros (H1 & _ & H2). by split. Qed.

Lemma ready_inv v : ready v -> inv v.
Proof. intros (H1 & _ & H2). split; [done|]. auto. Qed.

Lemma going_ready v : going v -> ready v.
Proof. by intros []. Qed.

Lemma holds_ready v : holds None v -> ready v.
Proof. intros (H1 & H2 & H3). split_and!; [done..|]. intros p Hp. congruence. Qed.

Lemma rest_ready v : rest v -> at_ v <> ST_IDLE -> ready v.
Proof. intros [H1 H2] Ha. split_and!; [done| |done]. destruct (over_ v) eqn:E; [|done]. by destruct (so_over v H1 E) as (_ & ? & _). Qed.

Lemma inv_ready v : inv v -> at_ v <> ST_IDLE -> at_ v <> ST_WAIT_PERMISSION -> ready v.
Proof. intros [H1 H2] Hi Hw. apply rest_ready; [|done]. split; [done|]. intros p Hp. by destruct (H2 p Hp) as [[]|]. Qed.

Lemma ready_going v : ready v -> halted v = false -> going v.
Proof.
  intros Hr Hh. split; [done|]. destruct Hr as (Hs & Ho & _). destruct (stop_ v) eqn:E; [|by left].
  destruct (so_stop v Hs E) as [|[|]]; [congruence..|by right].
Qed.

#[export] Hint Resolve rest_inv ready_rest ready_inv going_ready holds_ready : turn_safe.

Lemma sound_eased v v' : sound v -> eased v v' -> sound v'.
Proof.
  intros [H1 H2 H3] [E1 E2 E3 E4 E5 E6 E7 E8 E9]. constructor.
  - by rewrite E4, E1, E2, E3.
  - rewrite E1, E4. intros Ho. destruct (H2 Ho); auto.
  - rewrite E4. intros Hs. destruct (E7 Hs) as [Hs'|[|]]; [|by auto..]. destruct (H3 Hs') as [|[|]]; auto.
Qed.

Lemma resumable_eased p v v' : resumable p v -> eased v v' -> resumable p v'.
Proof.
  intros Hp [_ _ _ _ _ E6 _ _ [E|[c E]]]; unfold resumable in *; rewrite E in *; intuition congruence.
Qed.

Lemma resumes_eased v v' : resumes v -> eased v v' -> resumes v'.
Proof. intros Hr He p Hp. eapply resumable_eased; [|exact He]. apply Hr. by rewrite <- (e_parked _ _ He). Qed.

Class Stable (P : sight -> Prop) : Prop := {
  stable_over : forall v, P v -> over_ v = false;
  stable_eased : forall v v', P v -> eased v v' -> P v' }.

(** A question, with or without memory for it. *)
Definition heard (b l : bool) (v : sight) : sight :=
  mk_sight (open v) (at_ v) (halted v) (parked v) (over_ v) (stop_ v) (settled_ v) (refused_ v || b) (clear_ v) l.

Lemma eased_heard b l v : eased v (heard b l v).
Proof. constructor; cbn; auto. by intros ->. Qed.

#[export] Instance ready_stable : Stable ready.
Proof.
  split; [by intros v (_ & ? & _)|]. intros v v' (H1 & H2 & H3) He.
  split_and!; [by eapply sound_eased|by rewrite (e_over _ _ He)|by eapply resumes_eased].
Qed.
#[export] Instance holds_stable P : Stable (holds P).
Proof.
  split; [by intros v (_ & ? & _)|]. intros v v' (H1 & H2 & H3) He.
  split_and!; [by eapply sound_eased|by rewrite (e_over _ _ He)|by rewrite (e_parked _ _ He)].
Qed.
#[export] Instance closing_stable : Stable closing.
Proof.
  split; [by intros v (_ & _ & _ & Ho)|]. intros v v' (H1 & H2 & H3 & H4) He. split_and!; try (destruct He; congruence).
  by eapply resumes_eased.
Qed.

(** A stop has come that has not been heeded yet. *)
Definition warned (v : sight) : Prop := over_ v = false /\ resumes v /\ (open v = false -> refused_ v = true).

Lemma ready_warned v : ready v -> warned v.
Proof. intros (H1 & H2 & H3). split_and!; [done..|]. intros Ho. destruct (so_closed v H1 Ho); congruence. Qed.
#[export] Hint Resolve ready_warned : turn_safe.

Lemma warned_refused v : warned v -> refused_ v = true -> ready v.
Proof. intros (H1 & H2 & H3) Hr. split_and!; [|done..]. constructor; auto. congruence. Qed.

Lemma warned_short v : warned v -> ready (short v).
Proof. intros (H1 & H2 & H3). by apply warned_refused. Qed.

#[export] Instance warned_stable : Stable warned.
Proof.
  split; [by intros v (? & _)|]. intros v v' (H1 & H2 & H3) He.
  split_and!; [by rewrite (e_over _ _ He)|by eapply resumes_eased|]. rewrite (e_open _ _ He). intros Ho. by apply (e_refused _ _ He), H3.
Qed.

(** A call that is open or cleared stays so. *)
Definition holds_at (P : option oa_pending) (cl : clearance) (v : sight) : Prop := holds P v /\ clear_ v = cl.

Lemma holds_at_holds P cl v : holds_at P cl v -> holds P v.
Proof. by intros []. Qed.
#[export] Hint Resolve holds_at_holds : turn_safe.

Definition recleared (cl : clearance) (v : sight) : sight :=
  mk_sight (open v) (at_ v) (halted v) (parked v) (over_ v) (stop_ v) (settled_ v) (refused_ v) cl (last_ v).

Lemma holds_recleared P cl v : holds P v -> holds_at P cl (recleared cl v).
Proof. intros (Hs & Ho & Hp). split; [|done]. split_and!; [by destruct Hs; constructor|done|done]. Qed.

Class Steady (cl : clearance) : Prop := steady c : cl <> PREPARED c.
#[export] Instance steady_uncleared : Steady UNCLEARED := fun _ => ltac:(discriminate).
#[export] Instance steady_open c : Steady (OPEN c) := fun _ => ltac:(discriminate).
#[export] Instance steady_cleared c : Steady (CLEARED c) := fun _ => ltac:(discriminate).
#[export] Instance holds_at_stable P cl `{!Steady cl} : Stable (holds_at P cl).
Proof.
  split; [by intros v [[_ [? _]] _]|]. intros v v' [H1 H2] He. split; [by eapply stable_eased|].
  destruct (e_clear _ _ He) as [->|[c Ec]]; [done|]. by destruct (steady c); rewrite <- H2.
Qed.

#[export] Instance parked_stable P X `{!Stable P} : Stable (fun v => P v /\ parked v = X).
Proof.
  split; [by intros v [H%stable_over _]|]. intros v v' [H1 H2] He. split; [by eapply stable_eased|by rewrite (e_parked _ _ He)].
Qed.

(** The place may change, a stop may be noted. *)
Definition moved (a : oa_state) (h : bool) (v : sight) : sight :=
  mk_sight (open v) a h (parked v) (over_ v) (stop_ v) (settled_ v) (refused_ v) (clear_ v) (last_ v).

Class Roams (P : sight -> Prop) : Prop := roams a h v : P v -> (halted v = true -> h = true) -> P (moved a h v).

Lemma sound_moved a h v : sound v -> over_ v = false -> (halted v = true -> h = true) -> sound (moved a h v).
Proof. intros [H1 H2 H3] Ho Hh. constructor; cbn; [congruence|auto|]. intros Hs. destruct (H3 Hs) as [|[|]]; auto. Qed.

#[export] Instance ready_roams : Roams ready.
Proof.
  intros a h v (H1 & H2 & H3) Hh. split_and!; [by apply sound_moved|done|]. intros p Hp. specialize (H3 p Hp).
  unfold resumable in *. cbn. intuition.
Qed.
#[export] Instance warned_roams : Roams warned.
Proof.
  intros a h v (H1 & H2 & H3) Hh. split_and!; [done| |done]. intros p Hp. specialize (H2 p Hp). unfold resumable in *. cbn. intuition.
Qed.
#[export] Instance holds_roams P : Roams (holds P).
Proof. intros a h v (H1 & H2 & H3) Hh. split_and!; [by apply sound_moved|done|done]. Qed.
#[export] Instance holds_at_roams P cl : Roams (holds_at P cl).
Proof. intros a h v [H1 H2] Hh. split; [by apply roams|done]. Qed.

#[export] Instance going_roams : Roams going.
Proof. intros a h v [H1 H2] Hh. split; [by apply roams|done]. Qed.

(** Memory running short only helps. *)
Class Short (P : sight -> Prop) : Prop := shortly v : P v -> P (short v).
#[export] Instance stable_short P `{!Stable P} : Short P.
Proof. intros v HP. eapply stable_eased; [exact HP|]. constructor; cbn; auto. Qed.
#[export] Instance going_short : Short going.
Proof. intros v [H1 H2]. split; [by apply (shortly (P := ready))|by right]. Qed.
#[export] Instance holds_at_short P cl : Short (holds_at P cl).
Proof. intros v [H1 H2]. split; [by apply (shortly (P := holds P))|done]. Qed.
#[export] Instance rest_short : Short rest.
Proof. intros v [[H1 H2 H3] H4]. split; [|exact H4]. constructor; cbn; auto. Qed.

Lemma closing_short v : closing v -> rest (short v).
Proof. intros (H1 & H2 & H3 & H4). split; [|exact H3]. constructor; cbn; auto. by rewrite H4. Qed.

Section safe.
Context {W : Type} (H : host W) (cfg : settings) (jparse : bytes -> option jval) (jwrite : jval -> option bytes).

Abbreviation Turn := (M (machine W)).
Abbreviation shows := (shows H).
Abbreviation frames := (frames H).
Abbreviation spec := (spec H).

(** ** Rules *)

Definition hoare {A} (P : sight -> Prop) (f : Turn A) (Q : A -> sight -> Prop) : Prop := spec P f (fun _ => Q).

Lemma hoare_ret {A} (P : sight -> Prop) (a : A) (Q : A -> sight -> Prop) : (forall v, P v -> Q a v) -> hoare P (mret a) Q.
Proof. intros HQ m v Hs HP. apply wp_ret. exists v. auto. Qed.

Lemma hoare_bind {A T} P (f : Turn A) Q (k : A -> Turn T) R : hoare P f Q -> (forall a, hoare (Q a) (k a) R) -> hoare P (f ≫= k) R.
Proof.
  intros Hf Hk m v Hs HP. apply wp_bind. eapply wp_spec; [exact Hf|exact Hs|exact HP|]. intros a m' v' Hs' HQ. by apply (Hk a m' v').
Qed.

Lemma hoare_value {A T} P (a : A) (k : A -> Turn T) R : hoare P (k a) R -> hoare P (mret a ≫= k) R.
Proof. done. Qed.

Lemma hoare_assoc {A T U} P (f : Turn A) (g : A -> Turn T) (k : T -> Turn U) R :
  hoare P (f ≫= fun a => g a ≫= k) R -> hoare P ((f ≫= g) ≫= k) R.
Proof. intros Hf m v Hs HP. pose proof (Hf m v Hs HP) as X. unfold wp, mbind, M_bind in *. by destruct (f m) as [a m']. Qed.

Lemma hoare_frames {A} P (f : Turn A) `{!Stable P} : frames f -> hoare P f (fun _ => P).
Proof.
  intros Hf m v Hs HP. eapply wp_spec; [exact Hf|exact Hs|by apply stable_over|]. intros a m' v' Hs' He.
  exists v'. split; [done|]. by eapply stable_eased.
Qed.

Lemma hoare_weaken {A} (P P' : sight -> Prop) (f : Turn A) (Q Q' : A -> sight -> Prop) :
  hoare P' f Q' -> (forall v, P v -> P' v) -> (forall a v, Q' a v -> Q a v) -> hoare P f Q.
Proof.
  intros Hf HP HQ m v Hs Hv. eapply wp_spec; [exact Hf|exact Hs|by apply HP|]. intros a m' v' Hs' Hv'. exists v'. split; [done|]. by apply HQ.
Qed.

Lemma hoare_pre {A} (P P' : sight -> Prop) (f : Turn A) Q : hoare P' f Q -> (forall v, P v -> P' v) -> hoare P f Q.
Proof. intros Hf HP. by eapply hoare_weaken. Qed.

Lemma hoare_frame {A T} P (f : Turn A) (k : A -> Turn T) R `{!Stable P} : frames f -> (forall a, hoare P (k a) R) -> hoare P (f ≫= k) R.
Proof. intros Hf Hk. eapply hoare_bind; [by apply hoare_frames|exact Hk]. Qed.

(** What the state says. *)
Definition reads (o : oa_impl) (v : sight) : Prop :=
  open v = turn_open o /\ at_ v = state o /\ halted v = cancelled o /\ parked v = permission o.

Lemma hoare_field {A T} P (g : oa_impl -> A) (k : A -> Turn T) R :
  (forall o, hoare (fun v => P v /\ reads o v) (k (g o)) R) -> hoare P (field g ≫= k) R.
Proof.
  intros Hk m v Hs HP. apply wp_bind, wp_look. apply (Hk (imp m) m v Hs). split; [done|]. destruct Hs as [<- _ _ _]. by split_and!.
Qed.

Lemma hoare_imp {T} P (k : oa_impl -> Turn T) R :
  (forall o, hoare (fun v => P v /\ reads o v) (k o) R) -> hoare P (look (@imp W) ≫= k) R.
Proof. exact (hoare_field P (fun o => o) k R). Qed.

Definition replaced (o : oa_impl) (v : sight) : sight :=
  mk_sight (turn_open o) (state o) (cancelled o) (permission o) (over_ v) (stop_ v) (settled_ v) (refused_ v) (clear_ v) (last_ v).

Lemma hoare_put (P : sight -> Prop) f (R : unit -> sight -> Prop) :
  (forall o v, P v -> reads o v -> R tt (replaced (f o) v)) -> hoare P (put f) R.
Proof.
  intros HR m v Hs HP. eapply wp_put; [exact Hs|]. intros o m' E1 E2 E3 E4 Hs'. eexists. split; [exact Hs'|]. by apply HR.
Qed.

Lemma sound_replaced o v :
  sound v -> over_ v = false -> turn_open o = open v -> (halted v = true -> cancelled o = true) -> sound (replaced o v).
Proof.
  intros [H1 H2 H3] Ho E Hh. constructor; cbn; [congruence|rewrite E; auto|]. intros Hs. destruct (H3 Hs) as [|[|]]; auto.
Qed.

(** Programs that set anything but the turn and what is parked. *)
Definition mild (f : oa_impl -> oa_impl) : Prop := forall o,
  turn_open (f o) = turn_open o /\ permission (f o) = permission o /\ (cancelled o = true -> cancelled (f o) = true).

Lemma hoare_mild P f `{!Roams P} : mild f -> hoare P (put f) (fun _ => P).
Proof.
  intros Hf. apply hoare_put. intros o v HP (E1 & E2 & E3 & E4). destruct (Hf o) as (F1 & F2 & F3).
  replace (replaced (f o) v) with (moved (state (f o)) (cancelled (f o)) v).
  - apply roams; [done|]. by rewrite E3.
  - unfold replaced, moved. by rewrite F1, F2, E1, E4.
Qed.

Lemma hoare_untouched (P : sight -> Prop) f :
  (forall o, turn_open (f o) = turn_open o /\ state (f o) = state o /\ cancelled (f o) = cancelled o /\ permission (f o) = permission o) ->
  hoare P (put f) (fun _ => P).
Proof.
  intros Hf. apply hoare_put. intros o v HP (E1 & E2 & E3 & E4). destruct (Hf o) as (F1 & F2 & F3 & F4).
  unfold replaced. rewrite F1, F2, F3, F4, <- E1, <- E2, <- E3, <- E4. by destruct v.
Qed.

Lemma hoare_note (P : sight -> Prop) i (R : unit -> sight -> Prop) :
  match i with Requested ms => well_paired ms | Asked _ _ => False | _ => True end -> (forall v, P v -> ok_event v i /\ ok_action v i /\ R tt (noted i v)) -> hoare P (note i) R.
Proof.
  intros Hi HR m v Hs HP. destruct (HR v HP) as (H1 & H2 & H3). eapply wp_note; [exact Hs|by destruct i|done|by split; [|destruct i]|]. intros m' Hs'. by eexists.
Qed.

Lemma hoare_tell (P : sight -> Prop) f : hoare P (tell f) (fun _ => P).
Proof. intros m v Hs HP. eapply wp_tell; [exact Hs|]. intros m' Hs'. by exists v. Qed.

Lemma hoare_edit (P : sight -> Prop) f : hoare P (edit f) (fun _ => P).
Proof. intros m v Hs HP. eapply wp_edit; [exact Hs|]. intros m' Hs'. by exists v. Qed.

Lemma hoare_ask {A} (P : sight -> Prop) (f : W -> A * W) : hoare P (ask f) (fun _ => P).
Proof. intros m v Hs HP. eapply wp_ask; [exact Hs|]. intros a m' Hs'. by exists v. Qed.

Lemma hoare_look {A} (P : sight -> Prop) (f : machine W -> A) : hoare P (look f) (fun _ => P).
Proof. intros m v Hs HP. apply wp_look. by exists v. Qed.

Lemma hoare_alloc (P : sight -> Prop) (Q : bool -> sight -> Prop) :
  (forall v, P v -> Q false v) -> (forall v, P v -> Q true (short v)) -> hoare P (alloc_failed H) Q.
Proof. intros H1 H2 m v Hs HP. eapply wp_alloc; [exact Hs| |]; intros m' Hs'; (eexists; split; [exact Hs'|]); auto. Qed.

Lemma hoare_mem (P : sight -> Prop) `{!Short P} : hoare P (alloc_failed H) (fun _ => P).
Proof. apply hoare_alloc; [done|]. intros v. apply shortly. Qed.

Lemma hoare_mem_warned {A} (k0 k1 : Turn A) R :
  hoare ready k0 R -> hoare warned k1 R -> hoare warned (failed ← alloc_failed H; if failed : bool then k0 else k1) R.
Proof.
  intros H0 H1. eapply (hoare_bind _ _ (fun b : bool => if b then ready else warned)); [apply hoare_alloc; [done|exact warned_short]|].
  by intros [].
Qed.

(** [k] is left out when memory is short. *)
Lemma hoare_unless (P R : sight -> Prop) k :
  (forall v, P v -> R (short v)) -> hoare P k (fun _ => R) -> hoare P (unless_oom H k) (fun _ => R).
Proof.
  intros HR Hk. unfold unless_oom, provider_oom. eapply (hoare_bind _ _ (fun b : bool => if b then R else P)).
  - by apply hoare_alloc.
  - intros []; [by apply hoare_ret|exact Hk].
Qed.

Lemma hoare_control (r : tny_openai_control_request) (P : sight -> Prop) (Q : tny_openai_control_response -> sight -> Prop) :
  (forall a v b l, P v -> l = r_stop a \/ b = true ->
     Q a (mk_sight (open v) (at_ v) (halted v) (parked v) (over_ v) (binding (kind r) && r_stop a || stop_ v)
            (settled_ v) (refused_ v || b) (match kind r with PERMISSION => after_permission a (clear_ v) | _ => clear_ v end) l)) ->
  hoare P (control_call H r) Q.
Proof.
  intros HQ m v Hs HP. eapply wp_spec; [apply control_spec|exact Hs|done|]. intros a m' v' Hs' (b & l & Hl & ->). eexists. split; [exact Hs'|]. by apply HQ.
Qed.

(** Any event but the end of the turn. *)
Lemma hoare_emit (P : sight -> Prop) e :
  (forall v, P v -> over_ v = false) -> match e with EV_TURN_END _ => False | _ => True end -> hoare P (emit H e) (fun _ => P).
Proof.
  intros HP He. eapply hoare_bind; [apply hoare_tell|]. intros []. cbv beta. apply hoare_note; [done|]. intros v Hv.
  split_and!; [by left; apply HP|done|]. replace (noted (Emitted e) v) with v; [done|]. by destruct v, e.
Qed.

Lemma unless_inv k : hoare ready k (fun _ => inv) -> hoare ready (unless_oom H k) (fun _ => inv).
Proof. intros Hk. apply hoare_unless; [|exact Hk]. intros v Hv. by apply ready_inv, shortly. Qed.

(** A question whose stop is to be heeded. *)
Lemma hoare_heed (r : tny_openai_control_request) :
  kind r <> PERMISSION -> hoare ready (control_call H r) (fun a v => if r_stop a then warned v else ready v).
Proof.
  intros Hk. apply hoare_control. intros a v b l (H1 & H2 & H3) _.
  replace (match kind r with PERMISSION => after_permission a (clear_ v) | _ => clear_ v end) with (clear_ v) by (by destruct (kind r)).
  destruct (r_stop a); cbn.
  - split_and!; [done..|]. intros Ho. destruct (so_closed v H1 Ho) as [|Hr]; [congruence|]. cbn. by rewrite Hr.
  - rewrite andb_false_r. apply (stable_eased v (heard b l v)); [by split_and!|apply eased_heard].
Qed.

Lemma hoare_when (P : sight -> Prop) (R : unit -> sight -> Prop) b (f : Turn unit) :
  (b = true -> hoare P f R) -> (b = false -> forall v, P v -> R tt v) -> hoare P (when b f) R.
Proof. intros H1 H2. destruct b; [by apply H1|]. apply hoare_ret. by apply H2. Qed.

(** A check for a stop. *)
Lemma unstopped {A} (k : bool -> Turn A) R :
  hoare ready (k true) R -> hoare going (k false) R -> hoare ready (field cancelled ≫= k) R.
Proof.
  intros H1 H2. apply hoare_field. intros o. destruct (cancelled o) eqn:E.
  - eapply hoare_weaken; [exact H1|by intros v []|done].
  - eapply hoare_weaken; [exact H2| |done]. intros v [Hv (_ & _ & Eh & _)]. apply ready_going; [done|congruence].
Qed.

End safe.

(** A step of a program for a triple: what lies in between, a triple that is
    known, a branch. *)
Create HintDb turn_specs discriminated.
#[export] Hint Constants Opaque : turn_specs.

Ltac readily := apply (hoare_pre _ _ ready); [|by eauto with turn_safe].
Ltac mild :=
  intros ?; first [cbn; by auto 10 | match goal with |- context [if ?b then _ else _] => destruct b end; cbn; by auto 10].
Ltac hoare_step :=
  lazymatch goal with
  | |- hoare _ _ (mret _) _ => apply hoare_ret; solve [eauto with turn_safe]
  | |- hoare _ _ (if ?b then _ else _) _ => destruct b
  | |- hoare _ _ (match ?x with _ => _ end) _ => destruct x
  | |- hoare _ ready (unless_oom _ _) _ => apply unless_inv
  | |- hoare _ _ (note _ ≫= _) _ => fail
  | |- hoare _ _ (provider_control _ _ _ _ ≫= _) _ => fail
  | |- hoare _ _ (mret _ ≫= _) _ => apply hoare_value; cbv beta
  | |- hoare _ warned (alloc_failed _ ≫= _) _ => apply hoare_mem_warned
  | |- hoare _ warned (provider_oom _ ≫= _) _ => apply hoare_mem_warned
  | |- hoare _ _ (alloc_failed _ ≫= _) _ => eapply hoare_bind; [apply hoare_mem; typeclasses eauto|intros ?; cbv beta]
  | |- hoare _ _ (provider_oom _ ≫= _) _ => eapply hoare_bind; [apply hoare_mem; typeclasses eauto|intros ?; cbv beta]
  | |- hoare _ _ (ask _ ≫= _) _ => eapply hoare_bind; [apply hoare_ask|intros ?; cbv beta]
  | |- hoare _ _ (look _ ≫= _) _ => eapply hoare_bind; [apply hoare_look|intros ?; cbv beta]
  | |- hoare _ ready (field cancelled ≫= _) _ => apply unstopped; cbn [negb orb andb]
  | |- hoare _ (holds_at _ _) (field cancelled ≫= _) _ => fail
  | |- hoare _ _ (field _ ≫= _) _ => eapply hoare_bind; [apply hoare_look|intros ?; cbv beta]
  | |- hoare _ _ (edit _ ≫= _) _ => eapply hoare_bind; [apply hoare_edit|intros ?; cbv beta]
  | |- hoare _ _ (tell _ ≫= _) _ => eapply hoare_bind; [apply hoare_tell|intros ?; cbv beta]
  | |- hoare _ _ (put _ ≫= _) _ => eapply hoare_bind; [apply hoare_mild; [typeclasses eauto|mild]|intros ?; cbv beta]
  | |- hoare _ _ (put _) _ => eapply hoare_weaken; [apply hoare_mild; [|mild]; typeclasses eauto|done|by eauto with turn_safe]
  | |- hoare _ _ (_ ≫= _) _ =>
    first [ apply hoare_frame; [typeclasses eauto|by frames|intros ?]
          | eapply hoare_bind; [solve [eauto 2 with turn_specs nocore]|intros ?; cbv beta]
          | lazymatch goal with
            | |- hoare _ _ ((if ?b then _ else _) ≫= _) _ => destruct b
            | |- hoare _ _ ((match ?x with _ => _ end) ≫= _) _ => destruct x
            | |- hoare _ _ ((_ ≫= _) ≫= _) _ => apply hoare_assoc; cbv beta
            | |- hoare _ going _ _ => readily
            end ]
  | |- hoare _ _ _ _ => eapply hoare_weaken; [solve [eauto 2 with turn_specs nocore]|by eauto with turn_safe|by eauto with turn_safe]
  end.
Ltac walk := repeat hoare_step.
