(* ===== verification/TurnSafe.v ===== *)
(** What every turn of the native backend respects, whatever the provider, the
    extensions, the user, the tools and the memory do: it ends once, nothing runs
    or is sent after its end or after a stop that binds, and no tool runs that was
    not cleared. *)
From S2P Require Import Prelude Decimal Effects Json JsonText JsonValue Perm Sse ToolCalls StreamDecode Errors Transcript WorkingView ExecControl Turn TurnFrames TurnInv.

Open Scope Z_scope.

Section safe.
Context {W : Type} (H : host W) (cfg : settings) (jparse : bytes -> option jval) (jwrite : jval -> option bytes).
Abbreviation shows := (shows H).
Abbreviation hoare := (hoare H).

(** ** The end of a turn *)

Lemma settle_spec : hoare closing (settle_usage H) (fun ok v => if ok : bool then closing v else rest v).
Proof.
  unfold settle_usage, provider_oom. apply hoare_frame; [apply _|unfold field; by frames|intros u].
  destruct (u_requests u =? 0); [by apply hoare_ret|]. do 2 (apply hoare_frame; [apply _|unfold field; by frames|intros ?]).
  eapply (hoare_bind _ _ _ (fun b : bool => if b then rest else closing)); [apply hoare_alloc; [done|apply closing_short]|].
  intros []; [by apply hoare_ret|]. apply hoare_frame; [apply _|by frames|intros _].
  eapply (hoare_bind _ _ _ (fun b : bool => if b then rest else closing)); [apply hoare_alloc; [done|apply closing_short]|].
  intros []; by apply hoare_ret.
Qed.

Lemma emit_turn_end_warned stop : hoare warned (emit_turn_end H stop) (fun _ => rest).
Proof.
  unfold emit_turn_end. apply hoare_unless; [intros v Hv; by apply ready_rest, warned_short|]. apply hoare_field. intros o.
  apply hoare_when; [intros _|intros Ho v [Hv (E & _)]; apply ready_rest, warned_refused; [done|]; apply Hv; congruence].
  eapply (hoare_bind _ _ _ (fun _ => closing)).
  { apply hoare_put. intros o' v [(H1 & H2 & H3) _] (E1 & E2 & E3 & E4). split_and!; try done. intros p. cbn. rewrite <- E4. intros Hp.
    specialize (H2 p Hp). unfold resumable in *. cbn. by rewrite <- E3. }
  intros _. apply hoare_frame; [apply _|by frames|intros _]. apply hoare_unless; [apply closing_short|].
  apply hoare_frame; [apply _|by frames|intros _]. apply hoare_unless; [apply closing_short|].
  eapply hoare_bind; [apply settle_spec|]. intros settled. apply hoare_when; [intros ->|by intros ->].
  eapply (hoare_bind _ _ _ (fun _ v => closing v /\ parked v = None)).
  { apply hoare_put. intros o' v (H1 & H2 & H3 & H4) (E1 & E2 & E3 & E4). split; [split_and!; cbn; congruence || by intros p|done]. }
  intros _. apply hoare_frame; [apply _|unfold field; by frames|intros parked].
  apply hoare_frame; [apply _|by frames|intros _]. apply hoare_frame; [apply _|by frames|intros _].
  unfold emit. eapply hoare_bind; [apply hoare_tell|]. intros []. cbv beta. apply hoare_note; [done|]. intros v [(H1 & H2 & H3 & H4) H5].
  split_and!; [by left|done|]. split; [constructor; cbn; auto|]. intros p Hp. cbn in Hp. congruence.
Qed.

Lemma emit_turn_end_spec stop : hoare ready (emit_turn_end H stop) (fun _ => rest).
Proof. eapply hoare_pre; [apply emit_turn_end_warned|apply ready_warned]. Qed.
#[local] Hint Resolve emit_turn_end_warned emit_turn_end_spec : turn_specs.

Lemma schedule_retry_spec what hint : hoare ready (schedule_retry H what hint) (fun _ => ready).
Proof. unfold schedule_retry, provider_oom, field. walk. Qed.
#[local] Hint Resolve schedule_retry_spec : turn_specs.

Lemma fail_turn_spec kind msg : hoare ready (fail_turn H kind msg) (fun _ => rest).
Proof. unfold fail_turn, emit_error. walk. Qed.
#[local] Hint Resolve fail_turn_spec : turn_specs.

(** ** Requests *)

(** What starting a request leaves, by its code. *)
Definition posted (r : Z * bytes) (v : sight) : Prop := rest v /\ (r.1 <> 0 -> r.1 <> -2 -> ready v).

Lemma ready_posted r v : ready v -> posted r v.
Proof. intros Hr. split; [by apply ready_rest|done]. Qed.
#[local] Hint Resolve ready_posted : turn_safe.

Lemma note_repairs_spec n : hoare going (note_repairs H n) (fun _ => going).
Proof.
  unfold note_repairs. hoare_step. apply hoare_when; [intros _|done]. hoare_step. apply hoare_emit; [|done]. by intros v [(_ & ? & _) _].
Qed.
#[local] Hint Resolve note_repairs_spec : turn_specs.

Lemma continuation_accepted view partial : well_paired view -> well_paired (oa_view_append_continuation view partial).
Proof.
  intros Hv. unfold oa_view_append_continuation. destruct (c_str partial) as [|c t]; [done|]. apply well_paired_app; [done|].
  apply (paired_group _ [] [] _); [by split_and!; [eexists|..]|apply answers_nil|].
  apply (paired_group _ [] [] _); [by split_and!; [eexists|..]|apply answers_nil|constructor].
Qed.

Lemma build_request_spec : hoare going (build_request H cfg jwrite) (fun _ => going).
Proof.
  unfold build_request. hoare_step. destruct (session_working_view _ _ _ _ _ _) as [[view|] repairs] eqn:Ev; [|walk].
  apply working_view_accepted in Ev; [|done]. walk. eapply (hoare_bind _ _ _ (fun _ => going)); [|intros []; apply hoare_ask]. apply hoare_note.
  - cbn. destruct (continuing _); [by apply continuation_accepted|done].
  - intros v Hv. split_and!; [done| |by destruct v]. destruct Hv as [(_ & Ho & _) Hs]. by split.
Qed.
#[local] Hint Resolve build_request_spec : turn_specs.


Lemma interrupted_spec : hoare ready (interrupted H) posted.
Proof. unfold interrupted. hoare_step. apply hoare_ret. intros v Hv. by split. Qed.
#[local] Hint Resolve interrupted_spec : turn_specs.

Lemma open_connection_spec : hoare going (open_connection H) (fun _ => going).
Proof. unfold open_connection. walk. Qed.
#[local] Hint Resolve open_connection_spec : turn_specs.

Lemma finish_send_spec rc : hoare ready (finish_send H rc) posted.
Proof.
  unfold finish_send, request_oom. walk. destruct (rc =? -2) eqn:E; cbn [when].
  - apply Z.eqb_eq in E as ->. eapply (hoare_bind _ _ _ (fun _ => rest)); [unfold emit_error; walk|]. intros []. apply hoare_ret. by split.
  - walk.
Qed.
#[local] Hint Resolve finish_send_spec : turn_specs.

Lemma heeded (v : sight) : warned v -> forall o, reads o v -> ready (replaced (o <| cancelled := true |>) v).
Proof.
  intros (Ho & Hr & Hc) o (E1 & E2 & E3 & E4). split_and!; [|done|by right; right].
  constructor; cbn; [congruence| |auto]. rewrite <- E1. auto.
Qed.

(** The request may go out: the last answer was no stop. *)
Definition sending (v : sight) : Prop := going v /\ (last_ v = false \/ refused_ v = true).

Lemma sending_going v : sending v -> going v.
Proof. by intros []. Qed.
#[local] Hint Resolve sending_going : turn_safe.

Lemma send_request_spec : hoare sending (send_request H) (fun _ => going).
Proof.
  unfold send_request. walk. eapply (hoare_bind _ _ _ (fun _ => going)); [|intros []; by apply hoare_ret].
  apply hoare_note; [done|]. intros v [Hg Hl]. pose proof Hg as [(_ & Ho & _) Hs]. split_and!; [done| |by destruct v].
  split; [done|]. destruct Hs as [Hs|]; [|by right]. destruct Hl as [Hl|]; [by left|by right].
Qed.
#[local] Hint Resolve send_request_spec : turn_specs.

Lemma provider_request_spec st :
  hoare going (provider_control H cfg PROVIDER_REQUEST st) (fun a v => if r_stop a then warned v else sending v).
Proof.
  unfold provider_control. apply (hoare_bind _ _ _ (fun _ => going)); [apply hoare_look|]. intros o. apply hoare_control.
  intros a v b l [(H1 & H2 & H3) H4] Hl. destruct (r_stop a); cbn.
  - split_and!; [done..|]. intros Ho. destruct (so_closed v H1 Ho) as [|Hr]; [congruence|]. cbn. by rewrite Hr.
  - split; [|cbn; destruct Hl as [->| ->]; rewrite ?orb_true_r; auto]. split; [|cbn; destruct H4 as [|Hr]; [by left|right; by rewrite Hr]].
    apply (stable_eased v (heard b l v)); [by split_and!|apply eased_heard].
Qed.

(** The last question before something is sent. *)
Lemma asked_to_send {A} st (k0 k1 k2 : M (machine W) A) R :
  hoare ready k0 R -> hoare ready k1 R -> hoare sending k2 R ->
  hoare going (a ← provider_control H cfg PROVIDER_REQUEST st; failed ← alloc_failed H;
    if failed : bool then k0
    else stopped ← field cancelled;
         if r_stop a || stopped then put (fun o => o <| cancelled := true |>) ;; k1 else k2) R.
Proof.
  intros H0 H1 H2. eapply hoare_bind; [apply provider_request_spec|]. intros a. cbv beta.
  eapply (hoare_bind _ _ _ (fun b v => if b : bool then ready v else if r_stop a then warned v else sending v)).
  { apply hoare_alloc; [done|]. intros v. destruct (r_stop a); [apply warned_short|]. intros Hv%sending_going. by apply going_ready, shortly. }
  intros []; [done|]. destruct (r_stop a); cbn [orb].
  - hoare_step. eapply (hoare_bind _ _ _ (fun _ => ready)); [|by intros []].
    apply hoare_put. intros o v Hw Hr. by apply heeded.
  - apply hoare_field. intros o. destruct (cancelled o) eqn:E.
    + eapply (hoare_bind _ _ _ (fun _ => ready)); [|by intros []].
      eapply hoare_weaken; [apply (hoare_mild _ ready); [apply _|mild]|by intros v [[[] _] _]|done].
    + eapply hoare_weaken; [exact H2|by intros v []|done].
Qed.

(** A question whose stop is heeded next. *)
Lemma provider_response_spec st :
  hoare ready (provider_control H cfg PROVIDER_RESPONSE st) (fun a v => if r_stop a then warned v else ready v).
Proof. unfold provider_control. hoare_step. by apply hoare_heed. Qed.

Lemma stop_on_spec a : hoare (fun v => if r_stop a then warned v else ready v) (stop_on (W := W) a) (fun _ => ready).
Proof. unfold stop_on. destruct (r_stop a); cbn [when]; [|by apply hoare_ret]. apply hoare_put. intros o v Hw Hr. by apply heeded. Qed.

Lemma response_heeded {A} st (k : tny_openai_control_response -> M (machine W) A) R :
  (forall a, hoare ready (k a) R) -> hoare ready (a ← provider_control H cfg PROVIDER_RESPONSE st; stop_on a ;; k a) R.
Proof.
  intros Hk. eapply hoare_bind; [apply provider_response_spec|]. intros a. cbv beta.
  eapply hoare_bind; [apply stop_on_spec|]. by intros [].
Qed.

Lemma send_again_spec :
  hoare ready (send_again H cfg) (fun r v => match r with inl _ => ready v | inr r => posted r v end).
Proof.
  unfold send_again, request_oom. apply response_heeded. intros _. walk.
  apply asked_to_send; [walk..|]. walk. readily.
  eapply hoare_bind; [apply provider_response_spec|]. intros r. cbv beta. eapply hoare_bind; [apply stop_on_spec|]. intros []. walk.
Qed.
#[local] Hint Resolve send_again_spec : turn_specs.

Lemma submit_spec : hoare going (submit H cfg jwrite) posted.
Proof.
  unfold submit, request_oom. walk. apply asked_to_send; walk.
Qed.
#[local] Hint Resolve submit_spec : turn_specs.

Lemma start_post_mode_spec retry : hoare ready (start_post_mode H cfg jwrite retry) posted.
Proof.
  unfold start_post_mode. walk. apply hoare_ret. by split.
Qed.
#[local] Hint Resolve start_post_mode_spec : turn_specs.

Lemma start_post_spec : hoare ready (start_post H cfg jwrite) posted.
Proof. unfold start_post. walk. Qed.

Lemma posted_rest r v : posted r v -> rest v.
Proof. by intros []. Qed.
#[local] Hint Resolve posted_rest : turn_safe.

(** What follows a request, by its code. *)
Lemma after_post {A} (lost : M (machine W) A) (failed : bytes -> M (machine W) A) (went : M (machine W) A) R :
  hoare rest lost R -> (forall err, hoare ready (failed err) R) -> hoare rest went R ->
  hoare ready ('(rc, err) ← start_post H cfg jwrite;
    if rc =? -2 then lost else if negb (rc =? 0) then failed err else went) R.
Proof.
  intros H1 H2 H3. eapply hoare_bind; [apply start_post_spec|]. intros [rc err]. cbv beta.
  destruct (rc =? -2) eqn:E1; [eapply hoare_pre; [exact H1|by intros v []]|].
  destruct (rc =? 0) eqn:E2; cbn [negb]; [eapply hoare_pre; [exact H3|by intros v []]|].
  eapply hoare_pre; [apply H2|]. apply Z.eqb_neq in E1, E2. intros v [_ Hr]. by apply Hr.
Qed.

(** ** Batches *)

Lemma next_request_spec had : hoare ready (next_request H cfg jwrite had) (fun _ => rest).
Proof.
  unfold next_request. walk. apply after_post; [walk|intros err; unfold emit_error; walk|].
  apply hoare_field. intros o. destruct (had && negb (bool_decide (state o = ST_IDLE))) eqn:E; [|apply hoare_ret; by intros v []].
  apply andb_true_iff in E as [_ E]. rewrite negb_true_iff, bool_decide_eq_false in E.
  apply (hoare_pre _ _ ready); [|intros v [Hr (_ & Ea & _)]; apply rest_ready; congruence]. walk.
Qed.
#[local] Hint Resolve next_request_spec : turn_specs.

Lemma tool_batch_control_spec : hoare ready (tool_batch_control H) (fun b v => if b : bool then warned v else ready v).
Proof.
  unfold tool_batch_control. walk. eapply hoare_bind; [by apply hoare_heed|]. intros r. cbv beta. by apply hoare_ret.
Qed.

(** The batch is closed. *)
Lemma close_batch P (f : oa_impl -> oa_impl) : P = ready \/ P = warned ->
  (forall o, turn_open (f o) = turn_open o /\ state (f o) = state o /\ cancelled (f o) = cancelled o /\ permission (f o) = None) ->
  hoare P (put (W := W) f) (fun _ => P).
Proof.
  intros HP Hf. apply hoare_put. intros o v Hv (E1 & E2 & E3 & E4). destruct (Hf o) as (F1 & F2 & F3 & F4). destruct HP as [-> | ->].
  - destruct Hv as (H1 & H2 & H3). split_and!; [|done|by intros p; cbn; rewrite F4]. apply sound_replaced; congruence.
  - destruct Hv as (H1 & H2 & H3). split_and!; [done|by intros p; cbn; rewrite F4|]. cbn. rewrite F1, <- E1. done.
Qed.

Lemma finish_tool_batch_spec : hoare ready (finish_tool_batch H cfg jwrite) (fun _ => rest).
Proof.
  unfold finish_tool_batch, end_batch, emit_error. eapply hoare_bind; [apply tool_batch_control_spec|]. intros []; cbv beta iota.
  - apply (hoare_pre _ _ warned); [|done]. walk; (eapply hoare_bind; [apply close_batch; [by auto|done]|]); intros []; walk.
  - apply (hoare_pre _ _ ready); [|done]. walk; (eapply hoare_bind; [apply close_batch; [by auto|done]|]); intros []; walk.
Qed.
#[local] Hint Resolve finish_tool_batch_spec : turn_specs.

(** ** Interruption *)

Lemma cancel_batch_spec : hoare ready (cancel_batch H cfg jwrite) (fun _ => rest).
Proof.
  unfold cancel_batch. do 3 hoare_step. eapply (hoare_bind _ _ _ (fun _ => ready)).
  - destruct a1 as [p|]; [|by apply hoare_ret]. hoare_step. by apply close_batch; [auto|].
  - intros []. walk.
Qed.
#[local] Hint Resolve cancel_batch_spec : turn_specs.

(** A stop may have come, whatever is going on. *)
Definition loose (v : sight) : Prop :=
  (over_ v = true -> open v = false /\ at_ v = ST_IDLE /\ parked v = None) /\
  (open v = false -> over_ v = true \/ refused_ v = true) /\
  forall p, parked v = Some p -> (at_ v = ST_WAIT_PERMISSION /\ clear_ v = OPEN (p_call p)) \/ resumable p v.

Lemma inv_loose v : inv v -> loose v.
Proof. intros [[H1 H2 _] H3]. by split_and!. Qed.

Lemma loose_halted v : loose v -> inv (moved (at_ v) true v).
Proof. intros (H1 & H2 & H3). split; [constructor; cbn; auto|]. intros p Hp. right. by right; right. Qed.

Lemma oa_cancel_spec : hoare loose (oa_cancel H cfg jparse jwrite false) (fun _ => inv).
Proof.
  unfold oa_cancel. apply hoare_imp. intros o. apply hoare_when.
  - rewrite orb_false_r. intros Ho. eapply (hoare_bind _ _ _ (fun _ => ready)).
    + apply hoare_put. intros o' v [(H1 & H2 & H3) (E & _)] (E1 & E2 & E3 & E4). split_and!; [constructor; cbn| |by right; right].
      * cbn. destruct (over_ v) eqn:Ev; [|congruence]. destruct (H1 eq_refl). congruence.
      * rewrite <- E1. auto.
      * auto.
      * cbn. destruct (over_ v) eqn:Ev; [|done]. destruct (H1 eq_refl). congruence.
    + intros []. apply hoare_when; [intros _|intros _; by auto with turn_safe]. destruct (tool_batch_active _); walk.
  - rewrite orb_false_r. intros Ho v [(H1 & H2 & H3) (E & _)]. split; [constructor; auto|done]. intros _. right. apply H2. congruence.
Qed.

Lemma oa_settle_spec : hoare (fun v => loose v /\ (over_ v = false \/ settled_ v = true)) (oa_cancel H cfg jparse jwrite true) (fun _ => inv).
Proof.
  unfold oa_cancel. apply hoare_imp. intros o. rewrite orb_true_r. cbn [when].
  eapply (hoare_bind _ _ _ (fun _ v => inv v /\ (over_ v = false \/ settled_ v = true))).
  { apply hoare_put. intros o' v [[Hv Hs] _] (E1 & E2 & E3 & E4). split; [|exact Hs]. apply loose_halted in Hv.
    unfold replaced, moved in *. cbn. by rewrite <- E1, <- E2, <- E4. }
  intros []. apply hoare_when; [intros _|by intros _ v []].
  eapply hoare_bind; [destruct (unsent_preview o); [apply hoare_edit|by apply hoare_ret]|]. intros []. cbv beta.
  eapply (hoare_bind _ _ _ (fun _ v => open v = false /\ at_ v = ST_IDLE /\ parked v = None /\ (over_ v = false \/ settled_ v = true))).
  { apply hoare_put. by intros o' v [_ Hs] _. }
  intros []. unfold emit. eapply hoare_bind; [apply hoare_tell|]. intros []. cbv beta. apply hoare_note; [done|].
  intros v (H1 & H2 & H3 & H4). split_and!; [|done|split; [constructor; cbn; auto|intros p Hp; cbn in Hp; congruence]].
  destruct H4; [by left|by right].
Qed.

Lemma parser_oom_spec : hoare ready (parser_oom H cfg jparse jwrite) (fun _ => inv).
Proof.
  unfold parser_oom, emit_error. hoare_step. eapply (hoare_bind _ _ _ (fun _ => inv)); [|intros []; by apply hoare_ret].
  eapply hoare_pre; [apply oa_settle_spec|]. intros v Hv. split; [by apply inv_loose, ready_inv|]. left. apply Hv.
Qed.
#[local] Hint Resolve parser_oom_spec : turn_specs.

(** ** Tools *)

Section calls.
Context (P : option oa_pending).

(** A call that was cleared, once. *)
Lemma execute_call_spec cid a e x r call :
  hoare (holds_at P (CLEARED call)) (execute_call H cid a e x r call) (fun _ => holds P).
Proof.
  unfold execute_call. walk. apply hoare_field. intros o.
  eapply (hoare_bind _ _ _ (fun _ => holds P)); [|intros s; walk]. destruct (cancelled o) eqn:E; [apply hoare_ret; by intros v [[] _]|].
  eapply (hoare_bind _ _ _ (fun _ => holds P)); [|intros []; walk]. apply hoare_note; [done|]. intros v [[(Hs & Ho & Hp) Hc] (_ & _ & Eh & _)].
  split_and!; [done| |by apply (holds_recleared P UNCLEARED v)]. split_and!; [done..|]. destruct (stop_ v) eqn:Es; [|by left].
  right. destruct (so_stop v Hs Es) as [|[|]]; congruence.
Qed.
#[local] Hint Resolve execute_call_spec : turn_specs.

Lemma run_call_spec q call : hoare (holds_at P (CLEARED call)) (run_call H q call) (fun _ => holds P).
Proof. unfold run_call, execute_or_park. walk. Qed.
#[local] Hint Resolve run_call_spec : turn_specs.


End calls.
#[local] Hint Resolve run_call_spec : turn_specs.

(** What a round leaves: the next call, or a pause. *)
Definition rounded (f : flow) (v : sight) : Prop := match f with NEXT => ready v | LEAVE _ => inv v end.

Lemma ready_rounded f v : ready v -> rounded f v.
Proof. destruct f; [done|]. apply ready_inv. Qed.
Lemma holds_rounded f v : holds None v -> rounded f v.
Proof. intros Hv. by apply ready_rounded, holds_ready. Qed.
Lemma inv_rounded rc v : inv v -> rounded (LEAVE rc) v.
Proof. done. Qed.
#[local] Hint Resolve ready_rounded holds_rounded inv_rounded : turn_safe.

Lemma grant_spec P call : hoare (holds_at P (CLEARED call)) (grant H call) (fun _ => holds_at P (CLEARED call)).
Proof.
  unfold grant. eapply hoare_bind; [apply hoare_tell|]. intros []. cbv beta. apply hoare_note; [done|]. intros v [Hv Hc].
  split_and!; [done|exact Hc|by destruct v].
Qed.
#[local] Hint Resolve grant_spec : turn_specs.

(** The call goes on as the user decided; an answer for good is kept. *)
Definition decided (P : option oa_pending) (d : tny_perm_decision) (call : tools_call) (v : sight) : Prop :=
  holds P v /\ (d <> DECISION_DENY -> clear_ v = CLEARED call).

Lemma decided_spec {A} P d call (k0 k1 : M (machine W) A) R :
  hoare (holds P) k0 R -> hoare (holds_at P (CLEARED call)) k1 R ->
  hoare (decided P d call) (when (bool_decide (d = DECISION_ALLOW_ALWAYS)) (grant H call) ;; if bool_decide (d = DECISION_DENY) then k0 else k1) R.
Proof.
  intros H0 H1. eapply (hoare_bind _ _ _ (fun _ => decided P d call)).
  - apply hoare_when; [|done]. rewrite bool_decide_eq_true. intros ->.
    eapply hoare_weaken; [apply grant_spec|intros v [Hv Hc]; by split; [|apply Hc]|by intros ? v [Hv Hc]].
  - intros []. destruct (bool_decide (d = DECISION_DENY)) eqn:E; [by eapply hoare_pre; [exact H0|intros v []]|].
    rewrite bool_decide_eq_false in E. eapply hoare_pre; [exact H1|]. intros v [Hv Hc]. by split; [|apply Hc].
Qed.

Lemma prompt_user_spec q call : hoare (holds_at None (OPEN call)) (prompt_user H q call) rounded.
Proof.
  unfold prompt_user. destruct (h_prompt H) as [prompt|].
  - hoare_step. eapply (hoare_bind _ _ _ (fun _ => decided None a call)).
    + apply hoare_note; [done|]. intros v [Hv Hc]. split_and!; [done|exact Hc|]. destruct (holds_recleared None (after_decision a (clear_ v)) v Hv) as [Hv' E].
      split; [exact Hv'|]. cbn. rewrite Hc. by destruct a.
    + intros []. apply decided_spec; walk.
  - walk. eapply (hoare_bind _ _ _ (fun _ v => inv v /\ over_ v = false)).
    + apply hoare_put. intros o v [(Hs & Ho & Hp) Hc] (E1 & E2 & E3 & E4). split; [|done]. split.
      * apply sound_replaced; cbn; congruence.
      * intros p Ep. injection Ep as <-. by left.
    + intros []. eapply (hoare_bind _ _ _ (fun _ v => inv v /\ over_ v = false)); [by apply hoare_emit; [intros v []|]|].
      intros []. apply hoare_ret. by intros v [].
Qed.
#[local] Hint Resolve prompt_user_spec : turn_specs.

Lemma ask_permission_spec q call : hoare (holds_at None (OPEN call)) (ask_permission H q call) rounded.
Proof.
  unfold ask_permission. eapply (hoare_bind _ _ _ (fun a => holds_at None (after_permission a (OPEN call)))).
  { apply hoare_control. intros a v b l [Hv Hc] _. cbn. rewrite Hc.
    exact (holds_recleared _ _ _ (stable_eased _ _ Hv (eased_heard b l v))). }
  intros a. hoare_step. destruct a0; [apply hoare_ret; by eauto with turn_safe|]. cbn [after_permission].
  destruct (r_stop a), (r_permission a); walk.
Qed.
#[local] Hint Resolve ask_permission_spec : turn_specs.

Lemma save_prepared call :
  hoare (holds_at None (PREPARED call)) (save H) (fun ok => if ok : bool then holds_at None (after_save call) else holds None).
Proof.
  unfold save. do 2 hoare_step. eapply (hoare_bind _ _ _ (fun _ => if a0 then holds_at None (after_save call) else holds None)).
  - apply hoare_note; [done|]. intros v [Hv Hc]. split_and!; [done..|]. pose proof (holds_recleared None (after_item (Saved a0) (clear_ v)) v Hv) as Hr.
    rewrite Hc in Hr. cbn [after_item] in Hr. unfold noted. rewrite Hc. destruct a0; [exact Hr|by destruct Hr].
  - intros []. by apply hoare_ret.
Qed.

Lemma admit_call_spec q call : hoare (holds_at None (PREPARED call)) (admit_call H q call) rounded.
Proof.
  unfold admit_call. do 2 hoare_step. eapply (hoare_bind _ _ _ (fun ok => if ok : bool then holds_at None (after_save call) else holds None)).
  { destruct a0; [apply hoare_ret; by intros v []|apply save_prepared]. }
  intros []; cbn [negb].
  - unfold after_save. destruct (c_verdict call); walk.
  - apply (hoare_pre _ _ ready); [walk|exact holds_ready].
Qed.
#[local] Hint Resolve admit_call_spec : turn_specs.

(** A call may be prepared: the last answer was no stop. *)
Definition proposing (v : sight) : Prop := holds None v /\ (last_ v = false \/ refused_ v = true).

Lemma heed_proposal (r : tny_openai_control_request) : kind r = PRE_TOOL ->
  hoare (holds None) (control_call H r) (fun a v => if r_stop a then warned v else proposing v).
Proof.
  intros Hk. apply hoare_control. intros a v b l Hv Hl. rewrite Hk. cbn. destruct (r_stop a); cbn.
  - destruct Hv as ([H1 H2 H3] & H4 & H5). split_and!; [done|intros p Hp; cbn in Hp; congruence|]. cbn. intros Ho.
    destruct (H2 Ho) as [|Hr]; [congruence|]. by rewrite Hr.
  - split; [exact (stable_eased _ _ Hv (eased_heard b l v))|]. cbn. destruct Hl as [->| ->]; rewrite ?orb_true_r; auto.
Qed.

Lemma propose_spec cid args : hoare (holds None) (propose H cid B"run_code" args) rounded.
Proof.
  unfold propose. eapply hoare_bind; [by apply heed_proposal|]. intros a. cbv beta.
  eapply (hoare_bind _ _ _ (fun b v => if b : bool then ready v else if r_stop a then warned v else proposing v)).
  { apply hoare_alloc; [done|]. intros v. destruct (r_stop a); [apply warned_short|]. intros [Hv _]. by apply holds_ready, shortly. }
  intros []; [walk|]. destruct (r_stop a) eqn:Ea; cbn [orb].
  - eapply (hoare_bind _ _ _ (fun _ => ready)); [|intros []; walk].
    eapply hoare_pre; [apply stop_on_spec|]. by rewrite Ea.
  - apply (hoare_pre _ _ proposing); [|done]. destruct (r_deny a).
    + apply (hoare_pre _ _ (holds None)); [|by intros v []]. unfold stop_on. rewrite Ea. walk.
    + hoare_step. destruct a0 as [ok call].
      eapply (hoare_bind _ _ _ (fun _ => if ok then holds_at None (PREPARED call) else holds None)); [|intros []; destruct ok; cbn [negb]; walk].
      apply hoare_note; [done|]. intros v [Hv Hl]. split_and!; [done..|].
      pose proof (holds_recleared None (if ok then PREPARED call else UNCLEARED) v Hv) as Hr. destruct ok; [exact Hr|by destruct Hr].
Qed.

Lemma release_parked P : hoare (holds P) (put (W := W) (fun o => o <| permission := None |>)) (fun _ => ready).
Proof.
  apply hoare_put. intros o v (Hs & Ho & _) (E1 & E2 & E3 & E4). split_and!; [apply sound_replaced; cbn; congruence|done|by intros p].
Qed.

Lemma resume_permission_spec p : hoare (decided (Some p) (p_decision p) (p_call p)) (resume_permission H p) rounded.
Proof.
  unfold resume_permission. apply decided_spec.
  - do 2 hoare_step. eapply hoare_bind; [apply release_parked|]. intros []. walk.
  - eapply hoare_bind; [apply run_call_spec|]. intros f. cbv beta. eapply hoare_bind; [apply release_parked|]. intros []. walk.
Qed.

Lemma one_call_spec c : hoare ready (one_call H c) rounded.
Proof.
  unfold one_call. apply hoare_imp. intros o. destruct (str_eq (call_name c) B"run_code") eqn:En; cbn [negb].
  - apply str_eq_true in En. rewrite En. destruct (cancelled o) eqn:Ec; [apply (hoare_pre _ _ ready); [walk|by intros v []]|].
    destruct (permission o) as [p|] eqn:Ep.
    + eapply hoare_pre; [apply resume_permission_spec|]. intros v [(H1 & H2 & H3) (_ & _ & E3 & E4)]. 
      split; [by split_and!; congruence|]. destruct (H3 p ltac:(congruence)) as [|[[]|]]; congruence.
    + eapply hoare_pre; [apply propose_spec|]. intros v [(H1 & H2 & H3) (_ & _ & E3 & E4)]. split_and!; congruence.
  - apply (hoare_pre _ _ ready); [walk|by intros v []].
Qed.

#[local] Hint Resolve one_call_spec : turn_specs.

Lemma park_background_spec : hoare ready (park_background H) (fun _ => ready).
Proof. unfold park_background. walk. Qed.
#[local] Hint Resolve park_background_spec : turn_specs.

Lemma tools_loop_spec fuel : hoare ready (tools_loop H cfg jwrite fuel) (fun _ => inv).
Proof.
  induction fuel as [|fuel IH]; cbn [tools_loop]; [walk|]. hoare_step. destruct (batch a !! tool_index a) as [c|]; walk.
Qed.

Lemma run_tools_spec : hoare ready (run_tools H cfg jwrite) (fun _ => inv).
Proof. unfold run_tools. hoare_step. apply tools_loop_spec. Qed.
#[local] Hint Resolve run_tools_spec : turn_specs.

Lemma finish_custom_spec : hoare ready (finish_custom_completion H cfg jwrite) (fun _ => inv).
Proof. unfold finish_custom_completion. walk. Qed.
#[local] Hint Resolve finish_custom_spec : turn_specs.

(** ** The end of a step *)

Lemma finish_turn_ok_spec : hoare ready (finish_turn_ok H cfg jparse jwrite) (fun _ => inv).
Proof.
  unfold finish_turn_ok. walk.
Qed.
#[local] Hint Resolve finish_turn_ok_spec : turn_specs.

Lemma answer_steer_spec :
  hoare ready (answer_steer H cfg jparse jwrite) (fun r v => match r with None => ready v | Some _ => inv v end).
Proof.
  unfold answer_steer. walk. eapply hoare_bind; [apply start_post_spec|]. intros [rc err]. cbv beta.
  destruct (rc =? 0) eqn:E0; [walk|]. destruct (rc =? -2) eqn:E2; [walk|]. apply Z.eqb_neq in E0, E2.
  apply (hoare_pre _ _ ready); [walk|]. intros v [_ Hr]. by apply Hr.
Qed.
#[local] Hint Resolve answer_steer_spec : turn_specs.

Lemma record_batch_spec :
  hoare ready (record_batch H cfg jparse jwrite) (fun r v => match r with None => ready v | Some _ => inv v end).
Proof. unfold record_batch. walk. Qed.
#[local] Hint Resolve record_batch_spec : turn_specs.

Lemma step_finished_spec : hoare ready (step_finished H cfg jparse jwrite) (fun _ => inv).
Proof. unfold step_finished. walk. Qed.
#[local] Hint Resolve step_finished_spec : turn_specs.

(** ** The stream *)
Lemma finish_error_spec : hoare ready (finish_error_response H cfg jparse) (fun _ => inv).
Proof. unfold finish_error_response. walk. Qed.
#[local] Hint Resolve finish_error_spec : turn_specs.
Lemma fail_stream_spec : hoare ready (fail_stream H cfg) (fun _ => inv).
Proof. unfold fail_stream. walk. Qed.
#[local] Hint Resolve fail_stream_spec : turn_specs.
Lemma stream_interrupted_spec what : hoare ready (stream_interrupted H what) (fun _ => inv).
Proof. unfold stream_interrupted. walk. Qed.
#[local] Hint Resolve stream_interrupted_spec : turn_specs.

Lemma retry_or_fail_spec err : hoare ready (retry_or_fail H err) (fun _ => inv).
Proof. unfold retry_or_fail. walk. Qed.
#[local] Hint Resolve retry_or_fail_spec : turn_specs.

Lemma oa_cancel_ready : hoare ready (oa_cancel H cfg jparse jwrite false) (fun _ => inv).
Proof. eapply hoare_pre; [apply oa_cancel_spec|]. intros v Hv. by apply inv_loose, ready_inv. Qed.
#[local] Hint Resolve oa_cancel_ready : turn_specs.

Lemma post_again_spec : hoare ready (post_again H cfg jwrite) (fun _ => inv).
Proof.
  unfold post_again. eapply hoare_bind; [apply start_post_mode_spec|]. intros [rc err]. cbv beta.
  destruct (rc =? 0) eqn:E0; [walk|]. destruct (rc =? -2) eqn:E2; [walk|]. apply Z.eqb_neq in E0, E2.
  apply (hoare_pre _ _ ready); [walk|]. intros v [_ Hr]. by apply Hr.
Qed.
#[local] Hint Resolve post_again_spec : turn_specs.

Lemma after_piece_spec :
  hoare ready (after_piece H cfg jparse jwrite) (fun r v => match r with None => ready v | Some _ => inv v end).
Proof. unfold after_piece. walk. Qed.
#[local] Hint Resolve after_piece_spec : turn_specs.

Lemma read_head_spec :
  hoare ready (read_head H cfg jparse jwrite) (fun r v => match r with None => ready v | Some _ => inv v end).
Proof.
  unfold read_head. walk; [apply response_heeded; intros _; walk..|].
  eapply hoare_bind; [apply provider_response_spec|]. intros r. cbv beta. destruct (r_stop r).
  - apply (hoare_pre _ _ warned); [walk|done].
  - apply (hoare_pre _ _ ready); [walk|done].
Qed.
#[local] Hint Resolve read_head_spec : turn_specs.

Lemma end_body_spec ok : hoare ready (end_body H cfg jparse jwrite ok) (fun _ => inv).
Proof. unfold end_body. walk. Qed.
#[local] Hint Resolve end_body_spec : turn_specs.

Lemma body_pause_spec : hoare ready (body_pause H cfg jparse) (fun _ => inv).
Proof. unfold body_pause. walk. Qed.
#[local] Hint Resolve body_pause_spec : turn_specs.

Lemma body_loop_spec fuel got : hoare ready (body_loop H cfg jparse jwrite fuel got) (fun _ => inv).
Proof. revert got. induction fuel as [|fuel IH]; intros got; cbn [body_loop]; [walk|]. walk. Qed.
#[local] Hint Resolve body_loop_spec : turn_specs.

Lemma turn_read_body_spec : hoare ready (read_body H cfg jparse jwrite) (fun _ => inv).
Proof. unfold read_body. walk. Qed.
#[local] Hint Resolve turn_read_body_spec : turn_specs.

(** ** The entries *)

Lemma oa_dispatch_spec : hoare inv (oa_dispatch H cfg jparse jwrite) (fun _ => inv).
Proof.
  unfold oa_dispatch. apply hoare_imp. intros o. destruct (state o) eqn:Es.
  1, 4, 6: by apply hoare_ret; intros v [].
  all: apply (hoare_pre _ _ ready); [walk|intros v [Hi (_ & Ea & _)]; apply inv_ready; congruence].
Qed.

Lemma oa_send_spec prompt paths : hoare inv (oa_send H cfg jwrite prompt paths) (fun _ => inv).
Proof.
  unfold oa_send, add_prompt. walk.
  eapply (hoare_bind _ _ _ (fun _ v => over_ v = false /\ stop_ v = false)); [by apply hoare_note|]. intros [].
  eapply (hoare_bind _ _ _ (fun _ => ready)).
  { apply hoare_put. intros o v [Ho Hs] _. split_and!; [constructor; cbn; congruence|done|by intros p]. }
  intros []. walk. eapply hoare_weaken; [apply start_post_spec|done|]. by intros r v [Hr%rest_inv _].
Qed.

Lemma oa_respond_spec pid d : hoare inv (oa_respond_permission H cfg jwrite pid d) (fun _ => inv).
Proof.
  unfold oa_respond_permission. apply hoare_imp. intros o. destruct (permission o) as [p|] eqn:Ep; [|by apply hoare_ret; intros v []].
  apply hoare_when; [intros _|by intros _ v []].
  eapply (hoare_bind _ _ _ (fun _ v => sound v /\ over_ v = false /\ parked v = Some p /\
            (halted v = true \/ clear_ v = after_decision d (OPEN (p_call p))))).
  { apply hoare_note; [done|]. intros v [[Hs Hp] (_ & _ & _ & E4)]. rewrite Ep in E4.
    split_and!; [done|done|by destruct Hs; constructor| |done|].
    - destruct (over_ v) eqn:Eo; [|done]. destruct (so_over v Hs Eo) as (_ & _ & ?). congruence.
    - destruct (Hp p E4) as [[_ E]|[E|[[_ E]|E]]]; cbn; rewrite ?E; auto. }
  intros []. eapply (hoare_bind _ _ _ (fun _ => ready)); [|intros []; walk].
  apply hoare_put. intros o' v (Hs & Ho & Hp & Hc) (E1 & E2 & E3 & E4). split_and!; [apply sound_replaced; cbn; congruence|done|].
  intros p' Ep'. injection Ep' as <-. unfold resumable. cbn. destruct Hc as [Hh|Hc]; [right; right; congruence|]. rewrite Hc.
  destruct d; auto.
Qed.

Lemma turn_entry_spec e : hoare inv (enter H cfg jparse jwrite e) (fun _ => inv).
Proof.
  unfold enter. eapply (hoare_bind _ _ _ (fun _ => inv)).
  { intros m v Hs Hi. apply wp_change. exists v. split; [|done]. destruct Hs as [Hv Ho He Ha]. by constructor. }
  intros []. destruct e as [prompt paths| |pid d|memory t|settling| |].
  - eapply hoare_bind; [apply oa_send_spec|]. intros ?. by apply hoare_ret.
  - eapply hoare_bind; [apply oa_dispatch_spec|]. intros ?. by apply hoare_ret.
  - apply oa_respond_spec.
  - eapply (hoare_bind _ _ _ (fun _ => inv)); [|intros []; by apply hoare_ret]. unfold oa_steer. hoare_step.
    destruct (bool_decide (state a = ST_IDLE) || cancelled a); [by apply hoare_ret|]. destruct (steer a); [destruct memory|].
    all: try (eapply hoare_bind; [by apply hoare_untouched|]; intros []); by apply hoare_ret.
  - destruct settling.
    + eapply (hoare_bind _ _ _ (fun _ v => loose v /\ (over_ v = false \/ settled_ v = true))); [|intros []; apply oa_settle_spec].
      apply hoare_note; [done|]. intros v Hv. split_and!; [done..| |by right]. by apply inv_loose in Hv.
    + eapply (hoare_bind _ _ _ (fun _ => loose)); [|intros []; apply oa_cancel_spec].
      apply hoare_note; [done|]. intros v Hv. split_and!; [done..|]. by apply inv_loose in Hv.
  - apply hoare_untouched. intros o. unfold tny_backend_openai_background. by destruct (_ && _).
  - unfold tny_backend_openai_continue. eapply (hoare_bind _ _ _ (fun _ => inv)); [|intros ?; by apply hoare_ret].
    apply hoare_imp. intros o. destruct (bool_decide (state o = ST_CHECKPOINT)) eqn:E; cbn [negb]; [|by apply hoare_ret; intros v []].
    rewrite bool_decide_eq_true in E. apply (hoare_pre _ _ ready); [walk|]. intros v [Hi (_ & Ea & _)]. apply inv_ready; congruence.
Qed.

Lemma turn_run_inv w d retries stall es :
  exists v, shows (run H cfg jparse jwrite w d retries stall es) v /\ inv v.
Proof.
  assert (hoare inv (each (enter H cfg jparse jwrite) es) (fun _ => inv)) as Hr.
  { induction es as [|e es IH]; cbn [each]; [by apply hoare_ret|]. eapply hoare_bind; [apply turn_entry_spec|]. by intros []. }
  unfold run. set (m := mk_machine _ _ _ _ _). destruct (Hr m (seen (imp m) (trace m))) as (v & Hs & Hi); [by constructor| |by exists v].
  split; [constructor; cbn; auto; discriminate|]. intros p Hp. cbn in Hp. discriminate.
Qed.

End safe.

(** ** A turn, run *)

(** A provider whose stream is given piece by piece; everything else succeeds,
    one tool result is [ok]. *)
Definition demo_event (v : jval) : bytes := B"data: " ++ render v ++ [LF; LF].
Definition demo_delta (ms : list (bytes * jval)) : bytes := demo_event (JObj [(B"choices", JArr [JObj [(B"delta", JObj ms)]])]).
Definition demo_done : bytes := B"data: [DONE]" ++ [LF; LF].
Definition demo_call : bytes :=
  demo_delta [(B"tool_calls", JArr [JObj [(B"index", JNum (JUint 0)); (B"id", JStr B"a");
    (B"function", JObj [(B"name", JStr B"run_code"); (B"arguments", JStr B"{}")])]])].

Definition replies {A} (a : A) (w : list body_read) : A * list body_read := (a, w).

Definition demo_host (verdict : perm_verdict) : host (list body_read) := {|
  h_memory := replies false; h_clock := replies 0; h_event := fun _ w => w; h_control := None; h_save := fun _ => replies true;
  h_deliver := replies (None, []); h_signin := replies false; h_tier_error := replies None; h_open := replies (0, []);
  h_wire_chat := replies true; h_grow := replies (fun _ => true); h_request := fun _ _ => replies true; h_send := replies 0;
  h_status := replies 200; h_header := fun _ => replies None;
  h_read := fun w => match w with r :: w => (r, w) | [] => (READ_AGAIN, []) end; h_decode := replies None;
  h_prepare := fun name args => replies (true, mk_tools_call name (read_json args) verdict (Some name) None None);
  h_execute := fun _ => replies (mk_execution (Some B"ok") false [] false false []); h_take := fun _ => replies ASYNC_WAIT;
  h_bound := fun b => replies (Some b); h_grant := fun _ w => w; h_prompt := None; h_flush := fun _ => replies (None, []);
  h_user_images := fun _ _ => replies (None, []); h_recovery := fun _ w => w; h_lost := replies false |}.

Definition demo_settings : settings := mk_settings 0 true false false false false B"m" B"0123456789abcdef" 1.
Definition demo_answer : list body_read := [READ (demo_delta [(B"content", JStr B"hel")]); READ (demo_delta [(B"content", JStr B"lo")] ++ demo_done); READ_END].

Definition demo_input : list body_read := [READ demo_call; READ demo_done; READ_END] ++ demo_answer.
Definition demo_write (v : jval) : option bytes := Some (render v).
Definition demo_document : document := [(B"messages", JArr [])].

Abbreviation demo_run verdict es := (run (demo_host verdict) demo_settings read_json demo_write demo_input demo_document 3 300000 es).

Definition requested (t : list item) : list (list jval) := omap (fun i => match i with Requested ms => Some ms | _ => None end) t.
Definition ran (t : list item) : nat := length (List.filter (fun i => match i with Executed _ => true | _ => false end) t).

(** A tool that the rules allow runs, and the answer follows; one that the user
    denies does not run, and the turn ends there. *)
Example allowed_turn :
  let m := demo_run PERM_ALLOW [Send B"hi" []; Dispatch; Dispatch] in
  ended (trace m) = true /\ turn_open (imp m) = false /\ ran (trace m) = 1%nat /\ map length (requested (trace m)) = [3; 1]%nat /\
  existsb (fun i => match i with Emitted (EV_TURN_END STOP_DONE) => true | _ => false end) (trace m) = true /\
  length (session_messages (doc m)) = 4%nat.
Proof. vm_compute. split_and!; reflexivity. Qed.

Example denied_turn :
  let m := demo_run PERM_PROMPT [Send B"hi" []; Dispatch; Respond B"a" DECISION_DENY] in
  ended (trace m) = true /\ ran (trace m) = 0%nat /\
  existsb (fun i => match i with Emitted (EV_TURN_END STOP_DENIED) => true | _ => false end) (trace m) = true /\
  length (session_messages (doc m)) = 3%nat.
Proof. vm_compute. split_and!; reflexivity. Qed.

Section properties.
Context {W : Type} (H : host W) (cfg : settings) (jparse : bytes -> option jval) (jwrite : jval -> option bytes).


(** C2: in any sequence of sends, dispatches, answers, steers and
    cancellations, a turn tells its end at most once and emits nothing after
    that, until the next one begins (only the runtime's settlement of a failed
    allocation may report the end once more); and a turn that is closed has told
    its end, unless an allocation has failed in it. *)
Theorem turn_ends_once w d retries stall es :
  let m := run H cfg jparse jwrite w d retries stall es in
  always event_allowed (trace m) /\ (turn_open (imp m) = false -> ended (trace m) = true \/ refused (trace m) = true).
Proof.
  cbn zeta. destruct (turn_run_inv H cfg jparse jwrite w d retries stall es) as (v & [Hv Ho He Ha] & [Hs _]). split; [exact He|].
  intros Hc. subst v. by apply (so_closed _ Hs).
Qed.


(** C7: in every run, whatever the tools, the extensions and the memory do,
    the conversation that a request carries is one the provider accepts: each
    call is followed by exactly its result, and no message is empty. *)
Theorem requests_accepted w d retries stall es ms :
  Requested ms ∈ trace (run H cfg jparse jwrite w d retries stall es) -> well_paired ms.
Proof.
  destruct (turn_run_inv H cfg jparse jwrite w d retries stall es) as (v & [Hv Ho He Ha] & _). clear Hv Ho He.
  induction (trace _) as [|i t IH]; [by intros ?%elem_of_nil|]. destruct Ha as [[_ Hi] Ha].
  intros [<-|Hin]%elem_of_cons; [exact Hi|by apply IH].
Qed.
End properties.

Lemma requested_in t : nth 0 (requested t) [] <> [] -> Requested (nth 0 (requested t) []) ∈ t.
Proof.
  intros Hn. assert (nth 0 (requested t) [] ∈ requested t) as Hr.
  { destruct (requested t) as [|ms r]; [done|]. apply elem_of_cons. by left. }
  generalize dependent (nth 0 (requested t) []). intros ms _ Hr. apply list_elem_of_omap in Hr as (i & Hi & E).
  by destruct i; try discriminate E; injection E as ->.
Qed.

(** At the step limit a steered message is neither answered nor handed back, and
    the answer before it is kept twice. *)
Example steered_at_the_limit :
  let m := run (demo_host PERM_ALLOW) (mk_settings 1 true false false false false B"m" B"0123456789abcdef" 1) read_json demo_write
             demo_answer demo_document 3 300000 [Send B"hi" []; Steer true B"more"; Dispatch] in
  map (fun v => default [] (jget_str (Some v) B"content")) (session_messages (doc m)) = [B"hi"; B"hello"; B"more"; B"hello"] /\
  ended (trace m) = true /\ length (requested (trace m)) = 1%nat /\
  existsb (fun i => match i with Emitted (EV_STEER_REJECTED _) => true | _ => false end) (trace m) = false.
Proof. vm_compute. split_and!; reflexivity. Qed.

Definition demo_entries : list entry := [Send B"hi" []; Dispatch; Dispatch].

Lemma requests_accepted_witness :
  let t := trace (demo_run PERM_ALLOW demo_entries) in
  let ms := nth 0 (requested t) [] in
  length ms = 3%nat /\ Requested ms ∈ t /\ well_paired ms.
Proof.
  pose proof (requests_accepted (demo_host PERM_ALLOW) demo_settings read_json demo_write demo_input demo_document 3 300000 demo_entries) as Hreq.
  assert (length (nth 0 (requested (trace (demo_run PERM_ALLOW demo_entries))) []) = 3%nat) as Hl by (vm_compute; reflexivity).
  cbv zeta. generalize dependent (trace (demo_run PERM_ALLOW demo_entries)). intros t Hreq Hl.
  assert (Requested (nth 0 (requested t) []) ∈ t) as Hin by (apply requested_in; intros E; by rewrite E in Hl).
  split; [exact Hl|]. split; [exact Hin|]. exact (Hreq _ Hin).
Defined.
