(* ===== verification/TurnLoops.v ===== *)
(** The loops of a turn of the native backend end: the round over a batch of
    calls and the reading of a body. *)
From S2P Require Import Prelude Decimal Effects Json JsonValue Perm ToolCalls StreamDecode Errors Transcript ExecControl Turn.

Open Scope Z_scope.

(** ** Programs that leave the batch and the place in it *)

Definition kept (o o' : oa_impl) : Prop := calls o' = calls o /\ tool_index o' = tool_index o.

#[export] Instance kept_preorder : PreOrder kept.
Proof. split; [done|]. intros o1 o2 o3 [H1 H2] [H3 H4]. split; congruence. Qed.

Create HintDb turn_keeps discriminated.
#[export] Hint Constants Opaque : turn_keeps.

Section loops.
Context {W : Type} (H : host W) (cfg : settings) (jparse : bytes -> option jval) (jwrite : jval -> option bytes).

Abbreviation Turn := (M (machine W)).

Definition keeps {A} (f : Turn A) : Prop := forall m, kept (imp m) (imp (snd (f m))).

Lemma keeps_ret {A} (a : A) : keeps (mret a).
Proof. done. Qed.

Lemma keeps_bind {A T} (f : Turn A) (k : A -> Turn T) : keeps f -> (forall a, keeps (k a)) -> keeps (f ≫= k).
Proof.
  intros Hf Hk m. specialize (Hf m). unfold mbind, M_bind. destruct (f m) as [a m']. cbn [snd] in Hf. exact (transitivity Hf (Hk a m')).
Qed.

Lemma keeps_look {A} (f : machine W -> A) : keeps (look f).
Proof. done. Qed.

Lemma keeps_ask {A} (f : W -> A * W) : keeps (ask f).
Proof. intros m. unfold ask. by destruct (f (world m)). Qed.

Lemma keeps_change (f : machine W -> machine W) : (forall m, kept (imp m) (imp (f m))) -> keeps (change f).
Proof. done. Qed.

Lemma keeps_note i : keeps (note (W := W) i).
Proof. done. Qed.
Lemma keeps_tell (f : W -> W) : keeps (tell f).
Proof. done. Qed.
Lemma keeps_edit (f : document -> document) : keeps (edit (W := W) f).
Proof. done. Qed.

Lemma keeps_put f : (forall o, kept o (f o)) -> keeps (put (W := W) f).
Proof. intros Hf m. apply Hf. Qed.

Lemma keeps_when b (f : Turn unit) : keeps f -> keeps (when b f).
Proof. by destruct b. Qed.

Lemma keeps_each {A} (f : A -> Turn unit) l : (forall a, keeps (f a)) -> keeps (each f l).
Proof. intros Hf. induction l as [|a l IH]; cbn [each]; [apply keeps_ret|]. apply keeps_bind; [apply Hf|by intros _]. Qed.

Lemma keeps_emit e : keeps (emit H e).
Proof. done. Qed.

End loops.

Ltac keeps_step :=
  lazymatch goal with
  | |- keeps ?f =>
    lazymatch f with
    | mret _ => apply keeps_ret
    | look _ => apply keeps_look
    | field _ => apply keeps_look
    | ask _ => apply keeps_ask
    | note _ => apply keeps_note
    | tell _ => apply keeps_tell
    | edit _ => apply keeps_edit
    | emit _ _ => apply keeps_emit
    | emit_error _ _ _ => apply keeps_emit
    | change _ => apply keeps_change; intros ?; by split
    | put _ => apply keeps_put; intros ?; by split
    | when _ _ => apply keeps_when
    | each _ _ => apply keeps_each; intros ?
    | if ?b then _ else _ => destruct b
    | match ?x with _ => _ end => destruct x
    | _ ≫= _ => apply keeps_bind; [|intros ?; cbv beta]
    | _ => solve [eauto 2 with turn_keeps nocore]
    end
  end.
Ltac keeps := repeat keeps_step.

Section kept.
Context {W : Type} (H : host W) (cfg : settings) (jparse : bytes -> option jval) (jwrite : jval -> option bytes).

Abbreviation Turn := (M (machine W)).

Lemma keeps_alloc : keeps (alloc_failed H).
Proof. unfold alloc_failed. keeps. Qed.
Lemma keeps_oom : keeps (provider_oom H).
Proof. exact keeps_alloc. Qed.
#[local] Hint Resolve keeps_alloc keeps_oom : turn_keeps.

Lemma keeps_unless (k : Turn unit) : keeps k -> keeps (unless_oom H k).
Proof. intros Hk. unfold unless_oom. keeps. Qed.

Lemma keeps_save : keeps (save H).
Proof. unfold save. keeps. Qed.
Lemma keeps_control r : keeps (control_call H r).
Proof. unfold control_call. keeps. Qed.
Lemma keeps_log name a b c : keeps (log_toolcall (W := W) name a b c).
Proof. unfold log_toolcall. keeps. Qed.
Lemma keeps_stop_on a : keeps (stop_on (W := W) a).
Proof. unfold stop_on. keeps. Qed.
Lemma keeps_conn_drop : keeps (conn_drop (W := W)).
Proof. unfold conn_drop. keeps. Qed.
Lemma keeps_block : keeps (permission_block (W := W)).
Proof. unfold permission_block. keeps. Qed.
Lemma keeps_grant c : keeps (grant H c).
Proof. unfold grant. keeps. Qed.
#[local] Hint Resolve keeps_save keeps_control keeps_log keeps_stop_on keeps_conn_drop keeps_block keeps_grant : turn_keeps.

Lemma keeps_complete cid name a e x r t : keeps (complete_tool H cid name a e x r t).
Proof. unfold complete_tool, emit_tool_end. apply keeps_unless. keeps. apply keeps_unless. keeps. apply keeps_unless. keeps. apply keeps_unless. keeps. Qed.
Lemma keeps_reject q name r t : keeps (reject H q name r t).
Proof. apply keeps_complete. Qed.
Lemma keeps_cancelled_call cid name a : keeps (finish_cancelled_call H cid name a).
Proof. apply keeps_complete. Qed.
Lemma keeps_refuse cid name : keeps (refuse_direct H cid name).
Proof. unfold refuse_direct, emit_tool_end. keeps. Qed.
Lemma keeps_after_execution x : keeps (after_execution (W := W) x).
Proof. unfold after_execution, execution_control. keeps. Qed.
Lemma keeps_subagent k cid c r ok : keeps (subagent_control H k cid c r ok).
Proof. unfold subagent_control. keeps. Qed.
#[local] Hint Resolve keeps_complete keeps_reject keeps_cancelled_call keeps_refuse keeps_after_execution keeps_subagent : turn_keeps.

Lemma keeps_execute_call cid a e x r c : keeps (execute_call H cid a e x r c).
Proof. unfold execute_call. keeps. Qed.
#[local] Hint Resolve keeps_execute_call : turn_keeps.

Lemma keeps_run_call q c : keeps (run_call H q c).
Proof. unfold run_call, execute_or_park. keeps. Qed.

Lemma keeps_park_background : keeps (park_background H).
Proof. unfold park_background. keeps. Qed.
#[local] Hint Resolve keeps_run_call keeps_park_background : turn_keeps.

Lemma keeps_prompt q c : keeps (prompt_user H q c).
Proof. unfold prompt_user. keeps. Qed.
#[local] Hint Resolve keeps_prompt : turn_keeps.

Lemma keeps_ask_permission q c : keeps (ask_permission H q c).
Proof. unfold ask_permission. keeps. Qed.

Lemma keeps_resume p : keeps (resume_permission H p).
Proof. unfold resume_permission. keeps. Qed.
#[local] Hint Resolve keeps_ask_permission keeps_resume : turn_keeps.

(** Going on to the next call, the batch is as it was. *)
Definition goes_on (f : Turn flow) : Prop := forall m, let '(r, m') := f m in r = NEXT -> kept (imp m) (imp m').

Lemma goes_on_keeps f : keeps f -> goes_on f.
Proof. intros Hf m. specialize (Hf m). destruct (f m) as [r m']. by intros _. Qed.

Lemma goes_on_bind {A} (f : Turn A) (k : A -> Turn flow) : keeps f -> (forall a, goes_on (k a)) -> goes_on (f ≫= k).
Proof.
  intros Hf Hk m. specialize (Hf m). unfold mbind, M_bind. destruct (f m) as [a m']. cbn [snd] in Hf. specialize (Hk a m').
  destruct (k a m') as [r m'']. intros E. exact (transitivity Hf (Hk E)).
Qed.

Lemma goes_on_leave {A} (f : Turn A) (g : A -> Z) : goes_on (a ← f; mret (LEAVE (g a))).
Proof. intros m. unfold mbind, M_bind. by destruct (f m). Qed.

Lemma goes_on_admit q c : goes_on (admit_call H q c).
Proof.
  unfold admit_call. do 3 (apply goes_on_bind; [keeps|intros ?]). destruct (negb _).
  - do 2 (apply goes_on_bind; [keeps|intros ?]). apply (goes_on_leave _ (fun rc => rc)).
  - apply goes_on_keeps. keeps.
Qed.

Lemma goes_on_propose cid name args : goes_on (propose H cid name args).
Proof.
  unfold propose. do 2 (apply goes_on_bind; [keeps|intros ?]). destruct a0; [by apply goes_on_keeps|].
  destruct (_ || _); [apply goes_on_keeps; keeps|]. apply goes_on_bind; [keeps|]. intros [ok c]. apply goes_on_bind; [keeps|intros ?].
  destruct ok; cbn [negb]; [apply goes_on_admit|]. apply goes_on_keeps. keeps.
Qed.

Lemma goes_on_call c : goes_on (one_call H c).
Proof.
  unfold one_call. apply goes_on_bind; [keeps|intros o]. destruct (negb _); [apply goes_on_keeps; keeps|].
  destruct (cancelled o); [apply goes_on_keeps; keeps|]. destruct (permission o); [apply goes_on_keeps; keeps|apply goes_on_propose].
Qed.

(** ** More rounds change nothing *)

Lemma tools_loop_more fuel fuel' (m : machine W) :
  (length (batch (imp m)) - tool_index (imp m) < fuel)%nat -> (fuel <= fuel')%nat ->
  tools_loop H cfg jwrite fuel' m = tools_loop H cfg jwrite fuel m.
Proof.
  revert fuel' m. induction fuel as [|fuel IH]; intros [|fuel'] m Hm Hf; try lia. cbn [tools_loop]. unfold look, mbind, M_bind.
  destruct (batch (imp m) !! tool_index (imp m)) as [c|] eqn:El; [|done]. apply lookup_lt_Some in El.
  pose proof (keeps_park_background m) as H1. destruct (park_background H m) as [[] m1]; [done|].
  pose proof (keeps_alloc m1) as H2. destruct (alloc_failed H m1) as [[] m2]; [done|].
  pose proof (goes_on_call c m2) as H3. destruct (one_call H c m2) as [[|rc] m3]; [|done]. specialize (H3 eq_refl).
  destruct (transitivity H1 (transitivity H2 H3)) as [Ec Ei]. cbn [fst snd] in *.
  apply (IH fuel'); [|lia]. unfold put, change. cbn [fst snd imp over]. unfold batch in *. cbn. rewrite Ec, Ei. lia.
Qed.

Lemma body_loop_more fuel fuel' got (m : machine W) :
  0 <= got -> (Z.to_nat (BODY_BATCH - got) < fuel)%nat -> (fuel <= fuel')%nat ->
  body_loop H cfg jparse jwrite fuel' got m = body_loop H cfg jparse jwrite fuel got m.
Proof.
  revert fuel' got m. induction fuel as [|fuel IH]; intros [|fuel'] got m Hg Hm Hf; try lia. cbn [body_loop].
  destruct (Z.leb_spec BODY_BATCH got); [done|]. unfold mbind, M_bind. destruct (ask (h_read H) m) as [r m1].
  destruct (provider_oom H m1) as [[] m2]; [done|]. destruct r as [[|c piece]| | |]; try done.
  destruct (take_piece _ _ _ _ m2) as [_ m3]. destruct (after_piece _ _ _ _ m3) as [[rc|] m4]; [done|].
  unfold look. destruct (_ && _); [done|]. apply IH; cbn [length]; lia.
Qed.

(** C28: reading a body and going through a batch of calls end: more rounds than
    there are calls left, or bytes in a batch of reading, change nothing, and
    the model never gives up for lack of rounds. *)
Theorem turn_loops_end (more : nat) (m : machine W) :
  tools_loop H cfg jwrite (S (length (batch (imp m)) - tool_index (imp m)) + more) m = run_tools H cfg jwrite m /\
  body_loop H cfg jparse jwrite (S (Z.to_nat BODY_BATCH) + more) 0 m = body_loop H cfg jparse jwrite (S (Z.to_nat BODY_BATCH)) 0 m.
Proof.
  split.
  - unfold run_tools, look, mbind, M_bind. apply tools_loop_more; lia.
  - apply body_loop_more; rewrite ?Z.sub_0_r; lia.
Qed.

End kept.
