(* ===== verification/EngineEvents.v ===== *)
(** What the turn engine passes on (src/src/core/events.h, owned_event.cpp, and
    the texts of src/src/core/runtime.c): backend events and their owned copies,
    the actions of extensions, and the JSON each extension is told an event in. *)
From S2P Require Import Prelude Decimal Effects Json JsonText JsonValue StreamDecode ExecControl.

Open Scope Z_scope.

(** ** Events *)

Inductive tny_event_kind :=
  | EV_TEXT_DELTA | EV_THINKING | EV_TOOL_START | EV_TOOL_END | EV_PERMISSION | EV_PLAN | EV_USAGE | EV_TURN_END | EV_ERROR
  | EV_STATUS | EV_STEER_REJECTED | EV_CUSTOM_MESSAGE | EV_USER_MESSAGE | EV_TOOL_PROGRESS.

#[export] Instance event_kind_eq : EqDecision tny_event_kind.
Proof. solve_decision. Defined.

Definition tny_event_kind_name (k : tny_event_kind) : bytes :=
  match k with
  | EV_TEXT_DELTA => B"text_delta" | EV_THINKING => B"thinking" | EV_TOOL_START => B"tool_start" | EV_TOOL_END => B"tool_end"
  | EV_PERMISSION => B"permission_request" | EV_PLAN => B"plan" | EV_USAGE => B"usage" | EV_TURN_END => B"turn_end"
  | EV_ERROR => B"error" | EV_STATUS => B"status" | EV_STEER_REJECTED => B"steer_rejected"
  | EV_CUSTOM_MESSAGE => B"custom_message" | EV_USER_MESSAGE => B"user_message" | EV_TOOL_PROGRESS => B"tool_progress"
  end.

#[export] Instance stop_reason_eq : EqDecision tny_stop_reason.
Proof. solve_decision. Defined.

Definition tny_stop_reason_name (stop : tny_stop_reason) : bytes :=
  match stop with
  | STOP_DONE => B"done" | STOP_INTERRUPTED => B"interrupted" | STOP_DENIED => B"denied" | STOP_STEP_LIMIT => B"step_limit"
  | STOP_ERROR => B"error"
  end.

Inductive tny_event_error_kind :=
  | ERROR_NONE | ERROR_IO | ERROR_PROTOCOL | ERROR_BACKPRESSURE | ERROR_AUTH | ERROR_INTERNAL | ERROR_OOM.

#[export] Instance event_error_kind_eq : EqDecision tny_event_error_kind.
Proof. solve_decision. Defined.

Inductive tny_perm_decision := DECISION_ALLOW | DECISION_ALLOW_ALWAYS | DECISION_DENY.

#[export] Instance perm_decision_eq : EqDecision tny_perm_decision.
Proof. solve_decision. Defined.

(** A cost is there ([has_cost]) as [%.12g] prints it. *)
Record tny_backend_event := mk_event {
  ev_kind : tny_event_kind; ev_text : option bytes; ev_message_id : option bytes; ev_tool_name : option bytes;
  ev_tool_id : option bytes; ev_tool_detail : option bytes; ev_tool_reason : option bytes; ev_tool_ok : bool;
  ev_perm_id : option bytes; ev_perm_summary : option bytes; ev_perm_options : Z; ev_message_type : option bytes;
  ev_in_tokens : Z; ev_out_tokens : Z; ev_context_used : Z; ev_context_size : Z; ev_cost : option bytes;
  ev_cost_currency : option bytes; ev_cost_cumulative : bool; ev_tokens_unreported : bool; ev_stop : tny_stop_reason;
  ev_error_code : tny_event_error_kind }.

#[export] Instance eta_event : Eta tny_backend_event := fun e =>
  mk_event (ev_kind e) (ev_text e) (ev_message_id e) (ev_tool_name e) (ev_tool_id e) (ev_tool_detail e) (ev_tool_reason e)
    (ev_tool_ok e) (ev_perm_id e) (ev_perm_summary e) (ev_perm_options e) (ev_message_type e) (ev_in_tokens e)
    (ev_out_tokens e) (ev_context_used e) (ev_context_size e) (ev_cost e) (ev_cost_currency e) (ev_cost_cumulative e)
    (ev_tokens_unreported e) (ev_stop e) (ev_error_code e).

(** [{0}] with the kind. *)
Definition event_of (k : tny_event_kind) : tny_backend_event :=
  mk_event k None None None None None None false None None 0 None 0 0 0 0 None None false false STOP_DONE ERROR_NONE.

Definition text_event (k : tny_event_kind) (t : bytes) : tny_backend_event := event_of k <| ev_text := Some t |>.
Definition error_event (code : tny_event_error_kind) (t : bytes) : tny_backend_event :=
  text_event EV_ERROR t <| ev_error_code := code |>.
Definition end_event (stop : tny_stop_reason) : tny_backend_event := event_of EV_TURN_END <| ev_stop := stop |>.

(** A copy in the queue; its provider and session are those of the engine. *)
Record tny_owned_event := mk_owned {
  o_ev : tny_backend_event; o_sequence : Z; o_timestamp : Z; o_turn : bytes; o_bytes : Z; o_hooks_done : bool;
  o_suppressed : bool }.

#[export] Instance eta_owned : Eta tny_owned_event := fun o =>
  mk_owned (o_ev o) (o_sequence o) (o_timestamp o) (o_turn o) (o_bytes o) (o_hooks_done o) (o_suppressed o).

(** What a copied string takes. *)
Definition field_bytes (s : option bytes) : Z := match s with Some s => Z.of_nat (length s) + 1 | None => 0 end.

Definition owned_bytes (provider sid turn : bytes) (turn_capacity : Z) (ev : tny_backend_event) : Z :=
  field_bytes (Some provider) + field_bytes (Some sid) + Z.max turn_capacity (field_bytes (Some turn)) +
  field_bytes (ev_text ev) + field_bytes (ev_message_id ev) + field_bytes (ev_tool_name ev) + field_bytes (ev_tool_id ev) +
  field_bytes (ev_tool_detail ev) + field_bytes (ev_tool_reason ev) + field_bytes (ev_perm_id ev) +
  field_bytes (ev_perm_summary ev) + field_bytes (ev_message_type ev) + field_bytes (ev_cost_currency ev).

(** ** Extensions (src/src/core/extensions.h) *)

Inductive tny_extension_action_kind :=
  | ACTION_CONTEXT | ACTION_CONTINUE | ACTION_STOP | ACTION_PROMPT_TRANSFORM | ACTION_PROMPT_BLOCK | ACTION_TOOL_REWRITE
  | ACTION_TOOL_DENY | ACTION_PERMISSION_DECISION | ACTION_TOOL_ANNOTATE | ACTION_TOOL_RESULT_REPLACE.

#[export] Instance action_kind_eq : EqDecision tny_extension_action_kind.
Proof. solve_decision. Defined.

Inductive tny_extension_permission_decision := EXTENSION_ABSTAIN | EXTENSION_ALLOW_ONCE | EXTENSION_DENY.

#[export] Instance extension_decision_eq : EqDecision tny_extension_permission_decision.
Proof. solve_decision. Defined.

Record tny_extension_action := mk_action {
  a_kind : tny_extension_action_kind; a_extension : option bytes; a_content : option bytes; a_custom_type : option bytes;
  a_reason : option bytes; a_arguments_json : option bytes; a_custom : bool; (* the message is a custom one *)
  a_decision : tny_extension_permission_decision; a_display : bool; a_is_error : bool }.

Record tny_extension_failure := mk_failure {
  f_extension : option bytes; f_code : option bytes; f_message : option bytes }.

Record tny_extension_result := mk_result { actions : list tny_extension_action; failures : list tny_extension_failure }.

Inductive extension_phase := PHASE_PROMPT | PHASE_BEFORE_START | PHASE_STREAM | PHASE_PERMISSION | PHASE_AGENT_END | PHASE_OBSERVE.

#[export] Instance phase_eq : EqDecision extension_phase.
Proof. solve_decision. Defined.

Record extension_fold := mk_fold {
  fold_stop : bool; fold_blocked : bool; fold_transformed : bool;
  fold_decision : option tny_extension_permission_decision; (* [permission_decided] *)
  fold_extension : bytes; fold_reason : bytes }.

#[export] Instance eta_fold : Eta extension_fold := fun f =>
  mk_fold (fold_stop f) (fold_blocked f) (fold_transformed f) (fold_decision f) (fold_extension f) (fold_reason f).

Definition no_fold : extension_fold := mk_fold false false false None [] [].

(** [snprintf] into an array of [n] bytes. *)
Definition fits (n : nat) (s : bytes) : bytes := take (n - 1) s.

(** The last action that satisfies [p]. *)
Definition last_action (p : tny_extension_action -> bool) (l : list tny_extension_action) : option tny_extension_action :=
  fold_left (fun found a => if p a then Some a else found) l None.

Definition is_kind (k : tny_extension_action_kind) (a : tny_extension_action) : bool := bool_decide (a_kind a = k).
Definition is_decision (d : tny_extension_permission_decision) (a : tny_extension_action) : bool :=
  is_kind ACTION_PERMISSION_DECISION a && bool_decide (a_decision a = d).

(** ** JSON members *)

(** A key and the text of its value. *)
Abbreviation members := (list (bytes * bytes)).

Definition object (ms : members) : bytes := C"{" :: commas (map (fun '(k, v) => quote k ++ C":" :: v) ms) ++ [C"}"].
Definition array (vs : list bytes) : bytes := C"[" :: commas vs ++ [C"]"].
Definition text_of (s : option bytes) (dflt : bytes) : bytes := literal (c_str (default dflt s)).
Definition flag (b : bool) : bytes := if b then B"true" else B"false".

(** A member that is only there with its value. *)
Definition given_member (key : bytes) (s : option bytes) : members :=
  match s with Some s => [(key, literal (c_str s))] | None => [] end.

Definition event_id (sid : bytes) (seq : Z) : bytes := fits 160 (sid ++ C":" :: dec seq).
Definition turn_id (sid : bytes) (agent continuation : Z) : bytes :=
  sid ++ C":" :: dec agent ++ C":" :: int_text continuation.

(** [event_json_begin] and the closing braces. *)
Definition envelope (sid provider : bytes) (agent continuation seq clock : Z) (type : bytes) (payload : members) : bytes :=
  object
    [(B"schema_version", B"1"); (B"event_id", literal (event_id sid seq)); (B"type", literal type); (B"sequence", dec seq);
     (B"provider", literal (c_str provider)); (B"session_id", literal (c_str sid));
     (B"turn_id", literal (fits 160 (turn_id sid agent continuation))); (B"timestamp_ms", int_text clock);
     (B"payload", object payload)].

Definition event_error_name (code : tny_event_error_kind) : bytes :=
  match code with
  | ERROR_IO => B"io" | ERROR_PROTOCOL => B"protocol" | ERROR_BACKPRESSURE => B"backpressure" | ERROR_AUTH => B"auth"
  | ERROR_INTERNAL => B"internal" | ERROR_OOM => B"oom" | ERROR_NONE => B"unknown"
  end.

Definition error_category (code : tny_event_error_kind) : bytes :=
  match code with
  | ERROR_AUTH => B"provider authentication error" | ERROR_IO => B"provider I/O error"
  | ERROR_PROTOCOL => B"provider protocol error" | ERROR_BACKPRESSURE => B"runtime backpressure"
  | _ => B"runtime internal error"
  end.

Definition stop_object (stop : tny_stop_reason) : bytes := object [(B"reason", literal (tny_stop_reason_name stop))].

Definition backend_event_payload (ev : tny_backend_event) : members :=
  match ev_kind ev with
  | EV_TEXT_DELTA | EV_THINKING | EV_PLAN | EV_STATUS | EV_STEER_REJECTED | EV_CUSTOM_MESSAGE | EV_USER_MESSAGE =>
    (B"text", text_of (ev_text ev) []) :: given_member B"message_id" (ev_message_id ev) ++
    given_member B"custom_type" (ev_message_type ev)
  | EV_TOOL_START | EV_TOOL_END | EV_TOOL_PROGRESS =>
    [(B"tool_name", text_of (ev_tool_name ev) B"tool"); (B"tool_id", text_of (ev_tool_id ev) []);
     (B"detail", text_of (ev_tool_detail ev) [])] ++ given_member B"reason" (ev_tool_reason ev) ++
    (if decide (ev_kind ev = EV_TOOL_END) then [(B"ok", flag (ev_tool_ok ev))] else [])
  | EV_PERMISSION =>
    [(B"permission_id", text_of (ev_perm_id ev) []); (B"summary", text_of (ev_perm_summary ev) []);
     (B"options", int_text (ev_perm_options ev))]
  | EV_USAGE =>
    [(B"input_tokens", int_text (ev_in_tokens ev)); (B"output_tokens", int_text (ev_out_tokens ev));
     (B"context_used", int_text (ev_context_used ev)); (B"context_size", int_text (ev_context_size ev))] ++
    match ev_cost ev with Some cost => [(B"cost", cost)] | None => [] end ++
    [(B"tokens_reported", flag (negb (ev_tokens_unreported ev))); (B"cost_cumulative", flag (ev_cost_cumulative ev))] ++
    given_member B"cost_currency" (ev_cost_currency ev)
  | EV_TURN_END => [(B"stop", stop_object (ev_stop ev))]
  | EV_ERROR => [(B"message", literal (error_category (ev_error_code ev))); (B"error_code", literal (event_error_name (ev_error_code ev)))]
  end.

(** [prompt] and, of a terminal, its stop, the text of the turn, and the
    continuations with their limit. *)
Definition lifecycle_payload (prompt : option bytes) (terminal : option (tny_stop_reason * bytes * Z * Z)) : members :=
  given_member B"prompt" prompt ++
  match terminal with
  | None => []
  | Some (stop, text, continuations, limit) =>
    [(B"stop", stop_object stop); (B"output_text", literal (c_str text));
     (B"messages", array [object [(B"role", literal B"assistant"); (B"content", literal (c_str text))]]);
     (B"continuation_count", int_text continuations); (B"max_continuations", int_text limit)]
  end.

Definition session_payload (reason : option bytes) (previous : option bytes) : members :=
  (B"reason", text_of reason B"unknown") ::
  match previous with Some (c :: s) => [(B"previous_session_id", literal (c_str (c :: s)))] | _ => [] end.

Definition prompt_submit_payload (prompt source submission : bytes) (images : list bytes) : members :=
  [(B"prompt", literal (c_str prompt)); (B"source", literal source); (B"submission_id", literal (c_str submission));
   (B"images", array (map (fun path => object [(B"path", literal (c_str path))]) images))].

Definition turn_start_payload (continuation : Z) (source : bytes) : members :=
  [(B"iteration", int_text continuation); (B"source", literal source)].

Definition message_payload (id : option bytes) (text : option bytes) : members :=
  [(B"message_id", text_of id []); (B"role", literal B"assistant"); (B"content_type", literal B"text")] ++
  given_member B"text" text.

Definition SUMMARY_MAX : nat := Z.to_nat 16384.

(** What a compaction is told by, after its trigger. *)
Inductive compaction := COMPACT_PRE (count : Z) | COMPACT_POST (before after : Z) (summary : option bytes) | COMPACT_FAILED (error : bytes).

Definition compact_payload (trigger : option bytes) (c : compaction) : members :=
  (B"trigger", text_of trigger B"manual") ::
  match c with
  | COMPACT_PRE count => [(B"message_count", int_text count)]
  | COMPACT_POST before after summary =>
    [(B"before_count", int_text before); (B"after_count", int_text after);
     (B"summary", literal (take SUMMARY_MAX (c_str (default [] summary))))]
  | COMPACT_FAILED error => [(B"error", literal error)]
  end.

Definition selection_payload (previous current source : option bytes) : members :=
  [(B"previous", text_of previous B"default"); (B"current", text_of current B"default"); (B"source", text_of source B"runtime")].

Definition workspace_payload (action path : option bytes) (dirs : list bytes) : members :=
  [(B"action", text_of action B"update"); (B"path", text_of path []); (B"directories", array (map (fun d => literal (c_str d)) dirs))].

Definition instructions_payload (paths : list bytes) (digest : bytes) : members :=
  [(B"paths", array (map (fun p => literal (c_str p)) paths)); (B"digest", literal (c_str digest));
   (B"count", int_text (Z.of_nat (length paths)))].

(** [native_control_json]; [arguments_valid]: the arguments parse to an object. *)
Definition control_payload (r : tny_openai_control_request) (arguments_valid : bool) : members :=
  let wire := (B"wire_api", text_of (wire_api r) B"responses") in
  let logical := (B"logical_request_id", text_of (logical_request_id r) []) in
  match kind r with
  | PRE_TOOL =>
    let args := if arguments_valid then default [] (arguments_json r) else B"{}" in
    [(B"tool_name", text_of (tool_name r) B"tool"); (B"tool_id", text_of (tool_id r) []); (B"arguments", args);
     (B"original_arguments", args); (B"provider_owned", B"false"); (B"arguments_valid", flag arguments_valid)]
  | PERMISSION =>
    [(B"permission_id", text_of (tool_id r) []); (B"summary", text_of (permission_summary r) []);
     (B"options", int_text (permission_options r))]
  | POST_TOOL =>
    [(B"tool_name", text_of (tool_name r) B"tool"); (B"tool_id", text_of (tool_id r) []); (B"result", text_of (result r) []);
     (B"original_ok", flag (original_ok r))]
  | TOOL_BATCH => [(B"tool_ids", default B"[]" (tool_ids_json r)); (B"failed", int_text (failed_tools r))]
  | PROVIDER_REQUEST =>
    [(B"method", text_of (method r) B"POST"); (B"endpoint", text_of (endpoint r) []);
     (B"metadata", object [(B"stream", flag (stream r)); (B"step", int_text (step r)); wire; logical; (B"attempt", int_text (attempt r))])]
  | PROVIDER_RESPONSE =>
    [(B"status", int_text (status r));
     (B"metadata", object [(B"stream", flag (stream r)); (B"connection_reused", flag (connection_reused r)); wire; logical;
                           (B"attempt", int_text (attempt r))])]
  | SUBAGENT_START => [(B"subagent_id", text_of (subagent_id r) []); (B"action", text_of (subagent_action r) B"create")]
  | SUBAGENT_END =>
    [(B"subagent_id", text_of (subagent_id r) []); (B"action", text_of (subagent_action r) B"create");
     (B"outcome", text_of (subagent_outcome r) B"done"); (B"ok", flag (subagent_ok r))]
  end.

(** The event a control request is told as. *)
Definition control_event (r : tny_openai_control_request) : bytes :=
  match kind r with
  | PRE_TOOL => B"pre_tool_use"
  | PERMISSION => B"permission_request"
  | POST_TOOL => if original_ok r then B"post_tool_use" else B"post_tool_failure"
  | TOOL_BATCH => B"post_tool_batch"
  | PROVIDER_REQUEST => B"provider_request"
  | PROVIDER_RESPONSE => B"provider_response"
  | SUBAGENT_START => B"subagent_start"
  | SUBAGENT_END => B"subagent_end"
  end.

#[export] Instance eta_response : Eta tny_openai_control_response := fun a =>
  mk_response (r_arguments_json a) (r_result a) (r_extension a) (r_reason a) (r_deny a) (r_stop a) (r_result_replaced a)
    (r_result_is_error a) (r_permission a).
