(* ===== verification/Engine.v ===== *)
(** The turn engine (src/src/core/runtime.c): between a frontend that starts
    turns and takes events, a backend that runs them and reports, and extensions
    that are told of everything and may stop, block, decide and continue. *)
From S2P Require Import Prelude Decimal Effects Json JsonText JsonValue StreamDecode ExecControl EngineEvents.

Open Scope Z_scope.

(** ** Bounds *)

Definition ENGINE_EVENT_MAX : Z := 256.
Definition ENGINE_EVENT_BYTES_MAX : Z := 1024 * 1024.
Definition ENGINE_RESERVED_EVENTS : Z := 2.
Definition ENGINE_RESERVED_BYTES : Z := 1024.
Definition ACP_TRANSCRIPT_BYTES_MAX : Z := 8 * 1024 * 1024.

(** ** The engine *)

(** With the members of the session it keeps: the numbers of its last event and
    of its last turn, and whether the extensions know of it. [bk]: there is a
    backend. *)
Record tny_engine := mk_engine {
  event_sequence : Z; agent_sequence : Z; session_started : bool;
  bk : bool; active : bool; terminal : bool; terminal_popped : bool; finalize_pending : bool; overflow_pending : bool;
  oom_pending : bool; forcing_error : bool; stop : tny_stop_reason; prompt_text : option bytes;
  prepared_requeue_text : option bytes; native_observed_permission_id : option bytes; extensions_started : bool;
  extension_stop_requested : bool; extension_cancel_sent : bool; submission_sequence : Z; extension_continuations : Z;
  pending_terminal : option tny_owned_event; turn_text : bytes; acp_text : bytes; acp_iteration_pending : bool;
  message_text : bytes; current_message_id : option bytes; message_started : bool; turn_started : bool;
  restart_initialization_pending : bool; extension_followup : bytes; queue : list tny_owned_event; queue_count : Z;
  queue_bytes : Z; oom_error_reserve : option tny_owned_event; oom_terminal_reserve : option tny_owned_event;
  cancel_requested : bool; cancel_armed : bool }.

#[export] Instance eta_engine : Eta tny_engine := fun e =>
  mk_engine (event_sequence e) (agent_sequence e) (session_started e) (bk e) (active e) (terminal e) (terminal_popped e)
    (finalize_pending e) (overflow_pending e) (oom_pending e) (forcing_error e) (stop e) (prompt_text e)
    (prepared_requeue_text e) (native_observed_permission_id e) (extensions_started e) (extension_stop_requested e)
    (extension_cancel_sent e) (submission_sequence e) (extension_continuations e) (pending_terminal e) (turn_text e)
    (acp_text e) (acp_iteration_pending e) (message_text e) (current_message_id e) (message_started e) (turn_started e)
    (restart_initialization_pending e) (extension_followup e) (queue e) (queue_count e) (queue_bytes e)
    (oom_error_reserve e) (oom_terminal_reserve e) (cancel_requested e) (cancel_armed e).

(** [calloc]; the two reserves come with [ensure_oom_reserves]. *)
Definition no_engine : tny_engine :=
  mk_engine 0 0 false false false false false false false false false STOP_DONE None None None false false false 0 0 None [] []
    false [] None false false false [] [] 0 0 None None false false.

(** ** What backends do *)

Inductive tny_backend_id := BK_OPENAI | BK_ACP.

#[export] Instance backend_id_eq : EqDecision tny_backend_id.
Proof. solve_decision. Defined.

(** An operation of a backend: it reports events, asks the engine for a control
    decision, and looks at and changes what is outside the engine, its own state
    among it; all in any order, each depending on all before. *)
Inductive prog (W A : Type) : Type :=
  | Done (a : A)
  | Emit (ev : tny_backend_event) (k : prog W A)
  | Control (r : tny_openai_control_request) (k : tny_openai_control_response -> prog W A)
  | Outside {X : Type} (f : W -> X * W) (k : X -> prog W A).
Arguments Done {W A}.
Arguments Emit {W A}.
Arguments Control {W A}.
Arguments Outside {W A X}.

(** ** The outside *)

(** What is recorded in the session. *)
Inductive session_edit :=
  | PROMPT_AUDIT (submission prompt effective : bytes) (blocked : bool) (extension reason : bytes)
  | TOOL_AUDIT (r : tny_openai_control_request) (effective : option bytes) (ok : bool) (extension : option bytes) (annotations : bytes)
  | ADD_USER (t : bytes)
  | ADD_ASSISTANT (t : bytes)
  | BUMP_TURNS
  | SET_HOST_POINTER (t : bytes)
  | SET_META
  | SET_TITLE (t : bytes)
  | SKILL_INJECTION (index : Z) (names : list bytes) (prompt : bytes).

Inductive poll_result := POLL_INTERRUPTED | POLL_FAILED | POLL_READY (woken : bool).

Section outside.
Context {W : Type}.

(** Every answer may depend on all that was asked before, through [W]. *)
Record host := mk_host {
  h_memory : W -> bool * W;                                   (* whether an allocation has failed *)
  h_clear : W -> W;                                           (* the failure is forgotten, settlement begins *)
  h_text : W -> bool * W;                                     (* a copy or a buffer got its memory *)
  h_clock : W -> Z * W;
  h_notify : W -> W;
  h_invoke : bytes -> bytes -> W -> option tny_extension_result * W;
  h_edit : session_edit -> W -> W;
  h_save : W -> bool * W;
  h_continuation : W -> bool * W;                             (* the session holds a checkpointed turn *)
  h_titled : W -> bool * W;
  h_message_count : W -> Z * W;
  h_skills : bytes -> W -> (option bytes * list bytes) * W;
  h_probe : option (W -> bool * W);                           (* the frontend's cancellation flag *)
  h_poll : W -> poll_result * W;
  h_deadline : W -> bool * W;                                 (* the wait is over *)
  h_compact_needed : bool -> W -> bool * W;
  h_compact_observed : W -> bool * W;                         (* the provider supports the hook *)
  h_compact : bool -> W -> Z * W;
  h_boundary : W -> (Z * option bytes) * W;
  h_parked : W -> bool * W;
  h_checkpoint : W -> option jval * W;
  h_restore : option jval -> W -> bool * W;
  bk_connect : W -> Z * W;
  bk_resume : option (W -> Z * W);
  bk_pointer : option (W -> option bytes * W);
  bk_send : bytes -> list bytes -> prog W (Z * bytes);
  bk_steer : option (bytes -> prog W Z);
  bk_cancel : option (prog W unit);
  bk_respond : option (bytes -> tny_perm_decision -> prog W unit);
  bk_dispatch : option (prog W Z);
  bk_continue : prog W Z }.

End outside.
Arguments host : clear implicits.

(** What does not change while an engine lives. [cf_rounds]: the rounds given to
    the loop of continuations, which the code does not bound when
    [max_extension_iterations] is 0. *)
Record settings := mk_settings {
  cf_sid : bytes; cf_provider : bytes; cf_backend : tny_backend_id; cf_extensions : bool; cf_max_iterations : Z;
  cf_rounds : nat; cf_start_reason : option bytes; cf_previous : option bytes; cf_instructions : list bytes;
  cf_digest : bytes; cf_dirs : list bytes; cf_images_refused : bool; cf_optimisation : bool; cf_threadsafe : bool }.

(** What can be seen of an engine. *)
Inductive mark :=
  | Began (accepted : bool)                                   (* a turn was to start, or to be taken up again *)
  | Popped (o : tny_owned_event)
  | Heard (event : bytes) (r : option tny_extension_result)   (* [None]: they could not be asked *)
  | Answered (id : bytes) (d : tny_perm_decision)             (* the extensions decided a permission event *)
  | Controlled (r : tny_openai_control_request) (a : tny_openai_control_response).

Record machine (W : Type) := mk_machine { eng : tny_engine; oom : bool; stuck : bool; world : W; trace : list mark }.
Arguments mk_machine {W}.
Arguments eng {W}.
Arguments oom {W}.
Arguments stuck {W}.
Arguments world {W}.
Arguments trace {W}.
#[export] Instance eta_machine {W} : Eta (machine W) := fun m => mk_machine (eng m) (oom m) (stuck m) (world m) (trace m).

Section engine.
Context {W : Type} (H : host W) (cfg : settings) (jparse : bytes -> option jval).

Abbreviation Engine := (M (machine W)).

(** ** Effects *)

Definition note (i : mark) : Engine unit := change (fun m => m <| trace ::= cons i |>).
Definition ask {A} (f : W -> A * W) : Engine A := fun m => let '(a, w) := f (world m) in (a, m <| world := w |>).
Definition tell (f : W -> W) : Engine unit := change (fun m => m <| world ::= f |>).
Definition field {A} (f : tny_engine -> A) : Engine A := look (fun m => f (eng m)).
Definition put (f : tny_engine -> tny_engine) : Engine unit := change (fun m => m <| eng ::= f |>).
Definition edit (s : session_edit) : Engine unit := tell (h_edit H s).

(** The rounds of a loop are used up: the code would go on. *)
Definition stall : Engine unit := change (fun m => m <| stuck := true |>).

(** [tny_alloc_scope_failed]: once seen, until it is cleared. *)
Definition alloc_failed : Engine bool :=
  seen ← look oom;
  if seen : bool then mret true
  else
    failed ← ask (h_memory H);
    if failed : bool then change (fun m => m <| oom := true |>) ;; mret true else mret false.

(** A text built in a buffer, or a copy: NULL without memory. *)
Definition build (t : bytes) : Engine (option bytes) := ok ← ask (h_text H); mret (if ok : bool then Some t else None).
Definition dup (t : option bytes) : Engine (option bytes) := match t with Some t => build (c_str t) | None => mret None end.

(** Appending to a buffer, piece by piece, until there is no memory for one. *)
Fixpoint extend (b : bytes) (pieces : list bytes) : Engine bytes :=
  match pieces with
  | [] => mret b
  | t :: pieces => ok ← ask (h_text H); if ok : bool then extend (b ++ t) pieces else mret b
  end.

(** A loop with a state. *)
Fixpoint each_with {A T} (f : T -> A -> Engine T) (t : T) (l : list A) : Engine T :=
  match l with
  | [] => mret t
  | a :: l => t ← f t a; each_with f t l
  end.

(** ** The queue *)

Definition next_sequence : Engine Z :=
  put (fun e => e <| event_sequence := u64 (event_sequence e + 1) |>) ;; field event_sequence.

Definition event_copy (ev : tny_backend_event) : Engine (option tny_owned_event) :=
  sequence ← next_sequence;
  clock ← ask (h_clock H);
  e ← look eng;
  let turn := fits 160 (turn_id (cf_sid cfg) (agent_sequence e) (extension_continuations e)) in
  ok ← ask (h_text H);
  mret (if ok : bool
        then Some (mk_owned ev sequence clock turn (owned_bytes (cf_provider cfg) (cf_sid cfg) turn 0 ev) false false)
        else None).

Definition reserve_event (k : tny_event_kind) : Engine (option tny_owned_event) :=
  let ev := if decide (k = EV_ERROR) then error_event ERROR_OOM B"out of memory" else event_of k <| ev_stop := STOP_ERROR |> in
  ok ← ask (h_text H);
  mret (if ok : bool then Some (mk_owned ev 0 0 [] (owned_bytes (cf_provider cfg) (cf_sid cfg) [] 192 ev) false false) else None).

Definition ensure_oom_reserves : Engine bool :=
  e ← look eng;
  match oom_error_reserve e, oom_terminal_reserve e with
  | Some _, Some _ => mret true
  | error, end_ =>
    error ← match error with Some o => mret (Some o) | None => reserve_event EV_ERROR end;
    end_ ← match error, end_ with Some _, None => reserve_event EV_TURN_END | _, _ => mret end_ end;
    match error, end_ with
    | Some _, Some _ => put (fun e => e <| oom_error_reserve := error |> <| oom_terminal_reserve := end_ |>) ;; mret true
    | _, _ => mret false
    end
  end.

Definition prepare_reserved_event (o : tny_owned_event) : Engine tny_owned_event :=
  sequence ← next_sequence;
  clock ← ask (h_clock H);
  e ← look eng;
  mret (o <| o_sequence := sequence |> <| o_timestamp := clock |>
          <| o_turn := fits 192 (turn_id (cf_sid cfg) (agent_sequence e) (extension_continuations e)) |>
          <| o_hooks_done := true |> <| o_suppressed := false |>).

Definition is_reserved_kind (k : tny_event_kind) : bool := bool_decide (k = EV_ERROR) || bool_decide (k = EV_TURN_END).

Definition append_owned (o : tny_owned_event) : Engine unit :=
  put (fun e => e <| queue ::= fun q => q ++ [o] |> <| queue_count := queue_count e + 1 |>
                  <| queue_bytes := queue_bytes e + o_bytes o |>) ;;
  tell (h_notify H).

(** There is no room for [o]. *)
Definition no_room (e : tny_engine) (k : tny_event_kind) (o : tny_owned_event) : bool :=
  let reserved := is_reserved_kind k in
  let count_limit := if reserved then ENGINE_EVENT_MAX else ENGINE_EVENT_MAX - ENGINE_RESERVED_EVENTS in
  let byte_limit := if reserved then ENGINE_EVENT_BYTES_MAX else ENGINE_EVENT_BYTES_MAX - ENGINE_RESERVED_BYTES in
  (count_limit <=? queue_count e) || (byte_limit <? o_bytes o) || (byte_limit - o_bytes o <? queue_bytes e).

Definition queue_event (ev : tny_backend_event) : Engine unit :=
  over ← field terminal;
  if over : bool then mret tt
  else
    failed ← alloc_failed;
    if failed : bool then put (fun e => e <| oom_pending := true |>)
    else
      pending ← field pending_terminal;
      if decide (ev_kind ev = EV_TURN_END /\ is_Some pending) then mret tt
      else
        copy ← event_copy ev;
        match copy with
        | None =>
          failed ← alloc_failed;
          put (fun e => if failed : bool then e <| oom_pending := true |> else e <| overflow_pending := true |>)
        | Some copy =>
          full ← field (fun e => no_room e (ev_kind ev) copy);
          if full : bool then put (fun e => e <| overflow_pending := true |>)
          else if decide (ev_kind ev = EV_TURN_END) then
            put (fun e => e <| pending_terminal :=
              Some (copy <| o_ev := ev <| ev_stop := if forcing_error e then STOP_ERROR else ev_stop ev |> |>) |>)
          else append_owned copy
        end.

Definition mark_last_done (e : tny_engine) : tny_engine :=
  e <| queue ::= fun q => alter (fun o => o <| o_hooks_done := true |>) (length q - 1)%nat q |>.

Definition queue_length : Engine nat := field (fun e => length (queue e)).

(** An event the extensions need not see. *)
Definition queue_internal (ev : tny_backend_event) : Engine unit :=
  before ← queue_length;
  queue_event ev ;;
  after ← queue_length;
  when (before <? after)%nat (put mark_last_done).

Definition synth_error (code : tny_event_error_kind) (t : bytes) : Engine unit := queue_event (error_event code t).

Definition synth_terminal (stop : tny_stop_reason) : Engine unit :=
  over ← field terminal;
  if over : bool then mret tt else queue_event (end_event stop).

(** The transcript of the external agent; false: the event is dropped. *)
Definition collect_acp (ev : tny_backend_event) : Engine bool :=
  e ← look eng;
  match ev_text ev with
  | Some t =>
    if decide (bk e = true /\ cf_backend cfg = BK_ACP /\ ev_kind ev = EV_TEXT_DELTA) then
      if ACP_TRANSCRIPT_BYTES_MAX - Z.of_nat (length (acp_text e)) <? Z.of_nat (length t) then
        put (fun e => e <| forcing_error := true |> <| overflow_pending := true |>) ;;
        queue_event (error_event ERROR_BACKPRESSURE B"ACP transcript exceeds the 8 MiB limit") ;;
        mret false
      else
        ok ← ask (h_text H);
        if ok : bool then put (fun e => e <| acp_text := acp_text e ++ t |>) ;; mret true
        else put (fun e => e <| oom_pending := true |>) ;; mret false
    else mret true
  | None => mret true
  end.

Definition backend_event (ev : tny_backend_event) : Engine unit :=
  over ← field terminal;
  if over : bool then mret tt
  else
    match ev_kind ev, ev_text ev with
    | EV_STEER_REJECTED, Some t => copy ← build t; put (fun e => e <| prepared_requeue_text := copy |>)
    | _, _ => mret tt
    end ;;
    kept ← collect_acp ev;
    if kept : bool then
      before ← queue_length;
      queue_event ev ;;
      after ← queue_length;
      observed ← field native_observed_permission_id;
      match ev_kind ev, ev_perm_id ev, observed with
      | EV_PERMISSION, Some id, Some seen =>
        when (str_eq id seen && (before <? after)%nat)
          (put (fun e => mark_last_done e <| native_observed_permission_id := None |>))
      | _, _, _ => mret tt
      end
    else mret tt.

Fixpoint run {A} (control : tny_openai_control_request -> Engine tny_openai_control_response) (p : prog W A) : Engine A :=
  match p with
  | Done a => mret a
  | Emit ev k => backend_event ev ;; run control k
  | Control r k => a ← control r; run control (k a)
  | Outside f k => x ← ask f; run control (k x)
  end.

(** ** Extensions *)

(** An event's JSON. *)
Definition event_json (type : bytes) (payload : members) : Engine (option bytes) :=
  sequence ← next_sequence;
  clock ← ask (h_clock H);
  e ← look eng;
  build (envelope (cf_sid cfg) (cf_provider cfg) (agent_sequence e) (extension_continuations e) sequence clock type payload).

Definition extension_status (extension : option bytes) (event : bytes) (code message : option bytes) : Engine unit :=
  text ← build (B"extension " ++ take 100 (default B"extension" extension) ++ B" hook " ++ take 80 event ++ B" failed (" ++
                take 40 (default B"error" code) ++ B"): " ++ take 300 (default B"no detail" message));
  queue_internal (event_of EV_STATUS <| ev_text := text |>).

Definition invalid_action (event : bytes) (a : tny_extension_action) (message : bytes) : Engine unit :=
  extension_status (a_extension a) event (Some B"invalid_action") (Some message).

Definition between_texts (b : bytes) : list bytes := match b with [] => [] | _ => [[LF; LF]] end.

Definition append_custom_context (b : bytes) (a : tny_extension_action) : Engine bytes :=
  extend b (between_texts b ++
    [B"[Context from tny extension " ++ default B"extension" (a_extension a)] ++
    match a_custom_type a with Some t => [B" (" ++ t ++ B")"] | None => [] end ++
    [B"]" ++ [LF]; default [] (a_content a); [LF] ++ B"[End extension context]"]).

Definition append_user_followup (b : bytes) (a : tny_extension_action) : Engine bytes :=
  extend b (between_texts b ++ [default [] (a_content a)]).

Definition queue_action_message (a : tny_extension_action) (custom : bool) : Engine unit :=
  match a_content a with
  | Some content =>
    when (a_display a)
      (queue_internal (text_event (if custom then EV_CUSTOM_MESSAGE else EV_USER_MESSAGE) content
        <| ev_message_type := if custom then match a_custom_type a with Some t => Some t | None => a_extension a end else None |>))
  | None => mret tt
  end.

Definition report_failures (event : bytes) (r : tny_extension_result) : Engine unit :=
  each (fun f => extension_status (f_extension f) event (f_code f) (f_message f)) (failures r).

(** Which extension, cut to the members of the fold. *)
Definition attributed (f : extension_fold) (a : tny_extension_action) (reason : bytes) : extension_fold :=
  f <| fold_extension := fits 129 (default B"extension" (a_extension a)) |> <| fold_reason := fits 513 reason |>.

Definition fold_permission (event : bytes) (l : list tny_extension_action) : Engine extension_fold :=
  each (fun a => when (negb (is_kind ACTION_STOP a) && negb (is_kind ACTION_PERMISSION_DECISION a))
    (invalid_action event a B"only a permission decision or stop is accepted")) l ;;
  let deny := last_action (is_decision EXTENSION_DENY) l in
  let allow := last_action (is_decision EXTENSION_ALLOW_ONCE) l in
  match (match deny with Some a => Some a | None => allow end) with
  | Some a => mret (attributed (no_fold <| fold_decision := Some (a_decision a) |>) a (default [] (a_reason a)))
  | None => mret no_fold
  end.

Definition fold_action (event : bytes) (phase : extension_phase) (st : extension_fold * option bytes) (a : tny_extension_action) :
    Engine (extension_fold * option bytes) :=
  let '(fold, target) := st in
  match a_kind a with
  | ACTION_STOP | ACTION_PROMPT_BLOCK => mret st
  | ACTION_PROMPT_TRANSFORM =>
    match phase, target with
    | PHASE_PROMPT, Some _ =>
      t ← extend [] [default [] (a_content a)];
      mret (fold <| fold_transformed := true |> <| fold_extension := fits 129 (default B"extension" (a_extension a)) |>, Some t)
    | _, _ => invalid_action event a B"prompt_transform is accepted only on user_prompt_submit" ;; mret st
    end
  | ACTION_CONTEXT =>
    if decide (phase = PHASE_OBSERVE \/ phase = PHASE_PROMPT) then
      invalid_action event a B"context is not accepted on this event" ;; mret st
    else if decide (phase = PHASE_BEFORE_START) then
      t ← append_custom_context (default [] target) a;
      queue_action_message a true ;; mret (fold, Some t)
    else
      followup ← field extension_followup;
      t ← append_custom_context followup a;
      put (fun e => e <| extension_followup := t |>) ;;
      queue_action_message a true ;; mret st
  | ACTION_CONTINUE =>
    if decide (phase = PHASE_AGENT_END) then
      followup ← field extension_followup;
      t ← (if a_custom a then append_custom_context followup a else append_user_followup followup a);
      put (fun e => e <| extension_followup := t |>) ;;
      queue_action_message a (a_custom a) ;; mret st
    else invalid_action event a B"continue is accepted only on agent_end" ;; mret st
  | _ => invalid_action event a B"tool control action is not accepted on this event" ;; mret st
  end.

(** [target] is the prompt being made, where there is one. *)
Definition fold_extension_result (event : bytes) (phase : extension_phase) (r : tny_extension_result) (target : option bytes) :
    Engine (extension_fold * option bytes) :=
  let l := actions r in
  report_failures event r ;;
  each (fun a => when (is_kind ACTION_STOP a && bool_decide (phase = PHASE_OBSERVE))
    (invalid_action event a B"stop is not accepted on this event")) l ;;
  if existsb (is_kind ACTION_STOP) l && bool_decide (phase <> PHASE_OBSERVE) then mret (no_fold <| fold_stop := true |>, target)
  else
    each (fun a => when (is_kind ACTION_PROMPT_BLOCK a && bool_decide (phase <> PHASE_PROMPT))
      (invalid_action event a B"prompt_block is accepted only on user_prompt_submit")) l ;;
    match (if decide (phase = PHASE_PROMPT) then last_action (is_kind ACTION_PROMPT_BLOCK) l else None) with
    | Some a => mret (attributed (no_fold <| fold_blocked := true |>) a (default B"prompt blocked" (a_reason a)), target)
    | None =>
      if decide (phase = PHASE_PERMISSION) then fold ← fold_permission event l; mret (fold, target)
      else each_with (fold_action event phase) (no_fold, target) l
    end.

Definition hear (event json : bytes) : Engine (option tny_extension_result) :=
  r ← ask (h_invoke H event json);
  note (Heard event r) ;;
  match r with
  | Some _ => mret tt
  | None => extension_status (Some B"extension-host") event (Some B"manager_error") (Some B"could not invoke extension handlers")
  end ;;
  mret r.

Definition invoke_extensions (event : bytes) (json : option bytes) (phase : extension_phase) (target : option bytes) :
    Engine (extension_fold * option bytes) :=
  match json with
  | Some json =>
    if cf_extensions cfg then
      r ← hear event json;
      match r with
      | Some r =>
        '(fold, target) ← fold_extension_result event phase r target;
        when (fold_stop fold) (put (fun e => e <| extension_stop_requested := true |>)) ;;
        mret (fold, target)
      | None => mret (no_fold, target)
      end
    else mret (no_fold, target)
  | None => mret (no_fold, target)
  end.

(** The extensions are told; what they answer does not come back. *)
Definition tell_extensions (event type : bytes) (payload : members) (phase : extension_phase) : Engine unit :=
  json ← event_json type payload;
  _ ← invoke_extensions event json phase None;
  mret tt.

Definition observe (event : bytes) (payload : members) : Engine unit := tell_extensions event event payload PHASE_OBSERVE.

Definition extensions_session_start : Engine unit :=
  started ← field session_started;
  when (cf_extensions cfg && negb started) (
    put (fun e => e <| session_started := true |> <| extensions_started := true |>) ;;
    json ← event_json B"session_start" (session_payload (cf_start_reason cfg) (cf_previous cfg));
    match json with
    | None => mret tt
    | Some _ =>
      _ ← invoke_extensions B"session_start" json PHASE_OBSERVE None;
      observe B"instructions_change" (instructions_payload (cf_instructions cfg) (cf_digest cfg))
    end).

(** What the extensions make of a prompt, and the prompt they leave. *)
Definition prepare_user_prompt (prompt : bytes) (images : list bytes) (source : bytes) : Engine (extension_fold * bytes) :=
  effective ← extend [] [prompt];
  if negb (cf_extensions cfg) then mret (no_fold, effective)
  else
    extensions_session_start ;;
    put (fun e => e <| submission_sequence := u64 (submission_sequence e + 1) |>) ;;
    e ← look eng;
    let submission := fits 192 (cf_sid cfg ++ C":" :: dec (agent_sequence e) ++ B":prompt:" ++ dec (submission_sequence e)) in
    json ← event_json B"user_prompt_submit" (prompt_submit_payload prompt source submission images);
    '(fold, target) ← invoke_extensions B"user_prompt_submit" json PHASE_PROMPT (Some effective);
    let effective := default [] target in
    when (fold_transformed fold || fold_blocked fold)
      (edit (PROMPT_AUDIT submission prompt effective (fold_blocked fold) (fold_extension fold) (fold_reason fold))) ;;
    when (fold_blocked fold) (
      text ← build (B"extension " ++ match fold_extension fold with [] => B"extension" | x => x end ++ B" blocked prompt: " ++
                    match fold_reason fold with [] => B"blocked" | x => x end);
      queue_internal (event_of EV_STATUS <| ev_text := text |>)) ;;
    mret (fold, effective).

Definition end_extension_message : Engine unit :=
  e ← look eng;
  when (cf_extensions cfg && message_started e) (
    observe B"message_end" (message_payload (current_message_id e) (Some (message_text e))) ;;
    put (fun e => e <| message_started := false |> <| current_message_id := None |> <| message_text := [] |>)).

Definition start_extension_message (ev : tny_backend_event) : Engine unit :=
  e ← look eng;
  let id := match ev_message_id ev with
            | Some (c :: s) => c :: s
            | _ => fits 192 (turn_id (cf_sid cfg) (agent_sequence e) (extension_continuations e) ++ B":message")
            end in
  if message_started e && match current_message_id e with Some m => str_eq m id | None => false end then mret tt
  else
    end_extension_message ;;
    copy ← build id;
    put (fun e => e <| current_message_id := copy |> <| message_started := bool_decide (is_Some copy) |>) ;;
    when (bool_decide (is_Some copy)) (observe B"message_start" (message_payload (Some id) None)).

(** ** Hooks on queued events *)

Abbreviation control_fn := (tny_openai_control_request -> Engine tny_openai_control_response).

Definition set_event (i : nat) (f : tny_owned_event -> tny_owned_event) : Engine unit := put (fun e => e <| queue ::= alter f i |>).

Definition cancel_backend (control : control_fn) : Engine unit :=
  there ← field bk;
  match bk_cancel H with Some p => when there (run control p) | None => mret tt end.

(** The answer of the extensions goes to the backend. *)
Definition answer_backend (control : control_fn) (id : option bytes) (d : tny_perm_decision) : Engine unit :=
  there ← field bk;
  match bk_respond H, id with
  | Some f, Some id => when there (note (Answered id d) ;; run control (f id d))
  | _, _ => mret tt
  end.

Definition hook_permission (control : control_fn) (i : nat) (ev : tny_backend_event) (json : bytes) : Engine unit :=
  '(fold, _) ← invoke_extensions B"permission_request" (Some json) PHASE_PERMISSION None;
  when (fold_stop fold || bool_decide (is_Some (fold_decision fold))) (
    set_event i (fun o => o <| o_suppressed := true |>) ;;
    when (negb (fold_stop fold))
      (answer_backend control (ev_perm_id ev)
        (if decide (fold_decision fold = Some EXTENSION_ALLOW_ONCE) then DECISION_ALLOW else DECISION_DENY))).

Definition hook_event (control : control_fn) (i : nat) (ev : tny_backend_event) : Engine unit :=
  let delta := if decide (ev_kind ev = EV_TEXT_DELTA) then ev_text ev else None in
  match delta with
  | Some t =>
    start_extension_message ev ;;
    e ← look eng;
    text ← extend (turn_text e) [t];
    message ← extend (message_text e) [t];
    put (fun e => e <| turn_text := text |> <| message_text := message |>)
  | None => mret tt
  end ;;
  json ← event_json (tny_event_kind_name (ev_kind ev)) (backend_event_payload ev);
  match json with
  | None => mret tt
  | Some json =>
    if decide (ev_kind ev = EV_PERMISSION) then hook_permission control i ev json
    else
      _ ← invoke_extensions (tny_event_kind_name (ev_kind ev)) (Some json) PHASE_STREAM None;
      e ← look eng;
      match delta with
      | Some t =>
        when (message_started e)
          (tell_extensions B"message_update" B"message_update" (message_payload (current_message_id e) (Some t)) PHASE_STREAM)
      | None => mret tt
      end
  end.

(** Down the queue, which may grow meanwhile. *)
Fixpoint hooks_from (control : control_fn) (rounds i : nat) : Engine unit :=
  match rounds with
  | O => stall
  | S rounds =>
    o ← field (fun e => queue e !! i);
    match o with
    | None => mret tt
    | Some o =>
      (if o_hooks_done o then mret tt
       else set_event i (fun o => o <| o_hooks_done := true |>) ;; hook_event control i (o_ev o)) ;;
      hooks_from control rounds (S i)
    end
  end.

(** More than the events a queue holds. *)
Definition HOOK_ROUNDS : nat := 260.

Definition process_queued_extension_hooks (control : control_fn) : Engine unit :=
  e ← look eng;
  if negb (cf_extensions cfg) || (terminal e && forcing_error e) then mret tt else hooks_from control HOOK_ROUNDS 0.

(** ** Controls of the native backend *)

Definition no_response : tny_openai_control_response := mk_response None None None None false false false false PERMISSION_ABSTAIN.

Definition native_set_attribution (a : tny_openai_control_response) (x : tny_extension_action) : Engine tny_openai_control_response :=
  extension ← dup (a_extension x);
  reason ← dup (a_reason x);
  mret (a <| r_extension := extension |> <| r_reason := reason |>).

(** Whether a stop was asked for, now or before; who asked now is named. *)
Definition native_has_stop (r : tny_extension_result) (a : tny_openai_control_response) : Engine (bool * tny_openai_control_response) :=
  before ← field extension_stop_requested;
  let selected := last_action (is_kind ACTION_STOP) (actions r) in
  let stopping := before || bool_decide (is_Some selected) in
  when stopping (put (fun e => e <| extension_stop_requested := true |>)) ;;
  match selected with
  | Some x => a ← native_set_attribution a x; mret (stopping, a)
  | None => mret (stopping, a)
  end.

(** Every action of no kind in [ok] is reported. *)
Definition reject_others (event message : bytes) (ok : tny_extension_action -> bool) (l : list tny_extension_action) : Engine unit :=
  each (fun a => when (negb (is_kind ACTION_STOP a) && negb (ok a)) (invalid_action event a message)) l.

Definition native_pre_tool (json : bytes) : Engine tny_openai_control_response :=
  r ← hear B"pre_tool_use" json;
  match r with
  | None => mret no_response
  | Some r =>
    report_failures B"pre_tool_use" r ;;
    '(stopping, a) ← native_has_stop r no_response;
    if stopping : bool then mret a
    else
      reject_others B"pre_tool_use" B"only tool rewrite, deny, or stop is accepted"
        (fun x => is_kind ACTION_TOOL_DENY x || is_kind ACTION_TOOL_REWRITE x) (actions r) ;;
      match last_action (is_kind ACTION_TOOL_DENY) (actions r), last_action (is_kind ACTION_TOOL_REWRITE) (actions r) with
      | Some x, _ => native_set_attribution (a <| r_deny := true |>) x
      | None, Some x => arguments ← dup (a_arguments_json x); native_set_attribution (a <| r_arguments_json := arguments |>) x
      | None, None => mret a
      end
  end.

Definition native_permission (json : bytes) : Engine tny_openai_control_response :=
  r ← hear B"permission_request" json;
  match r with
  | None => mret no_response
  | Some r =>
    report_failures B"permission_request" r ;;
    '(stopping, a) ← native_has_stop r no_response;
    if stopping : bool then mret a
    else
      reject_others B"permission_request" B"only a permission decision or stop is accepted"
        (is_kind ACTION_PERMISSION_DECISION) (actions r) ;;
      match last_action (is_decision EXTENSION_DENY) (actions r), last_action (is_decision EXTENSION_ALLOW_ONCE) (actions r) with
      | Some x, _ => native_set_attribution (a <| r_permission := PERMISSION_DENY |>) x
      | None, Some x => native_set_attribution (a <| r_permission := PERMISSION_ALLOW_ONCE |>) x
      | None, None => mret a
      end
  end.

Definition annotation (a : tny_extension_action) : bytes :=
  object [(B"extension", text_of (a_extension a) B"extension"); (B"content", text_of (a_content a) []); (B"display", flag (a_display a))].

Definition native_post_tool (req : tny_openai_control_request) (event json : bytes) : Engine tny_openai_control_response :=
  r ← hear event json;
  let r := default (mk_result [] []) r in
  report_failures event r ;;
  '(stopping, a) ← native_has_stop r no_response;
  let l := if stopping : bool then [] else actions r in
  let annotations := List.filter (is_kind ACTION_TOOL_ANNOTATE) l in
  each (fun x =>
    if is_kind ACTION_STOP x || is_kind ACTION_TOOL_RESULT_REPLACE x then mret tt
    else if is_kind ACTION_TOOL_ANNOTATE x then queue_action_message x true
    else invalid_action event x B"only tool annotation, replacement, or stop is accepted") l ;;
  a ← match last_action (is_kind ACTION_TOOL_RESULT_REPLACE) l with
      | Some x =>
        content ← dup (a_content x);
        native_set_attribution (a <| r_result := content |> <| r_result_replaced := bool_decide (is_Some content) |>
                                  <| r_result_is_error := a_is_error x |>) x
      | None => mret a
      end;
  let effective := if r_result_replaced a then r_result a else result req in
  let effective_ok := if r_result_replaced a then negb (r_result_is_error a) else original_ok req in
  let audited := r_result_replaced a || negb (bool_decide (annotations = [])) || bool_decide (is_Some (control_extension req)) ||
                 bool_decide (is_Some (control_reason req)) ||
                 negb (str_eq (default B"{}" (original_arguments_json req)) (default B"{}" (arguments_json req))) in
  when audited (edit (TOOL_AUDIT req effective effective_ok (r_extension a) (array (map annotation annotations)))) ;;
  mret a.

Definition native_observe (event json : bytes) : Engine tny_openai_control_response :=
  r ← hear event json;
  match r with
  | None => mret no_response
  | Some r =>
    report_failures event r ;;
    '(_, _) ← native_has_stop r no_response;
    reject_others event B"this event is observational" (fun _ => false) (actions r) ;;
    mret no_response
  end.

(** What the arguments of a call are shown as. *)
Definition arguments_valid (r : tny_openai_control_request) : bool :=
  match arguments_json r with Some t => is_obj (jparse t) | None => false end.

(** What the extensions answered, and a stop that was asked for. *)
Definition conclude_control (req : tny_openai_control_request) (answer : Engine tny_openai_control_response) :
    Engine tny_openai_control_response :=
  a ← answer;
  stopping ← field extension_stop_requested;
  cancelled ← match h_probe H with Some p => ask p | None => mret false end;
  let a := if stopping || cancelled then a <| r_stop := true |> else a in
  note (Controlled req a) ;; mret a.

Definition native_openai_control (hooks : Engine unit) (req : tny_openai_control_request) : Engine tny_openai_control_response :=
  if negb (cf_extensions cfg) then mret no_response
  else
    hooks ;;
    match kind req with
    | PRE_TOOL => end_extension_message
    | PERMISSION => id ← dup (tool_id req); put (fun e => e <| native_observed_permission_id := id |>)
    | _ => mret tt
    end ;;
    let event := control_event req in
    json ← event_json event (control_payload req (arguments_valid req));
    match json with
    | None => mret no_response
    | Some json =>
      conclude_control req
        match kind req with
        | PRE_TOOL => native_pre_tool json
        | PERMISSION => native_permission json
        | POST_TOOL => native_post_tool req event json
        | _ => native_observe event json
        end
    end.

(** The hooks answer permissions, a backend asks for controls meanwhile, and
    those run the hooks: each time at least one event deeper in the queue. *)
Fixpoint control_at (depth : nat) (req : tny_openai_control_request) : Engine tny_openai_control_response :=
  match depth with
  | O => stall ;; mret no_response
  | S depth => native_openai_control (process_queued_extension_hooks (control_at depth)) req
  end.

Definition control : control_fn := control_at HOOK_ROUNDS.
Definition hooks : Engine unit := process_queued_extension_hooks control.

(** ** The end of a turn *)

Definition fail_oom : Engine unit :=
  over ← field terminal;
  if over : bool then mret tt
  else
    change (fun m => m <| oom := false |>) ;; tell (h_clear H) ;;
    put (fun e => e <| oom_pending := false |> <| overflow_pending := false |> <| forcing_error := true |>
                    <| finalize_pending := false |> <| extension_stop_requested := false |> <| extension_cancel_sent := true |>
                    <| terminal := true |>) ;;
    running ← field active;
    when running (cancel_backend control) ;;
    e ← look eng;
    put (fun e => e <| pending_terminal := None |> <| oom_error_reserve := None |> <| oom_terminal_reserve := None |>) ;;
    match oom_error_reserve e with Some o => o ← prepare_reserved_event o; append_owned o | None => mret tt end ;;
    match oom_terminal_reserve e with Some o => o ← prepare_reserved_event o; append_owned o | None => mret tt end ;;
    put (fun e => e <| terminal := true |> <| active := false |> <| terminal_popped := false |> <| stop := STOP_ERROR |>
                    <| cancel_armed := false |>).

(** [k] unless an allocation has failed. *)
Definition unless_failed (k : Engine unit) : Engine unit := failed ← alloc_failed; if failed : bool then mret tt else k.

Definition finalize_turn : Engine unit :=
  e ← look eng;
  when (finalize_pending e && bk e) (unless_failed (
    put (fun e => e <| finalize_pending := false |>) ;;
    match bk_pointer H with
    | Some f =>
      ptr ← ask f;
      match ptr with Some ptr => unless_failed (edit (SET_HOST_POINTER ptr)) | None => mret tt end
    | None => mret tt
    end ;;
    unless_failed (
      edit SET_META ;;
      unless_failed (
        titled ← ask (h_titled H);
        match prompt_text e with Some t => when (negb titled) (edit (SET_TITLE t)) | None => mret tt end ;;
        unless_failed (_ ← ask (h_save H); mret tt))))).

Definition commit_pending_terminal : Engine unit :=
  e ← look eng;
  match pending_terminal e with
  | None => mret tt
  | Some o =>
    put (fun e => e <| active := false |> <| stop := ev_stop (o_ev o) |> <| finalize_pending := true |>) ;;
    finalize_turn ;;
    failed ← alloc_failed;
    if failed : bool then put (fun e' => e' <| active := active e |>) ;; fail_oom
    else
      put (fun e => e <| pending_terminal := None |> <| terminal := true |> <| cancel_armed := false |> <| stop := ev_stop (o_ev o) |>) ;;
      append_owned (o <| o_hooks_done := true |>)
  end.

(** 0, or -1. *)
Definition persist_acp_iteration : Engine Z :=
  e ← look eng;
  if negb (acp_iteration_pending e) || negb (bk e) || bool_decide (cf_backend cfg <> BK_ACP) then mret 0
  else
    failed ← alloc_failed;
    if failed : bool then mret (-1)
    else
      edit (ADD_ASSISTANT (acp_text e)) ;;
      failed ← alloc_failed;
      if failed : bool then mret (-1)
      else
        edit BUMP_TURNS ;;
        failed ← alloc_failed;
        if failed : bool then mret (-1)
        else
          put (fun e => e <| acp_iteration_pending := false |>) ;;
          ok ← ask (h_save H);
          mret (if ok : bool then 0 else -1).

(** A prompt to the backend ([None]: there was no memory for its copy); its code and the error. *)
Definition start_backend_iteration (prompt : option bytes) (images : list bytes) (source : bytes) : Engine (Z * bytes) :=
  extensions_session_start ;;
  json ← event_json B"before_agent_start" (lifecycle_payload prompt None);
  '(fold, context) ← invoke_extensions B"before_agent_start" json PHASE_BEFORE_START (Some []);
  let context := default [] context in
  effective ← extend context (between_texts context ++ [default [] prompt]);
  kept ← ask (h_text H);
  failed ← (if kept && bool_decide (is_Some prompt) then alloc_failed else mret true);
  if failed : bool then mret (-1, B"out of memory")
  else
    put (fun e => e <| turn_text := [] |> <| message_text := [] |> <| current_message_id := None |> <| message_started := false |>
                    <| turn_started := false |>) ;;
    if fold_stop fold then
      put (fun e => e <| active := true |> <| extension_stop_requested := true |>) ;;
      synth_terminal STOP_INTERRUPTED ;; mret (0, [])
    else
      observe B"agent_start" (lifecycle_payload (Some effective) None) ;;
      e ← look eng;
      observe B"turn_start" (turn_start_payload (extension_continuations e) source) ;;
      put (fun e => e <| active := true |> <| turn_started := true |>) ;;
      stored ← (if decide (cf_backend cfg = BK_ACP) then
                  put (fun e => e <| acp_text := [] |>) ;;
                  edit (ADD_USER effective) ;;
                  put (fun e => e <| acp_iteration_pending := true |>) ;;
                  failed ← alloc_failed;
                  if failed : bool then mret false else ask (h_save H)
                else mret true);
      if stored : bool then
        '(rc, err) ← run control (bk_send H effective images);
        if rc =? 0 then mret (0, [])
        else
          put (fun e => e <| forcing_error := true |>) ;;
          synth_error ERROR_IO (match err with [] => B"backend send failed" | _ => err end) ;;
          synth_terminal STOP_ERROR ;; mret (0, err)
      else
        put (fun e => e <| forcing_error := true |>) ;;
        unless_failed (synth_error ERROR_IO B"could not persist ACP prompt" ;; synth_terminal STOP_ERROR) ;;
        mret (0, []).

(** True: there is more to do before the turn can settle. *)
Definition resolve_pending_terminal : Engine bool :=
  e ← look eng;
  match pending_terminal e with
  | None => mret false
  | Some o =>
    rc ← persist_acp_iteration;
    (if rc =? 0 then mret tt
     else unless_failed (
       put (fun e => e <| forcing_error := true |>
                       <| pending_terminal ::= option_map (fun o => o <| o_ev ::= fun ev => ev <| ev_stop := STOP_ERROR |> |>) |>) ;;
       synth_error ERROR_IO B"could not persist ACP answer")) ;;
    if negb (cf_extensions cfg) then commit_pending_terminal ;; mret false
    else
      end_extension_message ;;
      e ← look eng;
      let ev := from_option o_ev (o_ev o) (pending_terminal e) in
      when (turn_started e) (
        tell_extensions B"turn_end" (tny_event_kind_name (ev_kind ev)) (backend_event_payload ev) PHASE_STREAM ;;
        e ← look eng;
        tell_extensions B"agent_end" B"agent_end"
          (lifecycle_payload None (Some (ev_stop ev, turn_text e, extension_continuations e, cf_max_iterations cfg))) PHASE_AGENT_END) ;;
      e ← look eng;
      let requested := turn_started e && negb (bool_decide (extension_followup e = [])) &&
                       negb (bool_decide (ev_stop ev = STOP_INTERRUPTED)) && negb (bool_decide (ev_stop ev = STOP_DENIED)) &&
                       negb (extension_stop_requested e) in
      let limited := (0 <? cf_max_iterations cfg) && (cf_max_iterations cfg <=? extension_continuations e) in
      when (requested && limited)
        (queue_internal (text_event EV_STATUS B"extension continuation limit reached; agent settled")) ;;
      if requested && negb limited then
        e' ← look eng;
        prompt ← dup (Some (extension_followup e'));
        put (fun e => e <| extension_followup := [] |> <| pending_terminal := None |>
                        <| extension_continuations := extension_continuations e + 1 |>
                        <| extension_stop_requested := false |> <| extension_cancel_sent := false |>) ;;
        '(rc, err) ← start_backend_iteration prompt [] B"continuation";
        when (negb (rc =? 0)) (
          put (fun e => e <| forcing_error := true |>) ;;
          synth_error ERROR_IO (match err with [] => B"extension continuation failed" | _ => err end) ;;
          synth_terminal STOP_ERROR) ;;
        mret true
      else
        put (fun e => e <| extension_followup := [] |>) ;;
        e ← look eng;
        observe B"agent_settled" (lifecycle_payload None (Some (ev_stop ev, turn_text e, extension_continuations e, cf_max_iterations cfg))) ;;
        commit_pending_terminal ;;
        put (fun e => e <| turn_started := false |>) ;;
        mret false
  end.

Fixpoint settle (rounds : nat) : Engine unit :=
  match rounds with
  | O => stall
  | S rounds =>
    hooks ;;
    e ← look eng;
    when (extension_stop_requested e && negb (extension_cancel_sent e) && negb (bool_decide (is_Some (pending_terminal e))) &&
          bk e && bool_decide (is_Some (bk_cancel H)))
      (put (fun e => e <| extension_cancel_sent := true |>) ;; cancel_backend control) ;;
    e ← look eng;
    match pending_terminal e with
    | None => mret tt
    | Some _ => again ← resolve_pending_terminal; if again : bool then settle rounds else mret tt
    end
  end.

Definition after_backend (dispatch_rc : Z) : Engine unit :=
  failed ← alloc_failed;
  when failed (put (fun e => e <| oom_pending := true |>)) ;;
  e ← look eng;
  let going := negb (terminal e) in
  let unsettled := going && negb (bool_decide (is_Some (pending_terminal e))) in
  (if oom_pending e && going then fail_oom
   else if overflow_pending e && unsettled then
     put (fun e => e <| overflow_pending := false |> <| forcing_error := true |>) ;;
     synth_error ERROR_BACKPRESSURE B"event queue backpressure" ;;
     cancel_backend control ;;
     synth_terminal STOP_ERROR
   else when (negb (dispatch_rc =? 0) && unsettled)
     (synth_error ERROR_IO B"backend transport failed" ;; synth_terminal STOP_ERROR)) ;;
  settle (cf_rounds cfg) ;;
  finalize_turn.

(** ** Events for the frontend *)

(** Past the suppressed events. *)
Fixpoint skip_suppressed (q : list tny_owned_event) (count size : Z) : list tny_owned_event * Z * Z :=
  match q with
  | [] => ([], count, size)
  | o :: q' => if o_suppressed o then skip_suppressed q' (count - 1) (size - o_bytes o) else (q, count, size)
  end.

Definition tny_engine_pop_event : Engine (option tny_owned_event) :=
  put (fun e => let '(q, count, size) := skip_suppressed (queue e) (queue_count e) (queue_bytes e) in
                e <| queue := q |> <| queue_count := count |> <| queue_bytes := size |>) ;;
  e ← look eng;
  match queue e with
  | [] => mret None
  | o :: q =>
    put (fun e => e <| queue := q |> <| queue_count := queue_count e - 1 |> <| queue_bytes := queue_bytes e - o_bytes o |>) ;;
    when (bool_decide (ev_kind (o_ev o) = EV_TURN_END)) (put (fun e => e <| terminal_popped := true |>)) ;;
    mret (Some o)
  end.

(** As often as there are events. *)
Fixpoint drain (n : nat) : Engine unit :=
  match n with
  | O => mret tt
  | S n => o ← tny_engine_pop_event; match o with Some _ => drain n | None => mret tt end
  end.

(** ** Turns *)

Definition NOT_READY : bytes := B"runtime is not ready for a turn".
Definition OUT_OF_MEMORY : bytes := B"out of memory".

(** The prompt with the skills it mentions in front, and their names; [None] without memory. *)
Definition inject_skills (effective : bytes) : Engine (option (bytes * list bytes)) :=
  if cf_optimisation cfg then mret (Some (effective, []))
  else
    '(with_skills, names) ← ask (h_skills H effective);
    match with_skills with
    | Some t =>
      effective ← extend [] [t];
      kept ← ask (h_text H);
      mret (if kept : bool then Some (effective, names) else None)
    | None => mret (Some (effective, names))
    end.

(** Code and error; what the frontend gets to see of a turn follows as events. *)
Definition accept_turn (prompt : bytes) (images : list bytes) (effective : bytes) : Engine (Z * bytes) :=
  index ← ask (h_message_count H);
  skills ← inject_skills effective;
  match skills with
  | None => mret (-1, OUT_OF_MEMORY)
  | Some (effective, names) =>
    '(rc, err) ← start_backend_iteration (Some effective) images B"user";
    started ← field turn_started;
    when ((rc =? 0) && negb (bool_decide (names = [])) && started) (edit (SKILL_INJECTION index names prompt)) ;;
    if negb (rc =? 0) then
      n ← queue_length;
      drain (S n) ;;
      put (fun e => e <| terminal_popped := false |> <| extension_followup := [] |>) ;;
      mret (-1, err)
    else
      put (fun e => if active e then e <| cancel_armed := true |> else e) ;;
      after_backend 0 ;; mret (0, [])
  end.

Definition refuse_turn (e : tny_engine) : bool :=
  negb (bk e) || active e || negb (bool_decide (queue e = [])) || bool_decide (is_Some (pending_terminal e)) ||
  (terminal e && negb (terminal_popped e)).

Definition reset_turn (e : tny_engine) : tny_engine :=
  e <| terminal := false |> <| terminal_popped := false |> <| forcing_error := false |> <| stop := STOP_ERROR |>
    <| extension_stop_requested := false |> <| extension_cancel_sent := false |> <| extension_continuations := 0 |>
    <| cancel_requested := false |> <| native_observed_permission_id := None |>
    <| agent_sequence := u64 (agent_sequence e + 1) |> <| extension_followup := [] |>.

(** What the extensions make of a prompt; one that was rejected as a steer was
    shown to them before. *)
Definition shown_prompt (prompt : bytes) (images : list bytes) : Engine (extension_fold * bytes) :=
  requeued ← field prepared_requeue_text;
  match requeued with
  | Some t =>
    if str_eq (c_str t) prompt then
      effective ← extend [] [prompt];
      put (fun e => e <| prepared_requeue_text := None |>) ;; mret (no_fold, effective)
    else prepare_user_prompt prompt images B"user"
  | None => prepare_user_prompt prompt images B"user"
  end.

Definition begin_turn (prompt : bytes) (images : list bytes) : Engine (Z * bytes) :=
  put reset_turn ;;
  '(fold, effective) ← shown_prompt prompt images;
  kept ← ask (h_text H);
  failed ← (if kept : bool then alloc_failed else mret true);
  if failed : bool then mret (-1, OUT_OF_MEMORY)
  else if fold_stop fold || fold_blocked fold then
    put (fun e => e <| active := true |> <| turn_started := false |> <| extension_stop_requested := fold_stop fold |>) ;;
    _ ← ask (h_save H);
    when (fold_blocked fold) (put (fun e => e <| prompt_text := None |>)) ;;
    synth_terminal (if fold_blocked fold then STOP_DENIED else STOP_INTERRUPTED) ;;
    after_backend 0 ;; mret (0, [])
  else accept_turn prompt images effective.

Definition tny_engine_start (prompt : bytes) (images : list bytes) : Engine (Z * bytes) :=
  e ← look eng;
  if refuse_turn e then mret (-1, NOT_READY)
  else
    saved ← ask (h_continuation H);
    if saved : bool then
      mret (-1, B"saved continuation requires tny resume; a new prompt cannot repair or replay pending calls")
    else if negb (bool_decide (images = [])) && cf_images_refused cfg then
      mret (-1, B"image input is disabled for this provider by settings.json image_input")
    else
      armed ← ensure_oom_reserves;
      if negb armed then mret (-1, OUT_OF_MEMORY)
      else
        copy ← build prompt;
        put (fun e => e <| prompt_text := copy |>) ;;
        match copy with None => mret (-1, OUT_OF_MEMORY) | Some _ => begin_turn prompt images end.

(** The runtime keeps a steer the backend does not take. *)
Definition tny_engine_steer (t : bytes) : Engine Z :=
  e ← look eng;
  match bk_steer H with
  | Some f =>
    if negb (active e) || negb (bk e) then mret (-1)
    else
      '(fold, effective) ← prepare_user_prompt t [] B"steer";
      if fold_blocked fold then _ ← ask (h_save H); after_backend 0 ;; mret 0
      else if fold_stop fold then put (fun e => e <| extension_stop_requested := true |>) ;; after_backend 0 ;; mret 0
      else
        rc ← run control (f effective);
        when (negb (rc =? 0)) (backend_event (text_event EV_STEER_REJECTED effective) ;; after_backend 0) ;;
        mret 0
  | None => mret (-1)
  end.

Definition tny_engine_cancel : Engine unit :=
  e ← look eng;
  match bk_cancel H with
  | Some p => when (active e && bk e) (run control p ;; after_backend 0)
  | None => mret tt
  end.

Definition tny_engine_respond_permission (id : bytes) (d : tny_perm_decision) : Engine unit :=
  e ← look eng;
  match bk_respond H with
  | Some f => when (active e && bk e) (run control (f id d) ;; after_backend 0)
  | None => mret tt
  end.

Definition tny_engine_dispatch : Engine Z :=
  e ← look eng;
  match bk_dispatch H with
  | Some p => if active e && bk e then rc ← run control p; after_backend rc ;; mret rc else mret 0
  | None => mret 0
  end.

(** [atomic_exchange] of the flag of a cancellation from another thread. *)
Definition take_cancel : Engine unit :=
  e ← look eng;
  put (fun e => e <| cancel_requested := false |>) ;;
  when (cancel_requested e && active e) tny_engine_cancel.

Definition tny_engine_request_cancel : Engine unit :=
  put (fun e => if cf_threadsafe cfg && cancel_armed e then e <| cancel_requested := true |> else e).

Inductive tny_engine_next := NEXT_ERROR | NEXT_TIMEOUT | NEXT_EVENT (o : tny_owned_event) | NEXT_DRAINED.

Definition next_pop : Engine (option tny_engine_next) :=
  o ← tny_engine_pop_event;
  match o with
  | Some o => mret (Some (NEXT_EVENT o))
  | None =>
    popped ← field terminal_popped;
    if popped : bool then mret (Some NEXT_DRAINED)
    else late ← ask (h_deadline H); mret (if late : bool then Some NEXT_TIMEOUT else None)
  end.

(** One round of waiting; [None]: another one. *)
Definition next_round : Engine (option tny_engine_next) :=
  r ← ask (h_poll H);
  match r with
  | POLL_INTERRUPTED => mret None
  | _ =>
    match r with
    | POLL_READY woken =>
      when (cf_threadsafe cfg && woken) take_cancel ;; _ ← tny_engine_dispatch; mret tt
    | _ =>
      put (fun e => e <| forcing_error := true |>) ;;
      synth_error ERROR_IO B"runtime poll failed" ;;
      cancel_backend control ;;
      synth_terminal STOP_ERROR ;; after_backend 0
    end ;;
    next_pop
  end.

(** While the turn is active; [None]: still waiting after [rounds] rounds. *)
Fixpoint next_wait (rounds : nat) : Engine (option tny_engine_next) :=
  match rounds with
  | O => mret None
  | S rounds =>
    r ← next_round;
    match r with
    | Some r => mret (Some r)
    | None =>
      e ← look eng;
      if active e then next_wait rounds else mret (Some (if terminal_popped e then NEXT_DRAINED else NEXT_TIMEOUT))
    end
  end.

Definition tny_engine_next_event (rounds : nat) : Engine (option tny_engine_next) :=
  when (cf_threadsafe cfg) take_cancel ;;
  o ← tny_engine_pop_event;
  match o with
  | Some o => mret (Some (NEXT_EVENT o))
  | None =>
    e ← look eng;
    if terminal_popped e then mret (Some NEXT_DRAINED)
    else if negb (active e) then mret (Some NEXT_ERROR)
    else next_wait rounds
  end.

(** ** The engine and its session *)

Inductive tny_engine_prepare_state := PREPARE_FRESH | PREPARE_CONNECTED | PREPARE_RESUMED.

#[export] Instance prepare_state_eq : EqDecision tny_engine_prepare_state.
Proof. solve_decision. Defined.

Definition tny_engine_new : Engine bool := ensure_oom_reserves.

Definition tny_engine_prepare (s : tny_engine_prepare_state) : Engine Z :=
  e ← look eng;
  if bk e || active e then mret (-1)
  else
    put (fun e => e <| bk := true |>) ;;
    rc ← (if decide (s = PREPARE_FRESH) then ask (bk_connect H) else mret 0);
    if negb (rc =? 0) then put (fun e => e <| bk := false |>) ;; mret (-1)
    else
      rc ← match bk_resume H with
           | Some f => if decide (s = PREPARE_RESUMED) then mret 0 else ask f
           | None => mret 0
           end;
      if negb (rc =? 0) then put (fun e => e <| bk := false |>) ;; mret (-1) else mret 0.

Definition tny_engine_end_session (reason : bytes) : Engine unit :=
  started ← field session_started;
  when (cf_extensions cfg && started) (
    observe B"session_end" (session_payload (Some (match reason with [] => B"exit" | _ => reason end)) None) ;;
    put (fun e => e <| session_started := false |> <| extensions_started := false |>)).

(** Changed, or a negative number. *)
Definition tny_engine_compact (force : bool) (trigger : option bytes) : Engine Z :=
  e ← look eng;
  if active e then mret (-1)
  else
    needed ← ask (h_compact_needed H force);
    if negb needed then mret 0
    else
      before ← ask (h_message_count H);
      observed ← (if cf_extensions cfg && session_started e then ask (h_compact_observed H) else mret false);
      let tell_compaction event c := when observed (observe event (compact_payload trigger c)) in
      tell_compaction B"pre_compact" (COMPACT_PRE before) ;;
      failed ← alloc_failed;
      if failed : bool then mret (-1)
      else
        changed ← ask (h_compact H force);
        failed ← alloc_failed;
        if failed : bool then mret (-1)
        else
          saved ← (if 0 <=? changed then ask (h_save H) else mret false);
          failed ← alloc_failed;
          if failed : bool then mret (-1)
          else if (0 <=? changed) && saved then
            (if negb (changed =? 0) && observed then
               '(boundary, summary) ← ask (h_boundary H);
               count ← ask (h_message_count H);
               tell_compaction B"post_compact" (COMPACT_POST before (count - boundary + 1) summary)
             else mret tt) ;;
            mret changed
          else tell_compaction B"compact_failed" (COMPACT_FAILED B"session persistence failed") ;; mret (-1).

Definition notify_selection_change (type : bytes) (previous current source : option bytes) : Engine unit :=
  started ← field session_started;
  when (cf_extensions cfg && started &&
        negb (str_eq (default B"default" previous) (default B"default" current)))
    (observe type (selection_payload previous current source)).

Definition tny_engine_model_changed := notify_selection_change B"model_change".
Definition tny_engine_effort_changed := notify_selection_change B"effort_change".

Definition tny_engine_workspace_changed (action path : option bytes) : Engine unit :=
  started ← field session_started;
  when (cf_extensions cfg && started) (observe B"workspace_change" (workspace_payload action path (cf_dirs cfg))).

(** ** A turn put aside and taken up by another process *)

Definition tny_engine_parked : Engine bool :=
  e ← look eng;
  if active e && bk e && bool_decide (cf_backend cfg = BK_OPENAI) then ask (h_parked H) else mret false.

Definition given_text (key : bytes) (s : option bytes) : list (bytes * jval) :=
  match s with Some s => [(key, JStr (c_str s))] | None => [] end.

Definition checkpoint_members (native : jval) (e : tny_engine) : list (bytes * jval) :=
  (B"native", native) :: given_text B"prompt_text" (prompt_text e) ++
  given_text B"prepared_requeue_text" (prepared_requeue_text e) ++ given_text B"current_message_id" (current_message_id e) ++
  [(B"turn_text", JStr (c_str (turn_text e))); (B"message_text", JStr (c_str (message_text e)));
   (B"extension_followup", JStr (c_str (extension_followup e))); (B"extensions_started", JBool (extensions_started e));
   (B"message_started", JBool (message_started e)); (B"turn_started", JBool (turn_started e));
   (B"submission_sequence", JNum (JUint (submission_sequence e)));
   (B"extension_continuations", JNum (JSint (extension_continuations e)))].

Definition tny_engine_checkpoint : Engine (option jval) :=
  parked ← tny_engine_parked;
  e ← look eng;
  if negb parked || negb (bool_decide (queue e = [])) || bool_decide (is_Some (pending_terminal e)) then mret None
  else
    native ← ask (h_checkpoint H);
    mret (native ← native; Some (JObj (checkpoint_members native e))).

Definition restored (r : option jval) (prompt requeue message : option bytes) (turn text followup : bytes) (e : tny_engine) : tny_engine :=
  e <| prompt_text := prompt |> <| prepared_requeue_text := requeue |> <| current_message_id := message |>
    <| turn_text := turn |> <| message_text := text |> <| extension_followup := followup |>
    <| extensions_started := jget_bool r B"extensions_started" false |>
    <| message_started := jget_bool r B"message_started" false |> <| turn_started := jget_bool r B"turn_started" false |>
    <| submission_sequence := u64 (jget_int r B"submission_sequence" 0) |>
    <| extension_continuations := to_int (jget_int r B"extension_continuations" 0) |>
    <| active := true |> <| terminal := false |> <| terminal_popped := false |> <| restart_initialization_pending := true |>.

(** The texts of a checkpoint are copied. *)
Definition restore_texts (r : option jval) : Engine unit :=
  let text key := extend [] [default [] (jget_str r key)] in
  prompt ← dup (jget_str r B"prompt_text");
  requeue ← dup (jget_str r B"prepared_requeue_text");
  message ← dup (jget_str r B"current_message_id");
  turn ← text B"turn_text";
  current ← text B"message_text";
  followup ← text B"extension_followup";
  put (restored r prompt requeue message turn current followup).

Definition tny_engine_restore (r : option jval) : Engine Z :=
  e ← look eng;
  if negb (bk e) || bool_decide (cf_backend cfg <> BK_OPENAI) || active e || negb (is_obj r) then mret (-1)
  else
    armed ← ensure_oom_reserves;
    if negb armed then mret (-1)
    else
      ok ← ask (h_restore H (jget r B"native"));
      if negb ok then mret (-1) else restore_texts r ;; mret 0.

Definition tny_engine_continue : Engine Z :=
  parked ← tny_engine_parked;
  if negb parked then mret (-1)
  else
    e ← look eng;
    when (restart_initialization_pending e) (
      put (fun e => e <| restart_initialization_pending := false |>) ;;
      when (cf_extensions cfg) (observe B"session_start" (session_payload (Some B"background_resume") None))) ;;
    rc ← run control (bk_continue H);
    after_backend rc ;; mret rc.

(** ** What a frontend may call *)

Inductive call :=
  | PREPARE (s : tny_engine_prepare_state)
  | START (prompt : bytes) (images : list bytes)
  | STEER (t : bytes)
  | CANCEL
  | FAIL_OOM
  | RESPOND (id : bytes) (d : tny_perm_decision)
  | DISPATCH
  | POP
  | NEXT (rounds : nat)
  | REQUEST_CANCEL
  | COMPACT (force : bool) (trigger : option bytes)
  | END_SESSION (reason : bytes)
  | SELECTION_CHANGED (type : bytes) (previous current source : option bytes)
  | WORKSPACE_CHANGED (action path : option bytes)
  | RESTORE (r : option jval)
  | CONTINUE
  | SCOPE.                                                    (* [tny_alloc_scope_begin] of the library *)

Definition pop_noted (o : option tny_owned_event) : Engine unit := match o with Some o => note (Popped o) | None => mret tt end.

(** A call; a settlement of memory is only asked for a turn, and only an engine
    without events takes up a checkpoint. *)
Definition perform (c : call) : Engine unit :=
  match c with
  | PREPARE s => _ ← tny_engine_prepare s; mret tt
  | START prompt images => '(rc, _) ← tny_engine_start prompt images; note (Began (rc =? 0))
  | STEER t => _ ← tny_engine_steer t; mret tt
  | CANCEL => tny_engine_cancel
  | FAIL_OOM => e ← look eng; when (active e) fail_oom
  | RESPOND id d => tny_engine_respond_permission id d
  | DISPATCH => _ ← tny_engine_dispatch; mret tt
  | POP => o ← tny_engine_pop_event; pop_noted o
  | NEXT rounds => r ← tny_engine_next_event rounds; match r with Some (NEXT_EVENT o) => note (Popped o) | _ => mret tt end
  | REQUEST_CANCEL => tny_engine_request_cancel
  | COMPACT force trigger => _ ← tny_engine_compact force trigger; mret tt
  | END_SESSION reason => tny_engine_end_session reason
  | SELECTION_CHANGED type previous current source => notify_selection_change type previous current source
  | WORKSPACE_CHANGED action path => tny_engine_workspace_changed action path
  | RESTORE r =>
    e ← look eng;
    when (bool_decide (queue e = []) && bool_decide (pending_terminal e = None))
      (rc ← tny_engine_restore r; note (Began (rc =? 0)))
  | CONTINUE => _ ← tny_engine_continue; mret tt
  | SCOPE => change (fun m => m <| oom := false |>)
  end.

Definition calls (l : list call) : Engine unit := each perform l.

Definition machine0 (w : W) : machine W := mk_machine no_engine false false w [].

(** An engine is made, and the calls follow; without memory for its reserves
    there is none. *)
Definition session_run (l : list call) : Engine unit := made ← tny_engine_new; if made : bool then calls l else mret tt.

End engine.
