(* ===== verification/EngineInv.v ===== *)
(** What the steps within a call of the engine leave as it is: whether a turn
    runs, what is queued already, the tally of the queue, the settlement of
    memory, and that extensions are heeded. *)
From S2P Require Import Prelude Decimal Effects Json JsonText JsonValue StreamDecode ExecControl EngineEvents Engine.

Open Scope Z_scope.

(** ** Specification: extensions are heeded *)

Definition has_kind (k : tny_extension_action_kind) (r : tny_extension_result) : bool := existsb (is_kind k) (actions r).

(** What the answers to a permission request say: a stop leaves it open, a denial
    beats every approval. *)
Definition decided (r : tny_extension_result) : tny_openai_permission_decision :=
  if has_kind ACTION_STOP r then PERMISSION_ABSTAIN
  else if existsb (is_decision EXTENSION_DENY) (actions r) then PERMISSION_DENY
  else if existsb (is_decision EXTENSION_ALLOW_ONCE) (actions r) then PERMISSION_ALLOW_ONCE else PERMISSION_ABSTAIN.

(** The answers to the last question. *)
Definition last_heard (t : list mark) : option (bytes * tny_extension_result) :=
  match t with Heard event (Some r) :: _ => Some (event, r) | _ => None end.

Definition answer_heeds (d : tny_perm_decision) (t : list mark) : Prop :=
  exists r, last_heard t = Some (B"permission_request", r) /\
    match decided r with
    | PERMISSION_ALLOW_ONCE => d = DECISION_ALLOW
    | PERMISSION_DENY => d = DECISION_DENY
    | PERMISSION_ABSTAIN => False
    end.

(** The text [s] that the last action of a kind gives. *)
Definition gives (k : tny_extension_action_kind) (r : tny_extension_result) (member : tny_extension_action -> option bytes) (s : bytes) : Prop :=
  exists x t, last_action (is_kind k) (actions r) = Some x /\ member x = Some t /\ s = c_str t.

(** What a control response may say after the answers [r]. *)
Record response_heeds (req : tny_openai_control_request) (r : tny_extension_result) (a : tny_openai_control_response) : Prop := {
  rh_stop : has_kind ACTION_STOP r = true -> r_stop a = true;
  rh_permission : r_permission a = PERMISSION_ABSTAIN \/ (kind req = PERMISSION /\ r_permission a = decided r);
  rh_deny : r_deny a = true -> kind req = PRE_TOOL /\ has_kind ACTION_TOOL_DENY r = true;
  rh_rewrite : forall s, r_arguments_json a = Some s ->
    kind req = PRE_TOOL /\ has_kind ACTION_TOOL_DENY r = false /\ gives ACTION_TOOL_REWRITE r a_arguments_json s;
  rh_replace : r_result_replaced a = true ->
    kind req = POST_TOOL /\ exists s, r_result a = Some s /\ gives ACTION_TOOL_RESULT_REPLACE r a_content s;
  rh_go : r_stop a = false ->
    (kind req = PERMISSION -> r_permission a = decided r) /\ (kind req = PRE_TOOL -> r_deny a = has_kind ACTION_TOOL_DENY r) }.

(** A response that nothing was decided in. *)
Definition undecided (a : tny_openai_control_response) : Prop :=
  r_permission a = PERMISSION_ABSTAIN /\ r_deny a = false /\ r_arguments_json a = None /\ r_result_replaced a = false.

Definition control_heeds (req : tny_openai_control_request) (a : tny_openai_control_response) (t : list mark) : Prop :=
  match t with
  | Heard event (Some r) :: _ => event = control_event req /\ response_heeds req r a
  | Heard event None :: _ => event = control_event req /\ undecided a
  | _ => False
  end.

Fixpoint heedful (t : list mark) : Prop :=
  match t with
  | [] => True
  | Answered _ d :: t => answer_heeds d t /\ heedful t
  | Controlled req a :: t => control_heeds req a t /\ heedful t
  | _ :: t => heedful t
  end.

(** ** Specification: what a frontend is told *)

Inductive telling := IDLE | RUNNING | OVER.

Definition is_end (o : tny_owned_event) : bool := bool_decide (ev_kind (o_ev o) = EV_TURN_END).

(** A turn that was accepted runs until its end is taken; nothing comes after
    the end until another turn is to start. *)
Definition tell_next (p : telling) (i : mark) : option telling :=
  match i, p with
  | Began true, RUNNING => None
  | Began true, _ => Some RUNNING
  | Began false, RUNNING => Some RUNNING
  | Began false, _ => Some IDLE
  | Popped o, RUNNING => Some (if is_end o then OVER else RUNNING)
  | Popped o, IDLE => if is_end o then None else Some IDLE
  | Popped _, OVER => None
  | _, _ => Some p
  end.

Fixpoint told (t : list mark) : option telling :=
  match t with
  | [] => Some IDLE
  | i :: t => p ← told t; tell_next p i
  end.

(** ** Specification: the tally of the queue *)

Definition size_of (q : list tny_owned_event) : Z := fold_right (fun o s => o_bytes o + s) 0 q.
Arguments size_of : simpl never.

Definition reserved (o : tny_owned_event) : Prop := is_reserved_kind (ev_kind (o_ev o)) = true.

(** The memory of the texts of an event. *)
Definition texts (ev : tny_backend_event) : Z :=
  field_bytes (ev_text ev) + field_bytes (ev_message_id ev) + field_bytes (ev_tool_name ev) + field_bytes (ev_tool_id ev) +
  field_bytes (ev_tool_detail ev) + field_bytes (ev_tool_reason ev) + field_bytes (ev_perm_id ev) +
  field_bytes (ev_perm_summary ev) + field_bytes (ev_message_type ev) + field_bytes (ev_cost_currency ev).

Definition sized (o : tny_owned_event) : Prop := 0 <= texts (o_ev o) <= o_bytes o.

(** The events within the limits, and those that end the turn. *)
Definition roomy (over : bool) (q : list tny_owned_event) : Prop :=
  exists within last, q = within ++ last /\ Z.of_nat (length within) <= ENGINE_EVENT_MAX /\
    size_of within <= ENGINE_EVENT_BYTES_MAX /\ (length last <= 2)%nat /\ Forall reserved last /\
    (over = false -> last = []) /\ Forall sized q.

Definition tallied (e : tny_engine) : Prop :=
  queue_count e = Z.of_nat (length (queue e)) /\ queue_bytes e = size_of (queue e) /\ roomy (terminal e) (queue e).

(** ** Events in the queue *)

(** Their flags may be set; only a permission is suppressed. *)
Definition touched (o o' : tny_owned_event) : Prop :=
  o_ev o' = o_ev o /\ o_bytes o' = o_bytes o /\ (o_hooks_done o = true -> o_hooks_done o' = true) /\
  (o_suppressed o' = true -> o_suppressed o = true \/ ev_kind (o_ev o) = EV_PERMISSION).

(** Neither an end nor a suppressed event that would have to be seen. *)
Definition ordinary (o : tny_owned_event) : Prop :=
  is_end o = false /\ (o_suppressed o = true -> ev_kind (o_ev o) = EV_PERMISSION).

Definition grown (q q' : list tny_owned_event) : Prop :=
  exists old new, q' = old ++ new /\ Forall2 touched q old /\ Forall ordinary new.

Definition done_count (q : list tny_owned_event) : nat := length (List.filter o_hooks_done q).
Arguments done_count : simpl never.

Lemma touched_refl o : touched o o.
Proof. split_and!; auto. Qed.

Lemma touched_trans o o' o'' : touched o o' -> touched o' o'' -> touched o o''.
Proof.
  intros (A1 & A2 & A3 & A4) (B1 & B2 & B3 & B4). split_and!; try congruence; auto. intros Hs.
  destruct (B4 Hs) as [|E]; [auto|]. right. congruence.
Qed.

Lemma all_touched_refl q : Forall2 touched q q.
Proof. induction q; constructor; auto using touched_refl. Qed.

Lemma all_touched_trans q q' q'' : Forall2 touched q q' -> Forall2 touched q' q'' -> Forall2 touched q q''.
Proof.
  intros Hq. revert q''. induction Hq; intros q'' H'; inversion H'; subst; constructor; eauto using touched_trans.
Qed.

Lemma touched_ordinary o o' : touched o o' -> ordinary o -> ordinary o'.
Proof.
  intros (A1 & _ & _ & A4) [B1 B2]. unfold ordinary, is_end in *. rewrite A1. split; [done|]. intros Hs. destruct (A4 Hs); auto.
Qed.

Lemma all_touched_ordinary q q' : Forall2 touched q q' -> Forall ordinary q -> Forall ordinary q'.
Proof. induction 1; intros Ho; inversion Ho; subst; constructor; eauto using touched_ordinary. Qed.

Lemma grown_refl q : grown q q.
Proof. exists q, []. rewrite app_nil_r. split_and!; auto using all_touched_refl. Qed.

Lemma grown_trans q q' q'' : grown q q' -> grown q' q'' -> grown q q''.
Proof.
  intros (old & new & -> & Ho & Hn) (old' & new' & -> & Ho' & Hn').
  apply Forall2_app_inv_l in Ho' as (o1 & o2 & H1 & H2 & ->).
  exists o1, (o2 ++ new'). rewrite app_assoc. split_and!; [done|by eapply all_touched_trans|].
  apply Forall_app. split; [by eapply all_touched_ordinary|done].
Qed.

Lemma grown_touched q q' : Forall2 touched q q' -> grown q q'.
Proof. intros Hq. exists q', []. rewrite app_nil_r. auto. Qed.

Lemma done_touched q q' : Forall2 touched q q' -> (done_count q <= done_count q')%nat.
Proof.
  unfold done_count. induction 1 as [|o o' q q' (_ & _ & Hd & _)]; cbn [List.filter]; [done|].
  destruct (o_hooks_done o); [rewrite Hd by done; cbn [length]; lia|]. destruct (o_hooks_done o'); cbn [length]; lia.
Qed.

Lemma done_app q q' : done_count (q ++ q') = (done_count q + done_count q')%nat.
Proof. unfold done_count. by rewrite filter_app, length_app. Qed.

Lemma done_le q : (done_count q <= length q)%nat.
Proof. unfold done_count. induction q as [|o q IH]; cbn [List.filter length]; [done|]. destruct (o_hooks_done o); cbn [length]; lia. Qed.

Lemma done_grown q q' : grown q q' -> (done_count q <= done_count q')%nat.
Proof. intros (old & new & -> & Ho & _). rewrite done_app. pose proof (done_touched _ _ Ho). lia. Qed.

Lemma size_app q q' : size_of (q ++ q') = size_of q + size_of q'.
Proof. unfold size_of. induction q as [|o q IH]; cbn [app fold_right]; lia. Qed.

Lemma size_touched q q' : Forall2 touched q q' -> size_of q' = size_of q.
Proof. unfold size_of. induction 1 as [|o o' q q' (_ & Hb & _)]; cbn [fold_right]; lia. Qed.

Lemma reserved_touched q q' : Forall2 touched q q' -> Forall reserved q -> Forall reserved q'.
Proof.
  induction 1 as [|o o' q q' (He & _)]; intros Hr; inversion Hr; subst; constructor; auto. unfold reserved. by rewrite He.
Qed.

Lemma sized_touched q q' : Forall2 touched q q' -> Forall sized q -> Forall sized q'.
Proof. induction 1 as [|o o' q q' (He & Hb & _)]; intros Hs; inversion Hs; subst; constructor; auto. unfold sized. by rewrite He, Hb. Qed.

Lemma roomy_touched over q q' : Forall2 touched q q' -> roomy over q -> roomy over q'.
Proof.
  intros Hq (within & last & -> & H1 & H2 & H3 & H4 & H5 & H6). pose proof (sized_touched _ _ Hq H6) as H7.
  apply Forall2_app_inv_l in Hq as (w & l & Hw & Hl & ->). exists w, l. rewrite <- (Forall2_length Hw), <- (Forall2_length Hl), (size_touched _ _ Hw). split_and!; try done.
  - by eapply reserved_touched.
  - intros Ho. rewrite (H5 Ho) in Hl. by inversion Hl.
Qed.

Lemma roomy_length over q : roomy over q -> (length q <= 258)%nat.
Proof.
  intros (within & last & -> & H1 & _ & H3 & _). rewrite length_app. unfold ENGINE_EVENT_MAX in H1. lia.
Qed.

Lemma touched_alter f i q : (forall o, q !! i = Some o -> touched o (f o)) -> Forall2 touched q (alter f i q).
Proof.
  revert i. induction q as [|o q IH]; intros [|i] Hf; cbn; constructor; auto using touched_refl, all_touched_refl.
Qed.

Lemma done_alter i q o : q !! i = Some o -> o_hooks_done o = false ->
  done_count (alter (fun o => o <| o_hooks_done := true |>) i q) = S (done_count q).
Proof.
  unfold done_count. revert i. induction q as [|x q IH]; intros [|i] Hi Ho; try done; cbn in *.
  - injection Hi as ->. by rewrite Ho.
  - specialize (IH i Hi Ho). destruct (o_hooks_done x); cbn [length]; by rewrite IH.
Qed.

(** ** Steps within a call *)

(** The members they do not change. *)
Definition core (e : tny_engine) :=
  (bk e, active e, terminal e, terminal_popped e, oom_error_reserve e, oom_terminal_reserve e, extension_continuations e).

(** What is held back: the end of the turn. *)
Definition held (o : tny_owned_event) : Prop := is_end o = true /\ o_suppressed o = false /\ sized o.

Definition pended (e e' : tny_engine) : Prop :=
  pending_terminal e' = pending_terminal e \/
  (terminal e = false /\ pending_terminal e = None /\ exists o, pending_terminal e' = Some o /\ held o).

(** [depth] rounds suffice: every level of nesting ran one hook more. *)
Definition deep (depth : nat) (e : tny_engine) : Prop := tallied e /\ (260 <= depth + done_count (queue e))%nat.

Create HintDb keeps.
Create HintDb hush.

Section rules.
Context {W : Type}.

Abbreviation Engine := (M (machine W)).

Record inner (depth : nat) (m m' : machine W) : Prop := {
  i_core : core (eng m') = core (eng m);
  i_queue : grown (queue (eng m)) (queue (eng m'));
  i_over : terminal (eng m) = true -> length (queue (eng m')) = length (queue (eng m));
  i_pending : pended (eng m) (eng m');
  i_tallied : tallied (eng m) -> tallied (eng m');
  i_stuck : deep depth (eng m) -> stuck m' = stuck m;
  i_told : told (trace m') = told (trace m);
  i_heedful : heedful (trace m) -> heedful (trace m') }.

Lemma core_terminal e e' : core e' = core e -> terminal e' = terminal e.
Proof. unfold core. congruence. Qed.

Lemma pended_refl e : pended e e.
Proof. by left. Qed.

Lemma inner_refl d m : inner d m m.
Proof. constructor; auto using grown_refl, pended_refl. Qed.

Lemma pended_trans e e' e'' : terminal e' = terminal e -> pended e e' -> pended e' e'' -> pended e e''.
Proof.
  intros Ht [E|(H1 & H2 & o & H3 & H4)] [E'|(H1' & H2' & o' & H3' & H4')]; unfold pended.
  - left. congruence.
  - right. rewrite <- Ht, <- E. eauto.
  - right. rewrite E'. eauto.
  - congruence.
Qed.

Lemma deep_inner d m m' : inner d m m' -> deep d (eng m) -> deep d (eng m').
Proof. intros [_ Hq _ _ Ht _ _ _] [H1 H2]. split; [auto|]. apply done_grown in Hq. lia. Qed.

Lemma inner_trans d m m' m'' : inner d m m' -> inner d m' m'' -> inner d m m''.
Proof.
  intros A A'. pose proof (deep_inner _ _ _ A) as Hd. destruct A as [A1 A2 A3 A4 A5 A6 A7 A8], A' as [B1 B2 B3 B4 B5 B6 B7 B8].
  pose proof (core_terminal _ _ A1) as Ht. constructor; try congruence; eauto using grown_trans, pended_trans.
  all: intros Hm; first [rewrite B3; [auto|congruence]|rewrite B6; auto].
Qed.

(** A deeper level has more to spare. *)
Lemma inner_deeper d d' m m' : (d' <= d)%nat -> inner d m m' -> inner d' m m'.
Proof. intros Hd [A1 A2 A3 A4 A5 A6 A7 A8]. constructor; auto. intros [H1 H2]. apply A6. split; [done|lia]. Qed.

Definition keeps {A} (d : nat) (f : Engine A) : Prop := forall m, inner d m (snd (f m)).

Lemma steps_ret {A} d (a : A) : keeps d (mret a).
Proof. intros m. apply inner_refl. Qed.

Lemma steps_bind {A T} d (f : Engine A) (k : A -> Engine T) : keeps d f -> (forall a, keeps d (k a)) -> keeps d (f ≫= k).
Proof.
  intros Hf Hk m. unfold mbind, M_bind. specialize (Hf m). destruct (f m) as [a m'] eqn:E. cbn in Hf.
  eapply inner_trans; [exact Hf|apply Hk].
Qed.

Lemma steps_look {A} d (f : machine W -> A) : keeps d (look f).
Proof. intros m. apply inner_refl. Qed.

Lemma keeps_field {A} d (f : tny_engine -> A) : keeps d (field f).
Proof. apply steps_look. Qed.

(** Nothing of what is looked at changes. *)
Definition same (m m' : machine W) : Prop :=
  core (eng m') = core (eng m) /\ pending_terminal (eng m') = pending_terminal (eng m) /\ queue (eng m') = queue (eng m) /\
  queue_count (eng m') = queue_count (eng m) /\ queue_bytes (eng m') = queue_bytes (eng m) /\ stuck m' = stuck m /\ trace m' = trace m.

Lemma same_inner d m m' : same m m' -> inner d m m'.
Proof.
  intros (E1 & E2 & E3 & E4 & E5 & E6 & E7). constructor; try (rewrite ?E3, ?E7; by auto using grown_refl).
  - by left.
  - intros (T1 & T2 & T3). unfold tallied. by rewrite E3, E4, E5, (core_terminal _ _ E1).
Qed.

Lemma keeps_same {A} d (f : Engine A) : (forall m, same m (snd (f m))) -> keeps d f.
Proof. intros Hf m. by apply same_inner. Qed.

Lemma steps_ask {A} d (f : W -> A * W) : keeps d (ask f).
Proof. apply keeps_same. intros m. unfold ask. by destruct (f (world m)). Qed.

Lemma steps_tell d (f : W -> W) : keeps d (tell f).
Proof. apply keeps_same. by intros m. Qed.

Lemma steps_put d f :
  (forall e, core (f e) = core e /\ pending_terminal (f e) = pending_terminal e /\ queue (f e) = queue e /\
     queue_count (f e) = queue_count e /\ queue_bytes (f e) = queue_bytes e) -> keeps d (put (W := W) f).
Proof. intros Hf. apply keeps_same. intros m. destruct (Hf (eng m)) as (H1 & H2 & H3 & H4 & H5). by split_and!. Qed.

Lemma steps_when d b (f : Engine unit) : (b = true -> keeps d f) -> keeps d (when b f).
Proof. destruct b; cbn; [auto|]. intros _. apply steps_ret. Qed.

Lemma steps_each {A} d (f : A -> Engine unit) l : (forall a, keeps d (f a)) -> keeps d (each f l).
Proof. intros Hf. induction l as [|a l IH]; cbn [each]; [apply steps_ret|]. by apply steps_bind. Qed.

Lemma keeps_each_with {A T} d (f : T -> A -> Engine T) t l : (forall t a, keeps d (f t a)) -> keeps d (each_with f t l).
Proof. intros Hf. revert t. induction l as [|a l IH]; intros t; cbn [each_with]; [apply steps_ret|]. apply steps_bind; auto. Qed.

Lemma keeps_if {A} d (b : bool) (f g : Engine A) : (b = true -> keeps d f) -> (b = false -> keeps d g) -> keeps d (if b then f else g).
Proof. destruct b; auto. Qed.

(** A mark that no frontend sees and that needs no reason. *)
Lemma steps_note d i : (forall p, tell_next p i = Some p) -> (forall t, heedful t -> heedful (i :: t)) -> keeps d (note (W := W) i).
Proof.
  intros Hi Hh m. constructor; cbn -[heedful]; auto using grown_refl, pended_refl. cbn. destruct (told (trace m)) as [p|]; [apply Hi|done].
Qed.

(** Flags of queued events. *)
Lemma inner_flags d m q :
  Forall2 touched (queue (eng m)) q -> inner d m (m <| eng ::= fun e => e <| queue := q |> |>).
Proof.
  intros Hq. constructor; cbn; auto using grown_touched, pended_refl.
  - intros _. by rewrite (Forall2_length Hq).
  - by left.
  - intros (T1 & T2 & T3). unfold tallied. cbn. rewrite <- (Forall2_length Hq), (size_touched _ _ Hq).
    split_and!; [done..|by eapply roomy_touched].
Qed.

Lemma keeps_set_event d i f : (forall o, touched o (f o)) -> keeps d (set_event (W := W) i f).
Proof. intros Hf m. apply inner_flags. apply touched_alter. auto. Qed.

Lemma done_touches o : touched o (o <| o_hooks_done := true |>).
Proof. split_and!; auto. Qed.

Lemma keeps_last_done d : keeps d (put (W := W) mark_last_done).
Proof. intros m. apply inner_flags. apply touched_alter. auto using done_touches. Qed.


(** ** The queue *)

Lemma keeps_stuck_free d (f : machine W -> machine W) :
  (forall m, eng (f m) = eng m /\ stuck (f m) = stuck m /\ trace (f m) = trace m) -> keeps d (change f).
Proof. intros Hf. apply keeps_same. intros m. destruct (Hf m) as (E1 & E2 & E3). cbn. unfold same. by rewrite E1, E2, E3. Qed.

Lemma snd_bind {A T} (f : Engine A) (k : A -> Engine T) m : snd ((f ≫= k) m) = snd (k (fst (f m)) (snd (f m))).
Proof. unfold mbind, M_bind. by destruct (f m). Qed.

(** Nothing is noted, and a stop stays asked for. *)
Definition hush {A} (f : Engine A) : Prop := forall m, trace (snd (f m)) = trace m /\
  (extension_stop_requested (eng m) = true -> extension_stop_requested (eng (snd (f m))) = true).

Lemma hush_bind {A T} (f : Engine A) (k : A -> Engine T) : hush f -> (forall a, hush (k a)) -> hush (f ≫= k).
Proof.
  intros Hf Hk m. rewrite snd_bind. destruct (Hf m) as [E1 E2], (Hk (fst (f m)) (snd (f m))) as [E3 E4]. split; [congruence|auto].
Qed.

Lemma hush_ask {A} (f : W -> A * W) : hush (ask f).
Proof. intros m. unfold ask. by destruct (f (world m)). Qed.

Lemma hush_when b (f : Engine unit) : hush f -> hush (when b f).
Proof. by destruct b. Qed.

Lemma hush_each {A} (f : A -> Engine unit) l : (forall a, hush (f a)) -> hush (each f l).
Proof. intros Hf. induction l as [|a l IH]; cbn [each]; [done|]. by apply hush_bind. Qed.

Lemma hush_each_with {A T} (f : T -> A -> Engine T) t l : (forall t a, hush (f t a)) -> hush (each_with f t l).
Proof. intros Hf. revert t. induction l as [|a l IH]; intros t; cbn [each_with]; [done|]. apply hush_bind; auto. Qed.

(** The result for [Q], with the trace it leaves and whether a stop is asked for. *)
Definition leaves {A} (t : list mark) (b : bool) (f : Engine A) (Q : A -> list mark -> bool -> Prop) : Prop :=
  forall m, trace m = t -> extension_stop_requested (eng m) = b ->
    Q (fst (f m)) (trace (snd (f m))) (extension_stop_requested (eng (snd (f m)))).

Lemma leaves_ret {A} t b (a : A) (Q : A -> list mark -> bool -> Prop) : Q a t b -> leaves t b (mret a) Q.
Proof. intros HQ m <- <-. exact HQ. Qed.

Lemma leaves_bind {A T} t b (f : Engine A) (k : A -> Engine T) (P : A -> list mark -> bool -> Prop) Q :
  leaves t b f P -> (forall a t' b', P a t' b' -> leaves t' b' (k a) Q) -> leaves t b (f ≫= k) Q.
Proof.
  intros Hf Hk m Ht Hb. specialize (Hf m Ht Hb). unfold mbind, M_bind. destruct (f m) as [a m'] eqn:E. by apply (Hk a _ _ Hf m').
Qed.

Lemma leaves_hush {A T} t b (f : Engine A) (k : A -> Engine T) Q :
  hush f -> (forall a b', (b = true -> b' = true) -> leaves t b' (k a) Q) -> leaves t b (f ≫= k) Q.
Proof.
  intros Hf Hk. apply (leaves_bind t b f k (fun _ t' b' => t' = t /\ (b = true -> b' = true))).
  - intros m <- <-. apply Hf.
  - intros a t' b' [-> Hb]. by apply Hk.
Qed.

Lemma leaves_field {A T} t b (g : tny_engine -> A) (k : A -> Engine T) Q : (forall a, leaves t b (k a) Q) -> leaves t b (field g ≫= k) Q.
Proof. intros Hk m Ht Hb. rewrite snd_bind. by apply (Hk (g (eng m)) m). Qed.

Lemma leaves_stop {T} t b (k : bool -> Engine T) Q : leaves t b (k b) Q -> leaves t b (field extension_stop_requested ≫= k) Q.
Proof. intros Hk m Ht Hb. unfold mbind, M_bind, field, look. rewrite Hb. by apply Hk. Qed.

Lemma leaves_note {T} t b i (k : unit -> Engine T) Q : leaves (i :: t) b (k tt) Q -> leaves t b (note i ≫= k) Q.
Proof. intros Hk m Ht Hb. apply (Hk (m <| trace ::= cons i |>)); [cbn; congruence|done]. Qed.

Lemma leaves_mono {A} t b (f : Engine A) (P Q : A -> list mark -> bool -> Prop) :
  leaves t b f P -> (forall a t' b', P a t' b' -> Q a t' b') -> leaves t b f Q.
Proof. intros Hf HQ m Ht Hb. by apply HQ, Hf. Qed.

End rules.

#[export] Hint Extern 1 (_ /\ _) => by split_and! : keeps.
#[export] Hint Resolve steps_ret steps_ask steps_tell steps_look keeps_field keeps_last_done done_touches : keeps.

(** Runs through a program whose parts are known. *)
Ltac keep :=
  repeat match goal with
  | |- keeps _ (_ ≫= _) => apply steps_bind; [|intros ?]
  | |- keeps _ (when _ _) => apply steps_when; intros ?
  | |- keeps _ (each _ _) => apply steps_each; intros ?
  | |- keeps _ (each_with _ _ _) => apply keeps_each_with; intros ? ?
  | |- keeps _ (put _) => apply steps_put; intros ?; by split_and!
  | |- keeps _ (if decide ?P then _ else _) => destruct (decide P)
  | |- keeps _ (if ?b then _ else _) => destruct b eqn:?
  | |- keeps _ (match ?x with _ => _ end) => destruct x eqn:?
  | |- keeps _ (let '(_, _) := ?x in _) => destruct x
  | |- keeps _ _ => solve [eauto with keeps]
  end.

#[export] Hint Resolve hush_ask : hush.
#[export] Hint Extern 1 (hush (mret _)) => done : hush.
#[export] Hint Extern 1 (hush (look _)) => done : hush.
#[export] Hint Extern 1 (hush (field _)) => done : hush.
#[export] Hint Extern 1 (hush (put _)) => intros ?; split; [done|intros ?; cbn; repeat case_match; done] : hush.
#[export] Hint Extern 1 (hush (tell _)) => done : hush.
#[export] Hint Extern 1 (hush (change _)) => done : hush.

Ltac quieten :=
  repeat match goal with
  | |- hush (_ ≫= _) => apply hush_bind; [|intros ?]
  | |- hush (when _ _) => apply hush_when
  | |- hush (each _ _) => apply hush_each; intros ?
  | |- hush (each_with _ _ _) => apply hush_each_with; intros ? ?
  | |- hush (if decide ?P then _ else _) => destruct (decide P)
  | |- hush (if ?b then _ else _) => destruct b eqn:?
  | |- hush (match ?x with _ => _ end) => destruct x eqn:?
  | |- hush _ => solve [eauto with hush]
  end.

Section inner.
Context {W : Type} (H : host W) (cfg : settings).

Abbreviation Engine := (M (machine W)).

Lemma alloc_failed_keeps d : keeps d (alloc_failed H).
Proof. unfold alloc_failed. keep. by apply keeps_stuck_free. Qed.

Lemma build_keeps d t : keeps d (build H t).
Proof. unfold build. keep. Qed.

Lemma dup_keeps d t : keeps d (dup H t).
Proof. unfold dup, build. keep. Qed.

Lemma extend_keeps d b l : keeps d (extend H b l).
Proof. revert b. induction l as [|t l IH]; intros b; cbn [extend]; keep. Qed.

Lemma next_sequence_keeps d : keeps d (next_sequence (W := W)).
Proof. unfold next_sequence. keep. Qed.
#[local] Hint Resolve alloc_failed_keeps build_keeps dup_keeps extend_keeps next_sequence_keeps : keeps.


Lemma same_refl (m : machine W) : same m m.
Proof. by split_and!. Qed.

Lemma same_chain (m m' m'' : machine W) : same m m' -> same m' m'' -> same m m''.
Proof. unfold same. intuition congruence. Qed.

Lemma alloc_failed_same m : same m (snd (alloc_failed H m)).
Proof.
  unfold alloc_failed. rewrite snd_bind. cbn. destruct (oom m); [apply same_refl|]. rewrite snd_bind. unfold ask.
  destruct (h_memory H (world m)) as [[] w]; by split_and!.
Qed.

Lemma owned_sized ev turn capacity : 0 <= texts ev <= owned_bytes (cf_provider cfg) (cf_sid cfg) turn capacity ev.
Proof.
  assert (forall x, 0 <= field_bytes x) as Hf by (intros [x|]; unfold field_bytes; lia).
  unfold texts, owned_bytes. repeat match goal with |- context [field_bytes ?x] => pose proof (Hf x); generalize dependent (field_bytes x); intros end. lia.
Qed.

(** A copy is a new event. *)
Lemma event_copy_spec ev m : same m (snd (event_copy H cfg ev m)) /\
  (forall o, fst (event_copy H cfg ev m) = Some o -> o_ev o = ev /\ o_suppressed o = false /\ sized o).
Proof.
  unfold event_copy, next_sequence, ask, mbind, M_bind, put, change, field, look. cbn.
  destruct (h_clock H (world m)) as [t w]. cbn. destruct (h_text H w) as [[] w']; cbn; split; try by split_and!.
  all: intros o Ho; try done. injection Ho as <-. split_and!; [done..|unfold sized; cbn [o_ev o_bytes]; apply owned_sized].
Qed.

Lemma no_room_roomy e k o : tallied e -> terminal e = false -> sized o -> no_room e k o = false ->
  roomy false (queue e ++ [o]).
Proof.
  intros (T1 & T2 & within & last & E & H1 & H2 & H3 & H4 & H5 & H6) Ht Hs Hr. rewrite (H5 Ht), app_nil_r in E. subst within.
  exists (queue e ++ [o]), []. unfold no_room in Hr. rewrite app_nil_r, length_app, size_app. cbn [length size_of fold_right].
  unfold size_of at 2. cbn [fold_right]. unfold ENGINE_EVENT_MAX, ENGINE_EVENT_BYTES_MAX, ENGINE_RESERVED_EVENTS, ENGINE_RESERVED_BYTES in *.
  destruct (is_reserved_kind k); split_and!; try done; try (cbn; lia); try by constructor.
  all: apply Forall_app; split; [done|by constructor].
Qed.

Definition appended (o : tny_owned_event) (e : tny_engine) : tny_engine :=
  e <| queue ::= fun q => q ++ [o] |> <| queue_count := queue_count e + 1 |> <| queue_bytes := queue_bytes e + o_bytes o |>.

Lemma append_run m o : snd (append_owned H o m) = m <| eng ::= appended o |> <| world ::= h_notify H |>.
Proof. done. Qed.

Lemma append_inner d m o : terminal (eng m) = false -> ordinary o -> (tallied (eng m) -> roomy false (queue (eng m) ++ [o])) ->
  inner d m (snd (append_owned H o m)).
Proof.
  intros Ht Ho Hr. rewrite append_run. constructor; cbn; try done.
  - exists (queue (eng m)), [o]. split_and!; [done|apply all_touched_refl|by constructor].
  - congruence.
  - by left.
  - intros Hm. pose proof Hm as (T1 & T2 & T3). unfold tallied. cbn. rewrite length_app, size_app. cbn [length].
    unfold size_of at 2. cbn [fold_right]. rewrite Ht. split_and!; [lia|lia|auto].
Qed.

Lemma put_inner d m f :
  core (f (eng m)) = core (eng m) -> pending_terminal (f (eng m)) = pending_terminal (eng m) -> queue (f (eng m)) = queue (eng m) ->
  queue_count (f (eng m)) = queue_count (eng m) -> queue_bytes (f (eng m)) = queue_bytes (eng m) -> inner d m (snd (put (W := W) f m)).
Proof. intros. apply same_inner. by split_and!. Qed.

(** The end of a turn is held back. *)
Lemma pend_inner d m g : terminal (eng m) = false -> pending_terminal (eng m) = None -> held (g (eng m)) ->
  inner d m (snd (put (W := W) (fun e => e <| pending_terminal := Some (g e) |>) m)).
Proof.
  intros Ht Hp Ho. constructor; cbn; auto using grown_refl. right. eauto.
Qed.

Lemma queue_event_keeps d ev : keeps d (queue_event H cfg ev).
Proof.
  intros m. unfold queue_event. rewrite snd_bind. cbn [field look fst snd].
  destruct (terminal (eng m)) eqn:Ht; [apply inner_refl|]. rewrite snd_bind.
  pose proof (alloc_failed_same m) as S1. destruct (alloc_failed H m) as [failed m1]. cbn [fst snd] in *.
  eapply inner_trans; [by apply same_inner|]. destruct failed; [by apply put_inner|]. rewrite snd_bind. cbn [field look fst snd].
  case_decide as Hd; [apply inner_refl|]. rewrite snd_bind. destruct (event_copy_spec ev m1) as [S2 Hc].
  destruct (event_copy H cfg ev m1) as [[o|] m2]; cbn [fst snd] in *; (eapply inner_trans; [apply same_inner; exact S2|]).
  - destruct (Hc o eq_refl) as (E1 & E2 & E3). rewrite snd_bind. cbn [field look fst snd].
    destruct S1 as (C1 & P1 & _), S2 as (C2 & P2 & _).
    assert (terminal (eng m2) = false) as Ht2 by (by rewrite (core_terminal _ _ C2), (core_terminal _ _ C1)).
    destruct (no_room _ _ _) eqn:Hr; [by apply put_inner|]. case_decide as Hk.
    + apply (pend_inner d m2 (fun e => o <| o_ev := ev <| ev_stop := if forcing_error e then STOP_ERROR else ev_stop ev |> |>)); [done| |].
      2: { split_and!; [by apply bool_decide_eq_true|done|]. unfold sized in *. by rewrite E1 in E3. }
      rewrite P2. destruct (pending_terminal (eng m1)); [|done]. by destruct Hd.
    + apply append_inner; [done|split; [unfold is_end; by rewrite E1, bool_decide_false|by rewrite E2]|].
      intros Hm. by eapply no_room_roomy.
  - rewrite snd_bind. pose proof (alloc_failed_same m2) as S3. destruct (alloc_failed H m2) as [failed m3]. cbn [fst snd] in *.
    eapply inner_trans; [apply same_inner; exact S3|]. by destruct failed; apply put_inner.
Qed.
#[local] Hint Resolve queue_event_keeps : keeps.

Lemma queue_internal_keeps d ev : keeps d (queue_internal H cfg ev).
Proof. unfold queue_internal, queue_length. keep. Qed.

Lemma synth_error_keeps d code t : keeps d (synth_error H cfg code t).
Proof. apply queue_event_keeps. Qed.

Lemma synth_terminal_keeps d stop : keeps d (synth_terminal H cfg stop).
Proof. unfold synth_terminal. keep. Qed.
#[local] Hint Resolve queue_internal_keeps synth_error_keeps synth_terminal_keeps : keeps.

Lemma collect_acp_keeps d ev : keeps d (collect_acp H cfg ev).
Proof. unfold collect_acp. keep. Qed.
#[local] Hint Resolve collect_acp_keeps : keeps.

Lemma keeps_observed d : keeps d (put (W := W) (fun e => mark_last_done e <| native_observed_permission_id := None |>)).
Proof.
  intros m. eapply inner_trans; [exact (keeps_last_done d m)|].
  apply same_inner. by split_and!.
Qed.
#[local] Hint Resolve keeps_observed : keeps.

Lemma backend_event_keeps d ev : keeps d (backend_event H cfg ev).
Proof. unfold backend_event, queue_length. keep. Qed.

Lemma run_keeps {A} d c (p : prog W A) : (forall r, keeps d (c r)) -> keeps d (run H cfg c p).
Proof.
  intros Hc. induction p as [a|ev k IH|r k IH|X f k IH]; cbn [run]; [apply steps_ret|..];
    (apply steps_bind; [auto using backend_event_keeps, steps_ask|auto]).
Qed.


(** ** Extensions *)

Lemma extension_status_keeps d x event code message : keeps d (extension_status H cfg x event code message).
Proof. unfold extension_status. keep. Qed.

Lemma invalid_action_keeps d event a message : keeps d (invalid_action H cfg event a message).
Proof. apply extension_status_keeps. Qed.

Lemma append_custom_context_keeps d b a : keeps d (append_custom_context H b a).
Proof. apply extend_keeps. Qed.

Lemma append_user_followup_keeps d b a : keeps d (append_user_followup H b a).
Proof. apply extend_keeps. Qed.

Lemma queue_action_message_keeps d a custom : keeps d (queue_action_message H cfg a custom).
Proof. unfold queue_action_message. keep. Qed.
#[local] Hint Resolve extension_status_keeps invalid_action_keeps append_custom_context_keeps append_user_followup_keeps
  queue_action_message_keeps : keeps.

Lemma report_failures_keeps d event r : keeps d (report_failures H cfg event r).
Proof. unfold report_failures. keep. Qed.

Lemma fold_permission_keeps d event l : keeps d (fold_permission H cfg event l).
Proof. unfold fold_permission. keep. Qed.

Lemma fold_action_keeps d event phase st a : keeps d (fold_action H cfg event phase st a).
Proof. unfold fold_action. keep. Qed.
#[local] Hint Resolve report_failures_keeps fold_permission_keeps fold_action_keeps : keeps.

Lemma fold_extension_result_keeps d event phase r target : keeps d (fold_extension_result H cfg event phase r target).
Proof. unfold fold_extension_result. keep. Qed.

Lemma keeps_heard d event r : keeps d (note (W := W) (Heard event r)).
Proof. apply steps_note; [by intros []|done]. Qed.
#[local] Hint Resolve fold_extension_result_keeps keeps_heard : keeps.

Lemma hear_keeps d event json : keeps d (hear H cfg event json).
Proof. unfold hear. keep. Qed.

Lemma event_json_keeps d type payload : keeps d (event_json H cfg type payload).
Proof. unfold event_json. keep. Qed.
#[local] Hint Resolve hear_keeps event_json_keeps : keeps.

Lemma invoke_extensions_keeps d event json phase target : keeps d (invoke_extensions H cfg event json phase target).
Proof. unfold invoke_extensions. keep. Qed.
#[local] Hint Resolve invoke_extensions_keeps : keeps.

Lemma tell_extensions_keeps d event type payload phase : keeps d (tell_extensions H cfg event type payload phase).
Proof. unfold tell_extensions. keep. Qed.

Lemma observe_keeps d event payload : keeps d (observe H cfg event payload).
Proof. apply tell_extensions_keeps. Qed.
#[local] Hint Resolve tell_extensions_keeps observe_keeps : keeps.

Lemma extensions_session_start_keeps d : keeps d (extensions_session_start H cfg).
Proof. unfold extensions_session_start. keep. Qed.
#[local] Hint Resolve extensions_session_start_keeps : keeps.

Lemma edit_keeps d x : keeps d (edit H x).
Proof. apply steps_tell. Qed.
#[local] Hint Resolve edit_keeps : keeps.

Lemma prepare_user_prompt_keeps d prompt images source : keeps d (prepare_user_prompt H cfg prompt images source).
Proof. unfold prepare_user_prompt. keep. Qed.

Lemma end_extension_message_keeps d : keeps d (end_extension_message H cfg).
Proof. unfold end_extension_message. keep. Qed.
#[local] Hint Resolve end_extension_message_keeps : keeps.

Lemma start_extension_message_keeps d ev : keeps d (start_extension_message H cfg ev).
Proof. unfold start_extension_message. keep. Qed.
#[local] Hint Resolve start_extension_message_keeps : keeps.

Lemma native_set_attribution_keeps d a x : keeps d (native_set_attribution H a x).
Proof. unfold native_set_attribution. keep. Qed.
#[local] Hint Resolve native_set_attribution_keeps : keeps.

Lemma native_has_stop_keeps d r a : keeps d (native_has_stop H r a).
Proof. unfold native_has_stop. keep. Qed.

Lemma reject_others_keeps d event message ok l : keeps d (reject_others H cfg event message ok l).
Proof. unfold reject_others. keep. Qed.
#[local] Hint Resolve native_has_stop_keeps reject_others_keeps : keeps.

Lemma native_pre_tool_keeps d json : keeps d (native_pre_tool H cfg json).
Proof. unfold native_pre_tool. keep. Qed.

Lemma native_permission_keeps d json : keeps d (native_permission H cfg json).
Proof. unfold native_permission. keep. Qed.

Lemma native_post_tool_keeps d req event json : keeps d (native_post_tool H cfg req event json).
Proof. unfold native_post_tool. keep. Qed.

Lemma native_observe_keeps d event json : keeps d (native_observe H cfg event json).
Proof. unfold native_observe. keep. Qed.


(** ** What is heard last *)

Lemma alloc_failed_hush : hush (alloc_failed H).
Proof. unfold alloc_failed. quieten. Qed.

Lemma build_hush t : hush (build H t).
Proof. unfold build. quieten. Qed.
#[local] Hint Resolve alloc_failed_hush build_hush : hush.

Lemma dup_hush t : hush (dup H t).
Proof. unfold dup. quieten. Qed.

Lemma extend_hush b l : hush (extend H b l).
Proof. revert b. induction l as [|t l IH]; intros b; cbn [extend]; quieten. Qed.

Lemma queue_event_hush ev : hush (queue_event H cfg ev).
Proof. unfold queue_event, event_copy, next_sequence, append_owned. quieten. Qed.
#[local] Hint Resolve dup_hush extend_hush queue_event_hush : hush.

Lemma queue_internal_hush ev : hush (queue_internal H cfg ev).
Proof. unfold queue_internal, queue_length. quieten. Qed.
#[local] Hint Resolve queue_internal_hush : hush.

Lemma extension_status_hush x event code message : hush (extension_status H cfg x event code message).
Proof. unfold extension_status. quieten. Qed.
#[local] Hint Resolve extension_status_hush : hush.

Lemma queue_action_message_hush a custom : hush (queue_action_message H cfg a custom).
Proof. unfold queue_action_message. quieten. Qed.
#[local] Hint Resolve queue_action_message_hush : hush.

Lemma report_failures_hush event r : hush (report_failures H cfg event r).
Proof. unfold report_failures. quieten. Qed.

Lemma native_set_attribution_hush a x : hush (native_set_attribution H a x).
Proof. unfold native_set_attribution. quieten. Qed.
#[local] Hint Resolve report_failures_hush native_set_attribution_hush : hush.

Lemma native_has_stop_hush r a : hush (native_has_stop H r a).
Proof. unfold native_has_stop. quieten. Qed.

Lemma reject_others_hush event message ok l : hush (reject_others H cfg event message ok l).
Proof. unfold reject_others, invalid_action. quieten. Qed.
#[local] Hint Resolve native_has_stop_hush reject_others_hush : hush.

Lemma hear_leaves t b event json :
  leaves t b (hear H cfg event json) (fun r t' b' => t' = Heard event r :: t /\ (b = true -> b' = true)).
Proof.
  unfold hear. apply leaves_hush; [apply hush_ask|]. intros r b1 H1. apply leaves_note.
  apply leaves_hush; [quieten|]. intros [] b2 H2. apply leaves_ret. auto.
Qed.

End inner.

#[export] Hint Resolve alloc_failed_keeps build_keeps dup_keeps extend_keeps next_sequence_keeps queue_event_keeps
  queue_internal_keeps synth_error_keeps synth_terminal_keeps collect_acp_keeps keeps_observed backend_event_keeps
  run_keeps extension_status_keeps invalid_action_keeps append_custom_context_keeps append_user_followup_keeps
  queue_action_message_keeps report_failures_keeps fold_permission_keeps fold_action_keeps fold_extension_result_keeps
  keeps_heard hear_keeps event_json_keeps invoke_extensions_keeps tell_extensions_keeps observe_keeps
  extensions_session_start_keeps edit_keeps prepare_user_prompt_keeps end_extension_message_keeps
  start_extension_message_keeps native_set_attribution_keeps native_has_stop_keeps reject_others_keeps
  native_pre_tool_keeps native_permission_keeps native_post_tool_keeps native_observe_keeps : keeps.
#[export] Hint Resolve alloc_failed_hush build_hush dup_hush extend_hush queue_event_hush queue_internal_hush
  extension_status_hush queue_action_message_hush report_failures_hush native_set_attribution_hush
  native_has_stop_hush reject_others_hush : hush.
