(* ===== verification/EngineHeeds.v ===== *)
(** The controls of the native backend and the hooks on queued events: extensions
    are heeded, and the two end however they call each other. *)
From S2P Require Import Prelude Decimal Effects Json JsonText JsonValue StreamDecode ExecControl EngineEvents Engine EngineInv.

Open Scope Z_scope.

Section heeds.
Context {W : Type} (H : host W) (cfg : settings) (jparse : bytes -> option jval).

Abbreviation Engine := (M (machine W)).

(** ** The last action of a kind *)

Lemma last_action_some p l a : last_action p l = Some a -> p a = true /\ existsb p l = true.
Proof.
  unfold last_action. assert (forall acc, fold_left (fun found a => if p a then Some a else found) l acc = Some a ->
    (p a = true /\ existsb p l = true) \/ acc = Some a) as X; [|intros E; by destruct (X None E)].
  induction l as [|x l IH]; intros acc E; cbn in *; [by right|]. apply IH in E as [[E1 E2]|E].
  - left. split; [done|]. rewrite E2. by rewrite orb_true_r.
  - destruct (p x) eqn:Ex; [|by right]. injection E as ->. left. by rewrite Ex.
Qed.

Lemma last_action_none p l : last_action p l = None -> existsb p l = false.
Proof.
  unfold last_action. assert (forall acc, fold_left (fun found a => if p a then Some a else found) l acc = None ->
    existsb p l = false /\ acc = None) as X; [|intros E; by destruct (X None E)].
  induction l as [|x l IH]; intros acc E; cbn in *; [done|]. apply IH in E as [E1 E2]. by destruct (p x).
Qed.

(** ** Responses *)

Definition keeps_response (a a' : tny_openai_control_response) : Prop :=
  r_permission a' = r_permission a /\ r_deny a' = r_deny a /\ r_arguments_json a' = r_arguments_json a /\
  r_result_replaced a' = r_result_replaced a /\ r_result a' = r_result a.

Lemma attribution_leaves t b a x :
  leaves t b (native_set_attribution H a x) (fun a' t' b' => t' = t /\ (b = true -> b' = true) /\ keeps_response a a').
Proof.
  unfold native_set_attribution. apply leaves_hush; [auto with hush|intros ? b1 H1]. apply leaves_hush; [auto with hush|intros ? b2 H2].
  apply leaves_ret. split_and!; [done|auto|by split_and!].
Qed.

Lemma dup_leaves t b o :
  leaves t b (dup H o) (fun s t' b' => t' = t /\ (b = true -> b' = true) /\ forall x, s = Some x -> exists y, o = Some y /\ x = c_str y).
Proof.
  intros m <- <-. destruct (dup_hush H o m) as [E1 E2]. split_and!; [done..|]. intros x. destruct o as [y|]; [|done].
  unfold dup, build, mbind, M_bind, ask. destruct (h_text H (world m)) as [[] w]; [|done]. intros [= <-]. by exists y.
Qed.

(** A stop is remembered, and answers nothing by itself. *)
Lemma has_stop_leaves t b r a :
  leaves t b (native_has_stop H r a) (fun '(stopping, a') t' b' => t' = t /\ (stopping = true -> b' = true) /\
    (has_kind ACTION_STOP r = true -> stopping = true) /\ keeps_response a a').
Proof.
  unfold native_has_stop. apply leaves_field. intros before. set (stopping := _ || _).
  apply (leaves_bind _ _ _ _ (fun _ t' b' => t' = t /\ (stopping = true -> b' = true))).
  { intros m <- <-. by destruct stopping. }
  intros [] ? b' [-> Hb]. subst stopping. unfold has_kind. destruct (last_action _ _) as [x|] eqn:Ex.
  - eapply leaves_bind; [apply attribution_leaves|]. intros a' t' b2 (-> & H2 & E). apply leaves_ret.
    split_and!; [done|by auto|intros _; apply orb_true_r|done..].
  - apply leaves_ret. rewrite (last_action_none _ _ Ex). by split_and!.
Qed.

(** A response before the stop that is asked for ([b]) is added. *)
Record said (req : tny_openai_control_request) (r : tny_extension_result) (a : tny_openai_control_response) (b : bool) : Prop := {
  sa_stop : has_kind ACTION_STOP r = true -> b = true;
  sa_permission : r_permission a = PERMISSION_ABSTAIN \/ (kind req = PERMISSION /\ r_permission a = decided r);
  sa_deny : r_deny a = true -> kind req = PRE_TOOL /\ has_kind ACTION_TOOL_DENY r = true;
  sa_rewrite : forall s, r_arguments_json a = Some s ->
    kind req = PRE_TOOL /\ has_kind ACTION_TOOL_DENY r = false /\ gives ACTION_TOOL_REWRITE r a_arguments_json s;
  sa_replace : r_result_replaced a = true ->
    kind req = POST_TOOL /\ exists s, r_result a = Some s /\ gives ACTION_TOOL_RESULT_REPLACE r a_content s;
  sa_go : b = false -> (kind req = PERMISSION -> r_permission a = decided r) /\
    (kind req = PRE_TOOL -> r_deny a = has_kind ACTION_TOOL_DENY r) }.

(** What a control leaves. *)
Definition heard (req : tny_openai_control_request) (t : list mark) (a : tny_openai_control_response) (t' : list mark) (b : bool) : Prop :=
  exists r, t' = Heard (control_event req) r :: t /\ match r with Some r => said req r a b | None => undecided a end.

Lemma undecided_none : undecided no_response.
Proof. by split_and!. Qed.

Lemma keeps_undecided a a' : keeps_response a a' -> undecided a -> undecided a'.
Proof. intros (E1 & E2 & E3 & E4 & _) (U1 & U2 & U3 & U4). unfold undecided. split_and!; congruence. Qed.

(** Nothing decided: all that is said is a stop, or there is nothing to say. *)
Lemma said_undecided req r a b :
  r_permission a = PERMISSION_ABSTAIN -> r_deny a = false -> r_arguments_json a = None ->
  (r_result_replaced a = true -> kind req = POST_TOOL /\ exists s, r_result a = Some s /\ gives ACTION_TOOL_RESULT_REPLACE r a_content s) ->
  (has_kind ACTION_STOP r = true -> b = true) ->
  (b = false -> (kind req = PERMISSION -> decided r = PERMISSION_ABSTAIN) /\ (kind req = PRE_TOOL -> has_kind ACTION_TOOL_DENY r = false)) ->
  said req r a b.
Proof.
  intros U1 U2 U3 Hr Hs Hg. constructor; [done|by left|by rewrite U2|by rewrite U3|done|].
  intros Hb. destruct (Hg Hb) as [G1 G2]. split; intros Hk; [by rewrite U1, G1|by rewrite U2, G2].
Qed.

Lemma native_observe_leaves t b req json :
  kind req <> PRE_TOOL -> kind req <> PERMISSION ->
  leaves t b (native_observe H cfg (control_event req) json) (heard req t).
Proof.
  intros K1 K2. unfold native_observe. eapply leaves_bind; [apply hear_leaves|]. intros [r|] ? b1 [-> H1].
  2: { apply leaves_ret. exists None. split; [done|apply undecided_none]. }
  apply leaves_hush; [auto with hush|intros [] b2 H2]. eapply leaves_bind; [apply has_stop_leaves|].
  intros [stopping a] ? b3 (-> & H3 & H4 & _). apply leaves_hush; [auto with hush|intros [] b4 H5]. apply leaves_ret.
  exists (Some r). split; [done|]. by apply said_undecided; auto.
Qed.

(** Only the result may be replaced, and only by an answer. *)
Definition replaces (r : option tny_extension_result) (a : tny_openai_control_response) : Prop :=
  r_result_replaced a = true -> exists r' s, r = Some r' /\ r_result a = Some s /\ gives ACTION_TOOL_RESULT_REPLACE r' a_content s.

Lemma replacement_leaves t b r a (stopping : bool) : r_result_replaced a = false ->
  leaves t b
    match last_action (is_kind ACTION_TOOL_RESULT_REPLACE) (if stopping then [] else actions (default (mk_result [] []) r)) with
    | Some x =>
      content ← dup H (a_content x);
      native_set_attribution H (a <| r_result := content |> <| r_result_replaced := bool_decide (is_Some content) |>
                                <| r_result_is_error := a_is_error x |>) x
    | None => mret a
    end
    (fun a' t' b' => t' = t /\ (b = true -> b' = true) /\ r_permission a' = r_permission a /\ r_deny a' = r_deny a /\
      r_arguments_json a' = r_arguments_json a /\ replaces r a').
Proof.
  intros Ha. destruct (last_action _ _) as [x|] eqn:Ex.
  2: { apply leaves_ret. split_and!; [done..|]. intros E. congruence. }
  eapply leaves_bind; [apply dup_leaves|]. intros content ? b1 (-> & H1 & Hc). eapply leaves_mono; [apply attribution_leaves|].
  intros a' t' b' (-> & H2 & F1 & F2 & F3 & F4 & F5). split_and!; [done|auto|done..|]. intros E. cbn in F4, F5.
  rewrite E in F4. symmetry in F4. apply bool_decide_eq_true in F4 as [s ->]. destruct (Hc s eq_refl) as (y & E1 & E2).
  destruct stopping; [done|]. destruct r as [r|]; [|done]. exists r, s. split_and!; [done..|]. by exists x, y.
Qed.

Lemma native_post_tool_leaves t b req json :
  kind req = POST_TOOL -> leaves t b (native_post_tool H cfg req (control_event req) json) (heard req t).
Proof.
  intros K. unfold native_post_tool. eapply leaves_bind; [apply hear_leaves|]. intros r ? b1 [-> H1]. cbv zeta.
  apply leaves_hush; [auto with hush|intros [] b2 H2]. eapply leaves_bind; [apply has_stop_leaves|].
  intros [stopping a] ? b3 (-> & H3 & H4 & E1 & E2 & E3 & E4 & E5).
  apply leaves_hush; [apply hush_each; intros x; quieten; apply extension_status_hush|intros [] b4 H5].
  eapply leaves_bind; [by apply replacement_leaves|]. intros a' ? b5 (-> & H6 & F1 & F2 & F3 & F4).
  apply leaves_hush; [apply hush_when; done|intros [] b6 H7]. apply leaves_ret.
  exists r. split; [done|]. cbn in E1, E2, E3. destruct r as [r|].
  - apply said_undecided; try congruence; [|auto 10|intros _; by rewrite K].
    intros E. split; [done|]. destruct (F4 E) as (r' & s & [= <-] & Hs). by exists s.
  - split_and!; [congruence..|]. destruct (r_result_replaced a') eqn:E; [|done]. by destruct (F4 E) as (r' & s & [=] & _).
Qed.

Lemma native_pre_tool_leaves t b req json : kind req = PRE_TOOL -> leaves t b (native_pre_tool H cfg json) (heard req t).
Proof.
  intros K. unfold native_pre_tool. eapply leaves_bind; [apply hear_leaves|]. intros r ? b1 [-> H1].
  assert (control_event req = B"pre_tool_use") as Ee by (unfold control_event; by rewrite K).
  destruct r as [r|]; [|apply leaves_ret; exists None; by rewrite Ee].
  apply leaves_hush; [auto with hush|intros [] b2 H2]. eapply leaves_bind; [apply has_stop_leaves|].
  intros [stopping a] ? b3 (-> & H3 & H4 & E1 & E2 & E3 & E4 & E5). cbn in E1, E2, E3, E4.
  destruct stopping.
  { apply leaves_ret. exists (Some r). rewrite Ee, H3 by done. split; [done|]. apply said_undecided; [done..|congruence|done|done]. }
  apply leaves_hush; [auto with hush|intros [] b4 H5]. unfold heard. rewrite Ee.
  destruct (last_action (is_kind ACTION_TOOL_DENY) _) as [x|] eqn:Ex;
    [|destruct (last_action (is_kind ACTION_TOOL_REWRITE) _) as [y|] eqn:Ey].
  - apply last_action_some in Ex as [_ Ex]. eapply leaves_mono; [apply attribution_leaves|].
    intros a' t' b' (-> & H6 & F1 & F2 & F3 & F4 & F5). exists (Some r). split; [done|]. cbn in F1, F2, F3, F4.
    constructor; [by intros ?%H4|left; congruence|by unfold has_kind|rewrite F3, E3; done|congruence|].
    intros _. rewrite K, F2. by split.
  - apply last_action_none in Ex. eapply leaves_bind; [apply dup_leaves|]. intros arguments ? b5 (-> & H6 & Hc).
    eapply leaves_mono; [apply attribution_leaves|].
    intros a' t' b' (-> & H7 & F1 & F2 & F3 & F4 & F5). exists (Some r). split; [done|]. cbn in F1, F2, F3, F4.
    constructor; [by intros ?%H4|left; congruence|rewrite F2, E2; done| |congruence|].
    + intros s Es. split_and!; [done..|]. rewrite F3 in Es. destruct (Hc s Es) as (z & Z1 & Z2). by exists y, z.
    + intros _. rewrite K, F2, E2. by split.
  - apply last_action_none in Ex. apply leaves_ret. exists (Some r). split; [done|].
    apply said_undecided; [done..|congruence|by intros ?%H4|]. intros _. by rewrite K.
Qed.

Lemma native_permission_leaves t b req json : kind req = PERMISSION -> leaves t b (native_permission H cfg json) (heard req t).
Proof.
  intros K. unfold native_permission. eapply leaves_bind; [apply hear_leaves|]. intros r ? b1 [-> H1].
  assert (control_event req = B"permission_request") as Ee by (unfold control_event; by rewrite K).
  destruct r as [r|]; [|apply leaves_ret; exists None; by rewrite Ee].
  apply leaves_hush; [auto with hush|intros [] b2 H2]. eapply leaves_bind; [apply has_stop_leaves|].
  intros [stopping a] ? b3 (-> & H3 & H4 & E1 & E2 & E3 & E4 & E5). cbn in E1, E2, E3, E4.
  destruct stopping.
  { apply leaves_ret. exists (Some r). rewrite Ee, H3 by done. split; [done|]. apply said_undecided; [done..|congruence|done|done]. }
  assert (has_kind ACTION_STOP r = false) as Hs by (destruct (has_kind ACTION_STOP r); [by specialize (H4 eq_refl)|done]).
  apply leaves_hush; [auto with hush|intros [] b4 H5]. unfold heard. rewrite Ee.
  assert (forall a', r_permission a' = decided r -> r_deny a' = false -> r_arguments_json a' = None -> r_result_replaced a' = false ->
    forall b', said req r a' b') as X.
  { intros a' G1 G2 G3 G4 b'. constructor; rewrite ?G2, ?G3, ?G4; [by rewrite Hs|by right|done..|]. intros _. by rewrite K. }
  unfold decided in X. rewrite Hs in X.
  destruct (last_action (is_decision EXTENSION_DENY) _) as [x|] eqn:Ex;
    [|destruct (last_action (is_decision EXTENSION_ALLOW_ONCE) _) as [y|] eqn:Ey].
  - apply last_action_some in Ex as [_ Ex]. rewrite Ex in X. eapply leaves_mono; [apply attribution_leaves|].
    intros a' t' b' (-> & _ & F1 & F2 & F3 & F4 & _). exists (Some r). split; [done|]. cbn in F1, F2, F3, F4. apply X; congruence.
  - apply last_action_none in Ex. apply last_action_some in Ey as [_ Ey]. rewrite Ex, Ey in X. eapply leaves_mono; [apply attribution_leaves|].
    intros a' t' b' (-> & _ & F1 & F2 & F3 & F4 & _). exists (Some r). split; [done|]. cbn in F1, F2, F3, F4. apply X; congruence.
  - apply last_action_none in Ex, Ey. rewrite Ex, Ey in X. apply leaves_ret. exists (Some r). split; [done|]. apply X; congruence.
Qed.

(** ** Controls *)

(** A mark with a reason. *)
Lemma note_inner d (m : machine W) i :
  (forall p, tell_next p i = Some p) -> (heedful (trace m) -> heedful (i :: trace m)) -> inner d m (snd (note i m)).
Proof.
  intros Hi Hh. constructor; cbn -[heedful]; auto using grown_refl. { by left. } cbn. destruct (told (trace m)) as [p|]; [apply Hi|done].
Qed.

Lemma answered_leaves req t b (X : Engine tny_openai_control_response) :
  leaves t b X (heard req t) -> forall m, trace m = t -> extension_stop_requested (eng m) = b -> forall c,
  control_heeds req (if extension_stop_requested (eng (snd (X m))) || c then fst (X m) <| r_stop := true |> else fst (X m))
    (trace (snd (X m))).
Proof.
  intros HX m Ht Hb c. destruct (HX m Ht Hb) as (r & -> & Hr). cbn. destruct r as [r|].
  - split; [done|]. destruct Hr as [S1 S2 S3 S4 S4' S5]. destruct (extension_stop_requested (eng (snd (X m)))); cbn.
    + by constructor.
    + destruct c; constructor; cbn; auto; try done; intros Hk; by specialize (S1 Hk).
  - split; [done|]. by destruct (_ || _).
Qed.

Lemma conclude_control_keeps d req X :
  keeps d X -> (forall t b, leaves t b X (heard req t)) -> keeps d (conclude_control H req X).
Proof.
  intros HX Hl m. unfold conclude_control. rewrite snd_bind. eapply inner_trans; [apply HX|]. rewrite snd_bind. cbn [field look fst snd].
  pose proof (answered_leaves req _ _ X (Hl _ _) m eq_refl eq_refl) as Ha. rewrite snd_bind.
  set (probe := match h_probe H with Some p => ask p | None => mret false end).
  assert (keeps d probe /\ hush probe) as [Hp Hq] by (subst probe; destruct (h_probe H); auto with keeps hush).
  eapply inner_trans; [apply Hp|]. rewrite snd_bind. apply note_inner; [by intros []|]. intros Hh. split; [|done].
  destruct (Hq (snd (X m))) as [-> _]. apply Ha.
Qed.

Lemma native_control_keeps d hooks req : keeps d hooks -> keeps d (native_openai_control H cfg jparse hooks req).
Proof.
  intros Hh. unfold native_openai_control. keep. apply conclude_control_keeps; [keep|]. intros t b. destruct (kind req) eqn:K.
  3: by apply native_post_tool_leaves.
  1: by apply native_pre_tool_leaves.
  1: by apply native_permission_leaves.
  all: apply native_observe_leaves; by rewrite K.
Qed.

(** ** Hooks *)

(** A permission is decided as the extensions say, or left open. *)
Definition decides (fold : extension_fold) (t : list mark) : Prop :=
  fold_stop fold = false -> forall d, fold_decision fold = Some d ->
  answer_heeds (if decide (d = EXTENSION_ALLOW_ONCE) then DECISION_ALLOW else DECISION_DENY) t.

Lemma fold_permission_leaves t b event l :
  leaves t b (fold_permission H cfg event l) (fun fold t' _ => t' = t /\ fold_stop fold = false /\
    fold_decision fold = if existsb (is_decision EXTENSION_DENY) l then Some EXTENSION_DENY
                         else if existsb (is_decision EXTENSION_ALLOW_ONCE) l then Some EXTENSION_ALLOW_ONCE else None).
Proof.
  unfold fold_permission. apply leaves_hush; [apply hush_each; intros a; apply hush_when, extension_status_hush|]. intros [] b1 _.
  assert (forall k a, last_action (is_decision k) l = Some a -> existsb (is_decision k) l = true /\ a_decision a = k) as X.
  { intros k a [Ha He]%last_action_some. split; [done|]. unfold is_decision in Ha. apply andb_true_iff in Ha as [_ Ha].
    by apply bool_decide_eq_true in Ha. }
  destruct (last_action (is_decision EXTENSION_DENY) l) as [x|] eqn:Ex;
    [|destruct (last_action (is_decision EXTENSION_ALLOW_ONCE) l) as [y|] eqn:Ey].
  - destruct (X _ _ Ex) as [-> E]. apply leaves_ret. split_and!; [done|done|]. cbn. by rewrite E.
  - apply last_action_none in Ex as ->. destruct (X _ _ Ey) as [-> E]. apply leaves_ret. split_and!; [done|done|]. cbn. by rewrite E.
  - apply last_action_none in Ex as ->. apply last_action_none in Ey as ->. by apply leaves_ret.
Qed.

Lemma fold_result_leaves t b r :
  leaves (Heard B"permission_request" (Some r) :: t) b
    (fold_extension_result H cfg B"permission_request" PHASE_PERMISSION r None)
    (fun '(fold, _) t' _ => t' = Heard B"permission_request" (Some r) :: t /\ decides fold t').
Proof.
  unfold fold_extension_result. apply leaves_hush; [auto with hush|intros [] b1 _].
  apply leaves_hush; [apply hush_each; intros a; apply hush_when, extension_status_hush|intros [] b2 _].
  destruct (existsb (is_kind ACTION_STOP) (actions r)) eqn:Es; cbn [andb].
  { rewrite bool_decide_true by done. apply leaves_ret. by split. }
  apply leaves_hush; [apply hush_each; intros a; apply hush_when, extension_status_hush|intros [] b3 _].
  rewrite decide_False, decide_True by done. eapply leaves_bind; [apply fold_permission_leaves|].
  intros fold ? b4 (-> & Hs & Hd). apply leaves_ret. split; [done|]. intros _ d E. rewrite Hd in E.
  exists r. split; [done|]. unfold decided, has_kind. rewrite Es.
  destruct (existsb (is_decision EXTENSION_DENY) _); [by injection E as <-|].
  destruct (existsb (is_decision EXTENSION_ALLOW_ONCE) _); [by injection E as <-|done].
Qed.

Lemma invoke_permission_leaves t b json :
  leaves t b (invoke_extensions H cfg B"permission_request" (Some json) PHASE_PERMISSION None) (fun '(fold, _) t' _ => decides fold t').
Proof.
  unfold invoke_extensions. destruct (cf_extensions cfg); [|by apply leaves_ret].
  eapply leaves_bind; [apply hear_leaves|]. intros [r|] ? b1 [-> _]; [|by apply leaves_ret].
  eapply leaves_bind; [apply fold_result_leaves|]. intros [fold target] ? b2 [-> Hd].
  apply leaves_hush; [apply hush_when; by auto with hush|intros [] b3 _]. by apply leaves_ret.
Qed.

Section nested.
Context (d : nat) (c : tny_openai_control_request -> Engine tny_openai_control_response) (Hc : forall r, keeps d (c r)).

Lemma answer_inner m id dd : answer_heeds dd (trace m) -> inner d m (snd (answer_backend H cfg c id dd m)).
Proof.
  intros Ha. unfold answer_backend. rewrite snd_bind. cbn [field look fst snd]. destruct (bk_respond H) as [f|], id as [id|]; try apply inner_refl.
  destruct (bk (eng m)); cbn [when]; [|apply inner_refl]. rewrite snd_bind. eapply inner_trans; [|by apply run_keeps].
  apply note_inner; [by intros []|]. by split.
Qed.

(** The event at this place. *)
Definition placed (i : nat) (ev : tny_backend_event) (m : machine W) : Prop := exists o, queue (eng m) !! i = Some o /\ o_ev o = ev.

Lemma placed_inner i ev m m' : inner d m m' -> placed i ev m -> placed i ev m'.
Proof.
  intros [_ (old & new & E & Ho & _) _ _ _ _ _ _] (o & Hi & He). destruct (Forall2_lookup_l _ _ _ _ _ Ho Hi) as (o' & Ho' & T).
  exists o'. split; [rewrite E; by apply lookup_app_l_Some|]. destruct T as [T _]. congruence.
Qed.

Lemma suppress_inner i ev m : placed i ev m -> ev_kind ev = EV_PERMISSION ->
  inner d m (snd (set_event i (fun o => o <| o_suppressed := true |>) m)).
Proof.
  intros (o & Hi & He) Hk. apply inner_flags, touched_alter. intros o' Ho'. assert (o' = o) as -> by congruence.
  split_and!; auto. intros _. right. congruence.
Qed.

Lemma hook_permission_inner i ev json m :
  placed i ev m -> ev_kind ev = EV_PERMISSION -> inner d m (snd (hook_permission H cfg c i ev json m)).
Proof.
  intros Hi Hev. unfold hook_permission. rewrite snd_bind.
  pose proof (invoke_extensions_keeps H cfg d B"permission_request" (Some json) PHASE_PERMISSION None m) as Hk.
  pose proof (invoke_permission_leaves (trace m) _ json m eq_refl eq_refl) as Hd.
  destruct (invoke_extensions _ _ _ _ _ _ m) as [[fold target] m1]. cbn [fst snd] in *. eapply inner_trans; [exact Hk|].
  destruct (fold_stop fold || _) eqn:E; cbn [when]; [|apply inner_refl]. rewrite snd_bind.
  eapply inner_trans; [eapply suppress_inner; [by eapply placed_inner|done]|].
  destruct (fold_stop fold) eqn:Es; cbn [negb when]; [apply inner_refl|]. cbn [orb] in E. apply bool_decide_eq_true in E as [x Ex].
  apply answer_inner. cbn. specialize (Hd Es x Ex). rewrite Ex. case_decide as D; case_decide as D'; try done; congruence.
Qed.

Lemma hook_event_inner i ev m : placed i ev m -> inner d m (snd (hook_event H cfg c i ev m)).
Proof.
  intros Hi. unfold hook_event. cbv zeta. rewrite snd_bind. set (delta := if decide (ev_kind ev = EV_TEXT_DELTA) then ev_text ev else None).
  set (first := match delta with Some t => _ | None => _ end). assert (keeps d first) as Hf by (subst first; keep).
  specialize (Hf m). set (m1 := snd (first m)) in *. eapply inner_trans; [exact Hf|]. rewrite snd_bind.
  pose proof (event_json_keeps H cfg d (tny_event_kind_name (ev_kind ev)) (backend_event_payload ev) m1) as Hj.
  destruct (event_json _ _ _ _ m1) as [json m2]. cbn [fst snd] in *. eapply inner_trans; [exact Hj|].
  destruct json as [json|]; [|apply inner_refl]. case_decide as Hk.
  - apply hook_permission_inner; [|done]. eapply placed_inner; [exact Hj|]. by eapply placed_inner.
  - generalize m2. clearbody delta. change (keeps d (_ ← invoke_extensions H cfg (tny_event_kind_name (ev_kind ev)) (Some json) PHASE_STREAM None;
      e ← look eng;
      match delta with
      | Some t => when (message_started e)
          (tell_extensions H cfg B"message_update" B"message_update" (message_payload (current_message_id e) (Some t)) PHASE_STREAM)
      | None => mret tt
      end)). keep.
Qed.

(** One hook more is done than before the steps that follow it. *)
Lemma inner_nested (m m1 m2 : machine W) :
  inner (S d) m m1 -> (deep (S d) (eng m) -> deep d (eng m1)) -> inner d m1 m2 -> inner (S d) m m2.
Proof.
  intros A1 Hd A2. assert (inner 0 m m2) as [B1 B2 B3 B4 B5 _ B7 B8].
  { eapply inner_trans; (eapply inner_deeper; [|eassumption]; lia). }
  constructor; auto. intros Hm. rewrite (i_stuck _ _ _ A2) by auto. by apply A1.
Qed.

Lemma hooks_from_inner rounds i m :
  (i <= length (queue (eng m)))%nat -> (260 <= rounds + i)%nat -> inner (S d) m (snd (hooks_from H cfg c rounds i m)).
Proof.
  revert i m. induction rounds as [|rounds IH]; intros i m Hi Hr; cbn [hooks_from].
  { constructor; cbn; auto using grown_refl. { by left. } intros [(_ & _ & T) _]. apply roomy_length in T. lia. }
  rewrite snd_bind. cbn [field look fst snd]. destruct (queue (eng m) !! i) as [o|] eqn:Eo; [|apply inner_refl].
  rewrite snd_bind. set (step := if o_hooks_done o then _ else _).
  assert (inner (S d) m (snd (step m))) as Hs.
  { subst step. destruct (o_hooks_done o) eqn:Ed; [apply inner_refl|]. rewrite snd_bind.
    eapply inner_nested; [apply (keeps_set_event (S d) i), done_touches| |apply hook_event_inner; exists (o <| o_hooks_done := true |>); split;
      [cbn; by rewrite list_lookup_alter_eq, Eo|done]].
    intros [T Hd]. split; [exact (i_tallied _ _ _ (keeps_set_event (S d) i _ done_touches m) T)|].
    change (260 <= d + done_count (alter (fun o => o <| o_hooks_done := true |>) i (queue (eng m))))%nat.
    rewrite (done_alter _ _ _ Eo Ed). lia. }
  eapply inner_trans; [exact Hs|]. apply IH; [|lia].
  destruct (i_queue _ _ _ Hs) as (old & new & -> & Ho & _). apply lookup_lt_Some in Eo. rewrite length_app, <- (Forall2_length Ho). lia.
Qed.

Lemma process_hooks_keeps : keeps (S d) (process_queued_extension_hooks H cfg c).
Proof.
  intros m. unfold process_queued_extension_hooks. rewrite snd_bind. cbn [look fst snd]. destruct (_ || _); [apply inner_refl|].
  apply hooks_from_inner; [lia|unfold HOOK_ROUNDS; lia].
Qed.

End nested.

Lemma control_at_keeps d req : keeps d (control_at H cfg jparse d req).
Proof.
  revert req. induction d as [|d IH]; intros req; cbn [control_at]; [|by apply native_control_keeps, process_hooks_keeps].
  intros m. rewrite snd_bind. constructor; cbn; auto using grown_refl. { by left. }
  intros [(_ & _ & T) Hd]. apply roomy_length in T. pose proof (done_le (queue (eng m))). lia.
Qed.

Lemma control_keeps req : keeps 260 (control H cfg jparse req).
Proof. apply control_at_keeps. Qed.

Lemma hooks_keeps : keeps 260 (hooks H cfg jparse).
Proof.
  intros m. apply (inner_deeper 261); [lia|]. apply process_hooks_keeps. intros r. apply control_keeps.
Qed.

Lemma cancel_backend_keeps : keeps 260 (cancel_backend H cfg (control H cfg jparse)).
Proof. unfold cancel_backend. keep. apply run_keeps. intros r. apply control_keeps. Qed.

End heeds.

#[export] Hint Resolve control_keeps hooks_keeps cancel_backend_keeps : keeps.
