(* ===== verification/EngineCalls.v ===== *)
(** The invariant of the engine between two calls, and that every call keeps it:
    a turn is active or its end is the last event of the queue. *)
From S2P Require Import Prelude Decimal Effects Json JsonText JsonValue StreamDecode ExecControl EngineEvents Engine EngineInv EngineHeeds.

Open Scope Z_scope.

(** ** The invariant *)

(** The pair for a settlement of memory. *)
Definition armed (e : tny_engine) : Prop :=
  exists o o', oom_error_reserve e = Some o /\ oom_terminal_reserve e = Some o' /\ ev_kind (o_ev o) = EV_ERROR /\
    ev_kind (o_ev o') = EV_TURN_END /\ sized o /\ sized o'.

Lemma armed_core e e' :
  oom_error_reserve e' = oom_error_reserve e -> oom_terminal_reserve e' = oom_terminal_reserve e -> armed e -> armed e'.
Proof. intros E1 E2 (o & o' & Ho). exists o, o'. by rewrite E1, E2. Qed.

(** What there is of the pair. *)
Definition spare (e : tny_engine) : Prop :=
  (forall o, oom_error_reserve e = Some o -> ev_kind (o_ev o) = EV_ERROR /\ sized o) /\
  (forall o, oom_terminal_reserve e = Some o -> ev_kind (o_ev o) = EV_TURN_END /\ sized o).

(** The end of the turn is the last event, and will be seen. *)
Definition closed (q : list tny_owned_event) : Prop := exists q' o, q = q' ++ [o] /\ held o /\ Forall ordinary q'.

Section calls.
Context {W : Type} (H : host W) (cfg : settings) (jparse : bytes -> option jval).

(** Where continuations are limited and their rounds suffice. *)
Context (limited : Prop) (Hlimited : limited -> 0 < cf_max_iterations cfg < Z.of_nat (cf_rounds cfg)).

Abbreviation Engine := (M (machine W)).

Record base (p : telling) (c : Z) (m : machine W) : Prop := {
  b_tallied : tallied (eng m);
  b_told : told (trace m) = Some p;
  b_heedful : heedful (trace m);
  b_stuck : limited -> stuck m = false;
  b_count : extension_continuations (eng m) = c;
  b_pending : forall o, pending_terminal (eng m) = Some o -> held o;
  b_spare : spare (eng m) }.

(** No end was seen of a turn ([a]: it is active). *)
Definition live (a : bool) (p : telling) (c : Z) (m : machine W) : Prop :=
  base p c m /\ active (eng m) = a /\ terminal (eng m) = false /\ terminal_popped (eng m) = false /\ armed (eng m) /\
  Forall ordinary (queue (eng m)) /\ (limited -> 0 <= c <= cf_max_iterations cfg).

(** The end of the turn waits to be taken. *)
Definition settled (p : telling) (m : machine W) : Prop :=
  (exists c, base p c m) /\ active (eng m) = false /\ terminal (eng m) = true /\ terminal_popped (eng m) = false /\
  pending_terminal (eng m) = None /\ closed (queue (eng m)).

(** It was taken. *)
Definition gone (p : telling) (m : machine W) : Prop :=
  (exists c, base p c m) /\ active (eng m) = false /\ terminal (eng m) = true /\ terminal_popped (eng m) = true /\
  pending_terminal (eng m) = None /\ queue (eng m) = [].

Definition underway (p : telling) (m : machine W) : Prop := (exists c, live true p c m) \/ settled p m.
Definition idle (p : telling) (m : machine W) : Prop := (exists c, live false p c m) \/ gone p m.

(** The state that goes with [q], where [p] was noted. *)
Definition inv_as (q p : telling) (m : machine W) : Prop :=
  match q with RUNNING => underway p m | OVER => gone p m | IDLE => idle p m end.
Definition inv (p : telling) (m : machine W) : Prop := inv_as p p m.

(** ** What the steps within a call keep *)

Class Closed (P : machine W -> Prop) : Prop := kept m m' : P m -> inner 260 m m' -> P m'.

Lemma fits_deep (m : machine W) : tallied (eng m) -> deep 260 (eng m).
Proof. intros T. split; [done|lia]. Qed.

#[local] Instance base_closed p c : Closed (base p c).
Proof.
  intros m m' [B1 B2 B3 B4 B5 B6 B7] A. pose proof (fits_deep _ B1) as Hd. destruct A as [A1 A2 A3 A4 A5 A6 A7 A8].
  constructor; auto; [congruence|intros Hl; rewrite A6; auto|unfold core in A1; congruence| |].
  - intros o Ho. destruct A4 as [E|(_ & _ & o' & E & Hh)]; [apply B6; congruence|congruence].
  - unfold spare, core in *. by assert (oom_error_reserve (eng m') = oom_error_reserve (eng m) /\
      oom_terminal_reserve (eng m') = oom_terminal_reserve (eng m)) as [-> ->] by (split; congruence).
Qed.

Lemma grown_ordinary q q' : grown q q' -> Forall ordinary q -> Forall ordinary q'.
Proof. intros (old & new & -> & Ho & Hn) Hq. apply Forall_app. split; [by eapply all_touched_ordinary|done]. Qed.

#[local] Instance live_closed a p c : Closed (live a p c).
Proof.
  intros m m' (L1 & L2 & L3 & L4 & L5 & L6 & L7) A. pose proof (kept _ _ L1 A) as K. pose proof (i_core _ _ _ A) as Hc.
  unfold core in Hc. split; [done|]. split_and!; try congruence; [|eapply grown_ordinary; [apply (i_queue _ _ _ A)|done]|done].
  apply (armed_core (eng m)); [congruence..|done].
Qed.

(** A queue that did not grow. *)
Lemma grown_same q q' : grown q q' -> length q' = length q -> Forall2 touched q q'.
Proof.
  intros (old & new & -> & Ho & _) Hl. rewrite length_app, (Forall2_length Ho) in Hl. destruct new; [by rewrite app_nil_r|cbn in Hl; lia].
Qed.

Lemma touched_held o o' : touched o o' -> held o -> held o'.
Proof.
  intros (A1 & A2 & _ & A4) (H1 & H2 & H3). unfold held, is_end, sized in *. rewrite A1, A2. split; [done|split; [|done]]. destruct (o_suppressed o') eqn:E; [|done].
  apply bool_decide_eq_true in H1. destruct (A4 eq_refl); congruence.
Qed.

Lemma touched_closed q q' : Forall2 touched q q' -> closed q -> closed q'.
Proof.
  intros Hq (a & o & -> & Ho & Ha). apply Forall2_app_inv_l in Hq as (a' & l & Hq & Hl & ->).
  inversion Hl as [|? o' ? l' Ht Hn]; subst. inversion Hn; subst. exists a', o'. split_and!; [done|by eapply touched_held|].
  by eapply all_touched_ordinary.
Qed.

#[local] Instance settled_closed p : Closed (settled p).
Proof.
  intros m m' ([c L1] & L2 & L3 & L4 & L5 & L6) A. pose proof (kept _ _ L1 A) as K. pose proof (i_core _ _ _ A) as Hc. unfold core in Hc.
  split; [by exists c|]. split_and!; try congruence.
  - destruct (i_pending _ _ _ A) as [|(? & _)]; congruence.
  - eapply touched_closed; [|exact L6]. apply grown_same; [apply (i_queue _ _ _ A)|by apply (i_over _ _ _ A)].
Qed.

#[local] Instance gone_closed p : Closed (gone p).
Proof.
  intros m m' ([c L1] & L2 & L3 & L4 & L5 & L6) A. pose proof (kept _ _ L1 A) as K. pose proof (i_core _ _ _ A) as Hc. unfold core in Hc.
  split; [by exists c|]. split_and!; try congruence.
  - destruct (i_pending _ _ _ A) as [|(? & _)]; congruence.
  - apply length_zero_iff_nil. by rewrite (i_over _ _ _ A), L6.
Qed.

#[local] Instance or_closed P Q `{!Closed P} `{!Closed Q} : Closed (fun m => P m \/ Q m).
Proof. intros m m' [HP|HQ] A; [left|right]; by eapply kept. Qed.
#[local] Instance ex_closed {A} (P : A -> machine W -> Prop) `{!forall a, Closed (P a)} : Closed (fun m => exists a, P a m).
Proof. intros m m' [a HP] A'. exists a. by eapply kept. Qed.
#[local] Instance underway_closed p : Closed (underway p).
Proof. apply _. Qed.
#[local] Instance idle_closed p : Closed (idle p).
Proof. apply _. Qed.
#[local] Instance inv_as_closed q p : Closed (inv_as q p).
Proof. destruct q; apply _. Qed.
#[local] Instance inv_closed p : Closed (inv p).
Proof. apply _. Qed.

(** ** Rules *)

Definition from {A} (P : machine W -> Prop) (f : Engine A) (Q : A -> machine W -> Prop) : Prop :=
  forall m, P m -> Q (fst (f m)) (snd (f m)).

Lemma from_ret {A} P (a : A) (Q : A -> machine W -> Prop) : (forall m, P m -> Q a m) -> from P (mret a) Q.
Proof. intros HQ m. apply HQ. Qed.

Lemma from_bind {A T} P (f : Engine A) (k : A -> Engine T) R Q :
  from P f R -> (forall a, from (R a) (k a) Q) -> from P (f ≫= k) Q.
Proof. intros Hf Hk m Hm. specialize (Hf m Hm). unfold mbind, M_bind. destruct (f m) as [a m']. by apply Hk. Qed.

Lemma from_keeps {A} P (f : Engine A) `{!Closed P} : keeps 260 f -> from P f (fun _ => P).
Proof. intros Hf m Hm. eapply kept; [exact Hm|apply Hf]. Qed.

Lemma from_past {A T} P (f : Engine A) (k : A -> Engine T) Q `{!Closed P} :
  keeps 260 f -> (forall a, from P (k a) Q) -> from P (f ≫= k) Q.
Proof. intros Hf Hk. eapply from_bind; [by apply from_keeps|exact Hk]. Qed.

Lemma from_look {A T} P (g : machine W -> A) (k : A -> Engine T) Q :
  (forall a, from (fun m => P m /\ g m = a) (k a) Q) -> from P (look g ≫= k) Q.
Proof. intros Hk m Hm. unfold mbind, M_bind, look. by apply (Hk (g m)). Qed.

Lemma from_field {A T} P (g : tny_engine -> A) (k : A -> Engine T) Q :
  (forall a, from (fun m => P m /\ g (eng m) = a) (k a) Q) -> from P (field g ≫= k) Q.
Proof. apply from_look. Qed.

Lemma from_put P f (Q : unit -> machine W -> Prop) : (forall m, P m -> Q tt (m <| eng ::= f |>)) -> from P (put f) Q.
Proof. intros HQ m. apply HQ. Qed.

Lemma from_mono {A} (P P' : machine W -> Prop) (f : Engine A) (Q Q' : A -> machine W -> Prop) :
  from P' f Q' -> (forall m, P m -> P' m) -> (forall a m, Q' a m -> Q a m) -> from P f Q.
Proof. intros Hf HP HQ m Hm. apply HQ, Hf, HP, Hm. Qed.

Lemma from_pre {A} (P P' : machine W -> Prop) (f : Engine A) Q : from P' f Q -> (forall m, P m -> P' m) -> from P f Q.
Proof. intros Hf HP. by eapply from_mono. Qed.

Lemma from_when P b (f : Engine unit) Q : (b = true -> from P f (fun _ => Q)) -> (b = false -> forall m, P m -> Q m) -> from P (when b f) (fun _ => Q).
Proof. destruct b; cbn; [auto|]. intros _ HQ. apply from_ret. auto. Qed.

Lemma from_or {A} (P P' : machine W -> Prop) (f : Engine A) Q : from P f Q -> from P' f Q -> from (fun m => P m \/ P' m) f Q.
Proof. intros H1 H2 m [Hm|Hm]; auto. Qed.

Lemma from_ex {A T} (P : T -> machine W -> Prop) (f : Engine A) Q : (forall c, from (P c) f Q) -> from (fun m => exists c, P c m) f Q.
Proof. intros Hf m [c Hm]. by apply (Hf c). Qed.

Lemma from_false {A} (P : machine W -> Prop) (f : Engine A) Q : (forall m, P m -> False) -> from P f Q.
Proof. intros HP m Hm. by destruct (HP m). Qed.

(** ** The settlement of memory *)

Lemma sized_as o x : o_ev x = o_ev o -> o_bytes x = o_bytes o -> sized o -> sized x.
Proof. unfold sized. by intros -> ->. Qed.

Lemma roomy_true over q : roomy over q -> roomy true q.
Proof. intros (within & last & H1 & H2 & H3 & H4 & H5 & _ & H6). exists within, last. by split_and!. Qed.

(** The queue up to the end of the turn, and after it. *)
Lemma roomy_last q l : roomy false q -> (length l <= 2)%nat -> Forall reserved l -> Forall sized l -> roomy true (q ++ l).
Proof.
  intros (within & last & -> & H2 & H3 & _ & _ & H6 & H7) Hl Hr Hs. rewrite (H6 eq_refl), app_nil_r in *. exists within, l.
  split_and!; try done. by apply Forall_app.
Qed.

Lemma base_counted p c c' m f :
  base p c m -> queue (f (eng m)) = queue (eng m) -> queue_count (f (eng m)) = queue_count (eng m) ->
  queue_bytes (f (eng m)) = queue_bytes (eng m) -> extension_continuations (f (eng m)) = c' ->
  (pending_terminal (f (eng m)) = pending_terminal (eng m) \/ pending_terminal (f (eng m)) = None) ->
  (terminal (f (eng m)) = true \/ terminal (f (eng m)) = terminal (eng m)) -> (spare (eng m) -> spare (f (eng m))) -> base p c' (m <| eng ::= f |>).
Proof.
  intros [(T1 & T2 & T3) B2 B3 B4 B5 B6 B7] E1 E2 E3 E4 E5 E6 E7. constructor; cbn; auto.
  - unfold tallied. rewrite E1, E2, E3. split_and!; [done..|]. destruct E6 as [->| ->]; [by eapply roomy_true|done].
  - destruct E5 as [->| ->]; [done|]. by intros o.
Qed.

Lemma base_put p c m f :
  base p c m -> queue (f (eng m)) = queue (eng m) -> queue_count (f (eng m)) = queue_count (eng m) ->
  queue_bytes (f (eng m)) = queue_bytes (eng m) -> extension_continuations (f (eng m)) = extension_continuations (eng m) ->
  (pending_terminal (f (eng m)) = pending_terminal (eng m) \/ pending_terminal (f (eng m)) = None) ->
  (terminal (f (eng m)) = true \/ terminal (f (eng m)) = terminal (eng m)) -> (spare (eng m) -> spare (f (eng m))) -> base p c (m <| eng ::= f |>).
Proof. intros HB. intros. eapply base_counted; eauto. rewrite <- (b_count _ _ _ HB). done. Qed.

(** The end is decided; its events are to come. *)
Definition ending (p : telling) (q : list tny_owned_event) (m : machine W) : Prop :=
  (exists c, base p c m) /\ terminal (eng m) = true /\ pending_terminal (eng m) = None /\ queue (eng m) = q.

Lemma append_ending p q o : roomy true (q ++ [o]) -> from (ending p q) (append_owned H o) (fun _ => ending p (q ++ [o])).
Proof.
  intros Hr m ([c [(T1 & T2 & T3) B2 B3 B4 B5 B6 B7]] & E2 & E3 & E4). rewrite append_run. split; [exists c|by split_and!; cbn; rewrite ?E4].
  constructor; cbn; auto. unfold tallied. cbn. rewrite E2, E4 in *. rewrite length_app, size_app. cbn [length].
  unfold size_of at 2. cbn [fold_right]. split_and!; [lia|lia|done].
Qed.

Lemma prepare_ending p q o :
  from (ending p q) (prepare_reserved_event H cfg o)
    (fun o' m => ending p q m /\ o_ev o' = o_ev o /\ o_suppressed o' = false /\ o_bytes o' = o_bytes o).
Proof.
  intros m ([c [T B2 B3 B4 B5 B6 B7]] & E2 & E3 & E4).
  unfold prepare_reserved_event, next_sequence, ask, mbind, M_bind, put, change, field, look. cbn.
  destruct (h_clock H (world m)) as [t w]. cbn. split; [|done]. split; [exists c|done]. by constructor.
Qed.

(** Settling, while the backend is told. *)
Definition falling (p : telling) (m : machine W) : Prop :=
  (exists c, base p c m) /\ active (eng m) = true /\ terminal (eng m) = true /\ armed (eng m) /\ Forall ordinary (queue (eng m)) /\
  roomy false (queue (eng m)).

#[local] Instance falling_closed p : Closed (falling p).
Proof.
  intros m m' ([c L1] & L2 & L3 & L4 & L5 & L6) A. pose proof (kept _ _ L1 A) as K. pose proof (i_core _ _ _ A) as Hc. unfold core in Hc.
  assert (Forall2 touched (queue (eng m)) (queue (eng m'))) as Ht by (apply grown_same; [apply (i_queue _ _ _ A)|by apply (i_over _ _ _ A)]).
  split; [by exists c|]. split_and!; try congruence; [|by eapply all_touched_ordinary|by eapply roomy_touched].
  apply (armed_core (eng m)); [congruence..|done].
Qed.

Lemma live_roomy a p c m : live a p c m -> roomy false (queue (eng m)).
Proof. intros ([(_ & _ & T) _ _ _ _ _ _] & _ & Ht & _). by rewrite Ht in T. Qed.

Lemma publish_reserve p q o :
  (forall x, o_ev x = o_ev o -> o_bytes x = o_bytes o -> roomy true (q ++ [x])) ->
  from (ending p q) (o ← prepare_reserved_event H cfg o; append_owned H o)
    (fun _ m => exists x, ending p (q ++ [x]) m /\ o_ev x = o_ev o /\ o_suppressed x = false /\ o_bytes x = o_bytes o).
Proof.
  intros Hr. eapply from_bind; [apply prepare_ending|]. intros x m (He & E1 & E2 & E3). exists x. split; [|done].
  apply append_ending; [by apply Hr|done].
Qed.

Lemma reserve_pair p e o o' (k : Engine unit) Q :
  oom_error_reserve e = Some o -> oom_terminal_reserve e = Some o' -> ev_kind (o_ev o) = EV_ERROR ->
  ev_kind (o_ev o') = EV_TURN_END -> sized o -> sized o' -> Forall ordinary (queue e) -> roomy false (queue e) ->
  from (fun m => exists q, ending p q m /\ closed q) k Q ->
  from (fun m => ((exists c, base p c m) /\ terminal (eng m) = true) /\ eng m = e)
    (put (fun e => e <| pending_terminal := None |> <| oom_error_reserve := None |> <| oom_terminal_reserve := None |>) ;;
     match oom_error_reserve e with Some o => o ← prepare_reserved_event H cfg o; append_owned H o | None => mret tt end ;;
     match oom_terminal_reserve e with Some o => o ← prepare_reserved_event H cfg o; append_owned H o | None => mret tt end ;; k) Q.
Proof.
  intros -> -> K1 K2 S1 S2 Ho Hr Hk.
  assert (forall x, o_ev x = o_ev o -> reserved x) as R1 by (intros x Hx; unfold reserved; by rewrite Hx, K1).
  assert (forall x, o_ev x = o_ev o' -> reserved x) as R2 by (intros x Hx; unfold reserved; by rewrite Hx, K2).
  apply (from_bind _ _ _ (fun _ => ending p (queue e))).
  { apply from_put. intros m [[[c Hb] Ht] <-]. split; [|by split_and!]. exists c. apply base_put; auto. by split. }
  intros []. eapply from_bind; [apply publish_reserve; intros x Hx Hb; apply roomy_last; [done|cbn; lia|by constructor; auto|]|].
  { constructor; [by apply (sized_as o)|done]. }
  intros []. apply from_ex. intros x.
  apply (from_bind _ _ _ (fun _ m => exists q, ending p q m /\ closed q)); [|intros []; exact Hk]. intros m (He & Ex & Sx & Bx).
  assert (forall y, o_ev y = o_ev o' -> o_bytes y = o_bytes o' -> roomy true ((queue e ++ [x]) ++ [y])) as Hy.
  { intros y Hy By. rewrite <- app_assoc. apply roomy_last; [done|cbn; lia|by repeat constructor; auto|].
    constructor; [by apply (sized_as o)|constructor; [by apply (sized_as o')|constructor]]. }
  destruct (publish_reserve p _ o' Hy m He) as (y & Hm & Ey & Sy & By). exists ((queue e ++ [x]) ++ [y]). split; [done|].
  exists (queue e ++ [x]), y. split; [done|]. split.
  - split_and!; [unfold is_end; by rewrite Ey, K2|done|by apply (sized_as o')].
  - apply Forall_app. split; [done|]. constructor; [|done]. split; [unfold is_end; by rewrite Ex, K1|by rewrite Sx].
Qed.

Lemma fail_oom_spec p : from (fun m => exists c, live true p c m) (fail_oom H cfg jparse) (fun _ => settled p).
Proof.
  unfold fail_oom. apply from_ex. intros c. apply from_field. intros [].
  { apply from_false. intros m [(_ & _ & ? & _) ?]. congruence. }
  apply (from_pre _ (live true p c)); [|by intros m []].
  apply from_past; [apply _|by apply keeps_stuck_free|]. intros []. apply from_past; [apply _|apply steps_tell|]. intros [].
  eapply (from_bind _ _ _ (fun _ => falling p)).
  { apply from_put. intros m HL. pose proof (live_roomy _ _ _ _ HL). destruct HL as (L1 & L2 & L3 & L4 & L5 & L6 & L7).
    split; [exists c; apply base_put; auto|]. by split_and!. }
  intros []. apply from_field. intros b. apply (from_pre _ (falling p)); [|by intros m []].
  apply from_past; [apply _|apply steps_when; intros _; auto with keeps|]. intros []. apply from_look. intros e.
  intros m [Hm He]. pose proof Hm as (L1 & L2 & L3 & (o & o' & E1 & E2 & K1 & K2 & S1 & S2) & L5 & L6). rewrite He in E1, E2, L5, L6.
  apply (reserve_pair p e o o' _ (fun _ => settled p) E1 E2 K1 K2 S1 S2 L5 L6); [|done].
  apply from_put. intros m' (q & ([c' Hb] & T & P & <-) & Hq). split; [exists c'; apply base_put; auto|]. by split_and!.
Qed.

(** ** The end of a turn *)

Lemma unless_failed_keeps d k : keeps d k -> keeps d (unless_failed H k).
Proof. intros Hk. unfold unless_failed. keep. Qed.
#[local] Hint Resolve unless_failed_keeps : keeps.

Lemma finalize_turn_keeps d : keeps d (finalize_turn H).
Proof. unfold finalize_turn. repeat (keep; try apply unless_failed_keeps). Qed.
#[local] Hint Resolve finalize_turn_keeps : keeps.

Lemma persist_keeps d : keeps d (persist_acp_iteration H cfg).
Proof. unfold persist_acp_iteration. keep. Qed.
#[local] Hint Resolve persist_keeps : keeps.

(** The end of the turn is held back. *)
Definition holding (a : bool) (p : telling) (c : Z) (o : tny_owned_event) (m : machine W) : Prop :=
  live a p c m /\ pending_terminal (eng m) = Some o.
Definition closing (p : telling) (c : Z) (m : machine W) : Prop := exists o, holding true p c o m.

#[local] Instance holding_closed a p c o : Closed (holding a p c o).
Proof.
  intros m m' [HL Hp] A. split; [by eapply kept|]. destruct (i_pending _ _ _ A) as [|(_ & ? & _)]; congruence.
Qed.
#[local] Instance closing_closed p c : Closed (closing p c).
Proof. apply _. Qed.

Lemma live_put a a' p c m f :
  live a p c m -> queue (f (eng m)) = queue (eng m) -> queue_count (f (eng m)) = queue_count (eng m) ->
  queue_bytes (f (eng m)) = queue_bytes (eng m) -> extension_continuations (f (eng m)) = extension_continuations (eng m) ->
  (pending_terminal (f (eng m)) = pending_terminal (eng m) \/ pending_terminal (f (eng m)) = None) ->
  terminal (f (eng m)) = terminal (eng m) -> terminal_popped (f (eng m)) = terminal_popped (eng m) ->
  oom_error_reserve (f (eng m)) = oom_error_reserve (eng m) -> oom_terminal_reserve (f (eng m)) = oom_terminal_reserve (eng m) ->
  active (f (eng m)) = a' -> live a' p c (m <| eng ::= f |>).
Proof.
  intros (L1 & L2 & L3 & L4 & L5 & L6 & L7) E1 E2 E3 E4 E5 E6 E7 E8 E9 E10. split; [apply base_put; auto; unfold spare; by rewrite E8, E9|].
  unfold armed in *. cbn. rewrite E1, E6, E7, E8, E9, E10. by split_and!.
Qed.

Lemma commit_spec p : from (fun m => exists c, closing p c m) (commit_pending_terminal H cfg jparse) (fun _ => settled p).
Proof.
  unfold commit_pending_terminal. apply from_ex. intros c. apply from_ex. intros o. apply from_look. intros e.
  destruct (pending_terminal e) as [o'|] eqn:Ee; [|apply from_false; intros m [[_ Hp] <-]; congruence].
  eapply (from_bind _ _ _ (fun _ m => holding false p c o m /\ o' = o /\ active e = true)).
  { apply from_put. intros m [[HL Hp] <-]. split; [split; [by eapply live_put; eauto|done]|]. split; [congruence|apply HL]. }
  intros []. intros m (Hm & -> & Ha). revert m Hm. change (from (holding false p c o) (finalize_turn H ;;
    failed ← alloc_failed H;
    if failed : bool then put (fun e' => e' <| active := active e |>) ;; fail_oom H cfg jparse
    else
      put (fun e => e <| pending_terminal := None |> <| terminal := true |> <| cancel_armed := false |> <| stop := ev_stop (o_ev o) |>) ;;
      append_owned H (o <| o_hooks_done := true |>)) (fun _ => settled p)).
  apply from_past; [apply _|auto with keeps|]. intros []. apply from_past; [apply _|auto with keeps|]. intros [].
  - apply (from_bind _ _ _ (fun _ m => exists c, live true p c m)); [|intros []; apply fail_oom_spec]. apply from_put. intros m [HL _]. exists c. by eapply live_put; eauto.
  - intros m [HL Hp]. pose proof (live_roomy _ _ _ _ HL) as Hr. destruct HL as (L1 & L2 & L3 & L4 & L5 & L6 & L7).
    pose proof (b_pending _ _ _ L1 _ Hp) as (He & Hs & Hb').
    set (o' := o <| o_hooks_done := true |>). revert m Hp Hr L1 L2 L3 L4 L5 L6 L7. intros m Hp Hr L1 L2 L3 L4 L5 L6 L7.
    rewrite snd_bind. set (m1 := snd (put _ m)).
    assert (ending p (queue (eng m)) m1) as H1 by (split; [exists c; apply base_put; auto|by split_and!]).
    assert (roomy true (queue (eng m) ++ [o'])) as Hr'.
    { apply roomy_last; [done|cbn; lia| |by constructor]. constructor; [|done]. unfold reserved, is_reserved_kind. apply bool_decide_eq_true in He.
      cbn. by rewrite He. }
    pose proof (append_ending p _ o' Hr' m1 H1) as (Hb & T & P & Q). split; [done|]. split_and!; try done.
    rewrite Q. by exists (queue (eng m)), o'.
Qed.

(** ** Turns and their continuations *)

Lemma run_control_keeps {A} (q : prog W A) : keeps 260 (run H cfg (control H cfg jparse) q).
Proof. apply run_keeps. intros r. apply control_keeps. Qed.
#[local] Hint Resolve run_control_keeps : keeps.

(** What starting leaves, by its code. *)
Definition started (a : bool) (p : telling) (c : Z) (r : Z * bytes) (m : machine W) : Prop :=
  if r.1 =? 0 then live true p c m else live a p c m.

Lemma start_iteration_spec a p c prompt images source :
  from (live a p c) (start_backend_iteration H cfg jparse prompt images source) (started a p c).
Proof.
  unfold start_backend_iteration. do 2 (apply from_past; [apply _|keep|intros ?]). apply from_past; [apply _|keep|intros [fold context]].
  cbv zeta. do 3 (apply from_past; [apply _|keep|intros ?]). destruct a4; [by apply from_ret|].
  apply from_past; [apply _|keep|intros []]. destruct (fold_stop fold).
  - apply (from_bind _ _ _ (fun _ => live true p c)); [apply from_put; intros m HL; by eapply live_put; eauto|]. intros [].
    apply from_past; [apply _|keep|intros []]. by apply from_ret.
  - do 3 (apply from_past; [apply _|keep|intros ?]).
    apply (from_bind _ _ _ (fun _ => live true p c)); [apply from_put; intros m HL; by eapply live_put; eauto|]. intros [].
    apply from_past; [apply _|keep|intros []].
    + apply from_past; [apply _|keep|intros [rc err]]. destruct (rc =? 0) eqn:Er; [by apply from_ret|].
      do 3 (apply from_past; [apply _|keep|intros []]). by apply from_ret.
    + do 2 (apply from_past; [apply _|keep; try (apply unless_failed_keeps; keep)|intros []]). by apply from_ret.
Qed.

(** More to do, after one continuation more; or the turn is settled. *)
Definition resolved (p : telling) (c : Z) (again : bool) (m : machine W) : Prop :=
  if again then live true p (c + 1) m /\ (limited -> c < cf_max_iterations cfg) else settled p m.

Lemma closing_live p c m : closing p c m -> live true p c m.
Proof. by intros (o & HL & _). Qed.

(** A failed answer turns the end that is held back into an error. *)
Lemma fail_end_spec p c t : from (closing p c)
  (unless_failed H (
     put (fun e => e <| forcing_error := true |>
                     <| pending_terminal ::= option_map (fun o => o <| o_ev ::= fun ev => ev <| ev_stop := STOP_ERROR |> |>) |>) ;;
     synth_error H cfg ERROR_IO t)) (fun _ => closing p c).
Proof.
  unfold unless_failed. apply from_past; [apply _|keep|intros []]; [by apply from_ret|].
  apply (from_bind _ _ _ (fun _ => closing p c)); [|intros []; apply from_keeps; [apply _|keep]].
  apply from_put. intros m (o & HL & Hp). eexists. split; [|cbn; by rewrite Hp].
  destruct HL as (L1 & L2 & L3 & L4 & L5 & L6 & L7). pose proof (b_pending _ _ _ L1 _ Hp) as Ho.
  destruct L1 as [B1 B2 B3 B4 B5 B6 B7]. split; [constructor; cbn; auto|by split_and!].
  rewrite Hp. intros o' [= <-]. done.
Qed.

Lemma resolving_spec p : forall c, from (closing p c) (resolve_pending_terminal H cfg jparse) (resolved p c).
Proof.
  intros c. unfold resolve_pending_terminal. apply from_look. intros e.
  destruct (pending_terminal e) as [o|] eqn:Ee; [|apply from_false; intros m [(o & _ & Hp) <-]; congruence].
  apply (from_pre _ (closing p c)); [|by intros m []]. apply from_past; [apply _|keep|intros rc].
  apply (from_bind _ _ _ (fun _ => closing p c)); [destruct (rc =? 0); [by apply from_ret|apply fail_end_spec]|intros []].
  assert (forall k : Engine bool, (from (fun m => settled p m) k (resolved p c)) ->
    from (closing p c) (commit_pending_terminal H cfg jparse ;; k) (resolved p c)) as Hend.
  { intros k Hk. apply (from_bind _ _ _ (fun _ => settled p)); [|by intros []].
    eapply from_pre; [apply commit_spec|]. intros m Hm. by exists c. }
  destruct (negb (cf_extensions cfg)); [by apply Hend, from_ret|].
  apply from_past; [apply _|keep|intros []]. apply from_past; [apply _|keep|intros e1]. cbv zeta.
  set (ev := from_option o_ev (o_ev o) (pending_terminal e1)). clearbody ev.
  apply from_past; [apply _|keep|intros []]. apply from_look. intros e2.
  set (requested := turn_started e2 && _ && _ && _ && _). clearbody requested.
  set (stopped := (0 <? cf_max_iterations cfg) && (cf_max_iterations cfg <=? extension_continuations e2)).
  apply (from_bind _ _ _ (fun _ m => closing p c m /\ extension_continuations e2 = c)).
  { intros m [Hm He]. split; [by apply (from_keeps (closing p c)); [apply _|keep|]|].
    destruct (closing_live _ _ _ Hm) as ([] & _). congruence. }
  intros []. intros m [Hm Hc]. revert m Hm. destruct (requested && negb stopped) eqn:Er.
  - apply andb_true_iff in Er as [_ Es]. subst stopped. rewrite Hc in Es.
    match goal with |- forall m, closing p c m -> resolved p c (fst (?f m)) (snd (?f m)) => change (from (closing p c) f (resolved p c)) end.
    do 2 (apply from_past; [apply _|keep|intros ?]).
    apply (from_bind _ _ _ (fun _ => live true p (c + 1))).
    { apply from_put. intros m Hm%closing_live. pose proof Hm as (L1 & L2 & L3 & L4 & L5 & L6 & L7).
      split; [eapply base_counted; eauto; cbn; by rewrite (b_count _ _ _ L1)|]. split_and!; try done. intros Hl. specialize (L7 Hl). apply Hlimited in Hl. lia. }
    intros []. eapply from_bind; [apply start_iteration_spec|]. intros [rc1 err].
    apply (from_pre _ (live true p (c + 1))); [|intros m; unfold started; by destruct (_ =? 0)].
    apply from_past; [apply _|keep|intros []]. apply from_ret. intros m Hm. split; [done|]. intros Hl%Hlimited. lia.
  - match goal with |- forall m, closing p c m -> resolved p c (fst (?f m)) (snd (?f m)) => change (from (closing p c) f (resolved p c)) end.
    apply from_past; [apply _|keep|intros []]. apply from_past; [apply _|keep|intros e3]. apply from_past; [apply _|keep|intros []].
    apply Hend. apply from_past; [apply _|keep|intros []]. by apply from_ret.
Qed.

(** Settled, or nothing of the end is held back. *)
Definition waiting (p : telling) (m : machine W) : Prop :=
  (exists c, live true p c m /\ (limited -> pending_terminal (eng m) = None)) \/ settled p m.

Lemma cancel_if_asked d : (forall r, keeps d (control H cfg jparse r)) -> forall b,
  keeps d (when b (put (fun e => e <| extension_cancel_sent := true |>) ;; cancel_backend H cfg (control H cfg jparse))).
Proof. intros Hc b. unfold cancel_backend. keep. Qed.

Lemma settle_settled p rounds : (limited -> (0 < rounds)%nat) -> from (settled p) (settle H cfg jparse rounds) (fun _ => settled p).
Proof.
  destruct rounds as [|rounds]; intros Hr; cbn [settle].
  { intros m ([c []] & Hm). split; [|done]. exists c. constructor; cbn; auto. intros Hl%Hr. lia. } apply from_past; [apply _|keep|intros []].
  apply from_past; [apply _|keep|intros e]. apply from_past; [apply _|apply cancel_if_asked, control_keeps|intros []].
  apply from_look. intros e'. destruct (pending_terminal e') eqn:E; [|by apply from_ret; intros m []].
  apply from_false. intros m [(_ & _ & _ & _ & Hp & _) <-]. congruence.
Qed.

Lemma settling_spec p rounds c : (limited -> (0 < rounds)%nat /\ cf_max_iterations cfg < Z.of_nat rounds + c) ->
  from (live true p c) (settle H cfg jparse rounds) (fun _ => waiting p).
Proof.
  revert c. induction rounds as [|rounds IH]; intros c Hr; cbn [settle].
  { intros m HL. left. exists c. assert (~ limited) as Hn by (intros Hl; destruct (Hr Hl); lia). split; [|done].
    destruct HL as ([] & L). split; [constructor; cbn; auto|done]. done. }
  apply from_past; [apply _|keep|intros []].
  apply from_past; [apply _|keep|intros e]. apply from_past; [apply _|apply cancel_if_asked, control_keeps|intros []].
  apply from_look. intros e'. destruct (pending_terminal e') as [o|] eqn:E.
  - apply (from_bind _ _ _ (resolved p c)).
    { eapply from_pre; [apply resolving_spec|]. intros m [HL <-]. by exists o. }
    intros []; [|apply from_ret; intros m Hm; by right].
    intros m [HL Hc]. apply (IH (c + 1)); [|done]. intros Hl. specialize (Hc Hl). destruct (Hr Hl). lia.
  - apply from_ret. intros m [HL <-]. left. by exists c.
Qed.

(** The end that is held back stays so. *)
Definition still {A} (f : Engine A) : Prop := forall m, pending_terminal (eng (snd (f m))) = pending_terminal (eng m).

Lemma still_bind {A T} (f : Engine A) (k : A -> Engine T) : still f -> (forall a, still (k a)) -> still (f ≫= k).
Proof. intros Hf Hk m. by rewrite snd_bind, Hk. Qed.

Lemma still_ask {A} (f : W -> A * W) : still (ask f).
Proof. intros m. unfold ask. by destruct (f (world m)). Qed.

Lemma still_unless k : still k -> still (unless_failed H k).
Proof.
  intros Hk. apply still_bind; [intros m; exact (proj1 (proj2 (alloc_failed_same H m)))|]. by intros [].
Qed.

Lemma finalize_still : still (finalize_turn H).
Proof.
  unfold finalize_turn. apply still_bind; [done|]. intros e. destruct (_ && _); cbn [when]; [|done].
  apply still_unless, still_bind; [done|]. intros [].
  apply still_bind; [destruct (bk_pointer H) as [f|]; [|done]; apply still_bind; [apply still_ask|intros [q|]; [by apply still_unless|done]]|].
  intros []. apply still_unless, still_bind; [done|]. intros []. apply still_unless, still_bind; [apply still_ask|]. intros titled.
  apply still_bind; [destruct (prompt_text e); [|done]; by destruct (negb titled)|]. intros [].
  apply still_unless, still_bind; [apply still_ask|done].
Qed.

Lemma waiting_underway p m : waiting p m -> underway p m.
Proof. intros [(c & HL & _)|Hm]; [left; by exists c|by right]. Qed.

Lemma finalize_waiting p : from (waiting p) (finalize_turn H) (fun _ => waiting p).
Proof.
  intros m [(c & HL & Hp)|Hm].
  - left. exists c. split; [apply (from_keeps (live true p c)); [apply _|keep|done]|]. intros Hl. by rewrite finalize_still, Hp.
  - right. apply (from_keeps (settled p)); [apply _|keep|done].
Qed.

Lemma after_backend_spec p rc : from (underway p) (after_backend H cfg jparse rc) (fun _ => waiting p).
Proof.
  unfold after_backend. do 2 (apply from_past; [apply _|keep|intros ?]). apply from_look. intros e. cbv zeta.
  apply (from_bind _ _ _ (fun _ => underway p)).
  - destruct (oom_pending e && negb (terminal e)) eqn:E1.
    + apply andb_true_iff in E1 as [_ E1%negb_true_iff]. eapply from_mono; [apply fail_oom_spec| |intros [] m Hm; by right].
      intros m [[Hm|(_ & _ & Ht & _)] <-]; [done|congruence].
    + apply (from_pre _ (underway p)); [|by intros m []]. destruct (overflow_pending e && _).
      * do 3 (apply from_past; [apply _|keep|intros []]). apply from_keeps; [apply _|keep].
      * apply from_keeps; [apply _|keep].
  - intros []. apply (from_bind _ _ _ (fun _ => waiting p)); [|intros []; apply finalize_waiting].
    apply from_or.
    + apply from_ex. intros c m HL. apply (settling_spec p _ c); [|done]. destruct HL as (_ & _ & _ & _ & _ & _ & L7).
      intros Hl. specialize (L7 Hl). apply Hlimited in Hl. lia.
    + intros m Hm. right. apply settle_settled; [|done]. intros Hl%Hlimited. lia.
Qed.

Lemma after_backend_underway p rc : from (underway p) (after_backend H cfg jparse rc) (fun _ => underway p).
Proof. eapply from_mono; [apply after_backend_spec|done|]. intros ? m. apply waiting_underway. Qed.

(** ** Calls on a turn *)

Lemma steer_spec p t : from (underway p) (tny_engine_steer H cfg jparse t) (fun _ => underway p).
Proof.
  unfold tny_engine_steer. apply from_past; [apply _|keep|intros e]. destruct (bk_steer H) as [f|]; [|by apply from_ret].
  destruct (_ || _); [by apply from_ret|]. apply from_past; [apply _|keep|intros [fold effective]].
  destruct (fold_blocked fold); [|destruct (fold_stop fold)].
  - apply from_past; [apply _|keep|intros _]. eapply from_bind; [apply after_backend_underway|]. intros []. by apply from_ret.
  - apply from_past; [apply _|keep|intros _]. eapply from_bind; [apply after_backend_underway|]. intros []. by apply from_ret.
  - apply from_past; [apply _|keep|intros rc]. apply (from_bind _ _ _ (fun _ => underway p)); [|intros []; by apply from_ret].
    apply from_when; [intros _|done]. apply from_past; [apply _|keep|intros []]. apply after_backend_underway.
Qed.

Lemma cancel_spec p : from (underway p) (tny_engine_cancel H cfg jparse) (fun _ => underway p).
Proof.
  unfold tny_engine_cancel. apply from_past; [apply _|keep|intros e]. destruct (bk_cancel H); [|by apply from_ret].
  apply from_when; [intros _|done]. apply from_past; [apply _|keep|intros []]. apply after_backend_underway.
Qed.

Lemma respond_spec p id d : from (underway p) (tny_engine_respond_permission H cfg jparse id d) (fun _ => underway p).
Proof.
  unfold tny_engine_respond_permission. apply from_past; [apply _|keep|intros e]. destruct (bk_respond H); [|by apply from_ret].
  apply from_when; [intros _|done]. apply from_past; [apply _|keep|intros []]. apply after_backend_underway.
Qed.

Lemma dispatch_spec p : from (underway p) (tny_engine_dispatch H cfg jparse) (fun _ => underway p).
Proof.
  unfold tny_engine_dispatch. apply from_past; [apply _|keep|intros e]. destruct (bk_dispatch H); [|by apply from_ret].
  destruct (_ && _); [|by apply from_ret]. apply from_past; [apply _|keep|intros rc].
  eapply from_bind; [apply after_backend_underway|]. intros []. by apply from_ret.
Qed.

(** Without an active turn they do nothing. *)
Definition resting {A} (f : Engine A) : Prop := forall m, active (eng m) = false -> snd (f m) = m.

Lemma steer_resting t : resting (tny_engine_steer H cfg jparse t).
Proof. intros m Ha. unfold tny_engine_steer. rewrite snd_bind. cbn [look fst snd]. destruct (bk_steer H); [|done]. by rewrite Ha. Qed.

Lemma cancel_resting : resting (tny_engine_cancel H cfg jparse).
Proof. intros m Ha. unfold tny_engine_cancel. rewrite snd_bind. cbn [look fst snd]. destruct (bk_cancel H); [|done]. by rewrite Ha. Qed.

Lemma respond_resting id d : resting (tny_engine_respond_permission H cfg jparse id d).
Proof.
  intros m Ha. unfold tny_engine_respond_permission. rewrite snd_bind. cbn [look fst snd]. destruct (bk_respond H); [|done]. by rewrite Ha.
Qed.

Lemma dispatch_resting : resting (tny_engine_dispatch H cfg jparse).
Proof.
  intros m Ha. unfold tny_engine_dispatch. rewrite snd_bind. cbn [look fst snd]. destruct (bk_dispatch H); [|done]. by rewrite Ha.
Qed.

Lemma inv_active p m : inv p m -> active (eng m) = true -> p = RUNNING.
Proof. destruct p; cbn; [|done|]; [intros [(c & _ & Ha & _)|(_ & Ha & _)]|intros (_ & Ha & _)]; congruence. Qed.

(** What is kept while a turn is underway is kept always. *)
Lemma from_inv {A} p (f : Engine A) : resting f -> from (underway RUNNING) f (fun _ => underway RUNNING) -> from (inv p) f (fun _ => inv p).
Proof.
  intros Hr Hf m Hm. destruct (active (eng m)) eqn:Ha; [|by rewrite Hr].
  pose proof (inv_active _ _ Hm Ha) as ->. by apply Hf.
Qed.

Lemma take_cancel_spec p : from (inv p) (take_cancel H cfg jparse) (fun _ => inv p).
Proof.
  unfold take_cancel. do 2 (apply from_past; [apply _|keep|intros ?]). apply from_when; [intros _|done].
  apply from_inv; [apply cancel_resting|apply cancel_spec].
Qed.

(** ** Events for the frontend *)

Lemma roomy_tail over o q : roomy over (o :: q) -> roomy over q.
Proof.
  intros (within & last & E & H1 & H2 & H3 & H4 & H5 & H6). inversion H6 as [|? ? Hs Hq]; subst.
  destruct within as [|x within]; cbn in E.
  - subst last. exists [], q. inversion H4; subst. cbn in H3. split_and!; try done; [lia|]. intros Ho. by specialize (H5 Ho).
  - injection E as <- ->. exists within, last. cbn [length size_of fold_right] in *. unfold size_of in *. cbn [fold_right] in H2. unfold sized in Hs.
    split_and!; try done; lia.
Qed.

Lemma roomy_drop over pre q : roomy over (pre ++ q) -> roomy over q.
Proof. induction pre as [|o pre IH]; [done|]. intros Hr. by apply IH, (roomy_tail _ o). Qed.

Definition hidden (o : tny_owned_event) : Prop := o_suppressed o = true.

Lemma skip_spec q n s : exists pre, let '(q', n', s') := skip_suppressed q n s in
  q = pre ++ q' /\ Forall hidden pre /\ n' = n - Z.of_nat (length pre) /\ s' = s - size_of pre /\
  match q' with o :: _ => o_suppressed o = false | [] => True end.
Proof.
  revert n s. induction q as [|o q IH]; intros n s; cbn [skip_suppressed]; [exists []; unfold size_of; cbn; split_and!; done || lia|].
  destruct (o_suppressed o) eqn:Eo.
  - destruct (IH (n - 1) (s - o_bytes o)) as [pre Hp]. exists (o :: pre). destruct (skip_suppressed _ _ _) as [[q' n'] s'].
    destruct Hp as (-> & H2 & -> & -> & H5). unfold size_of. cbn [app length fold_right]. split_and!; [done|by constructor|lia|lia|done].
  - exists []. unfold size_of. cbn. split_and!; done || lia.
Qed.

(** The events before the one that is taken go with it. *)
Record popped (m : machine W) (r : option tny_owned_event) (m' : machine W) : Prop := {
  pp_queue : exists pre, Forall hidden pre /\
    match r with
    | Some o => queue (eng m) = pre ++ o :: queue (eng m') /\ o_suppressed o = false
    | None => queue (eng m) = pre /\ queue (eng m') = []
    end;
  pp_tallied : tallied (eng m) -> tallied (eng m');
  pp_popped : terminal_popped (eng m') = terminal_popped (eng m) || match r with Some o => is_end o | None => false end;
  pp_rest : active (eng m') = active (eng m) /\ terminal (eng m') = terminal (eng m) /\
    pending_terminal (eng m') = pending_terminal (eng m) /\ oom_error_reserve (eng m') = oom_error_reserve (eng m) /\
    oom_terminal_reserve (eng m') = oom_terminal_reserve (eng m) /\
    extension_continuations (eng m') = extension_continuations (eng m) /\ stuck m' = stuck m /\ trace m' = trace m }.

Lemma pop_popped m : popped m (fst (tny_engine_pop_event m)) (snd (tny_engine_pop_event m)).
Proof.
  unfold tny_engine_pop_event, mbind, M_bind, put, change, look. cbn [fst snd].
  destruct (skip_spec (queue (eng m)) (queue_count (eng m)) (queue_bytes (eng m))) as [pre Hp].
  set (m1 := over eng _ m). assert (eng m1 = let '(q, n, s) := skip_suppressed (queue (eng m)) (queue_count (eng m)) (queue_bytes (eng m)) in
    eng m <| queue := q |> <| queue_count := n |> <| queue_bytes := s |>) as E1 by done.
  assert (stuck m1 = stuck m /\ trace m1 = trace m /\ world m1 = world m /\ oom m1 = oom m) as (E2 & E3 & E4 & E5) by done.
  destruct (skip_suppressed _ _ _) as [[q n] s]. destruct Hp as (Hq & H2 & -> & -> & H5). destruct m1 as [e1 o1 s1 w1 t1]. cbn in *. subst e1 o1 s1 w1 t1. cbn.
  destruct q as [|o q]; cbn.
  - rewrite app_nil_r in Hq. constructor; cbn; [by exists pre| |by rewrite orb_false_r|by split_and!].
    intros (T1 & T2 & T3). unfold tallied. cbn. rewrite T1, T2, Hq. unfold size_of at 3. cbn. split_and!; [lia|lia|].
    rewrite Hq in T3. apply (roomy_drop _ pre). by rewrite app_nil_r.
  - assert (tallied (eng m) -> queue_count (eng m) - Z.of_nat (length pre) - 1 = Z.of_nat (length q) /\
      queue_bytes (eng m) - size_of pre - o_bytes o = size_of q /\ roomy (terminal (eng m)) q) as Ht.
    { intros (T1 & T2 & T3). rewrite T1, T2, Hq. rewrite length_app, size_app. cbn [length]. unfold size_of at 2. cbn [fold_right].
      fold (size_of q). split_and!; [lia|lia|]. rewrite Hq in T3. by apply roomy_drop, roomy_tail in T3. }
    destruct (bool_decide (ev_kind (o_ev o) = EV_TURN_END)) eqn:Ek; cbn;
      (constructor; cbn; [by exists pre|exact Ht|unfold is_end; rewrite Ek; by rewrite ?orb_true_r, ?orb_false_r|by split_and!]).
Qed.

Lemma popped_base p c m r m' : base p c m -> popped m r m' -> base p c m'.
Proof.
  intros [B1 B2 B3 B4 B5 B6 B7] [_ T _ (R1 & R2 & R3 & R4 & R5 & R6 & R7 & R8)].
  constructor; auto; unfold spare; rewrite ?R3, ?R4, ?R5, ?R6, ?R7, ?R8; auto.
Qed.

Lemma live_popped a p c m r m' : live a p c m -> popped m r m' -> live a p c m' /\ forall o, r = Some o -> is_end o = false.
Proof.
  intros (L1 & L2 & L3 & L4 & L5 & L6 & L7) HP. pose proof (popped_base _ _ _ _ _ L1 HP) as K.
  destruct HP as [(pre & _ & Hq) _ Hp (R1 & R2 & R3 & R4 & R5 & R6 & R7 & R8)].
  assert ((forall o, r = Some o -> is_end o = false) /\ Forall ordinary (queue (eng m'))) as [Ho Hq'].
  { destruct r as [o|]; destruct Hq as [Hq E]; [|by rewrite E].
    rewrite Hq in L6. apply Forall_app in L6 as [_ L6]. inversion L6 as [|? ? [He _] Hr]; subst. split; [by intros ? [= <-]|done]. }
  split; [|done]. split; [done|]. rewrite R1, R2, Hp, L4, L2, L3. unfold armed. rewrite R4, R5. split_and!; try done.
  destruct r as [o|]; [by apply Ho|done].
Qed.

Lemma settled_popped p m r m' : settled p m -> popped m r m' -> exists o, r = Some o /\ if is_end o then gone p m' else settled p m'.
Proof.
  intros ([c L1] & L2 & L3 & L4 & L5 & (q & e & Eq & (He & Hs & Hb) & Hq)) HP. pose proof (popped_base _ _ _ _ _ L1 HP) as K.
  destruct HP as [(pre & Hpre & Hr) _ Hp (R1 & R2 & R3 & R4 & R5 & R6 & R7 & R8)]. destruct r as [o|].
  - exists o. split; [done|]. destruct Hr as [E Ho].
    destruct (queue (eng m')) as [|x rest _] eqn:Er using rev_ind.
    + rewrite Eq in E. apply app_inj_tail in E as [-> <-]. rewrite He in *.
      split; [by exists c|]. rewrite R1, R2, R3, Hp, orb_true_r. by split_and!.
    + rewrite Eq in E. change (pre ++ o :: rest ++ [x]) with (pre ++ (o :: rest) ++ [x]) in E. rewrite app_assoc in E.
      apply app_inj_tail in E as [-> <-]. apply Forall_app in Hq as [_ Hq]. inversion Hq as [|? ? [Hn _] Hq']; subst.
      rewrite Hn in *. split; [by exists c|]. rewrite R1, R2, R3, Hp, orb_false_r. split_and!; try done. rewrite Er. by exists rest, e.
  - exfalso. destruct Hr as [E _]. rewrite <- E, Eq in Hpre. apply Forall_app in Hpre as [_ Hx]. inversion Hx. congruence.
Qed.

Lemma gone_popped p m r m' : gone p m -> popped m r m' -> r = None /\ gone p m'.
Proof.
  intros ([c L1] & L2 & L3 & L4 & L5 & L6) HP. pose proof (popped_base _ _ _ _ _ L1 HP) as K.
  destruct HP as [(pre & Hpre & Hr) _ Hp (R1 & R2 & R3 & R4 & R5 & R6 & R7 & R8)]. rewrite L6 in Hr. destruct r as [o|].
  - destruct Hr as [E _]. by destruct pre.
  - split; [done|]. split; [by exists c|]. rewrite R1, R2, R3, Hp, L4. by destruct Hr as [_ ->].
Qed.

(** A pop, before it is noted. *)
Definition shown (p : telling) (r : option tny_owned_event) (m : machine W) : Prop :=
  match r with
  | Some o => exists q, tell_next p (Popped o) = Some q /\ inv_as q p m
  | None => inv p m
  end.

Lemma pop_spec p : from (inv p) tny_engine_pop_event (shown p).
Proof.
  intros m Hm. pose proof (pop_popped m) as HP. revert HP. generalize (fst (tny_engine_pop_event m)), (snd (tny_engine_pop_event m)).
  intros r m' HP. destruct p; unfold inv in Hm; cbn in Hm.
  - destruct Hm as [(c & HL)|HG].
    + destruct (live_popped _ _ _ _ _ _ HL HP) as [HL' Ho]. destruct r as [o|]; cbn; [|left; by exists c].
      rewrite (Ho o eq_refl). exists IDLE. split; [done|]. left. by exists c.
    + destruct (gone_popped _ _ _ _ HG HP) as [-> HG']. by right.
  - destruct Hm as [(c & HL)|HS].
    + destruct (live_popped _ _ _ _ _ _ HL HP) as [HL' Ho]. destruct r as [o|]; cbn; [|left; by exists c].
      rewrite (Ho o eq_refl). exists RUNNING. split; [done|]. left. by exists c.
    + destruct (settled_popped _ _ _ _ HS HP) as (o & -> & Hx). cbn. destruct (is_end o); eexists; (split; [done|]); [done|by right].
  - by destruct (gone_popped _ _ _ _ Hm HP) as [-> HG'].
Qed.

(** What is noted of a state. *)
Lemma base_note p q c i m : base p c m -> tell_next p i = Some q -> (heedful (trace m) -> heedful (i :: trace m)) ->
  base q c (m <| trace ::= cons i |>).
Proof.
  intros [B1 B2 B3 B4 B5 B6 B7] Hi Hh. constructor; cbn -[heedful]; auto. cbn. by rewrite B2.
Qed.

Lemma inv_note p q s i m : inv_as s p m -> tell_next p i = Some q -> (heedful (trace m) -> heedful (i :: trace m)) ->
  inv_as s q (m <| trace ::= cons i |>).
Proof.
  intros Hm Hi Hh.
  assert (forall c a, live a p c m -> live a q c (m <| trace ::= cons i |>)) as HL.
  { intros c a (L1 & L). split; [by eapply base_note|done]. }
  assert (settled p m -> settled q (m <| trace ::= cons i |>)) as HS.
  { intros ([c L1] & L). split; [exists c; by eapply base_note|done]. }
  assert (gone p m -> gone q (m <| trace ::= cons i |>)) as HG.
  { intros ([c L1] & L). split; [exists c; by eapply base_note|done]. }
  destruct s; cbn in *; [destruct Hm as [[c Hm]|Hm]; [left; exists c|right]; auto| |auto].
  destruct Hm as [[c Hm]|Hm]; [left; exists c|right]; auto.
Qed.

Definition some_inv (m : machine W) : Prop := exists p, inv p m.

Lemma note_popped p o : from (shown p (Some o)) (note (Popped o)) (fun _ => some_inv).
Proof. intros m (q & Hq & Hm). exists q. by eapply (inv_note p). Qed.

(** ** A turn starts *)

(** Only the reserves are other. *)
Record rearmed (m : machine W) (ok : bool) (m' : machine W) : Prop := {
  ra_eng : eng m' = eng m <| oom_error_reserve := oom_error_reserve (eng m') |> <| oom_terminal_reserve := oom_terminal_reserve (eng m') |>;
  ra_rest : stuck m' = stuck m /\ trace m' = trace m;
  ra_spare : spare (eng m) -> spare (eng m');
  ra_armed : spare (eng m) -> ok = true -> armed (eng m');
  ra_still : armed (eng m) -> armed (eng m') }.

Lemma reserve_spec k m o m' : k = EV_ERROR \/ k = EV_TURN_END -> reserve_event H cfg k m = (o, m') ->
  (eng m' = eng m /\ stuck m' = stuck m /\ trace m' = trace m) /\ forall x, o = Some x -> ev_kind (o_ev x) = k /\ sized x.
Proof.
  intros Hk. unfold reserve_event, ask, mbind, M_bind. destruct (h_text H (world m)) as [[] w]; intros [= <- <-]; split; try done.
  intros x [= <-]. split; [by destruct Hk as [-> | ->]|]. unfold sized. cbn [o_ev o_bytes]. apply owned_sized.
Qed.

Lemma reserves_eta e : e = e <| oom_error_reserve := oom_error_reserve e |> <| oom_terminal_reserve := oom_terminal_reserve e |>.
Proof. by destruct e. Qed.

Lemma rearmed_unarmed m m' : eng m' = eng m -> stuck m' = stuck m -> trace m' = trace m -> rearmed m false m'.
Proof. intros E1 E2 E3. constructor; rewrite ?E1; try done. apply reserves_eta. Qed.

Lemma rearmed_both m m' o o' : eng m' = eng m -> stuck m' = stuck m -> trace m' = trace m ->
  (spare (eng m) -> ev_kind (o_ev o) = EV_ERROR /\ sized o) -> (spare (eng m) -> ev_kind (o_ev o') = EV_TURN_END /\ sized o') ->
  rearmed m true (m' <| eng ::= fun e => e <| oom_error_reserve := Some o |> <| oom_terminal_reserve := Some o' |> |>).
Proof.
  intros E1 E2 E3 Ho Ho'. assert (spare (eng m) -> armed (eng m <| oom_error_reserve := Some o |> <| oom_terminal_reserve := Some o' |>)) as A.
  { intros S. exists o, o'. destruct (Ho S), (Ho' S). by split_and!. }
  constructor; cbn; rewrite ?E1; auto.
  - intros S. split; intros x [= <-]; auto.
  - intros (x & x' & X1 & X2 & X3 & X4 & X5 & X6). apply A. split; intros y Hy; rewrite Hy in *; simplify_eq; auto.
Qed.

Lemma ensure_spec m : rearmed m (fst (ensure_oom_reserves H cfg m)) (snd (ensure_oom_reserves H cfg m)).
Proof.
  unfold ensure_oom_reserves, mbind, M_bind, mret, M_ret, look, put, change. cbn [fst snd].
  destruct (oom_error_reserve (eng m)) as [o|] eqn:Eo, (oom_terminal_reserve (eng m)) as [o'|] eqn:Eo'; cbn [fst snd].
  - constructor; try done; [exact (reserves_eta (eng m))|]. intros [S1 S2]. exists o, o'. destruct (S1 o), (S2 o'); auto. by split_and!.
  - destruct (reserve_event H cfg EV_TURN_END m) as [[x|] m1] eqn:E; apply reserve_spec in E as [(E1 & E2 & E3) Hx]; auto; cbn [fst snd].
    + apply rearmed_both; auto. intros [S _]. auto.
    + by apply rearmed_unarmed.
  - destruct (reserve_event H cfg EV_ERROR m) as [[x|] m1] eqn:E; apply reserve_spec in E as [(E1 & E2 & E3) Hx]; auto; cbn [fst snd].
    + apply rearmed_both; auto. intros [_ S]. auto.
    + by apply rearmed_unarmed.
  - destruct (reserve_event H cfg EV_ERROR m) as [[x|] m1] eqn:E; apply reserve_spec in E as [(E1 & E2 & E3) Hx]; auto; cbn [fst snd];
      [|by apply rearmed_unarmed].
    destruct (reserve_event H cfg EV_TURN_END m1) as [[y|] m2] eqn:E'; apply reserve_spec in E' as [(E1' & E2' & E3') Hy]; auto; cbn [fst snd].
    + apply rearmed_both; auto; congruence.
    + apply rearmed_unarmed; congruence.
Qed.

Lemma rearmed_base p c m ok m' : base p c m -> rearmed m ok m' -> base p c m'.
Proof.
  intros [(T1 & T2 & T3) B2 B3 B4 B5 B6 B7] [E [R1 R2] S _ _]. constructor; rewrite ?R1, ?R2; auto; rewrite E; auto. by split_and!.
Qed.

(** Between two turns. *)
Definition between (p : telling) (m : machine W) : Prop :=
  (exists c, base p c m) /\ active (eng m) = false /\ armed (eng m) /\ queue (eng m) = [].

Lemma ensure_idle p : from (idle p) (ensure_oom_reserves H cfg)
  (fun ok m => idle p m /\ (ok = true -> queue (eng m) = [] -> between p m)).
Proof.
  intros m Hm. pose proof (ensure_spec m) as HR. revert HR. generalize (fst (ensure_oom_reserves H cfg m)), (snd (ensure_oom_reserves H cfg m)).
  intros ok m' HR. destruct Hm as [(c & L1 & L2 & L3 & L4 & L5 & L6 & L7)|([c L1] & L2 & L3 & L4 & L5 & L6)].
  - pose proof (rearmed_base _ _ _ _ _ L1 HR) as K. pose proof (ra_spare _ _ _ HR) as S. pose proof (ra_still _ _ _ HR L5) as A.
    destruct HR as [E _ _ _ _]. split.
    + left. exists c. split; [done|]. rewrite E. by split_and!.
    + intros _ Hq. split_and!; try done; [by exists c|]. by rewrite E.
  - pose proof (rearmed_base _ _ _ _ _ L1 HR) as K. pose proof (ra_armed _ _ _ HR (b_spare _ _ _ L1)) as A. destruct HR as [E _ _ _ _]. split.
    + right. split; [by exists c|]. by rewrite E.
    + intros Hok Hq. split_and!; auto; [by exists c|]. by rewrite E.
Qed.
#[local] Hint Resolve unless_failed_keeps : keeps.

Lemma shown_prompt_keeps d prompt images : keeps d (shown_prompt H cfg prompt images).
Proof. unfold shown_prompt. keep; apply prepare_user_prompt_keeps. Qed.
#[local] Hint Resolve shown_prompt_keeps : keeps.

Lemma drained_spec a p c n : from (live a p c) (drain n) (fun _ => live a p c).
Proof.
  induction n as [|n IH]; cbn [drain]; [by apply from_ret|]. apply (from_bind _ _ _ (fun _ => live a p c)).
  - intros m Hm. by destruct (live_popped _ _ _ _ _ _ Hm (pop_popped m)).
  - intros [o|]; [exact IH|by apply from_ret].
Qed.

(** What a start leaves, by its code. *)
Definition begun (p : telling) (rc : Z) (m : machine W) : Prop := if rc =? 0 then underway p m else idle p m.

Lemma inject_keeps d t : keeps d (inject_skills H cfg t).
Proof. unfold inject_skills. keep. Qed.
#[local] Hint Resolve inject_keeps : keeps.

Lemma accept_spec p prompt images effective :
  from (live false p 0) (accept_turn H cfg jparse prompt images effective) (fun r => begun p r.1).
Proof.
  unfold accept_turn. apply from_past; [apply _|keep|intros index]. apply from_past; [apply _|keep|intros [[text names]|]].
  2: { apply from_ret. intros m Hm. left. by exists 0. }
  eapply from_bind; [apply start_iteration_spec|]. intros [rc err]. unfold started. cbn [fst].
  destruct (rc =? 0) eqn:Er; cbn [andb negb when].
  - do 2 (apply from_past; [apply _|keep|intros ?]).
    apply (from_bind _ _ _ (fun _ => live true p 0)).
    { apply from_put. intros m HL. pose proof HL as (_ & Ha & _). eapply live_put; eauto; by rewrite Ha; auto. }
    intros []. eapply from_bind; [eapply from_pre; [apply after_backend_underway|intros m Hm; left; by exists 0]|].
    intros []. by apply from_ret.
  - do 2 (apply from_past; [apply _|keep|intros ?]). apply from_past; [apply _|keep|intros n].
    eapply from_bind; [apply drained_spec|]. intros [].
    apply (from_bind _ _ _ (fun _ => live false p 0)).
    { apply from_put. intros m HL. pose proof HL as (L1 & L2 & L3 & L4 & L). by eapply live_put; eauto. }
    intros []. apply from_ret. intros m Hm. left. by exists 0.
Qed.

Lemma reset_spec p : from (between p) (put reset_turn) (fun _ => live false p 0).
Proof.
  apply from_put. intros m ([c [(T1 & T2 & T3) B2 B3 B4 B5 B6 B7]] & Ha & Hr & Hq). split; [constructor; cbn; auto|].
  - unfold tallied. cbn. rewrite Hq in *. split_and!; [done..|]. exists [], []. unfold size_of, ENGINE_EVENT_MAX, ENGINE_EVENT_BYTES_MAX. cbn.
    split_and!; try done; lia.
  - cbn. rewrite Hq. split_and!; try done. intros Hl%Hlimited. lia.
Qed.

Lemma begin_spec p prompt images : from (between p) (begin_turn H cfg jparse prompt images) (fun r => begun p r.1).
Proof.
  unfold begin_turn. eapply from_bind; [apply reset_spec|]. intros [].
  apply from_past; [apply _|keep|intros [fold effective]]. do 2 (apply from_past; [apply _|keep|intros ?]).
  destruct a0; [|destruct (_ || _)].
  - apply from_ret. intros m Hm. left. by exists 0.
  - apply (from_bind _ _ _ (fun _ => live true p 0)); [apply from_put; intros m HL; by eapply live_put; eauto|]. intros [].
    do 3 (apply from_past; [apply _|keep|intros ?]).
    eapply from_bind; [eapply from_pre; [apply after_backend_underway|intros m Hm; left; by exists 0]|]. intros []. by apply from_ret.
  - apply accept_spec.
Qed.

(** Ready for a turn. *)
Definition poised (p : telling) (m : machine W) : Prop := idle p m /\ between p m.

Lemma poised_same p m m' : poised p m -> same m m' -> poised p m'.
Proof.
  intros [Hi ([c Hb] & Ha & Hr & Hq)] HS. pose proof (same_inner 260 _ _ HS) as HI. split; [by eapply kept|].
  destruct HS as (Hc & _ & Eq & _). unfold core in Hc. split; [exists c; by eapply kept|]. split_and!; try congruence.
  apply (armed_core (eng m)); [congruence..|done].
Qed.

Lemma build_same m t : same m (snd (build H t m)).
Proof. unfold build, mbind, M_bind, ask. by destruct (h_text H (world m)) as [[] w]. Qed.

Lemma extend_same m b l : same m (snd (extend H b l m)).
Proof.
  revert b m. induction l as [|t l IH]; intros b m; cbn [extend]; [apply same_refl|]. rewrite snd_bind. unfold ask.
  destruct (h_text H (world m)) as [[] w]; [|by split_and!]. eapply same_chain; [|apply IH]. by split_and!.
Qed.

Lemma dup_same m t : same m (snd (dup H t m)).
Proof. destruct t; [apply build_same|apply same_refl]. Qed.

Lemma build_poised p t : from (poised p) (build H t) (fun _ => poised p).
Proof. intros m Hm. eapply poised_same; [exact Hm|apply build_same]. Qed.

Lemma prompt_poised p t : from (poised p) (put (fun e => e <| prompt_text := t |>)) (fun _ => poised p).
Proof. intros m Hm. by eapply poised_same. Qed.

Lemma start_spec p prompt images : from (idle p) (tny_engine_start H cfg jparse prompt images) (fun r => begun p r.1).
Proof.
  unfold tny_engine_start. apply from_look. intros e. destruct (refuse_turn e) eqn:Er; [apply from_ret; by intros m []|].
  apply (from_pre _ (fun m => idle p m /\ queue (eng m) = [])).
  2: { intros m [Hm <-]. split; [done|]. unfold refuse_turn in Er.
    apply orb_false_iff in Er as [[[_ Er]%orb_false_iff _]%orb_false_iff _]. by apply negb_false_iff, bool_decide_eq_true in Er. }
  apply (from_bind _ _ _ (fun _ m => idle p m /\ queue (eng m) = [])).
  { intros m [Hm Hq]. split; [by apply (from_keeps (idle p)); [apply _|keep|]|]. unfold ask. by destruct (h_continuation H (world m)). }
  intros [|]; [by apply from_ret; intros m []|]. destruct (_ && _); [by apply from_ret; intros m []|].
  apply (from_bind _ _ _ (fun ok m => idle p m /\ (ok = true -> between p m))).
  { intros m [Hm Hq]. pose proof (ensure_spec m) as HR. destruct (ensure_idle p m Hm) as [Hi Hb]. split; [done|]. intros Hok. apply Hb; [done|].
    by rewrite (ra_eng _ _ _ HR). }
  intros [|]; cbn [negb]; [|by apply from_ret; intros m []]. apply (from_pre _ (poised p)); [|by intros m [Hi Hb]; split; auto].
  eapply from_bind; [apply build_poised|]. intros copy. eapply from_bind; [apply prompt_poised|]. intros [].
  destruct copy; [eapply from_pre; [apply begin_spec|by intros m []]|by apply from_ret; intros m []].
Qed.

Lemma start_refused m prompt images : underway RUNNING m -> tny_engine_start H cfg jparse prompt images m = ((-1, NOT_READY), m).
Proof.
  intros Hm. unfold tny_engine_start, mbind, M_bind, look. assert (refuse_turn (eng m) = true) as ->; [|done]. unfold refuse_turn.
  destruct Hm as [(c & _ & -> & _)|(_ & _ & -> & -> & _)]; by rewrite ?orb_true_r.
Qed.

(** ** The other calls *)

Lemma inv_put q p m f : inv_as q p m -> queue (f (eng m)) = queue (eng m) -> queue_count (f (eng m)) = queue_count (eng m) ->
  queue_bytes (f (eng m)) = queue_bytes (eng m) -> extension_continuations (f (eng m)) = extension_continuations (eng m) ->
  pending_terminal (f (eng m)) = pending_terminal (eng m) -> terminal (f (eng m)) = terminal (eng m) ->
  terminal_popped (f (eng m)) = terminal_popped (eng m) -> oom_error_reserve (f (eng m)) = oom_error_reserve (eng m) ->
  oom_terminal_reserve (f (eng m)) = oom_terminal_reserve (eng m) -> active (f (eng m)) = active (eng m) ->
  inv_as q p (m <| eng ::= f |>).
Proof.
  intros Hm E1 E2 E3 E4 E5 E6 E7 E8 E9 E10.
  assert (spare (eng m) -> spare (f (eng m))) as Hs by (unfold spare; by rewrite E8, E9).
  assert (forall a c, live a p c m -> live a p c (m <| eng ::= f |>)) as HL.
  { intros a c HL. pose proof HL as (_ & Ha & _). by eapply live_put; eauto; congruence. }
  assert (settled p m -> settled p (m <| eng ::= f |>)) as HS.
  { intros ([c L1] & L). split; [exists c; apply base_put; auto|]. cbn. by rewrite E1, E5, E6, E7, E10. }
  assert (gone p m -> gone p (m <| eng ::= f |>)) as HG.
  { intros ([c L1] & L). split; [exists c; apply base_put; auto|]. cbn. by rewrite E1, E5, E6, E7, E10. }
  destruct q; cbn in *; [destruct Hm as [[c Hm]|Hm]; [left; exists c|right]; auto| |auto].
  destruct Hm as [[c Hm]|Hm]; [left; exists c|right]; auto.
Qed.

Lemma put_spec p f : (forall m, inv p m -> inv p (m <| eng ::= f |>)) -> from (inv p) (put f) (fun _ => inv p).
Proof. intros Hf. by apply from_put. Qed.

Lemma prepare_spec p st : from (inv p) (tny_engine_prepare H st) (fun _ => inv p).
Proof.
  unfold tny_engine_prepare. apply from_past; [apply _|keep|intros e]. destruct (_ || _); [by apply from_ret|].
  assert (forall b, from (inv p) (put (fun e => e <| bk := b |>)) (fun _ => inv p)) as Hb by (intros b; apply from_put; intros m Hm; by apply inv_put).
  eapply from_bind; [apply Hb|]. intros []. apply from_past; [apply _|keep|intros rc].
  destruct (negb (rc =? 0)); [eapply from_bind; [apply Hb|intros []; by apply from_ret]|].
  apply from_past; [apply _|keep|intros rc']. destruct (negb (rc' =? 0)); [eapply from_bind; [apply Hb|intros []; by apply from_ret]|].
  by apply from_ret.
Qed.

Lemma compact_keeps d force trigger : keeps d (tny_engine_compact H cfg force trigger).
Proof. unfold tny_engine_compact. cbv zeta. keep. Qed.

Lemma end_session_keeps d reason : keeps d (tny_engine_end_session H cfg reason).
Proof. unfold tny_engine_end_session. keep. Qed.

Lemma selection_keeps d type previous current source : keeps d (notify_selection_change H cfg type previous current source).
Proof. unfold notify_selection_change. keep. Qed.

Lemma workspace_keeps d action path : keeps d (tny_engine_workspace_changed H cfg action path).
Proof. unfold tny_engine_workspace_changed. keep. Qed.

Lemma request_cancel_keeps d : keeps d (tny_engine_request_cancel (W := W) cfg).
Proof. unfold tny_engine_request_cancel. apply steps_put. intros e. by destruct (_ && _). Qed.

(** What the frontend is told last of a wait; a popped event is not noted yet. *)
Definition waited (p : telling) (r : option tny_engine_next) (m : machine W) : Prop :=
  match r with Some (NEXT_EVENT o) => shown p (Some o) m | _ => inv p m end.

Lemma next_pop_spec : from (underway RUNNING) (next_pop H) (waited RUNNING).
Proof.
  unfold next_pop. eapply from_bind; [exact (pop_spec RUNNING)|]. intros [o|]; [by apply from_ret|]. cbn [shown].
  apply from_past; [apply _|keep|intros [|]]; [by apply from_ret|]. apply from_past; [apply _|keep|intros [|]]; by apply from_ret.
Qed.

Lemma next_round_spec : from (underway RUNNING) (next_round H cfg jparse) (waited RUNNING).
Proof.
  unfold next_round. apply from_past; [apply _|keep|intros r].
  assert (forall k : Engine unit, from (underway RUNNING) k (fun _ => underway RUNNING) ->
    from (underway RUNNING) (k ;; next_pop H) (waited RUNNING)) as Hk by (intros k Hk; eapply from_bind; [exact Hk|intros []; apply next_pop_spec]).
  destruct r as [| |woken]; [by apply from_ret|apply Hk|apply Hk].
  - do 4 (apply from_past; [apply _|keep|intros ?]). apply after_backend_underway.
  - apply (from_bind _ _ _ (fun _ => underway RUNNING)).
    { apply from_when; [intros _; exact (take_cancel_spec RUNNING)|done]. }
    intros []. eapply from_bind; [apply dispatch_spec|]. intros rc. by apply from_ret.
Qed.

Lemma next_wait_spec rounds : from (underway RUNNING) (next_wait H cfg jparse rounds) (waited RUNNING).
Proof.
  induction rounds as [|rounds IH]; cbn [next_wait]; [by apply from_ret|]. eapply from_bind; [apply next_round_spec|].
  intros [r|]; [by apply from_ret|]. apply from_past; [apply _|keep|intros e]. destruct (active e); [exact IH|].
  destruct (terminal_popped e); by apply from_ret.
Qed.

Lemma next_event_spec p rounds : from (inv p) (tny_engine_next_event H cfg jparse rounds) (waited p).
Proof.
  unfold tny_engine_next_event. apply (from_bind _ _ _ (fun _ => inv p)).
  { apply from_when; [intros _; apply take_cancel_spec|done]. }
  intros []. eapply from_bind; [apply pop_spec|]. intros [o|]; [by apply from_ret|]. cbn [shown].
  apply from_look. intros e. destruct (terminal_popped e); [by apply from_ret; intros m []|].
  destruct (active e) eqn:Ea; cbn [negb]; [|by apply from_ret; intros m []].
  intros m [Hm He]. assert (p = RUNNING) as -> by (eapply inv_active; [exact Hm|congruence]). by apply next_wait_spec.
Qed.

Lemma fail_spec : from (underway RUNNING) (e ← look eng; when (active e) (fail_oom H cfg jparse)) (fun _ => underway RUNNING).
Proof.
  apply from_look. intros e. apply from_when; [intros Ha|by intros _ m []].
  eapply from_mono; [apply fail_oom_spec| |intros [] m Hm; by right]. intros m [[Hm|(_ & Hn & _)] <-]; [done|congruence].
Qed.

Lemma parked_idle m : active (eng m) = false -> tny_engine_parked H cfg m = (false, m).
Proof. intros Ha. unfold tny_engine_parked, mbind, M_bind, look. by rewrite Ha. Qed.

Lemma continue_resting : resting (tny_engine_continue H cfg jparse).
Proof. intros m Ha. unfold tny_engine_continue. unfold mbind at 1, M_bind at 1. by rewrite parked_idle. Qed.

Lemma parked_keeps d : keeps d (tny_engine_parked H cfg).
Proof. unfold tny_engine_parked. keep. Qed.
#[local] Hint Resolve parked_keeps : keeps.

Lemma continue_spec p : from (underway p) (tny_engine_continue H cfg jparse) (fun _ => underway p).
Proof.
  unfold tny_engine_continue. apply from_past; [apply _|keep|intros [|]]; cbn [negb]; [|by apply from_ret].
  do 3 (apply from_past; [apply _|keep|intros ?]). eapply from_bind; [apply after_backend_underway|]. intros []. by apply from_ret.
Qed.

(** The continuations a checkpoint starts with. *)
Definition continuations_of (r : option jval) : Z := to_int (jget_int r B"extension_continuations" 0).

(** Ready for a checkpoint. *)
Definition ready (p : telling) (m : machine W) : Prop := poised p m /\ pending_terminal (eng m) = None.

Lemma from_ready {A T} p (f : Engine A) (k : A -> Engine T) Q :
  (forall m, same m (snd (f m))) -> (forall a, from (ready p) (k a) Q) -> from (ready p) (f ≫= k) Q.
Proof.
  intros Hf Hk. apply (from_bind _ _ _ (fun _ => ready p)); [|exact Hk]. intros m [Hm Hp]. pose proof (Hf m) as Hs.
  split; [by eapply poised_same|]. destruct Hs as (_ & -> & _). done.
Qed.

Lemma restore_texts_spec p r : (limited -> 0 <= continuations_of r <= cf_max_iterations cfg) ->
  from (ready p) (restore_texts H r) (fun _ => live true p (continuations_of r)).
Proof.
  intros Hr. unfold restore_texts. cbv zeta. do 6 (apply from_ready; [intros m; first [apply dup_same|apply extend_same]|intros ?]).
  apply from_put. intros m [[_ ([c [(T1 & T2 & T3) B2 B3 B4 B5 B6 B7]] & Ha & Hr' & Hq)] Hp].
  split; [constructor; cbn; auto|].
  - unfold tallied. cbn. rewrite Hq in *. split_and!; [done..|]. exists [], []. unfold size_of, ENGINE_EVENT_MAX, ENGINE_EVENT_BYTES_MAX. cbn.
    split_and!; try done; lia.
  - cbn. rewrite Hq. by split_and!.
Qed.

Lemma restoring_spec p r : (limited -> 0 <= continuations_of r <= cf_max_iterations cfg) ->
  from (fun m => idle p m /\ queue (eng m) = [] /\ pending_terminal (eng m) = None) (tny_engine_restore H cfg r) (fun rc => begun p rc).
Proof.
  intros Hr. unfold tny_engine_restore. apply from_look. intros e. destruct (_ || _); [by apply from_ret; intros m [[] _]|].
  apply (from_bind _ _ _ (fun ok m => idle p m /\ (ok = true -> between p m) /\ pending_terminal (eng m) = None)).
  { intros m [(Hm & Hq & Hp) _]. pose proof (ensure_spec m) as HR. destruct (ensure_idle p m Hm) as [Hi Hb].
    split_and!; [done| |by rewrite (ra_eng _ _ _ HR)]. intros Hok. apply Hb; [done|]. by rewrite (ra_eng _ _ _ HR). }
  intros [|]; cbn [negb]; [|by apply from_ret; intros m []]. apply (from_pre _ (ready p)); [|by intros m (Hi & Hb & Hp); split; [split|]; auto].
  apply from_ready; [intros m; unfold ask; by destruct (h_restore H _ (world m))|]. intros [|]; cbn [negb]; [|by apply from_ret; intros m [[] _]].
  eapply from_bind; [by apply restore_texts_spec|]. intros []. apply from_ret. intros m Hm. left. by exists (continuations_of r).
Qed.

Lemma started_inv p prompt images m : inv p m -> exists q, tell_next p (Began (fst (fst (tny_engine_start H cfg jparse prompt images m)) =? 0)) = Some q /\
  inv_as q p (snd (tny_engine_start H cfg jparse prompt images m)).
Proof.
  intros Hm. destruct p.
  2: { rewrite start_refused by done. by exists RUNNING. }
  all: pose proof (start_spec _ prompt images m ltac:(first [exact Hm|by right])) as Hs; unfold begun in Hs;
    destruct (_ =? 0); [exists RUNNING|exists IDLE]; by split.
Qed.

Lemma restore_refused m r : active (eng m) = true -> tny_engine_restore H cfg r m = (-1, m).
Proof.
  intros Ha. unfold tny_engine_restore, mbind, M_bind, look. cbn. by rewrite Ha, orb_true_r.
Qed.

Lemma restore_inv p r m : (limited -> 0 <= continuations_of r <= cf_max_iterations cfg) -> inv p m -> queue (eng m) = [] -> pending_terminal (eng m) = None ->
  exists q, tell_next p (Began (fst (tny_engine_restore H cfg r m) =? 0)) = Some q /\ inv_as q p (snd (tny_engine_restore H cfg r m)).
Proof.
  intros Hr Hm Hq Hp. destruct p.
  2: { destruct Hm as [(c & HL)|(_ & _ & _ & _ & _ & (q & o & E & _))]; [|rewrite Hq in E; by destruct q].
       rewrite restore_refused by apply HL. exists RUNNING. split; [done|]. left. by exists c. }
  all: pose proof (restoring_spec _ r Hr m ltac:(split; [first [exact Hm|by right]|done])) as Hs; unfold begun in Hs;
    destruct (_ =? 0); [exists RUNNING|exists IDLE]; by split.
Qed.

(** ** Every call *)

Definition fitting (c : call) : Prop := match c with RESTORE r => limited -> 0 <= continuations_of r <= cf_max_iterations cfg | _ => True end.

Lemma keeps_inv {A} p (f : Engine A) : keeps 260 f -> from (inv p) f (fun _ => some_inv).
Proof. intros Hf. eapply from_mono; [apply (from_keeps (inv p)); [apply _|exact Hf]|done|]. intros a m Hm. by exists p. Qed.

Lemma quiet_inv {A} p (f : Engine A) : from (inv p) f (fun _ => inv p) -> from (inv p) (_ ← f; mret tt) (fun _ => some_inv).
Proof. intros Hf. eapply from_bind; [exact Hf|]. intros a. apply from_ret. intros m Hm. by exists p. Qed.

Lemma resting_inv {A} p (f : Engine A) : resting f -> from (underway RUNNING) f (fun _ => underway RUNNING) ->
  from (inv p) (_ ← f; mret tt) (fun _ => some_inv).
Proof. intros Hr Hf. by apply quiet_inv, from_inv. Qed.

Lemma some_unit p (f : Engine unit) : from (inv p) (_ ← f; mret tt) (fun _ => some_inv) -> from (inv p) f (fun _ => some_inv).
Proof.
  intros Hf m Hm. specialize (Hf m Hm). unfold mbind, M_bind in Hf. by destruct (f m).
Qed.

Lemma perform_spec c : fitting c -> from some_inv (perform H cfg jparse c) (fun _ => some_inv).
Proof.
  intros Hc. unfold some_inv at 1. apply from_ex. intros p. destruct c; cbn [perform].
  - apply quiet_inv, prepare_spec.
  - intros m Hm. destruct (started_inv p prompt images m Hm) as (q & Hq & Hm').
    unfold mbind, M_bind. destruct (tny_engine_start H cfg jparse prompt images m) as [[rc err] m']. exists q. by eapply (inv_note p).
  - apply resting_inv; [apply steer_resting|apply steer_spec].
  - apply some_unit, resting_inv; [apply cancel_resting|apply cancel_spec].
  - apply some_unit, resting_inv; [|apply fail_spec]. intros m Ha. rewrite snd_bind. cbn [look fst snd]. by rewrite Ha.
  - apply some_unit, resting_inv; [apply respond_resting|apply respond_spec].
  - apply resting_inv; [apply dispatch_resting|apply dispatch_spec].
  - eapply from_bind; [apply pop_spec|]. intros [o|]; cbn [pop_noted]; [apply note_popped|].
    apply from_ret. intros m Hm. by exists p.
  - eapply from_bind; [apply next_event_spec|].
    intros [[| |o|]|]; try (apply from_ret; intros m Hm; by exists p). apply note_popped.
  - apply keeps_inv, request_cancel_keeps.
  - apply keeps_inv. keep. apply compact_keeps.
  - apply keeps_inv, end_session_keeps.
  - apply keeps_inv, selection_keeps.
  - apply keeps_inv, workspace_keeps.
  - apply from_look. intros e. destruct (_ && _) eqn:E; cbn [when]; [|apply from_ret; intros m [Hm _]; by exists p].
    apply andb_true_iff in E as [Eq Ep]. apply bool_decide_eq_true in Eq, Ep.
    intros m [Hm <-]. destruct (restore_inv p r m Hc Hm Eq Ep) as (q & Hq & Hm').
    unfold mbind, M_bind. destruct (tny_engine_restore H cfg r m) as [rc m']. exists q. by eapply (inv_note p).
  - apply resting_inv; [apply continue_resting|apply continue_spec].
  - apply keeps_inv, keeps_same. intros m. by split_and!.
Qed.

Lemma calls_spec l : Forall fitting l -> from some_inv (calls H cfg jparse l) (fun _ => some_inv).
Proof.
  unfold calls. induction 1 as [|c l Hc Hl IH]; cbn [each]; [by apply from_ret|]. eapply from_bind; [by apply perform_spec|]. by intros [].
Qed.

Lemma base_start w : base IDLE 0 (machine0 w).
Proof.
  constructor; try done. split_and!; [done..|]. exists [], []. unfold size_of, ENGINE_EVENT_MAX, ENGINE_EVENT_BYTES_MAX. cbn. split_and!; try done; lia.
Qed.

(** An engine is made and used, or there is none. *)
Definition unmade (m : machine W) : Prop := base IDLE 0 m /\ active (eng m) = false /\ pending_terminal (eng m) = None /\ queue (eng m) = [] /\ trace m = [].

Lemma session_spec l w : Forall fitting l -> from (fun m => m = machine0 w) (session_run H cfg jparse l) (fun _ m => some_inv m \/ unmade m).
Proof.
  intros Hl m ->. unfold session_run, tny_engine_new, mbind, M_bind.
  pose proof (ensure_spec (machine0 w)) as HR. pose proof (rearmed_base _ _ _ _ _ (base_start w) HR) as HB.
  destruct (ensure_oom_reserves H cfg (machine0 w)) as [made m]. cbn [fst snd] in *. destruct made.
  - left. apply (calls_spec l Hl). exists IDLE. left. exists 0. pose proof (ra_armed _ _ _ HR (b_spare _ _ _ (base_start w)) eq_refl) as A.
    destruct HR as [E _ _ _ _]. split; [done|]. rewrite E. split_and!; try done. intros Hx%Hlimited. lia.
  - right. destruct HR as [E [_ R] _ _ _]. cbn [snd mret M_ret]. split; [done|]. by rewrite E.
Qed.

End calls.
