(* ===== verification/EngineSafe.v ===== *)
(** What the turn engine promises to its frontend and to extensions, after any
    calls in any order, with any backend, extensions and host, and memory that
    fails at any time. *)
From S2P Require Import Prelude Decimal Effects Json JsonText JsonValue StreamDecode ExecControl EngineEvents Engine EngineInv EngineHeeds EngineCalls.

Open Scope Z_scope.

(** ** Specification *)

(** No end of a turn is queued; or it is the last event, and will be seen. *)
Definition unended (q : list tny_owned_event) : Prop := Forall (fun o => is_end o = false) q.
Definition ended (q : list tny_owned_event) : Prop :=
  exists q' o, q = q' ++ [o] /\ is_end o = true /\ o_suppressed o = false /\ unended q'.

(** Where the engine is when the frontend was told so much. *)
Definition stands (p : telling) (e : tny_engine) : Prop :=
  match p with
  | IDLE => active e = false /\ unended (queue e)
  | RUNNING => if active e then terminal e = false /\ unended (queue e) else pending_terminal e = None /\ ended (queue e)
  | OVER => active e = false /\ queue e = []
  end.

(** The tally of the queue is right, and so is what its memory is counted as; it
    is within its limits but for the events of a turn that is over. *)
Definition within_limits (e : tny_engine) : Prop :=
  queue_count e = Z.of_nat (length (queue e)) /\ queue_bytes e = size_of (queue e) /\
  Forall (fun o => texts (o_ev o) <= o_bytes o) (queue e) /\
  exists within last, queue e = within ++ last /\ Z.of_nat (length within) <= ENGINE_EVENT_MAX /\
    size_of within <= ENGINE_EVENT_BYTES_MAX /\ (length last <= 2)%nat /\ Forall reserved last /\ (terminal e = false -> last = []).

(** ** Reading the invariant *)

Lemma ordinary_unended q : Forall ordinary q -> unended q.
Proof. apply Forall_impl. by intros o []. Qed.

Lemma empty_unended q : q = [] -> unended q.
Proof. intros ->. constructor. Qed.

Lemma closed_ended q : closed q -> ended q.
Proof. intros (q' & o & -> & (H1 & H2 & _) & Hq). exists q', o. split_and!; auto using ordinary_unended. Qed.

Lemma tallied_limits e : tallied e -> within_limits e.
Proof.
  intros (T1 & T2 & within & last & E & H1 & H2 & H3 & H4 & H5 & H6). split_and!; [done..| |by exists within, last].
  eapply Forall_impl; [|exact H6]. by intros o [].
Qed.

Section runs.
Context {W : Type} (H : host W) (cfg : settings) (jparse : bytes -> option jval).

Lemma some_base (limited : Prop) (m : machine W) : some_inv cfg limited m \/ unmade limited m -> exists p c, base limited p c m.
Proof.
  intros [(p & Hm)|[Hb _]]; [|by exists IDLE, 0]. exists p.
  destruct p; cbn in Hm; [destruct Hm as [(c & Hb & _)|([c Hb] & _)]|destruct Hm as [(c & Hb & _)|([c Hb] & _)]|destruct Hm as ([c Hb] & _)]; by exists c.
Qed.

Lemma some_stands (limited : Prop) (m : machine W) : some_inv cfg limited m \/ unmade limited m ->
  exists p, told (trace m) = Some p /\ stands p (eng m).
Proof.
  intros [(p & Hm)|(_ & Ha & _ & Hq & Ht)]; [|exists IDLE; rewrite Ht; split; [done|]; split; [done|by apply empty_unended]].
  exists p. unfold inv in Hm. destruct p; cbn in *.
  - destruct Hm as [(c & Hb & Ha & _ & _ & _ & Ho & _)|([c Hb] & Ha & _ & _ & _ & Hq)]; (split; [apply Hb|]); (split; [done|]);
      [by apply ordinary_unended|by apply empty_unended].
  - destruct Hm as [(c & Hb & -> & Ht & _ & _ & Ho & _)|([c Hb] & -> & _ & _ & Hp & Hc)]; (split; [apply Hb|]); (split; [done|]);
      [by apply ordinary_unended|by apply closed_ended].
  - destruct Hm as ([c Hb] & Ha & _ & _ & _ & Hq). split; [apply Hb|done].
Qed.

Lemma some_active (limited : Prop) (m : machine W) : some_inv cfg limited m \/ unmade limited m -> active (eng m) = true ->
  exists c, live cfg limited true RUNNING c m.
Proof.
  intros [(p & Hm)|(_ & Ha & _)] Hact; [|congruence]. pose proof (inv_active _ _ _ _ Hm Hact) as ->.
  destruct Hm as [Hm|(_ & Ha & _)]; [done|congruence].
Qed.

(** What holds after the calls [l]. *)
Notation after l w := (snd (session_run H cfg jparse l (machine0 w))).

Lemma no_limits l : Forall (fitting cfg False) l.
Proof. apply Forall_forall. by intros [] _. Qed.

(** C3: Let an engine be made and its functions be called in any order, with any
    arguments, for any backend, any answers of the extensions and of the host,
    and allocations that fail at any time (only, a checkpoint is restored into
    an engine that has no events queued, and a frontend reports its own lack of
    memory while a turn is active). Then (1) what the frontend is told is a
    sequence of turns: a turn that was accepted shows its events up to exactly
    one end, after which no event is taken until another turn is to start, and no
    turn is accepted before that; a start that is refused or fails may leave
    events, but no end; (2) the engine is where the frontend was
    told: a turn it was not yet told the end of is active, or its end is the last
    event of the queue and not suppressed, and otherwise nothing is active; (3)
    the queue keeps to its limits: the tally of events and bytes is right, counts
    all the texts, and is within 256 events and 1 MiB, but for at most the two
    events that end a turn; (4) an active turn can be ended without memory: its
    settlement leaves the end last in the queue, within the same limits. *)
Theorem engine_run_safe l w :
  let m := after l w in
  (exists p, told (trace m) = Some p /\ stands p (eng m)) /\ within_limits (eng m) /\
  (active (eng m) = true -> let m' := snd (fail_oom H cfg jparse m) in
    active (eng m') = false /\ ended (queue (eng m')) /\ within_limits (eng m')).
Proof.
  intros m. assert (some_inv cfg False m \/ unmade False m) as Hm.
  { apply session_spec with (w := w); [done|apply no_limits|done]. }
  split; [by eapply some_stands|]. split.
  { destruct (some_base _ _ Hm) as (p & c & Hb). apply tallied_limits, Hb. }
  intros Ha. destruct (some_active _ _ Hm Ha) as [c HL].
  destruct (fail_oom_spec H cfg jparse False RUNNING m ltac:(by exists c)) as ([c' Hb] & Hn & _ & _ & _ & Hc).
  split_and!; [done|by apply closed_ended|apply tallied_limits, Hb].
Qed.



End runs.

(** ** Runs *)

(** The kinds of the events that were taken, with the stop of an end. *)
Definition taken_kinds {W} (m : machine W) : list (tny_event_kind * tny_stop_reason) :=
  rev (omap (fun i => match i with Popped o => Some (ev_kind (o_ev o), ev_stop (o_ev o)) | _ => None end) (trace m)).

(** A host where everything succeeds, for what a backend sends, whether it takes
    a dispatch, and what extensions answer. *)
Definition always {A} (a : A) (w : unit) : A * unit := (a, w).

Definition fine_host (send : prog unit (Z * bytes)) (dispatch : prog unit Z) (answer : bytes -> list tny_extension_action) : host unit := {|
  h_memory := always false; h_clear := id; h_text := always true; h_clock := always 7; h_notify := id;
  h_invoke := fun event _ => always (Some (mk_result (answer event) []));
  h_edit := fun _ => id; h_save := always true; h_continuation := always false; h_titled := always true;
  h_message_count := always 0; h_skills := fun _ => always (None, []); h_probe := None; h_poll := always (POLL_READY false);
  h_deadline := always false; h_compact_needed := fun _ => always false; h_compact_observed := always false;
  h_compact := fun _ => always 0; h_boundary := always (0, None); h_parked := always false; h_checkpoint := always None;
  h_restore := fun _ => always false; bk_connect := always 0; bk_resume := None; bk_pointer := None;
  bk_send := fun _ _ => send; bk_steer := None; bk_cancel := None; bk_respond := None; bk_dispatch := Some dispatch;
  bk_continue := Done 0 |}.

Definition plain_settings (extensions : bool) : settings :=
  mk_settings B"s" B"openai" BK_OPENAI extensions 2 4 None None [] [] [] false false false.

Definition run_with (extensions : bool) (h : host unit) (l : list call) : machine unit :=
  snd (session_run h (plain_settings extensions) (fun _ => None) l (machine0 tt)).

(** A backend that answers at once and ends when it is dispatched, and an
    extension that always asks to go on. *)
Module Continued.

Definition go_on : tny_extension_action :=
  mk_action ACTION_CONTINUE (Some B"reviewer") (Some B"go on") None None None false EXTENSION_ABSTAIN true false.

Definition h : host unit :=
  fine_host (Emit (text_event EV_TEXT_DELTA B"answer") (Done (0, []))) (Emit (end_event STOP_DONE) (Done 0))
    (fun event => if decide (event = B"agent_end") then [go_on] else []).

Definition calls_of (dispatches pops : nat) : list call :=
  PREPARE PREPARE_FRESH :: START B"fix it" [] :: repeat DISPATCH dispatches ++ repeat POP pops.

(** The limit is 2: the third end is the end of the turn. *)
Example turn_continues :
  map (fun n => taken_kinds (run_with true h (calls_of n 9))) [1; 3]%nat =
  [[(EV_TEXT_DELTA, STOP_DONE); (EV_USER_MESSAGE, STOP_DONE); (EV_TEXT_DELTA, STOP_DONE)];
   [(EV_TEXT_DELTA, STOP_DONE); (EV_USER_MESSAGE, STOP_DONE); (EV_TEXT_DELTA, STOP_DONE); (EV_USER_MESSAGE, STOP_DONE);
    (EV_TEXT_DELTA, STOP_DONE); (EV_USER_MESSAGE, STOP_DONE); (EV_STATUS, STOP_DONE); (EV_TURN_END, STOP_DONE)]].
Proof. vm_compute. reflexivity. Qed.

(** The end was numbered before the events that extensions added in front of it. *)
Example sequence_not_monotone :
  rev (omap (fun i => match i with Popped o => Some (o_sequence o) | _ => None end) (trace (run_with true h (calls_of 3 9)))) =
  [7; 15; 19; 27; 31; 39; 40; 35].
Proof. vm_compute. reflexivity. Qed.

End Continued.

(** A backend that reports more than a queue holds and its end, at once. The
    events that do not fit are lost without a word; the next turn is told of them. *)
Module Overflowing.

Fixpoint deltas (n : nat) : prog unit (Z * bytes) :=
  match n with
  | O => Emit (end_event STOP_DONE) (Done (0, []))
  | S n => Emit (text_event EV_TEXT_DELTA B"x") (deltas n)
  end.

Definition h : host unit := fine_host (deltas 300) (Done 0) (fun _ => []).

Definition first_turn : list call := PREPARE PREPARE_FRESH :: START B"one" [] :: repeat POP 260.

Example overflow_unreported :
  taken_kinds (run_with false h first_turn) = repeat (EV_TEXT_DELTA, STOP_DONE) 254 ++ [(EV_TURN_END, STOP_DONE)].
Proof. vm_compute. reflexivity. Qed.

(** With a backend that is quiet from now on. *)
Definition quiet : host unit := fine_host (Done (0, [])) (Done 0) (fun _ => []).

Example overflow_misreported :
  let m := run_with false h first_turn in
  let m' := snd (calls quiet (plain_settings false) (fun _ => None) [START B"two" []; POP; POP] (m <| trace := [] |>)) in
  taken_kinds m' = [(EV_ERROR, STOP_DONE); (EV_TURN_END, STOP_ERROR)].
Proof. vm_compute. reflexivity. Qed.

End Overflowing.

(** ** The hypotheses can hold *)

